(* ===== verification/_CoqProject ===== *)
-Q . S2P
Prelude.v
Utils.v
Libs.v
Core.v
Messages.v
Storage.v
Chain.v
MerkleProof.v
Overhead.v
Pbft.v
PbftRecord.v
ProposeLoop.v
Recovery.v
RecoveryFacts.v
PbftFacts.v
ViewFacts.v
RelayModule.v
RelayFacts.v
ClpaModule.v
ClpaFacts.v
Partition.v
PartitionFacts.v
Contribution.v
ContribModule.v
ContribFacts.v
Supervisor.v
SupervisorFacts.v
Broker.v
BrokerFacts.v
Committee.v
CommitteeFacts.v
Cbf.v
Sealing.v
Network.v
BrokerFile.v
ExClique.v
ExCliqueFacts.v
Float64.v
PLouvain.v
PLouvainFacts.v
PLouvainCommittee.v
PLouvainCommitteeFacts.v
ContribPartition.v
ContribPartitionFacts.v
CopyState.v
EpochControl.v
EpochControlFacts.v
ClpaBrokerModule.v
ClpaBrokerFacts.v
Measure.v
MeasureFacts.v
OverheadCommittee.v
OverheadCommitteeFacts.v
SupervisorProcess.v
SupervisorProcessFacts.v
Setup.v
SetupFacts.v
Csv.v
Output.v
OutputFacts.v
Shutdown.v
ShutdownFacts.v
Trace.v
TraceFacts.v
System.v
SystemSeq.v
SystemLog.v
SystemNode.v
SystemInv.v
SystemState.v
SystemFacts.v
SystemMoney.v
SystemExample.v
SystemSupervisor.v
SystemView.v
SystemViewFacts.v
SystemViewAgree.v
SystemViewExample.v
