(* ===== verification/Prelude.v ===== *)
(** * BLBChain: a verification development

    BLBChain (package [blockEmulator]) emulates a sharded blockchain.  Accounts are spread over
    shards; every shard runs PBFT among its nodes; a transaction between two shards is executed in
    two halves, the first by the sender's shard and the second, relayed, by the recipient's.  A
    supervisor injects transactions and, in the re-partitioning methods, computes from the graph
    of past transactions which accounts should move to which shard; the shards then exchange
    account states and pending transactions.  This library models that program and proves what
    its parts promise.  Definitions are executable and keep the names of the Go code; what the
    source only calls (hashes, gob and JSON codecs, bitset, boltdb, go-ethereum's trie) is an
    interface with its documented laws.

    ** Layout: file, source under src/, contents

    - [Prelude]: panics as values ([go]), loops ([go_fold]), machine integers ([u64], [i64],
      [i32]), sums, sorting, record update, tactics.
    - [Utils]: [params/] as the class [Params]; [utils/]: [Addr2Shard], [ModBytes].
    - [Libs]: the interfaces [Codec], [CryptoLib], [BitSetLib], [BoltLib], [TrieLib], each with a
      class of laws, and concrete instances ([ConcreteLibs]) that satisfy them.
    - [Core]: [core/]: accounts, transactions, blocks, the transaction pool.
    - [Messages]: [message/], [shard/]: message structs, the 30-byte tag of a message.
    - [Storage]: [storage/storage.go]: the three buckets of the block store.
    - [Chain]: [chain/blockchain.go]: the chain with its status trie.
    - [MerkleProof]: [chain/merkleproof.go]: proofs that a transaction is in a block.
    - [Overhead]: [consensus_shard/pbft_all/overhead.go]: compact proposals and body recovery.
    - [Pbft], [PbftFacts]: [pbft.go], [messageHandle.go], [view_change.go], [toolFuncs.go]: the
      consensus node.  The state is [PbftConsensusNode X], where [X] is the state of the two
      plugged-in modules; [ExtraOpInConsensus] and [OpInterShards] are the interfaces of
      [pbftMod_interface.go].  A handler returns the new state and the packets it sends; [Ok
      None] is a goroutine that still waits for a lock or a stage.  A commit handler that blocks on
      [askForLock] has changed the state and holds [pbftLock]: its commit is kept in [blockedCommit],
      and [handleCommit_resume] is the rest of it.  [step] and [run] are the interleavings of messages,
      proposals and time-outs; in a run that is [paced] proposals are sent only by goroutines that
      have taken [sequenceLock].  [PbftRecord] runs a node with a module that records the calls of its
      commit operation: [exec_log] is what the node executes, read off its handlers.
    - [RelayModule], [RelayFacts]: [pbftInside_module.go], [pbftOutside_module.go]: the modules of
      the relay mechanism.
    - [ClpaModule], [ClpaFacts]: [accountTransfer_module.go], [pbftInside_moduleCLPA.go],
      [pbftOutside_moduleCLPA.go], [dataSupport/]: re-partitioning between shards.
    - [ContribModule], [ContribFacts]: [pbftInside_moduleContrib.go],
      [pbftOutside_moduleContrib.go]: the modules of the ContribChain method.
    - [Partition], [PartitionFacts]: [partition/graph.go], [partition/partition_CLPA.go]: the
      account graph and constrained label propagation, with IEEE [float64] scores.
    - [Contribution]: [partition/partition_Contrib.go], [partition/contribution_calculator.go].
    - [ContribPartition], [ContribPartitionFacts]: the ContribChain extension in the second half of
      [partition/partition_CLPA.go], and the two initial partitions.
    - [Supervisor], [SupervisorFacts]: [supervisor/supervisor.go],
      [supervisor/signal/supervisorStopModule.go], [supervisor/committee/committee_relay.go]: the
      stop signal, reading rows into transactions, routing and injection.
    - [Committee], [CommitteeFacts]: [supervisor/committee/committee_clpa.go]: the committee that
      re-partitions; [cstep] and [crun] interleave its loop with the reports of the shards.
    - [Broker], [BrokerFacts]: [broker/broker.go], [supervisor/committee/committee_broker.go],
      [pbftInside_moduleBroker.go], [pbftOutside_moduleBroker.go]: the broker method, which splits
      a cross-shard transaction in two at the supervisor instead of relaying it.
    - [ClpaBrokerModule], [ClpaBrokerFacts]: [pbftInside_modCLPABroker.go],
      [accountTransfermod_Broker.go], [pbftOutside_modCLPABroker.go]: the broker modules that
      also re-partition, built on the definitions of [ClpaModule] and [Broker].
    - [EpochControl], [EpochControlFacts]: [supervisor/committee/committee_contrib.go],
      [supervisor/committee/committee_clpa_broker.go]: one control loop over the class
      [EpochCommittee], with an instance for each of the two committees.
    - [Float64]: integers, halves and multiples by 1.5 are exact in [float64] below 2^53.
    - [PLouvain], [PLouvainFacts]: [partition/partition_PLouvain.go]: the Louvain partition.
    - [PLouvainCommittee], [PLouvainCommitteeFacts]:
      [supervisor/committee/committee_plouvain.go]: the default method of the supervisor.
    - [OverheadCommittee], [OverheadCommitteeFacts]:
      [supervisor/committee/committee_overhead.go]: the controlled migration.
    - [Measure], [MeasureFacts]: [supervisor/measure/]: the five measures of both methods.
    - [SupervisorProcess], [SupervisorProcessFacts]: [supervisor/supervisor.go]: reports go to the
      stop signal, to a committee behind the class [CommitteeModule] and to the measures.
    - [Cbf], [Sealing], [ExClique], [ExCliqueFacts]: [consensus_shard/exclique/]: the counting
      Bloom filter, delays and order of sealing, and the node that replaces PBFT.
    - [Network]: [networks/]: framing, the connection pool, retries, rate-limited writing, reading.
    - [ProposeLoop], [ViewFacts]: the goroutines of [Propose] that pace proposals, and the lock that
      a leader holds during a round.
    - [Recovery], [RecoveryFacts]: the recovery of a compact proposal with its deadline, and the queue
      of streamed transactions ([overhead.go]).
    - [CopyState]: [CopyGraph] and [CopyCLPA], with the slice they share.
    - [BrokerFile]: [initBrokerAddr] of [broker/broker.go].
    - [Setup], [SetupFacts]: [params/], [build/], [main.go]: configuration, start scripts, start-up.
    - [Csv], [Output], [OutputFacts]: the CSV files of the measures and of the leaders' metrics, with
      [encoding/csv] as writer and reader.
    - [Trace], [TraceFacts]: [experiment/trace.go] and the audit at the end of [overhead.go].
    - [Shutdown], [ShutdownFacts]: [SupervisorTxHandling] of [supervisor/supervisor.go].
    - [System]: all processes of all shards, started as [BuildNewPbftNode] starts them, and the packets
      under way; [sys_step] interleaves their goroutines.  [SystemSeq] bounds the sequence numbers;
      [SystemLog], [SystemNode], [SystemInv] are the invariant: the log of a shard, one node, all of
      them.  [SystemState] reads the executed chains, the proposed blocks and all transactions off a
      state.  [SystemFacts], [SystemMoney] are the theorems, [SystemExample] an evaluated run.
    - [SystemSupervisor]: the system with the relay committee that feeds it from the dataset.
    - [SystemView], [SystemViewFacts], [SystemViewExample]: the system with time-outs and view changes;
      [SystemViewAgree]: its runs without time-outs.

    ** What the theorems show

    - Consensus ([PbftFacts]): in every run a request is executed at most once, and only with
      commit votes of 2f+1 different nodes and the request at hand; the sequence number moves by
      one per execution; stale messages change nothing; a full round makes a node execute; view
      changes take 2f+1 votes; quorums intersect for N = 3f+1.  Four theorems state where the
      code falls short: catch-up skips a block, a commit of a later sequence is executed as the
      current one, a node prepares two proposals, quorums for N = 6 need not intersect.
    - Ledger ([Chain]): executing a block refines a balance semantics on addresses, conserves
      value up to what crosses the shard, and is the same on leader and replica; blocks generated
      are valid and become current; blocks that do not extend the chain change nothing; a restart
      recovers the chain.  The state root of a block is never checked.
    - Relay ([RelayFacts]): the leader relays exactly the cross-shard transactions; a whole shard
      round refines the ledger; a cross-shard transfer conserves value if the sender can pay and
      creates value if not.
    - Re-partitioning ([ClpaFacts], [ContribFacts]): leaving transactions are split without loss
      and pass the receiver's check; an account that moves keeps balance and nonce from the old
      shard's chain to the committed chain of the new shard; the ContribChain module, which drops
      received transactions that do not fit, drops none that a shard with the same map sent, and
      loses relays that carry proofs.
    - Supervisor ([SupervisorFacts]): every transaction is sent once, in order, to the leader of
      its shard; the committee sends exactly the rows it should, or loses the last incomplete
      batch; the stop signal fires exactly after enough empty reports in a row.
    - Committee ([CommitteeFacts]): the committee routes every address as a shard that has applied
      its maps, sends a map only after the last one was acknowledged, never panics on well-formed
      input and sends only maps into existing shards.
    - Broker ([BrokerFacts]): of every batch exactly the cross-shard transactions are split; the two
      halves of each are sent once to the right shards, the second after the first was reported, in
      reports of any number of halves; the leaders' reports tell the halves apart.  Where the code
      falls short: the halves create or destroy value unless the broker's account is in a third
      shard, a repeated report pays twice, and catching up adds no blocks.
    - Partition ([PartitionFacts], [Contribution], [ContribPartitionFacts]): the counters of the
      graph count its edges, the incremental update equals the full computation, the partition
      returns valid shards and empties none, for every visiting order; the same holds for the
      partition by contributions, whose early end loses no move; initial partitions place like
      [Addr2Shard] or leave no shard empty; reallocation by contribution is a fair rotation.
    - Proofs and messages ([MerkleProof], [Overhead], [Messages], [Core]): proofs are found and
      verify exactly for the transactions of a block (and verify for any other hash too), compact
      proposals are rebuilt exactly, framing round-trips, the pool is a queue.
    - Louvain ([PLouvainFacts], [PLouvainCommitteeFacts]): for every order of the loops over maps
      the partition returns, its communities partition the vertices, every vertex gets an
      existing shard, moving vertices only removes edges between shards; the committee's initial
      distribution is balanced and every row is sent once to the shard of its sender.  The shards
      are never told the placement, so the method creates value.
    - Control loops ([EpochControlFacts], [OverheadCommitteeFacts]): at most one map is
      outstanding and every transaction is injected where the maps sent so far put its payer; the migration of the overhead experiment is
      a barrier between the rows routed by the old and by the new placement.
    - Broker re-partitioning ([ClpaBrokerFacts]): what is kept, moved and handed back is the
      queue, and what is kept and moved passes the check at the commit under the new map.
    - Measures ([MeasureFacts], [SupervisorProcessFacts]): the [float64] columns are exact sums
      of the reports per epoch, in any order of arrival; reports never make a measure panic.
    - ExClique ([Cbf], [Sealing], [ExCliqueFacts]): the filter refines a multiset while no counter
      saturates; one validator is in turn per block; delays stay in their range; what a peer
      rebuilds from a compact block.  Adding a proposed block never executes its transactions.
    - Network ([Network]): writing ends and delivers all bytes or the writer's error; retries
      and the pool; what is written is read back as the same messages.
    - System ([SystemViewAgree], [SystemFacts], [SystemMoney], [SystemSupervisor]): without time-outs,
      in every interleaving and for every order of packets no process panics, the nodes of a shard execute
      prefixes of one log, every transaction of the dataset is in one place at every moment and, at rest,
      once in the chains that the leaders read back from their databases, and money is conserved up to the
      overdrafts that are relayed.
    - View changes ([SystemViewFacts], [SystemViewExample], [ViewFacts]): with time-outs every node
      still has a valid, executed chain, and panics only by releasing a lock it does not hold; but
      correct nodes can execute different blocks, that panic can happen, and a leader deposed during a
      round never proposes again.
    - Files ([OutputFacts], [TraceFacts]): every file is read back as its header and its rows, the
      counts are exact, the audit lists the accounts of the shard.
    - Ends ([ShutdownFacts], [RecoveryFacts], [SetupFacts], [ProposeLoop], [BrokerFile]): nodes are
      stopped once and only after enough reports of empty blocks in a row, while messages are handled
      before, during and after the writing of each measure; the recovery of a proposal gives the leader's
      proposal or nothing; the start scripts start every node once; proposals keep the block interval.

    ** Bounds and fuel

    All loops are structural: over the slice, over [seq] for counted loops, over [MaxIterations]
    in [CLPA_Partition], over the code's own bounds of 30 iterations and 5 rounds in PLouvain,
    over the number of bytes in the chunked write and over the height of the chain in the proof
    search; theorems show that the last two always suffice.  Loops that wait for other goroutines
    are machines with one step per look at their condition.  Statements about [float64] counts
    assume them below 2^53, where they are exact.  Theorems on the whole system are about runs of fewer
    than [run_bound] = 2^62 events: sequence numbers are [uint64] and grow by at most one per event, and
    a catch-up answer that ends at height 2^64 - 1 makes the loop over its heights wrap and panic.  Integers are [Z] with [u64], [i64], [i32]
    written where the code computes on machine integers; lengths of slices and counters of
    objects in memory are not wrapped.  The order in which Go visits a map is an
    argument where a theorem is about it (the partitions), and that of [map_to_list] elsewhere: there it
    decides only the order of packets under way, which [System] forgets, of accounts in a transfer, or
    of transactions that a re-partitioning appends to the pool.

    ** Scope of the system model

    [System] covers the running phase with the relay modules, full proposals and plain relays, the
    configuration that [BuildNewPbftNode] starts, and long enough time-outs; [SystemView] adds
    time-outs.  Packets are neither lost nor duplicated, as over TCP, but arrive in any order.  A
    handler's body under [pbftLock] is one step; the goroutine that proposes has three.  Stopping is
    the subject of [Shutdown]; the other modules are verified node by node.

    ** Not modelled

    Listening and accepting connections, sleeping and write deadlines; log files
    ([pbft_log/], [supervisor_log/]) and printing; opening bolt and leveldb files and closing them;
    [Hash] and [Encode] of a partition state, which nothing calls; the scheduling of goroutines below
    the level of a handler; clocks (times are arguments).  go-ethereum, boltdb, gob, JSON and the
    formatting of floats are interfaces or parameters.
*)
From stdpp Require Export base decidable list gmap strings numbers fin_maps sets pretty.
From Stdlib Require Export ZArith Lia Sorted.

(** ** Notation scope of the development *)
Declare Scope blb_scope.
Delimit Scope blb_scope with blb.
Global Open Scope string_scope.
Global Open Scope list_scope.
Global Open Scope Z_scope.

(** A Go [[]byte] and a Go [string] are both finite byte sequences; the code converts
    freely between them ([string(b)], [[]byte(s)]), and the model uses [string] for both,
    with one [ascii] per byte.  [nil] and the empty slice are the same value here. *)
Abbreviation bytes := string (only parsing).

(** ** Panics

    [log.Panic], [panic], a failed slice bound and a division by zero all end the goroutine
    that runs them.  A fallible Go function returns [go A]. *)
Inductive go (A : Type) : Type :=
| Ok (a : A)
| Panic (why : string).
Arguments Ok {_} _.
Arguments Panic {_} _.

#[export] Instance go_ret : MRet go := λ A a, Ok a.
#[export] Instance go_bind : MBind go :=
  λ A B k m, match m with Ok a => k a | Panic w => Panic w end.

Definition is_ok {A} (m : go A) : bool := match m with Ok _ => true | Panic _ => false end.

Lemma go_bind_ok {A B} (k : A → go B) (a : A) : (Ok a ≫= k) = k a.
Proof. reflexivity. Qed.

Lemma go_bind_inv {A B} (m : go A) (k : A → go B) (b : B) :
  m ≫= k = Ok b → ∃ a, m = Ok a ∧ k a = Ok b.
Proof. destruct m as [a|w]; [|discriminate]. intros H. by exists a. Qed.

(** A [for] loop over a slice whose body may panic. *)
Fixpoint go_fold {A S} (body : S → A → go S) (s : S) (l : list A) : go S :=
  match l with
  | [] => Ok s
  | x :: l' => s' ← body s x; go_fold body s' l'
  end.

Lemma go_fold_app {A S} (body : S → A → go S) s l1 l2 :
  go_fold body s (l1 ++ l2) = (s' ← go_fold body s l1; go_fold body s' l2).
Proof.
  revert s; induction l1 as [|x l1 IH]; intros s; [done|].
  cbn. destruct (body s x) as [s'|w]; cbn; [apply IH|done].
Qed.

(** A body that never panics on the elements of [l] makes the loop a fold. *)
Lemma go_fold_ext {A S} (f g : S → A → go S) s l : (∀ s' x, f s' x = g s' x) → go_fold f s l = go_fold g s l.
Proof.
  intros Hfg. revert s. induction l as [|x l IH]; intros s; [done|]. cbn. rewrite Hfg.
  destruct (g s x); cbn; [apply IH|done].
Qed.

Lemma go_fold_foldl {A S} (body : S → A → go S) (f : S → A → S) (s : S) (l : list A) :
  (∀ s' x, x ∈ l → body s' x = Ok (f s' x)) → go_fold body s l = Ok (foldl f s l).
Proof.
  revert s; induction l as [|x l IH]; intros s H; [done|].
  cbn. rewrite (H s x) by (apply elem_of_cons; auto). cbn.
  apply IH. intros s' y Hy. apply H. apply elem_of_cons; auto.
Qed.

(** An invariant of the body is an invariant of the loop. *)
Lemma go_fold_total {A S} (body : S → A → go S) (P : S → Prop) (s : S) (l : list A) :
  P s → (∀ t x, x ∈ l → P t → ∃ t', body t x = Ok t' ∧ P t') →
  ∃ s', go_fold body s l = Ok s' ∧ P s'.
Proof.
  revert s; induction l as [|x l IH]; intros s Hs Hb; [by eexists|]. cbn.
  destruct (Hb s x) as (t & -> & Ht); [by apply elem_of_cons; left|done|]. cbn.
  apply IH; [done|]. intros u y Hy. apply Hb. apply elem_of_cons. by right.
Qed.

Lemma go_fold_inv {A S} (body : S → A → go S) (P : S → Prop) (s s' : S) (l : list A) :
  P s → (∀ t t' x, x ∈ l → P t → body t x = Ok t' → P t') →
  go_fold body s l = Ok s' → P s'.
Proof.
  revert s; induction l as [|x l IH]; intros s Hs Hb.
  - cbn. by intros [= <-].
  - cbn. intros (t & Ht & Hl)%go_bind_inv.
    apply (IH t); [|by intros; eapply Hb; [apply elem_of_cons; right|..]|done].
    eapply Hb; [apply elem_of_cons; by left|done..].
Qed.

(** ** Machine integers

    A Go integer is a [Z] kept in the range of its width; the conversions wrap. *)
Definition two64 : Z := 2 ^ 64.
Definition u64 (x : Z) : Z := x mod two64.
Definition i64 (x : Z) : Z := (x + 2 ^ 63) mod two64 - 2 ^ 63.
Definition i32 (x : Z) : Z := (x + 2 ^ 31) mod 2 ^ 32 - 2 ^ 31.
Definition MaxInt : Z := 2 ^ 63 - 1.

Lemma two64_pos : 0 < two64.
Proof. done. Qed.

Lemma u64_range x : 0 ≤ u64 x < two64.
Proof. apply Z.mod_pos_bound, two64_pos. Qed.

Lemma u64_small x : 0 ≤ x < two64 → u64 x = x.
Proof. apply Z.mod_small. Qed.

Lemma i64_small x : - 2 ^ 63 ≤ x < 2 ^ 63 → i64 x = x.
Proof. intros H. unfold i64, two64. rewrite Z.mod_small by lia. lia. Qed.

Lemma i64_u64 x : - 2 ^ 63 ≤ x < 2 ^ 63 → i64 (u64 x) = x.
Proof.
  intros H. rewrite <-(i64_small x) at 2 by done. unfold i64, u64. by rewrite Zplus_mod_idemp_l.
Qed.

Lemma i32_small x : - 2 ^ 31 ≤ x < 2 ^ 31 → i32 x = x.
Proof. intros H. unfold i32. rewrite Z.mod_small by lia. lia. Qed.

(** Go's [%]: the remainder of the truncated division, a run-time panic on zero. *)
Definition go_rem (a b : Z) : go Z :=
  if b =? 0 then Panic "integer divide by zero" else Ok (Z.rem a b).

Definition go_quot (a b : Z) : go Z :=
  if b =? 0 then Panic "integer divide by zero" else Ok (Z.quot a b).

Lemma go_rem_range a b : 0 ≤ a → 0 < b → ∃ r, go_rem a b = Ok r ∧ r = a mod b ∧ 0 ≤ r < b.
Proof.
  intros Ha Hb. exists (a mod b). unfold go_rem.
  rewrite (proj2 (Z.eqb_neq b 0)) by lia. rewrite Z.rem_mod_nonneg by lia.
  split; [done|]. split; [done|]. by apply Z.mod_pos_bound.
Qed.

(** Length of a slice as a Go [int]. *)
Definition len {A} (l : list A) : Z := Z.of_nat (length l).

Lemma len_nonneg {A} (l : list A) : 0 ≤ len l.
Proof. unfold len. lia. Qed.

Lemma len_app {A} (l1 l2 : list A) : len (l1 ++ l2) = len l1 + len l2.
Proof. unfold len. rewrite length_app. lia. Qed.

(** ** Sums over lists *)
Definition sumZ {A} (f : A → Z) (l : list A) : Z := foldr (λ x acc, f x + acc) 0 l.

Lemma sumZ_cons {A} (f : A → Z) x l : sumZ f (x :: l) = f x + sumZ f l.
Proof. reflexivity. Qed.

Lemma sumZ_app {A} (f : A → Z) l1 l2 : sumZ f (l1 ++ l2) = sumZ f l1 + sumZ f l2.
Proof. induction l1 as [|x l1 IH]; cbn [app]; rewrite ?sumZ_cons; [done|lia]. Qed.

Lemma sumZ_ext {A} (f g : A → Z) l : (∀ x, x ∈ l → f x = g x) → sumZ f l = sumZ g l.
Proof.
  induction l as [|x l IH]; intros H; [done|].
  rewrite !sumZ_cons, (H x) by (apply elem_of_cons; auto).
  rewrite IH; [done|]. intros y Hy. apply H, elem_of_cons; auto.
Qed.

Lemma sumZ_Permutation {A} (f : A → Z) l1 l2 : l1 ≡ₚ l2 → sumZ f l1 = sumZ f l2.
Proof. induction 1; rewrite ?sumZ_cons; lia. Qed.
#[export] Instance sumZ_proper {A} (f : A → Z) : Proper ((≡ₚ) ==> eq) (sumZ f).
Proof. intros l l' Hl. by apply sumZ_Permutation. Qed.

Lemma sumZ_add {A} (f g : A → Z) l : sumZ (λ x, f x + g x) l = sumZ f l + sumZ g l.
Proof. induction l as [|x l IH]; rewrite ?sumZ_cons; [done|lia]. Qed.

Lemma sumZ_opp {A} (f : A → Z) l : sumZ (λ x, - f x) l = - sumZ f l.
Proof. induction l as [|x l IH]; rewrite ?sumZ_cons; [done|lia]. Qed.

Lemma sumZ_scale {A} (f : A → Z) c l : sumZ (λ x, c * f x) l = c * sumZ f l.
Proof. induction l as [|x l IH]; rewrite ?sumZ_cons; [cbn; lia|lia]. Qed.

Lemma sumZ_zero {A} (f : A → Z) l : (∀ x, x ∈ l → f x = 0) → sumZ f l = 0.
Proof.
  intros H. transitivity (sumZ (λ _ : A, 0) l); [by apply sumZ_ext|].
  clear H. induction l; rewrite ?sumZ_cons; [done|lia].
Qed.

(** A function that is non-zero at most at [k] sums to its value there. *)
Lemma sumZ_single {A} `{EqDecision A} (k : A) (v : Z) (l : list A) :
  NoDup l → k ∈ l → sumZ (λ x, if decide (x = k) then v else 0) l = v.
Proof.
  induction l as [|x l IH]; intros Hnd Hin; [by apply elem_of_nil in Hin|].
  apply NoDup_cons in Hnd as [Hx Hnd]. rewrite sumZ_cons.
  destruct (decide (x = k)) as [->|Hne].
  - rewrite sumZ_zero; [lia|]. intros y Hy. case_decide as Hd; [|done]. by subst.
  - apply elem_of_cons in Hin as [Hin|Hin]; [congruence|]. rewrite IH by done. lia.
Qed.

Lemma sumZ_mono {A} (f g : A → Z) l : (∀ x, x ∈ l → f x ≤ g x) → sumZ f l ≤ sumZ g l.
Proof.
  induction l as [|x l IH]; intros Hfg; [done|]. rewrite !sumZ_cons.
  specialize (IH ltac:(intros; apply Hfg; by apply list_elem_of_further)).
  specialize (Hfg x ltac:(apply list_elem_of_here)). lia.
Qed.

Lemma sumZ_nonneg {A} (f : A → Z) l : (∀ x, x ∈ l → 0 ≤ f x) → 0 ≤ sumZ f l.
Proof. intros Hf. rewrite <-(sumZ_zero (λ _, 0) l) by done. by apply sumZ_mono. Qed.

Lemma sumZ_fmap {A B} (f : B → Z) (g : A → B) l : sumZ f (g <$> l) = sumZ (λ x, f (g x)) l.
Proof. induction l as [|x l IH]; cbn [fmap list_fmap]; rewrite ?sumZ_cons; [done|by f_equal]. Qed.

(** ** Lists *)
Lemma filter_split_perm {A} (P : A → bool) (l : list A) :
  l ≡ₚ List.filter P l ++ List.filter (λ x, negb (P x)) l.
Proof.
  induction l as [|x l IH]; [done|]. cbn. destruct (P x); cbn.
  - by constructor.
  - rewrite IH at 1. apply Permutation_middle.
Qed.

Lemma filter_all {A} (P : A → bool) l : forallb P l = true → List.filter P l = l.
Proof.
  induction l as [|x l IH]; cbn; [done|]. intros [Hx Hl]%andb_true_iff.
  rewrite Hx. f_equal. by apply IH.
Qed.

Lemma Forall_list_filter {A} (Q : A → Prop) (P : A → bool) l :
  Forall Q l → Forall Q (List.filter P l).
Proof. induction 1; cbn; [done|]. case_match; auto. Qed.

#[export] Instance list_filter_perm {A} (P : A → bool) :
  Proper ((≡ₚ) ==> (≡ₚ)) (List.filter P).
Proof.
  induction 1 as [|x l1 l2 _ IH|x y l|]; cbn; [done|..].
  - case_match; [by rewrite IH|done].
  - repeat case_match; (done || apply Permutation_swap).
  - by etrans.
Qed.

#[export] Instance concat_perm {A} : Proper ((≡ₚ) ==> (≡ₚ)) (@concat A).
Proof.
  induction 1 as [|x l1 l2 _ IH|x y l|]; cbn; [done|..].
  - by rewrite IH.
  - by rewrite !app_assoc, (Permutation_app_comm x y).
  - by etrans.
Qed.

(** The loop [for x in l { acc = append(acc, f(x)) }]. *)
Lemma foldl_append {A B} (f : A → B) (acc : list B) (l : list A) :
  foldl (λ acc x, acc ++ [f x]) acc l = acc ++ (f <$> l).
Proof.
  revert acc; induction l as [|x l IH]; intros acc; cbn; [by rewrite app_nil_r|].
  by rewrite IH, <-app_assoc.
Qed.

Lemma mapM_cons_Some {A B} (f : A → option B) x y l k :
  f x = Some y → mapM f l = Some k → mapM f (x :: l) = Some (y :: k).
Proof.
  intros Hx Hl. apply mapM_Some_2. constructor; [done|]. by apply mapM_Some_1.
Qed.

Lemma imap_pair_Forall {A} (P : A → Prop) (l : list A) :
  Forall P l → Forall (λ ix : nat * A, P ix.2) (imap pair l).
Proof.
  rewrite !Forall_forall. intros Hl [i x] Hx.
  apply elem_of_lookup_imap in Hx as (j & y & [= -> ->] & Hj). cbn.
  by eapply Hl, list_elem_of_lookup_2.
Qed.

Lemma imap_pair_snd {A} (l : list A) : (imap pair l).*2 = l.
Proof.
  rewrite fmap_imap. transitivity (id <$> l); [exact (imap_const id l)|apply list_fmap_id].
Qed.

(** Insertion sort for a Go [less] function: the result [sort.Slice] may return (the order
    of elements that are equal for [less] is left to the sort; this one keeps the input
    order). *)
Section sorting.
Context {A : Type} (less : A → A → bool).

Fixpoint insert_by (x : A) (l : list A) : list A :=
  match l with
  | [] => [x]
  | y :: l' => if less y x then y :: insert_by x l' else x :: y :: l'
  end.

Fixpoint sort_slice (l : list A) : list A :=
  match l with
  | [] => []
  | x :: l' => insert_by x (sort_slice l')
  end.

Lemma insert_by_perm x l : insert_by x l ≡ₚ x :: l.
Proof.
  induction l as [|y l IH]; cbn; [done|]. case_match; [|done].
  rewrite IH. apply Permutation_swap.
Qed.

Lemma sort_slice_perm l : sort_slice l ≡ₚ l.
Proof. induction l as [|x l IH]; cbn; [done|]. by rewrite insert_by_perm, IH. Qed.

Lemma sort_slice_length l : length (sort_slice l) = length l.
Proof. apply Permutation_length, sort_slice_perm. Qed.

(** [less] is a strict weak order: irreflexive, and "not less" is transitive. *)
Class StrictWeak : Prop := {
  less_irrefl : ∀ x, less x x = false;
  less_asym : ∀ x y, less x y = true → less y x = false;
  not_less_trans : ∀ x y z, less y x = false → less z y = false → less z x = false;
}.

Context `{!StrictWeak}.

Lemma insert_by_sorted x l :
  StronglySorted (λ a b, less b a = false) l →
  StronglySorted (λ a b, less b a = false) (insert_by x l).
Proof.
  induction 1 as [|y l Hl IH Hy]; cbn; [by repeat constructor|].
  destruct (less y x) eqn:E.
  - constructor; [done|]. rewrite Forall_forall in Hy |- *.
    intros z Hz. rewrite insert_by_perm in Hz.
    apply elem_of_cons in Hz as [->|Hz]; [by apply less_asym|by apply Hy].
  - constructor; [by constructor|]. constructor; [done|].
    rewrite Forall_forall in Hy |- *. intros z Hz.
    eapply not_less_trans; [exact E|]. by apply Hy.
Qed.

Lemma sort_slice_sorted l : StronglySorted (λ a b, less b a = false) (sort_slice l).
Proof. induction l as [|x l IH]; cbn; [constructor|]. by apply insert_by_sorted. Qed.
End sorting.

(** ** Record update: [r <| fld := v |>]

    [Eta R] eta-expands the record type [R]; the setter of a field is built from it. *)
Class Eta (R : Type) := eta : R → R.
Class Upd {R T : Type} (fld : R → T) := upd : (T → T) → R → R.
Arguments upd {R T} fld {Upd} _ _.

Ltac build_upd :=
  lazymatch goal with
  | |- @Upd ?R ?T ?fld =>
      let e := constr:(_ : Eta R) in
      let body := eval hnf in e in
      lazymatch eval pattern fld in body with
      | ?h _ =>
          let setter := eval cbv beta in (λ (g : T → T) (x : R), h (λ y, g (fld y)) x) in
          exact setter
      end
  end.
#[export] Hint Extern 0 (Upd _) => build_upd : typeclass_instances.

Notation "r <| fld := v |>" := (upd fld (λ _, v) r)
  (at level 1, left associativity, fld at next level, v at level 200,
   format "r  <| fld  :=  v |>").
Notation "r <| fld ::= f |>" := (upd fld f r)
  (at level 1, left associativity, fld at next level, f at level 200,
   format "r  <| fld  ::=  f |>").

(** ** Automation *)
Create HintDb blb.
Create Rewrite HintDb blb.
#[export] Hint Resolve len_nonneg u64_range two64_pos : blb.
#[export] Hint Rewrite @len_app @sumZ_app @sumZ_cons @length_app : blb.

(** Split every boolean test and [match] of the goal's [go] computations. *)
Ltac go_cases :=
  repeat match goal with
  | |- context [match ?x with _ => _ end] => let E := fresh "E" in destruct x eqn:E; cbn in *
  end.

(** Turn the boolean comparisons in the context into propositions. *)
Ltac zbool :=
  repeat match goal with
  | H : (_ =? _)%Z = true |- _ => apply Z.eqb_eq in H
  | H : (_ =? _)%Z = false |- _ => apply Z.eqb_neq in H
  | H : (_ <? _)%Z = true |- _ => apply Z.ltb_lt in H
  | H : (_ <? _)%Z = false |- _ => apply Z.ltb_ge in H
  | H : (_ <=? _)%Z = true |- _ => apply Z.leb_le in H
  | H : (_ <=? _)%Z = false |- _ => apply Z.leb_gt in H
  | H : andb _ _ = true |- _ => apply andb_true_iff in H as [? ?]
  | H : orb _ _ = false |- _ => apply orb_false_iff in H as [? ?]
  | H : negb _ = true |- _ => apply negb_true_iff in H
  | H : negb _ = false |- _ => apply negb_false_iff in H
  end.

(** Invert a [go] computation that returned. *)
Ltac go_inv :=
  repeat match goal with
  | H : _ ≫= _ = Ok _ |- _ =>
      let a := fresh "a" in let Ha := fresh "Ha" in
      apply go_bind_inv in H as (a & Ha & H); cbn in H
  | H : Ok _ = Ok _ |- _ => injection H as H; subst
  | H : Panic _ = Ok _ |- _ => discriminate H
  | H : context [let '(_, _) := ?p in _] |- _ => destruct p eqn:?; cbn in H
  end.
