(* ===== verification/Utils.v ===== *)
(** * Configuration and address helpers

    [params/global_config.go] (the variables of package [params] the modelled code reads),
    [params/overhead.go], and [utils/]: the default placement of an account, [Addr2Shard],
    and [ModBytes], the bloom-filter index of a hash. *)
From S2P Require Import Prelude.

(** ** Characters of a byte string *)
Definition chars (s : string) : list Ascii.ascii := String.list_ascii_of_string s.
Definition unchars (l : list Ascii.ascii) : string := String.string_of_list_ascii l.
Definition byte_of (c : Ascii.ascii) : Z := Z.of_nat (Ascii.nat_of_ascii c).

Lemma chars_unchars l : chars (unchars l) = l.
Proof. apply String.list_ascii_of_string_of_list_ascii. Qed.

Lemma unchars_chars s : unchars (chars s) = s.
Proof. apply String.string_of_list_ascii_of_string. Qed.

Lemma chars_inj s t : chars s = chars t → s = t.
Proof. intros H. rewrite <-(unchars_chars s), <-(unchars_chars t). by rewrite H. Qed.

Lemma chars_app s t : chars (s +:+ t) = chars s ++ chars t.
Proof.
  unfold chars. induction s as [|c s IH]; [done|].
  change (String.String c s +:+ t) with (String.String c (s +:+ t)). cbn. by f_equal.
Qed.

Lemma unchars_app l k : unchars (l ++ k) = unchars l +:+ unchars k.
Proof. apply chars_inj. rewrite chars_app, !chars_unchars. done. Qed.

Lemma byte_of_range c : 0 ≤ byte_of c < 256.
Proof. unfold byte_of. pose proof (Ascii.nat_ascii_bounded c). lia. Qed.

#[export] Hint Rewrite chars_unchars unchars_chars chars_app : blb.

(** ** Parameters: the package variables of [params] *)
Class Params := {
  NodesInShard : Z;
  ShardNum : Z;
  MaxBlockSize_global : Z;
  BlocksizeInBytes : Z;
  UseBlocksizeInBytes : Z;
  InjectSpeed : Z;
  TotalDataSize : Z;
  TxBatchSize : Z;
  RelayWithMerkleProof : Z;
  PbftViewChangeTimeOut : Z;
  SupervisorAddr : string;
  Overhead_Enabled : bool;
  Overhead_Lightweight : bool;
  Overhead_Migration : bool;
  Overhead_MigrationAccounts : Z;
  Overhead_StreamSkipNode : Z;
}.

(** [params.Init_Balance]: 10^44. *)
Definition Init_Balance : Z := 100000000000000000000000000000000000000000000.
Definition SupervisorShard : Z := 2147483647.

(** ** [strconv.ParseUint(s, 16, 64)] *)

(** The value of a hexadecimal digit; Go lowers letters with [c | 0x20]. *)
Definition hex_digit (c : Ascii.ascii) : option Z :=
  let n := byte_of c in
  if (48 <=? n) && (n <=? 57) then Some (n - 48)
  else let l := Z.lor n 32 in
       if (97 <=? l) && (l <=? 102) then Some (l - 87) else None.

Fixpoint parse_hex (acc : Z) (l : list Ascii.ascii) : option Z :=
  match l with
  | [] => Some acc
  | c :: l' =>
      match hex_digit c with
      | None => None
      | Some d => if two64 <=? acc * 16 + d then None else parse_hex (acc * 16 + d) l'
      end
  end.

(** [None] is the error value: a syntax or range error. *)
Definition ParseUint16 (s : string) : option Z :=
  match chars s with
  | [] => None
  | l => parse_hex 0 l
  end.

(** ** [utils.Addr2Shard]: the shard of an account that has not been placed *)
Definition last8 (addr : string) : string :=
  let l := chars addr in
  if 8 <? len l then unchars (drop (length l - 8)%nat l) else addr.

Definition Addr2Shard `{Params} (addr : string) : go Z :=
  match ParseUint16 (last8 addr) with
  | None => Panic "strconv.ParseUint"
  | Some num => go_rem (i64 num) ShardNum
  end.

(** ** [utils.ModBytes]: the big-endian value of a byte string modulo [mod] *)
Definition bytes_to_Z (data : bytes) : Z := foldl (λ acc c, acc * 256 + byte_of c) 0 (chars data).

Definition ModBytes (data : bytes) (m : Z) : Z := bytes_to_Z data mod m.

(** ** Facts *)
Definition is_hex (s : string) : bool := forallb (λ c, bool_decide (is_Some (hex_digit c))) (chars s).

Lemma hex_digit_range c d : hex_digit c = Some d → 0 ≤ d < 16.
Proof.
  unfold hex_digit. pose proof (byte_of_range c) as Hb. cbv zeta.
  repeat case_match; intros [= <-]; zbool; lia.
Qed.

Lemma parse_hex_bound acc l :
  0 ≤ acc → acc * 16 ^ len l + 16 ^ len l ≤ two64 →
  forallb (λ c, bool_decide (is_Some (hex_digit c))) l = true →
  ∃ v, parse_hex acc l = Some v ∧ 0 ≤ v < acc * 16 ^ len l + 16 ^ len l.
Proof.
  revert acc; induction l as [|c l IH]; intros acc Hacc Hle Hhex.
  - exists acc. split; [done|]. unfold len. cbn. lia.
  - cbn in Hhex. apply andb_true_iff in Hhex as [Hc Hhex].
    apply bool_decide_eq_true in Hc as [d Hd].
    pose proof (hex_digit_range _ _ Hd) as Hdr. cbn. rewrite Hd.
    assert (len (c :: l) = len l + 1) as Hlen by (unfold len; cbn; lia).
    rewrite Hlen in *. rewrite Z.pow_add_r in * by auto using len_nonneg with lia.
    change (16 ^ 1) with 16 in *.
    assert (0 < 16 ^ len l) by (apply Z.pow_pos_nonneg; [lia|apply len_nonneg]).
    destruct (two64 <=? acc * 16 + d) eqn:E; zbool; [nia|].
    destruct (IH (acc * 16 + d)) as (v & Hv & Hb); [lia|nia|done|].
    exists v. split; [done|]. nia.
Qed.

Lemma last8_length addr : len (chars (last8 addr)) ≤ 8.
Proof.
  unfold last8. cbv zeta. case_match; zbool; [|done].
  rewrite chars_unchars. unfold len in *. rewrite length_drop. lia.
Qed.

Lemma last8_nonempty addr : addr ≠ "" → chars (last8 addr) ≠ [].
Proof.
  intros Hne. unfold last8. cbv zeta. case_match; zbool.
  - rewrite chars_unchars. intros Hd%(f_equal length). rewrite length_drop in Hd.
    unfold len in *. cbn in Hd. lia.
  - intros Hc. apply Hne, chars_inj. done.
Qed.

Lemma last8_hex addr : is_hex addr = true → is_hex (last8 addr) = true.
Proof.
  unfold is_hex, last8. cbv zeta. case_match; [|done]. rewrite chars_unchars.
  rewrite !forallb_forall. intros Hh c Hc. apply Hh.
  rewrite <-(take_drop (length (chars addr) - 8) (chars addr)). apply in_or_app. by right.
Qed.

(** The number [Addr2Shard] reduces is below 2^32: eight hexadecimal digits at most. *)
Lemma parse_last8 addr :
  is_hex addr = true → addr ≠ "" →
  ∃ v, ParseUint16 (last8 addr) = Some v ∧ 0 ≤ v < 2 ^ 32.
Proof.
  intros Hh Hne. pose proof (last8_nonempty _ Hne) as Hl.
  pose proof (last8_length addr) as Hlen. apply last8_hex in Hh. unfold is_hex in Hh.
  unfold ParseUint16. destruct (chars (last8 addr)) as [|c l] eqn:E; [done|]. rewrite <-E in *.
  assert (16 ^ len (chars (last8 addr)) ≤ 16 ^ 8) as Hp by (apply Z.pow_le_mono_r; lia).
  change (16 ^ 8) with (2 ^ 32) in Hp.
  destruct (parse_hex_bound 0 (chars (last8 addr))) as (v & Hv & Hb);
    [lia|unfold two64; lia|done|].
  exists v. split; [by rewrite E in *|lia].
Qed.

Lemma addr2shard_ok `{Params} addr :
  0 < ShardNum → is_hex addr = true → addr ≠ "" →
  ∃ s, Addr2Shard addr = Ok s ∧ 0 ≤ s < ShardNum.
Proof.
  intros HS Hh Hne. destruct (parse_last8 addr Hh Hne) as (v & Hv & Hb).
  unfold Addr2Shard. rewrite Hv, i64_small by lia.
  destruct (go_rem_range v ShardNum) as (r & Hr & _ & Hrange); [lia|done|]. eauto.
Qed.

(** Only the last eight characters of an address decide its default shard. *)
Lemma addr2shard_suffix `{Params} a b :
  last8 a = last8 b → Addr2Shard a = Addr2Shard b.
Proof. unfold Addr2Shard. by intros ->. Qed.

Lemma ModBytes_range data m : 0 < m → 0 ≤ ModBytes data m < m.
Proof. apply Z.mod_pos_bound. Qed.

#[export] Hint Resolve byte_of_range ModBytes_range : blb.

(** A concrete configuration: four shards of four nodes, the defaults of [params]. *)
Definition default_params : Params := {|
  NodesInShard := 4; ShardNum := 4; MaxBlockSize_global := 2000;
  BlocksizeInBytes := 20000; UseBlocksizeInBytes := 0; InjectSpeed := 300;
  TotalDataSize := 50000; TxBatchSize := 16000; RelayWithMerkleProof := 0;
  PbftViewChangeTimeOut := 10000; SupervisorAddr := "127.0.0.1:18800";
  Overhead_Enabled := false; Overhead_Lightweight := false; Overhead_Migration := false;
  Overhead_MigrationAccounts := 0; Overhead_StreamSkipNode := -1 |}.

Example addr2shard_ex : @Addr2Shard default_params "32be343b94f860124dc4fee278fdcbd38c102d8b" = Ok 3.
Proof. reflexivity. Qed.
