(* ===== verification/Libs.v ===== *)
(** * Interfaces of the code outside the repository

    The program calls go-ethereum's trie, boltdb, a bit-set package, SHA-256 and Go's gob and
    JSON encoders.  None of them is under [src/]; each is a class of operations here, and what
    the program relies on is a class of laws.  The last section gives one concrete
    implementation of every class, used by the witnesses. *)
From Stdlib Require Import Ascii.
From S2P Require Import Prelude Utils.

(** ** [github.com/bits-and-blooms/bitset] *)
Class BitSetLib := {
  BitSet : Type;
  bitset_New : Z → BitSet;
  bitset_Set : BitSet → Z → BitSet;
  bitset_Test : BitSet → Z → bool;
}.

Class BitSetLaws `{BitSetLib} : Prop := {
  bitset_test_new n i : bitset_Test (bitset_New n) i = false;
  bitset_test_set b i j : bitset_Test (bitset_Set b i) j = bool_decide (i = j) || bitset_Test b j;
}.

(** ** [crypto/sha256] *)
Class CryptoLib := { sha256 : bytes → bytes }.

Class CryptoLaws `{CryptoLib} : Prop := { sha256_nonempty b : sha256 b ≠ "" }.

(** The idealisation of a collision-resistant hash. *)
Class CollisionFree `{CryptoLib} : Prop := { sha256_inj a b : sha256 a = sha256 b → a = b }.

(** ** [encoding/gob] and [encoding/json]: an encoder and its decoder, [None] on an error *)
Class Codec (A : Type) := {
  Encode : A → bytes;
  Decode : bytes → option A;
}.

Class CodecLaws (A : Type) `{Codec A} : Prop := {
  codec_roundtrip (a : A) : Decode (Encode a) = Some a;
  encode_nonempty (a : A) : Encode a ≠ "";
}.

(** The [Decode] functions of the repository panic on a decoding error. *)
Definition MustDecode {A} `{Codec A} (b : bytes) : go A :=
  match Decode b with
  | Some a => Ok a
  | None => Panic "decode"
  end.

Lemma must_decode_encode {A} `{CodecLaws A} (a : A) : MustDecode (Encode a) = Ok a.
Proof. unfold MustDecode. by rewrite codec_roundtrip. Qed.
#[export] Hint Rewrite @must_decode_encode using (try apply _) : blb.

Lemma codec_inj {A} `{CodecLaws A} (a b : A) : Encode a = Encode b → a = b.
Proof. intros E%(f_equal Decode). rewrite !codec_roundtrip in E. by injection E. Qed.

(** ** [github.com/boltdb/bolt]: buckets of key/value pairs

    [bolt_Put] is [None] when the transaction fails (for instance on an empty key). *)
Class BoltLib := {
  BoltDB : Type;
  bolt_Put : BoltDB → string → bytes → bytes → option BoltDB;
  bolt_Get : BoltDB → string → bytes → option bytes;
}.

Class BoltLaws `{BoltLib} : Prop := {
  bolt_put_ok db b k v : k ≠ "" → is_Some (bolt_Put db b k v);
  bolt_get_put db db' b k v b' k' :
    bolt_Put db b k v = Some db' →
    bolt_Get db' b' k' = if bool_decide (b = b' ∧ k = k') then Some v else bolt_Get db b' k';
}.

(** ** [github.com/ethereum/go-ethereum/trie]

    A root is given by its bytes.  [trie_Commit] returns the root and the dirty nodes, [None]
    when nothing changed; the database writes are [None] on an error. *)
Class TrieLib := {
  Trie : Type;
  TrieDB : Type;
  NodeSet : Type;
  trie_NewDatabase : TrieDB;
  triedb_ok : TrieDB → Prop;
  trie_NewEmpty : TrieDB → Trie;
  trie_New : bytes → TrieDB → option Trie;
  trie_Get : Trie → bytes → option bytes;
  trie_Update : Trie → bytes → bytes → Trie;
  trie_Hash : Trie → bytes;
  trie_Commit : Trie → bytes * option NodeSet;
  triedb_Update : TrieDB → NodeSet → option TrieDB;
  triedb_Commit : TrieDB → bytes → option TrieDB;
  trie_Prove : Trie → bytes → option (list (bytes * bytes));
  trie_VerifyProof : bytes → bytes → list (bytes * bytes) → option (option bytes);
}.

(** Several updates in a row. *)
Definition trie_updates `{TrieLib} (t : Trie) (kvs : list (bytes * bytes)) : Trie :=
  foldl (λ t kv, trie_Update t kv.1 kv.2) t kvs.

Class TrieLaws `{TrieLib} : Prop := {
  trie_get_update t k v k' :
    v ≠ "" →
    trie_Get (trie_Update t k v) k' = if bool_decide (k = k') then Some v else trie_Get t k';
  trie_get_empty db k : trie_Get (trie_NewEmpty db) k = None;
  trie_new_db_ok : triedb_ok trie_NewDatabase;
  (** the root of the empty trie can always be opened, and is empty *)
  trie_new_empty db db' :
    triedb_ok db →
    ∃ t, trie_New (trie_Hash (trie_NewEmpty db')) db = Some t ∧ ∀ k, trie_Get t k = None;
  (** the zero root (a missing [StateRoot]) opens an empty trie; no trie has it as its hash *)
  trie_new_zero db : ∃ t, trie_New "" db = Some t ∧ ∀ k, trie_Get t k = None;
  trie_hash_nonzero t : trie_Hash t ≠ "";
  (** committing the updates made to an opened trie stores them under the returned root and
      keeps every stored root; with no dirty node, nothing was changed *)
  trie_commit db r t kvs :
    triedb_ok db → r ≠ "" → trie_New r db = Some t →
    match trie_Commit (trie_updates t kvs) with
    | (rt, Some ns) =>
        ∃ db1 db2 t', triedb_Update db ns = Some db1 ∧ triedb_Commit db1 rt = Some db2 ∧
          triedb_ok db2 ∧ rt ≠ "" ∧
          trie_New rt db2 = Some t' ∧
          (∀ k, trie_Get t' k = trie_Get (trie_updates t kvs) k) ∧
          (∀ r0 t0, trie_New r0 db = Some t0 →
             ∃ t0', trie_New r0 db2 = Some t0' ∧ ∀ k, trie_Get t0' k = trie_Get t0 k)
    | (rt, None) => rt = r ∧ ∀ k, trie_Get (trie_updates t kvs) k = trie_Get t k
    end;
  (** the root identifies the content (the hash has no collisions), and a trie that was just
      opened still has the root it was opened with *)
  trie_root_content t1 t2 :
    (trie_Commit t1).1 = (trie_Commit t2).1 ↔ ∀ k, trie_Get t1 k = trie_Get t2 k;
  trie_open_root db r t : triedb_ok db → r ≠ "" → trie_New r db = Some t → (trie_Commit t).1 = r;
  (** a proof can be made for every key, and verifies to what the trie holds there *)
  trie_prove t k : is_Some (trie_Prove t k);
  trie_verify t k p :
    trie_Prove t k = Some p → trie_VerifyProof (trie_Hash t) k p = Some (trie_Get t k);
}.

Lemma trie_updates_app `{TrieLib} t l1 l2 :
  trie_updates t (l1 ++ l2) = trie_updates (trie_updates t l1) l2.
Proof. apply foldl_app. Qed.

(** ** A concrete implementation, for the witnesses *)
Module ConcreteLibs.

(** Bits of a positive as a byte string; injective. *)
Fixpoint bits (p : positive) : string :=
  match p with
  | xH => "1"
  | xO p => String.String "0"%char (bits p)
  | xI p => String.String "1"%char (bits p)
  end.

Lemma bits_nonempty p : bits p ≠ "".
Proof. by destruct p. Qed.

Lemma bits_inj p q : bits p = bits q → p = q.
Proof.
  revert q; induction p as [p IH|p IH|]; intros [q|q|]; cbn; intros E; try done;
    injection E as E; f_equal; auto; try (by destruct (bits_nonempty p));
    try (by destruct (bits_nonempty q)).
Qed.

(** The inverse of [bits]; the last character is the leading one. *)
Fixpoint unbits (s : string) : option positive :=
  match s with
  | String.EmptyString => None
  | String.String c s' =>
      match s' with
      | String.EmptyString => if Ascii.eqb c "1"%char then Some xH else None
      | _ => p ← unbits s'; Some (if Ascii.eqb c "1"%char then xI p else xO p)
      end
  end.

Lemma unbits_bits p : unbits (bits p) = Some p.
Proof.
  induction p as [p IH|p IH|]; [..|done]; cbn; pose proof (bits_nonempty p);
    destruct (bits p); try done; by rewrite IH.
Qed.

#[export] Instance bitset : BitSetLib := {|
  BitSet := gset Z;
  bitset_New _ := ∅;
  bitset_Set b i := {[i]} ∪ b;
  bitset_Test b i := bool_decide (i ∈ b) |}.

#[export] Instance bitset_laws : BitSetLaws.
Proof.
  split; intros; cbn.
  - by apply bool_decide_eq_false_2, not_elem_of_empty.
  - rewrite <-bool_decide_or. apply bool_decide_ext. set_solver.
Qed.

(** An injective "hash". *)
#[export] Instance crypto : CryptoLib := {| sha256 b := String.String "#"%char b |}.

#[export] Instance crypto_laws : CryptoLaws.
Proof. by split. Qed.
#[export] Instance crypto_inj : CollisionFree.
Proof. split. by intros a b [= ->]. Qed.

Definition countable_codec (A : Type) `{Countable A} : Codec A := {|
  Encode a := bits (encode a);
  Decode b := p ← unbits b; decode p |}.

Lemma countable_codec_laws (A : Type) `{Countable A} : @CodecLaws A (countable_codec A).
Proof.
  split; intros a; cbn; [|apply bits_nonempty].
  rewrite unbits_bits. cbn. apply decode_encode.
Qed.

#[export] Instance bolt : BoltLib := {|
  BoltDB := gmap (string * bytes) bytes;
  bolt_Put db b k v := if bool_decide (k = "") then None else Some (<[(b, k) := v]> db);
  bolt_Get db b k := db !! (b, k) |}.

#[export] Instance bolt_laws : BoltLaws.
Proof.
  split; cbn.
  - intros db b k v Hk. rewrite bool_decide_eq_false_2 by done. by eexists.
  - intros db db' b k v b' k' Hp. case_bool_decide; [done|]. injection Hp as <-.
    rewrite lookup_insert. case_bool_decide as Hc; case_decide; naive_solver.
Qed.

Abbreviation content := (gmap bytes bytes).
Record mtrie := MTrie { mt_base : bytes; mt_map : content }.

(** A trie is its content; its root is any injective image of it. *)
Section rooted.
Context (root : content → bytes) (root_inj : ∀ m m', root m = root m' → m = m') (root_nonempty : ∀ m, root m ≠ "").

Definition mtrie_lib : TrieLib := {|
  Trie := mtrie;
  TrieDB := gmap bytes content;
  NodeSet := content;
  trie_NewDatabase := ∅;
  triedb_ok db := ∀ r m, db !! r = Some m → r = root m;
  trie_NewEmpty _ := MTrie (root ∅) ∅;
  trie_New r db :=
    if bool_decide (r = root ∅ ∨ r = "") then Some (MTrie (root ∅) ∅) else m ← db !! r; Some (MTrie r m);
  trie_Get t k := mt_map t !! k;
  trie_Update t k v :=
    if bool_decide (v = "") then MTrie (mt_base t) (delete k (mt_map t))
    else MTrie (mt_base t) (<[k := v]> (mt_map t));
  trie_Hash t := root (mt_map t);
  trie_Commit t :=
    if bool_decide (root (mt_map t) = mt_base t) then (mt_base t, None)
    else (root (mt_map t), Some (mt_map t));
  triedb_Update db m := Some (<[root m := m]> db);
  triedb_Commit db _ := Some db;
  trie_Prove t k := Some [(k, match mt_map t !! k with Some v => v | None => "" end);
                         ("", if bool_decide (is_Some (mt_map t !! k)) then "1" else "0"); ("root", root (mt_map t))];
  trie_VerifyProof r k p :=
    match p with
    | [(k', v); (_, b); (_, r')] =>
        if bool_decide (k = k' ∧ r = r')
        then Some (if bool_decide (b = "1") then Some v else None) else None
    | _ => None
    end |}.

#[local] Existing Instance mtrie_lib.

Lemma mt_base_updates (t : mtrie) kvs :
  mt_base (@trie_updates mtrie_lib t kvs) = mt_base t.
Proof.
  revert t; induction kvs as [|[k v] kvs IH]; intros t; [done|].
  change (mt_base (@trie_updates mtrie_lib (trie_Update t k v) kvs) = mt_base t).
  rewrite IH. cbn. by case_bool_decide.
Qed.

Lemma mt_open r (db : gmap bytes content) t :
  triedb_ok db → r ≠ "" → trie_New r db = Some t → mt_base t = r ∧ root (mt_map t) = r.
Proof.
  cbn. intros Hok Hne. case_bool_decide as Hr; [destruct Hr as [->|?]; [by intros [= <-]|done]|].
  destruct (db !! r) as [m|] eqn:E; cbn; [|done]. intros [= <-]. cbn.
  split; [done|]. symmetry. by apply Hok.
Qed.

Lemma insert_ok (db : gmap bytes content) m :
  triedb_ok db → triedb_ok (<[root m := m]> db).
Proof. cbn. intros Hok r m'. rewrite lookup_insert. case_decide; [naive_solver|apply Hok]. Qed.

Lemma open_insert (db : gmap bytes content) m :
  trie_New (root m) (<[root m := m]> db) = Some (MTrie (root m) m).
Proof.
  cbn. case_bool_decide as Hr.
  - destruct Hr as [Hr|Hr]; [by rewrite (root_inj _ _ Hr)|by destruct (root_nonempty m)].
  - by rewrite lookup_insert_eq.
Qed.

Lemma open_keep (db : gmap bytes content) m r0 t0 :
  triedb_ok db → trie_New r0 db = Some t0 →
  ∃ t0', trie_New r0 (<[root m := m]> db) = Some t0' ∧
    ∀ k, trie_Get t0' k = trie_Get t0 k.
Proof.
  cbn. intros Hok. case_bool_decide as Hr; [eauto|].
  destruct (db !! r0) as [m0|] eqn:E; cbn; [|done]. intros [= <-].
  destruct (decide (root m = r0)) as [<-|Hne].
  - rewrite lookup_insert_eq. eexists; split; [done|]. intros k. cbn.
    by rewrite (root_inj _ _ (Hok _ _ E)).
  - rewrite lookup_insert_ne, E by done. eauto.
Qed.

Lemma commit_root (t : mtrie) : (trie_Commit t).1 = root (mt_map t).
Proof. cbn. by case_bool_decide. Qed.

Lemma mtrie_laws : TrieLaws.
Proof.
  split.
  - intros t k v k' Hv. cbn. rewrite bool_decide_eq_false_2 by done. cbn.
    rewrite lookup_insert. case_bool_decide; case_decide; naive_solver.
  - intros db k. apply lookup_empty.
  - cbn. intros r m. by rewrite lookup_empty.
  - intros db db' Hok. cbn. rewrite bool_decide_eq_true_2 by auto.
    eexists; split; [done|]. intros k. apply lookup_empty.
  - intros db. eexists. split; [cbn; by rewrite bool_decide_eq_true_2 by auto|]. intros k. apply lookup_empty.
  - intros t. apply root_nonempty.
  - intros db r t kvs Hok Hne Ht.
    pose proof (mt_open _ _ _ Hok Hne Ht) as [Hb Hr].
    pose proof (mt_base_updates t kvs) as Hbu.
    set (t' := trie_updates t kvs) in *. cbn -[trie_New].
    case_bool_decide as Hc.
    + split; [congruence|]. intros k. cbn.
      by rewrite (root_inj (mt_map t') (mt_map t)) by congruence.
    + set (m := mt_map t') in *. exists (<[root m := m]> db), (<[root m := m]> db), (MTrie (root m) m).
      split; [done|]. split; [done|]. split; [by apply insert_ok|]. split; [apply root_nonempty|].
      split; [by apply open_insert|]. split; [done|]. intros r0 t0 H0. by apply open_keep.
  - intros t1 t2. rewrite !commit_root. split.
    + intros Hm%root_inj k. cbn. by rewrite Hm.
    + intros Hk. f_equal. by apply map_eq.
  - intros db r t Hok Hne Ht. rewrite commit_root. by apply (mt_open _ _ _ Hok Hne Ht).
  - intros t k. by eexists.
  - intros t k p. cbn. intros [= <-]. rewrite bool_decide_eq_true_2 by done.
    by destruct (mt_map t !! k).
Qed.
End rooted.

Definition root (m : content) : bytes := bits (encode m).

Lemma root_inj m m' : root m = root m' → m = m'.
Proof. intros H%bits_inj. by apply encode_inj in H. Qed.

#[export] Instance trielib : TrieLib := mtrie_lib root.
#[export] Instance trie_laws : TrieLaws.
Proof. apply mtrie_laws; [exact root_inj|]. intros m. apply bits_nonempty. Qed.
End ConcreteLibs.
