(* ===== verification/Core.v ===== *)
(** * Accounts, transactions, blocks and the transaction pool ([core/])

    A record per struct and one definition per operation.  A [time.Time] is the number of
    nanoseconds since Go's zero time, so [IsZero] is [t = 0]; [time.Now()] is an argument.
    The pool's mutex makes every operation atomic: an operation is one function. *)
From S2P Require Import Prelude Utils Libs.

Abbreviation Address := string (only parsing).
Abbreviation Time := Z (only parsing).

Definition IsZero (t : Time) : bool := t =? 0.

(** [time.Time.Sub]: the difference in nanoseconds, saturated to the [int64] range. *)
Definition time_Sub (a b : Time) : Z := Z.max (- 2 ^ 63) (Z.min MaxInt (a - b)).

(** [time.Duration.Milliseconds]: truncated division. *)
Definition Milliseconds (d : Z) : Z := Z.quot d 1000000.

(** ** [core/account.go] *)
Record AccountState := mkAccountState {
  AcAddress : Address;
  Nonce : Z;
  Balance : Z;
  StorageRoot : bytes;
  CodeHash : bytes;
}.
#[export] Instance AccountState_eta : Eta AccountState := λ a,
  mkAccountState (AcAddress a) (Nonce a) (Balance a) (StorageRoot a) (CodeHash a).
#[export] Instance AccountState_eq_dec : EqDecision AccountState.
Proof. solve_decision. Defined.
#[export] Instance AccountState_countable : Countable AccountState.
Proof.
  refine (inj_countable'
    (λ a, (AcAddress a, Nonce a, Balance a, StorageRoot a, CodeHash a))
    (λ x, let '(a, n, b, s, c) := x in mkAccountState a n b s c) _).
  by intros [].
Qed.

(** [AccountState.Deduct]: the new state and whether the balance was enough. *)
Definition Deduct (as_ : AccountState) (val : Z) : AccountState * bool :=
  if Balance as_ <? val then (as_, false)
  else (as_ <| Balance := Balance as_ - val |>, true).

Definition Deposit (s : AccountState) (value : Z) : AccountState :=
  s <| Balance := Balance s + value |>.

(** ** [core/transaction.go] *)
Record Transaction := mkTransaction {
  Sender : Address;
  Recipient : Address;
  TxNonce : Z;
  Signature : bytes;
  Value : Z;
  TxHash : bytes;
  TxTime : Time;
  Relayed : bool;
  HasBroker : bool;
  SenderIsBroker : bool;
  OriginalSender : Address;
  FinalRecipient : Address;
  RawTxHash : bytes;
}.
#[export] Instance Transaction_eta : Eta Transaction := λ t,
  mkTransaction (Sender t) (Recipient t) (TxNonce t) (Signature t) (Value t) (TxHash t)
    (TxTime t) (Relayed t) (HasBroker t) (SenderIsBroker t) (OriginalSender t)
    (FinalRecipient t) (RawTxHash t).
#[export] Instance Transaction_eq_dec : EqDecision Transaction.
Proof. solve_decision. Defined.
#[export] Instance Transaction_countable : Countable Transaction.
Proof.
  refine (inj_countable'
    (λ t, (Sender t, Recipient t, TxNonce t, Signature t, Value t, TxHash t, TxTime t, Relayed t,
           HasBroker t, SenderIsBroker t, OriginalSender t, FinalRecipient t, RawTxHash t))
    (λ x, let '(a, b, c, d, e, f, g, h, i, j, k, l, m) := x in
          mkTransaction a b c d e f g h i j k l m) _).
  by intros [].
Qed.

(** The decoders panic on bytes that are not an encoding. *)
Definition DecodeAS `{Codec AccountState} (b : bytes) : go AccountState := MustDecode b.
Definition DecodeTx `{Codec Transaction} (to_decode : bytes) : go Transaction :=
  MustDecode to_decode.

(** [AccountState.Hash] *)
Definition AccountHash `{CryptoLib, Codec AccountState} (as_ : AccountState) : bytes :=
  sha256 (Encode as_).

(** [NewTransaction]: the hash is taken before the relay and broker fields are set. *)
Definition NewTransaction `{CryptoLib, Codec Transaction}
    (sender recipient : Address) (value nonce : Z) (proposeTime : Time) : Transaction :=
  let tx := mkTransaction sender recipient nonce "" value "" proposeTime
              false false false "" "" "" in
  let hash := sha256 (Encode tx) in
  tx <| TxHash := hash |> <| Relayed := false |> <| FinalRecipient := "" |>
     <| OriginalSender := "" |> <| RawTxHash := "" |> <| HasBroker := false |>
     <| SenderIsBroker := false |>.

(** ** [core/block.go] *)
Record BlockHeader `{BitSetLib} := mkBlockHeader {
  ParentBlockHash : bytes;
  StateRoot : bytes;
  TxRoot : bytes;
  Bloom : BitSet;
  Number : Z;
  HTime : Time;
  Miner : Z;
}.
#[export] Instance BlockHeader_eta `{BitSetLib} : Eta BlockHeader := λ h,
  mkBlockHeader _ (ParentBlockHash h) (StateRoot h) (TxRoot h) (Bloom h) (Number h) (HTime h)
    (Miner h).

Record Block `{BitSetLib} := mkBlock {
  Header : BlockHeader;
  Body : list Transaction;
  Hash : bytes;
}.
#[export] Instance Block_eta `{BitSetLib} : Eta Block := λ b,
  mkBlock _ (Header b) (Body b) (Hash b).

(** [BlockHeader.Hash] *)
Definition HeaderHash `{BitSetLib, CryptoLib, Codec BlockHeader} (bh : BlockHeader) : bytes :=
  sha256 (Encode bh).

Definition NewBlock `{BitSetLib} (bh : BlockHeader) (bb : list Transaction) : Block :=
  mkBlock _ bh bb "".

Definition DecodeBH `{BitSetLib, Codec BlockHeader} (b : bytes) : go BlockHeader := MustDecode b.
Definition DecodeB `{BitSetLib, Codec Block} (b : bytes) : go Block := MustDecode b.

(** ** [core/txpool.go]

    [RelayPool = None] is Go's nil map: it reads as empty and panics on a write. *)
Record TxPool := mkTxPool {
  TxQueue : list Transaction;
  RelayPool : option (gmap Z (list Transaction));
}.
#[export] Instance TxPool_eta : Eta TxPool := λ p, mkTxPool (TxQueue p) (RelayPool p).

Definition NewTxPool : TxPool := mkTxPool [] (Some ∅).

(** Stamp a transaction that has no time yet. *)
Definition stamp (now : Time) (tx : Transaction) : Transaction :=
  if IsZero (TxTime tx) then tx <| TxTime := now |> else tx.

Definition AddTx2Pool (now : Time) (tx : Transaction) (p : TxPool) : TxPool :=
  p <| TxQueue := TxQueue p ++ [stamp now tx] |>.

(** [clock i] is what the i-th call of [time.Now()] in the loop returns. *)
Definition AddTxs2Pool (clock : nat → Time) (txs : list Transaction) (p : TxPool) : TxPool :=
  p <| TxQueue := TxQueue p ++ imap (λ i tx, stamp (clock i) tx) txs |>.

Definition AddTxs2Pool_Head (tx : list Transaction) (p : TxPool) : TxPool :=
  p <| TxQueue := tx ++ TxQueue p |>.

Definition PackTxs (max_txs : Z) (p : TxPool) : list Transaction * TxPool :=
  let txNum := if len (TxQueue p) <? max_txs then len (TxQueue p) else max_txs in
  (take (Z.to_nat txNum) (TxQueue p), p <| TxQueue := drop (Z.to_nat txNum) (TxQueue p) |>).

(** [unsafe.Sizeof(Transaction{})] on a 64-bit platform: the size of the struct, whatever its
    strings and slices hold. *)
Definition Sizeof_Transaction : Z := 184.

(** The loop of [PackTxsWithBytes]: the number of leading transactions that fit. *)
Fixpoint fit_bytes (max_bytes currentSize tx_idx : Z) (l : list Transaction) : Z :=
  match l with
  | [] => tx_idx
  | _ :: l' =>
      let currentSize' := currentSize + Sizeof_Transaction in
      if max_bytes <? currentSize' then tx_idx
      else fit_bytes max_bytes currentSize' (tx_idx + 1) l'
  end.

Definition PackTxsWithBytes (max_bytes : Z) (p : TxPool) : list Transaction * TxPool :=
  let txNum := Z.to_nat (fit_bytes max_bytes 0 0 (TxQueue p)) in
  (take txNum (TxQueue p), p <| TxQueue := drop txNum (TxQueue p) |>).

(** Reading [RelayPool[shardID]]: the nil slice when the key, or the map, is missing. *)
Definition relay_lookup (p : TxPool) (shardID : Z) : list Transaction :=
  default [] (m ← RelayPool p; m !! shardID).

Definition AddRelayTx (tx : Transaction) (shardID : Z) (p : TxPool) : go TxPool :=
  match RelayPool p with
  | None => Panic "assignment to entry in nil map"
  | Some m => Ok (p <| RelayPool := Some (<[shardID := relay_lookup p shardID ++ [tx]]> m) |>)
  end.

Definition GetTxQueueLen (p : TxPool) : Z := len (TxQueue p).

Definition ClearRelayPool (p : TxPool) : TxPool := p <| RelayPool := None |>.

(** [PackRelayTxs]: [None] is the [(nil, false)] result. *)
Definition PackRelayTxs (shardID minRelaySize maxRelaySize : Z) (p : TxPool)
    : option (list Transaction) * TxPool :=
  match m ← RelayPool p; m !! shardID with
  | None => (None, p)
  | Some l =>
      if len l <? i64 minRelaySize then (None, p)
      else
        let txNum := Z.to_nat (if len l <? maxRelaySize then len l else maxRelaySize) in
        (Some (take txNum l),
         p <| RelayPool := (λ m, <[shardID := drop txNum l]> m) <$> RelayPool p |>)
  end.

Definition sent_by (addr : Address) (tx : Transaction) : bool := bool_decide (Sender tx = addr).

(** [TransferTxs]: the transactions of [addr] leave the queue and the relay pool.  A shard
    whose relay list becomes empty loses its entry.  The relay pool is read in the order of
    [map_to_list]; Go's order is unspecified. *)
Definition TransferTxs (addr : Address) (p : TxPool) : list Transaction * TxPool :=
  let keep l := List.filter (λ tx, negb (sent_by addr tx)) l in
  let m := default ∅ (RelayPool p) in
  let txTransfered := List.filter (sent_by addr) (TxQueue p)
    ++ List.filter (sent_by addr) (concat (map_to_list m).*2) in
  let newRelayPool := omap (λ l, match keep l with [] => None | l' => Some l' end) m in
  (txTransfered, mkTxPool (keep (TxQueue p)) (Some newRelayPool)).

(** ** Account facts *)
Lemma deduct_spec as_ val :
  Deduct as_ val =
    if bool_decide (val ≤ Balance as_) then (as_ <| Balance := Balance as_ - val |>, true)
    else (as_, false).
Proof. unfold Deduct. case_match; case_bool_decide; zbool; try done; lia. Qed.

(** ** Pool facts *)
Lemma stamp_id now tx : TxTime tx ≠ 0 → stamp now tx = tx.
Proof. unfold stamp, IsZero. intros H%Z.eqb_neq. by rewrite H. Qed.

Lemma stamp_fields now tx :
  Sender (stamp now tx) = Sender tx ∧ Recipient (stamp now tx) = Recipient tx ∧
  Relayed (stamp now tx) = Relayed tx ∧ TxHash (stamp now tx) = TxHash tx ∧
  Value (stamp now tx) = Value tx.
Proof. unfold stamp. by case_match. Qed.

Lemma imap_stamp_id clock txs :
  Forall (λ tx, TxTime tx ≠ 0) txs → imap (λ i tx, stamp (clock i) tx) txs = txs.
Proof.
  intros H. rewrite <-(list_fmap_id txs) at 2. revert clock.
  induction H as [|tx txs Htx _ IH]; intros clock; [done|].
  cbn. rewrite stamp_id by done. f_equal. apply (IH (clock ∘ S)).
Qed.

Lemma pack_split n p :
  (PackTxs n p).1 ++ TxQueue (PackTxs n p).2 = TxQueue p ∧
  RelayPool (PackTxs n p).2 = RelayPool p.
Proof. unfold PackTxs. cbn. split; [apply take_drop|done]. Qed.

Lemma pack_length n p : 0 ≤ n → len (PackTxs n p).1 = Z.min n (len (TxQueue p)).
Proof.
  intros Hn. unfold PackTxs. cbn. unfold len in *. rewrite length_take.
  case_match; zbool; lia.
Qed.

Lemma fit_bytes_spec max cur idx l :
  0 ≤ cur →
  fit_bytes max cur idx l =
    idx + Z.min (len l) (Z.max 0 ((max - cur) / Sizeof_Transaction)).
Proof.
  unfold Sizeof_Transaction. revert cur idx; induction l as [|tx l IH]; intros cur idx Hc.
  - cbn. change (len []) with 0. lia.
  - cbn [fit_bytes]. cbv zeta. unfold Sizeof_Transaction.
    assert (len (tx :: l) = len l + 1) as -> by (unfold len; cbn; lia).
    pose proof (len_nonneg l).
    pose proof (Z.div_mod (max - cur) 184) as Hd.
    pose proof (Z.mod_pos_bound (max - cur) 184) as Hm.
    case_match; zbool.
    + assert ((max - cur) / 184 ≤ 0) by nia. lia.
    + rewrite IH by lia.
      replace (max - (cur + 184)) with (max - cur + (-1) * 184) by lia.
      rewrite Z.div_add by lia. assert (1 ≤ (max - cur) / 184) by nia. lia.
Qed.

Lemma filter_none {A} (P : A → bool) l :
  Forall (λ x, P x = false) l → List.filter P l = [].
Proof. induction 1 as [|x l Hx _ IH]; cbn; [done|]. by rewrite Hx. Qed.

Lemma concat_omap_keep (P : Transaction → bool) (m : gmap Z (list Transaction)) :
  concat (map_to_list (omap (λ l, match List.filter P l with [] => None | l' => Some l' end) m)).*2
    ≡ₚ List.filter P (concat (map_to_list m).*2).
Proof.
  induction m as [|k l m Hk IH] using map_ind.
  - by rewrite omap_empty, map_to_list_empty.
  - set (g := λ l : list Transaction, match List.filter P l with [] => None | l' => Some l' end) in *.
    rewrite (map_to_list_insert m) by done. cbn [fmap list_fmap]. cbn [concat snd].
    rewrite List.filter_app. rewrite <-IH.
    assert (omap g m !! k = None) as Hk' by (rewrite lookup_omap, Hk; done).
    destruct (List.filter P l) as [|y l'] eqn:E.
    + rewrite omap_insert_None by (unfold g; by rewrite E). rewrite delete_id by done. done.
    + rewrite (omap_insert_Some _ _ _ _ (y :: l')) by (unfold g; by rewrite E).
      rewrite map_to_list_insert by done. done.
Qed.

(** All the transactions a pool holds. *)
Definition pool_txs (p : TxPool) : list Transaction :=
  TxQueue p ++ concat (map_to_list (default ∅ (RelayPool p))).*2.

(** ** The pool as a FIFO queue

    What a client does to the queue, and the queue discipline it sees. *)
Inductive pool_op :=
| OpAdd (clock : nat → Time) (txs : list Transaction)
| OpAdd1 (now : Time) (tx : Transaction)
| OpPack (max_txs : Z)
| OpPackBytes (max_bytes : Z).

(** The transactions an operation adds, and those it returns. *)
Definition op_added (o : pool_op) : list Transaction :=
  match o with
  | OpAdd clock txs => imap (λ i tx, stamp (clock i) tx) txs
  | OpAdd1 now tx => [stamp now tx]
  | _ => []
  end.

Definition run_op (p : TxPool) (o : pool_op) : list Transaction * TxPool :=
  match o with
  | OpAdd clock txs => ([], AddTxs2Pool clock txs p)
  | OpAdd1 now tx => ([], AddTx2Pool now tx p)
  | OpPack n => PackTxs n p
  | OpPackBytes n => PackTxsWithBytes n p
  end.

Fixpoint run_ops (p : TxPool) (ops : list pool_op) : list Transaction * TxPool :=
  match ops with
  | [] => ([], p)
  | o :: ops' =>
      let '(out, p') := run_op p o in
      let '(outs, p'') := run_ops p' ops' in
      (out ++ outs, p'')
  end.

Lemma run_op_fifo p o :
  (run_op p o).1 ++ TxQueue (run_op p o).2 = TxQueue p ++ op_added o.
Proof.
  destruct o; cbn [run_op op_added]; cbn -[PackTxs PackTxsWithBytes]; try done.
  - rewrite app_nil_r. apply pack_split.
  - unfold PackTxsWithBytes. cbn. by rewrite take_drop, app_nil_r.
Qed.

(** The transaction pool is a FIFO queue.  Whatever additions and block packings are made,
    in any order, the transactions packed so far followed by those still queued are exactly
    those of the initial queue followed by the added ones, in order: nothing is lost,
    duplicated or reordered. *)
Theorem txpool_fifo (ops : list pool_op) (p : TxPool) :
  (run_ops p ops).1 ++ TxQueue (run_ops p ops).2 = TxQueue p ++ concat (op_added <$> ops).
Proof.
  revert p; induction ops as [|o ops IH]; intros p; cbn -[run_op].
  - by rewrite app_nil_r.
  - pose proof (run_op_fifo p o) as Ho. destruct (run_op p o) as [out p'].
    specialize (IH p'). destruct (run_ops p' ops) as [outs p'']. cbn in *.
    by rewrite <-app_assoc, IH, app_assoc, Ho, <-app_assoc.
Qed.

(** The number of transactions a block takes.  [PackTxs] takes the first
    [min max_txs len] transactions; [PackTxsWithBytes] takes the first
    [min (max_bytes / 184) len], since the size it adds up is the size of the struct. *)
Theorem pack_sizes (n b : Z) (p : TxPool) :
  0 ≤ n →
  (PackTxs n p).1 = take (Z.to_nat (Z.min n (len (TxQueue p)))) (TxQueue p) ∧
  (PackTxsWithBytes b p).1 =
    take (Z.to_nat (Z.min (Z.max 0 (b / Sizeof_Transaction)) (len (TxQueue p)))) (TxQueue p).
Proof.
  intros Hn. split.
  - unfold PackTxs. cbn. f_equal. case_match; zbool; lia.
  - unfold PackTxsWithBytes. cbn [fst]. rewrite fit_bytes_spec by done.
    rewrite Z.sub_0_r. f_equal. lia.
Qed.

Definition sample_tx (sender recipient : Address) (v : Z) : Transaction :=
  mkTransaction sender recipient 0 "" v (sender +:+ recipient) 1 false false false "" "" "".

Lemma pack_sizes_witness :
  let p := mkTxPool [sample_tx "a1" "b2" 5; sample_tx "b2" "a1" 7; sample_tx "c3" "a1" 1] None in
  len (PackTxs 2 p).1 = 2 ∧ len (PackTxsWithBytes 400 p).1 = 2.
Proof.
  intros p. destruct (pack_sizes 2 400 p) as [-> ->]; [lia|]. split; vm_compute; reflexivity.
Defined.

(** [TransferTxs addr] splits the pool.  The transactions it returns are all sent by
    [addr], none of those is left in the queue or in a relay list, and together they are the
    transactions the pool held. *)
Theorem transfer_splits (addr : Address) (p : TxPool) :
  let '(moved, p') := TransferTxs addr p in
  Forall (λ tx, Sender tx = addr) moved ∧
  Forall (λ tx, Sender tx ≠ addr) (pool_txs p') ∧
  moved ++ pool_txs p' ≡ₚ pool_txs p.
Proof.
  unfold TransferTxs, pool_txs. cbn.
  set (m := default ∅ (RelayPool p)). set (L := concat (map_to_list m).*2).
  pose proof (concat_omap_keep (λ tx, negb (sent_by addr tx)) m) as Hk. fold L in Hk.
  split; [|split].
  - rewrite <-List.filter_app. apply Forall_forall. intros tx.
    rewrite list_elem_of_In, filter_In. intros [_ H]. by apply bool_decide_eq_true in H.
  - rewrite Hk, <-List.filter_app. apply Forall_forall. intros tx.
    rewrite list_elem_of_In, filter_In. intros [_ H]. unfold sent_by in H.
    by apply negb_true_iff, bool_decide_eq_false in H.
  - rewrite Hk. rewrite (filter_split_perm (sent_by addr) (TxQueue p)) at 3.
    rewrite (filter_split_perm (sent_by addr) L) at 3. solve_Permutation.
Qed.

(** The relay pool.  After [ClearRelayPool] the map is nil and [AddRelayTx] panics; on a
    pool with a map it appends to the list of that shard and leaves the other shards alone. *)
Theorem relay_pool_spec (tx : Transaction) (sid : Z) (p : TxPool) :
  AddRelayTx tx sid (ClearRelayPool p) = Panic "assignment to entry in nil map" ∧
  (∀ m, RelayPool p = Some m →
     ∃ p', AddRelayTx tx sid p = Ok p' ∧ TxQueue p' = TxQueue p ∧
       ∀ s, relay_lookup p' s = relay_lookup p s ++ (if bool_decide (s = sid) then [tx] else [])).
Proof.
  split; [done|]. intros m Hm. unfold AddRelayTx. rewrite Hm. eexists; split; [done|].
  split; [done|]. intros s. unfold relay_lookup. cbn. rewrite Hm. cbn.
  rewrite lookup_insert. case_decide as Hd; case_bool_decide; subst; try done.
  by rewrite app_nil_r.
Qed.

(** ** The concrete interfaces of [Libs] extend to headers and blocks *)
Module ConcreteCore.
Import ConcreteLibs.

#[export] Instance BlockHeader_eq_dec : EqDecision BlockHeader.
Proof. solve_decision. Defined.
#[export] Instance BlockHeader_countable : Countable BlockHeader.
Proof.
  refine (inj_countable'
    (λ h, (ParentBlockHash h, StateRoot h, TxRoot h, Bloom h : gset Z, Number h, HTime h, Miner h))
    (λ x, let '(a, b, c, d, e, f, g) := x in mkBlockHeader _ a b c d e f g) _).
  by intros [].
Qed.
#[export] Instance Block_eq_dec : EqDecision Block.
Proof. solve_decision. Defined.
#[export] Instance Block_countable : Countable Block.
Proof.
  refine (inj_countable' (λ b, (Header b, Body b, Hash b))
    (λ x, let '(a, b, c) := x in mkBlock _ a b c) _).
  by intros [].
Qed.

#[export] Instance as_codec : Codec AccountState := countable_codec AccountState.
#[export] Instance tx_codec : Codec Transaction := countable_codec Transaction.
#[export] Instance bh_codec : Codec BlockHeader := countable_codec BlockHeader.
#[export] Instance block_codec : Codec Block := countable_codec Block.
#[export] Instance as_codec_laws : CodecLaws AccountState := countable_codec_laws AccountState.
#[export] Instance tx_codec_laws : CodecLaws Transaction := countable_codec_laws Transaction.
#[export] Instance bh_codec_laws : CodecLaws BlockHeader := countable_codec_laws BlockHeader.
#[export] Instance block_codec_laws : CodecLaws Block := countable_codec_laws Block.
End ConcreteCore.
