(* ===== verification/Messages.v ===== *)
(** * Messages ([message/], [shard/])

    The structs the nodes and the supervisor exchange, the message type tags, and the 30-byte
    header that [MergeMessage] writes and [SplitMessage] reads. *)
From Stdlib Require Import Ascii.
From S2P Require Import Prelude Utils Libs Core.

(** ** [shard.Node] *)
Record Node := mkNode {
  NodeID : Z;
  NShardID : Z;
  IPaddr : string;
}.
#[export] Instance Node_eq_dec : EqDecision Node.
Proof. solve_decision. Defined.

(** ** Message and request types: strings, as in the source *)
Definition CPrePrepare := "preprepare".
Definition CPrepare := "prepare".
Definition CCommit := "commit".
Definition CRequestOldrequest := "requestOldrequest".
Definition CSendOldrequest := "sendOldrequest".
Definition CStop := "stop".
Definition CRelay := "relay".
Definition CRelayWithProof := "CRelay&Proof".
Definition CInject := "inject".
Definition CBlockInfo := "BlockInfo".
Definition CSeqIDinfo := "SequenceID".
Definition AccountState_and_TX := "AccountState&txs".
Definition CPartitionMsg := "PartitionModifiedMap".
Definition CPartitionReady := "ready for partition".
Definition CAccountTransferMsg_broker := "BrokerAS_transfer".
Definition CInner2CrossTx := "innerShardTx_be_crossShard".
Definition ViewChangePropose := "ViewChangePropose".
Definition NewChange := "NewChange".
Definition OHStream := "OHStream".
Definition OHBodies := "OHBodies".
Definition OHMissing := "OHMissing".
Definition OHCompact := "OHCompact".
Definition OHMigrationDone := "OHMigrationDone".
Definition ExCliqueBlock := "ExCliqueBlock".

Definition all_message_types : list string :=
  [CPrePrepare; CPrepare; CCommit; CRequestOldrequest; CSendOldrequest; CStop; CRelay;
   CRelayWithProof; CInject; CBlockInfo; CSeqIDinfo; AccountState_and_TX; CPartitionMsg;
   CPartitionReady; CAccountTransferMsg_broker; CInner2CrossTx; ViewChangePropose; NewChange;
   OHStream; OHBodies; OHMissing; OHCompact; OHMigrationDone; ExCliqueBlock].

Definition BlockRequest := "Block".
Definition PartitionReq := "PartitionReq".

(** ** Consensus messages *)
Record Request := mkRequest {
  RequestType : string;
  Content : bytes;
  ReqTime : Time;
}.
#[export] Instance Request_eta : Eta Request := λ r,
  mkRequest (RequestType r) (Content r) (ReqTime r).
#[export] Instance Request_eq_dec : EqDecision Request.
Proof. solve_decision. Defined.
#[export] Instance Request_countable : Countable Request.
Proof.
  refine (inj_countable' (λ r, (RequestType r, Content r, ReqTime r))
    (λ x, let '(a, b, c) := x in mkRequest a b c) _).
  by intros [].
Qed.

Record PrePrepare := mkPrePrepare {
  RequestMsg : Request;
  PPDigest : bytes;
  PPSeqID : Z;
}.
#[export] Instance PrePrepare_eta : Eta PrePrepare := λ p,
  mkPrePrepare (RequestMsg p) (PPDigest p) (PPSeqID p).

Record Prepare := mkPrepare {
  PDigest : bytes;
  PSeqID : Z;
  PSenderNode : Node;
}.

Record Commit := mkCommit {
  CDigest : bytes;
  CSeqID : Z;
  CSenderNode : Node;
}.

Record RequestOldMessage := mkRequestOldMessage {
  ROSeqStartHeight : Z;
  ROSeqEndHeight : Z;
  ROServerNode : Node;
  ROSenderNode : Node;
}.

Record SendOldMessage := mkSendOldMessage {
  SOSeqStartHeight : Z;
  SOSeqEndHeight : Z;
  OldRequest : list Request;
  SOSenderNode : Node;
}.

Record ViewChangeMsg := mkViewChangeMsg {
  VCCurView : Z;
  VCNextView : Z;
  VCSeqID : Z;
  VCFromNode : Z;
}.

Record NewViewMsg := mkNewViewMsg {
  NVCurView : Z;
  NVNextView : Z;
  NewSeqID : Z;
  NVFromNode : Z;
}.

(** ** Transactions between shards, and to the supervisor *)
Record InjectTxs := mkInjectTxs {
  ITxs : list Transaction;
  ToShardID : Z;
}.

Record Relay := mkRelay {
  RTxs : list Transaction;
  RSenderShardID : Z;
  RSenderSeq : Z;
}.

(** [chain.TxProofResult]; [Error] is the empty string when there is none. *)
Record TxProofResult := mkTxProofResult {
  Found : bool;
  BlockHash : bytes;
  PTxHash : bytes;
  PTxRoot : bytes;
  BlockHeight : Z;
  KeyList : list bytes;
  ValueList : list bytes;
  PError : string;
}.

Record RelayWithProof := mkRelayWithProof {
  RPTxs : list Transaction;
  TxProofs : list TxProofResult;
  RPSenderShardID : Z;
  RPSenderSeq : Z;
}.

Record SeqIDinfo := mkSeqIDinfo {
  SISenderShardID : Z;
  SISenderSeq : Z;
}.

Record BlockInfoMsg := mkBlockInfoMsg {
  BlockBodyLength : Z;
  InnerShardTxs : list Transaction;
  Epoch : Z;
  ProposeTime : Time;
  CommitTime : Time;
  SenderShardID : Z;
  Relay1Txs : list Transaction;
  Relay2Txs : list Transaction;
  Broker1Txs : list Transaction;
  Broker2Txs : list Transaction;
}.

(** ** Re-partitioning *)
Record AccountTransferMsg := mkAccountTransferMsg {
  ATModifiedMap : gmap string Z;
  ATAddrs : list string;
  ATAccountState : list AccountState;
  ATid : Z;
}.

Record PartitionReadyMsg := mkPartitionReadyMsg {
  PRFromShard : Z;
  NowSeqID : Z;
}.

Record AccountStateAndTx := mkAccountStateAndTx {
  ASAddrs : list string;
  ASAccountState : list AccountState;
  ASTxs : list Transaction;
  FromShard : Z;
}.

(** ** Compact proposals ([pbft_all/overhead.go]) *)
Record compactProposal := mkCompactProposal {
  Proposal : PrePrepare;
  CPHeader : bytes;
  CPHash : bytes;
  Keys : list string;
  Leader : string;
}.

Record missingBodies := mkMissingBodies {
  MKeys : list string;
  Reply : string;
}.

(** ** A message on the wire, by its type tag *)
Inductive Msg :=
| MPrePrepare (m : PrePrepare)
| MPrepare (m : Prepare)
| MCommit (m : Commit)
| MRequestOld (m : RequestOldMessage)
| MSendOld (m : SendOldMessage)
| MViewChange (m : ViewChangeMsg)
| MNewView (m : NewViewMsg)
| MStop
| MRelay (m : Relay)
| MRelayWithProof (m : RelayWithProof)
| MInject (m : InjectTxs)
| MBlockInfo (m : BlockInfoMsg)
| MSeqIDinfo (m : SeqIDinfo)
| MPartition (m : gmap string Z)
| MAccountStateAndTx (m : AccountStateAndTx)
| MPartitionReady (m : PartitionReadyMsg)
| MInner2Cross (txs : list Transaction)
| MOHStream (bodies : list bytes)
| MOHBodies (bodies : list bytes)
| MOHMissing (m : missingBodies)
| MOHCompact (m : compactProposal)
| MOHMigrationDone (shard node epoch : Z)
| MAccountStateAndTx_broker (m : AccountStateAndTx).

(** A message and the address it is sent to. *)
Abbreviation packet := (string * Msg)%type.

(** ** The message header *)
Definition prefixMSGtypeLen : nat := 30.

(** [MergeMessage]: the type, written byte by byte into a zeroed 30-byte header (an index
    past it is a run-time panic), then the content. *)
Definition MergeMessage (msgType : string) (content : bytes) : go bytes :=
  let b := replicate prefixMSGtypeLen zero in
  let ws := chars msgType in
  if (prefixMSGtypeLen <? length ws)%nat then Panic "index out of range"
  else Ok (unchars (ws ++ drop (length ws) b) +:+ content).

(** [SplitMessage]: the non-zero bytes of the header are the type. *)
Definition SplitMessage (message : bytes) : go (string * bytes) :=
  let l := chars message in
  if (length l <? prefixMSGtypeLen)%nat then Panic "slice bounds out of range"
  else
    let msgTypeBytes := take prefixMSGtypeLen l in
    let msgType_pruned := List.filter (λ v, negb (Ascii.eqb v zero)) msgTypeBytes in
    Ok (unchars msgType_pruned, unchars (drop prefixMSGtypeLen l)).

(** A tag that fits the header and has no zero byte. *)
Definition good_tag (s : string) : bool :=
  (length (chars s) <=? prefixMSGtypeLen)%nat && forallb (λ v, negb (Ascii.eqb v zero)) (chars s).

Lemma filter_zeros n :
  List.filter (λ v, negb (Ascii.eqb v zero)) (replicate n zero) = [].
Proof. by induction n. Qed.

(** Splitting a merged message gives back its type and content, for every type that has
    at most 30 bytes and no zero byte; a longer type panics. *)
Theorem split_merge (t : string) (content : bytes) :
  (good_tag t = true → (m ← MergeMessage t content; SplitMessage m) = Ok (t, content)) ∧
  ((prefixMSGtypeLen < length (chars t))%nat →
     MergeMessage t content = Panic "index out of range").
Proof.
  split.
  - unfold good_tag, MergeMessage. intros [Hl Hz]%andb_true_iff. apply Nat.leb_le in Hl.
    rewrite (proj2 (Nat.ltb_ge _ _)) by done. cbn [mbind go_bind].
    unfold SplitMessage. rewrite chars_app, chars_unchars.
    assert (length (chars t ++ drop (length (chars t)) (replicate prefixMSGtypeLen zero))
            = prefixMSGtypeLen) as Hh.
    { rewrite length_app, length_drop, length_replicate. lia. }
    rewrite length_app, Hh, (proj2 (Nat.ltb_ge _ _)) by lia.
    rewrite (take_app_length' _ _ _ (eq_sym Hh)), (drop_app_length' _ _ _ (eq_sym Hh)).
    rewrite List.filter_app, filter_all by done.
    rewrite drop_replicate, filter_zeros, app_nil_r. by rewrite !unchars_chars.
  - unfold MergeMessage. intros H%Nat.ltb_lt. by rewrite H.
Qed.

(** Every message type of the program round-trips. *)
Lemma all_types_good : forallb good_tag all_message_types = true.
Proof. vm_compute. reflexivity. Qed.

Lemma split_merge_witness :
  (m ← MergeMessage CInner2CrossTx "{}"; SplitMessage m) = Ok (CInner2CrossTx, "{}").
Proof. apply (proj1 (split_merge CInner2CrossTx "{}")). vm_compute. reflexivity. Defined.
