(* ===== verification/Storage.v ===== *)
(** * The block store ([storage/storage.go])

    Three buckets of a bolt database: blocks and headers by block hash, and the hash of the
    newest block under one key.  A failed transaction panics; a missing key is an error value. *)
From S2P Require Import Prelude Utils Libs Core.

Section storage.
Context `{BitSetLib, !Codec BlockHeader, !Codec Block, BoltLib}.

Definition blockBucket := "block".
Definition blockHeaderBucket := "blockHeader".
Definition newestBlockHashBucket := "newestBlockHash".

(** [DataBase.Update] around one [Put]. *)
Definition db_put (db : BoltDB) (bucket : string) (k v : bytes) : go BoltDB :=
  match bolt_Put db bucket k v with
  | Some db' => Ok db'
  | None => Panic ""
  end.

Definition UpdateNewestBlock (s : BoltDB) (newestbhash : bytes) : go BoltDB :=
  db_put s newestBlockHashBucket "OnlyNewestBlock" newestbhash.

Definition AddBlockHeader (s : BoltDB) (blockhash : bytes) (bh : BlockHeader) : go BoltDB :=
  db_put s blockHeaderBucket blockhash (Encode bh).

(** [Storage.AddBlock] *)
Definition StoreBlock (s : BoltDB) (b : Block) : go BoltDB :=
  s ← db_put s blockBucket (Hash b) (Encode b);
  s ← AddBlockHeader s (Hash b) (Header b);
  UpdateNewestBlock s (Hash b).

(** [inl] is the error value. *)
Definition GetBlockHeader (s : BoltDB) (bhash : bytes) : go (string + BlockHeader) :=
  match bolt_Get s blockHeaderBucket bhash with
  | None => Ok (inl "the block is not existed")
  | Some e => bh ← DecodeBH e; Ok (inr bh)
  end.

Definition GetBlock (s : BoltDB) (bhash : bytes) : go (string + Block) :=
  match bolt_Get s blockBucket bhash with
  | None => Ok (inl "the block is not existed")
  | Some e => b ← DecodeB e; Ok (inr b)
  end.

Definition GetNewestBlockHash (s : BoltDB) : string + bytes :=
  match bolt_Get s newestBlockHashBucket "OnlyNewestBlock" with
  | None => inl "cannot find the newest block hash"
  | Some h => inr h
  end.

(** ** What a stored block reads back as *)
Context `{!BoltLaws, !CodecLaws BlockHeader, !CodecLaws Block}.

Lemma db_put_ok db bk k v :
  k ≠ "" → ∃ db', db_put db bk k v = Ok db' ∧
    ∀ bk' k', bolt_Get db' bk' k' =
      if bool_decide (bk = bk' ∧ k = k') then Some v else bolt_Get db bk' k'.
Proof.
  intros Hk. destruct (bolt_put_ok db bk k v Hk) as [db' Hp]. exists db'.
  unfold db_put. rewrite Hp. split; [done|]. intros. by apply bolt_get_put.
Qed.

(** The three buckets after a block is stored. *)
Lemma store_block_gets s b :
  Hash b ≠ "" →
  ∃ s', StoreBlock s b = Ok s' ∧
    GetNewestBlockHash s' = inr (Hash b) ∧
    GetBlock s' (Hash b) = Ok (inr b) ∧
    GetBlockHeader s' (Hash b) = Ok (inr (Header b)) ∧
    ∀ h, h ≠ Hash b → GetBlock s' h = GetBlock s h ∧ GetBlockHeader s' h = GetBlockHeader s h.
Proof.
  intros Hh. unfold StoreBlock, AddBlockHeader, UpdateNewestBlock.
  destruct (db_put_ok s blockBucket (Hash b) (Encode b) Hh) as (s1 & -> & G1).
  cbn [mbind go_bind].
  destruct (db_put_ok s1 blockHeaderBucket (Hash b) (Encode (Header b)) Hh) as (s2 & -> & G2).
  cbn [mbind go_bind].
  destruct (db_put_ok s2 newestBlockHashBucket "OnlyNewestBlock" (Hash b)) as (s3 & -> & G3); [done|].
  exists s3. split; [done|]. unfold GetNewestBlockHash, GetBlock, GetBlockHeader.
  split; [|split; [|split]].
  - rewrite G3. by rewrite bool_decide_eq_true_2.
  - rewrite G3, bool_decide_eq_false_2 by (by intros [? _]).
    rewrite G2, bool_decide_eq_false_2 by (by intros [? _]).
    rewrite G1, bool_decide_eq_true_2 by done. unfold DecodeB. by rewrite must_decode_encode.
  - rewrite G3, bool_decide_eq_false_2 by (by intros [? _]).
    rewrite G2, bool_decide_eq_true_2 by done. unfold DecodeBH. by rewrite must_decode_encode.
  - intros h Hne. split;
      (rewrite G3, bool_decide_eq_false_2 by (by intros [? _]);
       rewrite G2, bool_decide_eq_false_2 by (intros [? ?]; done || congruence);
       rewrite G1, bool_decide_eq_false_2 by (intros [? ?]; done || congruence); done).
Qed.
End storage.
