(* ===== verification/Chain.v ===== *)
(** * The blockchain of a node ([chain/blockchain.go])

    Block generation, validation and addition, execution of transactions on the status trie,
    and the account migration operations.  The trie database, the block store, the encoders and
    the hash are the interfaces of [Libs].

    The second half relates the trie to a finite map of account states ([represents]), states
    the execution of a transaction list on such a map ([ledger_exec]) and proves that the code
    refines it; balances, conservation and migration follow from the map. *)
From Stdlib Require Import Ascii.
From S2P Require Import Prelude Utils Libs Core Storage.

(** [params.ChainConfig] *)
Record ChainConfig := mkChainConfig {
  ChainID : Z;
  CfgNodeID : Z;
  ShardID : Z;
  Nodes_perShard : Z;
  ShardNums : Z;
  BlockSize : Z;
  BlockInterval : Z;
  CfgInjectSpeed : Z;
  MaxRelayBlockSize : Z;
}.

(** The account states by address. *)
Abbreviation ledger := (gmap Address AccountState).

Section chain.
Context `{Params, BitSetLib, CryptoLib, !Codec AccountState, !Codec BlockHeader, !Codec Block,
          BoltLib, TrieLib}.

(** The struct; [CurrentBlock] is never nil once [NewBlockChain] has returned. *)
Record BlockChain := mkBlockChain {
  triedb : TrieDB;
  Config : ChainConfig;
  CurrentBlock : Block;
  Storage : BoltDB;
  Txpool : TxPool;
  PartitionMap : gmap string Z;
}.
#[export] Instance BlockChain_eta : Eta BlockChain := λ bc,
  mkBlockChain (triedb bc) (Config bc) (CurrentBlock bc) (Storage bc) (Txpool bc) (PartitionMap bc).

(** The byte string [[]byte{0}]. *)
Definition byte0 : bytes := String.String zero "".

(** The trie of the transaction hashes of a body. *)
Definition tx_tree (txs : list Transaction) : Trie :=
  foldl (λ t tx, trie_Update t (TxHash tx) byte0) (trie_NewEmpty trie_NewDatabase) txs.

Definition GetTxTreeRoot (txs : list Transaction) : bytes := trie_Hash (tx_tree txs).

Definition GetBloomFilter (txs : list Transaction) : BitSet :=
  foldl (λ bs tx, bitset_Set bs (ModBytes (TxHash tx) 2048)) (bitset_New 2048) txs.

Definition Update_PartitionMap (key : string) (val : Z) (bc : BlockChain) : BlockChain :=
  bc <| PartitionMap := <[key := val]> (PartitionMap bc) |>.

Definition Get_PartitionMap (bc : BlockChain) (key : string) : go Z :=
  match PartitionMap bc !! key with
  | None => s ← Addr2Shard key; Ok (u64 s)
  | Some s => Ok s
  end.

Definition SendTx2Pool (clock : nat → Time) (txs : list Transaction) (bc : BlockChain) : BlockChain :=
  bc <| Txpool := AddTxs2Pool clock txs (Txpool bc) |>.

(** The account state the loop works on: a missing account starts with [Init_Balance] and the
    index of the transaction as its nonce. *)
Definition load_account (st : Trie) (addr : Address) (i : nat) : go AccountState :=
  match trie_Get st addr with
  | None => Ok (mkAccountState "" (Z.of_nat i) Init_Balance "" "")
  | Some enc => DecodeAS enc
  end.

(** One iteration of the loop of [GetUpdateStatusTrie]; [cnt] counts the written accounts. *)
Definition handle_tx (bc : BlockChain) (acc : Trie * Z) (itx : nat * Transaction)
    : go (Trie * Z) :=
  let '(st, cnt) := acc in
  let '(i, tx) := itx in
  let ShardID := ShardID (Config bc) in
  senderIn ← (if Relayed tx then Ok false
              else s ← Get_PartitionMap bc (Sender tx); Ok ((s =? ShardID) || HasBroker tx));
  debited ← (if (senderIn : bool) then
      s_state ← load_account st (Sender tx) i;
      if Balance s_state <? Value tx then Ok None
      else let '(s_state, _) := Deduct s_state (Value tx) in
           Ok (Some (trie_Update st (Sender tx) (Encode s_state), cnt + 1))
    else Ok (Some (st, cnt)));
  match debited with
  | None => Ok (st, cnt)  (* continue *)
  | Some (st, cnt) =>
      r ← Get_PartitionMap bc (Recipient tx);
      if (r =? ShardID) || HasBroker tx then
        r_state ← load_account st (Recipient tx) i;
        Ok (trie_Update st (Recipient tx) (Encode (Deposit r_state (Value tx))), cnt + 1)
      else Ok (st, cnt)
  end.

(** Open the status trie of the current block. *)
Definition open_state (bc : BlockChain) : go Trie :=
  match trie_New (StateRoot (Header (CurrentBlock bc))) (triedb bc) with
  | Some st => Ok st
  | None => Panic "missing trie node"
  end.

(** Commit a trie to the database: the database and the root. *)
Definition commit_trie (db : TrieDB) (st : Trie) : go (TrieDB * bytes * bool) :=
  match trie_Commit st with
  | (rt, None) => Ok (db, rt, false)
  | (rt, Some ns) =>
      match triedb_Update db ns with
      | None => Panic ""
      | Some db1 =>
          match triedb_Commit db1 rt with
          | None => Panic "commit"
          | Some db2 => Ok (db2, rt, true)
          end
      end
  end.

(** [GetUpdateStatusTrie]: the new trie database and the root. *)
Definition GetUpdateStatusTrie (bc : BlockChain) (txs : list Transaction) : go (TrieDB * bytes) :=
  if len txs =? 0 then Ok (triedb bc, StateRoot (Header (CurrentBlock bc)))
  else
    st ← open_state bc;
    acc ← go_fold (handle_tx bc) (st, 0) (imap pair txs);
    let '(st, cnt) := acc in
    if cnt =? 0 then Ok (triedb bc, StateRoot (Header (CurrentBlock bc)))
    else
      r ← commit_trie (triedb bc) st;
      let '(db, rt, _) := r in Ok (db, rt).

(** A block with its header and the hash of the header. *)
Definition seal (bh : BlockHeader) (txs : list Transaction) : Block :=
  (NewBlock bh txs) <| Hash := HeaderHash bh |>.

Definition GenerateBlock (bc : BlockChain) (miner : Z) (now : Time) : go (Block * BlockChain) :=
  let '(txs, pool) :=
    if UseBlocksizeInBytes =? 1 then PackTxsWithBytes BlocksizeInBytes (Txpool bc)
    else PackTxs (BlockSize (Config bc)) (Txpool bc) in
  let bc := bc <| Txpool := pool |> in
  r ← GetUpdateStatusTrie bc txs;
  let '(db, rt) := r in
  let bh := mkBlockHeader _ (Hash (CurrentBlock bc)) rt (GetTxTreeRoot txs) (GetBloomFilter txs)
              (u64 (Number (Header (CurrentBlock bc)) + 1)) now miner in
  Ok (seal bh txs, bc <| triedb := db |>).

(** [NewGenisisBlock]; [db] is the trie database opened on the node's key/value store. *)
Definition NewGenisisBlock (db : TrieDB) : Block :=
  seal (mkBlockHeader _ "" (trie_Hash (trie_NewEmpty db)) (GetTxTreeRoot []) (GetBloomFilter []) 0 0 0) [].

(** [AddGenisisBlock]: store the block and read it back as the current block. *)
Definition AddGenisisBlock (s : BoltDB) (gb : Block) : go (BoltDB * Block) :=
  s ← StoreBlock s gb;
  match GetNewestBlockHash s with
  | inl _ => Panic ""
  | inr newestHash =>
      r ← GetBlock s newestHash;
      match r with
      | inl _ => Panic ""
      | inr curb => Ok (s, curb)
      end
  end.

Definition AddBlock (b : Block) (bc : BlockChain) : go BlockChain :=
  if negb (Number (Header b) =? u64 (Number (Header (CurrentBlock bc)) + 1)) then Ok bc
  else if negb (bool_decide (ParentBlockHash (Header b) = Hash (CurrentBlock bc))) then Ok bc
  else
    db ← (match trie_New (StateRoot (Header b)) (triedb bc) with
          | Some _ => Ok (triedb bc)
          | None => r ← GetUpdateStatusTrie bc (Body b); Ok r.1
          end);
    s ← StoreBlock (Storage bc) b;
    Ok (bc <| triedb := db |> <| CurrentBlock := b |> <| Storage := s |>).

(** [NewBlockChain]: a fresh chain when the store has no newest block, the stored one
    otherwise. *)
Definition NewBlockChain (cc : ChainConfig) (db : TrieDB) (s : BoltDB) : go BlockChain :=
  match GetNewestBlockHash s with
  | inl _ =>
      r ← AddGenisisBlock s (NewGenisisBlock db);
      let '(s, curb) := r in
      Ok (mkBlockChain db cc curb s NewTxPool ∅)
  | inr curHash =>
      r ← GetBlock s curHash;
      match r with
      | inl _ => Panic ""
      | inr curb =>
          match trie_New (StateRoot (Header curb)) db with
          | None => Panic ""
          | Some _ => Ok (mkBlockChain db cc curb s NewTxPool ∅)
          end
      end
  end.

(** [IsValidBlock]: [None] is the nil error. *)
Definition IsValidBlock (bc : BlockChain) (b : Block) : option string :=
  if negb (bool_decide (ParentBlockHash (Header b) = Hash (CurrentBlock bc)))
  then Some "the parentblock hash is not equal to the current block hash"
  else if negb (bool_decide (GetTxTreeRoot (Body b) = TxRoot (Header b)))
  then Some "the transaction root is wrong"
  else None.

(** The loop of [AddAccounts]: [as[i]] out of range is a panic. *)
Definition add_account (bc : BlockChain) (as_ : list AccountState) (st : Trie) (ia : nat * Address)
    : go Trie :=
  let '(i, addr) := ia in
  s ← Get_PartitionMap bc addr;
  if s =? ShardID (Config bc) then
    match as_ !! i with
    | None => Panic "index out of range"
    | Some a => Ok (trie_Update st addr (Encode (mkAccountState "" (Nonce a) (Balance a) "" "")))
    end
  else Ok st.

Definition AddAccounts (ac : list Address) (as_ : list AccountState) (miner : Z) (bc : BlockChain)
    : go BlockChain :=
  r ← (if len ac =? 0 then Ok (triedb bc, StateRoot (Header (CurrentBlock bc)))
       else
         st ← open_state bc;
         st ← go_fold (add_account bc as_) st (imap pair ac);
         r ← commit_trie (triedb bc) st;
         let '(db, rrt, dirty) := r in
         Ok (db, if (dirty : bool) then rrt else StateRoot (Header (CurrentBlock bc))));
  let '(db, rt) := r in
  let bh := mkBlockHeader _ (Hash (CurrentBlock bc)) rt (GetTxTreeRoot []) (GetBloomFilter [])
              (u64 (Number (Header (CurrentBlock bc)) + 1)) 0 0 in
  let b := seal bh [] in
  s ← StoreBlock (Storage bc) b;
  Ok (bc <| triedb := db |> <| CurrentBlock := b |> <| Storage := s |>).

Definition FetchAccounts (bc : BlockChain) (addrs : list Address) : go (list AccountState) :=
  st ← open_state bc;
  go_fold (λ res addr, a ← load_account st addr 0; Ok (res ++ [a])) [] addrs.

(** ** The ledger a trie represents *)

Definition represents (st : Trie) (m : ledger) : Prop := ∀ k, trie_Get st k = Encode <$> m !! k.

(** The root [r] is that of a trie with the ledger [m]; it is not the zero root, which opens an
    empty trie whatever the state was. *)
Definition root_is (db : TrieDB) (r : bytes) (m : ledger) : Prop :=
  r ≠ "" ∧ ∃ t, trie_New r db = Some t ∧ represents t m.

(** Every root that can be opened in [db] can be opened in [db'], with the same content. *)
Definition keeps (db db' : TrieDB) : Prop :=
  ∀ r t, trie_New r db = Some t → ∃ t', trie_New r db' = Some t' ∧ ∀ k, trie_Get t' k = trie_Get t k.

Definition acct (m : ledger) (a : Address) (i : nat) : AccountState :=
  default (mkAccountState "" (Z.of_nat i) Init_Balance "" "") (m !! a).

Arguments acct : simpl never.

(** The shard of an account as the node sees it; 0 stands for a panic. *)
Definition shard_of (bc : BlockChain) (a : Address) : Z :=
  match Get_PartitionMap bc a with Ok s => s | Panic _ => 0 end.

Definition placed (bc : BlockChain) (a : Address) : Prop := is_ok (Get_PartitionMap bc a) = true.

Definition txs_placed (bc : BlockChain) (txs : list Transaction) : Prop :=
  Forall (λ tx, placed bc (Sender tx) ∧ placed bc (Recipient tx)) txs.

(** Execution on the map: which side of a transaction belongs to shard [sid], and its effect. *)
Section ledger.
Context (shard : Address → Z) (sid : Z).

Definition debits (tx : Transaction) : bool :=
  negb (Relayed tx) && ((shard (Sender tx) =? sid) || HasBroker tx).
Definition credits (tx : Transaction) : bool := (shard (Recipient tx) =? sid) || HasBroker tx.

Definition ledger_debit (m : ledger) (i : nat) (tx : Transaction) : option ledger :=
  if debits tx then
    let s := acct m (Sender tx) i in
    if bool_decide (Value tx ≤ Balance s)
    then Some (<[Sender tx := s <| Balance := Balance s - Value tx |>]> m) else None
  else Some m.

Definition ledger_credit (m : ledger) (i : nat) (tx : Transaction) : ledger :=
  if credits tx then
    let r := acct m (Recipient tx) i in
    <[Recipient tx := r <| Balance := Balance r + Value tx |>]> m
  else m.

Definition ledger_tx (m : ledger) (itx : nat * Transaction) : ledger :=
  match ledger_debit m itx.1 itx.2 with
  | None => m
  | Some m' => ledger_credit m' itx.1 itx.2
  end.

Definition ledger_exec (m : ledger) (txs : list Transaction) : ledger :=
  foldl ledger_tx m (imap pair txs).
End ledger.

(** ** Laws assumed of the interfaces *)
Context `{!BitSetLaws, !CryptoLaws, !CodecLaws AccountState, !CodecLaws BlockHeader,
          !CodecLaws Block, !BoltLaws, !TrieLaws}.

Lemma placed_shard bc a : placed bc a → Get_PartitionMap bc a = Ok (shard_of bc a).
Proof. unfold placed, shard_of. by destruct (Get_PartitionMap bc a). Qed.

Lemma represents_update st m k a :
  represents st m → represents (trie_Update st k (Encode a)) (<[k := a]> m).
Proof.
  intros Hr k'. rewrite trie_get_update by apply encode_nonempty.
  rewrite lookup_insert. case_bool_decide; case_decide; done || apply Hr.
Qed.

Lemma represents_load st m a i : represents st m → load_account st a i = Ok (acct m a i).
Proof.
  intros Hr. unfold load_account, acct. rewrite Hr.
  destruct (m !! a); cbn; [|done]. apply must_decode_encode.
Qed.

Lemma represents_ext t t' m :
  (∀ k, trie_Get t' k = trie_Get t k) → represents t m → represents t' m.
Proof. intros E Hr k. by rewrite E. Qed.

(** A chain whose state root holds the ledger [m]. *)
Definition state_ok (bc : BlockChain) (m : ledger) : Prop :=
  triedb_ok (triedb bc) ∧ root_is (triedb bc) (StateRoot (Header (CurrentBlock bc))) m.

Lemma open_state_ok bc m :
  state_ok bc m → ∃ t, open_state bc = Ok t ∧
    StateRoot (Header (CurrentBlock bc)) ≠ "" ∧
    trie_New (StateRoot (Header (CurrentBlock bc))) (triedb bc) = Some t ∧ represents t m.
Proof. intros (_ & Hz & t & Ht & Hr). exists t. unfold open_state. by rewrite Ht. Qed.

Lemma keeps_refl db : keeps db db.
Proof. intros r t Ht. eauto. Qed.

Lemma keeps_root db db' r m : keeps db db' → root_is db r m → root_is db' r m.
Proof.
  intros Hk (Hz & t & Ht & Hr). destruct (Hk r t Ht) as (t' & Ht' & E). split; [done|].
  exists t'. split; [done|]. by eapply represents_ext.
Qed.

(** Committing the updates made to an opened trie. *)
Lemma commit_trie_spec db r t kvs m :
  triedb_ok db → r ≠ "" → trie_New r db = Some t → represents (trie_updates t kvs) m →
  ∃ db' rt dirty, commit_trie db (trie_updates t kvs) = Ok (db', rt, dirty) ∧
    triedb_ok db' ∧ root_is db' rt m ∧ keeps db db' ∧
    rt = (trie_Commit (trie_updates t kvs)).1 ∧ (dirty = false → rt = r).
Proof.
  intros Hok Hz Ht Hm. pose proof (trie_commit db r t kvs Hok Hz Ht) as Hc.
  unfold commit_trie. destruct (trie_Commit (trie_updates t kvs)) as [rt [ns|]] eqn:E.
  - destruct Hc as (db1 & db2 & t' & -> & -> & Hok2 & Hz2 & Ht' & Hg & Hk).
    exists db2, rt, true. split; [done|]. split; [done|]. split; [|done]. split; [done|].
    exists t'. split; [done|]. by eapply represents_ext.
  - destruct Hc as [-> Hg]. exists db, r, false. split; [done|]. split; [done|].
    split; [|split; [apply keeps_refl|done]]. split; [done|].
    exists t. split; [done|]. eapply represents_ext; [|exact Hm]. intros k. by rewrite Hg.
Qed.

(** One iteration of the loop: some accounts are written, and the trie follows the ledger. *)
Lemma handle_tx_spec bc st m cnt i tx :
  represents st m → placed bc (Sender tx) → placed bc (Recipient tx) →
  ∃ kvs, handle_tx bc (st, cnt) (i, tx) = Ok (trie_updates st kvs, cnt + len kvs) ∧
    represents (trie_updates st kvs)
      (ledger_tx (shard_of bc) (ShardID (Config bc)) m (i, tx)).
Proof.
  intros Hr Hs%placed_shard Hp%placed_shard.
  unfold handle_tx, ledger_tx, ledger_debit, ledger_credit, debits, credits. cbn [fst snd].
  rewrite Hs, Hp. set (sid := ShardID (Config bc)). set (sh := shard_of bc).
  assert ((if Relayed tx then Ok false
           else s ← Ok (sh (Sender tx)); Ok ((s =? sid) || HasBroker tx)) =
          Ok (negb (Relayed tx) && ((sh (Sender tx) =? sid) || HasBroker tx))) as ->
    by (by destruct (Relayed tx)).
  cbn [mbind go_bind].
  destruct (negb (Relayed tx) && ((sh (Sender tx) =? sid) || HasBroker tx)).
  - rewrite (represents_load st m) by done. cbn [mbind go_bind]. rewrite deduct_spec.
    case_bool_decide as Hb.
    + rewrite (proj2 (Z.ltb_ge _ _)) by done. cbn [mbind go_bind].
      set (s' := upd Balance _ _).
      pose proof (represents_update st m (Sender tx) s' Hr) as Hr'.
      destruct ((sh (Recipient tx) =? sid) || HasBroker tx).
      * rewrite (represents_load _ _ (Recipient tx) i Hr'). cbn [mbind go_bind].
        eexists [(Sender tx, Encode s'); (Recipient tx, _)]. cbn [trie_updates foldl fst snd].
        split; [unfold len; cbn; do 2 f_equal; lia|].
        by apply represents_update.
      * exists [(Sender tx, Encode s')]. split; [unfold len; done|done].
    + rewrite (proj2 (Z.ltb_lt _ _)) by lia. cbn [mbind go_bind].
      exists []. split; [unfold len; cbn; f_equal; f_equal; lia|done].
  - cbn [mbind go_bind]. destruct ((sh (Recipient tx) =? sid) || HasBroker tx).
    + rewrite (represents_load _ _ (Recipient tx) i Hr). cbn [mbind go_bind].
      eexists [(Recipient tx, _)]. split; [unfold len; done|]. by apply represents_update.
    + exists []. split; [unfold len; cbn; f_equal; f_equal; lia|done].
Qed.

Lemma handle_txs_spec bc (l : list (nat * Transaction)) st m cnt :
  represents st m → Forall (λ itx, placed bc (Sender itx.2) ∧ placed bc (Recipient itx.2)) l →
  ∃ kvs, go_fold (handle_tx bc) (st, cnt) l = Ok (trie_updates st kvs, cnt + len kvs) ∧
    represents (trie_updates st kvs)
      (foldl (ledger_tx (shard_of bc) (ShardID (Config bc))) m l).
Proof.
  intros Hr Hl. revert st m cnt Hr. induction Hl as [|[i tx] l [Hs Hp] _ IH]; intros st m cnt Hr.
  - exists []. cbn. split; [unfold len; cbn; f_equal; f_equal; lia|done].
  - cbn [go_fold foldl].
    destruct (handle_tx_spec bc st m cnt i tx Hr Hs Hp) as (kvs1 & -> & Hr1).
    cbn [mbind go_bind].
    destruct (IH _ _ (cnt + len kvs1) Hr1) as (kvs2 & -> & Hr2).
    exists (kvs1 ++ kvs2). rewrite trie_updates_app, len_app, Z.add_assoc. done.
Qed.

(** The root of a ledger does not depend on the database. *)
Lemma root_unique db db' r r' m :
  triedb_ok db → triedb_ok db' → root_is db r m → root_is db' r' m → r = r'.
Proof.
  intros Hok Hok' (Hz & t & Ht & Hr) (Hz' & t' & Ht' & Hr').
  rewrite <-(trie_open_root db r t), <-(trie_open_root db' r' t') by done.
  apply trie_root_content. intros k. by rewrite Hr, Hr'.
Qed.

Lemma root_same db db' r m t :
  triedb_ok db → triedb_ok db' → root_is db r m → trie_New r db' = Some t → root_is db' r m.
Proof.
  intros Hok Hok' (Hz & t0 & Ht0 & Hr0) Ht. split; [done|]. exists t. split; [done|].
  eapply represents_ext; [|exact Hr0]. intros k. revert k.
  apply trie_root_content. by rewrite (trie_open_root db' r t), (trie_open_root db r t0).
Qed.

(** [GetUpdateStatusTrie] executes the ledger and keeps the stored roots. *)
Lemma update_status_spec bc m txs :
  state_ok bc m → txs_placed bc txs →
  ∃ db rt, GetUpdateStatusTrie bc txs = Ok (db, rt) ∧ triedb_ok db ∧
    root_is db rt (ledger_exec (shard_of bc) (ShardID (Config bc)) m txs) ∧
    keeps (triedb bc) db.
Proof.
  intros Hst Hpl. pose proof Hst as [Hok Hroot]. unfold GetUpdateStatusTrie.
  destruct (len txs =? 0) eqn:El.
  - zbool. destruct txs as [|tx txs]; [|unfold len in El; cbn in El; lia].
    eexists _, _. split; [done|]. split; [done|]. split; [done|]. apply keeps_refl.
  - destruct (open_state_ok bc m Hst) as (t & -> & Hz & Ht & Hr). cbn [mbind go_bind].
    destruct (handle_txs_spec bc (imap pair txs) t m 0 Hr) as (kvs & -> & Hr').
    { by apply (imap_pair_Forall (λ tx, placed bc (Sender tx) ∧ placed bc (Recipient tx))). }
    cbn [mbind go_bind]. fold (ledger_exec (shard_of bc) (ShardID (Config bc)) m txs) in Hr'.
    destruct (0 + len kvs =? 0) eqn:Ec.
    + zbool. destruct kvs as [|kv kvs]; [|unfold len in Ec; cbn in Ec; lia].
      eexists _, _. split; [done|]. split; [done|]. split; [|apply keeps_refl].
      split; [done|]. exists t. split; [done|]. exact Hr'.
    + destruct (commit_trie_spec _ _ t kvs _ Hok Hz Ht Hr') as (db' & rt & d & -> & Hok' & Hrt & Hk & _).
      cbn [mbind go_bind]. eauto 10.
Qed.

(** ** Balances

    The abstract specification: a function from addresses to balances, and what a transaction
    does to it.  A transaction the sender cannot pay has no effect at all. *)
Section balances.
Context (shard : Address → Z) (sid : Z).

Definition rejected (b : Address → Z) (tx : Transaction) : bool :=
  debits shard sid tx && bool_decide (b (Sender tx) < Value tx).

(** What an accepted transaction adds to an account. *)
Definition delta (tx : Transaction) (a : Address) : Z :=
  (if debits shard sid tx && bool_decide (a = Sender tx) then - Value tx else 0) +
  (if credits shard sid tx && bool_decide (a = Recipient tx) then Value tx else 0).

Definition balance_tx (b : Address → Z) (tx : Transaction) : Address → Z :=
  if rejected b tx then b else λ a, b a + delta tx a.

Definition balance_exec (b : Address → Z) (txs : list Transaction) : Address → Z :=
  foldl balance_tx b txs.

(** The value a transaction brings into the accounts of the shard from outside: negative when
    it leaves. *)
Definition net_tx (b : Address → Z) (tx : Transaction) : Z :=
  if rejected b tx then 0
  else (if credits shard sid tx then Value tx else 0) - (if debits shard sid tx then Value tx else 0).

Fixpoint net_flow (b : Address → Z) (txs : list Transaction) : Z :=
  match txs with
  | [] => 0
  | tx :: txs' => net_tx b tx + net_flow (balance_tx b tx) txs'
  end.

Lemma delta_sum tx addrs :
  NoDup addrs → Sender tx ∈ addrs → Recipient tx ∈ addrs →
  sumZ (delta tx) addrs =
    (if credits shard sid tx then Value tx else 0) - (if debits shard sid tx then Value tx else 0).
Proof.
  intros Hnd Hs Hr. unfold delta. rewrite sumZ_add.
  assert (∀ (c : bool) (k : Address) (v : Z), k ∈ addrs →
    sumZ (λ a, if c && bool_decide (a = k) then v else 0) addrs = if c then v else 0) as Hone.
  { intros c k v Hk. destruct c; cbn [andb].
    - transitivity (sumZ (λ x, if decide (x = k) then v else 0) addrs);
        [apply sumZ_ext|by apply sumZ_single].
      intros x _. case_bool_decide; case_decide; done.
    - by apply sumZ_zero. }
  rewrite !Hone by done. destruct (credits shard sid tx), (debits shard sid tx); lia.
Qed.

Lemma balance_tx_sum b tx addrs :
  NoDup addrs → Sender tx ∈ addrs → Recipient tx ∈ addrs →
  sumZ (balance_tx b tx) addrs = sumZ b addrs + net_tx b tx.
Proof.
  intros Hnd Hs Hr. unfold balance_tx, net_tx. destruct (rejected b tx); [lia|].
  rewrite sumZ_add, delta_sum by done. done.
Qed.

(** Total balance of any set of accounts that contains the parties. *)
Lemma balance_exec_sum b txs addrs :
  NoDup addrs → Forall (λ tx, Sender tx ∈ addrs ∧ Recipient tx ∈ addrs) txs →
  sumZ (balance_exec b txs) addrs = sumZ b addrs + net_flow b txs.
Proof.
  intros Hnd Hl. revert b. unfold balance_exec.
  induction Hl as [|tx txs [Hs Hr] _ IH]; intros b; cbn [foldl net_flow]; [lia|].
  rewrite IH, balance_tx_sum by done. lia.
Qed.

(** With no negative value, no balance becomes negative. *)
Lemma balance_tx_nonneg b tx :
  0 ≤ Value tx → (∀ a, 0 ≤ b a) → ∀ a, 0 ≤ balance_tx b tx a.
Proof.
  intros Hv Hb a. unfold balance_tx, rejected.
  destruct (debits shard sid tx) eqn:Ed; cbn [andb].
  - case_bool_decide as Hc; [done|]. unfold delta. rewrite Ed. cbn [andb].
    specialize (Hb a). case_bool_decide; subst; destruct (credits shard sid tx); cbn [andb];
      try case_bool_decide; lia.
  - unfold delta. rewrite Ed. cbn [andb]. specialize (Hb a).
    destruct (credits shard sid tx); cbn [andb]; try case_bool_decide; lia.
Qed.

Lemma balance_exec_nonneg b txs :
  Forall (λ tx, 0 ≤ Value tx) txs → (∀ a, 0 ≤ b a) → ∀ a, 0 ≤ balance_exec b txs a.
Proof.
  intros Hl. revert b. unfold balance_exec.
  induction Hl as [|tx txs Hv _ IH]; intros b Hb a; cbn [foldl]; [done|].
  apply IH. by apply balance_tx_nonneg.
Qed.

(** Only the balances of the parties matter and change. *)
Lemma balance_tx_ext b b' tx : (∀ a, b a = b' a) → ∀ a, balance_tx b tx a = balance_tx b' tx a.
Proof. intros E a. unfold balance_tx, rejected. rewrite E. case_match; [done|]. by rewrite E. Qed.

Lemma balance_exec_ext b b' txs :
  (∀ a, b a = b' a) → ∀ a, balance_exec b txs a = balance_exec b' txs a.
Proof.
  unfold balance_exec. revert b b'. induction txs as [|tx txs IH]; intros b b' E a; cbn [foldl]; [done|].
  apply IH. intros a'. by apply balance_tx_ext.
Qed.
End balances.

(** The balance of an account on a ledger: [Init_Balance] when it is missing. *)
Definition bal (m : ledger) (a : Address) : Z := Balance (acct m a 0).

Lemma acct_balance m a i : Balance (acct m a i) = bal m a.
Proof. unfold bal, acct. by destruct (m !! a). Qed.

Lemma bal_insert m k s a : bal (<[k := s]> m) a = if bool_decide (a = k) then Balance s else bal m a.
Proof.
  unfold bal, acct. rewrite lookup_insert. case_bool_decide; case_decide; subst; done.
Qed.

Lemma ledger_credit_bal shard sid m i tx a :
  bal (ledger_credit shard sid m i tx) a =
    bal m a + (if credits shard sid tx && bool_decide (a = Recipient tx) then Value tx else 0).
Proof.
  unfold ledger_credit. destruct (credits shard sid tx); cbn [andb]; [|lia].
  cbv zeta. rewrite bal_insert. case_bool_decide; [subst|lia].
  cbn. by rewrite acct_balance.
Qed.

Lemma ledger_tx_bal shard sid m itx a :
  bal (ledger_tx shard sid m itx) a = balance_tx shard sid (bal m) itx.2 a.
Proof.
  destruct itx as [i tx]. unfold ledger_tx, ledger_debit, balance_tx, rejected, delta. cbn [fst snd].
  destruct (debits shard sid tx); cbn [andb].
  - cbv zeta. rewrite acct_balance.
    destruct (decide (Value tx ≤ bal m (Sender tx))) as [Hle|Hgt].
    + rewrite bool_decide_eq_true_2, bool_decide_eq_false_2 by lia.
      rewrite ledger_credit_bal, bal_insert. cbn.
      case_bool_decide; subst; lia.
    + by rewrite bool_decide_eq_false_2, bool_decide_eq_true_2 by lia.
  - by rewrite ledger_credit_bal.
Qed.

Lemma ledger_fold_bal shard sid l m a :
  bal (foldl (ledger_tx shard sid) m l) a = balance_exec shard sid (bal m) l.*2 a.
Proof.
  revert m; induction l as [|itx l IH]; intros m; [done|]. cbn [foldl].
  rewrite IH. unfold balance_exec. cbn [fmap list_fmap foldl].
  apply balance_exec_ext. intros a'. apply ledger_tx_bal.
Qed.

Lemma ledger_exec_bal shard sid m txs a :
  bal (ledger_exec shard sid m txs) a = balance_exec shard sid (bal m) txs a.
Proof. unfold ledger_exec. by rewrite ledger_fold_bal, imap_pair_snd. Qed.

(** What [FetchAccounts] returns. *)
Lemma fetch_accounts_spec bc m addrs :
  state_ok bc m → FetchAccounts bc addrs = Ok ((λ a, acct m a 0) <$> addrs).
Proof.
  intros Hst. destruct (open_state_ok bc m Hst) as (t & Ht & _ & _ & Hr).
  unfold FetchAccounts. rewrite Ht. cbn [mbind go_bind].
  rewrite (go_fold_foldl _ (λ res a, res ++ [acct m a 0])).
  - by rewrite (foldl_append (λ a, acct m a 0)).
  - intros res a _. by rewrite (represents_load _ m).
Qed.

(** ** The chain invariant

    The state root of the current block holds the ledger [m]; the store's newest block has the
    header and hash of the current block (the body in memory may have been marked as relayed
    since it was stored); the hash of the current block is the hash of its header. *)
Record chain_ok (bc : BlockChain) (m : ledger) : Prop := {
  ck_state : state_ok bc m;
  ck_newest : GetNewestBlockHash (Storage bc) = inr (Hash (CurrentBlock bc));
  ck_stored : ∃ b, GetBlock (Storage bc) (Hash (CurrentBlock bc)) = Ok (inr b) ∧
    Header b = Header (CurrentBlock bc) ∧ Hash b = Hash (CurrentBlock bc);
  ck_sealed : Hash (CurrentBlock bc) = HeaderHash (Header (CurrentBlock bc));
}.

Lemma seal_hash bh txs : Hash (seal bh txs) = HeaderHash bh ∧ HeaderHash bh ≠ "".
Proof. split; [done|]. apply sha256_nonempty. Qed.

(** Making a sealed block current: the store and the invariant follow. *)
Lemma store_chain_ok bc db b m :
  triedb_ok db → root_is db (StateRoot (Header b)) m → Hash b = HeaderHash (Header b) →
  ∃ s, StoreBlock (Storage bc) b = Ok s ∧
    chain_ok (bc <| triedb := db |> <| CurrentBlock := b |> <| Storage := s |>) m ∧
    ∀ h, h ≠ Hash b → GetBlock s h = GetBlock (Storage bc) h.
Proof.
  intros Hok Hr Hs.
  destruct (store_block_gets (Storage bc) b) as (s & Hst & Hn & Hb & _ & Ho).
  { rewrite Hs. apply sha256_nonempty. }
  exists s. split; [done|]. split; [|intros h Hh; by apply Ho].
  split; [split|..]; try done. by exists b.
Qed.

(** [NewBlockChain] on an empty store: the genesis block, on the empty ledger. *)
Lemma new_chain_ok cc db s e :
  triedb_ok db → GetNewestBlockHash s = inl e →
  ∃ bc, NewBlockChain cc db s = Ok bc ∧ chain_ok bc ∅ ∧ Config bc = cc ∧
    Number (Header (CurrentBlock bc)) = 0 ∧ Txpool bc = NewTxPool ∧ PartitionMap bc = ∅ ∧
    CurrentBlock bc = NewGenisisBlock db ∧ triedb bc = db.
Proof.
  intros Hok Hn. unfold NewBlockChain. rewrite Hn. unfold AddGenisisBlock.
  set (gb := NewGenisisBlock db).
  destruct (store_block_gets s gb) as (s' & -> & Hn' & Hb & _ & _).
  { apply sha256_nonempty. }
  cbn [mbind go_bind]. rewrite Hn', Hb. cbn [mbind go_bind].
  eexists. split; [done|]. split; [|done].
  split; [split|..]; try done; [|by exists gb]. cbn.
  destruct (trie_new_empty db db Hok) as (t & Ht & Hg). split; [apply trie_hash_nonzero|].
  exists t. split; [exact Ht|]. intros k. by rewrite Hg, lookup_empty.
Qed.

(** What a block generation packs: the head of the queue. *)
Definition pack_block (bc : BlockChain) : list Transaction * TxPool :=
  if UseBlocksizeInBytes =? 1 then PackTxsWithBytes BlocksizeInBytes (Txpool bc)
  else PackTxs (BlockSize (Config bc)) (Txpool bc).

Lemma pack_block_split bc :
  (pack_block bc).1 ++ TxQueue (pack_block bc).2 = TxQueue (Txpool bc).
Proof.
  unfold pack_block. case_match; [|apply pack_split].
  unfold PackTxsWithBytes. cbn. apply take_drop.
Qed.

Lemma generate_block_spec bc m miner now :
  state_ok bc m → txs_placed bc (TxQueue (Txpool bc)) →
  let txs := (pack_block bc).1 in
  let m' := ledger_exec (shard_of bc) (ShardID (Config bc)) m txs in
  ∃ db rt, let b := seal (mkBlockHeader _ (Hash (CurrentBlock bc)) rt (GetTxTreeRoot txs)
                  (GetBloomFilter txs) (u64 (Number (Header (CurrentBlock bc)) + 1)) now miner) txs in
    GenerateBlock bc miner now = Ok (b, bc <| Txpool := (pack_block bc).2 |> <| triedb := db |>) ∧
    triedb_ok db ∧ root_is db rt m' ∧ keeps (triedb bc) db.
Proof.
  intros Hst Hpl txs m'. unfold GenerateBlock. fold (pack_block bc).
  subst txs m'. pose proof (pack_block_split bc) as Hsp.
  destruct (pack_block bc) as [txs pool] eqn:Ep. cbn [fst snd] in *.
  rewrite <-Hsp in Hpl. apply Forall_app in Hpl as [Hpl _].
  pose (bc1 := bc <| Txpool := pool |>).
  destruct (update_status_spec bc1 m txs Hst Hpl) as (db & rt & E & Hok & Hrt & Hk).
  subst bc1.
  exists db, rt. cbv zeta. rewrite E. cbn [mbind go_bind]. done.
Qed.

(** [AddBlock] of a block whose state root holds [m'] in the node's own database, or is unknown
    there while execution gives that root. *)
Lemma add_block_accept bc m b m' :
  chain_ok bc m →
  Number (Header b) = u64 (Number (Header (CurrentBlock bc)) + 1) →
  ParentBlockHash (Header b) = Hash (CurrentBlock bc) →
  Hash b = HeaderHash (Header b) →
  ((∃ t, trie_New (StateRoot (Header b)) (triedb bc) = Some t) →
     root_is (triedb bc) (StateRoot (Header b)) m') →
  (trie_New (StateRoot (Header b)) (triedb bc) = None →
     ∃ db rt, GetUpdateStatusTrie bc (Body b) = Ok (db, rt) ∧ triedb_ok db ∧
       root_is db (StateRoot (Header b)) m') →
  ∃ bc', AddBlock b bc = Ok bc' ∧ chain_ok bc' m' ∧ CurrentBlock bc' = b ∧
    Txpool bc' = Txpool bc ∧ PartitionMap bc' = PartitionMap bc ∧ Config bc' = Config bc ∧
    ∀ h, h ≠ Hash b → GetBlock (Storage bc') h = GetBlock (Storage bc) h.
Proof.
  intros Hck Hnum Hpar Hhash Hknown Hnew. unfold AddBlock.
  rewrite Hnum, Z.eqb_refl, Hpar, bool_decide_eq_true_2 by done. cbn [negb].
  assert (∃ db, (match trie_New (StateRoot (Header b)) (triedb bc) with
                 | Some _ => Ok (triedb bc)
                 | None => r ← GetUpdateStatusTrie bc (Body b); Ok r.1
                 end) = Ok db ∧ triedb_ok db ∧ root_is db (StateRoot (Header b)) m')
    as (db & -> & Hok & Hr).
  { destruct (trie_New (StateRoot (Header b)) (triedb bc)) as [t|] eqn:E.
    - exists (triedb bc). split; [done|]. split; [apply Hck|]. apply Hknown. eauto.
    - destruct Hnew as (db & rt & -> & Hok & Hr); [done|]. cbn. eauto. }
  cbn [mbind go_bind].
  destruct (store_chain_ok bc db b m' Hok Hr Hhash) as (s & -> & Hck' & Ho).
  cbn [mbind go_bind]. eauto 10.
Qed.

(** C10: executing a block refines the abstract ledger.  On a chain whose status trie holds the
    ledger [m], [GetUpdateStatusTrie] returns a root under which [FetchAccounts] reads, for
    every list of addresses, exactly the balances that [balance_exec] computes from the old
    ones: the sender's side is debited only in the sender's shard and only if it can pay, an
    unpaid transaction is skipped entirely, the recipient's side is credited in its shard. *)
Theorem exec_balances (bc : BlockChain) (m : ledger) (txs : list Transaction) :
  state_ok bc m → txs_placed bc txs →
  ∃ db rt, GetUpdateStatusTrie bc txs = Ok (db, rt) ∧
    ∀ bc', triedb bc' = db → StateRoot (Header (CurrentBlock bc')) = rt →
    ∀ addrs, ∃ res, FetchAccounts bc' addrs = Ok res ∧
      Balance <$> res =
        balance_exec (shard_of bc) (ShardID (Config bc)) (bal m) txs <$> addrs.
Proof.
  intros Hst Hpl. destruct (update_status_spec bc m txs Hst Hpl) as (db & rt & E & Hok & Hr & _).
  exists db, rt. split; [done|]. intros bc' <- <- addrs.
  eexists. split; [apply fetch_accounts_spec; split; [exact Hok|exact Hr]|].
  rewrite <-list_fmap_compose. apply list_fmap_ext. intros i a _. cbn.
  apply ledger_exec_bal.
Qed.

(** C11: conservation.  The total balance of any set of accounts that contains the parties
    changes by exactly the net value the block brings in: nothing for transactions inside the
    shard, plus the value of a relayed one, minus the value of an accepted outgoing one; and
    no balance becomes negative. *)
Theorem exec_conserves (bc bc' : BlockChain) (m : ledger) (txs : list Transaction)
    (addrs : list Address) db rt :
  state_ok bc m → txs_placed bc txs → NoDup addrs →
  Forall (λ tx, 0 ≤ Value tx ∧ Sender tx ∈ addrs ∧ Recipient tx ∈ addrs) txs →
  (∀ a, 0 ≤ bal m a) →
  GetUpdateStatusTrie bc txs = Ok (db, rt) →
  triedb bc' = db → StateRoot (Header (CurrentBlock bc')) = rt →
  ∃ old new, FetchAccounts bc addrs = Ok old ∧ FetchAccounts bc' addrs = Ok new ∧
    sumZ Balance new =
      sumZ Balance old + net_flow (shard_of bc) (ShardID (Config bc)) (bal m) txs ∧
    Forall (λ a, 0 ≤ Balance a) new.
Proof.
  intros Hst Hpl Hnd Htx Hm E <- <-.
  destruct (update_status_spec bc m txs Hst Hpl) as (db & rt & E' & Hok & Hr & _).
  rewrite E in E'. injection E' as <- <-.
  eexists _, _. split; [by apply fetch_accounts_spec|].
  split; [apply fetch_accounts_spec; split; [exact Hok|exact Hr]|]. split.
  - rewrite !sumZ_fmap. rewrite <-balance_exec_sum; [|done|].
    + apply sumZ_ext. intros a _. apply ledger_exec_bal.
    + eapply Forall_impl; [exact Htx|]. by intros tx (_ & ? & ?).
  - apply Forall_fmap, Forall_forall. intros a _. cbn.
    change (0 ≤ bal (ledger_exec (shard_of bc) (ShardID (Config bc)) m txs) a).
    rewrite ledger_exec_bal. apply balance_exec_nonneg; [|done].
    eapply Forall_impl; [exact Htx|]. by intros tx (? & _).
Qed.

(** The life of a block on its proposer.  [GenerateBlock] takes the head of the queue,
    leaves the rest, and builds a block that [IsValidBlock] accepts and [AddBlock] makes
    current; the status trie then holds the executed ledger, the store returns the block as the
    newest one and still returns every older block. *)
Theorem generate_then_add (bc : BlockChain) (m : ledger) (miner : Z) (now : Time) :
  chain_ok bc m → txs_placed bc (TxQueue (Txpool bc)) →
  ∃ b bc1 bc2, GenerateBlock bc miner now = Ok (b, bc1) ∧ IsValidBlock bc1 b = None ∧
    AddBlock b bc1 = Ok bc2 ∧ CurrentBlock bc2 = b ∧
    Number (Header b) = u64 (Number (Header (CurrentBlock bc)) + 1) ∧
    Body b ++ TxQueue (Txpool bc2) = TxQueue (Txpool bc) ∧
    chain_ok bc2 (ledger_exec (shard_of bc) (ShardID (Config bc)) m (Body b)) ∧
    ∀ h, h ≠ Hash b → GetBlock (Storage bc2) h = GetBlock (Storage bc) h.
Proof.
  intros Hck Hpl.
  destruct (generate_block_spec bc m miner now (ck_state _ _ Hck) Hpl)
    as (db & rt & Hg & Hok & Hr & Hk).
  set (b := seal _ _) in Hg. set (bc1 := upd triedb _ _) in Hg.
  assert (chain_ok bc1 m) as Hck1.
  { destruct Hck as [[_ Hroot] ? ? ?]. split; [split; [exact Hok|]|..]; try done.
    exact (keeps_root _ _ _ _ Hk Hroot). }
  destruct (add_block_accept bc1 m b
    (ledger_exec (shard_of bc) (ShardID (Config bc)) m (Body b)) Hck1)
    as (bc2 & Hadd & Hck2 & Hcur & Hpool & _ & _ & Ho); try done.
  { intros Hnone. destruct Hr as (_ & t & Ht & _).
    change (trie_New rt db = None) in Hnone. congruence. }
  exists b, bc1, bc2. split; [exact Hg|]. split.
  { unfold IsValidBlock. by rewrite !bool_decide_eq_true_2. }
  split; [exact Hadd|]. split; [exact Hcur|]. split; [done|]. split; [|by split].
  rewrite Hpool. apply pack_block_split.
Qed.

(** A replica accepts and executes the block of the leader. *)
Lemma replica_add (leader replica : BlockChain) (m : ledger) (miner : Z) (now : Time) b l1 :
  chain_ok leader m → chain_ok replica m →
  Header (CurrentBlock replica) = Header (CurrentBlock leader) →
  PartitionMap replica = PartitionMap leader →
  ShardID (Config replica) = ShardID (Config leader) →
  txs_placed leader (TxQueue (Txpool leader)) →
  GenerateBlock leader miner now = Ok (b, l1) →
  IsValidBlock replica b = None ∧
  ∃ r1, AddBlock b replica = Ok r1 ∧ CurrentBlock r1 = b ∧
    chain_ok r1 (ledger_exec (shard_of leader) (ShardID (Config leader)) m (Body b)) ∧
    Txpool r1 = Txpool replica ∧ PartitionMap r1 = PartitionMap replica ∧
    Config r1 = Config replica ∧ ParentBlockHash (Header b) = Hash (CurrentBlock replica) ∧
    Number (Header b) = u64 (Number (Header (CurrentBlock replica)) + 1) ∧
    txs_placed replica (Body b).
Proof.
  intros Hl Hr Hcur Hpm Hsid Hpl Hg.
  destruct (generate_block_spec leader m miner now (ck_state _ _ Hl) Hpl)
    as (db & rt & Hg' & Hok & Hrt & Hk).
  rewrite Hg in Hg'. injection Hg' as -> _. set (b := seal _ _).
  assert (shard_of replica = shard_of leader) as Hsh.
  { unfold shard_of, Get_PartitionMap. by rewrite Hpm. }
  assert (Hash (CurrentBlock replica) = Hash (CurrentBlock leader)) as Hhash.
  { rewrite (ck_sealed _ _ Hl), (ck_sealed _ _ Hr). by rewrite Hcur. }
  split. { unfold IsValidBlock. rewrite Hhash. by rewrite !bool_decide_eq_true_2. }
  assert (txs_placed replica (Body b)) as Hplr.
  { unfold txs_placed, placed in *.
    assert (Get_PartitionMap replica = Get_PartitionMap leader) as ->
      by (unfold Get_PartitionMap; by rewrite Hpm).
    rewrite <-pack_block_split in Hpl. by apply Forall_app in Hpl as [? _]. }
  destruct (add_block_accept replica m b
    (ledger_exec (shard_of leader) (ShardID (Config leader)) m (Body b)) Hr)
    as (r1 & Hadd & Hck & Hc & Htp & Hpm1 & Hcf & _); try done; try (by rewrite Hcur); try (by rewrite Hhash).
  - intros [t Ht]. eapply root_same; [exact Hok|apply Hr|exact Hrt|exact Ht].
  - intros _.
    destruct (update_status_spec replica m (Body b) (ck_state _ _ Hr) Hplr)
      as (db' & rt' & E & Hok' & Hr' & _).
    exists db', rt'. split; [done|]. split; [done|]. rewrite Hsh, Hsid in Hr'.
    change (StateRoot (Header b)) with rt.
    by rewrite (root_unique db db' rt rt' _ Hok Hok' Hrt Hr').
  - exists r1. rewrite Hhash, Hcur. auto 10.
Qed.

(** Replicas agree.  A replica that has its own databases, the same current header, the
    same ledger and the same placement of accounts accepts the block the leader generates and
    ends with the ledger of the leader, whether it re-executes the block or already has its
    state root. *)
Theorem replica_agrees (leader replica : BlockChain) (m : ledger) (miner : Z) (now : Time) b l1 :
  chain_ok leader m → chain_ok replica m →
  Header (CurrentBlock replica) = Header (CurrentBlock leader) →
  PartitionMap replica = PartitionMap leader →
  ShardID (Config replica) = ShardID (Config leader) →
  txs_placed leader (TxQueue (Txpool leader)) →
  GenerateBlock leader miner now = Ok (b, l1) →
  IsValidBlock replica b = None ∧
  ∃ r1, AddBlock b replica = Ok r1 ∧ CurrentBlock r1 = b ∧
    chain_ok r1 (ledger_exec (shard_of leader) (ShardID (Config leader)) m (Body b)).
Proof.
  intros Hl Hr Hcur Hpm Hsid Hpl Hg.
  destruct (replica_add leader replica m miner now b l1 Hl Hr Hcur Hpm Hsid Hpl Hg)
    as (Hv & r1 & ? & ? & ? & _). eauto.
Qed.

(** The guards of [AddBlock].  A block of another height or on another parent leaves the
    node exactly as it was. *)
Theorem add_block_guard (bc : BlockChain) (b : Block) :
  Number (Header b) ≠ u64 (Number (Header (CurrentBlock bc)) + 1) ∨
  ParentBlockHash (Header b) ≠ Hash (CurrentBlock bc) →
  AddBlock b bc = Ok bc.
Proof.
  intros Hb. unfold AddBlock.
  destruct (Number (Header b) =? u64 (Number (Header (CurrentBlock bc)) + 1)) eqn:E; [|done].
  zbool. destruct Hb as [|Hp]; [done|]. cbn. by rewrite bool_decide_eq_false_2.
Qed.

(** Restart.  A node that stops and reopens its databases finds its current header and its
    ledger again; its pool and its partition map are empty. *)
Theorem restart_recovers (bc : BlockChain) (m : ledger) :
  chain_ok bc m →
  ∃ bc', NewBlockChain (Config bc) (triedb bc) (Storage bc) = Ok bc' ∧
    Header (CurrentBlock bc') = Header (CurrentBlock bc) ∧
    Hash (CurrentBlock bc') = Hash (CurrentBlock bc) ∧ chain_ok bc' m ∧
    Txpool bc' = NewTxPool ∧ PartitionMap bc' = ∅.
Proof.
  intros Hck. pose proof Hck as [[Hok (Hz & t & Ht & Hr)] Hn (b & Hs & Hb1 & Hb2) Hh].
  unfold NewBlockChain. rewrite Hn, Hs. cbn [mbind go_bind]. rewrite Hb1, Ht.
  eexists. split; [done|]. split; [done|]. split; [done|]. split; [|done].
  split; cbn; rewrite ?Hb1, ?Hb2; try done; [|by exists b].
  split; [done|]. cbn. rewrite Hb1. split; [done|]. by exists t.
Qed.

(** ** Account migration *)

(** What [AddAccounts] stores of an account state: the nonce and the balance. *)
Definition strip (a : AccountState) : AccountState :=
  mkAccountState "" (Nonce a) (Balance a) "" "".

Definition put_account (bc : BlockChain) (as_ : list AccountState) (m : ledger)
    (ia : nat * Address) : ledger :=
  if shard_of bc ia.2 =? ShardID (Config bc) then
    match as_ !! ia.1 with Some s => <[ia.2 := strip s]> m | None => m end
  else m.

Definition put_accounts (bc : BlockChain) (ac : list Address) (as_ : list AccountState)
    (m : ledger) : ledger := foldl (put_account bc as_) m (imap pair ac).

Lemma add_account_loop bc as_ (l : list (nat * Address)) st m :
  represents st m → Forall (λ ia, placed bc ia.2 ∧ (ia.1 < length as_)%nat) l →
  ∃ kvs, go_fold (add_account bc as_) st l = Ok (trie_updates st kvs) ∧
    represents (trie_updates st kvs) (foldl (put_account bc as_) m l).
Proof.
  intros Hr Hl. revert st m Hr.
  induction Hl as [|[i a] l [Hp Hi] _ IH]; intros st m Hr; [by exists []|].
  cbn [go_fold foldl fst snd] in *. unfold put_account at 2, add_account. cbn [fst snd].
  rewrite (placed_shard bc a) by done. cbn [mbind go_bind].
  destruct (shard_of bc a =? ShardID (Config bc)); [|by apply IH].
  destruct (lookup_lt_is_Some_2 as_ i Hi) as [s Hs]. rewrite Hs. cbn [mbind go_bind].
  destruct (IH _ _ (represents_update st m a (strip s) Hr)) as (kvs & E & Hr').
  exists ((a, Encode (strip s)) :: kvs). split; [exact E|exact Hr'].
Qed.

Lemma imap_pair_bound {A} (P : A → Prop) (l : list A) :
  Forall P l → Forall (λ ia : nat * A, P ia.2 ∧ (ia.1 < length l)%nat) (imap pair l).
Proof.
  rewrite !Forall_forall. intros Hl [i x] Hx.
  apply elem_of_lookup_imap in Hx as (j & y & [= -> ->] & Hj). cbn.
  split; [by eapply Hl, list_elem_of_lookup_2|by eapply lookup_lt_Some].
Qed.

Lemma add_accounts_spec bc m ac as_ miner :
  chain_ok bc m → Forall (placed bc) ac → length ac = length as_ →
  ∃ bc', AddAccounts ac as_ miner bc = Ok bc' ∧ chain_ok bc' (put_accounts bc ac as_ m) ∧
    Number (Header (CurrentBlock bc')) = u64 (Number (Header (CurrentBlock bc)) + 1) ∧
    ParentBlockHash (Header (CurrentBlock bc')) = Hash (CurrentBlock bc) ∧
    Body (CurrentBlock bc') = [] ∧
    Txpool bc' = Txpool bc ∧ PartitionMap bc' = PartitionMap bc ∧ Config bc' = Config bc.
Proof.
  intros Hck Hpl Hlen. pose proof (ck_state _ _ Hck) as Hst. unfold AddAccounts.
  assert (∃ db rt, (if len ac =? 0 then Ok (triedb bc, StateRoot (Header (CurrentBlock bc)))
       else
         st ← open_state bc;
         st ← go_fold (add_account bc as_) st (imap pair ac);
         r ← commit_trie (triedb bc) st;
         let '(db, rrt, dirty) := r in
         Ok (db, if (dirty : bool) then rrt else StateRoot (Header (CurrentBlock bc))))
     = Ok (db, rt) ∧ triedb_ok db ∧ root_is db rt (put_accounts bc ac as_ m))
    as (db & rt & -> & Hok & Hr).
  { destruct (len ac =? 0) eqn:El.
    - zbool. destruct ac as [|a ac]; [|unfold len in El; cbn in El; lia].
      eexists _, _. split; [done|]. exact Hst.
    - destruct (open_state_ok bc m Hst) as (t & -> & Hz & Ht & Hr). cbn [mbind go_bind].
      destruct (add_account_loop bc as_ (imap pair ac) t m Hr) as (kvs & -> & Hr').
      { rewrite <-Hlen. by apply imap_pair_bound. }
      cbn [mbind go_bind].
      destruct (commit_trie_spec _ _ t kvs _ (proj1 Hst) Hz Ht Hr')
        as (db' & rt & d & -> & Hok' & Hrt & _ & _ & Hd).
      cbn [mbind go_bind]. exists db', rt.
      destruct d; [done|]. rewrite <-Hd by done. done. }
  cbn [mbind go_bind]. set (b := seal _ _).
  destruct (store_chain_ok bc db b (put_accounts bc ac as_ m) Hok Hr eq_refl) as (s & -> & Hck' & _).
  cbn [mbind go_bind]. eexists. split; [done|]. split; [exact Hck'|]. done.
Qed.

Lemma put_account_other bc as_ l m a :
  a ∉ l.*2 → foldl (put_account bc as_) m l !! a = m !! a.
Proof.
  revert m; induction l as [|[i x] l IH]; intros m Ha; [done|]. cbn [foldl].
  cbn in Ha. apply not_elem_of_cons in Ha as [Hne Ha]. rewrite IH by done.
  unfold put_account. cbn [fst snd]. case_match; [|done]. case_match; [|done].
  by rewrite lookup_insert_ne.
Qed.

Lemma put_account_own bc as_ l m a i s :
  NoDup l.*2 → (i, a) ∈ l → as_ !! i = Some s → shard_of bc a = ShardID (Config bc) →
  foldl (put_account bc as_) m l !! a = Some (strip s).
Proof.
  intros Hnd Hin Hs Hsh. revert m. induction l as [|[j x] l IH]; intros m;
    [by apply elem_of_nil in Hin|].
  cbn in Hnd. apply NoDup_cons in Hnd as [Hx Hnd]. cbn [foldl].
  apply elem_of_cons in Hin as [[= -> ->]|Hin]; [|by apply IH].
  rewrite put_account_other by done. unfold put_account. cbn [fst snd].
  rewrite Hsh, Z.eqb_refl, Hs. by rewrite lookup_insert_eq.
Qed.

(** Migration.  The account states fetched from one shard and added to the shard that now
    owns them read back there with the same balances and nonces; every other account of the
    receiving shard is untouched, and the chain grows by one empty block. *)
Theorem migration_roundtrip (src dst : BlockChain) (m1 m2 : ledger) (addrs : list Address)
    (miner : Z) :
  chain_ok src m1 → chain_ok dst m2 → NoDup addrs →
  Forall (λ a, placed dst a ∧ shard_of dst a = ShardID (Config dst)) addrs →
  ∃ states dst' got, FetchAccounts src addrs = Ok states ∧
    AddAccounts addrs states miner dst = Ok dst' ∧
    FetchAccounts dst' addrs = Ok got ∧
    Balance <$> got = Balance <$> states ∧ Nonce <$> got = Nonce <$> states ∧
    Number (Header (CurrentBlock dst')) = u64 (Number (Header (CurrentBlock dst)) + 1) ∧
    Body (CurrentBlock dst') = [] ∧
    ∀ a, a ∉ addrs → FetchAccounts dst' [a] = FetchAccounts dst [a].
Proof.
  intros Hs Hd Hnd Hpl. set (states := (λ a, acct m1 a 0) <$> addrs).
  destruct (add_accounts_spec dst m2 addrs states miner Hd) as (dst' & Ha & Hck & Hn & _ & Hb & _).
  { eapply Forall_impl; [exact Hpl|]. by intros a [? _]. }
  { unfold states. by rewrite length_fmap. }
  exists states, dst', (strip <$> states). split; [by apply fetch_accounts_spec, Hs|].
  split; [done|]. rewrite <-!list_fmap_compose. split; [|split; [done|split; [done|]]].
  - rewrite (fetch_accounts_spec _ _ _ (ck_state _ _ Hck)). f_equal. unfold states.
    rewrite <-list_fmap_compose. apply list_fmap_ext. intros i a Hi. cbn.
    unfold acct at 1, put_accounts.
    rewrite (put_account_own _ _ _ _ a i (acct m1 a 0)); [done|..].
    + by rewrite imap_pair_snd.
    + apply elem_of_lookup_imap. eauto.
    + unfold states. by rewrite list_lookup_fmap, Hi.
    + rewrite Forall_lookup in Hpl. by apply (Hpl i a Hi).
  - split; [done|]. split; [done|]. intros a Hna.
    rewrite (fetch_accounts_spec _ _ _ (ck_state _ _ Hck)),
      (fetch_accounts_spec _ _ _ (ck_state _ _ Hd)).
    cbn. unfold acct, put_accounts. by rewrite put_account_other by (by rewrite imap_pair_snd).
Qed.

(** The state root of a block is never checked.  A block with the right height, parent and
    transaction root is accepted by [IsValidBlock] and [AddBlock] whatever state root its header
    carries; when no database has that root, the node panics at the next non-empty block. *)
Theorem state_root_unchecked (bc : BlockChain) (b : Block) (db : TrieDB) (rt : bytes) :
  Number (Header b) = u64 (Number (Header (CurrentBlock bc)) + 1) →
  ParentBlockHash (Header b) = Hash (CurrentBlock bc) →
  TxRoot (Header b) = GetTxTreeRoot (Body b) →
  Hash b = HeaderHash (Header b) →
  GetUpdateStatusTrie bc (Body b) = Ok (db, rt) →
  trie_New (StateRoot (Header b)) (triedb bc) = None →
  trie_New (StateRoot (Header b)) db = None →
  IsValidBlock bc b = None ∧
  ∃ bc', AddBlock b bc = Ok bc' ∧ CurrentBlock bc' = b ∧
    ∀ tx txs, GetUpdateStatusTrie bc' (tx :: txs) = Panic "missing trie node".
Proof.
  intros Hnum Hpar Htx Hh E Hno1 Hno2. split.
  { unfold IsValidBlock. by rewrite !bool_decide_eq_true_2. }
  unfold AddBlock. rewrite Hnum, Z.eqb_refl, Hpar, bool_decide_eq_true_2 by done. cbn [negb].
  rewrite Hno1, E. cbn [mbind go_bind fst].
  destruct (store_block_gets (Storage bc) b) as (s & -> & _).
  { rewrite Hh. apply sha256_nonempty. }
  cbn [mbind go_bind]. eexists. split; [done|]. split; [done|]. intros tx txs.
  unfold GetUpdateStatusTrie, open_state. cbn -[handle_tx imap].
  by rewrite Hno2.
Qed.
End chain.

(** Adding transactions to the pool does not touch the chain. *)
Lemma send_chain_ok `{Params, BitSetLib, CryptoLib, !Codec AccountState, !Codec BlockHeader,
    !Codec Block, BoltLib, TrieLib} clock txs bc m :
  chain_ok bc m → chain_ok (SendTx2Pool clock txs bc) m.
Proof. intros []. by split. Qed.

(** ** Witnesses, on the concrete interfaces and a freshly created chain of shard 3 *)
Module ChainExample.
Import ConcreteLibs ConcreteCore.
#[local] Existing Instance default_params.

Definition cfg : ChainConfig := mkChainConfig 3 0 3 4 4 2000 5000 300 2000.
(** Shard 3, shard 3 and shard 1. *)
Definition addrA := "00000003".
Definition addrB := "00000007".
Definition addrC := "00000001".
Definition txs : list Transaction :=
  [sample_tx addrA addrB 5; sample_tx addrB addrC 7; sample_tx addrC addrA 9].

(** A genesis chain exists for every configuration. *)
Lemma genesis_of cc : ∃ bc, NewBlockChain cc trie_NewDatabase (∅ : BoltDB) = Ok bc ∧ chain_ok bc ∅ ∧
  Config bc = cc ∧ Txpool bc = NewTxPool ∧ PartitionMap bc = ∅ ∧
  CurrentBlock bc = NewGenisisBlock trie_NewDatabase ∧ triedb bc = trie_NewDatabase.
Proof.
  destruct (new_chain_ok cc trie_NewDatabase (∅ : BoltDB) "cannot find the newest block hash")
    as (bc & ? & ? & ? & _ & ? & ? & ? & ?); [apply trie_new_db_ok|done|]. eauto 10.
Qed.

Definition genesis := genesis_of cfg.

Lemma placed_here bc a s : PartitionMap bc = ∅ → Addr2Shard a = Ok s → placed bc a ∧ shard_of bc a = u64 s.
Proof. intros E Hs. unfold placed, shard_of, Get_PartitionMap. by rewrite E, lookup_empty, Hs. Qed.

Lemma owned_here bc a :
  PartitionMap bc = ∅ → bool_decide (a ∈ [addrA; addrB]) = true →
  placed bc a ∧ shard_of bc a = ShardID cfg.
Proof.
  intros E Ha%bool_decide_eq_true. destruct (placed_here bc a 3 E) as [? ->]; [|done].
  apply elem_of_cons in Ha as [->|Ha%list_elem_of_singleton]; [|subst a]; vm_compute; reflexivity.
Qed.

Lemma txs_here bc : PartitionMap bc = ∅ → txs_placed bc txs.
Proof.
  intros E. repeat constructor; by eapply placed_here; [exact E|vm_compute; reflexivity].
Qed.

Lemma exec_balances_witness :
  ∃ bc, NewBlockChain cfg trie_NewDatabase (∅ : BoltDB) = Ok bc ∧
  ∃ db rt, GetUpdateStatusTrie bc txs = Ok (db, rt).
Proof.
  destruct genesis as (bc & Hn & Hck & Hc & Hp & Hm & _). exists bc. split; [done|].
  destruct (exec_balances bc ∅ txs) as (db & rt & E & _); [apply Hck|by apply txs_here|]. eauto.
Defined.

Lemma exec_conserves_witness :
  ∃ bc, NewBlockChain cfg trie_NewDatabase (∅ : BoltDB) = Ok bc ∧
  ∃ db rt, GetUpdateStatusTrie bc txs = Ok (db, rt) ∧
  ∀ bc', triedb bc' = db → StateRoot (Header (CurrentBlock bc')) = rt →
  ∃ old new, FetchAccounts bc [addrA; addrB; addrC] = Ok old ∧
    FetchAccounts bc' [addrA; addrB; addrC] = Ok new ∧
    sumZ Balance new = sumZ Balance old + net_flow (shard_of bc) (ShardID cfg) (bal ∅) txs.
Proof.
  destruct genesis as (bc & Hn & Hck & Hc & Hp & Hm & _). exists bc. split; [done|].
  destruct (update_status_spec bc ∅ txs) as (db & rt & E & _); [apply Hck|by apply txs_here|].
  exists db, rt. split; [done|]. intros bc' Hdb Hrt.
  destruct (exec_conserves bc bc' ∅ txs [addrA; addrB; addrC] db rt)
    as (old & new & Ho & Hw & Hsum & _); try done.
  - apply Hck.
  - by apply txs_here.
  - apply (bool_decide_eq_true_1 (NoDup [addrA; addrB; addrC])). vm_compute. reflexivity.
  - apply (bool_decide_eq_true_1 (Forall _ txs)). vm_compute. reflexivity.
  - exists old, new. rewrite <-Hc. auto.
Defined.

Definition sent (bc : BlockChain) : BlockChain := SendTx2Pool (λ _, 1) txs bc.

Lemma generate_then_add_witness :
  ∃ bc, NewBlockChain cfg trie_NewDatabase (∅ : BoltDB) = Ok bc ∧
  ∃ b bc1 bc2, GenerateBlock (sent bc) 0 10 = Ok (b, bc1) ∧ AddBlock b bc1 = Ok bc2 ∧
    Body b ++ TxQueue (Txpool bc2) = txs.
Proof.
  destruct genesis as (bc & Hn & Hck & Hc & Hp & Hm & _). exists bc. split; [done|].
  assert (TxQueue (Txpool (sent bc)) = txs) as Hq by (cbn; by rewrite Hp).
  destruct (generate_then_add (sent bc) ∅ 0 10) as (b & bc1 & bc2 & Hg & _ & Ha & _ & _ & Hb & _).
  - by apply send_chain_ok.
  - rewrite Hq. by apply txs_here.
  - exists b, bc1, bc2. rewrite <-Hq. auto.
Defined.

Lemma replica_agrees_witness :
  ∃ bc, NewBlockChain cfg trie_NewDatabase (∅ : BoltDB) = Ok bc ∧
  ∃ b l1 r1, GenerateBlock (sent bc) 0 10 = Ok (b, l1) ∧ IsValidBlock bc b = None ∧
    AddBlock b bc = Ok r1 ∧ CurrentBlock r1 = b.
Proof.
  destruct genesis as (bc & Hn & Hck & Hc & Hp & Hm & _). exists bc. split; [done|].
  assert (txs_placed (sent bc) (TxQueue (Txpool (sent bc)))) as Hpl.
  { replace (TxQueue (Txpool (sent bc))) with txs by (cbn; by rewrite Hp). by apply txs_here. }
  assert (chain_ok (sent bc) ∅) as Hck' by (by apply send_chain_ok).
  destruct (generate_block_spec (sent bc) ∅ 0 10 (ck_state _ _ Hck') Hpl) as (db & rt & Hg & _).
  destruct (replica_agrees (sent bc) bc ∅ 0 10 _ _ Hck' Hck eq_refl eq_refl eq_refl Hpl Hg)
    as [Hv (r1 & Ha & Hcur & _)].
  eexists _, _, r1. eauto.
Defined.

Lemma add_block_guard_witness :
  ∃ bc, NewBlockChain cfg trie_NewDatabase (∅ : BoltDB) = Ok bc ∧
    AddBlock (NewGenisisBlock trie_NewDatabase) bc = Ok bc.
Proof.
  destruct genesis as (bc & Hn & _ & _ & _ & _ & Hb & _). exists bc. split; [done|].
  apply add_block_guard. left. rewrite Hb. vm_compute. discriminate.
Defined.

Lemma restart_recovers_witness :
  ∃ bc bc', NewBlockChain cfg trie_NewDatabase (∅ : BoltDB) = Ok bc ∧
    NewBlockChain cfg (triedb bc) (Storage bc) = Ok bc' ∧
    Hash (CurrentBlock bc') = Hash (CurrentBlock bc).
Proof.
  destruct genesis as (bc & Hn & Hck & Hc & _).
  destruct (restart_recovers bc ∅ Hck) as (bc' & Hr & _ & Hcur & _). rewrite Hc in Hr. eauto.
Defined.

Lemma migration_roundtrip_witness :
  ∃ bc, NewBlockChain cfg trie_NewDatabase (∅ : BoltDB) = Ok bc ∧
  ∃ states dst', FetchAccounts bc [addrA; addrB] = Ok states ∧
    AddAccounts [addrA; addrB] states 0 bc = Ok dst'.
Proof.
  destruct genesis as (bc & Hn & Hck & Hc & Hp & Hm & _). exists bc. split; [done|].
  destruct (migration_roundtrip bc bc ∅ ∅ [addrA; addrB] 0 Hck Hck) as (st & d & g & ? & ? & _).
  - apply (bool_decide_eq_true_1 (NoDup [addrA; addrB])). vm_compute. reflexivity.
  - by apply Forall_cons_2; [|apply Forall_cons_2; [|apply Forall_nil_2]]; rewrite Hc; apply (owned_here bc).
  - eauto.
Defined.

(** An empty block on the genesis block that claims an unknown state root. *)
Definition bad_block : Block :=
  seal (mkBlockHeader _ (Hash (NewGenisisBlock trie_NewDatabase)) "bogus" (GetTxTreeRoot [])
          (GetBloomFilter []) 1 10 0) [].

Lemma state_root_unchecked_witness :
  ∃ bc bc', NewBlockChain cfg trie_NewDatabase (∅ : BoltDB) = Ok bc ∧
    IsValidBlock bc bad_block = None ∧ AddBlock bad_block bc = Ok bc' ∧
    ∀ tx txs, GetUpdateStatusTrie bc' (tx :: txs) = Panic "missing trie node".
Proof.
  destruct genesis as (bc & Hn & Hck & Hc & Hp & Hm & Hb & Hdb).
  destruct (state_root_unchecked bc bad_block trie_NewDatabase
    (StateRoot (Header (CurrentBlock bc)))) as (Hv & bc' & Ha & _ & Hpan); try done.
  - by rewrite Hb.
  - by rewrite Hb.
  - unfold GetUpdateStatusTrie. cbn. by rewrite Hdb.
  - by rewrite Hdb.
  - exists bc, bc'. auto.
Defined.
End ChainExample.
