(* ===== verification/MerkleProof.v ===== *)
(** * Transaction proofs ([chain/merkleproof.go])

    Generation of a Merkle proof for a transaction of a block or of the whole chain, the batch
    version used by the relay, and verification. *)
From Stdlib Require Import Ascii.
From S2P Require Import Prelude Utils Libs Core Messages Storage Chain.

Section merkle.
Context `{Params, BitSetLib, CryptoLib, !Codec AccountState, !Codec BlockHeader, !Codec Block,
          BoltLib, TrieLib}.

Definition NotFound (txHash : bytes) (err : string) : TxProofResult :=
  mkTxProofResult false "" txHash "" 0 [] [] err.

(** The result for a proof of [txHash] in [block]. *)
Definition FoundProof (txHash : bytes) (block : Block) (proof : list (bytes * bytes)) : TxProofResult :=
  mkTxProofResult true (Hash block) txHash (TxRoot (Header block)) (Number (Header block))
    proof.*1 proof.*2 "".

Definition TxProofGenerateOnTheBlock (txHash : bytes) (block : Block) : TxProofResult :=
  let bitMapIdxofTx := ModBytes txHash 2048 in
  if negb (bitset_Test (Bloom (Header block)) bitMapIdxofTx)
  then NotFound txHash "cannot find this tx"
  else
    let txExist := existsb (λ tx, bool_decide (txHash = TxHash tx)) (Body block) in
    let transactionTree := tx_tree (Body block) in
    if negb txExist then
      NotFound txHash ("this tx cannot be found in this block (height="
                         +:+ pretty (Number (Header block)) +:+ ")")
    else if negb (bool_decide (trie_Hash transactionTree = TxRoot (Header block))) then
      NotFound txHash ("tx root mismatch in height " +:+ pretty (Number (Header block)))
    else match trie_Prove transactionTree txHash with
         | Some proof => FoundProof txHash block proof
         | None => NotFound txHash "cannot find this tx"
         end.

Definition TxProofBatchGenerateOnBlock (txHashes : list bytes) (block : Block) : list TxProofResult :=
  let transactionTree := tx_tree (Body block) in
  if negb (bool_decide (trie_Hash transactionTree = TxRoot (Header block))) then
    (λ h, NotFound h ("tx root mismatch in height " +:+ pretty (Number (Header block)))) <$> txHashes
  else
    (λ txHash,
       if negb (bitset_Test (Bloom (Header block)) (ModBytes txHash 2048))
       then NotFound txHash "cannot find this tx"
       else match trie_Prove transactionTree txHash with
            | Some proof => FoundProof txHash block proof
            | None => NotFound txHash "cannot find this tx"
            end) <$> txHashes.

(** The loop of [TxProofGenerate]: [nowheight] blocks are left. *)
Fixpoint proof_search (s : BoltDB) (txHash nowblockHash : bytes) (nowheight : nat)
    : go TxProofResult :=
  match nowheight with
  | O => Ok (NotFound txHash "cannot find this tx")
  | S nowheight' =>
      r ← GetBlock s nowblockHash;
      match r with
      | inl err1 => Ok (NotFound txHash err1)
      | inr block =>
          let ret := TxProofGenerateOnTheBlock txHash block in
          if Found ret then Ok ret
          else proof_search s txHash (ParentBlockHash (Header block)) nowheight'
      end
  end.

Definition TxProofGenerate (bc : BlockChain) (txHash : bytes) : go TxProofResult :=
  proof_search (Storage bc) txHash (Hash (CurrentBlock bc))
    (Z.to_nat (Number (Header (CurrentBlock bc)))).

(** [TxProofVerify]: the result and the error; [ValueList[i]] past the end is a panic. *)
Definition TxProofVerify (txHash : bytes) (proof : TxProofResult) : go (bool * option string) :=
  if negb (Found proof) then Ok (false, Some "the result shows not found")
  else if (length (ValueList proof) <? length (KeyList proof))%nat then Panic "index out of range"
  else
    let recoveredProof := zip (KeyList proof) (ValueList proof) in
    match trie_VerifyProof (PTxRoot proof) (PTxHash proof) recoveredProof with
    | Some (Some _) => Ok (true, None)
    | _ => Ok (false, Some "wrong proof")
    end.

(** ** Facts *)
Context `{!BitSetLaws, !CryptoLaws, !CodecLaws AccountState, !CodecLaws BlockHeader,
          !CodecLaws Block, !BoltLaws, !TrieLaws}.

(** A block with the roots [GenerateBlock] computes. *)
Definition well_rooted (b : Block) : Prop :=
  TxRoot (Header b) = GetTxTreeRoot (Body b) ∧ Bloom (Header b) = GetBloomFilter (Body b).

Lemma bloom_fold txs bs i :
  bitset_Test (foldl (λ bs tx, bitset_Set bs (ModBytes (TxHash tx) 2048)) bs txs) i =
  existsb (λ tx, bool_decide (ModBytes (TxHash tx) 2048 = i)) txs || bitset_Test bs i.
Proof.
  revert bs; induction txs as [|tx txs IH]; intros bs; [done|]. cbn [foldl existsb].
  rewrite IH, bitset_test_set, orb_assoc. f_equal. apply orb_comm.
Qed.

(** The bloom filter of a block has no false negatives. *)
Lemma bloom_complete tx txs :
  tx ∈ txs → bitset_Test (GetBloomFilter txs) (ModBytes (TxHash tx) 2048) = true.
Proof.
  intros Hin. unfold GetBloomFilter. rewrite bloom_fold.
  apply orb_true_iff; left. apply existsb_exists. exists tx.
  rewrite bool_decide_eq_true_2 by done. by rewrite <-list_elem_of_In.
Qed.

Lemma tx_tree_get txs h :
  trie_Get (tx_tree txs) h =
    if existsb (λ tx, bool_decide (h = TxHash tx)) txs then Some byte0 else None.
Proof.
  unfold tx_tree. rewrite <-(trie_get_empty trie_NewDatabase h).
  generalize (trie_NewEmpty trie_NewDatabase) as t.
  induction txs as [|tx txs IH]; intros t; [done|]. cbn [foldl existsb].
  rewrite IH, trie_get_update by done.
  destruct (existsb _ txs); [by rewrite orb_true_r|]. rewrite orb_false_r.
  repeat case_bool_decide; congruence.
Qed.

Lemma zip_split {A B} (l : list (A * B)) : zip l.*1 l.*2 = l.
Proof. induction l as [|[a b] l IH]; cbn; [done|by f_equal]. Qed.

(** Verifying a proof made on a well-rooted block decides whether its hash is in the block. *)
Lemma verify_found h h' b p :
  well_rooted b → trie_Prove (tx_tree (Body b)) h = Some p →
  TxProofVerify h' (FoundProof h b p) =
    Ok (if existsb (λ tx, bool_decide (h = TxHash tx)) (Body b)
        then (true, None) else (false, Some "wrong proof")).
Proof.
  intros [Hr _] Hp. unfold TxProofVerify. cbn [Found negb FoundProof ValueList KeyList PTxRoot PTxHash].
  rewrite !length_fmap, Nat.ltb_irrefl, zip_split, Hr. unfold GetTxTreeRoot.
  rewrite (trie_verify _ _ _ Hp), tx_tree_get. by destruct (existsb _ _).
Qed.

Definition mentions (h : bytes) (b : Block) : bool :=
  existsb (λ tx, bool_decide (h = TxHash tx)) (Body b).

Lemma mentions_bloom h b :
  well_rooted b → mentions h b = true → bitset_Test (Bloom (Header b)) (ModBytes h 2048) = true.
Proof.
  intros [_ ->] (tx & Hin & Heq)%existsb_exists. apply bool_decide_eq_true in Heq as ->.
  apply bloom_complete. by rewrite list_elem_of_In.
Qed.

Lemma generate_spec h b :
  well_rooted b →
  if mentions h b then
    ∃ p, trie_Prove (tx_tree (Body b)) h = Some p ∧
         TxProofGenerateOnTheBlock h b = FoundProof h b p
  else Found (TxProofGenerateOnTheBlock h b) = false.
Proof.
  intros Hw. unfold TxProofGenerateOnTheBlock. fold (mentions h b).
  destruct (mentions h b) eqn:Em.
  - rewrite (mentions_bloom h b) by done. cbn [negb].
    rewrite bool_decide_eq_true_2 by (symmetry; apply Hw). cbn [negb].
    destruct (trie_prove (tx_tree (Body b)) h) as [p Hp]. rewrite Hp. eauto.
  - by case_match.
Qed.

(** C23: proof round trip on a block.  For a well-rooted block, [TxProofGenerateOnTheBlock]
    finds a transaction hash exactly when the body has it, and the proof it returns, which
    names the block, its height and its transaction root, passes [TxProofVerify]. *)
Theorem proof_roundtrip (h : bytes) (b : Block) :
  well_rooted b →
  let p := TxProofGenerateOnTheBlock h b in
  Found p = mentions h b ∧
  (Found p = true → TxProofVerify h p = Ok (true, None) ∧ PTxHash p = h ∧
     BlockHash p = Hash b ∧ BlockHeight p = Number (Header b) ∧ PTxRoot p = TxRoot (Header b)).
Proof.
  intros Hw p. pose proof (generate_spec h b Hw) as Hg. subst p.
  destruct (mentions h b) eqn:Em; [|by rewrite Hg].
  destruct Hg as (p & Hp & ->). split; [done|]. intros _.
  rewrite (verify_found h h b p) by done. fold (mentions h b). by rewrite Em.
Qed.

(** The blocks of a chain, from [b] down to the genesis block, as the store has them. *)
Inductive chain_from (s : BoltDB) : Block → list Block → Prop :=
| chain_genesis b : Number (Header b) = 0 → chain_from s b []
| chain_step b parent l :
    0 < Number (Header b) → Number (Header parent) = Number (Header b) - 1 →
    ParentBlockHash (Header b) = Hash parent → GetBlock s (Hash b) = Ok (inr b) →
    well_rooted b → chain_from s parent l → chain_from s b (b :: l).

Lemma proof_search_spec s h b l :
  chain_from s b l →
  ∃ p, proof_search s h (Hash b) (Z.to_nat (Number (Header b))) = Ok p ∧
    Found p = existsb (mentions h) l ∧
    (Found p = true → TxProofVerify h p = Ok (true, None) ∧
       ∃ b', b' ∈ l ∧ BlockHash p = Hash b' ∧ mentions h b' = true).
Proof.
  induction 1 as [b Hn|b parent l Hpos Hn Hp Hg Hw _ IH].
  - rewrite Hn. eexists. split; [done|]. split; [done|]. done.
  - replace (Z.to_nat (Number (Header b))) with (S (Z.to_nat (Number (Header parent)))) by lia.
    cbn [proof_search existsb]. rewrite Hg. cbn [mbind go_bind].
    pose proof (generate_spec h b Hw) as Hgen. destruct (mentions h b) eqn:Em.
    + destruct Hgen as (p & Hpr & ->). cbn [Found FoundProof]. eexists. split; [done|].
      split; [done|]. intros _. rewrite (verify_found h h b p) by done.
      fold (mentions h b). rewrite Em. split; [done|]. exists b. split; [by constructor|done].
    + rewrite Hgen, Hp. destruct IH as (p & E & Hf & Hv). exists p. split; [done|].
      split; [done|]. intros Hfp. destruct (Hv Hfp) as (? & b' & ? & ?). split; [done|].
      exists b'. split; [by constructor|done].
Qed.

(** Proof search over the chain.  [TxProofGenerate] always returns; it finds a hash exactly
    when some block after the genesis block has it, and then the proof verifies and names such
    a block. *)
Theorem chain_proof_search (bc : BlockChain) (h : bytes) (l : list Block) :
  chain_from (Storage bc) (CurrentBlock bc) l →
  ∃ p, TxProofGenerate bc h = Ok p ∧ Found p = existsb (mentions h) l ∧
    (Found p = true → TxProofVerify h p = Ok (true, None) ∧
       ∃ b, b ∈ l ∧ BlockHash p = Hash b ∧ mentions h b = true).
Proof. apply proof_search_spec. Qed.

(** The batch generator.  Its i-th result is for the i-th hash; for a hash of the body it is
    the result of the single generator, and verifies.  For a hash that only the bloom filter
    has, it claims [Found], unlike the single generator, and the proof does not verify. *)
Theorem batch_proofs (hs : list bytes) (b : Block) (i : nat) (h : bytes) :
  well_rooted b → hs !! i = Some h →
  ∃ p, TxProofBatchGenerateOnBlock hs b !! i = Some p ∧
    (mentions h b = true →
       p = TxProofGenerateOnTheBlock h b ∧ TxProofVerify h p = Ok (true, None)) ∧
    (mentions h b = false →
       Found (TxProofGenerateOnTheBlock h b) = false ∧
       Found p = bitset_Test (Bloom (Header b)) (ModBytes h 2048) ∧
       ∃ e, TxProofVerify h p = Ok (false, Some e)).
Proof.
  intros Hw Hi. pose proof (generate_spec h b Hw) as Hg.
  unfold TxProofBatchGenerateOnBlock. rewrite bool_decide_eq_true_2 by (symmetry; apply Hw).
  cbn [negb]. rewrite list_lookup_fmap, Hi. cbn [fmap option_fmap option_map].
  eexists. split; [done|].
  destruct (trie_prove (tx_tree (Body b)) h) as [p Hp]. rewrite Hp.
  split; intros Em; rewrite Em in Hg.
  - rewrite (mentions_bloom h b) by done. cbn [negb].
    destruct Hg as (p' & [= <-]%(eq_trans (eq_sym Hp)) & ->). split; [done|].
    rewrite (verify_found h h b p) by done. fold (mentions h b). by rewrite Em.
  - split; [done|]. destruct (bitset_Test _ _); cbn [negb]; (split; [done|]).
    + rewrite (verify_found h h b p) by done. fold (mentions h b). rewrite Em. eauto.
    + eexists. done.
Qed.

(** [TxProofVerify] does not look at the hash it is asked about.  A proof of one transaction
    of a block verifies for every other hash, so a relayed transaction is accepted with the
    proof of a different one. *)
Theorem verify_ignores_hash (h other : bytes) (b : Block) :
  well_rooted b → mentions h b = true →
  TxProofVerify other (TxProofGenerateOnTheBlock h b) = Ok (true, None).
Proof.
  intros Hw Em. pose proof (generate_spec h b Hw) as Hg. rewrite Em in Hg.
  destruct Hg as (p & Hp & ->). rewrite (verify_found h other b p) by done.
  fold (mentions h b). by rewrite Em.
Qed.
End merkle.

(** ** Witnesses: a block of two transactions on the genesis block *)
Module MerkleExample.
Import ConcreteLibs ConcreteCore.
#[local] Existing Instance default_params.

Definition body : list Transaction := [sample_tx "a1" "b2" 5; sample_tx "b2" "a1" 7].
Definition block1 : Block :=
  seal (mkBlockHeader _ (Hash (NewGenisisBlock trie_NewDatabase)) "" (GetTxTreeRoot body)
          (GetBloomFilter body) 1 10 0) body.

Lemma block1_rooted : well_rooted block1.
Proof. by split. Qed.

Lemma proof_roundtrip_witness :
  TxProofVerify "a1b2" (TxProofGenerateOnTheBlock "a1b2" block1) = Ok (true, None).
Proof. apply (proof_roundtrip "a1b2" block1 block1_rooted). vm_compute. reflexivity. Defined.

Lemma chain_proof_search_witness :
  ∃ s p, StoreBlock (∅ : BoltDB) block1 = Ok s ∧
    TxProofGenerate (mkBlockChain trie_NewDatabase ChainExample.cfg block1 s NewTxPool ∅) "b2a1" = Ok p ∧
    Found p = true.
Proof.
  destruct (store_block_gets (∅ : BoltDB) block1) as (s & Hs & _ & Hb & _); [done|].
  destruct (chain_proof_search (mkBlockChain trie_NewDatabase ChainExample.cfg block1 s NewTxPool ∅)
    "b2a1" [block1]) as (p & Hp & Hf & _).
  - by apply (chain_step s block1 (NewGenisisBlock trie_NewDatabase) []); [..|constructor].
  - exists s, p. auto.
Defined.

Lemma batch_proofs_witness :
  ∃ p, TxProofBatchGenerateOnBlock ["a1b2"; "b2a1"] block1 !! 1%nat = Some p ∧
    TxProofVerify "b2a1" p = Ok (true, None).
Proof.
  destruct (batch_proofs ["a1b2"; "b2a1"] block1 1 "b2a1" block1_rooted eq_refl) as (p & Hp & H & _).
  exists p. split; [done|]. apply H. vm_compute. reflexivity.
Defined.

Lemma verify_ignores_hash_witness :
  TxProofVerify "forged" (TxProofGenerateOnTheBlock "a1b2" block1) = Ok (true, None).
Proof. apply (verify_ignores_hash "a1b2" "forged" block1 block1_rooted). vm_compute. reflexivity. Defined.
End MerkleExample.
