(* ===== verification/Overhead.v ===== *)
(** * Compact proposals ([consensus_shard/pbft_all/overhead.go])

    In lightweight mode the leader broadcasts the header of a block and the keys of its
    transaction bodies; a follower rebuilds the block from its cache of bodies, asking the
    leader for the missing ones.  The cache, guarded by a mutex, is a map from key to encoded
    transaction. *)
From Stdlib Require Import Ascii.
From S2P Require Import Prelude Utils Libs Core Messages.

(** ** [encoding/hex] *)
Definition hex_char (n : Z) : ascii := ascii_of_N (Z.to_N (if n <? 10 then n + 48 else n + 87)).

Definition hex_EncodeToString (b : bytes) : string :=
  unchars (concat ((λ c, [hex_char (byte_of c / 16); hex_char (byte_of c mod 16)]) <$> chars b)).

Section overhead.
Context `{Params, BitSetLib, CryptoLib, !Codec Request, !Codec Transaction, !Codec BlockHeader,
          !Codec Block}.

(** [getDigest] of [toolFuncs.go] *)
Definition getDigest (r : Request) : bytes := sha256 (Encode r).

Definition bodyKey (b : bytes) : string := hex_EncodeToString (sha256 b).

Abbreviation cache := (gmap string bytes).

Definition cacheBodies (bodies : list bytes) (c : cache) : cache :=
  foldl (λ c b, <[bodyKey b := b]> c) c bodies.

(** [streamTransactions]: the cache, and the batch handed to the stream worker. *)
Definition streamTransactions (txs : list Transaction) (c : cache) : cache * option (list bytes) :=
  if negb Overhead_Enabled || negb Overhead_Lightweight || (len txs =? 0) then (c, None)
  else let bodies := Encode <$> txs in (cacheBodies bodies c, Some bodies).

(** The compact form of a block proposal, and the bodies it refers to. *)
Definition compact_of (leader : string) (pp : PrePrepare) : go (compactProposal * list bytes) :=
  block ← DecodeB (Content (RequestMsg pp));
  let bodies := Encode <$> Body block in
  let pp' := pp <| RequestMsg := (RequestMsg pp) <| Content := "" |> |> in
  Ok (mkCompactProposal pp' (Encode (Header block)) (Hash block) (bodyKey <$> bodies) leader, bodies).

(** [encodeProposal]: the cache and the message to broadcast. *)
Definition encodeProposal (leader : string) (pp : PrePrepare) (c : cache) : go (cache * Msg) :=
  if Overhead_Enabled && Overhead_Lightweight
     && bool_decide (RequestType (RequestMsg pp) = BlockRequest) then
    r ← compact_of leader pp;
    let '(cp, bodies) := r in
    Ok (cacheBodies bodies c, MOHCompact cp)
  else Ok (c, MPrePrepare pp).

(** The keys a follower asks for. *)
Definition missing_keys (c : cache) (keys : list string) : list string :=
  List.filter (λ k, bool_decide (c !! k = None)) keys.

(** The leader's answer to [OHMissing]: it panics when it does not have a body. *)
Definition answer_missing (c : cache) (req : missingBodies) : go (list bytes) :=
  go_fold (λ bodies k, match c !! k with
                       | Some v => Ok (bodies ++ [v])
                       | None => Panic "proposal body missing at leader"
                       end) [] (MKeys req).

(** The second half of [handleCompactProposal]: [None] while a body is still missing, else the
    rebuilt proposal, whose digest is checked. *)
Definition rebuild (c : cache) (cp : compactProposal) : go (option PrePrepare) :=
  match mapM (λ k, c !! k) (Keys cp) with
  | None => Ok None
  | Some encs =>
      body ← go_fold (λ acc e, tx ← DecodeTx e; Ok (acc ++ [tx])) [] encs;
      bh ← DecodeBH (CPHeader cp);
      let block := (NewBlock bh body) <| Hash := CPHash cp |> in
      let req := (RequestMsg (Proposal cp)) <| Content := Encode block |> in
      if negb (bool_decide (getDigest req = PPDigest (Proposal cp)))
      then Panic "compact reconstruction digest mismatch"
      else Ok (Some ((Proposal cp) <| RequestMsg := req |>))
  end.

(** ** Facts *)
Context `{!CodecLaws Transaction, !CodecLaws BlockHeader, !CodecLaws Block}.

(** Every cached body is stored under its key. *)
Definition cache_ok (c : cache) : Prop := ∀ k b, c !! k = Some b → k = bodyKey b.

Lemma hex_char_inj a b : 0 ≤ a < 16 → 0 ≤ b < 16 → hex_char a = hex_char b → a = b.
Proof.
  intros Ha Hb E%(f_equal N_of_ascii). unfold hex_char in E.
  assert (∀ n : Z, 0 ≤ n < 16 → N.lt (Z.to_N (if n <? 10 then n + 48 else n + 87)) 256) as Hs
    by (intros n Hn; destruct (n <? 10) eqn:En; zbool; lia).
  rewrite !N_ascii_embedding in E by auto.
  destruct (a <? 10) eqn:E1, (b <? 10) eqn:E2; zbool; lia.
Qed.

Lemma hex_inj a b : hex_EncodeToString a = hex_EncodeToString b → a = b.
Proof.
  unfold hex_EncodeToString. intros E%(f_equal chars). rewrite !chars_unchars in E.
  apply chars_inj. revert E. generalize (chars a) as l, (chars b) as k.
  induction l as [|x l IH]; intros [|y k]; cbn; intros E; try done.
  injection E as E1 E2 E. apply IH in E as ->. f_equal.
  pose proof (byte_of_range x). pose proof (byte_of_range y).
  apply hex_char_inj in E1; [|split; [apply Z.div_pos; lia|apply Z.div_lt_upper_bound; lia]..].
  apply hex_char_inj in E2; [|apply Z.mod_pos_bound; lia..].
  assert (byte_of x = byte_of y) as Hxy.
  { rewrite (Z.div_mod (byte_of x) 16), (Z.div_mod (byte_of y) 16) by lia. lia. }
  unfold byte_of in Hxy. apply Nat2Z.inj in Hxy.
  by rewrite <-(ascii_nat_embedding x), <-(ascii_nat_embedding y), Hxy.
Qed.

Lemma cacheBodies_ok bodies c : cache_ok c → cache_ok (cacheBodies bodies c).
Proof.
  revert c; induction bodies as [|b bodies IH]; intros c Hc; [done|]. cbn. apply IH.
  intros k v. rewrite lookup_insert. case_decide; [naive_solver|apply Hc].
Qed.

Lemma cacheBodies_keep bodies c k b :
  c !! k = Some b → ∃ b', cacheBodies bodies c !! k = Some b'.
Proof.
  revert c b; induction bodies as [|x bodies IH]; intros c b Hc; [by exists b|]. cbn.
  destruct (decide (bodyKey x = k)) as [<-|Hne].
  - by apply (IH _ x), lookup_insert_eq.
  - apply (IH _ b). by rewrite lookup_insert_ne.
Qed.

Lemma cacheBodies_has bodies c b : b ∈ bodies → ∃ b', cacheBodies bodies c !! bodyKey b = Some b'.
Proof.
  revert c; induction bodies as [|x bodies IH]; intros c Hin; [by apply elem_of_nil in Hin|].
  cbn. apply elem_of_cons in Hin as [->|Hin]; [|by apply IH].
  by apply (cacheBodies_keep _ _ _ x), lookup_insert_eq.
Qed.

Context `{!CollisionFree}.

Lemma bodyKey_inj a b : bodyKey a = bodyKey b → a = b.
Proof. intros E%hex_inj. by apply sha256_inj. Qed.

(** A sound cache that has a key has the body of that key. *)
Lemma cache_lookup c b v : cache_ok c → c !! bodyKey b = Some v → v = b.
Proof. intros Hc E%Hc. by apply bodyKey_inj. Qed.

Lemma mapM_keys c bodies :
  cache_ok c → (∀ b, b ∈ bodies → ∃ v, c !! bodyKey b = Some v) →
  mapM (λ k, c !! k) (bodyKey <$> bodies) = Some bodies.
Proof.
  intros Hc. induction bodies as [|b bodies IH]; intros Hall; [done|].
  cbn [fmap list_fmap]. apply mapM_cons_Some.
  - destruct (Hall b) as [v Hv]; [by left|]. by rewrite Hv, (cache_lookup c b v Hc Hv).
  - apply IH. intros b' Hb'. apply Hall. by right.
Qed.

Lemma decode_bodies txs acc :
  go_fold (λ acc e, tx ← DecodeTx e; Ok (acc ++ [tx])) acc (Encode <$> txs) = Ok (acc ++ txs).
Proof.
  revert acc; induction txs as [|tx txs IH]; intros acc; cbn [fmap list_fmap go_fold];
    [by rewrite app_nil_r|].
  replace (DecodeTx (Encode tx)) with (Ok tx) by (symmetry; apply must_decode_encode).
  cbn [mbind go_bind]. by rewrite IH, <-app_assoc.
Qed.

Lemma answer_spec c keys reply :
  (∀ k, k ∈ keys → is_Some (c !! k)) →
  ∃ bodies, answer_missing c (mkMissingBodies keys reply) = Ok bodies ∧
    mapM (λ k, c !! k) keys = Some bodies.
Proof.
  intros Hall. unfold answer_missing. cbn [MKeys].
  assert (∀ acc, ∃ bodies,
    go_fold (λ bodies k, match c !! k with Some v => Ok (bodies ++ [v])
                         | None => Panic "proposal body missing at leader" end) acc keys
      = Ok (acc ++ bodies) ∧ mapM (λ k, c !! k) keys = Some bodies) as Hg.
  { induction keys as [|k keys IH]; intros acc.
    - exists []. cbn. by rewrite app_nil_r.
    - destruct (Hall k) as [v Hv]; [by left|]. cbn [go_fold]. rewrite Hv. cbn [mbind go_bind].
      destruct (IH (λ k' Hk', Hall k' (list_elem_of_further _ _ _ Hk')) (acc ++ [v])) as (l & -> & E).
      exists (v :: l). rewrite <-app_assoc. split; [done|]. by apply mapM_cons_Some. }
  destruct (Hg []) as (l & E & ?). by exists l.
Qed.

(** Compact proposals are lossless.  The leader encodes a block proposal; a follower whose
    cache lacks any of the bodies asks for the missing keys, the leader can answer, and from the
    answer the follower rebuilds exactly the proposal the leader made (no digest mismatch). *)
Theorem compact_roundtrip (leader reply : string) (pp : PrePrepare) (block : Block)
    (cl cf : cache) :
  Overhead_Enabled = true → Overhead_Lightweight = true →
  RequestType (RequestMsg pp) = BlockRequest → Content (RequestMsg pp) = Encode block →
  PPDigest pp = getDigest (RequestMsg pp) →
  cache_ok cl → cache_ok cf →
  ∃ cl' cp bodies,
    encodeProposal leader pp cl = Ok (cl', MOHCompact cp) ∧
    answer_missing cl' (mkMissingBodies (missing_keys cf (Keys cp)) reply) = Ok bodies ∧
    rebuild (cacheBodies bodies cf) cp = Ok (Some pp).
Proof.
  intros He Hl Hbr Hc Hd Hcl Hcf. unfold encodeProposal.
  rewrite He, Hl, bool_decide_eq_true_2 by done. cbn [andb]. unfold compact_of.
  rewrite Hc. replace (DecodeB (Encode block)) with (Ok block)
    by (symmetry; apply must_decode_encode).
  cbn [mbind go_bind]. set (bodies := Encode <$> Body block).
  eexists _, _. cbn [Keys].
  destruct (answer_spec (cacheBodies bodies cl) (missing_keys cf (bodyKey <$> bodies)) reply)
    as (ans & Ha & Hm).
  { intros k [Hk _]%list_elem_of_In%filter_In. apply list_elem_of_In in Hk.
    apply list_elem_of_fmap in Hk as (b & -> & Hb).
    destruct (cacheBodies_has bodies cl b Hb) as [v ->]. eauto. }
  exists ans. split; [done|]. split; [exact Ha|]. unfold rebuild. cbn [Keys CPHeader CPHash Proposal].
  rewrite mapM_keys; [|by apply cacheBodies_ok|].
  - unfold bodies. rewrite decode_bodies. cbn [mbind go_bind app].
    replace (DecodeBH (Encode (Header block))) with (Ok (Header block))
      by (symmetry; apply must_decode_encode).
    cbn [mbind go_bind]. destruct pp as [[rt rc rtime] dg sq], block as [bh bb hash].
    cbn in *. subst. by rewrite bool_decide_eq_true_2.
  - intros b Hb. destruct (cf !! bodyKey b) as [v|] eqn:Ev; [by eapply cacheBodies_keep|].
    apply mapM_Some_1 in Hm.
    assert (bodyKey b ∈ missing_keys cf (bodyKey <$> bodies)) as Hin.
    { apply list_elem_of_In, filter_In. rewrite <-list_elem_of_In.
      split; [by apply list_elem_of_fmap_2|]. by rewrite bool_decide_eq_true_2. }
    apply list_elem_of_lookup in Hin as [i Hi].
    destruct (Forall2_lookup_l _ _ _ _ _ Hm Hi) as (v & Hv & Hlv).
    rewrite (cache_lookup _ b v (cacheBodies_ok bodies cl Hcl) Hlv) in Hv.
    apply cacheBodies_has. by eapply list_elem_of_lookup_2.
Qed.

(** A rebuilt proposal is never corrupt.  Whatever the caches and messages hold, if the
    follower rebuilds a proposal at all, its digest is the digest of its request. *)
Theorem rebuild_digest (c : cache) (cp : compactProposal) (pp : PrePrepare) :
  rebuild c cp = Ok (Some pp) →
  getDigest (RequestMsg pp) = PPDigest pp ∧ PPSeqID pp = PPSeqID (Proposal cp) ∧
  PPDigest pp = PPDigest (Proposal cp).
Proof.
  unfold rebuild. destruct (mapM _ _) as [encs|]; [|done].
  intros (body & _ & E1)%go_bind_inv. apply go_bind_inv in E1 as (bh & _ & E2).
  case_bool_decide as Hd; [|done]. cbn in E2. injection E2 as <-. done.
Qed.
End overhead.

(** ** Witnesses *)
Module OverheadExample.
Import ConcreteLibs ConcreteCore.

Definition light_params : Params := {|
  NodesInShard := 4; ShardNum := 4; MaxBlockSize_global := 2000;
  BlocksizeInBytes := 20000; UseBlocksizeInBytes := 0; InjectSpeed := 300;
  TotalDataSize := 50000; TxBatchSize := 16000; RelayWithMerkleProof := 0;
  PbftViewChangeTimeOut := 10000; SupervisorAddr := "";
  Overhead_Enabled := true; Overhead_Lightweight := true; Overhead_Migration := false;
  Overhead_MigrationAccounts := 0; Overhead_StreamSkipNode := -1 |}.
#[local] Existing Instance light_params.
#[export] Instance req_codec : Codec Request := countable_codec Request.
#[export] Instance req_codec_laws : CodecLaws Request := countable_codec_laws Request.

Definition block1 : Block :=
  mkBlock _ (mkBlockHeader _ "" "" "" (∅ : gset Z) 1 10 0) [sample_tx "a1" "b2" 5] "h".
Definition req1 : Request := mkRequest BlockRequest (Encode block1) 10.
Definition pp1 : PrePrepare := mkPrePrepare req1 (getDigest req1) 1.

Lemma compact_roundtrip_witness :
  ∃ cl' cp bodies, encodeProposal "ip0" pp1 ∅ = Ok (cl', MOHCompact cp) ∧
    answer_missing cl' (mkMissingBodies (missing_keys ∅ (Keys cp)) "ip1") = Ok bodies ∧
    rebuild (cacheBodies bodies ∅) cp = Ok (Some pp1).
Proof. by apply (compact_roundtrip "ip0" "ip1" pp1 block1 ∅ ∅). Defined.

(** The compact form of an empty block. *)
Definition block0 : Block := mkBlock _ (mkBlockHeader _ "" "" "" (∅ : gset Z) 1 10 0) [] "h".
Definition req0 : Request := mkRequest BlockRequest (Encode block0) 10.
Definition cp0 : compactProposal :=
  mkCompactProposal (mkPrePrepare (mkRequest BlockRequest "" 10) (getDigest req0) 1)
    (Encode (Header block0)) "h" [] "ip0".

Lemma rebuild_digest_witness :
  rebuild ∅ cp0 = Ok (Some (mkPrePrepare req0 (getDigest req0) 1)) ∧
  getDigest req0 = PPDigest (mkPrePrepare req0 (getDigest req0) 1).
Proof.
  assert (rebuild ∅ cp0 = Ok (Some (mkPrePrepare req0 (getDigest req0) 1))) as Hr.
  { unfold rebuild. cbn [Keys cp0 mapM CPHeader].
    replace (DecodeBH (Encode (Header block0))) with (Ok (Header block0))
      by (symmetry; apply must_decode_encode).
    cbn [mbind go_bind go_fold mret option_ret]. by rewrite bool_decide_eq_true_2. }
  split; [exact Hr|]. apply (rebuild_digest ∅ cp0 _ Hr).
Defined.
End OverheadExample.
