(* ===== verification/Pbft.v ===== *)
(** * The PBFT node ([consensus_shard/pbft_all/pbft.go], [messageHandle.go], [view_change.go],
      [toolFuncs.go], [pbftMod_interface.go])

    The state of a node is a record; a handler is a function from the state and the decoded
    message to the new state and the packets it sends.  A handler of a consensus message runs in
    a goroutine of its own: it reads the view when the message arrives ([curView]) and then
    waits, under [pbftLock], until the stage, sequence or view lets it proceed.  [None] is the
    waiting handler; the body that runs once it no longer waits is one atomic step, with one
    exception: a commit handler that has to ask for old requests may block on [askForLock] in the
    middle of its body.  It keeps [pbftLock] then, so it is part of the state ([blockedCommit]),
    and its rest is a step of its own.  A panic and a fatal unlock of an unlocked mutex are
    [Panic].

    What the consensus does not fix is left to two interfaces of the source,
    [ExtraOpInConsensus] and [OpInterShards]: they are classes here, over the part [App] of the
    state that belongs to the module (the chain, the pool and the re-partitioning data). *)
From S2P Require Import Prelude Utils Libs Core Messages Storage Chain MerkleProof Overhead.

Section pbft.
Context `{Params, BitSetLib, CryptoLib, !Codec Request, !Codec Transaction, !Codec BlockHeader,
          !Codec Block}.

(** ** State *)
Record PbftConsensusNode {X : Type} := mkPbftConsensusNode {
  overhead : gmap string bytes;
  RunningNode : Node;
  PShardID : Z;
  PNodeID : Z;
  pbftChainConfig : ChainConfig;
  ip_nodeTable : gmap Z (gmap Z string);
  node_nums : Z;
  malicious_nums : Z;
  view : Z;
  lastCommitTime : Z;
  viewChangeMap : gmap (Z * Z) (gset Z);
  newViewMap : gmap (Z * Z) (gset Z);
  sequenceID : Z;
  stopSignal : bool;
  requestPool : gmap bytes Request;
  cntPrepareConfirm : gmap bytes (list Node);
  cntCommitConfirm : gmap bytes (list Node);
  isCommitBordcast : gset bytes;
  isReply : gset bytes;
  height2Digest : gmap Z bytes;
  pbftStage : Z;
  sequenceLock : bool;
  askForLock : bool;
  blockedCommit : option Commit;
  seqIDMap : gmap Z Z;
  App : X;
}.
#[global] Arguments PbftConsensusNode : clear implicits.
#[export] Instance Pbft_eta {X} : Eta (PbftConsensusNode X) := λ p,
  mkPbftConsensusNode X (overhead p) (RunningNode p) (PShardID p) (PNodeID p) (pbftChainConfig p)
    (ip_nodeTable p) (node_nums p) (malicious_nums p) (view p) (lastCommitTime p)
    (viewChangeMap p) (newViewMap p) (sequenceID p) (stopSignal p) (requestPool p)
    (cntPrepareConfirm p) (cntCommitConfirm p) (isCommitBordcast p) (isReply p)
    (height2Digest p) (pbftStage p) (sequenceLock p) (askForLock p) (blockedCommit p) (seqIDMap p) (App p).

(** ** The interfaces of [pbftMod_interface.go]

    [HandleinPropose] returns no request while it still waits for other shards. *)
Class ExtraOpInConsensus (X : Type) := {
  HandleinPropose : PbftConsensusNode X → Time → go (X * list packet * option Request);
  HandleinPrePrepare : PbftConsensusNode X → PrePrepare → go (X * bool);
  HandleinPrepare : PbftConsensusNode X → Prepare → go (X * bool);
  HandleinCommit : PbftConsensusNode X → Time → Commit → go (X * list packet * bool);
  HandleReqestforOldSeq : PbftConsensusNode X → RequestOldMessage → go (X * bool);
  HandleforSequentialRequest : PbftConsensusNode X → SendOldMessage → go (X * list packet * bool);
}.

Class OpInterShards (X : Type) := {
  HandleMessageOutsidePBFT :
    PbftConsensusNode X → (nat → Time) → Msg → go (PbftConsensusNode X * list packet);
}.

Section node.
Context {X : Type} `{!ExtraOpInConsensus X, !OpInterShards X}.
Abbreviation pnode := (PbftConsensusNode X).

(** ** [toolFuncs.go] *)

(** One entry of the two-level vote maps: a voter is added once. *)
Definition add_voter (l : list Node) (val : Node) : list Node :=
  if existsb (λ existing, (NodeID existing =? NodeID val) && (NShardID existing =? NShardID val)) l
  then l else l ++ [val].

Definition set2DMap (isPrePareConfirm : bool) (key : bytes) (val : Node) (p : pnode) : pnode :=
  if isPrePareConfirm then
    p <| cntPrepareConfirm ::= λ m, <[key := add_voter (default [] (m !! key)) val]> m |>
  else
    p <| cntCommitConfirm ::= λ m, <[key := add_voter (default [] (m !! key)) val]> m |>.

(** The address of a node: the empty string when the table has none. *)
Definition ip_of (p : pnode) (sid nid : Z) : string :=
  default "" (t ← ip_nodeTable p !! sid; t !! nid).

Definition getNodeIpsWithinShard (p : pnode) (shardID : Z) : list string :=
  (map_to_list (default ∅ (ip_nodeTable p !! shardID))).*2.

Definition getNeighborNodes (p : pnode) : list string := getNodeIpsWithinShard p (PShardID p).

(** [networks.Broadcast]: everyone but the sender. *)
Definition Broadcast (sender : string) (receivers : list string) (m : Msg) : list packet :=
  (λ ip, (ip, m)) <$> List.filter (λ ip, negb (bool_decide (ip = sender))) receivers.

(** [Broadcast] to the neighbours, then [TcpDial] to the node itself. *)
Definition send_all (p : pnode) (m : Msg) : list packet :=
  Broadcast (IPaddr (RunningNode p)) (getNeighborNodes p) m ++ [(IPaddr (RunningNode p), m)].

Definition computeTCL (txs : list Transaction) (commitTS : Time) : Z :=
  foldl (λ ret tx, i64 (ret + Milliseconds (time_Sub commitTS (TxTime tx)))) 0 txs.

(** [time.Time.UnixMilli]: milliseconds since 1970; the zero time is year 1. *)
Definition UnixMilli (t : Time) : Z := (t - 62135596800 * 10 ^ 9) / 10 ^ 6.

(** [DeleteElementsInList]: after the compaction it returns [list[:-removedCnt]], a slice
    expression with a negative bound unless nothing was removed. *)
Definition DeleteElementsInList (list_ elements : list Transaction) : go (list Transaction) :=
  let elementHashMap : gset bytes := list_to_set (TxHash <$> elements) in
  let removedCnt := len (List.filter (λ tx, bool_decide (TxHash tx ∈ elementHashMap)) list_) in
  if 0 <? removedCnt then Panic "slice bounds out of range"
  else Ok (take 0 (List.filter (λ tx, negb (bool_decide (TxHash tx ∈ elementHashMap))) list_)).

(** ** Waiting and stale messages *)

(** A blocked commit handler holds [pbftLock]. *)
Definition pbft_locked (p : pnode) : bool :=
  match blockedCommit p with Some _ => true | None => false end.

Definition waits (stage SeqID curView : Z) (p : pnode) : bool :=
  pbft_locked p ||
  ((pbftStage p <? stage) && (sequenceID p <=? SeqID) && (view p =? curView)).

Definition stale (SeqID curView : Z) (p : pnode) : bool :=
  (SeqID <? sequenceID p) || negb (view p =? curView).

(** A handler's outcome: waiting, or the new state and the packets sent. *)
Abbreviation outcome := (go (option (pnode * list packet))).

(** ** [messageHandle.go] *)

(** The goroutine of [Propose] that starts a round: only the leader, which takes
    [sequenceLock] (and waits while it is held). *)
Definition Propose_begin (p : pnode) : outcome :=
  if negb (u64 (view p) =? PNodeID p) then Ok (Some (p, []))
  else if sequenceLock p then Ok None
  else Ok (Some (p <| sequenceLock := true |>, [])).

(** [HandleinPropose] and the broadcast; the request goes to the neighbours in the form
    [encodeProposal] gives it, and in full to the node itself. *)
Definition Propose_send (now : Time) (p : pnode) : outcome :=
  r ← HandleinPropose p now;
  let '(x, out, req) := r in
  let p := p <| App := x |> in
  match req with
  | None => Ok (Some (p, out))
  | Some r =>
      let digest := getDigest r in
      let ppmsg := mkPrePrepare r digest (sequenceID p) in
      let p := p <| requestPool ::= <[digest := r]> |>
                 <| height2Digest ::= <[sequenceID p := digest]> |> in
      e ← encodeProposal (IPaddr (RunningNode p)) ppmsg (overhead p);
      let '(c, m) := e in
      let p := p <| overhead := c |> in
      Ok (Some (p, out ++ Broadcast (IPaddr (RunningNode p)) (getNeighborNodes p) m
                     ++ [(IPaddr (RunningNode p), MPrePrepare ppmsg)]))
  end.

(** [pbftStage.CompareAndSwap(1, 2)], after the sends. *)
Definition Propose_end (p : pnode) : outcome :=
  Ok (Some (if pbftStage p =? 1 then p <| pbftStage := 2 |> else p, [])).

Definition handlePrePrepare (curView : Z) (ppmsg : PrePrepare) (p : pnode) : outcome :=
  if waits 1 (PPSeqID ppmsg) curView p then Ok None
  else if stale (PPSeqID ppmsg) curView p then Ok (Some (p, []))
  else
    let digest := getDigest (RequestMsg ppmsg) in
    if negb (bool_decide (digest = PPDigest ppmsg)) then Ok (Some (p, []))
    else if sequenceID p <? PPSeqID ppmsg then
      Ok (Some (p <| requestPool ::= <[digest := RequestMsg ppmsg]> |>
                  <| height2Digest ::= <[PPSeqID ppmsg := digest]> |>, []))
    else
      r ← HandleinPrePrepare p ppmsg;
      let '(x, flag) := r in
      let p := p <| App := x |>
                 <| requestPool ::= <[digest := RequestMsg ppmsg]> |>
                 <| height2Digest ::= <[PPSeqID ppmsg := digest]> |> in
      if (flag : bool) then
        let pre := mkPrepare (PPDigest ppmsg) (PPSeqID ppmsg) (RunningNode p) in
        Ok (Some (p <| pbftStage ::= λ s, i32 (s + 1) |>, send_all p (MPrepare pre)))
      else Ok (Some (p, [])).

Definition handlePrepare (curView : Z) (pmsg : Prepare) (p : pnode) : outcome :=
  if waits 2 (PSeqID pmsg) curView p then Ok None
  else if stale (PSeqID pmsg) curView p then Ok (Some (p, []))
  else match requestPool p !! PDigest pmsg with
  | None => Ok (Some (p, []))
  | Some _ =>
      if sequenceID p <? PSeqID pmsg then Ok (Some (p, []))
      else
        r ← HandleinPrepare p pmsg;
        let p := p <| App := r.1 |> in
        let p := set2DMap true (PDigest pmsg) (PSenderNode pmsg) p in
        let cnt := len (default [] (cntPrepareConfirm p !! PDigest pmsg)) in
        if (u64 (2 * malicious_nums p + 1) <=? cnt)
           && negb (bool_decide (PDigest pmsg ∈ isCommitBordcast p)) then
          let c := mkCommit (PDigest pmsg) (PSeqID pmsg) (RunningNode p) in
          Ok (Some (p <| isCommitBordcast ::= λ s, {[PDigest pmsg]} ∪ s |>
                      <| pbftStage ::= λ s, i32 (s + 1) |>,
                    send_all p (MCommit c)))
        else Ok (Some (p, []))
  end.

(** The end of a committed round: [sequenceLock.Unlock()] on the leader is fatal when the lock
    is not held. *)
Definition round_end (now : Time) (p : pnode) : go pnode :=
  let p := p <| pbftStage := 1 |> <| lastCommitTime := UnixMilli now |> in
  if PNodeID p =? u64 (view p) then
    if sequenceLock p then Ok (p <| sequenceLock := false |>)
    else Panic "sync: unlock of unlocked mutex"
  else Ok p.

(** Asking the leader for old requests, once [askForLock] is taken, and the end of the round. *)
Definition ask_old (now : Time) (cmsg : Commit) (p : pnode) : outcome :=
  let sn := mkNode (u64 (view p)) (PShardID p) (ip_of p (PShardID p) (u64 (view p))) in
  let orequest := mkRequestOldMessage (u64 (sequenceID p + 1)) (CSeqID cmsg) sn (RunningNode p) in
  p ← round_end now (p <| askForLock := true |>);
  Ok (Some (p, [(IPaddr sn, MRequestOld orequest)])).

(** [handleCommit]: when it has to ask for old requests and [askForLock] is held, it has recorded
    the vote and the reply and blocks, holding [pbftLock]. *)
Definition handleCommit (curView : Z) (now : Time) (cmsg : Commit) (p : pnode) : outcome :=
  if waits 3 (CSeqID cmsg) curView p then Ok None
  else if stale (CSeqID cmsg) curView p then Ok (Some (p, []))
  else
    let p := set2DMap false (CDigest cmsg) (CSenderNode cmsg) p in
    let cnt := len (default [] (cntCommitConfirm p !! CDigest cmsg)) in
    if (u64 (2 * malicious_nums p + 1) <=? cnt)
       && negb (bool_decide (CDigest cmsg ∈ isReply p)) then
      match requestPool p !! CDigest cmsg with
      | None =>
          let p := p <| isReply ::= λ s, {[CDigest cmsg]} ∪ s |> in
          if askForLock p then Ok (Some (p <| blockedCommit := Some cmsg |>, []))
          else ask_old now cmsg p
      | Some _ =>
          r ← HandleinCommit p now cmsg;
          let '(x, out, _) := r in
          let p := p <| App := x |>
                     <| isReply ::= λ s, {[CDigest cmsg]} ∪ s |>
                     <| sequenceID ::= λ s, u64 (s + 1) |> in
          p ← round_end now p;
          Ok (Some (p, out))
      end
    else Ok (Some (p, [])).

(** The rest of a blocked [handleCommit], when it gets [askForLock]. *)
Definition handleCommit_resume (now : Time) (p : pnode) : outcome :=
  match blockedCommit p with
  | None => Ok None
  | Some cmsg => if askForLock p then Ok None else ask_old now cmsg (p <| blockedCommit := None |>)
  end.

(** The heights [start .. end_] of the loop [for height := start; height <= end_; height++]. *)
Definition heights (start end_ : Z) : list Z :=
  (λ i, start + Z.of_nat i) <$> seq 0 (Z.to_nat (end_ - start + 1)).

(** The loop on [uint64] heights: it does not end at the largest one, but goes on with 0. *)
Definition loop_heights (start end_ : Z) : list Z :=
  heights start end_ ++ (if end_ =? two64 - 1 then heights 0 end_ else []).

(** The requests the leader has for those heights, up to the first one it does not have. *)
Fixpoint old_requests (p : pnode) (hs : list Z) : list Request :=
  match hs with
  | [] => []
  | h :: hs' =>
      match d ← height2Digest p !! h; requestPool p !! d with
      | None => []
      | Some r => r :: old_requests p hs'
      end
  end.

Definition handleRequestOldSeq (rom : RequestOldMessage) (p : pnode) : outcome :=
  if negb (u64 (view p) =? PNodeID p) then Ok (Some (p, []))
  else
    let oldR := old_requests p (loop_heights (ROSeqStartHeight rom) (ROSeqEndHeight rom)) in
    r ← HandleReqestforOldSeq p rom;
    let sb := mkSendOldMessage (ROSeqStartHeight rom) (ROSeqEndHeight rom) oldR (RunningNode p) in
    Ok (Some (p <| App := r.1 |>, [(IPaddr (ROSenderNode rom), MSendOld sb)])).

(** The loop of [handleSendOldSeq] over the received requests. *)
Definition learn_old (beginSeq : Z) (p : pnode) (ir : nat * Request) : pnode :=
  let d := getDigest ir.2 in
  p <| requestPool ::= <[d := ir.2]> |>
    <| height2Digest ::= <[u64 (Z.of_nat ir.1 + beginSeq) := d]> |>
    <| isReply ::= λ s, {[d]} ∪ s |>.

Definition handleSendOldSeq (som : SendOldMessage) (p : pnode) : outcome :=
  r ← HandleforSequentialRequest p som;
  let '(x, out0, _) := r in
  let p := p <| App := x |> in
  let p := foldl (learn_old (SOSeqStartHeight som)) p (imap pair (OldRequest som)) in
  let p := p <| sequenceID := u64 (SOSeqEndHeight som + 1) |> in
  r ← (match d ← height2Digest p !! sequenceID p; requestPool p !! d with
       | None => Ok (p, [])
       | Some r =>
           let ppmsg := mkPrePrepare r (getDigest r) (sequenceID p) in
           h ← HandleinPrePrepare p ppmsg;
           let '(x, flag) := h in
           let p := p <| App := x |> in
           if (flag : bool) then
             let pre := mkPrepare (PPDigest ppmsg) (PPSeqID ppmsg) (RunningNode p) in
             Ok (p, Broadcast (IPaddr (RunningNode p)) (getNeighborNodes p) (MPrepare pre))
           else Ok (p, [])
       end);
  let '(p, out) := r in
  if askForLock p then Ok (Some (p <| askForLock := false |>, out0 ++ out))
  else Panic "sync: unlock of unlocked mutex".

(** ** [view_change.go] *)
Definition next_view (p : pnode) : go Z := go_rem (i32 (view p + 1)) (i64 (node_nums p)).

Definition viewChangePropose (p : pnode) : outcome :=
  let p := p <| pbftStage := 5 |> in
  nv ← next_view p;
  let vcmsg := mkViewChangeMsg (view p) nv (i64 (sequenceID p)) (PNodeID p) in
  Ok (Some (p, send_all p (MViewChange vcmsg))).

(** One pass of the goroutine that checks the time since the last commit. *)
Definition view_change_check (now : Time) (p : pnode) : outcome :=
  if PbftViewChangeTimeOut <? UnixMilli now - lastCommitTime p then
    viewChangePropose (p <| lastCommitTime := UnixMilli now |>)
  else Ok (Some (p, [])).

Definition add_vote (m : gmap (Z * Z) (gset Z)) (k : Z * Z) (n : Z) : gmap (Z * Z) (gset Z) :=
  <[k := {[n]} ∪ default ∅ (m !! k)]> m.

Definition votes (m : gmap (Z * Z) (gset Z)) (k : Z * Z) : Z :=
  Z.of_nat (size (default ∅ (m !! k))).

Definition handleViewChangeMsg (vcmsg : ViewChangeMsg) (p : pnode) : outcome :=
  let vcData := (VCNextView vcmsg, VCSeqID vcmsg) in
  let p := p <| viewChangeMap ::= λ m, add_vote m vcData (VCFromNode vcmsg) |> in
  if votes (viewChangeMap p) vcData =? 2 * i64 (malicious_nums p) + 1 then
    nv ← next_view p;
    let nvmsg := mkNewViewMsg (view p) nv (i64 (sequenceID p)) (PNodeID p) in
    Ok (Some (p, send_all p (MNewView nvmsg)))
  else Ok (Some (p, [])).

Definition handleNewViewMsg (now : Time) (nvmsg : NewViewMsg) (p : pnode) : outcome :=
  let vcData := (NVNextView nvmsg, NewSeqID nvmsg) in
  let p := p <| newViewMap ::= λ m, add_vote m vcData (NVFromNode nvmsg) |> in
  if votes (newViewMap p) vcData =? 2 * i64 (malicious_nums p) + 1 then
    Ok (Some (p <| view := i32 (NVNextView nvmsg) |> <| sequenceID := u64 (NewSeqID nvmsg) |>
                <| pbftStage := 1 |> <| lastCommitTime := UnixMilli now |>, []))
  else Ok (Some (p, [])).

(** ** [overhead.go], the parts that touch the node *)

(** The first half of [handleCompactProposal]: ask the leader for the missing bodies. *)
Definition compact_ask (cp : compactProposal) (p : pnode) : outcome :=
  let missing := missing_keys (overhead p) (Keys cp) in
  Ok (Some (p, if 0 <? len missing
               then [(Leader cp, MOHMissing (mkMissingBodies missing (IPaddr (RunningNode p))))]
               else [])).

(** The second half: once every body is there, the rebuilt proposal is handled. *)
Definition compact_deliver (curView : Z) (cp : compactProposal) (p : pnode) : outcome :=
  r ← rebuild (overhead p) cp;
  match r with
  | None => Ok None
  | Some pp => handlePrePrepare curView pp p
  end.

(** [handleOverhead]: [None] when the message is not for it. *)
Definition handleOverhead (m : Msg) (p : pnode) : option outcome :=
  if negb Overhead_Enabled then None
  else match m with
  | MOHStream bodies | MOHBodies bodies =>
      Some (Ok (Some (p <| overhead ::= cacheBodies bodies |>, [])))
  | MOHMissing req =>
      Some (bodies ← answer_missing (overhead p) req;
            Ok (Some (p, [(Reply req, MOHBodies bodies)])))
  | MOHCompact cp => Some (compact_ask cp p)
  | _ => None
  end.

(** [handleMessage]: the dispatch on the message type. *)
Definition handleMessage (curView : Z) (now : Time) (clock : nat → Time) (m : Msg) (p : pnode)
    : outcome :=
  match handleOverhead m p with
  | Some o => o
  | None =>
      match m with
      | MPrePrepare m => handlePrePrepare curView m p
      | MPrepare m => handlePrepare curView m p
      | MCommit m => handleCommit curView now m p
      | MViewChange m => handleViewChangeMsg m p
      | MNewView m => handleNewViewMsg now m p
      | MRequestOld m => handleRequestOldSeq m p
      | MSendOld m => handleSendOldSeq m p
      | MStop => Ok (Some (p <| stopSignal := true |>, []))
      | m => r ← HandleMessageOutsidePBFT p clock m; Ok (Some r)
      end
  end.

(** ** Steps and runs of a node *)
Inductive event :=
| EvBegin
| EvSend (now : Time)
| EvEnd
| EvResume (now : Time)
| EvTimer (now : Time)
| EvCompact (curView : Z) (cp : compactProposal)
| EvMsg (curView : Z) (now : Time) (clock : nat → Time) (m : Msg).

Definition step (p : pnode) (e : event) : outcome :=
  match e with
  | EvBegin => Propose_begin p
  | EvSend now => Propose_send now p
  | EvEnd => Propose_end p
  | EvResume now => handleCommit_resume now p
  | EvTimer now => view_change_check now p
  | EvCompact curView cp => compact_deliver curView cp p
  | EvMsg curView now clock m => handleMessage curView now clock m p
  end.

(** A run in which every event is taken when its handler does not wait.  It lets a goroutine of
    [Propose] send at any moment; [paced] restricts it to goroutines that have taken the lock. *)
Inductive run : pnode → list event → list packet → pnode → Prop :=
| run_nil p : run p [] [] p
| run_cons p e p1 out es outs p2 :
    step p e = Ok (Some (p1, out)) → run p1 es outs p2 → run p (e :: es) (out ++ outs) p2.

(** The same as a function. *)
Fixpoint exec (p : pnode) (es : list event) : option (list packet * pnode) :=
  match es with
  | [] => Some ([], p)
  | e :: es' =>
      match step p e with
      | Ok (Some (p1, out)) => '(outs, p2) ← exec p1 es'; Some (out ++ outs, p2)
      | _ => None
      end
  end.

(** The goroutines of [Propose] that have taken [sequenceLock] and still have to send, after [e]. *)
Definition proposing (k : nat) (p : pnode) (e : event) : nat :=
  match e with
  | EvBegin => if u64 (view p) =? PNodeID p then S k else k
  | EvSend _ => pred k
  | _ => k
  end.

(** Proposals are sent by such goroutines only, of which there are [k] at the start. *)
Fixpoint paced (k : nat) (p : pnode) (es : list event) : Prop :=
  match es with
  | [] => True
  | e :: es' =>
      match e with EvSend _ => k ≠ 0%nat | _ => True end ∧
      match step p e with Ok (Some (p', _)) => paced (proposing k p e) p' es' | _ => True end
  end.

(** [NewPbftNode] *)
Definition NewPbftNode (shardID nodeID : Z) (pcc : ChainConfig) (table : gmap Z (gmap Z string))
    (now : Time) (height : Z) (x : X) : pnode :=
  mkPbftConsensusNode X ∅
    (mkNode nodeID shardID (default "" (t ← table !! shardID; t !! nodeID))) shardID nodeID pcc
    table (Nodes_perShard pcc) (u64 (Nodes_perShard pcc - 1) / 3) 0
    (UnixMilli (now + 5 * 10 ^ 9)) ∅ ∅ (u64 (height + 1)) false ∅ ∅ ∅ ∅ ∅ ∅ 1 false false None ∅ x.
End node.
End pbft.
