(* ===== verification/PbftRecord.v ===== *)
(** * What a node executes

    A record of the calls of a module's commit operation, kept by wrapping the module, and that the
    wrapped module behaves as the module itself. *)
From S2P Require Import Prelude Utils Libs Core Messages Storage Chain MerkleProof Overhead Pbft.

(** Any module can be wrapped so that it keeps a record of the calls of its commit operation, with
    the sequence number and the digest of each; everything else is passed on.  What a node executes
    in a run is the record at the end of the same run with the wrapped module. *)
Section recording.
Context `{Params, BitSetLib, CryptoLib, !Codec Request, !Codec Transaction, !Codec BlockHeader,
          !Codec Block}.
Context {X : Type} `{!ExtraOpInConsensus X, !OpInterShards X}.
Abbreviation pnode := (PbftConsensusNode X).
Abbreviation entry := (Z * bytes)%type.

Definition with_app {Y Y'} (y : Y') (p : PbftConsensusNode Y) : PbftConsensusNode Y' :=
  mkPbftConsensusNode Y' (overhead p) (RunningNode p) (PShardID p) (PNodeID p) (pbftChainConfig p)
    (ip_nodeTable p) (node_nums p) (malicious_nums p) (view p) (lastCommitTime p)
    (viewChangeMap p) (newViewMap p) (sequenceID p) (stopSignal p) (requestPool p)
    (cntPrepareConfirm p) (cntCommitConfirm p) (isCommitBordcast p) (isReply p)
    (height2Digest p) (pbftStage p) (sequenceLock p) (askForLock p) (blockedCommit p) (seqIDMap p) y.

Abbreviation rnode := (PbftConsensusNode (X * list entry)).
Definition record_in (l : list entry) (p : pnode) : rnode := with_app (App p, l) p.
Definition bare (p : rnode) : pnode := with_app (App p).1 p.

#[local] Instance recording_ops : ExtraOpInConsensus (X * list entry) := {|
  HandleinPropose p now := r ← HandleinPropose (bare p) now; let '(x, out, req) := r in Ok ((x, (App p).2), out, req);
  HandleinPrePrepare p m := r ← HandleinPrePrepare (bare p) m; Ok ((r.1, (App p).2), r.2);
  HandleinPrepare p m := r ← HandleinPrepare (bare p) m; Ok ((r.1, (App p).2), r.2);
  HandleinCommit p now c :=
    r ← HandleinCommit (bare p) now c;
    let '(x, out, b) := r in Ok ((x, (App p).2 ++ [(sequenceID p, CDigest c)]), out, b);
  HandleReqestforOldSeq p m := r ← HandleReqestforOldSeq (bare p) m; Ok ((r.1, (App p).2), r.2);
  HandleforSequentialRequest p m :=
    r ← HandleforSequentialRequest (bare p) m; let '(x, out, b) := r in Ok ((x, (App p).2), out, b) |}.

#[local] Instance recording_outside : OpInterShards (X * list entry) := {|
  HandleMessageOutsidePBFT p clock m :=
    r ← HandleMessageOutsidePBFT (bare p) clock m; Ok (record_in (App p).2 r.1, r.2) |}.

(** The record at the end of a run that starts with the record of [p]. *)
Fixpoint recorded (p : rnode) (es : list event) : list entry :=
  match es with
  | [] => (App p).2
  | e :: es' => match step p e with Ok (Some (p', _)) => recorded p' es' | _ => (App p).2 end
  end.

(** What a run of [p] executes, in order, up to the first event that waits or panics. *)
Definition exec_log (p : pnode) (es : list event) : list entry := recorded (record_in [] p) es.

(** ** The wrapped module behaves as the module *)

(** The votes for a digest when the handler of a commit counts them. *)
Definition after_vote (c : Commit) (p : pnode) : pnode := set2DMap false (CDigest c) (CSenderNode c) p.

Definition commit_votes (c : Commit) (p : pnode) : list Node :=
  default [] (cntCommitConfirm (after_vote c p) !! CDigest c).

(** The tests of the commit handler, and the entry they lead to; [step_record] shows that this is
    what the wrapped module records. *)
Definition commit_fires (curView : Z) (c : Commit) (p : pnode) : bool :=
  negb (waits 3 (CSeqID c) curView p) && negb (stale (CSeqID c) curView p)
  && (u64 (2 * malicious_nums p + 1) <=? len (commit_votes c p))
  && negb (bool_decide (CDigest c ∈ isReply p)).

Definition executes (p : pnode) (e : event) : option entry :=
  match e with
  | EvMsg curView _ _ (MCommit c) =>
      if commit_fires curView c p && bool_decide (is_Some (requestPool p !! CDigest c))
      then Some (sequenceID p, CDigest c) else None
  | _ => None
  end.

(** The outcome [r] with the record [l]. *)
Definition lift (l : list entry) (r : go (option (pnode * list packet))) : go (option (rnode * list packet)) :=
  match r with
  | Ok (Some (p, out)) => Ok (Some (record_in l p, out))
  | Ok None => Ok None
  | Panic w => Panic w
  end.

Lemma bare_record l p : bare (record_in l p) = p.
Proof. by destruct p. Qed.


(** A handler and the same handler with a record make the same tests. *)
Ltac innermost t :=
  match t with
  | context [match _ with _ => _ end] => fail 1
  | _ => destruct t
  end.
Ltac split_tests :=
  repeat match goal with
  | |- ?x = ?x => reflexivity
  | |- context [fst ?t] => is_var t; destruct t; cbn beta iota delta [fst snd]
  | |- context [match ?t with _ => _ end] => innermost t; cbn beta iota delta [fst snd]
  end.
Ltac commutes p :=
  unfold mbind, go_bind; destruct p; cbn -[u64 i64 i32 len getDigest send_all Broadcast bare]; unfold mbind, go_bind; rewrite ?bare_record;
  split_tests; try reflexivity.

Lemma handlePrePrepare_record cv m p l : handlePrePrepare cv m (record_in l p) = lift l (handlePrePrepare cv m p).
Proof. unfold handlePrePrepare, waits, stale, pbft_locked. commutes p. Qed.
Lemma handlePrepare_record cv m p l : handlePrepare cv m (record_in l p) = lift l (handlePrepare cv m p).
Proof. unfold handlePrepare, waits, stale, pbft_locked, set2DMap. commutes p. Qed.
Lemma propose_send_record now p l : Propose_send now (record_in l p) = lift l (Propose_send now p).
Proof. unfold Propose_send. commutes p. Qed.

Lemma simple_record e p l : match e with EvSend _ | EvCompact _ _ | EvMsg _ _ _ _ => False | _ => True end →
  step (record_in l p) e = lift l (step p e).
Proof.
  destruct e; intros Hk; try done; cbn [step]; 
  unfold Propose_begin, Propose_end, handleCommit_resume, ask_old, round_end, view_change_check, viewChangePropose, next_view; commutes p. 
Qed.

Lemma round_end_record now p l : round_end now (record_in l p) =
  match round_end now p with Ok p' => Ok (record_in l p') | Panic w => Panic w end.
Proof. unfold round_end. commutes p. Qed.

Lemma ask_record now c p l : ask_old now c (record_in l p) = lift l (ask_old now c p).
Proof.
  unfold ask_old. change ((record_in l p) <| askForLock := true |>) with (record_in l (p <| askForLock := true |>)).
  rewrite round_end_record. by destruct (round_end now _).
Qed.

Lemma commit_record cv now clock c p l :
  handleCommit cv now c (record_in l p) =
    lift (l ++ option_list (executes p (EvMsg cv now clock (MCommit c)))) (handleCommit cv now c p).
Proof.
  unfold handleCommit, executes, commit_fires, commit_votes.
  change (waits 3 (CSeqID c) cv (record_in l p)) with (waits 3 (CSeqID c) cv p).
  change (stale (CSeqID c) cv (record_in l p)) with (stale (CSeqID c) cv p).
  destruct (waits _ _ _ _); [done|]. destruct (stale _ _ _); [by rewrite app_nil_r|].
  change (set2DMap false (CDigest c) (CSenderNode c) (record_in l p)) with (record_in l (after_vote c p)).
  change (set2DMap false (CDigest c) (CSenderNode c) p) with (after_vote c p).
  change (malicious_nums p) with (malicious_nums (after_vote c p)). change (isReply p) with (isReply (after_vote c p)).
  change (requestPool p) with (requestPool (after_vote c p)). change (sequenceID p) with (sequenceID (after_vote c p)).
  generalize (after_vote c p). clear p. intros p.
  change (malicious_nums (record_in l p)) with (malicious_nums p). change (isReply (record_in l p)) with (isReply p).
  change (requestPool (record_in l p)) with (requestPool p). change (cntCommitConfirm (record_in l p)) with (cntCommitConfirm p).
  cbn [negb andb]. destruct (_ && _); cbn [andb]; [|by rewrite app_nil_r].
  destruct (requestPool p !! CDigest c) as [r|].
  - rewrite bool_decide_eq_true_2 by eauto. cbn [HandleinCommit recording_ops]. rewrite bare_record.
    destruct (HandleinCommit p now c) as [[[x out] b]|]; [|done]. cbn [mbind go_bind].
    match goal with |- context [round_end now (_ <| sequenceID ::= _ |>)] => idtac end.
    match goal with |- context [round_end now ?q] => match type of q with rnode =>
      change q with (record_in (l ++ [(sequenceID p, CDigest c)]) (p <| App := x |> <| isReply ::= λ s, {[CDigest c]} ∪ s |> <| sequenceID ::= λ s, u64 (s + 1) |>)) end end.
    rewrite round_end_record. by destruct (round_end now _).
  - rewrite bool_decide_eq_false_2 by (by intros []). cbn [option_list]. rewrite app_nil_r.
    change ((record_in l p) <| isReply ::= λ s, {[CDigest c]} ∪ s |>) with (record_in l (p <| isReply ::= λ s, {[CDigest c]} ∪ s |>)).
    generalize (p <| isReply ::= λ s, {[CDigest c]} ∪ s |>). clear p. intros p.
    change (askForLock (record_in l p)) with (askForLock p). destruct (askForLock p); [done|apply ask_record].
Qed.

Lemma learn_record b rs p l : foldl (learn_old b) (record_in l p) rs = record_in l (foldl (learn_old b) p rs).
Proof. revert p. induction rs as [|ir rs IH]; intros p; [done|]. exact (IH (learn_old b p ir)). Qed.

Lemma send_old_record m p l : handleSendOldSeq m (record_in l p) = lift l (handleSendOldSeq m p).
Proof.
  unfold handleSendOldSeq. cbn [HandleforSequentialRequest recording_ops]. rewrite bare_record.
  destruct (HandleforSequentialRequest p m) as [[[x out] b]|]; [|done]. cbn [mbind go_bind].
  change ((record_in l p) <| App := (x, (App (record_in l p)).2) |>) with (record_in l (p <| App := x |>)).
  rewrite learn_record. generalize (foldl (learn_old (SOSeqStartHeight m)) (p <| App := x |>) (imap pair (OldRequest m))). clear p x. intros p.
  change ((record_in l p) <| sequenceID := u64 (SOSeqEndHeight m + 1) |>) with (record_in l (p <| sequenceID := u64 (SOSeqEndHeight m + 1) |>)).
  generalize (p <| sequenceID := u64 (SOSeqEndHeight m + 1) |>). clear p. intros p.
  change (height2Digest (record_in l p)) with (height2Digest p). change (requestPool (record_in l p)) with (requestPool p).
  change (sequenceID (record_in l p)) with (sequenceID p).
  destruct (d ← height2Digest p !! sequenceID p; requestPool p !! d) as [r|]; cbn [mbind go_bind]; [|by commutes p].
  cbn [HandleinPrePrepare recording_ops]. rewrite bare_record. destruct (HandleinPrePrepare p _) as [[x []]|]; commutes p.
Qed.

Lemma old_requests_record p l hs : old_requests (record_in l p) hs = old_requests p hs.
Proof. induction hs as [|h hs IH]; [done|]. cbn [old_requests]. by rewrite IH. Qed.

Lemma message_record cv now clock m p l :
  handleMessage cv now clock m (record_in l p) =
    lift (l ++ option_list (executes p (EvMsg cv now clock m))) (handleMessage cv now clock m p).
Proof.
  unfold handleMessage.
  assert (handleOverhead m (record_in l p) = lift l <$> handleOverhead m p) as ->.
  { unfold handleOverhead, compact_ask. destruct (negb Overhead_Enabled); [done|]. destruct m; try done. cbn. by destruct (answer_missing _ _). }
  destruct (handleOverhead m p) as [o|] eqn:Eo.
  { assert (executes p (EvMsg cv now clock m) = None) as -> by (unfold handleOverhead in Eo; by destruct (negb _), m).
    cbn. by rewrite app_nil_r. }
  cbn [fmap option_fmap option_map].
  destruct m; try (rewrite app_nil_r; cbn [HandleMessageOutsidePBFT recording_outside]; rewrite bare_record; by destruct (HandleMessageOutsidePBFT p clock _) as [[]|]).
  all: try (by apply commit_record); cbn [executes option_list]; rewrite app_nil_r.
  - apply handlePrePrepare_record.
  - apply handlePrepare_record.
  - unfold handleRequestOldSeq. rewrite old_requests_record. cbn [HandleReqestforOldSeq recording_ops]. rewrite bare_record.
    destruct (HandleReqestforOldSeq p _) as [[x b]|]; commutes p.
  - apply send_old_record.
  - unfold handleViewChangeMsg, next_view. commutes p.
  - unfold handleNewViewMsg. commutes p.
  - done.
Qed.

Lemma step_record e p l : step (record_in l p) e = lift (l ++ option_list (executes p e)) (step p e).
Proof.
  destruct e; try (cbn [executes option_list]; rewrite app_nil_r); try by apply simple_record.
  - apply propose_send_record.
  - cbn [step]. unfold compact_deliver. change (overhead (record_in l p)) with (overhead p). destruct (rebuild (overhead p) cp) as [[pp|]|]; try done.
    apply handlePrePrepare_record.
  - apply message_record.
Qed.

Lemma recorded_from p l es : recorded (record_in l p) es = l ++ exec_log p es.
Proof.
  unfold exec_log. revert p l. induction es as [|e es IH]; intros p l; cbn [recorded]; [by rewrite app_nil_r|].
  rewrite !step_record. destruct (step p e) as [[[p' out]|]|]; cbn [lift]; [|by rewrite app_nil_r..].
  by rewrite IH, (IH p' ([] ++ _)), (assoc_L (++)).
Qed.

Lemma exec_log_cons p e es : exec_log p (e :: es) =
  match step p e with Ok (Some (p', _)) => option_list (executes p e) ++ exec_log p' es | _ => [] end.
Proof.
  unfold exec_log at 1. cbn [recorded]. rewrite step_record. destruct (step p e) as [[[p' out]|]|]; cbn [lift]; [|done..].
  by rewrite recorded_from.
Qed.
End recording.
