(* ===== verification/ProposeLoop.v ===== *)
(** * The pace of proposals (the goroutines of [Propose] in [messageHandle.go])

    One goroutine sleeps for the block interval, looks every 100 ms whether the stage is 1, and then
    offers a signal on an unbuffered channel; the main loop takes signals, each of which starts a
    goroutine that proposes ([Pbft.Propose_begin] and so on), until it receives the stop signal.  The
    first goroutine then keeps offering for ever.  Time is that of the events. *)
From S2P Require Import Prelude Utils Libs Core Messages Storage Chain MerkleProof Overhead Pbft.

(** The goroutine sleeps until [wake], then polls; [offering]: it waits for its signal to be taken. *)
Record pace := mkPace { wake : Time; offering : bool; returned : bool }.

Inductive pace_event :=
| PLook (stage : Z)
| PTake
| PStop.

(** [time.Duration(int64(BlockInterval)) * time.Millisecond] *)
Definition pause (interval : Z) : Z := i64 (i64 interval * 10 ^ 6).

Definition pace_start (interval : Z) (now : Time) : pace := mkPace (now + 5 * 10 ^ 9 + pause interval) false false.

(** [None]: the event cannot happen now.  The boolean says whether a proposal starts. *)
Definition pace_step (interval : Z) (now : Time) (s : pace) (e : pace_event) : option (pace * bool) :=
  match e with
  | PLook stage =>
      if offering s || (now <? wake s) then None
      else if stage =? 1 then Some (mkPace (wake s) true (returned s), false)
      else Some (mkPace (now + 100 * 10 ^ 6) false (returned s), false)
  | PTake =>
      if offering s && negb (returned s) then Some (mkPace (now + pause interval) false (returned s), true) else None
  | PStop => if returned s then None else Some (mkPace (wake s) (offering s) true, false)
  end.

(** The times at which proposals start; [None] if some event cannot happen. *)
Fixpoint rounds (interval : Z) (s : pace) (es : list (Time * pace_event)) : option (list Time) :=
  match es with
  | [] => Some []
  | (now, e) :: es =>
      r ← pace_step interval now s e;
      ts ← rounds interval r.1 es;
      Some (if (r.2 : bool) then now :: ts else ts)
  end.

(** ** Proposals keep their distance *)

(** After the last proposal at [t0]: the goroutine does not wake before the pause is over. *)
Definition rested (interval t0 now : Z) (s : pace) : Prop :=
  t0 + pause interval ≤ (if offering s then now else wake s).

Definition nondecreasing (es : list (Time * pace_event)) : Prop := Sorted Z.le es.*1.

Lemma rounds_rested interval es : ∀ s t0 now ts, 0 ≤ pause interval → rested interval t0 now s →
  Sorted Z.le (now :: es.*1) → rounds interval s es = Some ts →
  Sorted (λ t1 t2, t1 + pause interval ≤ t2) (t0 :: ts).
Proof.
  induction es as [|[t e] es IH]; intros s t0 now ts Hp Hr Hs Hts; cbn [rounds] in Hts.
  { injection Hts as <-. by repeat constructor. }
  apply bind_Some in Hts as ([s1 b] & Hstep & (ts1 & Hts & [= <-])%bind_Some).
  apply Sorted_inv in Hs as [Hs Hle%HdRel_inv]. cbn [fmap list_fmap fst] in *.
  destruct e as [stage| |]; cbn [pace_step] in Hstep.
  - destruct (offering s) eqn:Eo; [done|]. unfold rested in Hr. rewrite Eo in Hr. cbn [orb] in Hstep.
    destruct (t <? wake s) eqn:Ew; [done|]. zbool.
    destruct (stage =? 1); injection Hstep as <- <-; (eapply (IH _ _ t ts1 Hp); [|done|exact Hts]); unfold rested; cbn; lia.
  - destruct (offering s && negb (returned s)) eqn:Eo; [|done]. injection Hstep as <- <-.
    apply andb_true_iff in Eo as [Eo _]. unfold rested in Hr. rewrite Eo in Hr.
    constructor; [|constructor; lia]. eapply (IH _ _ t ts1 Hp); [|done|exact Hts]. unfold rested. cbn. lia.
  - destruct (returned s); [done|]. injection Hstep as <- <-. eapply (IH _ _ t ts1 Hp); [|done|exact Hts].
    unfold rested in *. cbn. destruct (offering s); lia.
Qed.

(** Once the main loop has returned no proposal starts. *)
Lemma returned_silent interval es : ∀ s ts, returned s = true → rounds interval s es = Some ts → ts = [].
Proof.
  induction es as [|[t e] es IH]; intros s ts Hr Hts; cbn [rounds] in Hts; [by injection Hts|].
  apply bind_Some in Hts as ([s1 b] & Hstep & (ts1 & Hts & [= <-])%bind_Some). destruct e as [stage| |]; cbn [pace_step] in Hstep.
  - destruct (_ || _); [done|]. destruct (stage =? 1); injection Hstep as <- <-; (eapply IH; [|exact Hts]; exact Hr).
  - rewrite Hr, andb_false_r in Hstep. done.
  - by rewrite Hr in Hstep.
Qed.

(** A node starts its first proposal at least five seconds and one block interval after the start,
    two proposals are at least one block interval apart, and none starts after the stop signal,
    however long the loop sleeps and whatever the stages it sees. *)
Theorem proposals_paced (interval t0 : Z) (es1 es2 : list (Time * pace_event)) (ts : list Time) (tstop : Time) :
  0 ≤ interval * 10 ^ 6 < 2 ^ 63 → Sorted Z.le (t0 :: es1.*1) →
  rounds interval (pace_start interval t0) (es1 ++ (tstop, PStop) :: es2) = Some ts →
  rounds interval (pace_start interval t0) es1 = Some ts ∧
  Sorted (λ t1 t2, t1 + interval * 10 ^ 6 ≤ t2) ((t0 + 5 * 10 ^ 9) :: ts).
Proof.
  intros Hi Hs Hr. assert (pause interval = interval * 10 ^ 6) as Ep.
  { unfold pause. rewrite (i64_small interval), i64_small by lia. done. }
  assert (rounds interval (pace_start interval t0) es1 = Some ts) as Hr1.
  { clear Hs. revert ts Hr. generalize (pace_start interval t0). induction es1 as [|[t e] es1 IH]; intros s ts Hr; cbn [app rounds] in *.
    - apply bind_Some in Hr as ([s1 b] & Hstep & (ts1 & Hts & [= <-])%bind_Some). cbn [pace_step] in Hstep.
      destruct (returned s); [done|]. injection Hstep as <- <-. by rewrite (returned_silent interval es2 (mkPace (wake s) (offering s) true) ts1 eq_refl Hts).
    - apply bind_Some in Hr as (r & -> & (ts1 & Hts & [= <-])%bind_Some). cbn. by rewrite (IH _ _ Hts). }
  split; [done|]. rewrite <-Ep. apply (rounds_rested interval es1 (pace_start interval t0) _ t0 ts); try done; [lia|].
  unfold rested, pace_start. cbn. lia.
Qed.

Lemma proposals_paced_witness :
  rounds 5000 (pace_start 5000 0) [(10 * 10 ^ 9, PLook 1); (10 * 10 ^ 9, PTake); (15 * 10 ^ 9, PLook 2); (16 * 10 ^ 9, PLook 1); (16 * 10 ^ 9, PTake)]
    = Some [10 * 10 ^ 9; 16 * 10 ^ 9].
Proof.
  destruct (proposals_paced 5000 0 [(10 * 10 ^ 9, PLook 1); (10 * 10 ^ 9, PTake); (15 * 10 ^ 9, PLook 2); (16 * 10 ^ 9, PLook 1); (16 * 10 ^ 9, PTake)]
    [] [10 * 10 ^ 9; 16 * 10 ^ 9] (17 * 10 ^ 9)) as [E _]; [lia| |vm_compute; reflexivity|exact E].
  repeat constructor; cbn; lia.
Defined.
