(* ===== verification/Recovery.v ===== *)
(** * Recovering a compact proposal ([handleCompactProposal])

    A follower that receives a compact proposal asks the leader for the bodies it lacks, then
    looks for the bodies one after the other, sleeping while one is missing, until a deadline.
    Batches of bodies arrive in the meantime, from the stream of the leader and from its answer.
    Here the loop is a machine with one step per look; [Overhead.rebuild] is its result on a
    cache that does not change.  The queue between [streamTransactions] and the worker that
    [initOverhead] starts is modelled as well. *)
From S2P Require Import Prelude Utils Libs Core Messages Storage Chain MerkleProof Overhead Pbft.

Section recovery.
Context `{Params, BitSetLib, CryptoLib, !Codec Request, !Codec Transaction, !Codec BlockHeader, !Codec Block}.

(** The bodies found so far, or the proposal that is passed to [handlePrePrepare]. *)
Inductive rec_state := RWait (body : list Transaction) | RDone (pp : PrePrepare).

(** After the loop: the block is put together and its digest checked. *)
Definition finish (cp : compactProposal) (body : list Transaction) : go PrePrepare :=
  bh ← DecodeBH (CPHeader cp);
  let block := (NewBlock bh body) <| Hash := CPHash cp |> in
  let req := (RequestMsg (Proposal cp)) <| Content := Encode block |> in
  if negb (bool_decide (getDigest req = PPDigest (Proposal cp)))
  then Panic "compact reconstruction digest mismatch"
  else Ok ((Proposal cp) <| RequestMsg := req |>).

(** [time.Now().Add(TimeoutSeconds * time.Second)] *)
Definition rec_deadline (start : Time) (TimeoutSeconds : Z) : Time := start + TimeoutSeconds * 10 ^ 9.

(** One look at the cache. *)
Definition rec_look (cp : compactProposal) (deadline now : Time) (c : gmap string bytes) (st : rec_state) : go rec_state :=
  match st with
  | RDone _ => Ok st
  | RWait body =>
      match Keys cp !! length body with
      | None => pp ← finish cp body; Ok (RDone pp)
      | Some k =>
          match c !! k with
          | Some encoded => tx ← DecodeTx encoded; Ok (RWait (body ++ [tx]))
          | None => if deadline <? now then Panic "compact proposal recovery timed out" else Ok st
          end
      end
  end.

(** The follower: bodies arrive, and the goroutine looks. *)
Inductive rec_event := RBodies (bodies : list bytes) | RLook (now : Time).

Definition rec_step (cp : compactProposal) (deadline : Time) (s : gmap string bytes * rec_state) (e : rec_event)
    : go (gmap string bytes * rec_state) :=
  match e with
  | RBodies bodies => Ok (cacheBodies bodies s.1, s.2)
  | RLook now => st ← rec_look cp deadline now s.1 s.2; Ok (s.1, st)
  end.

Definition rec_run (cp : compactProposal) (deadline : Time) (c : gmap string bytes) (es : list rec_event)
    : go (gmap string bytes * rec_state) := go_fold (rec_step cp deadline) (c, RWait []) es.

(** ** The stream of bodies *)

(** [stream] is a channel of 128 batches: a sender waits while it is full ([None]). *)
Definition stream_send (batch : list bytes) (q : list (list bytes)) : option (list (list bytes)) :=
  if 128 <=? len q then None else Some (q ++ [batch]).

(** The worker takes the oldest batch and sends it to the other replicas in order of their numbers. *)
Definition stream_targets {X} (p : PbftConsensusNode X) : list Z :=
  List.filter (λ n, negb (n =? PNodeID p) && negb (n =? Overhead_StreamSkipNode)) (heights 0 (node_nums p - 1)).
Definition stream_worker {X} (p : PbftConsensusNode X) (q : list (list bytes)) : option (list (list bytes) * list packet) :=
  match q with
  | [] => None
  | batch :: q => Some (q, (λ n, (ip_of p (PShardID p) n, MOHStream batch)) <$> stream_targets p)
  end.

Inductive stream_event := StSend (batch : list bytes) | StWork.
(** The batches taken into the queue, the queue and the packets; a step that has to wait is not taken. *)
Definition stream_step {X} (p : PbftConsensusNode X) (s : list (list bytes) * list (list bytes) * list packet) (e : stream_event)
    : list (list bytes) * list (list bytes) * list packet :=
  let '(taken, q, out) := s in
  match e with
  | StSend batch => match stream_send batch q with Some q' => (taken ++ [batch], q', out) | None => s end
  | StWork => match stream_worker p q with Some (q', pk) => (taken, q', out ++ pk) | None => s end
  end.
Definition stream_run {X} (p : PbftConsensusNode X) (es : list stream_event) := foldl (stream_step p) ([], [], []) es.
End recovery.
