(* ===== verification/RecoveryFacts.v ===== *)
(** * Properties of the recovery of compact proposals

    Whatever bodies arrive and whenever the follower looks, it never builds another proposal than
    the leader's; once the leader's answer is there it finishes. *)
From S2P Require Import Prelude Utils Libs Core Messages Storage Chain MerkleProof Overhead Pbft Recovery.

Section facts.
Context `{Params, BitSetLib, CryptoLib, !Codec Request, !Codec Transaction, !Codec BlockHeader, !Codec Block}.
Context `{!CodecLaws Transaction, !CodecLaws BlockHeader, !CodecLaws Block, !CollisionFree}.

(** What the keys of a cache are after bodies arrived. *)
Lemma cacheBodies_keys bodies : ∀ c k, is_Some (cacheBodies bodies c !! k) ↔ k ∈ bodyKey <$> bodies ∨ is_Some (c !! k).
Proof.
  induction bodies as [|b bodies IH]; intros c k; [cbn; rewrite elem_of_nil; tauto|]. cbn [fmap list_fmap]. rewrite elem_of_cons.
  change (cacheBodies (b :: bodies) c) with (cacheBodies bodies (<[bodyKey b := b]> c)). rewrite IH, lookup_insert_is_Some'. naive_solver.
Qed.

(** The result on a cache that does not change. *)
Lemma rebuild_finish c cp encs : mapM (λ k, c !! k) (Keys cp) = Some encs →
  rebuild c cp = (body ← go_fold (λ acc e, tx ← DecodeTx e; Ok (acc ++ [tx])) [] encs; pp ← finish cp body; Ok (Some pp)).
Proof.
  intros E. unfold rebuild, finish. rewrite E. destruct (go_fold _ [] encs); [|done]. cbn [mbind go_bind].
  destruct (DecodeBH _); [|done]. cbn [mbind go_bind]. by destruct (negb _).
Qed.

Section proposal.
Context (pp : PrePrepare) (block : Block) (cp : compactProposal) (deadline : Time).
Hypothesis keys : Keys cp = bodyKey <$> (Encode <$> Body block).
Hypothesis whole : finish cp (Body block) = Ok pp.

(** Every body of the block is in the cache. *)
Definition complete (c : gmap string bytes) : Prop := ∀ k, k ∈ Keys cp → is_Some (c !! k).

Definition rec_ok (s : gmap string bytes * rec_state) : Prop :=
  cache_ok s.1 ∧ match s.2 with RWait body => ∃ rest, Body block = body ++ rest | RDone pp' => pp' = pp end.

(** The looks that are left. *)
Definition remaining (st : rec_state) : nat :=
  match st with RWait body => S (length (Body block) - length body) | RDone _ => 0 end.

(** A look finds the next body of the block, or finishes with the proposal, or waits. *)
Lemma look_cases now c st : rec_ok (c, st) →
  match rec_look cp deadline now c st with
  | Ok st' => rec_ok (c, st') ∧ (remaining st' = pred (remaining st) ∨ st' = st ∧ ¬ complete c)
  | Panic _ => deadline < now ∧ ¬ complete c
  end.
Proof.
  intros [Hc Hst]. cbn in Hc, Hst. unfold rec_look. destruct st as [body|pp']; [|by split; [|left]].
  destruct Hst as [rest Hb]. rewrite keys, list_lookup_fmap, list_lookup_fmap, Hb. destruct rest as [|tx rest].
  - rewrite app_nil_r, lookup_ge_None_2 by done. cbn. rewrite <-(app_nil_r body), <-Hb, whole. cbn [mbind go_bind].
    split; [by split|]. left. cbn. rewrite Hb, app_nil_r. lia.
  - rewrite list_lookup_middle by done. cbn. destruct (c !! bodyKey (Encode tx)) as [v|] eqn:Ev.
    + rewrite (cache_lookup c _ v Hc Ev). change (DecodeTx (Encode tx)) with (MustDecode (A := Transaction) (Encode tx)).
      rewrite must_decode_encode. cbn [mbind go_bind]. split; [split; [done|]|left].
      * exists rest. cbn. by rewrite Hb, <-(assoc_L (++)).
      * cbn. rewrite Hb, !length_app. cbn. lia.
    + assert (¬ complete c) as Hn.
      { intros Hcomp. destruct (Hcomp (bodyKey (Encode tx))) as [v Hv]; [|congruence]. rewrite keys, Hb, !fmap_app. set_solver. }
      destruct (Z.ltb_spec deadline now); [done|]. split; [|by right]. split; [done|]. by exists (tx :: rest).
Qed.

Lemma step_rec_ok s e s' : rec_ok s → rec_step cp deadline s e = Ok s' → rec_ok s'.
Proof.
  destruct s as [c st]. intros Hs. destruct e as [bodies|now]; cbn.
  - intros [= <-]. destruct Hs as [Hc Hst]. split; [by apply cacheBodies_ok|done].
  - pose proof (look_cases now c st Hs) as Hl. destruct (rec_look _ _ _ _ _) as [st'|]; [|done]. intros [= <-]. by destruct Hl.
Qed.

Lemma run_rec_ok es : ∀ s s', rec_ok s → go_fold (rec_step cp deadline) s es = Ok s' → rec_ok s'.
Proof.
  induction es as [|e es IH]; intros s s' Hs; cbn [go_fold]; [by intros [= <-]|].
  intros (s1 & E & E')%go_bind_inv. eapply IH; [|exact E']. by eapply step_rec_ok.
Qed.

(** Looks in time do not fail, and the keys of the cache only grow. *)
Definition in_time (e : rec_event) : Prop := match e with RLook now => now ≤ deadline | RBodies _ => True end.

Lemma run_in_time es : ∀ c st, rec_ok (c, st) → Forall in_time es →
  ∃ c' st', go_fold (rec_step cp deadline) (c, st) es = Ok (c', st') ∧ rec_ok (c', st') ∧
    ∀ k, is_Some (c !! k) → is_Some (c' !! k).
Proof.
  induction es as [|e es IH]; intros c st Hs Ht; [by exists c, st|]. apply Forall_cons in Ht as [He Ht]. cbn [go_fold].
  destruct e as [bodies|now]; cbn [rec_step fst snd mbind go_bind].
  - destruct (IH (cacheBodies bodies c) st) as (c' & st' & E & Hr & Hk); [by eapply (step_rec_ok (c, st) (RBodies bodies))|done|].
    exists c', st'. split_and!; [done|done|]. intros k Hi. apply Hk, cacheBodies_keys. by right.
  - pose proof (look_cases now c st Hs) as Hl. destruct (rec_look _ _ _ _ _) as [st1|]; [|destruct Hl; cbn in He; lia].
    cbn [mbind go_bind]. by apply IH; [destruct Hl|].
Qed.

(** On a complete cache every look counts. *)
Definition looks (es : list rec_event) : nat := length (List.filter (λ e, match e with RLook _ => true | _ => false end) es).

Lemma run_complete es : ∀ c st, rec_ok (c, st) → complete c → (remaining st ≤ looks es)%nat →
  ∃ c', go_fold (rec_step cp deadline) (c, st) es = Ok (c', RDone pp).
Proof.
  induction es as [|e es IH]; intros c st Hs Hc Hr.
  - destruct st as [body|pp']; [cbn in Hr; lia|]. destruct Hs as [_ Hp]. cbn in Hp. subst pp'. by exists c.
  - cbn [go_fold]. destruct e as [bodies|now]; cbn [rec_step fst snd mbind go_bind].
    + apply IH; [by eapply (step_rec_ok (c, st) (RBodies bodies))| |exact Hr].
      intros k Hk. apply cacheBodies_keys. right. by apply Hc.
    + pose proof (look_cases now c st Hs) as Hl. destruct (rec_look _ _ _ _ _) as [st1|]; [|by destruct Hl].
      cbn [mbind go_bind]. destruct Hl as [Hs1 [Hm|[_ Hn]]]; [|done]. apply IH; [done|done|]. cbn in Hr. unfold looks in *. cbn in Hr. lia.
Qed.
End proposal.

(** The compact form of a proposal: its keys, and what its block is put together to. *)
Lemma compact_shape leader pp block cl : Overhead_Enabled = true → Overhead_Lightweight = true →
  RequestType (RequestMsg pp) = BlockRequest → Content (RequestMsg pp) = Encode block →
  PPDigest pp = getDigest (RequestMsg pp) → cache_ok cl →
  ∃ cl' cp, encodeProposal leader pp cl = Ok (cl', MOHCompact cp) ∧ cache_ok cl' ∧
    Keys cp = bodyKey <$> (Encode <$> Body block) ∧ finish cp (Body block) = Ok pp ∧ ∀ k, k ∈ Keys cp → is_Some (cl' !! k).
Proof.
  intros He Hl Hbr Hc Hd Hcl. unfold encodeProposal. rewrite He, Hl, bool_decide_eq_true_2 by done. cbn [andb]. unfold compact_of.
  rewrite Hc. replace (DecodeB (Encode block)) with (Ok block) by (symmetry; apply must_decode_encode). cbn [mbind go_bind].
  eexists _, _. split; [done|]. split; [by apply cacheBodies_ok|]. split; [done|]. split.
  - unfold finish. cbn [CPHeader CPHash Proposal].
    replace (DecodeBH (Encode (Header block))) with (Ok (Header block)) by (symmetry; apply must_decode_encode).
    cbn [mbind go_bind]. destruct pp as [[rt rc rtime] dg sq], block as [bh bb hash]. cbn in *. subst. by rewrite bool_decide_eq_true_2.
  - intros k Hk. apply cacheBodies_keys. by left.
Qed.

(** The leader's answer completes every cache that has grown from the one that was asked for. *)
Lemma answer_completes cl' cf c cp reply : cache_ok cl' → (∀ k, k ∈ Keys cp → is_Some (cl' !! k)) →
  (∀ k, is_Some (cf !! k) → is_Some (c !! k)) →
  ∃ bodies, answer_missing cl' (mkMissingBodies (missing_keys cf (Keys cp)) reply) = Ok bodies ∧ complete cp (cacheBodies bodies c).
Proof.
  intros Hcl Hall Hgrow. destruct (answer_spec cl' (missing_keys cf (Keys cp)) reply) as (bodies & Ha & Hm).
  { intros k [Hk _]%list_elem_of_In%filter_In. by apply Hall, list_elem_of_In. }
  exists bodies. split; [done|]. intros k Hk. apply cacheBodies_keys. destruct (cf !! k) as [v|] eqn:Ev; [right; apply Hgrow; by eexists|].
  left. assert (k ∈ missing_keys cf (Keys cp)) as Hi.
  { apply list_elem_of_In, filter_In. rewrite <-list_elem_of_In. split; [done|]. by rewrite bool_decide_eq_true_2. }
  apply mapM_Some_1 in Hm. apply list_elem_of_lookup in Hi as [i Hi]. destruct (Forall2_lookup_l _ _ _ _ _ Hm Hi) as (v & Hv & Hkv).
  rewrite (Hcl k v Hkv). apply list_elem_of_fmap_2. by eapply list_elem_of_lookup_2.
Qed.

(** C24: compact proposals are recovered.  The leader encodes a block proposal, and can answer the
    request of a follower that lacks any of the bodies.  Whatever bodies arrive at the follower
    and whenever it looks, it never delivers another proposal than the leader's, and what it has
    put together is the beginning of the block.  If the answer arrives before the follower looks
    past its deadline, then one look per body and one more, at any times, make it deliver exactly
    the leader's proposal, without a time-out or a digest mismatch. *)
Theorem compact_recovery (leader reply : string) (pp : PrePrepare) (block : Block) (cl cf : gmap string bytes) (deadline : Time) :
  Overhead_Enabled = true → Overhead_Lightweight = true →
  RequestType (RequestMsg pp) = BlockRequest → Content (RequestMsg pp) = Encode block →
  PPDigest pp = getDigest (RequestMsg pp) → cache_ok cl → cache_ok cf →
  ∃ cl' cp bodies, encodeProposal leader pp cl = Ok (cl', MOHCompact cp) ∧
    answer_missing cl' (mkMissingBodies (missing_keys cf (Keys cp)) reply) = Ok bodies ∧
    (∀ es c st, rec_run cp deadline cf es = Ok (c, st) →
       match st with RDone pp' => pp' = pp | RWait body => ∃ rest, Body block = body ++ rest end) ∧
    (∀ es1 es2, Forall (in_time deadline) es1 → (length (Body block) < looks es2)%nat →
       ∃ c, rec_run cp deadline cf (es1 ++ RBodies bodies :: es2) = Ok (c, RDone pp)).
Proof.
  intros He Hl Hbr Hc Hd Hcl Hcf. destruct (compact_shape leader pp block cl He Hl Hbr Hc Hd Hcl) as (cl' & cp & E & Hcl' & Hk & Hw & Hall).
  assert (rec_ok pp block (cf, RWait [])) as Hinit by (split; [done|]; by exists (Body block)).
  destruct (answer_completes cl' cf cf cp reply Hcl' Hall (λ _ Hx, Hx)) as (bodies & Ha & _).
  exists cl', cp, bodies. split_and!; [done|done| |].
  - intros es c st Hr. by destruct (run_rec_ok pp block cp deadline Hk Hw es _ _ Hinit Hr).
  - intros es1 es2 Ht Hn. destruct (run_in_time pp block cp deadline Hk Hw es1 cf _ Hinit Ht) as (c1 & st1 & E1 & Hs1 & Hg).
    destruct (answer_completes cl' cf c1 cp reply Hcl' Hall Hg) as (bodies' & Ha' & Hcomp).
    rewrite Ha in Ha'. injection Ha' as <-. unfold rec_run. rewrite go_fold_app, E1. cbn [mbind go_bind go_fold rec_step fst snd].
    apply (run_complete pp block cp deadline Hk Hw); [|done|].
    + by eapply (step_rec_ok pp block cp deadline Hk Hw (c1, st1) (RBodies bodies)).
    + destruct st1; cbn; lia.
Qed.

(** The stream keeps the order of the batches: what was taken into the queue is what was sent to
    every other replica, followed by what is still queued, at most 128 batches. *)
Theorem stream_order {X} (p : PbftConsensusNode X) es : let '(taken, q, out) := stream_run p es in
  len q ≤ 128 ∧ ∃ sent, taken = sent ++ q ∧
    out = concat ((λ batch, (λ n, (ip_of p (PShardID p) n, MOHStream batch)) <$> stream_targets p) <$> sent).
Proof.
  unfold stream_run. induction es as [|e es IH] using rev_ind; [split; [unfold len; cbn; lia|by exists []]|].
  rewrite foldl_app. cbn [foldl]. destruct (foldl _ _ es) as [[taken q] out]. destruct IH as (Hq & sent & -> & ->).
  destruct e as [batch|]; cbn [stream_step].
  - unfold stream_send. destruct (Z.leb_spec 128 (len q)); [by split; [|exists sent]|]. split; [rewrite len_app; unfold len; cbn; unfold len in *; lia|].
    exists sent. by rewrite (assoc_L (++)).
  - destruct q as [|batch q]; [by split; [|exists sent]|]. cbn [stream_worker]. split; [unfold len in *; cbn in *; lia|].
    exists (sent ++ [batch]). rewrite <-(assoc_L (++)), fmap_app, concat_app. split; [done|]. cbn. by rewrite app_nil_r.
Qed.
End facts.

(** ** Witness *)
Module RecoveryExample.
Import ConcreteLibs ConcreteCore OverheadExample.
#[local] Existing Instance light_params.

Lemma compact_recovery_witness :
  ∃ cl' cp bodies, encodeProposal "ip0" pp1 ∅ = Ok (cl', MOHCompact cp) ∧
    answer_missing cl' (mkMissingBodies (missing_keys ∅ (Keys cp)) "ip1") = Ok bodies ∧
    ∃ c, rec_run cp 10 ∅ [RLook 1; RLook 9; RBodies bodies; RLook 11; RLook 12] = Ok (c, RDone pp1).
Proof.
  destruct (compact_recovery "ip0" "ip1" pp1 block1 ∅ ∅ 10) as (cl' & cp & bodies & E & Ha & _ & Hr); try done.
  exists cl', cp, bodies. split; [exact E|]. split; [exact Ha|]. apply (Hr [RLook 1; RLook 9] [RLook 11; RLook 12]).
  - repeat constructor; cbn; lia.
  - cbn. lia.
Defined.
End RecoveryExample.
