(* ===== verification/PbftFacts.v ===== *)
(** * Properties of the PBFT node

    Invariants of every run of a node, whatever the order of its messages, proposals and
    time-outs; the progress of a round; quorums; and the behaviours of the handlers that a
    reader of the protocol would not expect. *)
From S2P Require Import Prelude Utils Libs Core Messages Storage Chain MerkleProof Overhead Pbft PbftRecord.

(** Unfold a handler that has returned and split its tests. *)
Ltac handler :=
  repeat match goal with
  | Hs : Ok _ = Ok _ |- _ => injection Hs as Hs
  | Hs : Some _ = Some _ |- _ => injection Hs as Hs
  | Hs : (_, _) = (_, _) |- _ => injection Hs as Hs
  | Hs : Ok _ = Panic _ |- _ => discriminate Hs
  | Hs : Panic _ = Ok _ |- _ => discriminate Hs
  | Hs : None = Some _ |- _ => discriminate Hs
  | Hs : ?a ≫= _ = Ok _ |- _ =>
      let y := fresh "y" in apply go_bind_inv in Hs as (y & ? & Hs)
  | Hs : (let '(_, _) := ?y in _) = Ok _ |- _ => destruct y
  | Hs : (if ?b then _ else _) = Ok _ |- _ => let E := fresh "E" in destruct b eqn:E
  | Hs : match ?o with Some _ => _ | None => _ end = Ok _ |- _ =>
      let E := fresh "E" in destruct o eqn:E
  end; try subst.

Section facts.
Context `{Params, BitSetLib, CryptoLib, !Codec Request, !Codec Transaction, !Codec BlockHeader,
          !Codec Block}.
Context {X : Type} `{!ExtraOpInConsensus X, !OpInterShards X}.
Abbreviation pnode := (PbftConsensusNode X).

(** The promise of the inter-shard module to the consensus: it changes the body cache, the
    sequence numbers of the other shards and its own data only. *)
Class OpInterShardsLaws : Prop := {
  outside_frame (p p' : pnode) clock m out :
    HandleMessageOutsidePBFT p clock m = Ok (p', out) →
    p' = p <| overhead := overhead p' |> <| seqIDMap := seqIDMap p' |> <| App := App p' |>;
}.
Lemma exec_run es (p p' : PbftConsensusNode X) outs : exec p es = Some (outs, p') → run p es outs p'.
Proof.
  revert p outs. induction es as [|e es IH]; intros p outs; cbn [exec].
  - intros [= <- <-]. constructor.
  - destruct (step p e) as [[[p1 out]|]|] eqn:Es; try done.
    destruct (exec p1 es) as [[o2 p2]|] eqn:Ee; [|done]. cbn. intros [= <- <-].
    econstructor; [exact Es|by apply IH].
Qed.

Context `{!OpInterShardsLaws}.

(** ** Votes *)
Definition voter_ids (l : list Node) : list (Z * Z) := (λ n, (NodeID n, NShardID n)) <$> l.

Lemma add_voter_nodup l v : NoDup (voter_ids l) → NoDup (voter_ids (add_voter l v)).
Proof.
  intros Hnd. unfold add_voter. destruct (existsb _ l) eqn:E; [done|].
  unfold voter_ids. rewrite fmap_app. apply NoDup_app. split; [done|]. split; [|apply NoDup_singleton].
  intros x (n & -> & Hn)%list_elem_of_fmap Hx. apply list_elem_of_singleton in Hx.
  injection Hx as H1' H2'. assert (existsb (λ e, (NodeID e =? NodeID v) && (NShardID e =? NShardID v)) l = true) as Hc;
    [|congruence].
  apply existsb_exists. exists n. rewrite <-list_elem_of_In. split; [done|].
  by rewrite H1', H2', !Z.eqb_refl.
Qed.

Definition distinct_votes (m : gmap bytes (list Node)) : Prop :=
  ∀ d l, m !! d = Some l → NoDup (voter_ids l).

Lemma distinct_add m d v :
  distinct_votes m → distinct_votes (<[d := add_voter (default [] (m !! d)) v]> m).
Proof.
  intros Hm d' l. rewrite lookup_insert. case_decide as Hd; [|apply Hm].
  intros [= <-]. apply add_voter_nodup. destruct (m !! d) eqn:E; cbn; [by eapply Hm|constructor].
Qed.

Definition votes_ok (p : pnode) : Prop :=
  distinct_votes (cntPrepareConfirm p) ∧ distinct_votes (cntCommitConfirm p).

(** ** The effect of a step on the consensus fields *)

(** The fields that only the commit, catch-up and view-change handlers write. *)
Record quiet (p p' : pnode) : Prop := {
  q_seq : sequenceID p' = sequenceID p;
  q_view : view p' = view p;
  q_reply : isReply p' = isReply p;
  q_commit : cntCommitConfirm p' = cntCommitConfirm p;
  q_f : malicious_nums p' = malicious_nums p;
  q_prep : distinct_votes (cntPrepareConfirm p) → distinct_votes (cntPrepareConfirm p');
}.

Lemma quiet_refl p : quiet p p.
Proof. by split. Qed.

Lemma preprepare_quiet cv m p p' out :
  handlePrePrepare cv m p = Ok (Some (p', out)) → quiet p p'.
Proof. unfold handlePrePrepare. intros Hs. handler; by split. Qed.

Lemma prepare_quiet cv m p p' out :
  handlePrepare cv m p = Ok (Some (p', out)) → quiet p p'.
Proof.
  unfold handlePrepare, set2DMap. intros Hs. handler; split; try done; apply distinct_add.
Qed.

Lemma propose_quiet e p p' out :
  match e with EvMsg _ _ _ _ => False | _ => True end →
  step p e = Ok (Some (p', out)) → quiet p p'.
Proof.
  destruct e; intros Hk; try done; cbn [step]; intros Hs.
  - unfold Propose_begin in Hs. handler; by split.
  - unfold Propose_send in Hs. handler; by split.
  - unfold Propose_end in Hs. handler. case_match; by split.
  - unfold handleCommit_resume, ask_old, round_end in Hs. handler; by split.
  - unfold view_change_check, viewChangePropose in Hs. handler; by split.
  - unfold compact_deliver in Hs. handler. by eapply preprepare_quiet.
Qed.

Lemma outside_quiet p clock m p' out :
  HandleMessageOutsidePBFT p clock m = Ok (p', out) → quiet p p'.
Proof. intros E%outside_frame. rewrite E. by split. Qed.

Lemma overhead_quiet m p o p' out :
  handleOverhead m p = Some o → o = Ok (Some (p', out)) → quiet p p'.
Proof.
  unfold handleOverhead, compact_ask. destruct (negb Overhead_Enabled); [done|].
  destruct m; intros [= <-] Hs; handler; by split.
Qed.

(** The messages that may move the sequence number, the view or the replies. *)
Definition moving (m : Msg) : bool :=
  match m with MCommit _ | MNewView _ | MSendOld _ => true | _ => false end.

Lemma overhead_not_moving m (p : pnode) : moving m = true → handleOverhead m p = None.
Proof. unfold handleOverhead. destruct m; try done; by case_match. Qed.

Lemma message_quiet cv now clock m p p' out :
  moving m = false → handleMessage cv now clock m p = Ok (Some (p', out)) → quiet p p'.
Proof.
  intros Hm. unfold handleMessage.
  destruct (handleOverhead m p) as [o|] eqn:E; [by eapply overhead_quiet|].
  destruct m; try done; intros Hs; try (by handler; eapply outside_quiet).
  - by eapply preprepare_quiet.
  - by eapply prepare_quiet.
  - unfold handleRequestOldSeq in Hs. handler; by split.
  - unfold handleViewChangeMsg in Hs. handler; by split.
  - handler; by split.
Qed.

(** The commit handler: either it waits, or nothing changes but the vote, or it asks for old
    requests or blocks when it has to, or the round ends by executing the request. *)
Lemma commit_effect cv now c (p p' : pnode) out :
  handleCommit cv now c p = Ok (Some (p', out)) →
  view p' = view p ∧ malicious_nums p' = malicious_nums p ∧
  cntPrepareConfirm p' = cntPrepareConfirm p ∧
  (distinct_votes (cntCommitConfirm p) → distinct_votes (cntCommitConfirm p')) ∧
  isReply p ⊆ isReply p' ∧
  if commit_fires cv c p then
    CDigest c ∉ isReply p ∧ CDigest c ∈ isReply p' ∧
    cntCommitConfirm p' = cntCommitConfirm (after_vote c p) ∧
    u64 (2 * malicious_nums p + 1) ≤ len (commit_votes c p) ∧
    if bool_decide (is_Some (requestPool p !! CDigest c))
    then sequenceID p' = u64 (sequenceID p + 1) ∧ pbftStage p' = 1 else sequenceID p' = sequenceID p
  else sequenceID p' = sequenceID p ∧ isReply p' = isReply p.
Proof.
  unfold handleCommit, ask_old, commit_fires, commit_votes, after_vote, round_end. intros Hs.
  destruct (waits 3 (CSeqID c) cv p); [done|].
  destruct (stale (CSeqID c) cv p); [handler; done|].
  set (p1 := set2DMap false (CDigest c) (CSenderNode c) p) in *.
  assert (distinct_votes (cntCommitConfirm p) → distinct_votes (cntCommitConfirm p1)) as Hd
    by apply distinct_add.
  change (malicious_nums p1) with (malicious_nums p) in Hs.
  change (isReply p1) with (isReply p) in Hs. change (requestPool p1) with (requestPool p) in Hs.
  cbn [negb andb].
  destruct (u64 (2 * malicious_nums p + 1) <=? len (default [] (cntCommitConfirm p1 !! CDigest c)))
    eqn:Eq; cbn [negb andb] in *; [|handler; done].
  destruct (bool_decide (CDigest c ∈ isReply p)) eqn:Er; cbn [negb andb] in *; [handler; done|].
  apply bool_decide_eq_false in Er. apply Z.leb_le in Eq.
  destruct (requestPool p !! CDigest c) as [r|] eqn:Ep; cbn [is_Some_dec bool_decide decide].
  - handler; cbn; repeat (split; [first [done | exact Hd | set_solver]|]); try done;
      rewrite bool_decide_eq_true_2 by eauto; done.
  - handler; cbn; repeat (split; [first [done | exact Hd | set_solver]|]); try done;
      rewrite bool_decide_eq_false_2 by (by intros []); done.
Qed.

Lemma learn_old_fields b rs (p : pnode) :
  let p' := foldl (learn_old b) p rs in
  cntPrepareConfirm p' = cntPrepareConfirm p ∧ cntCommitConfirm p' = cntCommitConfirm p ∧
  isReply p ⊆ isReply p' ∧ malicious_nums p' = malicious_nums p ∧ view p' = view p ∧
  askForLock p' = askForLock p ∧ App p' = App p.
Proof.
  revert p; induction rs as [|ir rs IH]; intros p; cbn [foldl]; [done|].
  destruct (IH (learn_old b p ir)) as (-> & -> & Hs & -> & -> & -> & ->). cbn.
  repeat (split; [done|]). split; [|done]. cbn in Hs. set_solver.
Qed.

Lemma send_old_effect m (p p' : pnode) out :
  handleSendOldSeq m p = Ok (Some (p', out)) →
  sequenceID p' = u64 (SOSeqEndHeight m + 1) ∧ view p' = view p ∧
  malicious_nums p' = malicious_nums p ∧
  cntPrepareConfirm p' = cntPrepareConfirm p ∧ cntCommitConfirm p' = cntCommitConfirm p ∧
  isReply p ⊆ isReply p'.
Proof.
  unfold handleSendOldSeq. intros Hs. apply go_bind_inv in Hs as ([[x o] fl] & _ & Hs).
  cbv zeta in Hs.
  pose proof (learn_old_fields (SOSeqStartHeight m) (imap pair (OldRequest m)) (p <| App := x |>))
    as Hf. cbv zeta in Hf. set (p1 := foldl _ _ _) in *.
  destruct Hf as (E1 & E2 & E3 & E4 & E5 & E6 & E7). cbn in E1, E2, E3, E4, E5.
  handler; cbn; auto 10.
Qed.

(** Every step keeps the voters distinct, and replies are never forgotten. *)
Lemma step_invariant (p p' : pnode) e out :
  step p e = Ok (Some (p', out)) →
  (votes_ok p → votes_ok p') ∧ isReply p ⊆ isReply p' ∧ malicious_nums p' = malicious_nums p.
Proof.
  intros Hs. unfold votes_ok.
  assert (quiet p p' → (distinct_votes (cntPrepareConfirm p) ∧ distinct_votes (cntCommitConfirm p) →
    distinct_votes (cntPrepareConfirm p') ∧ distinct_votes (cntCommitConfirm p')) ∧
    isReply p ⊆ isReply p' ∧ malicious_nums p' = malicious_nums p) as Hq.
  { intros [_ _ -> -> -> Hp]. split; [|done]. intros [? ?]. auto. }
  destruct e as [| | | | | |cv now clock m]; try (by apply Hq; eapply propose_quiet; [|exact Hs]).
  cbn [step] in Hs. destruct (moving m) eqn:Em; [|by apply Hq; eapply message_quiet].
  unfold handleMessage in Hs. rewrite overhead_not_moving in Hs by done.
  destruct m; try done.
  - apply commit_effect in Hs as (_ & Hf & -> & Hd & Hr & _). split; [|done].
    intros [? ?]. auto.
  - apply send_old_effect in Hs as (_ & _ & Hf & -> & -> & Hr). done.
  - unfold handleNewViewMsg in Hs. handler; done.
Qed.

Lemma executes_effect (p p' : pnode) e out s d :
  step p e = Ok (Some (p', out)) → executes p e = Some (s, d) →
  s = sequenceID p ∧ sequenceID p' = u64 (s + 1) ∧ pbftStage p' = 1 ∧
  d ∉ isReply p ∧ d ∈ isReply p' ∧ is_Some (requestPool p !! d) ∧
  ∃ voters, cntCommitConfirm p' !! d = Some voters ∧ u64 (2 * malicious_nums p + 1) ≤ len voters.
Proof.
  intros Hs He. destruct e as [| | | | | |cv now clock m]; try done.
  destruct m as [| |c| | | | | | | | | | | | | | | | | | | |]; try done. cbn [executes] in He.
  destruct (commit_fires cv c p) eqn:Ef; [|done]. cbn [andb] in He.
  destruct (bool_decide (is_Some (requestPool p !! CDigest c))) eqn:Ep; [|done].
  apply bool_decide_eq_true in Ep. injection He as <- <-.
  cbn [step] in Hs. unfold handleMessage in Hs. rewrite overhead_not_moving in Hs by done.
  apply commit_effect in Hs as (_ & _ & _ & _ & _ & Hrest). rewrite Ef in Hrest.
  destruct Hrest as (? & ? & Hc & Hq & Hseq). rewrite bool_decide_eq_true_2 in Hseq by done. destruct Hseq.
  repeat (split; [done|]). exists (commit_votes c p). split; [|done].
  rewrite Hc. unfold commit_votes, after_vote, set2DMap. cbn. by rewrite lookup_insert_eq.
Qed.

(** What one step executes. *)
Lemma exec_log_one (p p' : pnode) e out : step p e = Ok (Some (p', out)) → exec_log p [e] = option_list (executes p e).
Proof. intros Hs. rewrite exec_log_cons, Hs. apply app_nil_r. Qed.

Lemma run_invariant (p p' : pnode) es outs :
  run p es outs p' →
  (votes_ok p → votes_ok p') ∧ isReply p ⊆ isReply p' ∧ malicious_nums p' = malicious_nums p.
Proof.
  induction 1 as [p|p e p1 out es outs p2 Hs _ IH]; [done|].
  destruct (step_invariant _ _ _ _ Hs) as (? & ? & ?), IH as (? & ? & ?).
  split; [auto|]. split; [set_solver|congruence].
Qed.

Lemma exec_log_fresh (p : pnode) (es : list event) :
  NoDup (exec_log p es).*2 ∧ Forall (λ d, d ∉ isReply p) (exec_log p es).*2.
Proof.
  revert p. induction es as [|e es IH]; intros p; [by split; constructor|]. rewrite exec_log_cons.
  destruct (step p e) as [[[p1 out]|]|] eqn:Hs; [|by split; constructor..].
  destruct (IH p1) as [IH1 IH2]. destruct (step_invariant _ _ _ _ Hs) as (_ & Hr & _).
  rewrite Forall_forall in IH2.
  assert (Forall (λ d, d ∉ isReply p) (exec_log p1 es).*2) as Hlater.
  { apply Forall_forall. intros d Hd Hin. apply (IH2 d Hd). by apply Hr. }
  destruct (executes p e) as [[s d]|] eqn:Ee; cbn; [|done].
  destruct (executes_effect _ _ _ _ _ _ Hs Ee) as (_ & _ & _ & Hn & Hi & _).
  split; [|by constructor]. apply NoDup_cons. split; [|done]. intros Hd. by apply (IH2 d Hd).
Qed.

(** C7: a request is executed at most once.  In every run of a node with any module, whatever
    messages arrive and in whatever order, the digests for which it calls the commit operation of
    the module are pairwise distinct, and none of them had been executed, or learnt as executed,
    before the run. *)
Theorem executed_at_most_once (p : pnode) (es : list event) :
  NoDup (exec_log p es).*2 ∧ Forall (λ d, d ∉ isReply p) (exec_log p es).*2.
Proof. apply exec_log_fresh. Qed.

(** C8: execution needs a quorum.  In every run from a new node, a step that calls the commit
    operation of the module for a digest does so at the current sequence number, holds the request, has commit votes of at least
    [2f + 1] pairwise different nodes for it, and moves to the next sequence number. *)
Theorem executed_quorum shardID nodeID pcc table now height (x : X) es outs (p p' : pnode) e out s d :
  run (NewPbftNode shardID nodeID pcc table now height x) es outs p →
  step p e = Ok (Some (p', out)) → (s, d) ∈ exec_log p [e] →
  s = sequenceID p ∧ sequenceID p' = u64 (s + 1) ∧ is_Some (requestPool p !! d) ∧
  ∃ voters, cntCommitConfirm p' !! d = Some voters ∧ NoDup (voter_ids voters) ∧
    u64 (2 * (u64 (Nodes_perShard pcc - 1) / 3) + 1) ≤ len voters.
Proof.
  intros Hrun Hs He. rewrite (exec_log_one _ _ _ _ Hs) in He.
  destruct (executes p e) as [[s' d']|] eqn:Ee; [|by apply not_elem_of_nil in He].
  apply list_elem_of_singleton in He as [= <- <-]. rename Ee into He.
  destruct (run_invariant _ _ _ _ Hrun) as (Hv & _ & Hf).
  assert (votes_ok p) as Hok by (apply Hv; by split).
  destruct (executes_effect _ _ _ _ _ _ Hs He) as (? & ? & _ & _ & _ & ? & voters & Hvo & Hq).
  repeat (split; [done|]). exists voters. split; [done|].
  destruct (step_invariant _ _ _ _ Hs) as (Hstep & _). split.
  - by eapply (proj2 (Hstep Hok)).
  - by rewrite Hf in Hq.
Qed.

(** The sequence number moves only by executing.  A step that is not a new-view message or
    an answer to a catch-up request keeps it, unless it executes a request, and then adds one. *)
Theorem sequence_moves (p p' : pnode) e out :
  step p e = Ok (Some (p', out)) →
  (∀ cv now clock m, e = EvMsg cv now clock m →
     (∀ nv, m ≠ MNewView nv) ∧ (∀ so, m ≠ MSendOld so)) →
  sequenceID p' = match exec_log p [e] with (s, _) :: _ => u64 (s + 1) | [] => sequenceID p end.
Proof.
  intros Hs Hk. rewrite (exec_log_one _ _ _ _ Hs). destruct e as [| | | | | |cv now clock m];
    try (cbn [executes option_list]; apply q_seq; by eapply propose_quiet; [|exact Hs]).
  destruct (moving m) eqn:Em.
  - destruct (Hk _ _ _ _ eq_refl) as [Hnv Hso]. cbn [step] in Hs. unfold handleMessage in Hs.
    rewrite overhead_not_moving in Hs by done.
    destruct m as [| |c| |so| |nv| | | | | | | | | | | | | | | |]; try done;
      [|by destruct (Hso so)|by destruct (Hnv nv)].
    apply commit_effect in Hs as (_ & _ & _ & _ & _ & Hrest). cbn [executes].
    destruct (commit_fires cv c p); cbn [andb]; [|by destruct Hrest].
    destruct Hrest as (_ & _ & _ & _ & Hq). case_bool_decide; [by destruct Hq|done].
  - rewrite (q_seq _ _ (message_quiet _ _ _ _ _ _ _ Em Hs)).
    by destruct m.
Qed.

(** Stale messages are ignored.  A consensus message of an earlier sequence number, or one
    that arrived in another view than the current one, leaves the node unchanged and sends
    nothing. *)
Theorem stale_ignored (p : pnode) cv now : blockedCommit p = None →
  (∀ m, stale (PPSeqID m) cv p = true → handlePrePrepare cv m p = Ok (Some (p, []))) ∧
  (∀ m, stale (PSeqID m) cv p = true → handlePrepare cv m p = Ok (Some (p, []))) ∧
  (∀ m, stale (CSeqID m) cv p = true → handleCommit cv now m p = Ok (Some (p, []))).
Proof.
  intros Hfree. assert (∀ n s, stale s cv p = true → waits n s cv p = false) as Hw.
  { unfold stale, waits, pbft_locked. rewrite Hfree. intros n s [Hs|Hs]%orb_true_iff.
    - zbool. rewrite (proj2 (Z.leb_gt _ _)) by done. by rewrite andb_false_r.
    - rewrite negb_true_iff in Hs. rewrite Hs. by rewrite andb_false_r. }
  unfold handlePrePrepare, handlePrepare, handleCommit.
  repeat split; intros m Hm; by rewrite (Hw _ _ Hm), Hm.
Qed.

(** ** Progress of a round *)
#[local] Opaque u64 i32 UnixMilli.
Lemma run_app (p p1 p2 : pnode) es1 es2 o1 o2 :
  run p es1 o1 p1 → run p1 es2 o2 p2 → run p (es1 ++ es2) (o1 ++ o2) p2.
Proof.
  induction 1 as [p|p e q out es outs r Hs _ IH]; intros H2'; [done|].
  cbn [app]. rewrite <-app_assoc. econstructor; [exact Hs|by apply IH].
Qed.

Lemma exec_log_app (p p1 : pnode) es1 es2 o1 :
  run p es1 o1 p1 → exec_log p (es1 ++ es2) = exec_log p es1 ++ exec_log p1 es2.
Proof.
  induction 1 as [p|p e q out es outs r Hs _ IH]; [done|].
  cbn [app]. rewrite !exec_log_cons, Hs, IH. apply app_assoc.
Qed.

Lemma add_voter_fresh l v : (NodeID v, NShardID v) ∉ voter_ids l → add_voter l v = l ++ [v].
Proof.
  intros Hn. unfold add_voter. destruct (existsb _ l) eqn:E; [|done]. exfalso. apply Hn.
  apply existsb_exists in E as (n & Hin & Heq). zbool.
  apply list_elem_of_fmap. exists n. rewrite list_elem_of_In. split; [congruence|done].
Qed.

(** The node is in view [cv] at sequence [s], past stage [k], holds the request [d] and has not
    yet broadcast or executed it. *)
Record in_round (cv s k : Z) (d : bytes) (r : Request) (p : pnode) : Prop := {
  ir_view : view p = cv;
  ir_seq : sequenceID p = s;
  ir_stage : k ≤ pbftStage p < 2 ^ 30 + k;
  ir_pool : requestPool p !! d = Some r;
  ir_reply : d ∉ isReply p;
  ir_free : blockedCommit p = None;
  ir_lock : PNodeID p = u64 cv → sequenceLock p = true;
}.

Lemma not_waiting k s cv (p : pnode) :
  k ≤ pbftStage p → sequenceID p = s → view p = cv → blockedCommit p = None →
  waits k s cv p = false ∧ stale s cv p = false.
Proof.
  intros Hk <- <- Hf. unfold waits, stale, pbft_locked. rewrite Hf, (proj2 (Z.ltb_ge (pbftStage p) k)) by done.
  by rewrite Z.ltb_irrefl, Z.eqb_refl.
Qed.

Definition prepare_from (cv : Z) (d : bytes) (s : Z) (v : Node) : event :=
  EvMsg cv 0 (λ _, 0) (MPrepare (mkPrepare d s v)).
Definition commit_from (cv : Z) (now : Time) (d : bytes) (s : Z) (v : Node) : event :=
  EvMsg cv now (λ _, 0) (MCommit (mkCommit d s v)).

(** The prepare phase of the interface does nothing, in every module of the program. *)
Class PrepareNoop : Prop := {
  prepare_noop (p : pnode) m : HandleinPrepare p m = Ok (App p, true);
}.
Context `{!PrepareNoop}.

Lemma step_prepare cv d s v r acc (p : pnode) :
  in_round cv s 2 d r p → d ∉ isCommitBordcast p →
  default [] (cntPrepareConfirm p !! d) = acc → (NodeID v, NShardID v) ∉ voter_ids acc →
  ∃ p' out, step p (prepare_from cv d s v) = Ok (Some (p', out)) ∧
    default [] (cntPrepareConfirm p' !! d) = acc ++ [v] ∧
    cntCommitConfirm p' = cntCommitConfirm p ∧ App p' = App p ∧
    malicious_nums p' = malicious_nums p ∧ executes p (prepare_from cv d s v) = None ∧
    if u64 (2 * malicious_nums p + 1) <=? len (acc ++ [v])
    then in_round cv s 3 d r p' ∧ out = send_all p (MCommit (mkCommit d s (RunningNode p)))
    else in_round cv s 2 d r p' ∧ d ∉ isCommitBordcast p' ∧ out = [].
Proof.
  intros [Hv Hs Hk Hp Hr Hfree Hl] Hb <- Hn.
  destruct (not_waiting 2 s cv p) as [Hw Hst]; [lia|done|done|done|].
  unfold step, prepare_from, handleMessage.
  replace (handleOverhead (MPrepare (mkPrepare d s v)) p) with (@None (go (option (pnode * list packet))))
    by (unfold handleOverhead; by case_match).
  unfold handlePrepare. cbn [PSeqID PDigest PSenderNode]. rewrite Hw, Hst, Hp.
  rewrite (proj2 (Z.ltb_ge (sequenceID p) s)) by lia.
  rewrite prepare_noop. cbn [mbind go_bind fst]. unfold set2DMap. cbn.
  rewrite lookup_insert_eq. cbn. rewrite add_voter_fresh by done.
  rewrite (bool_decide_eq_false_2 (d ∈ isCommitBordcast p)) by done. rewrite andb_true_r.
  destruct (u64 (2 * malicious_nums p + 1) <=? _); cbn.
  - eexists _, _. split; [done|]. cbn. rewrite lookup_insert_eq. cbn. rewrite add_voter_fresh by done. repeat (split; [done|]).
    split; [|done]. split; cbn; try done. rewrite i32_small by lia. lia.
  - eexists _, _. split; [done|]. cbn. rewrite lookup_insert_eq. cbn. rewrite add_voter_fresh by done. repeat (split; [done|]). done.
Qed.

Lemma run_prepares cv d s r vs acc (p : pnode) :
  in_round cv s 2 d r p → d ∉ isCommitBordcast p → vs ≠ [] →
  default [] (cntPrepareConfirm p !! d) = acc → NoDup (voter_ids (acc ++ vs)) →
  u64 (2 * malicious_nums p + 1) = len (acc ++ vs) →
  ∃ p' outs, run p (prepare_from cv d s <$> vs) outs p' ∧ in_round cv s 3 d r p' ∧
    cntCommitConfirm p' = cntCommitConfirm p ∧ App p' = App p ∧
    malicious_nums p' = malicious_nums p ∧ exec_log p (prepare_from cv d s <$> vs) = [].
Proof.
  revert acc p. induction vs as [|v vs IH]; intros acc p Hin Hb Hne Hacc Hnd Hq; [done|].
  destruct (step_prepare cv d s v r acc p Hin Hb Hacc)
    as (p1 & out & Hs & Ha & Hc & Happ & Hf & He & Hif).
  { unfold voter_ids in *. rewrite fmap_app in Hnd. cbn in Hnd.
    apply NoDup_app in Hnd as (_ & Hdis & _). intros Hx. apply (Hdis _ Hx). by left. }
  destruct vs as [|v' vs].
  - rewrite <-Hq, Z.leb_refl in Hif. destruct Hif as [Hin' _].
    exists p1, (out ++ []). split; [by repeat econstructor|].
    cbn [fmap list_fmap]. rewrite exec_log_cons, Hs, He. done.
  - assert (acc ++ v :: v' :: vs = (acc ++ [v]) ++ v' :: vs) as Happ2 by (by rewrite <-app_assoc).
    rewrite Happ2 in Hnd, Hq. rewrite len_app in Hq.
    rewrite (proj2 (Z.leb_gt _ _)) in Hif by (unfold len in *; cbn [length] in *; lia).
    destruct Hif as (Hin' & Hb' & ->).
    destruct (IH (acc ++ [v]) p1) as (p2 & outs & Hr & Hin2 & Hc2 & Ha2 & Hf2 & Hl2); try done.
    { by rewrite Hf, len_app. }
    exists p2, ([] ++ outs). split; [by econstructor|]. split; [done|]. split; [congruence|].
    split; [congruence|]. split; [congruence|]. cbn [fmap list_fmap].
    rewrite exec_log_cons, Hs, He. exact Hl2.
Qed.

(** The module's state went from [x] to [x'] by its commit operation for the request [r]. *)
Definition applied (now : Time) (d : bytes) (s : Z) (r : Request) (x x' : X) : Prop :=
  ∃ q v out b, App q = x ∧ requestPool q !! d = Some r ∧
    HandleinCommit q now (mkCommit d s v) = Ok (x', out, b).

Lemma step_commit cv now d s v r acc (p : pnode) :
  in_round cv s 3 d r p →
  default [] (cntCommitConfirm p !! d) = acc → (NodeID v, NShardID v) ∉ voter_ids acc →
  (∀ q, App q = App p → requestPool q !! d = Some r →
     is_ok (HandleinCommit q now (mkCommit d s v)) = true) →
  ∃ p' out, step p (commit_from cv now d s v) = Ok (Some (p', out)) ∧
    default [] (cntCommitConfirm p' !! d) = acc ++ [v] ∧ malicious_nums p' = malicious_nums p ∧
    if u64 (2 * malicious_nums p + 1) <=? len (acc ++ [v])
    then executes p (commit_from cv now d s v) = Some (s, d) ∧
         sequenceID p' = u64 (s + 1) ∧ pbftStage p' = 1 ∧ d ∈ isReply p' ∧
         applied now d s r (App p) (App p')
    else executes p (commit_from cv now d s v) = None ∧ in_round cv s 3 d r p' ∧ App p' = App p.
Proof.
  intros [Hv Hs Hk Hp Hr Hfree Hl] <- Hn Hcom.
  destruct (not_waiting 3 s cv p) as [Hw Hst]; [lia|done|done|done|].
  unfold step, commit_from, handleMessage.
  replace (handleOverhead (MCommit (mkCommit d s v)) p) with (@None (go (option (pnode * list packet))))
    by (unfold handleOverhead; by case_match).
  unfold executes, commit_fires, commit_votes, after_vote, handleCommit.
  cbn [CSeqID CDigest CSenderNode]. rewrite Hw, Hst. unfold set2DMap. cbn.
  rewrite lookup_insert_eq. cbn. rewrite add_voter_fresh by done.
  rewrite (bool_decide_eq_false_2 (d ∈ isReply p)) by done. rewrite !andb_true_r.
  set (q := u64 (2 * malicious_nums p + 1) <=? _). destruct q; cbn.
  - rewrite Hp. set (p1 := upd cntCommitConfirm _ p).
    specialize (Hcom p1 eq_refl Hp).
    destruct (HandleinCommit p1 now (mkCommit d s v)) as [[[x out] b]|] eqn:Eh; [|done].
    assert (applied now d s r (App p) x) as Hap by (exists p1, v, out, b; auto).
    cbn [mbind go_bind]. rewrite bool_decide_eq_true_2 by eauto. unfold round_end. cbn.
    rewrite Hv. destruct (PNodeID p =? u64 cv) eqn:En; zbool.
    + rewrite Hl by done. cbn. eexists _, _. split; [done|]. cbn. rewrite lookup_insert_eq, Hs.
      cbn. rewrite add_voter_fresh by done.
      repeat (split; [done|]). split; [set_solver|exact Hap].
    + cbn. eexists _, _. split; [done|]. cbn. rewrite lookup_insert_eq, Hs.
      cbn. rewrite add_voter_fresh by done.
      repeat (split; [done|]). split; [set_solver|exact Hap].
  - eexists _, _. split; [done|]. cbn. rewrite lookup_insert_eq. cbn. rewrite add_voter_fresh by done. repeat (split; [done|]). done.
Qed.

Lemma run_commits cv now d s r vs acc (p : pnode) :
  in_round cv s 3 d r p → vs ≠ [] →
  default [] (cntCommitConfirm p !! d) = acc → NoDup (voter_ids (acc ++ vs)) →
  u64 (2 * malicious_nums p + 1) = len (acc ++ vs) →
  (∀ q v, App q = App p → requestPool q !! d = Some r →
     is_ok (HandleinCommit q now (mkCommit d s v)) = true) →
  ∃ p' outs, run p (commit_from cv now d s <$> vs) outs p' ∧
    sequenceID p' = u64 (s + 1) ∧ pbftStage p' = 1 ∧ d ∈ isReply p' ∧
    applied now d s r (App p) (App p') ∧
    exec_log p (commit_from cv now d s <$> vs) = [(s, d)].
Proof.
  revert acc p. induction vs as [|v vs IH]; intros acc p Hin Hne Hacc Hnd Hq Hcom; [done|].
  destruct (step_commit cv now d s v r acc p Hin Hacc)
    as (p1 & out & Hs & Ha & Hf & Hif); [|auto|].
  { unfold voter_ids in *. rewrite fmap_app in Hnd. cbn in Hnd.
    apply NoDup_app in Hnd as (_ & Hdis & _). intros Hx. apply (Hdis _ Hx). by left. }
  destruct vs as [|v' vs].
  - rewrite <-Hq, Z.leb_refl in Hif. destruct Hif as (He & ? & ? & ? & ?).
    exists p1, (out ++ []). split; [by repeat econstructor|]. repeat (split; [done|]).
    cbn [fmap list_fmap]. by rewrite exec_log_cons, Hs, He.
  - assert (acc ++ v :: v' :: vs = (acc ++ [v]) ++ v' :: vs) as Happ2 by (by rewrite <-app_assoc).
    rewrite Happ2 in Hnd, Hq. rewrite len_app in Hq.
    rewrite (proj2 (Z.leb_gt _ _)) in Hif by (unfold len in *; cbn [length] in *; lia).
    destruct Hif as (He & Hin' & Happ).
    destruct (IH (acc ++ [v]) p1) as (p2 & outs & Hr & ? & ? & ? & Hap & Hl2); try done.
    { by rewrite Hf, len_app. }
    { rewrite Happ. exact Hcom. }
    rewrite Happ in Hap. exists p2, (out ++ outs). split; [by econstructor|].
    repeat (split; [done|]).
    cbn [fmap list_fmap]. rewrite exec_log_cons, Hs, He. exact Hl2.
Qed.

(** The node waits at sequence [s] of view [cv] and has not seen the digest [d] yet. *)
Record fresh_round (cv s : Z) (d : bytes) (p : pnode) : Prop := {
  fr_view : view p = cv;
  fr_seq : sequenceID p = s;
  fr_stage : 1 ≤ pbftStage p ≤ 2;
  fr_reply : d ∉ isReply p;
  fr_free : blockedCommit p = None;
  fr_bcast : d ∉ isCommitBordcast p;
  fr_prep : cntPrepareConfirm p !! d = None;
  fr_com : cntCommitConfirm p !! d = None;
  fr_lock : PNodeID p = u64 cv → sequenceLock p = true;
}.

(** Exactly [2f + 1] different nodes. *)
Definition quorum_of (p : pnode) (vs : list Node) : Prop :=
  NoDup (voter_ids vs) ∧ vs ≠ [] ∧ len vs = u64 (2 * malicious_nums p + 1).

(** The messages of a complete round. *)
Definition round_events (cv now s : Z) (r : Request) (vs1 vs2 : list Node) : list event :=
  let d := getDigest r in
  EvMsg cv now (λ _, 0) (MPrePrepare (mkPrePrepare r d s))
    :: (prepare_from cv d s <$> vs1) ++ (commit_from cv now d s <$> vs2).

Lemma round_run (cv now s : Z) (r : Request) (vs1 vs2 : list Node) (p : pnode) (x : X) :
  let d := getDigest r in
  fresh_round cv s d p →
  HandleinPrePrepare p (mkPrePrepare r d s) = Ok (x, true) →
  (∀ q v, App q = x → requestPool q !! d = Some r →
     is_ok (HandleinCommit q now (mkCommit d s v)) = true) →
  quorum_of p vs1 → quorum_of p vs2 →
  ∃ outs p', run p (round_events cv now s r vs1 vs2) outs p' ∧
    exec_log p (round_events cv now s r vs1 vs2) = [(s, d)] ∧
    sequenceID p' = u64 (s + 1) ∧ pbftStage p' = 1 ∧ d ∈ isReply p' ∧
    applied now d s r x (App p').
Proof.
  intros d [Hv Hs Hk Hr Hfree Hb Hcp Hcc Hl] Hpp Hcom (Hn1 & Hne1 & Hl1) (Hn2 & Hne2 & Hl2).
  unfold round_events. fold d.
  destruct (not_waiting 1 s cv p) as [Hw Hst]; [lia|done|done|done|].
  set (p1 := p <| App := x |> <| requestPool ::= <[d := r]> |> <| height2Digest ::= <[s := d]> |>
               <| pbftStage ::= λ s, i32 (s + 1) |>).
  assert (step p (EvMsg cv now (λ _, 0) (MPrePrepare (mkPrePrepare r d s))) =
          Ok (Some (p1, send_all p (MPrepare (mkPrepare d s (RunningNode p)))))) as Hstep.
  { unfold step, handleMessage.
    replace (handleOverhead _ p) with (@None (go (option (pnode * list packet))))
      by (unfold handleOverhead; by case_match).
    unfold handlePrePrepare. cbn [PPSeqID RequestMsg PPDigest]. rewrite Hw, Hst. fold d.
    rewrite bool_decide_eq_true_2 by done. cbn [negb].
    rewrite (proj2 (Z.ltb_ge (sequenceID p) s)) by lia. rewrite Hpp. done. }
  destruct (run_prepares cv d s r vs1 [] p1) as (p2 & o1 & Hr1 & Hin2 & Hc2 & Ha2 & Hf2 & Hlog1); try done.
  { split; cbn; try done; [rewrite i32_small by lia; lia|by rewrite lookup_insert_eq]. }
  { cbn. by rewrite Hcp. }
  destruct (run_commits cv now d s r vs2 [] p2) as (p3 & o2 & Hr2 & ? & ? & ? & Hap & Hlog2); try done.
  { by rewrite Hc2; cbn; rewrite Hcc. }
  { by rewrite Hf2. }
  { intros q v Hq. apply Hcom. by rewrite Hq, Ha2. }
  eexists _, p3. split; [econstructor; [exact Hstep|by eapply run_app]|].
  rewrite Ha2 in Hap. split; [|done]. rewrite exec_log_cons, Hstep. cbn [executes option_list app].
  by rewrite (exec_log_app p1 p2 _ _ o1), Hlog1, Hlog2.
Qed.

(** C12: a round commits.  A node that waits at sequence [s] and receives an acceptable proposal,
    then the prepares of [2f + 1] different nodes and then the commits of [2f + 1] different
    nodes, executes exactly that request, once, through the commit operation of its module, and
    is back at stage 1 of the next sequence number. *)
Theorem round_commits (cv now s : Z) (r : Request) (vs1 vs2 : list Node) (p : pnode) (x : X) :
  fresh_round cv s (getDigest r) p →
  HandleinPrePrepare p (mkPrePrepare r (getDigest r) s) = Ok (x, true) →
  (∀ q v, App q = x → requestPool q !! getDigest r = Some r →
     is_ok (HandleinCommit q now (mkCommit (getDigest r) s v)) = true) →
  quorum_of p vs1 → quorum_of p vs2 →
  ∃ outs p', run p (round_events cv now s r vs1 vs2) outs p' ∧
    exec_log p (round_events cv now s r vs1 vs2) = [(s, getDigest r)] ∧
    sequenceID p' = u64 (s + 1) ∧ pbftStage p' = 1 ∧
    applied now (getDigest r) s r x (App p').
Proof.
  intros Hf Hpp Hcom H1' H2'.
  destruct (round_run cv now s r vs1 vs2 p x Hf Hpp Hcom H1' H2') as (outs & p' & ? & ? & ? & ? & _ & ?).
  eauto 10.
Qed.

(** Nothing stops an equivocating leader.  A node prepares every acceptable proposal it
    receives at its sequence number: two different requests at the same sequence number both get
    its prepare vote. *)
Theorem equivocation_prepared (cv now s : Z) (r1 r2 : Request) (p : pnode) (x1 x2 : X) :
  let pp r := mkPrePrepare r (getDigest r) s in
  let vote (q : pnode) r := MPrepare (mkPrepare (getDigest r) s (RunningNode q)) in
  view p = cv → sequenceID p = s → 1 ≤ pbftStage p < 2 ^ 30 → blockedCommit p = None →
  HandleinPrePrepare p (pp r1) = Ok (x1, true) →
  (∀ q, App q = x1 → HandleinPrePrepare q (pp r2) = Ok (x2, true)) →
  ∃ outs p', run p [EvMsg cv now (λ _, 0) (MPrePrepare (pp r1));
                    EvMsg cv now (λ _, 0) (MPrePrepare (pp r2))] outs p' ∧
    vote p r1 ∈ outs.*2 ∧ vote p r2 ∈ outs.*2.
Proof.
  intros pp vote Hv Hs Hk Hfree H1' H2'.
  assert (∀ q r x, view q = cv → sequenceID q = s → 1 ≤ pbftStage q < 2 ^ 31 - 1 → blockedCommit q = None →
    HandleinPrePrepare q (pp r) = Ok (x, true) →
    ∃ q', step q (EvMsg cv now (λ _, 0) (MPrePrepare (pp r))) =
            Ok (Some (q', send_all q (vote q r))) ∧ view q' = cv ∧ sequenceID q' = s ∧
          pbftStage q' = pbftStage q + 1 ∧ blockedCommit q' = None ∧ App q' = x ∧ RunningNode q' = RunningNode q) as Hone.
  { intros q r x Hvq Hsq Hkq Hfq Hq. destruct (not_waiting 1 s cv q) as [Hw Hst]; [lia|done|done|done|].
    unfold step, handleMessage.
    replace (handleOverhead _ q) with (@None (go (option (pnode * list packet))))
      by (unfold handleOverhead; by case_match).
    unfold handlePrePrepare. cbn [PPSeqID RequestMsg PPDigest pp]. rewrite Hw, Hst.
    rewrite bool_decide_eq_true_2 by done. cbn [negb].
    rewrite (proj2 (Z.ltb_ge (sequenceID q) s)) by (cbn; lia). rewrite Hq.
    eexists. split; [done|]. cbn. rewrite i32_small by lia. done. }
  destruct (Hone p r1 x1) as (p1 & S1 & ? & ? & Hk1 & Hf1 & Ha1 & Hn1); try done; [lia|].
  destruct (Hone p1 r2 x2) as (p2 & S2 & _); try done; [lia|by apply H2'|].
  eexists _, p2. split; [econstructor; [exact S1|econstructor; [exact S2|constructor]]|].
  rewrite app_nil_r, fmap_app. unfold send_all. rewrite !fmap_app. unfold vote. rewrite Hn1.
  split; set_solver.
Qed.

(** A commit is executed at the wrong sequence number.  [handleCommit] does not compare the
    sequence number of a commit with its own, unlike [handlePrepare]: a commit quorum for a later
    request that is already in the pool makes the node execute it as the current one. *)
Theorem commit_ignores_sequence (cv now s later : Z) clock (d : bytes) (v : Node) (r : Request)
    (p p' : pnode) out :
  let c := mkCommit d later v in
  view p = cv → sequenceID p = s → s < later → 3 ≤ pbftStage p → blockedCommit p = None →
  requestPool p !! d = Some r → d ∉ isReply p →
  u64 (2 * malicious_nums p + 1) ≤ len (commit_votes c p) →
  step p (EvMsg cv now clock (MCommit c)) = Ok (Some (p', out)) →
  exec_log p [EvMsg cv now clock (MCommit c)] = [(s, d)] ∧ sequenceID p' = u64 (s + 1) ∧
  ∀ es, d ∉ (exec_log p' es).*2.
Proof.
  intros c Hv Hs Hlt Hk Hfree Hp Hr Hq Hstep.
  assert (executes p (EvMsg cv now clock (MCommit c)) = Some (s, d)) as He.
  { cbn [executes]. unfold commit_fires, waits, stale, pbft_locked. cbn [CSeqID CDigest c]. rewrite Hfree.
    rewrite (proj2 (Z.ltb_ge (pbftStage p) 3)) by done. cbn [andb orb negb].
    rewrite (proj2 (Z.ltb_ge later (sequenceID p))) by lia.
    rewrite Hv, Z.eqb_refl. cbn [negb orb andb].
    rewrite (proj2 (Z.leb_le _ _) Hq), bool_decide_eq_false_2 by done.
    rewrite bool_decide_eq_true_2 by eauto. by rewrite Hs. }
  destruct (executes_effect _ _ _ _ _ _ Hstep He) as (_ & Hseq & _ & _ & Hi & _).
  rewrite (exec_log_one _ _ _ _ Hstep), He. split; [done|]. split; [done|]. intros es Hin.
  destruct (exec_log_fresh p' es) as [_ Hf]. rewrite Forall_forall in Hf. by apply (Hf d Hin).
Qed.

(** ** View change *)
Lemma add_vote_size m k n :
  votes (add_vote m k n) k =
    votes m k + (if bool_decide (n ∈ default ∅ (m !! k)) then 0 else 1).
Proof.
  unfold votes, add_vote. rewrite lookup_insert_eq. cbn. case_bool_decide as Hn.
  - rewrite (subseteq_union_1_L {[n]} (default ∅ (m !! k))) by set_solver. lia.
  - rewrite size_union by set_solver. rewrite size_singleton. lia.
Qed.

Lemma add_vote_members m k n x :
  x ∈ default ∅ (add_vote m k n !! k) ↔ x = n ∨ x ∈ default ∅ (m !! k).
Proof. unfold add_vote. rewrite lookup_insert_eq. cbn. set_solver. Qed.

Definition vc_from (nv s n : Z) : event := EvMsg 0 0 (λ _, 0) (MViewChange (mkViewChangeMsg 0 nv s n)).

(** The new-view messages a node sends to itself: one per broadcast. *)
Definition broadcasts (p : pnode) (outs : list packet) : Z :=
  len (List.filter (λ o, bool_decide (o.1 = IPaddr (RunningNode p))) outs).

Lemma send_all_self (p : pnode) m : broadcasts p (send_all p m) = 1.
Proof.
  unfold broadcasts, send_all, Broadcast. rewrite List.filter_app, len_app.
  assert (len (List.filter (λ o : packet, bool_decide (o.1 = IPaddr (RunningNode p)))
    ((λ ip, (ip, m)) <$> List.filter (λ ip, negb (bool_decide (ip = IPaddr (RunningNode p))))
       (getNeighborNodes p))) = 0) as ->.
  { induction (getNeighborNodes p) as [|ip l IH]; [done|]. cbn.
    case_bool_decide as Hd; cbn; [done|]. by rewrite bool_decide_eq_false_2. }
  cbn. by rewrite bool_decide_eq_true_2.
Qed.

(** One vote of a new voter: counted, and answered when it completes the quorum. *)
Lemma step_vc nv s n (q : pnode) :
  i64 (node_nums q) ≠ 0 → 0 ≤ malicious_nums q < 2 ^ 62 →
  n ∉ default ∅ (viewChangeMap q !! (nv, s)) →
  ∃ out, step q (vc_from nv s n) = Ok (Some (q <| viewChangeMap ::= λ m, add_vote m (nv, s) n |>, out)) ∧
    broadcasts q out = if votes (viewChangeMap q) (nv, s) + 1 =? 2 * malicious_nums q + 1
                       then 1 else 0.
Proof.
  intros Hn Hf Hfn. set (q1 := q <| viewChangeMap ::= λ m, add_vote m (nv, s) n |>).
  assert (votes (viewChangeMap q1) (nv, s) = votes (viewChangeMap q) (nv, s) + 1) as Hv1.
  { cbn. by rewrite add_vote_size, bool_decide_eq_false_2. }
  unfold step, vc_from, handleMessage.
  replace (handleOverhead _ q) with (@None (go (option (pnode * list packet))))
    by (unfold handleOverhead; by case_match).
  unfold handleViewChangeMsg. cbn [VCNextView VCSeqID VCFromNode]. fold q1.
  rewrite Hv1. change (malicious_nums q1) with (malicious_nums q). rewrite i64_small by lia.
  destruct (_ =? _); [|by eexists]. unfold next_view, go_rem.
  change (node_nums q1) with (node_nums q). rewrite (proj2 (Z.eqb_neq _ 0)) by done.
  cbn [mbind go_bind]. eexists. split; [done|]. apply (send_all_self q1).
Qed.

(** View-change votes.  Votes for the same view and sequence number are counted once per
    node, and whatever the number of different voters, the node broadcasts its new-view message
    exactly once: when the vote of the [2f + 1]-th voter arrives. *)
Theorem view_change_votes (nv s : Z) (ns : list Z) (p : pnode) :
  viewChangeMap p !! (nv, s) = None → NoDup ns → node_nums p ≠ 0 → i64 (node_nums p) ≠ 0 →
  0 ≤ malicious_nums p < 2 ^ 62 →
  ∃ p' outs, run p (vc_from nv s <$> ns) outs p' ∧
    votes (viewChangeMap p') (nv, s) = len ns ∧ view p' = view p ∧
    broadcasts p outs = if 2 * malicious_nums p + 1 <=? len ns then 1 else 0.
Proof.
  intros Hnone Hnd Hn0 Hn Hf.
  assert (∀ q, RunningNode q = RunningNode p → node_nums q = node_nums p →
    malicious_nums q = malicious_nums p → view q = view p → 
    Forall (λ n, n ∉ default ∅ (viewChangeMap q !! (nv, s))) ns →
    ∃ q' outs, run q (vc_from nv s <$> ns) outs q' ∧
      votes (viewChangeMap q') (nv, s) = votes (viewChangeMap q) (nv, s) + len ns ∧
      view q' = view p ∧
      broadcasts p outs =
        if (votes (viewChangeMap q) (nv, s) <? 2 * malicious_nums p + 1) &&
           (2 * malicious_nums p + 1 <=? votes (viewChangeMap q) (nv, s) + len ns)
        then 1 else 0) as Hgen.
  { induction Hnd as [|n ns Hnn Hnd IH]; intros q Hrq Hnq Hfq Hvq Hfresh.
    - exists q, []. split; [constructor|]. change (len []) with 0. rewrite Z.add_0_r.
      split; [done|]. split; [done|]. case_match; [|done]. zbool. lia.
    - apply Forall_cons in Hfresh as [Hfn Hfresh].
      set (q1 := q <| viewChangeMap ::= λ m, add_vote m (nv, s) n |>).
      assert (votes (viewChangeMap q1) (nv, s) = votes (viewChangeMap q) (nv, s) + 1) as Hv1.
      { cbn. rewrite add_vote_size, bool_decide_eq_false_2 by done. done. }
      destruct (step_vc nv s n q) as (out & Hs & Hb); [by rewrite Hnq|by rewrite Hfq|done|].
      unfold broadcasts in Hb. rewrite Hrq, Hfq in Hb.
      destruct (IH q1) as (q2 & outs & Hr & Hv2 & Hview & Hb2); try done.
      { apply Forall_forall. intros x Hx. cbn. rewrite add_vote_members.
        intros [->|Hin]; [done|]. rewrite Forall_forall in Hfresh. by apply (Hfresh x Hx). }
      exists q2, (out ++ outs). split; [by econstructor|].
      assert (len (n :: ns) = len ns + 1) as Hlen by (unfold len; cbn; lia).
      split; [rewrite Hv2, Hv1, Hlen; lia|]. split; [done|].
      unfold broadcasts in *. rewrite List.filter_app, len_app, Hb, Hb2, Hv1, Hlen.
      pose proof (len_nonneg ns).
      repeat match goal with |- context [?a =? ?b] => destruct (Z.eqb_spec a b)
             | |- context [?a <? ?b] => destruct (Z.ltb_spec a b)
             | |- context [?a <=? ?b] => destruct (Z.leb_spec a b) end; cbn; lia. }
  destruct (Hgen p) as (p' & outs & Hr & Hv & Hview & Hb); try done.
  { rewrite Hnone. apply Forall_forall. set_solver. }
  assert (votes (viewChangeMap p) (nv, s) = 0) as Hz by (unfold votes; by rewrite Hnone).
  exists p', outs. rewrite Hz in *. split; [done|]. split; [lia|]. split; [done|].
  rewrite Hb, (proj2 (Z.ltb_lt _ _)) by lia. done.
Qed.

(** A view is entered by a quorum.  A step that moves the node to another view is the
    delivery of a new-view message that completes the votes of exactly [2f + 1] different nodes
    for that view and sequence number; the node takes both from the votes and goes back to
    stage 1. *)
Theorem new_view_quorum (p p' : pnode) e out :
  step p e = Ok (Some (p', out)) → view p' ≠ view p →
  ∃ cv now clock nv voters, e = EvMsg cv now clock (MNewView nv) ∧
    newViewMap p' !! (NVNextView nv, NewSeqID nv) = Some voters ∧ NVFromNode nv ∈ voters ∧
    Z.of_nat (size voters) = 2 * i64 (malicious_nums p) + 1 ∧
    view p' = i32 (NVNextView nv) ∧ sequenceID p' = u64 (NewSeqID nv) ∧ pbftStage p' = 1.
Proof.
  intros Hs Hv. destruct e as [| | | | | |cv now clock m];
    try (destruct Hv; apply q_view; by eapply propose_quiet; [|exact Hs]).
  destruct (moving m) eqn:Em; [|destruct Hv; by apply (q_view _ _ (message_quiet _ _ _ _ _ _ _ Em Hs))].
  cbn [step] in Hs. unfold handleMessage in Hs. rewrite overhead_not_moving in Hs by done.
  destruct m as [| |c| |so| |nv| | | | | | | | | | | | | | | |]; try done.
  - destruct Hv. by apply commit_effect in Hs as (-> & _).
  - destruct Hv. by apply send_old_effect in Hs as (_ & -> & _).
  - unfold handleNewViewMsg in Hs. handler; [|done].
    zbool. cbn -[votes add_vote] in *.
    unfold votes, add_vote in E |- *. rewrite lookup_insert_eq in E. cbn in E.
    eexists cv, now, clock, nv, _. split; [done|]. split; [apply lookup_insert_eq|].
    split; [set_solver|done].
Qed.

(** ** Quorums *)
Lemma overlap_size (A B U : gset Z) :
  A ⊆ U → B ⊆ U → (size A + size B ≤ size U + size (A ∩ B))%nat.
Proof.
  intros HA HB. assert (size (A ∪ B) ≤ size U)%nat as Hu by (apply subseteq_size; set_solver).
  assert (B = (A ∩ B) ∪ (B ∖ A)) as HB2.
  { apply set_eq. intros x. destruct (decide (x ∈ A)); set_solver. }
  assert (size B = size (A ∩ B) + size (B ∖ A))%nat as HsB.
  { rewrite HB2 at 1. apply size_union. set_solver. }
  assert (size (A ∪ B) = size A + size (B ∖ A))%nat as HsU.
  { rewrite <-size_union by set_solver. f_equal.
    apply set_eq. intros x. destruct (decide (x ∈ A)); set_solver. }
  lia.
Qed.

(** Quorums of [2f + 1] votes, with [f = (N - 1) / 3] as [NewPbftNode] computes it.  Two
    quorums of different nodes of a shard of [N = 3f + 1] nodes have [f + 1] nodes in common,
    so at least one that is not faulty.  For an [N] that is not of that form this fails: in a
    shard of six nodes two quorums can be disjoint. *)
Theorem quorum_intersection shardID nodeID pcc table now height (x : X) (q1 q2 : list Z) :
  let N := Nodes_perShard pcc in
  let f := malicious_nums (NewPbftNode shardID nodeID pcc table now height x) in
  let quorum l := NoDup l ∧ Forall (λ n, 0 ≤ n < N) l ∧ u64 (2 * f + 1) ≤ len l in
  (0 < N < 2 ^ 62 → N = 3 * f + 1 → quorum q1 → quorum q2 →
     f + 1 ≤ len (List.filter (λ n, bool_decide (n ∈ q2)) q1)) ∧
  (N = 6 → quorum [0; 1; 2] ∧ quorum [3; 4; 5]).
Proof.
  cbn [malicious_nums NewPbftNode]. set (N := Nodes_perShard pcc). set (f := u64 (N - 1) / 3).
  split.
  - intros HN Hf (Hd1 & Hr1 & Hl1) (Hd2 & Hr2 & Hl2).
    pose (U := list_to_set (seqZ 0 N) : gset Z).
    assert (∀ l, Forall (λ n, 0 ≤ n < N) l → (list_to_set l : gset Z) ⊆ U) as Hsub.
    { intros l Hl n Hn. apply elem_of_list_to_set in Hn. apply elem_of_list_to_set, elem_of_seqZ.
      rewrite Forall_forall in Hl. specialize (Hl n Hn). lia. }
    pose proof (overlap_size (list_to_set q1) (list_to_set q2) U (Hsub _ Hr1) (Hsub _ Hr2)) as Ho.
    rewrite !size_list_to_set in Ho by done.
    assert (size U = Z.to_nat N) as HU.
    { unfold U. rewrite size_list_to_set by apply NoDup_seqZ. by rewrite length_seqZ. }
    assert (size (list_to_set q1 ∩ list_to_set q2 : gset Z) ≤
            length (List.filter (λ n, bool_decide (n ∈ q2)) q1))%nat as Hfi.
    { rewrite <-(size_list_to_set (C := gset Z))
        by (by apply NoDup_ListNoDup, List.NoDup_filter, NoDup_ListNoDup).
      apply subseteq_size. intros n Hn.
      apply elem_of_intersection in Hn as [Hn1 Hn2]. rewrite elem_of_list_to_set in Hn1, Hn2.
      apply elem_of_list_to_set, list_elem_of_In, filter_In. rewrite <-list_elem_of_In.
      by rewrite bool_decide_eq_true_2. }
    rewrite u64_small in Hl1, Hl2 by (unfold two64; lia). unfold len in *. lia.
  - intros HN. assert (f = 1) as -> by (unfold f; by rewrite HN).
    repeat split; try (by apply (bool_decide_eq_true_1 (NoDup _)); vm_compute);
      try (repeat constructor; lia); by vm_compute.
Qed.

(** [DeleteElementsInList] never returns the list it is meant to: it panics when something
    is removed and returns the empty list when nothing is. *)
Theorem delete_elements_broken (l elements : list Transaction) :
  DeleteElementsInList l elements =
    if existsb (λ tx, bool_decide (TxHash tx ∈ TxHash <$> elements)) l
    then Panic "slice bounds out of range" else Ok [].
Proof.
  unfold DeleteElementsInList.
  assert (∀ tx, bool_decide (TxHash tx ∈ (list_to_set (TxHash <$> elements) : gset bytes)) =
    bool_decide (TxHash tx ∈ TxHash <$> elements)) as Hb.
  { intros tx. apply bool_decide_ext. apply elem_of_list_to_set. }
  rewrite (List.filter_ext _ _ Hb). rewrite take_0.
  induction l as [|tx l IH]; [done|]. cbn [List.filter existsb].
  destruct (bool_decide (TxHash tx ∈ TxHash <$> elements)); [|exact IH]. cbn [orb].
  unfold len. cbn [length]. by rewrite (proj2 (Z.ltb_lt _ _)) by lia.
Qed.
End facts.

(** ** Witnesses: four nodes, a module whose operations do nothing *)
Module PbftExample.
Import ConcreteLibs ConcreteCore.
#[local] Existing Instance default_params.

(** An encoder of requests that keeps the content. *)
#[local] Instance plain_codec : Codec Request := {|
  Encode r := Content r;
  Decode b := Some (mkRequest BlockRequest b 0) |}.

#[local] Instance idle_ops : ExtraOpInConsensus unit := {|
  HandleinPropose _ _ := Ok ((), [], None);
  HandleinPrePrepare _ _ := Ok ((), true);
  HandleinPrepare p _ := Ok (App p, true);
  HandleinCommit _ _ _ := Ok ((), [], true);
  HandleReqestforOldSeq p _ := Ok (App p, true);
  HandleforSequentialRequest _ _ := Ok ((), [], true) |}.
#[local] Instance idle_out : OpInterShards unit := {| HandleMessageOutsidePBFT p _ _ := Ok (p, []) |}.
#[local] Instance idle_out_laws : OpInterShardsLaws.
Proof. split. intros p p' clock m out. cbn. intros [= <- <-]. by destruct p. Qed.
#[local] Instance idle_prepare : PrepareNoop.
Proof. by split. Qed.

Definition cfg4 : ChainConfig := mkChainConfig 0 1 0 4 1 2000 5000 300 2000.
Definition table : gmap Z (gmap Z string) :=
  {[0 := list_to_map [(0, "ip0"); (1, "ip1"); (2, "ip2"); (3, "ip3")]]}.
Definition p0 : PbftConsensusNode unit := NewPbftNode 0 1 cfg4 table 0 0 ().
Definition nd (i : Z) : Node := mkNode i 0 "".
Definition r1 : Request := mkRequest BlockRequest "block1" 0.
Definition r2 : Request := mkRequest BlockRequest "block2" 0.
Definition d1 : bytes := getDigest r1.
Definition proposal (r : Request) : event :=
  EvMsg 0 0 (λ _, 0) (MPrePrepare (mkPrePrepare r (getDigest r) 1)).

(** The round up to its last commit. *)
Definition es1 : list event :=
  [proposal r1; prepare_from 0 d1 1 (nd 0); prepare_from 0 d1 1 (nd 1); prepare_from 0 d1 1 (nd 2);
   commit_from 0 0 d1 1 (nd 0); commit_from 0 0 d1 1 (nd 2)].
Definition last1 : event := commit_from 0 0 d1 1 (nd 3).
Definition after1 : PbftConsensusNode unit := match exec p0 es1 with Some (_, p) => p | None => p0 end.
Definition outs1 : list packet := match exec p0 es1 with Some (o, _) => o | None => [] end.

Lemma run1 : run p0 es1 outs1 after1.
Proof. apply exec_run. vm_compute. reflexivity. Qed.

Definition end1 : PbftConsensusNode unit :=
  match step after1 last1 with Ok (Some (p, _)) => p | _ => after1 end.
Lemma step1 : step after1 last1 = Ok (Some (end1, [])).
Proof. vm_compute. reflexivity. Qed.

(** The round executes the request, and more commits for it do nothing. *)
Lemma executed_at_most_once_witness :
  exec_log p0 (es1 ++ [last1; last1]) = [(1, d1)] ∧ NoDup (exec_log p0 (es1 ++ [last1; last1])).*2.
Proof. split; [vm_compute; reflexivity|apply (executed_at_most_once p0)]. Defined.

Lemma executed_quorum_witness :
  ∃ voters, cntCommitConfirm end1 !! d1 = Some voters ∧ NoDup (voter_ids voters) ∧ 3 ≤ len voters.
Proof.
  apply (executed_quorum 0 1 cfg4 table 0 0 () es1 outs1 after1 end1 last1 [] 1 d1 run1 step1).
  assert (exec_log after1 [last1] = [(1, d1)]) as -> by (vm_compute; reflexivity). apply list_elem_of_here.
Defined.

Lemma sequence_moves_witness : sequenceID end1 = 2.
Proof.
  rewrite (sequence_moves after1 end1 last1 [] step1); [vm_compute; reflexivity|].
  by intros cv now clock m [= <- <- <- <-].
Defined.

Lemma stale_ignored_witness :
  handleCommit 0 0 (mkCommit d1 0 (nd 2)) p0 = Ok (Some (p0, [])).
Proof. apply (stale_ignored p0 0 0); vm_compute; reflexivity. Defined.

Lemma round_commits_witness :
  ∃ outs p', run p0 (round_events 0 0 1 r1 [nd 0; nd 1; nd 2] [nd 1; nd 2; nd 3]) outs p' ∧
    sequenceID p' = 2.
Proof.
  destruct (round_commits 0 0 1 r1 [nd 0; nd 1; nd 2] [nd 1; nd 2; nd 3] p0 ())
    as (outs & p' & Hr & _ & Hs & _); try done.
  - split; [|by vm_compute]. apply (bool_decide_eq_true_1 (NoDup _)). vm_compute. reflexivity.
  - split; [|by vm_compute]. apply (bool_decide_eq_true_1 (NoDup _)). vm_compute. reflexivity.
  - exists outs, p'. split; [exact Hr|]. rewrite Hs. vm_compute. reflexivity.
Defined.

Lemma equivocation_prepared_witness :
  ∃ outs p', run p0 [proposal r1; proposal r2] outs p' ∧
    MPrepare (mkPrepare (getDigest r1) 1 (RunningNode p0)) ∈ outs.*2 ∧
    MPrepare (mkPrepare (getDigest r2) 1 (RunningNode p0)) ∈ outs.*2.
Proof. by apply (equivocation_prepared 0 0 1 r1 r2 p0 () ()). Defined.

Definition leader0 : PbftConsensusNode unit := NewPbftNode 0 0 cfg4 table 0 0 ().

(** A node that is about to commit sequence 1 and already holds the request of sequence 2. *)
Definition ahead : PbftConsensusNode unit :=
  match exec p0 [proposal r1; prepare_from 0 d1 1 (nd 0); prepare_from 0 d1 1 (nd 1);
                 prepare_from 0 d1 1 (nd 2);
                 EvMsg 0 0 (λ _, 0) (MPrePrepare (mkPrePrepare r2 (getDigest r2) 2));
                 commit_from 0 0 (getDigest r2) 2 (nd 0); commit_from 0 0 (getDigest r2) 2 (nd 2)]
  with Some (_, p) => p | None => p0 end.
Definition skew : event := EvMsg 0 0 (λ _, 0) (MCommit (mkCommit (getDigest r2) 2 (nd 3))).
Definition skewed : PbftConsensusNode unit :=
  match step ahead skew with Ok (Some (p, _)) => p | _ => ahead end.

Lemma commit_ignores_sequence_witness :
  exec_log ahead [skew] = [(1, getDigest r2)] ∧ sequenceID skewed = 2.
Proof.
  destruct (commit_ignores_sequence 0 0 1 2 (λ _, 0) (getDigest r2) (nd 3) r2 ahead skewed [])
    as (He & Hs & _).
  1-5: vm_compute; done.
  - vm_compute. reflexivity.
  - apply (bool_decide_eq_true_1 (getDigest r2 ∉ isReply ahead)). vm_compute. reflexivity.
  - vm_compute. done.
  - vm_compute. reflexivity.
  - split; [exact He|]. rewrite Hs. vm_compute. reflexivity.
Defined.

Lemma view_change_votes_witness :
  ∃ p' outs, run p0 (vc_from 1 1 <$> [0; 2; 3; 1]) outs p' ∧ broadcasts p0 outs = 1.
Proof.
  destruct (view_change_votes 1 1 [0; 2; 3; 1] p0) as (p' & outs & Hr & _ & _ & Hb); try done.
  - apply (bool_decide_eq_true_1 (NoDup _)). vm_compute. reflexivity.
  - exists p', outs. split; [exact Hr|]. rewrite Hb. vm_compute. reflexivity.
Defined.

Definition nv (n : Z) : event := EvMsg 0 0 (λ _, 0) (MNewView (mkNewViewMsg 0 1 1 n)).
Definition almost : PbftConsensusNode unit :=
  match exec p0 [nv 0; nv 2] with Some (_, p) => p | None => p0 end.
Definition moved : PbftConsensusNode unit :=
  match step almost (nv 3) with Ok (Some (p, _)) => p | _ => almost end.

Lemma new_view_quorum_witness : view moved = 1 ∧ pbftStage moved = 1.
Proof.
  destruct (new_view_quorum almost moved (nv 3) [])
    as (cv & now & clock & m & voters & He & _ & _ & _ & Hv & _ & Hst).
  - vm_compute. reflexivity.
  - vm_compute. discriminate.
  - injection He as _ _ _ <-. split; [rewrite Hv; vm_compute; reflexivity|exact Hst].
Defined.

Lemma quorum_intersection_witness :
  2 ≤ len (List.filter (λ n, bool_decide (n ∈ [1; 2; 3])) [0; 1; 2]).
Proof.
  apply (proj1 (quorum_intersection 0 1 cfg4 table 0 0 () [0; 1; 2] [1; 2; 3])); try done;
    (split; [apply (bool_decide_eq_true_1 (NoDup _)); vm_compute; reflexivity|]);
    (split; [repeat constructor; done|vm_compute; done]).
Defined.
End PbftExample.
