(* ===== verification/ViewFacts.v ===== *)
(** * The lock of the leader

    [sequenceLock] is taken by the leader when it starts a round and given back by the commit of
    the round, if the node still leads then.  A leader that loses its role in between keeps it. *)
From S2P Require Import Prelude Utils Libs Core Messages Storage Chain MerkleProof Overhead Pbft PbftFacts.

Section lock.
Context `{Params, BitSetLib, CryptoLib, !Codec Request, !Codec Transaction, !Codec BlockHeader,
          !Codec Block}.
Context {X : Type} `{!ExtraOpInConsensus X, !OpInterShards X, !OpInterShardsLaws}.
Abbreviation pnode := (PbftConsensusNode X).

Definition leading (p : pnode) : Prop := u64 (view p) = PNodeID p.

(** A commit handler runs, or a blocked one goes on. *)
Definition is_commit (e : event) : bool :=
  match e with EvMsg _ _ _ (MCommit _) | EvResume _ => true | _ => false end.

(** In the run of [es] from [p] no commit handler does so while the node leads. *)
Fixpoint no_commit_leading (p : pnode) (es : list event) : Prop :=
  match es with
  | [] => True
  | e :: es' =>
      (leading p → is_commit e = false) ∧
      match step p e with Ok (Some (p', _)) => no_commit_leading p' es' | _ => True end
  end.

(** The lock and the number of the node. *)
Record keeps_lock (p p' : pnode) : Prop := {
  kl_lock : sequenceLock p = true → sequenceLock p' = true;
  kl_id : PNodeID p' = PNodeID p;
}.

Lemma learn_lock b rs (p : pnode) : keeps_lock p (foldl (learn_old b) p rs).
Proof.
  revert p. induction rs as [|ir rs IH]; intros p; [by split|]. cbn [foldl].
  destruct (IH (learn_old b p ir)) as [k1 k2]. by split.
Qed.

Lemma keeps_lock_refl p : keeps_lock p p.
Proof. by split. Qed.

Lemma keeps_lock_trans p p1 p2 : keeps_lock p p1 → keeps_lock p1 p2 → keeps_lock p p2.
Proof. intros [k1 k2] [k3 k4]. split; [auto|congruence]. Qed.

Lemma round_end_lock now (p p' : pnode) : ¬ leading p → round_end now p = Ok p' → keeps_lock p p'.
Proof.
  intros Hl. unfold round_end. intros Hs. handler; [|by split]. exfalso. apply Hl. unfold leading. zbool. by symmetry.
Qed.

Lemma commit_lock cv now cm (p p' : pnode) out : ¬ leading p → handleCommit cv now cm p = Ok (Some (p', out)) → keeps_lock p p'.
Proof.
  intros Hl. unfold handleCommit, ask_old. destruct (waits _ _ _ _); [done|]. destruct (stale _ _ _); [intros [= <- _]; apply keeps_lock_refl|].
  assert (keeps_lock p (set2DMap false (CDigest cm) (CSenderNode cm) p) ∧ ¬ leading (set2DMap false (CDigest cm) (CSenderNode cm) p))
    as [Hk Hl1] by (by split).
  revert Hk Hl1. generalize (set2DMap false (CDigest cm) (CSenderNode cm) p). intros p1 Hk Hl1 Hs.
  apply (keeps_lock_trans _ p1 _ Hk). clear p Hl Hk.
  destruct (_ && _); [|injection Hs as <- _; apply keeps_lock_refl].
  destruct (requestPool p1 !! CDigest cm).
  - apply go_bind_inv in Hs as ([[x o] f] & _ & Hs). apply go_bind_inv in Hs as (p2 & Hr & [= <- _]).
    apply round_end_lock in Hr; [|exact Hl1]. destruct Hr as [r1 r2]. by split.
  - destruct (askForLock _); [injection Hs as <- _; by split|].
    apply go_bind_inv in Hs as (p2 & Hr & [= <- _]). apply round_end_lock in Hr; [|exact Hl1]. destruct Hr as [r1 r2]. by split.
Qed.

Lemma send_old_lock som (p p' : pnode) out : handleSendOldSeq som p = Ok (Some (p', out)) → keeps_lock p p'.
Proof.
  unfold handleSendOldSeq. intros Hs. apply go_bind_inv in Hs as ([[x o] fl] & _ & Hs). cbv zeta in Hs.
  assert (keeps_lock p ((foldl (learn_old (SOSeqStartHeight som)) (p <| App := x |>) (imap pair (OldRequest som)))
                          <| sequenceID := u64 (SOSeqEndHeight som + 1) |>)) as Hk.
  { destruct (learn_lock (SOSeqStartHeight som) (imap pair (OldRequest som)) (p <| App := x |>)) as [k1 k2]. by split. }
  revert Hk Hs. generalize ((foldl (learn_old (SOSeqStartHeight som)) (p <| App := x |>) (imap pair (OldRequest som)))
                          <| sequenceID := u64 (SOSeqEndHeight som + 1) |>). intros p1 Hk Hs.
  apply (keeps_lock_trans _ p1 _ Hk). clear p Hk. handler; by split.
Qed.

Lemma message_lock cv now clock m (p p' : pnode) out : (leading p → is_commit (EvMsg cv now clock m) = false) →
  handleMessage cv now clock m p = Ok (Some (p', out)) → keeps_lock p p'.
Proof.
  intros Hc. unfold handleMessage. destruct (handleOverhead m p) as [o|] eqn:E.
  { unfold handleOverhead, compact_ask in E. destruct (negb Overhead_Enabled); [done|].
    destruct m; try discriminate E; injection E as <-; intros Hs; handler; by split. }
  clear E. destruct m; intros Hs;
    try (handler; match goal with Ho : HandleMessageOutsidePBFT _ _ _ = _ |- _ => rewrite (outside_frame _ _ _ _ _ Ho); by split end).
  - unfold handlePrePrepare in Hs. handler; by split.
  - unfold handlePrepare, set2DMap in Hs. handler; by split.
  - apply (commit_lock cv now m p p' out); [|done]. intros Hl. by specialize (Hc Hl).
  - unfold handleRequestOldSeq in Hs. handler; by split.
  - by eapply send_old_lock.
  - unfold handleViewChangeMsg in Hs. handler; by split.
  - unfold handleNewViewMsg in Hs. handler; by split.
  - handler; by split.
Qed.

Lemma step_lock (p p' : pnode) e out : (leading p → is_commit e = false) → step p e = Ok (Some (p', out)) → keeps_lock p p'.
Proof.
  intros Hc. destruct e; cbn [step]; intros Hs.
  - unfold Propose_begin in Hs. handler; by split.
  - unfold Propose_send in Hs. handler; by split.
  - unfold Propose_end in Hs. handler. case_match; by split.
  - assert (¬ leading p) as Hl by (intros Hl; by specialize (Hc Hl)). unfold handleCommit_resume, ask_old in Hs.
    destruct (blockedCommit p); [|done]. destruct (askForLock p); [done|].
    apply go_bind_inv in Hs as (p2 & Hr & [= <- _]). apply round_end_lock in Hr; [|exact Hl]. destruct Hr as [r1 r2]. by split.
  - unfold view_change_check, viewChangePropose in Hs. handler; by split.
  - unfold compact_deliver in Hs. handler. unfold handlePrePrepare in Hs. handler; by split.
  - by eapply message_lock.
Qed.

(** ** Proposals *)
Definition is_proposal (m : Msg) : bool := match m with MPrePrepare _ | MOHCompact _ => true | _ => false end.
Definition no_proposal (out : list packet) : Prop := Forall (λ pk : packet, is_proposal pk.2 = false) out.

(** The promise of the modules to the consensus: they send no proposals of their own. *)
Class NoProposals : Prop := {
  np_commit (p : pnode) now c x out b : HandleinCommit p now c = Ok (x, out, b) → no_proposal out;
  np_old (p : pnode) m x out b : HandleforSequentialRequest p m = Ok (x, out, b) → no_proposal out;
  np_outside (p p' : pnode) clock m out : HandleMessageOutsidePBFT p clock m = Ok (p', out) → no_proposal out;
}.
Context `{!NoProposals}.

Lemma broadcast_no_proposal sender ips m : is_proposal m = false → no_proposal (Broadcast sender ips m).
Proof. intros Hm. apply Forall_fmap, list.Forall_forall. done. Qed.

Lemma send_all_no_proposal (p : pnode) m : is_proposal m = false → no_proposal (send_all p m).
Proof. intros Hm. apply Forall_app. split; [by apply broadcast_no_proposal|by apply Forall_singleton]. Qed.

Ltac quiet_out := first [apply Forall_nil_2 | by apply Forall_singleton | by apply send_all_no_proposal | by apply broadcast_no_proposal].

Lemma ask_no_proposal now c (p p' : pnode) out : ask_old now c p = Ok (Some (p', out)) → no_proposal out.
Proof. unfold ask_old. intros (q & _ & [= _ <-])%go_bind_inv. quiet_out. Qed.

Lemma commit_no_proposal cv now c (p p' : pnode) out : handleCommit cv now c p = Ok (Some (p', out)) → no_proposal out.
Proof.
  unfold handleCommit. destruct (waits _ _ _ _); [done|]. destruct (stale _ _ _); [intros [= _ <-]; quiet_out|].
  generalize (set2DMap false (CDigest c) (CSenderNode c) p). clear p. intros p Hs.
  destruct (_ && _); [|injection Hs as _ <-; quiet_out]. destruct (requestPool p !! CDigest c).
  - apply go_bind_inv in Hs as ([[x o] f] & Hc & Hs). apply go_bind_inv in Hs as (q & _ & [= _ <-]). by eapply np_commit.
  - destruct (askForLock _); [injection Hs as _ <-; quiet_out|by eapply ask_no_proposal].
Qed.

Lemma send_old_no_proposal som (p p' : pnode) out : handleSendOldSeq som p = Ok (Some (p', out)) → no_proposal out.
Proof.
  unfold handleSendOldSeq. intros Hs. apply go_bind_inv in Hs as ([[x o] fl] & Ho & Hs). apply np_old in Ho. cbv zeta in Hs.
  apply go_bind_inv in Hs as ([p2 o2] & Hr & Hs). destruct (askForLock p2); [|done]. injection Hs as _ <-.
  apply Forall_app. split; [done|]. revert Hr. generalize (foldl (learn_old (SOSeqStartHeight som)) (p <| App := x |>) (imap pair (OldRequest som))).
  intros p3 Hr. handler; quiet_out.
Qed.

(** Only [Propose_send] sends proposals. *)
Lemma step_no_proposal (p p' : pnode) e out : match e with EvSend _ => False | _ => True end →
  step p e = Ok (Some (p', out)) → no_proposal out.
Proof.
  intros He. destruct e as [| | |now|now|cv cp|cv now clock m]; try done; cbn [step]; intros Hs.
  - unfold Propose_begin in Hs. handler; quiet_out.
  - unfold Propose_end in Hs. handler; quiet_out.
  - unfold handleCommit_resume in Hs. destruct (blockedCommit p); [|done]. destruct (askForLock p); [done|]. by eapply ask_no_proposal.
  - unfold view_change_check, viewChangePropose in Hs. handler; quiet_out.
  - unfold compact_deliver, handlePrePrepare in Hs. handler; quiet_out.
  - unfold handleMessage in Hs. destruct (handleOverhead m p) as [o|] eqn:E.
    { unfold handleOverhead, compact_ask in E. destruct (negb Overhead_Enabled); [done|].
      destruct m; try discriminate E; injection E as <-; handler; try quiet_out. case_match; quiet_out. }
    clear E. destruct m; try (handler; by eapply np_outside).
    + unfold handlePrePrepare in Hs. handler; quiet_out.
    + unfold handlePrepare in Hs. handler; quiet_out.
    + by eapply commit_no_proposal.
    + unfold handleRequestOldSeq in Hs. handler; quiet_out.
    + by eapply send_old_no_proposal.
    + unfold handleViewChangeMsg in Hs. handler; quiet_out.
    + unfold handleNewViewMsg in Hs. handler; quiet_out.
    + handler; quiet_out.
Qed.

(** C13: a leader that is deposed during a round never proposes again.  Let a node hold
    [sequenceLock], with no goroutine of [Propose] still to send the proposal of that round.  Whatever
    happens then, as long as no commit handler of the node runs while it leads (all commits may come
    while others lead): it keeps the lock, it sends no proposal at all, neither in full nor compact,
    and every goroutine of [Propose] that runs when the views have come round to the node waits. *)
Theorem deposed_leader_blocks (p p' : pnode) (es : list event) outs :
  run p es outs p' → paced 0 p es → sequenceLock p = true → no_commit_leading p es →
  sequenceLock p' = true ∧ PNodeID p' = PNodeID p ∧ (∀ pk, pk ∈ outs → is_proposal pk.2 = false) ∧
  (leading p' → Propose_begin p' = Ok None).
Proof.
  intros Hrun Hp Hlock. assert (∀ q : pnode, sequenceLock q = true → leading q → Propose_begin q = Ok None) as Hb.
  { intros q Hq Hl. unfold Propose_begin. rewrite (proj2 (Z.eqb_eq _ _) Hl), Hq. done. }
  induction Hrun as [p|p e p1 out es outs p2 Hs Hr IH]; intros Hn.
  { split; [done|]. split; [done|]. split; [by intros pk ?%not_elem_of_nil|auto]. }
  cbn [no_commit_leading paced] in Hn, Hp. rewrite Hs in Hn, Hp. destruct Hn as [Hc Hn], Hp as [He Hp].
  assert (proposing 0 p e = 0%nat) as Hk.
  { destruct e; try done. cbn [proposing step] in *. destruct (Z.eqb_spec (u64 (view p)) (PNodeID p)) as [Hl|]; [|done].
    by rewrite (Hb p Hlock Hl) in Hs. }
  rewrite Hk in Hp. assert (no_proposal out) as Ho by (eapply step_no_proposal; [|exact Hs]; by destruct e).
  destruct (step_lock p p1 e out Hc Hs) as [k1 k2]. destruct (IH Hp (k1 Hlock) Hn) as (? & -> & Hout & ?).
  split; [done|]. split; [done|]. split; [|done]. intros pk [Hin|Hin]%elem_of_app; [|by apply Hout].
  unfold no_proposal in Ho. rewrite list.Forall_forall in Ho. by apply Ho.
Qed.
End lock.
