(* ===== verification/RelayModule.v ===== *)
(** * The relay modules ([pbftInside_module.go], [pbftOutside_module.go], and the relay parts of
      [toolFuncs.go])

    What a shard does with a committed block: it adds it to its chain, and its leader sorts the
    transactions of the block, marks the cross-shard ones as relayed and sends them to the
    leaders of the recipients' shards.  The module's own state is the chain of the node. *)
From Stdlib Require Import Ascii.
From S2P Require Import Prelude Utils Libs Core Messages Storage Chain MerkleProof Overhead.
From S2P Require Import Pbft PbftFacts.

Section relay.
Context `{Params, BitSetLib, CryptoLib, !Codec AccountState, !Codec Request, !Codec Transaction,
          !Codec BlockHeader, !Codec Block, BoltLib, TrieLib}.

(** ** Sending ([toolFuncs.go]) *)
Section send.
Context {X : Type} (p : PbftConsensusNode X).

(** The other shards, in the order of the loop. *)
Definition other_shards : list Z :=
  List.filter (λ sid, negb (sid =? PShardID p)) (heights 0 (ShardNums (pbftChainConfig p) - 1)).

Definition RelayMsgSend (pool : TxPool) : go (TxPool * list packet) :=
  if negb (RelayWithMerkleProof =? 0) then Panic "RelayWithMerkleProof should be 0"
  else Ok (ClearRelayPool pool,
           (λ sid, (ip_of p sid 0,
                    MRelay (mkRelay (relay_lookup pool sid) (PShardID p) (sequenceID p))))
             <$> other_shards).

Definition RelayWithProofSend (block : Block) (pool : TxPool) : go (TxPool * list packet) :=
  if negb (RelayWithMerkleProof =? 1) then Panic "RelayWithMerkleProof should be 1"
  else Ok (ClearRelayPool pool,
           (λ sid, let txs := relay_lookup pool sid in
                   let txProofs := TxProofBatchGenerateOnBlock (TxHash <$> txs) block in
                   (ip_of p sid 0,
                    MRelayWithProof (mkRelayWithProof txs txProofs (PShardID p) (sequenceID p))))
             <$> other_shards).
End send.

(** ** Sorting the transactions of a committed block *)

(** What the loop of [HandleinCommit] builds: the body (whose transactions it marks in place),
    the pool with its relay lists, and the three lists of the report. *)
Record sorted_block := mkSorted {
  sb_body : list Transaction;
  sb_pool : TxPool;
  sb_inner : list Transaction;
  sb_relay1 : list Transaction;
  sb_relay2 : list Transaction;
}.
#[export] Instance sorted_eta : Eta sorted_block := λ s,
  mkSorted (sb_body s) (sb_pool s) (sb_inner s) (sb_relay1 s) (sb_relay2 s).

Definition sort_tx (sid : Z) (bc : BlockChain) (s : sorted_block) (tx : Transaction) : go sorted_block :=
  ssid ← Get_PartitionMap bc (Sender tx);
  rsid ← Get_PartitionMap bc (Recipient tx);
  if negb (Relayed tx) && negb (ssid =? sid) then Ok (s <| sb_body ::= λ l, l ++ [tx] |>)
  else if Relayed tx && negb (rsid =? sid) then Ok (s <| sb_body ::= λ l, l ++ [tx] |>)
  else if negb (rsid =? sid) then
    let tx := tx <| Relayed := true |> in
    pool ← AddRelayTx tx rsid (sb_pool s);
    Ok (s <| sb_body ::= λ l, l ++ [tx] |> <| sb_pool := pool |>
          <| sb_relay1 ::= λ l, l ++ [tx] |>)
  else if Relayed tx then
    Ok (s <| sb_body ::= λ l, l ++ [tx] |> <| sb_relay2 ::= λ l, l ++ [tx] |>)
  else Ok (s <| sb_body ::= λ l, l ++ [tx] |> <| sb_inner ::= λ l, l ++ [tx] |>).

Definition sort_block (sid : Z) (bc : BlockChain) (body : list Transaction) : go sorted_block :=
  go_fold (sort_tx sid bc)
    (mkSorted [] (Txpool bc) <| RelayPool := Some ∅ |> [] [] []) body.

(** [AddBlock] takes the block. *)
Definition accepts (b : Block) (bc : BlockChain) : bool :=
  (Number (Header b) =? u64 (Number (Header (CurrentBlock bc)) + 1))
  && bool_decide (ParentBlockHash (Header b) = Hash (CurrentBlock bc)).

(** The commit of a block, shared by the relay modules; [epoch] is the number of account
    transfers the node has done.  The transactions that are marked are those of the current
    block in memory, when the block was accepted. *)
Definition commit_block {X} (p : PbftConsensusNode X) (bc : BlockChain) (epoch : Z) (now : Time)
    (r : Request) : go (BlockChain * list packet) :=
  block ← DecodeB (Content r);
  let accepted := accepts block bc in
  bc ← AddBlock block bc;
  if PNodeID p =? u64 (view p) then
    s ← sort_block (PShardID p) bc (Body block);
    let marked := block <| Body := sb_body s |> in
    rs ← (if RelayWithMerkleProof =? 1 then RelayWithProofSend p marked (sb_pool s)
          else RelayMsgSend p (sb_pool s));
    let '(pool, out) := rs in
    let bim := mkBlockInfoMsg (len (Body block)) (sb_inner s) epoch (ReqTime r) now (PShardID p)
                 (sb_relay1 s) (sb_relay2 s) [] [] in
    let bc := bc <| Txpool := pool |> in
    let bc := if accepted then bc <| CurrentBlock := marked |> else bc in
    Ok (bc, out ++ [(ip_of p SupervisorShard 0, MBlockInfo bim)])
  else Ok (bc, []).

(** The body of a node's proposal check: a valid block. *)
Definition valid_proposal (bc : BlockChain) (ppmsg : PrePrepare) : go bool :=
  b ← DecodeB (Content (RequestMsg ppmsg));
  Ok (match IsValidBlock bc b with None => true | Some _ => false end).

(** A new block request. *)
Definition propose_block (bc : BlockChain) (miner : Z) (now : Time) : go (BlockChain * Request) :=
  g ← GenerateBlock bc miner now;
  let '(block, bc) := g in
  Ok (bc, mkRequest BlockRequest (Encode block) now).

(** ** [RawRelayPbftExtraHandleMod] *)
Abbreviation rnode := (PbftConsensusNode BlockChain).

Definition raw_HandleinPropose (p : rnode) (now : Time) : go (BlockChain * list packet * option Request) :=
  g ← propose_block (App p) (i32 (PNodeID p)) now;
  Ok (g.1, [], Some g.2).

Definition raw_HandleinPrePrepare (p : rnode) (ppmsg : PrePrepare) : go (BlockChain * bool) :=
  ok ← valid_proposal (App p) ppmsg;
  Ok (App p, ok).

Definition raw_HandleinCommit (p : rnode) (now : Time) (cmsg : Commit)
    : go (BlockChain * list packet * bool) :=
  match requestPool p !! CDigest cmsg with
  | None => Ok (App p, [], false)
  | Some r => c ← commit_block p (App p) 0 now r; Ok (c.1, c.2, true)
  end.

(** The loop over the heights of an answer to a catch-up request, shared by the modules: an index
    past the end of the requests is a panic. *)
Definition old_loop {A} (body : A → Request → go A) (som : SendOldMessage) (a : A) : go A :=
  go_fold (λ a height,
    match OldRequest som !! Z.to_nat (u64 (height - SOSeqStartHeight som)) with
    | None => Panic "index out of range"
    | Some r => body a r
    end) a (loop_heights (SOSeqStartHeight som) (SOSeqEndHeight som)).

(** The catch-up: the requests must fill the announced range. *)
Definition raw_HandleforSequentialRequest (p : rnode) (som : SendOldMessage)
    : go (BlockChain * list packet * bool) :=
  if negb (i64 (u64 (SOSeqEndHeight som - SOSeqStartHeight som + 1)) =? len (OldRequest som))
  then Ok (App p, [], true)
  else
    bc ← old_loop (λ bc r,
           if bool_decide (RequestType r = BlockRequest) then
             b ← DecodeB (Content r); AddBlock b bc
           else Ok bc) som (App p);
    Ok (bc, [], true).

#[export] Instance RawRelayPbftExtraHandleMod : ExtraOpInConsensus BlockChain := {|
  HandleinPropose := raw_HandleinPropose;
  HandleinPrePrepare := raw_HandleinPrePrepare;
  HandleinPrepare p _ := Ok (App p, true);
  HandleinCommit := raw_HandleinCommit;
  HandleReqestforOldSeq p _ := Ok (App p, true);
  HandleforSequentialRequest := raw_HandleforSequentialRequest |}.

(** ** [RawRelayOutsideModule] *)

(** The checks of [handleRelayWithProof]: [TxProofs[i]] past the end is a panic. *)
Fixpoint check_proofs (txs : list Transaction) (proofs : list TxProofResult) : go bool :=
  match txs with
  | [] => Ok true
  | tx :: txs' =>
      match proofs with
      | [] => Panic "index out of range"
      | pr :: proofs' =>
          r ← TxProofVerify (TxHash tx) pr;
          if negb r.1 then Ok false else check_proofs txs' proofs'
      end
  end.

Definition raw_handleRelay (p : rnode) (clock : nat → Time) (relay : Relay) : rnode :=
  p <| App ::= SendTx2Pool clock (RTxs relay) |>
    <| seqIDMap ::= <[RSenderShardID relay := RSenderSeq relay]> |>.

Definition raw_handleRelayWithProof (p : rnode) (clock : nat → Time) (rwp : RelayWithProof) : go rnode :=
  ok ← check_proofs (RPTxs rwp) (TxProofs rwp);
  let p := if (ok : bool) then p <| App ::= SendTx2Pool clock (RPTxs rwp) |> else p in
  Ok (p <| seqIDMap ::= <[RPSenderShardID rwp := RPSenderSeq rwp]> |>).

Definition raw_handleInjectTx (p : rnode) (clock : nat → Time) (it : InjectTxs) : rnode :=
  p <| App ::= SendTx2Pool clock (ITxs it) |>.

Definition raw_HandleMessageOutsidePBFT (p : rnode) (clock : nat → Time) (m : Msg)
    : go (rnode * list packet) :=
  match m with
  | MRelay relay => Ok (raw_handleRelay p clock relay, [])
  | MRelayWithProof rwp => p ← raw_handleRelayWithProof p clock rwp; Ok (p, [])
  | MInject it => Ok (raw_handleInjectTx p clock it, [])
  | _ => Ok (p, [])
  end.

#[export] Instance RawRelayOutsideModule : OpInterShards BlockChain := {|
  HandleMessageOutsidePBFT := raw_HandleMessageOutsidePBFT |}.

(** Below the largest height, an answer that passes the length test is gone through once, or not at
    all when its range is empty. *)
Lemma old_loop_list {A} (body : A → Request → go A) som a :
  0 ≤ SOSeqStartHeight som < two64 → 0 ≤ SOSeqEndHeight som < two64 - 1 →
  i64 (u64 (SOSeqEndHeight som - SOSeqStartHeight som + 1)) = len (OldRequest som) →
  ∃ rs, (rs = OldRequest som ∨ rs = []) ∧ old_loop body som a = go_fold body a rs.
Proof.
  destruct som as [st en rs sn]. cbn [SOSeqStartHeight SOSeqEndHeight OldRequest]. intros Hst Hen Hlen.
  unfold old_loop, loop_heights. cbn [SOSeqStartHeight SOSeqEndHeight OldRequest].
  rewrite (proj2 (Z.eqb_neq en (two64 - 1))), app_nil_r by lia. unfold heights.
  destruct (decide (st ≤ en)) as [Hle|Hlt]; [|exists []; split; [by right|by replace (Z.to_nat (en - st + 1)) with 0%nat by lia]].
  exists rs. split; [by left|]. assert (Z.to_nat (en - st + 1) = length rs) as Hl.
  { unfold u64, i64, two64, len in *. rewrite (Z.mod_small (en - st + 1)) in Hlen by lia.
    destruct (decide (en - st + 1 < 2 ^ 63)); [rewrite Z.mod_small in Hlen by lia; lia|].
    rewrite <-(Z.mod_unique (en - st + 1 + 2 ^ 63) (2 ^ 64) 1 (en - st + 1 - 2 ^ 63)) in Hlen by lia. lia. }
  rewrite Hl. assert (∀ pre, st + len pre + len rs ≤ two64 → go_fold (λ a height,
    match (pre ++ rs) !! Z.to_nat (u64 (height - st)) with None => Panic "index out of range" | Some r => body a r end) a
      ((λ i, st + Z.of_nat i) <$> seq (length pre) (length rs)) = go_fold body a rs) as Hgen.
  { clear Hlen Hle Hl Hen. revert a. induction rs as [|r rs IH]; intros a pre Hb; [done|]. unfold len in *. cbn [length seq fmap list_fmap go_fold] in *.
    rewrite u64_small by lia. replace (Z.to_nat (st + Z.of_nat (length pre) - st)) with (length pre) by lia.
    rewrite list_lookup_middle by done. destruct (body a r) as [a'|]; [|done]. cbn [mbind go_bind]. specialize (IH a' (pre ++ [r])).
    rewrite length_app, <-app_assoc in IH. cbn [length app] in IH. rewrite Nat.add_1_r in IH. apply IH. lia. }
  apply (Hgen []). unfold len, two64 in *. cbn [length]. lia.
Qed.

(** The module keeps its promises to the consensus. *)
#[export] Instance raw_outside_laws : OpInterShardsLaws (X := BlockChain).
Proof.
  split. intros p p' clock m out. cbn. unfold raw_HandleMessageOutsidePBFT.
  destruct m; intros Hs; try (injection Hs as <- <-; by destruct p).
  apply go_bind_inv in Hs as (q & Hq & [= <- <-]).
  unfold raw_handleRelayWithProof in Hq. apply go_bind_inv in Hq as (ok & _ & [= <-]).
  destruct ok; by destruct p.
Qed.

#[export] Instance raw_prepare : PrepareNoop (X := BlockChain).
Proof. by split. Qed.
End relay.
