(* ===== verification/RelayFacts.v ===== *)
(** * Properties of the relay mechanism

    The sorting of a committed block, the round of a whole shard with the relay module, and what
    a cross-shard transfer does to the balances of the two shards; how a node that catches up skips a
    block. *)
From S2P Require Import Prelude Utils Libs Core Messages Storage Chain MerkleProof Overhead.
From S2P Require Import Pbft PbftRecord PbftFacts ViewFacts RelayModule.

Section facts.
Context `{Params, BitSetLib, CryptoLib, !Codec AccountState, !Codec Request, !Codec Transaction,
          !Codec BlockHeader, !Codec Block, BoltLib, TrieLib}.

Definition mark (tx : Transaction) : Transaction := tx <| Relayed := true |>.

(** The kinds of transactions of a block of shard [sid]. *)
Definition is_inner (bc : BlockChain) (sid : Z) (tx : Transaction) : bool :=
  negb (Relayed tx) && (shard_of bc (Sender tx) =? sid) && (shard_of bc (Recipient tx) =? sid).
Definition is_relay1 (bc : BlockChain) (sid : Z) (tx : Transaction) : bool :=
  negb (Relayed tx) && (shard_of bc (Sender tx) =? sid) && negb (shard_of bc (Recipient tx) =? sid).
Definition is_relay2 (bc : BlockChain) (sid : Z) (tx : Transaction) : bool :=
  Relayed tx && (shard_of bc (Recipient tx) =? sid).

(** The relayed transactions for one shard. *)
Definition relayed_to (bc : BlockChain) (sid target : Z) (body : list Transaction) : list Transaction :=
  mark <$> List.filter (λ tx, is_relay1 bc sid tx && (shard_of bc (Recipient tx) =? target)) body.

(** The result of sorting [body] on top of [s]. *)
Record sorts (bc : BlockChain) (sid : Z) (body : list Transaction) (s s' : sorted_block) : Prop := {
  so_body : sb_body s' = sb_body s ++ ((λ tx, if is_relay1 bc sid tx then mark tx else tx) <$> body);
  so_inner : sb_inner s' = sb_inner s ++ List.filter (is_inner bc sid) body;
  so_relay1 : sb_relay1 s' = sb_relay1 s ++ (mark <$> List.filter (is_relay1 bc sid) body);
  so_relay2 : sb_relay2 s' = sb_relay2 s ++ List.filter (is_relay2 bc sid) body;
  so_queue : TxQueue (sb_pool s') = TxQueue (sb_pool s);
  so_pool : ∀ t, relay_lookup (sb_pool s') t = relay_lookup (sb_pool s) t ++ relayed_to bc sid t body;
  so_map : is_Some (RelayPool (sb_pool s'));
}.

Lemma add_relay_ok tx sid p :
  is_Some (RelayPool p) →
  ∃ p', AddRelayTx tx sid p = Ok p' ∧ TxQueue p' = TxQueue p ∧ is_Some (RelayPool p') ∧
    ∀ t, relay_lookup p' t = relay_lookup p t ++ (if sid =? t then [tx] else []).
Proof.
  intros [m Hm]. unfold AddRelayTx. rewrite Hm. eexists; split; [done|]. split; [done|].
  split; [by eexists|]. intros t. unfold relay_lookup. cbn. rewrite Hm. cbn.
  rewrite lookup_insert. destruct (Z.eqb_spec sid t); case_decide; subst; try done.
  by rewrite app_nil_r.
Qed.

Lemma sort_tx_spec bc sid s tx :
  placed bc (Sender tx) → placed bc (Recipient tx) → is_Some (RelayPool (sb_pool s)) →
  ∃ s', sort_tx sid bc s tx = Ok s' ∧ sorts bc sid [tx] s s'.
Proof.
  intros Hps%placed_shard Hpr%placed_shard Hm. unfold sort_tx. rewrite Hps, Hpr.
  cbn [mbind go_bind].
  assert (∀ t, relay_lookup (sb_pool s) t = relay_lookup (sb_pool s) t ++ []) as Hnil
    by (intros; by rewrite app_nil_r).
  destruct (Relayed tx) eqn:Er, (shard_of bc (Sender tx) =? sid) eqn:Es,
    (shard_of bc (Recipient tx) =? sid) eqn:Et; cbn [negb andb];
  try (eexists; split; [done|]; split;
    unfold relayed_to, is_inner, is_relay1, is_relay2; cbn; rewrite ?Er, ?Es, ?Et; cbn;
    rewrite ?app_nil_r; done || (intros; by rewrite app_nil_r)).
  destruct (add_relay_ok (mark tx) (shard_of bc (Recipient tx)) (sb_pool s) Hm)
    as (pool & Ha & Hq & Hi & Hl).
  unfold mark in Ha. rewrite Ha. cbn [mbind go_bind]. eexists; split; [done|].
  split; unfold relayed_to, is_inner, is_relay1, is_relay2; cbn; rewrite ?Er, ?Es, ?Et; cbn;
    rewrite ?app_nil_r; try done.
  intros t. rewrite Hl. f_equal. by destruct (_ =? t).
Qed.

Lemma sorts_cons bc sid tx body s1 s2 s3 :
  sorts bc sid [tx] s1 s2 → sorts bc sid body s2 s3 → sorts bc sid (tx :: body) s1 s3.
Proof.
  intros [a1 a2 a3 a4 a5 a6 _] [b1 b2 b3 b4 b5 b6 b7].
  split; rewrite ?b1, ?b2, ?b3, ?b4, ?b5, ?a1, ?a2, ?a3, ?a4, ?a5, <-?app_assoc; try done;
    try (f_equal; cbn; by case_match).
  intros t. rewrite b6, a6, <-app_assoc. f_equal. unfold relayed_to. cbn. by case_match.
Qed.

Lemma sort_fold_spec bc sid body s :
  txs_placed bc body → is_Some (RelayPool (sb_pool s)) →
  ∃ s', go_fold (sort_tx sid bc) s body = Ok s' ∧ sorts bc sid body s s'.
Proof.
  intros Hp. revert s. induction Hp as [|tx body [Hs Hr] _ IH]; intros s Hm.
  - exists s. split; [done|]. split; cbn; rewrite ?app_nil_r; try done.
    intros t. unfold relayed_to. cbn. by rewrite app_nil_r.
  - destruct (sort_tx_spec bc sid s tx Hs Hr Hm) as (s1 & E & H1').
    cbn [go_fold]. rewrite E. cbn [mbind go_bind].
    destruct (IH s1 (so_map _ _ _ _ _ H1')) as (s2 & E2 & H2').
    exists s2. split; [done|]. by eapply sorts_cons.
Qed.

(** The sorted block of an arbitrary body. *)
Lemma sort_block_spec bc sid body :
  txs_placed bc body →
  ∃ s, sort_block sid bc body = Ok s ∧
    sorts bc sid body (mkSorted [] (Txpool bc) <| RelayPool := Some ∅ |> [] [] []) s.
Proof. intros Hp. apply sort_fold_spec; [done|]. by eexists. Qed.

Lemma empty_relay bc t : relay_lookup ((Txpool bc) <| RelayPool := Some ∅ |>) t = [].
Proof. unfold relay_lookup. cbn. by rewrite lookup_empty. Qed.

Lemma commit_leader {X} (p : PbftConsensusNode X) bc bc1 epoch now r block :
  PNodeID p = u64 (view p) → RelayWithMerkleProof = 0 →
  DecodeB (Content r) = Ok block → AddBlock block bc = Ok bc1 → txs_placed bc1 (Body block) →
  ∃ bc', commit_block p bc epoch now r =
    Ok (bc', ((λ sid, (ip_of p sid 0, MRelay (mkRelay (relayed_to bc1 (PShardID p) sid (Body block))
                          (PShardID p) (sequenceID p)))) <$> other_shards p)
             ++ [(ip_of p SupervisorShard 0,
                  MBlockInfo (mkBlockInfoMsg (len (Body block))
                    (List.filter (is_inner bc1 (PShardID p)) (Body block)) epoch (ReqTime r) now
                    (PShardID p) (mark <$> List.filter (is_relay1 bc1 (PShardID p)) (Body block))
                    (List.filter (is_relay2 bc1 (PShardID p)) (Body block)) [] []))]) ∧
    RelayPool (Txpool bc') = None ∧ TxQueue (Txpool bc') = TxQueue (Txpool bc1) ∧
    triedb bc' = triedb bc1 ∧ Storage bc' = Storage bc1 ∧ Config bc' = Config bc1 ∧
    PartitionMap bc' = PartitionMap bc1 ∧
    (accepts block bc = false → CurrentBlock bc' = CurrentBlock bc1) ∧
    (accepts block bc = true →
       Header (CurrentBlock bc') = Header block ∧ Hash (CurrentBlock bc') = Hash block).
Proof.
  intros Hl Hm Hd Ha Hp. unfold commit_block. rewrite Hd. cbn [mbind go_bind]. rewrite Ha.
  cbn [mbind go_bind]. rewrite Hl, Z.eqb_refl.
  destruct (sort_block_spec bc1 (PShardID p) (Body block) Hp) as (s & Hs & [s1 s2 s3 s4 s5 s6 s7]).
  rewrite Hs. cbn [mbind go_bind]. unfold RelayMsgSend. rewrite Hm. cbn [Z.eqb negb mbind go_bind].
  cbn [sb_inner sb_relay1 sb_relay2 sb_pool] in *.
  eexists. split.
  - rewrite s2, s3, s4. cbn [app]. do 3 f_equal. apply list_fmap_ext. intros i sid _.
    rewrite s6, empty_relay. done.
  - destruct (accepts block bc); cbn; rewrite ?s5; done.
Qed.

(** The leader relays exactly the cross-shard transactions.  After a block is committed, the
    leader of its shard sends to the leader of every other shard one message with the
    transactions of the block whose sender is here and whose recipient is there, in order and
    marked as relayed, and nothing else; every transaction of the block that belongs here is
    reported to the supervisor in exactly one of the three lists. *)
Theorem leader_relays {X} (p : PbftConsensusNode X) bc bc1 epoch now r block :
  PNodeID p = u64 (view p) → RelayWithMerkleProof = 0 →
  DecodeB (Content r) = Ok block → AddBlock block bc = Ok bc1 → txs_placed bc1 (Body block) →
  Forall (λ tx, (Relayed tx = false → shard_of bc1 (Sender tx) = PShardID p) ∧
                (Relayed tx = true → shard_of bc1 (Recipient tx) = PShardID p)) (Body block) →
  ∃ bc' relays info, commit_block p bc epoch now r =
      Ok (bc', relays ++ [(ip_of p SupervisorShard 0, MBlockInfo info)]) ∧
    relays = (λ sid, (ip_of p sid 0, MRelay (mkRelay (relayed_to bc1 (PShardID p) sid (Body block))
                          (PShardID p) (sequenceID p)))) <$> other_shards p ∧
    Relay1Txs info = mark <$> List.filter (is_relay1 bc1 (PShardID p)) (Body block) ∧
    InnerShardTxs info ++ List.filter (is_relay1 bc1 (PShardID p)) (Body block) ++ Relay2Txs info
      ≡ₚ Body block ∧
    TxQueue (Txpool bc') = TxQueue (Txpool bc1).
Proof.
  intros Hl Hm Hd Ha Hp Hok.
  destruct (commit_leader p bc bc1 epoch now r block Hl Hm Hd Ha Hp) as (bc' & E & _ & Hq & _).
  eexists bc', _, _. split; [exact E|]. split; [done|]. split; [done|]. split; [|done].
  cbn [InnerShardTxs Relay2Txs]. clear E. induction Hok as [|tx body [H1' H2'] _ IH]; [done|].
  assert (txs_placed bc1 body) as Hp' by (by inversion Hp). cbn.
  unfold is_inner at 1, is_relay1 at 1, is_relay2 at 1.
  destruct (Relayed tx); cbn [negb andb].
  - rewrite H2', Z.eqb_refl by done. etrans; [|apply perm_skip, (IH Hp')]. solve_Permutation.
  - rewrite H1', Z.eqb_refl by done. cbn [andb].
    destruct (shard_of bc1 (Recipient tx) =? PShardID p); cbn [negb];
      (etrans; [|apply perm_skip, (IH Hp')]); solve_Permutation.
Qed.

(** ** A round of a shard *)
Context `{!BitSetLaws, !CryptoLaws, !CodecLaws AccountState, !CodecLaws BlockHeader,
          !CodecLaws Block, !BoltLaws, !TrieLaws}.

(** Committing an accepted block keeps the chain invariant, on every node. *)
Lemma commit_block_ok {X} (p : PbftConsensusNode X) bc bc1 m epoch now r block :
  RelayWithMerkleProof = 0 → DecodeB (Content r) = Ok block → AddBlock block bc = Ok bc1 →
  accepts block bc = true → chain_ok bc1 m → CurrentBlock bc1 = block →
  txs_placed bc1 (Body block) →
  ∃ bc' out, commit_block p bc epoch now r = Ok (bc', out) ∧ chain_ok bc' m ∧
    Header (CurrentBlock bc') = Header block ∧ TxQueue (Txpool bc') = TxQueue (Txpool bc1).
Proof.
  intros Hm Hd Ha Hacc Hck Hcur Hp. destruct (decide (PNodeID p = u64 (view p))) as [Hl|Hl].
  - destruct (commit_leader p bc bc1 epoch now r block Hl Hm Hd Ha Hp)
      as (bc' & E & _ & Hq & Ht & Hs & _ & _ & _ & Hc).
    destruct (Hc Hacc) as [Hc1 Hc2]. eexists bc', _. split; [exact E|]. split; [|done].
    destruct Hck as [[k1 k2] k3 k4 k5]. rewrite Hcur in *.
    split; [split|..]; rewrite ?Ht, ?Hs, ?Hc1, ?Hc2; done.
  - unfold commit_block. rewrite Hd. cbn [mbind go_bind]. rewrite Ha. cbn [mbind go_bind].
    rewrite (proj2 (Z.eqb_neq _ _) Hl). exists bc1, []. by rewrite Hcur.
Qed.

(** C9: a round extends the chain of every node with the leader's block.  The leader of a shard
    generates a block; a node of the shard with the same ledger, header and placement that
    receives the proposal and the prepare and commit messages of [2f + 1] different nodes ends
    the round with that block as its current block, the ledger being the executed one, and is
    ready for the next sequence number. *)
Theorem shard_round (leader : BlockChain) (p : PbftConsensusNode BlockChain) (m : ledger)
    (miner now : Z) (b : Block) (l1 : BlockChain) (cv s rtime : Z) (vs1 vs2 : list Node) :
  RelayWithMerkleProof = 0 →
  chain_ok leader m → chain_ok (App p) m →
  Header (CurrentBlock (App p)) = Header (CurrentBlock leader) →
  PartitionMap (App p) = PartitionMap leader →
  ShardID (Config (App p)) = ShardID (Config leader) →
  txs_placed leader (TxQueue (Txpool leader)) →
  GenerateBlock leader miner now = Ok (b, l1) →
  let r := mkRequest BlockRequest (Encode b) rtime in
  fresh_round cv s (getDigest r) p → quorum_of p vs1 → quorum_of p vs2 →
  ∃ outs p', run p (round_events cv now s r vs1 vs2) outs p' ∧
    sequenceID p' = u64 (s + 1) ∧ pbftStage p' = 1 ∧
    Header (CurrentBlock (App p')) = Header b ∧
    chain_ok (App p') (ledger_exec (shard_of leader) (ShardID (Config leader)) m (Body b)).
Proof.
  intros Hm Hl Hr Hcur Hpm Hsid Hpl Hg r Hf Hq1 Hq2.
  destruct (replica_add leader (App p) m miner now b l1 Hl Hr Hcur Hpm Hsid Hpl Hg)
    as (Hv & r1 & Ha & Hc & Hck & Htp & Hpm1 & Hcf & Hpar & Hnum & Hplr).
  assert (DecodeB (Content r) = Ok b) as Hd by apply must_decode_encode.
  assert (accepts b (App p) = true) as Hacc.
  { unfold accepts. by rewrite Hnum, Z.eqb_refl, bool_decide_eq_true_2. }
  assert (txs_placed r1 (Body b)) as Hpl1.
  { unfold txs_placed, placed, Get_PartitionMap in *. by rewrite Hpm1. }
  assert (∀ q, App q = App p → requestPool q !! getDigest r = Some r →
    ∀ v, ∃ bc' out, raw_HandleinCommit q now (mkCommit (getDigest r) s v) = Ok (bc', out, true) ∧
      Header (CurrentBlock bc') = Header b ∧
      chain_ok bc' (ledger_exec (shard_of leader) (ShardID (Config leader)) m (Body b))) as Hcom.
  { intros q Hq Hpool v. unfold raw_HandleinCommit. cbn [CDigest]. rewrite Hpool, Hq.
    destruct (commit_block_ok q (App p) r1 _ 0 now r b Hm Hd Ha Hacc Hck Hc Hpl1)
      as (bc' & out & -> & ? & ? & _). cbn [mbind go_bind]. eauto. }
  destruct (round_run cv now s r vs1 vs2 p (App p) Hf) as (outs & p' & Hrun & _ & Hs & Hst & _ & Hap);
    [..|done|done|].
  - cbn. unfold raw_HandleinPrePrepare, valid_proposal. cbn [RequestMsg].
    rewrite Hd. cbn [mbind go_bind]. by rewrite Hv.
  - intros q v Hq Hpool. cbn. destruct (Hcom q Hq Hpool v) as (? & ? & -> & _). done.
  - destruct Hap as (q & v & out & fl & Hq & Hpool & Hh). cbn in Hh.
    destruct (Hcom q Hq Hpool v) as (bc' & out' & E & ? & ?).
    rewrite E in Hh. injection Hh as -> _ _. eauto 10.
Qed.

(** ** Cross-shard transfers *)

(** The total of the balances an execution leaves, for a list of addresses. *)
Lemma exec_total bc m txs addrs db rt :
  state_ok bc m → txs_placed bc txs → GetUpdateStatusTrie bc txs = Ok (db, rt) →
  ∀ bc', triedb bc' = db → StateRoot (Header (CurrentBlock bc')) = rt →
  ∃ new, FetchAccounts bc' addrs = Ok new ∧
    sumZ Balance new = sumZ (balance_exec (shard_of bc) (ShardID (Config bc)) (bal m) txs) addrs.
Proof.
  intros Hst Hpl E bc' <- <-.
  destruct (update_status_spec bc m txs Hst Hpl) as (db' & rt' & E' & Hok & Hr & _).
  rewrite E in E'. injection E' as <- <-.
  eexists. split; [apply fetch_accounts_spec; split; [exact Hok|exact Hr]|].
  rewrite sumZ_fmap. apply sumZ_ext. intros a _. apply ledger_exec_bal.
Qed.

Lemma fetch_total bc m addrs :
  state_ok bc m → ∃ old, FetchAccounts bc addrs = Ok old ∧ sumZ Balance old = sumZ (bal m) addrs.
Proof. intros Hst. eexists. split; [by apply fetch_accounts_spec|]. by rewrite sumZ_fmap. Qed.

(** Two shards [A] and [B] and a transaction from [A] to [B]; the states [A'] and [B'] after [A]
    has executed the transaction and [B] the relayed one; the leader [p] of [A] with the block
    that holds the transaction. *)
Record transfer {X} (p : PbftConsensusNode X) (A B A' B' A1 : BlockChain) (mA mB : ledger)
    (tx : Transaction) (r : Request) : Prop := {
  tr_A : state_ok A mA;
  tr_B : state_ok B mB;
  tr_pA : txs_placed A [tx];
  tr_pB : txs_placed B [tx];
  tr_ne : ShardID (Config A) ≠ ShardID (Config B);
  tr_sA : shard_of A (Sender tx) = ShardID (Config A) ∧ shard_of A (Recipient tx) = ShardID (Config B);
  tr_sB : shard_of B (Recipient tx) = ShardID (Config B);
  tr_broker : HasBroker tx = false;
  tr_rel : Relayed tx = false;
  tr_execA : GetUpdateStatusTrie A [tx] = Ok (triedb A', StateRoot (Header (CurrentBlock A')));
  tr_execB : GetUpdateStatusTrie B [mark tx] = Ok (triedb B', StateRoot (Header (CurrentBlock B')));
  tr_leader : PNodeID p = u64 (view p);
  tr_shard : PShardID p = ShardID (Config A);
  tr_other : ShardID (Config B) ∈ other_shards p;
  tr_block : ∃ block, DecodeB (Content r) = Ok block ∧ Body block = [tx] ∧ AddBlock block A = Ok A1;
  tr_map : PartitionMap A1 = PartitionMap A;
}.

(** A cross-shard transfer.  Shard A executes the transaction and relays it, shard B executes
    the relayed one.  When the sender can pay, the total of the two shards is unchanged.  When
    the sender cannot pay, A skips the debit, but the leader of A relays the transaction all the
    same, and B credits it: the total of the two shards grows by the value of the
    transaction. *)
Theorem cross_shard_transfer {X} (p : PbftConsensusNode X) (A B A' B' A1 : BlockChain)
    (mA mB : ledger) (tx : Transaction) (r : Request) epoch now addrs :
  transfer p A B A' B' A1 mA mB tx r → RelayWithMerkleProof = 0 →
  NoDup addrs → Sender tx ∈ addrs → Recipient tx ∈ addrs →
  (∃ bc' out, commit_block p A epoch now r = Ok (bc', out) ∧
     (ip_of p (ShardID (Config B)) 0,
      MRelay (mkRelay [mark tx] (PShardID p) (sequenceID p))) ∈ out) ∧
  ∃ oA oB nA nB, FetchAccounts A addrs = Ok oA ∧ FetchAccounts B addrs = Ok oB ∧
    FetchAccounts A' addrs = Ok nA ∧ FetchAccounts B' addrs = Ok nB ∧
    sumZ Balance nA + sumZ Balance nB =
      sumZ Balance oA + sumZ Balance oB +
      (if bool_decide (Value tx ≤ bal mA (Sender tx)) then 0 else Value tx).
Proof.
  intros [HA HB HpA HpB Hne [HsA HrA] HrB Hbk Hrel EA EB Hl Hsid Hoth (block & Hd & Hbody & Hadd) Hpm]
    Hm Hnd Hs Hr.
  split.
  - destruct (commit_leader p A A1 epoch now r block Hl Hm Hd Hadd) as (bc' & E & _).
    { rewrite Hbody. unfold txs_placed, placed, Get_PartitionMap in *. by rewrite Hpm. }
    eexists bc', _. split; [exact E|]. apply elem_of_app. left.
    apply list_elem_of_fmap. exists (ShardID (Config B)). split; [|done].
    do 3 f_equal. rewrite Hbody. unfold relayed_to. cbn.
    assert (∀ a, shard_of A1 a = shard_of A a) as Hs1
      by (intros a; unfold shard_of, Get_PartitionMap; by rewrite Hpm).
    unfold is_relay1. rewrite Hrel, !Hs1, Hsid.
    rewrite HsA, HrA, !Z.eqb_refl. cbn [negb andb].
    rewrite (proj2 (Z.eqb_neq _ _)) by done. done.
  - destruct (fetch_total A mA addrs HA) as (oA & HoA & SA).
    destruct (fetch_total B mB addrs HB) as (oB & HoB & SB).
    destruct (exec_total A mA [tx] addrs _ _ HA HpA EA A' eq_refl eq_refl) as (nA & HnA & TA).
    assert (txs_placed B [mark tx]) as HpB' by (unfold txs_placed in *; rewrite Forall_singleton in HpB; by rewrite Forall_singleton).
    destruct (exec_total B mB [mark tx] addrs _ _ HB HpB' EB B' eq_refl eq_refl) as (nB & HnB & TB).
    exists oA, oB, nA, nB. do 4 (split; [done|]). rewrite TA, TB, SA, SB.
    rewrite !balance_exec_sum by (done || by rewrite Forall_singleton).
    unfold net_flow, net_tx, rejected, debits, credits. cbn [mark Relayed Sender Recipient HasBroker Value].
    rewrite HsA, HrA.
    change (Recipient (mark tx)) with (Recipient tx). change (HasBroker (mark tx)) with (HasBroker tx).
    change (Relayed (mark tx)) with true. change (Value (mark tx)) with (Value tx).
    rewrite HrB.
    rewrite Hrel, Hbk, !Z.eqb_refl. cbn [negb andb orb].
    rewrite (proj2 (Z.eqb_neq (ShardID (Config B)) _)) by done. cbn [orb].
    repeat case_bool_decide; lia.
Qed.

(** ** The lock *)

(** The module sends relays and reports, no proposals. *)
#[export] Instance raw_no_proposals : NoProposals (X := BlockChain).
Proof.
  split; cbn.
  - intros p now c x out b. unfold raw_HandleinCommit. destruct (requestPool p !! _); [|intros [= _ <- _]; apply Forall_nil_2].
    intros ([bc o] & Hc & [= _ <- _])%go_bind_inv. unfold commit_block in Hc.
    apply go_bind_inv in Hc as (blk & _ & Hc). apply go_bind_inv in Hc as (bc1 & _ & Hc).
    destruct (_ =? _); [|injection Hc as _ <-; apply Forall_nil_2].
    apply go_bind_inv in Hc as (sb & _ & Hc). apply go_bind_inv in Hc as ([pool o1] & Hs & [= _ <-]).
    apply Forall_app. split; [|by apply Forall_singleton]. unfold RelayWithProofSend, RelayMsgSend in Hs.
    destruct (RelayWithMerkleProof =? 1), (RelayWithMerkleProof =? 0); cbn [negb] in Hs; try done;
      injection Hs as _ <-; apply Forall_fmap, list.Forall_forall; done.
  - intros p som x out b. unfold raw_HandleforSequentialRequest. destruct (negb _); [intros [= _ <- _]; apply Forall_nil_2|].
    intros (bc & _ & [= _ <- _])%go_bind_inv. apply Forall_nil_2.
  - intros p p' clock m out. unfold raw_HandleMessageOutsidePBFT.
    destruct m; try (intros [= _ <-]; apply Forall_nil_2). intros (q & _ & [= _ <-])%go_bind_inv. apply Forall_nil_2.
Qed.

(** ** Catching up *)

(** The node of a commit quorum for a request it does not have asks for the heights from the next one. *)
Definition ask_next (s : Z) (p : PbftConsensusNode BlockChain) : RequestOldMessage :=
  mkRequestOldMessage (s + 1) s
    (mkNode (u64 (view p)) (PShardID p) (ip_of p (PShardID p) (u64 (view p)))) (RunningNode p).

Definition asking_node (now : Time) (c : Commit) (p : PbftConsensusNode BlockChain) : PbftConsensusNode BlockChain :=
  (after_vote c p) <| isReply ::= λ S, {[CDigest c]} ∪ S |> <| askForLock := true |>
    <| pbftStage := 1 |> <| lastCommitTime := UnixMilli now |>.

Lemma commit_asks_next cv now s d v (p : PbftConsensusNode BlockChain) :
  let c := mkCommit d s v in
  0 ≤ s < two64 - 1 → view p = cv → sequenceID p = s → 3 ≤ pbftStage p → PNodeID p ≠ u64 cv →
  requestPool p !! d = None → d ∉ isReply p → askForLock p = false → blockedCommit p = None →
  u64 (2 * malicious_nums p + 1) ≤ len (commit_votes c p) →
  handleCommit cv now c p =
    Ok (Some (asking_node now c p, [(IPaddr (ROServerNode (ask_next s p)), MRequestOld (ask_next s p))])).
Proof.
  intros c Hrange Hv Hs Hk Hnl Hp Hr Ha Hb Hq.
  destruct (not_waiting 3 s cv p) as [Hw Hst]; [lia|done|done|done|].
  unfold handleCommit. cbn [CSeqID CDigest CSenderNode c]. rewrite Hw, Hst.
  change (set2DMap false d v p) with (after_vote c p). unfold commit_votes in Hq. cbn [CDigest c] in Hq.
  change (malicious_nums (after_vote c p)) with (malicious_nums p).
  change (isReply (after_vote c p)) with (isReply p).
  change (requestPool (after_vote c p)) with (requestPool p).
  rewrite (proj2 (Z.leb_le _ _) Hq), bool_decide_eq_false_2 by done. cbn [negb andb]. rewrite Hp. cbv zeta.
  match goal with |- context [askForLock ?x] => change (askForLock x) with (askForLock p) end.
  rewrite Ha. unfold ask_old, round_end. cbn -[u64 after_vote].
  change (PNodeID (after_vote c p)) with (PNodeID p). change (view (after_vote c p)) with (view p).
  rewrite Hv, (proj2 (Z.eqb_neq (PNodeID p) (u64 cv))) by done. cbn -[u64].
  unfold ask_next, asking_node. rewrite <-Hv. repeat f_equal. cbn [sequenceID after_vote set2DMap upd].
  change (sequenceID (after_vote c p)) with (sequenceID p). rewrite Hs. apply u64_small. lia.
Qed.

(** The range is empty. *)
Lemma next_range s : 0 ≤ s < two64 - 1 → loop_heights (s + 1) s = [].
Proof.
  intros Hs. unfold loop_heights, heights. rewrite (proj2 (Z.eqb_neq s (two64 - 1))) by lia.
  by replace (s - (s + 1) + 1) with 0 by lia.
Qed.

Lemma leader_sends_none s p (leader : PbftConsensusNode BlockChain) : 0 ≤ s < two64 - 1 → u64 (view leader) = PNodeID leader →
  handleRequestOldSeq (ask_next s p) leader = Ok (Some (leader <| App := App leader |>,
    [(IPaddr (RunningNode p), MSendOld (mkSendOldMessage (s + 1) s [] (RunningNode leader)))])).
Proof.
  intros Hs Hlead. unfold handleRequestOldSeq. rewrite Hlead, Z.eqb_refl.
  cbn [negb mbind go_bind HandleReqestforOldSeq RawRelayPbftExtraHandleMod fst ROSeqStartHeight ROSeqEndHeight ask_next ROSenderNode].
  by rewrite next_range.
Qed.

Lemma learns_none s (p : PbftConsensusNode BlockChain) sn : 0 ≤ s < two64 - 1 → askForLock p = true →
  map_Forall (λ _ r, is_ok (DecodeB (Content r)) = true) (requestPool p) →
  ∃ p2 out, handleSendOldSeq (mkSendOldMessage (s + 1) s [] sn) p = Ok (Some (p2, out)) ∧
    sequenceID p2 = s + 1 ∧ App p2 = App p ∧ requestPool p2 = requestPool p ∧ isReply p2 = isReply p.
Proof.
  intros Hrange Ha Hdec. unfold handleSendOldSeq. cbn [HandleforSequentialRequest RawRelayPbftExtraHandleMod].
  assert (raw_HandleforSequentialRequest p (mkSendOldMessage (s + 1) s [] sn) = Ok (App p, [], true)) as ->.
  { unfold raw_HandleforSequentialRequest, old_loop. cbn [SOSeqStartHeight SOSeqEndHeight OldRequest].
    rewrite next_range by done. by replace (s - (s + 1) + 1) with 0 by lia. }
  cbn [mbind go_bind OldRequest imap foldl SOSeqEndHeight]. rewrite u64_small by lia.
  set (q := upd sequenceID _ _). change (requestPool q) with (requestPool p).
  destruct (d' ← height2Digest q !! sequenceID q; requestPool p !! d') as [rr|] eqn:Err.
  - apply bind_Some in Err as (d' & _ & Err). specialize (Hdec d' rr Err). cbn beta in Hdec.
    cbn [HandleinPrePrepare RawRelayPbftExtraHandleMod]. unfold raw_HandleinPrePrepare, valid_proposal. cbn [RequestMsg].
    destruct (DecodeB (Content rr)) as [b|]; [|done]. cbn [mbind go_bind].
    destruct (IsValidBlock (App q) b); cbn; rewrite Ha; by eexists _, _.
  - cbn. rewrite Ha. by eexists _, _.
Qed.

(** C39: catching up skips a block.  A node that sees a commit quorum at its own sequence number
    for a request it never received asks the leader for the heights from the NEXT sequence
    number on: an empty range.  The leader answers with no request at all, and the node then
    moves to the next sequence number without the block of this one: its chain is the old one, and
    the digest is marked as replied, so that further commits for it do nothing. *)
Theorem catchup_skips_block (cv now s : Z) (d : bytes) (v : Node) (p leader : PbftConsensusNode BlockChain) :
  let c := mkCommit d s v in
  0 ≤ s < two64 - 1 →
  view p = cv → sequenceID p = s → 3 ≤ pbftStage p → PNodeID p ≠ u64 cv →
  requestPool p !! d = None → d ∉ isReply p → askForLock p = false → blockedCommit p = None →
  map_Forall (λ _ r, is_ok (DecodeB (Content r)) = true) (requestPool p) →
  u64 (2 * malicious_nums p + 1) ≤ len (commit_votes c p) →
  u64 (view leader) = PNodeID leader →
  ∃ p1 p2 rom som out ip1 ip2,
    handleCommit cv now c p = Ok (Some (p1, [(ip1, MRequestOld rom)])) ∧
    handleRequestOldSeq rom leader = Ok (Some (leader <| App := App leader |>, [(ip2, MSendOld som)])) ∧
    OldRequest som = [] ∧
    handleSendOldSeq som p1 = Ok (Some (p2, out)) ∧
    sequenceID p2 = s + 1 ∧ App p2 = App p ∧ requestPool p2 !! d = None ∧ d ∈ isReply p2.
Proof.
  intros c Hrange Hv Hs Hk Hnl Hp Hr Ha Hb Hdec Hq Hlead.
  destruct (learns_none s (asking_node now c p) (RunningNode leader) Hrange eq_refl Hdec) as (p2 & out & Hso & Es & Ex & Ep & Er).
  eexists (asking_node now c p), p2, (ask_next s p), _, out, _, _.
  split; [by apply commit_asks_next|]. split; [by apply leader_sends_none|]. split; [done|]. split; [exact Hso|].
  split; [done|]. split; [done|]. rewrite Ep, Er. split; [exact Hp|]. cbn. set_solver.
Qed.
End facts.

(** ** Witnesses *)
Module RelayExample.
Import ConcreteLibs ConcreteCore ChainExample.
#[local] Existing Instance default_params.
#[local] Existing Instance OverheadExample.req_codec.

Definition cfgB : ChainConfig := mkChainConfig 1 0 1 4 4 2000 5000 300 2000.
(** A transfer from shard 3 to shard 1 that its sender cannot pay. *)
Definition big : Transaction := sample_tx addrA addrC (10 ^ 45).

Lemma big_placed bc : PartitionMap bc = ∅ →
  txs_placed bc [big] ∧ shard_of bc addrA = 3 ∧ shard_of bc addrC = 1.
Proof.
  intros E. destruct (placed_here bc addrA 3 E) as [? ?]; [vm_compute; reflexivity|].
  destruct (placed_here bc addrC 1 E) as [? ?]; [vm_compute; reflexivity|].
  split; [|done]. apply Forall_singleton. done.
Qed.

(** The block that a leader of shard 3 makes of one transaction, on the chain of another node. *)
Lemma one_block bc tx :
  chain_ok bc ∅ → Config bc = cfg → Txpool bc = NewTxPool → PartitionMap bc = ∅ → stamp 1 tx = tx → txs_placed bc [tx] →
  ∃ b l1 bc1, GenerateBlock (SendTx2Pool (λ _, 1) [tx] bc) 0 10 = Ok (b, l1) ∧
    Body b = [tx] ∧ AddBlock b bc = Ok bc1 ∧ PartitionMap bc1 = ∅.
Proof.
  intros Hck Hc Hp Hm Hst Htx. set (snt := SendTx2Pool (λ _, 1) [tx] bc).
  assert (chain_ok snt ∅) as Hcks by (by apply send_chain_ok).
  assert (TxQueue (Txpool snt) = [tx]) as Hq by (cbn; by rewrite Hp, Hst).
  assert (txs_placed snt (TxQueue (Txpool snt))) as Hpl by (by rewrite Hq).
  destruct (generate_block_spec snt ∅ 0 10 (ck_state _ _ Hcks) Hpl) as (db & rt & Hg & _).
  destruct (replica_add snt bc ∅ 0 10 _ _ Hcks Hck eq_refl eq_refl eq_refl Hpl Hg)
    as (_ & bc1 & Ha & _ & _ & _ & Hpm & _).
  eexists _, _, bc1. split; [exact Hg|]. split; [|split; [exact Ha|by rewrite Hpm]].
  cbn [Body seal NewBlock upd]. unfold pack_block, PackTxs. rewrite Hq. cbn. rewrite Hc. done.
Qed.

Lemma big_block bc :
  chain_ok bc ∅ → Config bc = cfg → Txpool bc = NewTxPool → PartitionMap bc = ∅ →
  ∃ b l1 bc1, GenerateBlock (SendTx2Pool (λ _, 1) [big] bc) 0 10 = Ok (b, l1) ∧
    Body b = [big] ∧ AddBlock b bc = Ok bc1 ∧ PartitionMap bc1 = ∅.
Proof. intros Hck Hc Hp Hm. apply one_block; try done. by apply big_placed. Qed.

(** Nodes of shard 3. *)
Definition nodes (l : list Z) : list Node := (λ i, mkNode i 3 "") <$> l.

Lemma leader_relays_witness :
  ∃ (p : PbftConsensusNode BlockChain) r bc' out,
    commit_block p (App p) 0 20 r = Ok (bc', out) ∧
    (ip_of p 1 0, MRelay (mkRelay [mark big] 3 1)) ∈ out.
Proof.
  destruct (genesis_of cfg) as (bc & Hn & Hck & Hc & Hp & Hm & _).
  destruct (big_block bc Hck Hc Hp Hm) as (b & l1 & bc1 & _ & Hb & Ha & Hm1).
  set (p := NewPbftNode 3 0 cfg ∅ 0 0 bc). set (r := mkRequest BlockRequest (Encode b) 10).
  destruct (big_placed bc1 Hm1) as (Hpl & HsA & HsC).
  destruct (leader_relays p bc bc1 0 20 r b) as (bc' & relays & info & E & Hr & _);
    try done; rewrite ?Hb; try done.
  - apply must_decode_encode.
  - apply Forall_singleton. split; [done|]. by intros Hx.
  - exists p, r, bc', (relays ++ [(ip_of p SupervisorShard 0, MBlockInfo info)]). split; [exact E|].
    apply elem_of_app. left. rewrite Hr. apply list_elem_of_fmap. exists 1. split.
    + do 3 f_equal. rewrite Hb. unfold relayed_to, is_relay1. cbn. by rewrite HsA, HsC.
    + apply (bool_decide_eq_true_1 (1 ∈ other_shards p)). vm_compute. reflexivity.
Defined.

Lemma shard_round_witness :
  ∃ (p : PbftConsensusNode BlockChain) b l1 outs p',
    GenerateBlock (sent (App p)) 0 10 = Ok (b, l1) ∧
    run p (round_events 0 10 1 (mkRequest BlockRequest (Encode b) 10)
             (nodes [0; 1; 2]) (nodes [1; 2; 3])) outs p' ∧
    Header (CurrentBlock (App p')) = Header b.
Proof.
  destruct (genesis_of cfg) as (bc & Hn & Hck & Hc & Hp & Hm & _).
  assert (txs_placed (sent bc) (TxQueue (Txpool (sent bc)))) as Hpl.
  { replace (TxQueue (Txpool (sent bc))) with txs by (cbn; by rewrite Hp). by apply txs_here. }
  assert (chain_ok (sent bc) ∅) as Hck' by (by apply send_chain_ok).
  destruct (generate_block_spec (sent bc) ∅ 0 10 (ck_state _ _ Hck') Hpl) as (db & rt & Hg & _).
  set (p := NewPbftNode 3 1 cfg ∅ 0 0 bc).
  destruct (shard_round (sent bc) p ∅ 0 10 _ _ 0 1 10
    (nodes [0; 1; 2]) (nodes [1; 2; 3])
    (eq_refl : @RelayWithMerkleProof default_params = 0) Hck' Hck eq_refl eq_refl eq_refl Hpl Hg)
    as (outs & p' & Hr & _ & _ & Hh & _).
  - split; try done; try apply not_elem_of_empty.
  - split; [|by vm_compute]. apply (bool_decide_eq_true_1 (NoDup _)). vm_compute. reflexivity.
  - split; [|by vm_compute]. apply (bool_decide_eq_true_1 (NoDup _)). vm_compute. reflexivity.
  - eexists p, _, _, outs, p'. split; [exact Hg|]. split; [exact Hr|exact Hh].
Defined.

(** A chain that differs by its database and the state root of its current block. *)
Definition with_state (bc : BlockChain) (db : TrieDB) (rt : bytes) : BlockChain :=
  bc <| triedb := db |> <| CurrentBlock ::= λ b, b <| Header ::= λ h, h <| StateRoot := rt |> |> |>.

Lemma cross_shard_transfer_witness :
  ∃ A B A' B' oA oB nA nB, FetchAccounts A [addrA; addrC] = Ok oA ∧
    FetchAccounts B [addrA; addrC] = Ok oB ∧ FetchAccounts A' [addrA; addrC] = Ok nA ∧
    FetchAccounts B' [addrA; addrC] = Ok nB ∧
    sumZ Balance nA + sumZ Balance nB =
      sumZ Balance oA + sumZ Balance oB +
      (if bool_decide (Value big ≤ bal ∅ (Sender big)) then 0 else Value big).
Proof.
  destruct (genesis_of cfg) as (A & _ & HckA & HcA & HpA & HmA & _).
  destruct (genesis_of cfgB) as (B & _ & HckB & HcB & _ & HmB & _).
  destruct (big_block A HckA HcA HpA HmA) as (b & l1 & A1 & _ & Hb & Ha & Hm1).
  destruct (big_placed A HmA) as (HplA & HsA & HrA), (big_placed B HmB) as (HplB & _ & HrB).
  destruct (update_status_spec A ∅ [big] (ck_state _ _ HckA) HplA) as (dbA & rtA & EA & _).
  assert (txs_placed B [mark big]) as HplB'.
  { unfold txs_placed in *. rewrite Forall_singleton in HplB. by rewrite Forall_singleton. }
  destruct (update_status_spec B ∅ [mark big] (ck_state _ _ HckB) HplB') as (dbB & rtB & EB & _).
  destruct (cross_shard_transfer (NewPbftNode 3 0 cfg ∅ 0 0 ()) A B (with_state A dbA rtA)
    (with_state B dbB rtB) A1 ∅ ∅ big (mkRequest BlockRequest (Encode b) 10) 0 20 [addrA; addrC])
    as (_ & oA & oB & nA & nB & Hfin).
  - split; rewrite ?HcA, ?HcB; try done; [apply HckA|apply HckB|..].
    + apply (bool_decide_eq_true_1 (1 ∈ other_shards (NewPbftNode 3 0 cfg ∅ 0 0 ()))).
      vm_compute. reflexivity.
    + exists b. split; [apply must_decode_encode|done].
    + by rewrite Hm1.
  - done.
  - apply (bool_decide_eq_true_1 (NoDup _)). vm_compute. reflexivity.
  - set_solver.
  - set_solver.
  - eexists _, _, _, _, oA, oB, nA, nB. exact Hfin.
Defined.

(** A follower of shard 3 whose time-out has come and which has seen two of the three commits that
    make a quorum, for a request it does not have. *)
Definition nd3 (i : Z) : Node := mkNode i 3 "".
Definition vote (d : bytes) (i : Z) : event := EvMsg 0 0 (λ _, 0) (MCommit (mkCommit d 1 (nd3 i))).
Definition behind (bc : BlockChain) : PbftConsensusNode BlockChain :=
  let p := NewPbftNode 3 1 cfg ∅ 0 0 bc in
  match step p (EvTimer (62135596800 * 10 ^ 9 + 10 ^ 12)) with
  | Ok (Some (p1, _)) =>
      match step p1 (vote "digest" 0) with
      | Ok (Some (p2, _)) => match step p2 (vote "digest" 2) with Ok (Some (p3, _)) => p3 | _ => p end
      | _ => p
      end
  | _ => p
  end.

Lemma catchup_skips_block_witness :
  ∃ bc p1 p2 rom som out ip1 ip2, let leader := NewPbftNode 3 0 cfg ∅ 0 0 bc in
    handleCommit 0 0 (mkCommit "digest" 1 (nd3 3)) (behind bc) = Ok (Some (p1, [(ip1, MRequestOld rom)])) ∧
    handleRequestOldSeq rom leader = Ok (Some (leader <| App := App leader |>, [(ip2, MSendOld som)])) ∧
    OldRequest som = [] ∧
    handleSendOldSeq som p1 = Ok (Some (p2, out)) ∧
    sequenceID p2 = 1 + 1 ∧ App p2 = App (behind bc) ∧ requestPool p2 !! "digest" = None ∧ "digest" ∈ isReply p2.
Proof.
  destruct (genesis_of cfg) as (bc & _). exists bc.
  apply (catchup_skips_block 0 0 1 "digest" (nd3 3) (behind bc) (NewPbftNode 3 0 cfg ∅ 0 0 bc)).
  1-6: vm_compute; done.
  - apply (bool_decide_eq_true_1 ("digest" ∉ isReply (behind bc))). vm_compute. reflexivity.
  - vm_compute. reflexivity.
  - vm_compute. reflexivity.
  - vm_compute. done.
  - vm_compute. done.
  - vm_compute. reflexivity.
Defined.

(** The leader of shard 3 has made its proposal; it is deposed, a commit for another request comes
    while node 1 leads, and the views come round to it again. *)
Definition new_view (v n : Z) : event := EvMsg 0 0 (λ _, 0) (MNewView (mkNewViewMsg 0 v 1 n)).
Definition late (t : Z) : event := EvTimer (62135596800 * 10 ^ 9 + t * 10 ^ 12).
Definition rotation : list event :=
  [late 1; new_view 1 1; new_view 1 2; new_view 1 3; late 2;
   EvMsg 1 0 (λ _, 0) (MCommit (mkCommit "digest" 1 (nd3 2))); new_view 0 1; new_view 0 2; new_view 0 3].
Definition proposed (bc : BlockChain) (rp : gmap bytes Request) (hd : gmap Z bytes) : PbftConsensusNode BlockChain :=
  (NewPbftNode 3 0 cfg ∅ 0 0 bc) <| sequenceLock := true |> <| App := bc |> <| requestPool := rp |> <| height2Digest := hd |>.

Lemma rotation_runs bc rp hd : ∃ outs p', run (proposed bc rp hd) rotation outs p' ∧ leading p'.
Proof.
  assert (match exec (proposed bc rp hd) rotation with Some (_, p') => u64 (view p') =? PNodeID p' | None => false end = true) as E
    by (vm_compute; reflexivity).
  destruct (exec (proposed bc rp hd) rotation) as [[outs p']|] eqn:Ee; [|discriminate E]. exists outs, p'.
  split; [by apply exec_run|by apply Z.eqb_eq].
Qed.

Lemma rotation_paced bc rp hd : paced 0 (proposed bc rp hd) rotation ∧ no_commit_leading (proposed bc rp hd) rotation.
Proof. vm_compute. repeat split; intros E; try discriminate E; reflexivity. Qed.

Lemma deposed_leader_blocks_witness :
  ∃ (p p1 p2 p' : PbftConsensusNode BlockChain) out outs,
    step p EvBegin = Ok (Some (p1, [])) ∧ step p1 (EvSend 10) = Ok (Some (p2, out)) ∧
    run p2 rotation outs p' ∧ leading p' ∧ Propose_begin p' = Ok None.
Proof.
  destruct (genesis_of cfg) as (bc & _ & Hck & _ & Hp & _).
  destruct (generate_block_spec bc ∅ 0 10 (ck_state _ _ Hck)) as (db & rt & Hg & _); [rewrite Hp; constructor|].
  set (b := seal _ _) in Hg. set (bc1 := _ <| triedb := _ |>) in Hg.
  set (r := mkRequest BlockRequest (Encode b) 10).
  destruct (rotation_runs bc1 {[getDigest r := r]} {[1 := getDigest r]}) as (outs & p' & Hrun & Hl).
  destruct (rotation_paced bc1 {[getDigest r := r]} {[1 := getDigest r]}) as [Hpc Hnc].
  destruct (deposed_leader_blocks _ p' rotation outs Hrun Hpc eq_refl Hnc) as (_ & _ & _ & Hb).
  eexists (NewPbftNode 3 0 cfg ∅ 0 0 bc), _, _, p', _, outs.
  split; [reflexivity|]. split; [|split; [exact Hrun|split; [done|by apply Hb]]].
  cbn [step]. unfold Propose_send. cbn [HandleinPropose RawRelayPbftExtraHandleMod]. unfold raw_HandleinPropose, propose_block.
  match goal with |- context [GenerateBlock ?x ?y ?z] => change (GenerateBlock x y z) with (GenerateBlock bc 0 10) end.
  rewrite Hg. reflexivity.
Defined.
End RelayExample.
