(* ===== verification/ClpaModule.v ===== *)
(** * Re-partitioning of accounts ([accountTransfer_module.go], [pbftInside_moduleCLPA.go],
      [pbftOutside_moduleCLPA.go], [dataSupport/clpaData_Extra.go])

    When a new partition map arrives, the leader of a shard tells the other shards it is ready,
    waits until all are, sends the states of the accounts that leave and their pending
    transactions, waits for what the other shards send, and proposes the account transfer as a
    request of its own.  The polling loops of [HandleinPropose] are phases: each call of the
    model is one look at the condition of the loop. *)
From S2P Require Import Prelude Utils Libs Core Messages Storage Chain MerkleProof Overhead.
From S2P Require Import Pbft PbftFacts RelayModule.

(** [dataSupport.Data_supportCLPA]; [PartitionReady] only ever maps to true. *)
Record Data_supportCLPA := mkCdm {
  ModifiedMap : list (gmap string Z);
  AccountTransferRound : Z;
  ReceivedNewAccountState : gmap string AccountState;
  ReceivedNewTx : list Transaction;
  AccountStateTx : gmap Z AccountStateAndTx;
  PartitionOn : bool;
  PartitionReady : gset Z;
  ReadySeq : gmap Z Z;
  CollectOver : bool;
}.
#[export] Instance cdm_eta : Eta Data_supportCLPA := λ c,
  mkCdm (ModifiedMap c) (AccountTransferRound c) (ReceivedNewAccountState c) (ReceivedNewTx c)
    (AccountStateTx c) (PartitionOn c) (PartitionReady c) (ReadySeq c) (CollectOver c).

Definition NewCLPADataSupport : Data_supportCLPA := mkCdm [] 0 ∅ [] ∅ false ∅ ∅ false.

(** Where [HandleinPropose] is. *)
Inductive propose_phase := PhIdle | PhWaitReady | PhWaitCollect.

Section clpa.
Context `{Params, BitSetLib, CryptoLib, !Codec AccountState, !Codec Request, !Codec Transaction,
          !Codec BlockHeader, !Codec Block, !Codec AccountTransferMsg, BoltLib, TrieLib}.

Record ClpaApp := mkClpaApp {
  CurChain : BlockChain;
  cdm : Data_supportCLPA;
  phase : propose_phase;
}.
#[export] Instance ClpaApp_eta : Eta ClpaApp := λ x, mkClpaApp (CurChain x) (cdm x) (phase x).

Abbreviation cnode := (PbftConsensusNode ClpaApp).
Abbreviation chain_of p := (CurChain (App p)).
Abbreviation data_of p := (cdm (App p)).

(** ** [accountTransfer_module.go] *)
Definition sendPartitionReady (p : cnode) : ClpaApp * list packet :=
  let pr := mkPartitionReadyMsg (PShardID p) (sequenceID p) in
  ((App p) <| cdm ::= λ c, c <| PartitionReady ::= λ s, {[PShardID p]} ∪ s |> |>,
   (λ sid, (ip_of p sid 0, MPartitionReady pr)) <$> other_shards p).

(** Every shard is ready, and the relay messages of the other shards up to their last sequence
    number have arrived. *)
Definition getPartitionReady (p : cnode) : bool :=
  (Z.of_nat (size (PartitionReady (data_of p))) =? ShardNums (pbftChainConfig p)) &&
  forallb (λ sv : Z * Z, match ReadySeq (data_of p) !! sv.1 with
                         | Some rval => u64 (rval - 1) =? sv.2
                         | None => false
                         end) (map_to_list (seqIDMap p)).

(** A transaction of the queue leaves with the account it works on. *)
Definition leaves_with (addrSet : gset string) (tx : Transaction) : bool :=
  (bool_decide (Sender tx ∈ addrSet) && negb (Relayed tx))
  || (bool_decide (Recipient tx ∈ addrSet) && Relayed tx).

(** The accounts that leave this shard under the map [mm], in the order of [map_to_list]. *)
Definition accounts_to_fetch (sid : Z) (bc : BlockChain) (mm : gmap string Z) : go (list string) :=
  go_fold (λ acc kv,
    if kv.2 =? sid then Ok acc
    else s ← Get_PartitionMap bc kv.1;
         Ok (if s =? sid then acc ++ [kv.1] else acc)) [] (map_to_list mm).

(** One iteration of the loop over the shards: the message to shard [i], and the queue left. *)
Definition send_to_shard (p : cnode) (mm : gmap string Z) (accts : list (string * AccountState))
    (acc : list Transaction * list packet) (i : Z) : list Transaction * list packet :=
  let '(queue, out) := acc in
  let sel := List.filter (λ aa : string * AccountState, default 0 (mm !! aa.1) =? i) accts in
  let addrSet : gset string := list_to_set sel.*1 in
  let txSend := List.filter (leaves_with addrSet) queue in
  let keep := List.filter (λ tx, negb (leaves_with addrSet tx)) queue in
  (keep, out ++ [(ip_of p i 0,
                  MAccountStateAndTx (mkAccountStateAndTx sel.*1 sel.*2 txSend (PShardID p)))]).

Definition sendAccounts_and_Txs (p : cnode) : go (ClpaApp * list packet) :=
  match last (ModifiedMap (data_of p)) with
  | None => Panic "index out of range"
  | Some mm =>
      accountToFetch ← accounts_to_fetch (PShardID p) (chain_of p) mm;
      asFetched ← FetchAccounts (chain_of p) accountToFetch;
      let '(queue, out) := foldl (send_to_shard p mm (zip accountToFetch asFetched))
                             (TxQueue (Txpool (chain_of p)), []) (other_shards p) in
      Ok ((App p) <| CurChain ::= λ bc, bc <| Txpool ::= λ t, t <| TxQueue := queue |> |> |>, out)
  end.

Definition getCollectOver (p : cnode) : bool := CollectOver (data_of p).

(** The received states, by address: a message whose states run out is a panic. *)
Definition receive_one (sts : list AccountState) (m : gmap string AccountState) (ia : nat * string)
    : go (gmap string AccountState) :=
  match sts !! ia.1 with
  | None => Panic "index out of range"
  | Some s => Ok (<[ia.2 := s]> m)
  end.

Definition receive_states (at_ : AccountStateAndTx) (m : gmap string AccountState)
    : go (gmap string AccountState) :=
  go_fold (receive_one (ASAccountState at_)) m (imap pair (ASAddrs at_)).

(** All the states and transactions of the messages [ats]. *)
Definition collect_one (acc : gmap string AccountState * list Transaction) (at_ : AccountStateAndTx)
    : go (gmap string AccountState * list Transaction) :=
  m ← receive_states at_ acc.1;
  Ok (m, acc.2 ++ ASTxs at_).

(** The check of [proposePartition] on a received transaction; a missing key reads as 0. *)
Definition tx_belongs (sid : Z) (mm : gmap string Z) (tx : Transaction) : bool :=
  if Relayed tx then default 0 (mm !! Recipient tx) =? sid else default 0 (mm !! Sender tx) =? sid.

Definition proposePartition (p : cnode) (now : Time) (clock : nat → Time) : go (ClpaApp * Request) :=
  let c := data_of p in
  st ← go_fold collect_one (ReceivedNewAccountState c, ReceivedNewTx c)
         (map_to_list (AccountStateTx c)).*2;
  let '(states, txs) := st in
  match ModifiedMap c !! Z.to_nat (AccountTransferRound c) with
  | None => Panic "index out of range"
  | Some mm =>
      if negb (forallb (tx_belongs (PShardID p) mm) txs) then Panic "error tx"
      else
        let atm := mkAccountTransferMsg mm (map_to_list states).*1 (map_to_list states).*2
                     (len (ModifiedMap c)) in
        let x := (App p) <| cdm := c <| ReceivedNewAccountState := states |> <| ReceivedNewTx := txs |> |>
                         <| CurChain ::= SendTx2Pool clock txs |> in
        Ok (x, mkRequest PartitionReq (Encode atm) now)
  end.

(** [migrationDone]: the acknowledgement to the supervisor. *)
Definition migrationDone (p : cnode) (epoch : Z) : list packet :=
  if Overhead_Enabled then [(SupervisorAddr, MOHMigrationDone (PShardID p) (PNodeID p) epoch)] else [].

Definition accountTransfer_do (p : cnode) (x : ClpaApp) (atm : AccountTransferMsg)
    : go (ClpaApp * list packet) :=
  let bc := foldl (λ bc kv, Update_PartitionMap kv.1 kv.2 bc) (CurChain x)
              (map_to_list (ATModifiedMap atm)) in
  bc ← AddAccounts (ATAddrs atm) (ATAccountState atm) (view p) bc;
  let c := cdm x in
  let mm := if len (ModifiedMap c) =? ATid atm then ModifiedMap c
            else ModifiedMap c ++ [ATModifiedMap atm] in
  Ok (mkClpaApp bc (mkCdm mm (ATid atm) ∅ [] ∅ false ∅ (ReadySeq c) false) (phase x),
      migrationDone p (ATid atm)).

(** ** [CLPAPbftInsideExtraHandleMod] *)
Definition clpa_HandleinPropose (p : cnode) (now : Time) : go (ClpaApp * list packet * option Request) :=
  match phase (App p) with
  | PhIdle =>
      if PartitionOn (data_of p) then
        let '(x, out) := sendPartitionReady p in
        Ok (x <| phase := PhWaitReady |>, out, None)
      else
        g ← propose_block (chain_of p) (i32 (PNodeID p)) now;
        Ok ((App p) <| CurChain := g.1 |>, [], Some g.2)
  | PhWaitReady =>
      if getPartitionReady p then
        r ← sendAccounts_and_Txs p;
        Ok (r.1 <| phase := PhWaitCollect |>, r.2, None)
      else Ok (App p, [], None)
  | PhWaitCollect =>
      if getCollectOver p then
        r ← proposePartition p now (λ _, now);
        Ok (r.1 <| phase := PhIdle |>, [], Some r.2)
      else Ok (App p, [], None)
  end.

Definition clpa_HandleinPrePrepare (p : cnode) (ppmsg : PrePrepare) : go (ClpaApp * bool) :=
  if bool_decide (RequestType (RequestMsg ppmsg) = PartitionReq) then Ok (App p, true)
  else ok ← valid_proposal (chain_of p) ppmsg; Ok (App p, ok).

Definition clpa_HandleinCommit (p : cnode) (now : Time) (cmsg : Commit)
    : go (ClpaApp * list packet * bool) :=
  match requestPool p !! CDigest cmsg with
  | None => Ok (App p, [], false)
  | Some r =>
      if bool_decide (RequestType r = PartitionReq) then
        atm ← MustDecode (Content r);
        t ← accountTransfer_do p (App p) atm;
        Ok (t.1, t.2, true)
      else
        c ← commit_block p (chain_of p) (i64 (AccountTransferRound (data_of p))) now r;
        Ok ((App p) <| CurChain := c.1 |>, c.2, true)
  end.

Definition clpa_HandleforSequentialRequest (p : cnode) (som : SendOldMessage)
    : go (ClpaApp * list packet * bool) :=
  if negb (i64 (u64 (SOSeqEndHeight som - SOSeqStartHeight som + 1)) =? len (OldRequest som))
  then Ok (App p, [], true)
  else
    r ← old_loop (λ (acc : ClpaApp * list packet) r,
          let '(x, out) := acc in
          if bool_decide (RequestType r = BlockRequest) then
            b ← DecodeB (Content r);
            bc ← AddBlock b (CurChain x);
            Ok (x <| CurChain := bc |>, out)
          else
            atm ← MustDecode (Content r);
            t ← accountTransfer_do p x atm;
            Ok (t.1, out ++ t.2)) som (App p, []);
    Ok (r.1, r.2, true).

#[export] Instance CLPAPbftInsideExtraHandleMod : ExtraOpInConsensus ClpaApp := {|
  HandleinPropose := clpa_HandleinPropose;
  HandleinPrePrepare := clpa_HandleinPrePrepare;
  HandleinPrepare p _ := Ok (App p, true);
  HandleinCommit := clpa_HandleinCommit;
  HandleReqestforOldSeq p _ := Ok (App p, true);
  HandleforSequentialRequest := clpa_HandleforSequentialRequest |}.

(** ** [CLPARelayOutsideModule] *)

(** The worker of [initOverhead] sends a batch of bodies to the other replicas. *)
Definition stream_packets (p : cnode) (bodies : option (list bytes)) : list packet :=
  match bodies with
  | None => []
  | Some l =>
      (λ n, (ip_of p (PShardID p) n, MOHStream l)) <$>
        List.filter (λ n, negb (n =? PNodeID p) && negb (n =? Overhead_StreamSkipNode))
          (heights 0 (node_nums p - 1))
  end.

(** Stream the transactions, then add them to the pool. *)
Definition take_txs (p : cnode) (clock : nat → Time) (txs : list Transaction) : cnode * list packet :=
  let '(c, batch) := streamTransactions txs (overhead p) in
  (p <| overhead := c |> <| App ::= λ x, x <| CurChain ::= SendTx2Pool clock txs |> |>,
   stream_packets p batch).

Definition clpa_handleRelay (p : cnode) (clock : nat → Time) (relay : Relay) : cnode * list packet :=
  let '(p, out) := take_txs p clock (RTxs relay) in
  (p <| seqIDMap ::= <[RSenderShardID relay := RSenderSeq relay]> |>, out).

Definition clpa_handleRelayWithProof (p : cnode) (clock : nat → Time) (rwp : RelayWithProof) : go cnode :=
  ok ← check_proofs (RPTxs rwp) (TxProofs rwp);
  let p := if (ok : bool) then
             p <| App ::= λ x, x <| CurChain ::= SendTx2Pool clock (RPTxs rwp) |> |> else p in
  Ok (p <| seqIDMap ::= <[RPSenderShardID rwp := RPSenderSeq rwp]> |>).

Definition clpa_handleInjectTx (p : cnode) (clock : nat → Time) (it : InjectTxs) : cnode * list packet :=
  take_txs p clock (ITxs it).

(** Change the re-partitioning data. *)
Definition on_cdm (f : Data_supportCLPA → Data_supportCLPA) (p : cnode) : cnode :=
  p <| App ::= λ x, x <| cdm ::= f |> |>.

Definition handlePartitionMsg (pm : gmap string Z) (p : cnode) : cnode :=
  on_cdm (λ c, c <| ModifiedMap ::= λ l, l ++ [pm] |> <| PartitionOn := true |>) p.

Definition handlePartitionReady (pr : PartitionReadyMsg) (p : cnode) : cnode :=
  on_cdm (λ c, c <| PartitionReady ::= λ s, {[PRFromShard pr]} ∪ s |>
                 <| ReadySeq ::= <[PRFromShard pr := NowSeqID pr]> |>) p.

Definition handleAccountStateAndTxMsg (at_ : AccountStateAndTx) (p : cnode) : cnode :=
  on_cdm (λ c, let c := c <| AccountStateTx ::= <[FromShard at_ := at_]> |> in
               if Z.of_nat (size (AccountStateTx c)) =? i64 (ShardNums (pbftChainConfig p)) - 1
               then c <| CollectOver := true |> else c) p.

Definition clpa_HandleMessageOutsidePBFT (p : cnode) (clock : nat → Time) (m : Msg)
    : go (cnode * list packet) :=
  match m with
  | MRelay relay => Ok (clpa_handleRelay p clock relay)
  | MRelayWithProof rwp => p ← clpa_handleRelayWithProof p clock rwp; Ok (p, [])
  | MInject it => Ok (clpa_handleInjectTx p clock it)
  | MPartition pm => Ok (handlePartitionMsg pm p, [])
  | MAccountStateAndTx at_ => Ok (handleAccountStateAndTxMsg at_ p, [])
  | MPartitionReady pr => Ok (handlePartitionReady pr p, [])
  | _ => Ok (p, [])
  end.

#[export] Instance CLPARelayOutsideModule : OpInterShards ClpaApp := {|
  HandleMessageOutsidePBFT := clpa_HandleMessageOutsidePBFT |}.

(** The module keeps its promises to the consensus, so every property of the node holds with it. *)
#[export] Instance clpa_outside_laws : OpInterShardsLaws (X := ClpaApp).
Proof.
  split. intros p p' clock m out. cbn. unfold clpa_HandleMessageOutsidePBFT.
  destruct m; intros Hs; try (injection Hs as <- <-; by destruct p).
  - unfold clpa_handleRelay, take_txs in Hs. destruct (streamTransactions _ _).
    injection Hs as <- <-. by destruct p.
  - apply go_bind_inv in Hs as (q & Hq & [= <- <-]).
    unfold clpa_handleRelayWithProof in Hq. apply go_bind_inv in Hq as (ok & _ & [= <-]).
    destruct ok; by destruct p.
  - unfold clpa_handleInjectTx, take_txs in Hs. destruct (streamTransactions _ _).
    injection Hs as <- <-. by destruct p.
Qed.

#[export] Instance clpa_prepare : PrepareNoop (X := ClpaApp).
Proof. by split. Qed.
End clpa.
