(* ===== verification/ClpaFacts.v ===== *)
(** * Properties of the re-partitioning

    What leaves a shard goes to the right shard and passes its check, and an account that moves
    keeps its balance from the old shard's chain to the new one's. *)
From S2P Require Import Prelude Utils Libs Core Messages Storage Chain MerkleProof Overhead.
From S2P Require Import Pbft PbftFacts RelayModule ClpaModule.

Section facts.
Context `{Params, BitSetLib, CryptoLib, !Codec AccountState, !Codec Request, !Codec Transaction,
          !Codec BlockHeader, !Codec Block, !Codec AccountTransferMsg, BoltLib, TrieLib}.
Abbreviation cnode := (PbftConsensusNode ClpaApp).

(** The message to one shard, and the transactions it carries. *)
Definition selected (mm : gmap string Z) (accts : list (string * AccountState)) (i : Z)
    : list (string * AccountState) :=
  List.filter (λ aa : string * AccountState, default 0 (mm !! aa.1) =? i) accts.

Definition message_for (p : cnode) (mm : gmap string Z) (accts : list (string * AccountState))
    (i : Z) (txs : list Transaction) : packet :=
  (ip_of p i 0, MAccountStateAndTx (mkAccountStateAndTx (selected mm accts i).*1
                  (selected mm accts i).*2 txs (PShardID p))).

Lemma leaves_belong mm accts i tx :
  leaves_with (list_to_set (selected mm accts i).*1) tx = true → tx_belongs i mm tx = true.
Proof.
  assert (∀ a, a ∈ (list_to_set (selected mm accts i).*1 : gset string) →
    default 0 (mm !! a) =? i = true) as Hsel.
  { intros a Ha. apply elem_of_list_to_set, list_elem_of_fmap in Ha as ([a' s] & -> & Hin).
    apply list_elem_of_In, filter_In in Hin as [_ Hv]. exact Hv. }
  unfold leaves_with, tx_belongs. intros [Hl|Hl]%orb_true_iff; apply andb_true_iff in Hl as [Ha Hr];
    apply bool_decide_eq_true in Ha; destruct (Relayed tx); try done; by apply Hsel.
Qed.

(** The loop over the shards. *)
Lemma send_fold p mm accts shards q0 out0 :
  ∃ q sent, foldl (send_to_shard p mm accts) (q0, out0) shards =
      (q, out0 ++ zip_with (message_for p mm accts) shards sent) ∧
    length sent = length shards ∧ q ++ concat sent ≡ₚ q0 ∧
    Forall2 (λ i txs, Forall (λ tx, tx_belongs i mm tx = true) txs) shards sent.
Proof.
  revert q0 out0. induction shards as [|i shards IH]; intros q0 out0.
  - exists q0, []. cbn. rewrite !app_nil_r. done.
  - cbn [foldl]. unfold send_to_shard at 2. fold (selected mm accts i).
    set (S := list_to_set (selected mm accts i).*1 : gset string).
    destruct (IH (List.filter (λ tx, negb (leaves_with S tx)) q0)
      (out0 ++ [message_for p mm accts i (List.filter (leaves_with S) q0)])) as (q & sent & E & Hl & Hp & HF).
    exists q, (List.filter (leaves_with S) q0 :: sent). split; [|split; [|split]].
    + unfold message_for at 1 in E. rewrite E. cbn [zip_with]. by rewrite <-app_assoc.
    + cbn. by rewrite Hl.
    + cbn [concat]. rewrite (filter_split_perm (leaves_with S) q0) at 2. rewrite <-Hp.
      solve_Permutation.
    + constructor; [|done]. apply Forall_forall. intros tx.
      rewrite list_elem_of_In, filter_In. intros [_ Hx]. by eapply leaves_belong.
Qed.

(** C15: what leaves a shard.  [sendAccounts_and_Txs] sends one message to every other shard.  The
    transactions it sends and those it keeps in the queue are together the queue it had, nothing
    lost or duplicated; every transaction sent to a shard passes the check that shard makes
    before proposing ([error tx] otherwise); accounts go to the shard the new map gives them. *)
Theorem transfer_partitions (p : cnode) (x : ClpaApp) (out : list packet) :
  sendAccounts_and_Txs p = Ok (x, out) →
  ∃ mm accts sent, last (ModifiedMap (cdm (App p))) = Some mm ∧
    out = zip_with (message_for p mm accts) (other_shards p) sent ∧
    length sent = length (other_shards p) ∧
    TxQueue (Txpool (CurChain x)) ++ concat sent ≡ₚ TxQueue (Txpool (CurChain (App p))) ∧
    Forall2 (λ i txs, Forall (λ tx, tx_belongs i mm tx = true) txs ∧
               Forall (λ aa, default 0 (mm !! aa.1) = i) (selected mm accts i))
      (other_shards p) sent.
Proof.
  unfold sendAccounts_and_Txs. destruct (last (ModifiedMap (cdm (App p)))) as [mm|]; [|done].
  intros (ac & _ & E)%go_bind_inv. apply go_bind_inv in E as (as_ & _ & E).
  destruct (send_fold p mm (zip ac as_) (other_shards p) (TxQueue (Txpool (CurChain (App p)))) [])
    as (q & sent & Hf & Hl & Hp & HF).
  rewrite Hf in E. injection E as <- <-. exists mm, (zip ac as_), sent. cbn.
  repeat (split; [done|]). eapply Forall2_impl; [exact HF|]. intros i txs Ht. split; [exact Ht|].
  apply Forall_forall. intros aa [_ Hv]%list_elem_of_In%filter_In. by apply Z.eqb_eq.
Qed.

(** ** Receiving *)
Lemma receive_one_Some sts m j b t :
  sts !! j = Some t → receive_one sts m (j, b) = Ok (<[b := t]> m).
Proof. unfold receive_one. cbn. by intros ->. Qed.

Lemma receive_loop (l : list (nat * string)) (sts : list AccountState) m a s i :
  NoDup l.*2 → (i, a) ∈ l → sts !! i = Some s →
  Forall (λ ia, is_Some (sts !! ia.1)) l →
  ∃ m', go_fold (receive_one sts) m l = Ok m' ∧ m' !! a = Some s.
Proof.
  intros Hnd Hin Hs Hall.
  assert (∀ l m, Forall (λ ia : nat * string, is_Some (sts !! ia.1)) l →
    ∃ m', go_fold (receive_one sts) m l = Ok m' ∧
         ∀ b, b ∉ l.*2 → m' !! b = m !! b) as Hkeep.
  { clear. intros l m Hall. revert m. induction Hall as [|[j b] l [t Ht] _ IH]; intros m; [by exists m|].
    cbn [go_fold fst snd] in *. rewrite (receive_one_Some _ _ _ _ _ Ht). cbn [mbind go_bind].
    destruct (IH (<[b := t]> m)) as (m' & -> & Hk). exists m'. split; [done|].
    intros c Hc. cbn in Hc. apply not_elem_of_cons in Hc as [? Hc].
    rewrite Hk by done. by rewrite lookup_insert_ne. }
  revert m. induction l as [|[j b] l IH]; intros m; [by apply elem_of_nil in Hin|].
  cbn in Hnd. apply NoDup_cons in Hnd as [Hb Hnd]. apply Forall_cons in Hall as [[t Ht] Hall].
  cbn [go_fold fst snd] in *. rewrite (receive_one_Some _ _ _ _ _ Ht). cbn [mbind go_bind].
  apply elem_of_cons in Hin as [[= -> ->]|Hin]; [|by apply IH].
  destruct (Hkeep l (<[b := t]> m) Hall) as (m' & -> & Hk). exists m'. split; [done|].
  rewrite Hk by done. rewrite lookup_insert_eq. congruence.
Qed.

Lemma receive_other (l : list (nat * string)) (sts : list AccountState) (m m' : gmap string AccountState) b :
  go_fold (receive_one sts) m l = Ok m' →
  b ∉ l.*2 → m' !! b = m !! b.
Proof.
  revert m. induction l as [|[j c] l IH]; intros m; [by intros [= <-]|].
  cbn [go_fold]. intros (m1 & E1 & E)%go_bind_inv Hb. unfold receive_one in E1. cbn [fst snd] in E1.
  destruct (sts !! j) as [t|]; [|done]. injection E1 as <-. cbn in Hb. apply not_elem_of_cons in Hb as [? Hb].
  rewrite (IH _ E Hb). by rewrite lookup_insert_ne.
Qed.

(** A well-formed message: as many states as addresses, no address twice. *)
Definition at_ok (at_ : AccountStateAndTx) : Prop :=
  NoDup (ASAddrs at_) ∧ length (ASAddrs at_) = length (ASAccountState at_).

Lemma receive_own at_ m i a s :
  at_ok at_ → ASAddrs at_ !! i = Some a → ASAccountState at_ !! i = Some s →
  ∃ m', receive_states at_ m = Ok m' ∧ m' !! a = Some s.
Proof.
  intros [Hnd Hl] Ha Hs. unfold receive_states. apply (receive_loop _ _ _ a s i).
  - by rewrite imap_pair_snd.
  - apply elem_of_lookup_imap. eauto.
  - done.
  - apply Forall_forall. intros [j b] Hj. apply elem_of_lookup_imap in Hj as (k & c & [= -> ->] & Hk).
    cbn. apply lookup_lt_is_Some. rewrite <-Hl. by eapply lookup_lt_Some.
Qed.

Lemma receive_total at_ m : at_ok at_ → ∃ m', receive_states at_ m = Ok m'.
Proof.
  intros [_ Hl]. unfold receive_states.
  assert (Forall (λ ia : nat * string, is_Some (ASAccountState at_ !! ia.1)) (imap pair (ASAddrs at_))) as Hall.
  { apply Forall_forall. intros [j b] (k & c & [= -> ->] & Hk)%elem_of_lookup_imap. cbn.
    apply lookup_lt_is_Some. rewrite <-Hl. by eapply lookup_lt_Some. }
  revert m. induction Hall as [|[j b] l [t Ht] _ IH]; intros m; [by exists m|].
  cbn [go_fold]. rewrite (receive_one_Some _ _ _ _ _ Ht). apply IH.
Qed.

Lemma collect_total ats m0 t0 : Forall at_ok ats →
  ∃ m, go_fold collect_one (m0, t0) ats = Ok (m, t0 ++ concat (ASTxs <$> ats)).
Proof.
  intros Hall. revert m0 t0. induction Hall as [|at_ ats Hat _ IH]; intros m0 t0; cbn [go_fold].
  - exists m0. cbn. by rewrite app_nil_r.
  - destruct (receive_total at_ m0 Hat) as [m1 E].
    assert (collect_one (m0, t0) at_ = Ok (m1, t0 ++ ASTxs at_)) as ->
      by (unfold collect_one; cbn [fst snd]; by rewrite E).
    cbn [mbind go_bind]. destruct (IH m1 (t0 ++ ASTxs at_)) as [m ->]. exists m. cbn.
    by rewrite app_assoc.
Qed.

(** Collecting the messages of all shards: the state of an address that only [at0] carries. *)
Lemma collect_states ats at0 i a s m0 t0 :
  Forall at_ok ats → at0 ∈ ats → ASAddrs at0 !! i = Some a → ASAccountState at0 !! i = Some s →
  (∀ at_, at_ ∈ ats → a ∈ ASAddrs at_ → at_ = at0) →
  ∀ m txs, go_fold collect_one (m0, t0) ats = Ok (m, txs) →
  m !! a = Some s.
Proof.
  intros Hok Hin Ha Hs Huniq.
  assert (∀ ats m0 t0 m txs, Forall at_ok ats →
    (∀ at_, at_ ∈ ats → a ∈ ASAddrs at_ → at_ = at0) →
    go_fold collect_one (m0, t0) ats = Ok (m, txs) →
    (at0 ∈ ats ∨ m0 !! a = Some s) → m !! a = Some s) as Hgen; [|by intros; eapply Hgen; eauto].
  clear Hok Hin Huniq ats m0 t0. induction ats as [|at_ ats IH]; intros m0 t0 m txs Hok Hu.
  - cbn. intros [= <- <-] [Hx|Hx]; [by apply elem_of_nil in Hx|done].
  - cbn [go_fold]. intros E Hor. apply Forall_cons in Hok as [Hat Hok].
    apply go_bind_inv in E as ([m1 t1] & E1 & E2). apply go_bind_inv in E1 as (m1' & E1 & [= <- <-]).
    cbn [fst] in E1.
    apply (IH _ _ _ _ Hok (λ x Hx, Hu x (list_elem_of_further _ _ _ Hx)) E2).
    destruct (decide (a ∈ ASAddrs at_)) as [Hd|Hd].
    + right. rewrite (Hu at_ (list_elem_of_here _ _) Hd) in *.
      destruct (receive_own at0 m0 i a s Hat Ha Hs) as (m' & E & Hm). congruence.
    + destruct Hor as [Hx|Hx].
      * apply elem_of_cons in Hx as [->|Hx]; [|by left].
        destruct Hd. by eapply list_elem_of_lookup_2.
      * right. rewrite (receive_other _ _ _ _ _ E1); [done|]. by rewrite imap_pair_snd.
Qed.

(** Only addresses of the messages are collected. *)
Lemma collect_dom ats m0 t0 m txs b :
  go_fold collect_one (m0, t0) ats = Ok (m, txs) → is_Some (m !! b) →
  is_Some (m0 !! b) ∨ ∃ at_, at_ ∈ ats ∧ b ∈ ASAddrs at_.
Proof.
  revert m0 t0. induction ats as [|at_ ats IH]; intros m0 t0; cbn [go_fold].
  - intros [= <- <-]. by left.
  - intros E Hb. apply go_bind_inv in E as ([m1 t1] & E1 & E2).
    apply go_bind_inv in E1 as (m1' & E1 & [= <- <-]). cbn [fst] in E1.
    destruct (IH _ _ E2 Hb) as [Hm|(a & ? & ?)]; [|right; exists a; split; [by apply list_elem_of_further|done]].
    destruct (decide (b ∈ ASAddrs at_)) as [Hd|Hd]; [right; exists at_; split; [apply list_elem_of_here|done]|].
    left. rewrite (receive_other _ _ _ _ _ E1) in Hm; [done|]. by rewrite imap_pair_snd.
Qed.

(** ** Sending: the message to a shard holds the current state of every account that moves there *)
Lemma fold_filter (f : string * Z → bool) l acc :
  foldl (λ acc kv, if f kv then acc ++ [kv.1] else acc) acc l = acc ++ (List.filter f l).*1.
Proof.
  revert acc. induction l as [|kv l IH]; intros acc; cbn; [by rewrite app_nil_r|].
  rewrite IH. destruct (f kv); cbn; [by rewrite <-app_assoc|done].
Qed.

Lemma accounts_to_fetch_spec sid bc mm :
  (∀ k v, mm !! k = Some v → placed bc k) →
  ∃ ac, accounts_to_fetch sid bc mm = Ok ac ∧ NoDup ac ∧
    ∀ a, a ∈ ac ↔ ∃ v, mm !! a = Some v ∧ v ≠ sid ∧ shard_of bc a = sid.
Proof.
  intros Hp. set (f := λ kv : string * Z, negb (kv.2 =? sid) && (shard_of bc kv.1 =? sid)).
  exists (List.filter f (map_to_list mm)).*1. split; [|split].
  - unfold accounts_to_fetch.
    rewrite (go_fold_foldl _ (λ acc kv, if f kv then acc ++ [kv.1] else acc)).
    + by rewrite fold_filter.
    + intros acc [k v] Hkv%elem_of_map_to_list. unfold f. cbn.
      destruct (v =? sid); cbn; [done|].
      rewrite (placed_shard bc k) by (by eapply Hp). cbn. by case_match.
  - pose proof (NoDup_fst_map_to_list mm) as Hnd. clear Hp.
    induction (map_to_list mm) as [|kv l IH]; [constructor|]. cbn in *.
    apply NoDup_cons in Hnd as [Hk Hnd]. destruct (f kv); [|by apply IH]. cbn.
    apply NoDup_cons. split; [|by apply IH]. intros (kv' & He & Hin)%list_elem_of_fmap.
    apply Hk. rewrite He. apply list_elem_of_fmap_2. rewrite list_elem_of_In in Hin |- *.
    by apply filter_In in Hin as [? _].
  - intros a. rewrite list_elem_of_fmap. split.
    + intros ([k v] & -> & Hin). apply list_elem_of_In, filter_In in Hin as [Hin Hf].
      rewrite <-list_elem_of_In in Hin. apply elem_of_map_to_list in Hin. unfold f in Hf. zbool.
      exists v. auto.
    + intros (v & Hv & Hne & Hsh). exists (a, v). split; [done|]. apply list_elem_of_In, filter_In.
      rewrite <-list_elem_of_In. split; [by apply elem_of_map_to_list|]. unfold f. cbn.
      by rewrite (proj2 (Z.eqb_neq _ _)), Hsh, Z.eqb_refl by done.
Qed.

Lemma selected_nodup mm accts i : NoDup accts.*1 → NoDup (selected mm accts i).*1.
Proof.
  unfold selected. induction accts as [|[a s] accts IH]; [done|]. cbn. intros Hnd.
  apply NoDup_cons in Hnd as [Ha Hnd]. case_match; [|by apply IH]. cbn.
  apply NoDup_cons. split; [|by apply IH]. intros ([a' s'] & -> & Hin)%list_elem_of_fmap.
  apply Ha. rewrite list_elem_of_In in Hin. apply filter_In in Hin as [Hin _].
  rewrite <-list_elem_of_In in Hin. by apply (list_elem_of_fmap_2 fst) in Hin.
Qed.

Context `{!BitSetLaws, !CryptoLaws, !CodecLaws AccountState, !CodecLaws BlockHeader,
          !CodecLaws Block, !CodecLaws AccountTransferMsg, !BoltLaws, !TrieLaws}.

Lemma send_accounts_spec (p : cnode) mA mm :
  state_ok (CurChain (App p)) mA → last (ModifiedMap (cdm (App p))) = Some mm →
  (∀ k v, mm !! k = Some v → placed (CurChain (App p)) k) →
  ∃ x accts sent, sendAccounts_and_Txs p =
      Ok (x, zip_with (message_for p mm accts) (other_shards p) sent) ∧
    length sent = length (other_shards p) ∧ NoDup accts.*1 ∧
    Forall2 (λ i txs, Forall (λ tx, tx_belongs i mm tx = true) txs) (other_shards p) sent ∧
    (∀ aa, aa ∈ accts → is_Some (mm !! aa.1)) ∧
    (∀ a v, mm !! a = Some v → v ≠ PShardID p → shard_of (CurChain (App p)) a = PShardID p →
       (a, acct mA a 0) ∈ accts).
Proof.
  intros Hst Hmm Hp. unfold sendAccounts_and_Txs. rewrite Hmm.
  destruct (accounts_to_fetch_spec (PShardID p) (CurChain (App p)) mm Hp) as (ac & -> & Hnd & Hac).
  cbn [mbind go_bind]. rewrite (fetch_accounts_spec _ mA ac Hst). cbn [mbind go_bind].
  set (accts := zip ac ((λ a, acct mA a 0) <$> ac)).
  destruct (send_fold p mm accts (other_shards p) (TxQueue (Txpool (CurChain (App p)))) [])
    as (q & sent & -> & Hl & _ & HF).
  eexists _, accts, sent. split; [done|]. split; [done|]. split; [|split; [exact HF|split]].
  - unfold accts. rewrite fst_zip by (by rewrite length_fmap). done.
  - intros [a s] Hin. unfold accts in Hin. apply elem_of_zip_l, Hac in Hin as (v & Hv & _). by exists v.
  - intros a v Hv Hne Hsh. assert (a ∈ ac) as Hin by (apply Hac; eauto).
    apply list_elem_of_lookup in Hin as [i Hi]. apply list_elem_of_lookup. exists i.
    apply lookup_zip_Some. split; [done|]. cbn. by rewrite list_lookup_fmap, Hi.
Qed.
(** ** Applying the transfer *)
Lemma fold_insert (l : list (string * Z)) (m : gmap string Z) k :
  NoDup l.*1 → foldl (λ m kv, <[kv.1 := kv.2]> m) m l !! k =
    match (list_to_map l : gmap string Z) !! k with Some v => Some v | None => m !! k end.
Proof.
  revert m. induction l as [|[k' v] l IH]; intros m Hnd; cbn; [done|].
  cbn in Hnd. apply NoDup_cons in Hnd as [Hk Hnd]. rewrite (IH _ Hnd).
  destruct (decide (k = k')) as [->|Hne].
  - rewrite lookup_insert_eq. apply not_elem_of_list_to_map in Hk. cbn in Hk. rewrite Hk.
    by rewrite lookup_insert_eq.
  - by rewrite !lookup_insert_ne.
Qed.

Lemma update_map_spec (mm : gmap string Z) (bc : BlockChain) m :
  chain_ok bc m → ∃ bc', foldl (λ bc kv, Update_PartitionMap kv.1 kv.2 bc) bc (map_to_list mm) = bc' ∧
    chain_ok bc' m ∧ Config bc' = Config bc ∧ Txpool bc' = Txpool bc ∧
    ∀ k, PartitionMap bc' !! k = match mm !! k with Some v => Some v | None => PartitionMap bc !! k end.
Proof.
  intros Hck. eexists. split; [reflexivity|].
  assert (∀ l bc, chain_ok bc m →
    chain_ok (foldl (λ bc (kv : string * Z), Update_PartitionMap kv.1 kv.2 bc) bc l) m ∧
    Config (foldl (λ bc (kv : string * Z), Update_PartitionMap kv.1 kv.2 bc) bc l) = Config bc ∧
    Txpool (foldl (λ bc (kv : string * Z), Update_PartitionMap kv.1 kv.2 bc) bc l) = Txpool bc ∧
    PartitionMap (foldl (λ bc (kv : string * Z), Update_PartitionMap kv.1 kv.2 bc) bc l) =
      foldl (λ m kv, <[kv.1 := kv.2]> m) (PartitionMap bc) l) as Hl.
  { clear. induction l as [|[k v] l IH]; intros bc Hck; [done|]. cbn.
    apply (IH (Update_PartitionMap k v bc)). destruct Hck. by split. }
  destruct (Hl (map_to_list mm) bc Hck) as (Hck' & Hc & Ht & Hp).
  split; [exact Hck'|]. split; [exact Hc|]. split; [exact Ht|]. intros k.
  rewrite Hp, fold_insert by apply NoDup_fst_map_to_list. by rewrite list_to_map_to_list.
Qed.

Lemma map_placed (bc : BlockChain) k v : PartitionMap bc !! k = Some v → placed bc k ∧ shard_of bc k = v.
Proof. unfold placed, shard_of, Get_PartitionMap. by intros ->. Qed.

Lemma transfer_do_spec (n : cnode) (x : ClpaApp) m atm :
  chain_ok (CurChain x) m → length (ATAddrs atm) = length (ATAccountState atm) →
  Forall (λ a, is_Some (ATModifiedMap atm !! a)) (ATAddrs atm) →
  ∃ x' bc0, accountTransfer_do n x atm = Ok (x', migrationDone n (ATid atm)) ∧
    chain_ok (CurChain x') (put_accounts bc0 (ATAddrs atm) (ATAccountState atm) m) ∧
    Config bc0 = Config (CurChain x) ∧ PartitionMap (CurChain x') = PartitionMap bc0 ∧
    (∀ k, PartitionMap bc0 !! k =
       match ATModifiedMap atm !! k with Some v => Some v | None => PartitionMap (CurChain x) !! k end) ∧
    Txpool (CurChain x') = Txpool (CurChain x) ∧
    AccountTransferRound (cdm x') = ATid atm ∧ PartitionOn (cdm x') = false.
Proof.
  intros Hck Hlen Hall.
  destruct (update_map_spec (ATModifiedMap atm) (CurChain x) m Hck) as (bc0 & E0 & Hck0 & Hc0 & Ht0 & Hp0).
  destruct (add_accounts_spec bc0 m (ATAddrs atm) (ATAccountState atm) (view n) Hck0)
    as (bc1 & E1 & Hck1 & _ & _ & _ & Ht1 & Hp1 & _); [|done|].
  { eapply Forall_impl; [exact Hall|]. intros a [v Hv].
    apply (map_placed bc0 a v). by rewrite Hp0, Hv. }
  unfold accountTransfer_do. rewrite E0, E1. cbn [mbind go_bind].
  eexists _, bc0. split; [reflexivity|]. cbn. by rewrite Ht1.
Qed.

(** What the leader proposes when it has collected every shard's message. *)
Lemma propose_partition_spec (q : cnode) (x : ClpaApp) now clock r mm at0 i a s :
  proposePartition q now clock = Ok (x, r) → ReceivedNewAccountState (cdm (App q)) = ∅ →
  ModifiedMap (cdm (App q)) !! Z.to_nat (AccountTransferRound (cdm (App q))) = Some mm →
  map_Forall (λ _ at_, at_ok at_ ∧ Forall (λ b, is_Some (mm !! b)) (ASAddrs at_))
    (AccountStateTx (cdm (App q))) →
  map_Forall (λ _ at_, a ∈ ASAddrs at_ → at_ = at0) (AccountStateTx (cdm (App q))) →
  (∃ sid, AccountStateTx (cdm (App q)) !! sid = Some at0) →
  ASAddrs at0 !! i = Some a → ASAccountState at0 !! i = Some s →
  ∃ addrs states j, r = mkRequest PartitionReq (Encode (mkAccountTransferMsg mm addrs states
      (len (ModifiedMap (cdm (App q)))))) now ∧
    length addrs = length states ∧ NoDup addrs ∧ Forall (λ b, is_Some (mm !! b)) addrs ∧
    addrs !! j = Some a ∧ states !! j = Some s.
Proof.
  unfold proposePartition. intros ([m txs] & Hc & E)%go_bind_inv Hnone Hmm Hok Huniq [sid Hsid] Ha Hs.
  rewrite Hmm in E. destruct (negb _) in E; [done|]. injection E as _ <-. rewrite Hnone in Hc.
  set (ats := (map_to_list (AccountStateTx (cdm (App q)))).*2) in *.
  assert (∀ at_, at_ ∈ ats → ∃ k, AccountStateTx (cdm (App q)) !! k = Some at_) as Hats.
  { intros at_ ([k ?] & -> & Hin)%list_elem_of_fmap. exists k. by apply elem_of_map_to_list. }
  assert (m !! a = Some s) as Hma.
  { refine (collect_states ats at0 i a s ∅ _ _ _ Ha Hs _ m txs Hc).
    - apply Forall_forall. intros at_ (k & Hk)%Hats. by apply (Hok k at_).
    - unfold ats. apply list_elem_of_fmap. exists (sid, at0). split; [done|]. by apply elem_of_map_to_list.
    - intros at_ (k & Hk)%Hats. by apply (Huniq k at_). }
  assert ((a, s) ∈ map_to_list m) as Hin by (by apply elem_of_map_to_list).
  apply list_elem_of_lookup in Hin as [j Hj].
  exists (map_to_list m).*1, (map_to_list m).*2, j. split; [done|].
  rewrite !length_fmap, !list_lookup_fmap, Hj. split; [done|]. split; [apply NoDup_fst_map_to_list|].
  split; [|done]. apply Forall_forall. intros b ([b' s'] & -> & Hb)%list_elem_of_fmap.
  apply elem_of_map_to_list in Hb.
  destruct (collect_dom _ _ _ _ _ b' Hc) as [[? Hx]|(at_ & (k & Hk)%Hats & Hb')]; [by eexists|done|].
  apply (Hok k at_) in Hk as [_ Hf]. rewrite Forall_forall in Hf. by apply Hf.
Qed.
(** A message that fits the shard [j] under the map [mm]. *)
Definition at_fits (j : Z) (mm : gmap string Z) (at_ : AccountStateAndTx) : Prop :=
  at_ok at_ ∧ Forall (λ b, is_Some (mm !! b)) (ASAddrs at_) ∧
  Forall (λ tx, tx_belongs j mm tx = true) (ASTxs at_).

(** The leader [q] of a shard has collected messages that fit it under the new map [mm],
    and only [at0], the message of shard [sid], carries the account [a]. *)
Record collected (q : cnode) (mm : gmap string Z) (sid : Z) (at0 : AccountStateAndTx) (a : string)
    : Prop := {
  co_fresh : ReceivedNewAccountState (cdm (App q)) = ∅ ∧ ReceivedNewTx (cdm (App q)) = [];
  co_map : ModifiedMap (cdm (App q)) !! Z.to_nat (AccountTransferRound (cdm (App q))) = Some mm;
  co_msg : AccountStateTx (cdm (App q)) !! sid = Some at0;
  co_ok : map_Forall (λ s at_, at_fits (PShardID q) mm at_ ∧ (a ∈ ASAddrs at_ → s = sid))
            (AccountStateTx (cdm (App q)));
}.

Lemma propose_total (q : cnode) mm sid at0 a now clock :
  collected q mm sid at0 a → ∃ x r, proposePartition q now clock = Ok (x, r).
Proof.
  intros [[Hf Ht] Hmm _ Hok]. unfold proposePartition. rewrite Hf, Ht, Hmm.
  assert (∀ at_, at_ ∈ (map_to_list (AccountStateTx (cdm (App q)))).*2 → at_ok at_ ∧
    Forall (λ tx, tx_belongs (PShardID q) mm tx = true) (ASTxs at_)) as Hats.
  { intros at_ ([k ?] & -> & Hin)%list_elem_of_fmap. apply elem_of_map_to_list in Hin.
    apply Hok in Hin. by destruct Hin as ((? & _ & ?) & _). }
  destruct (collect_total (map_to_list (AccountStateTx (cdm (App q)))).*2 ∅ []) as [m ->].
  { apply Forall_forall. intros at_ Hin. by apply Hats. }
  cbn [mbind go_bind]. rewrite (proj2 (forallb_forall _ _)); [by eexists _, _|].
  intros tx Htx. rewrite app_nil_l in Htx. apply in_concat in Htx as (txs & Htxs & Htx).
  rewrite <-!list_elem_of_In in *. apply list_elem_of_fmap in Htxs as (at_ & -> & Hin).
  apply Hats in Hin as [_ Hin]. rewrite Forall_forall in Hin. by apply Hin.
Qed.

(** The message to the shard that the map gives to [a] has its state. *)
Lemma message_has_account p mm accts i txs a s :
  (a, s) ∈ accts → mm !! a = Some i → NoDup accts.*1 → (∀ aa, aa ∈ accts → is_Some (mm !! aa.1)) →
  Forall (λ tx, tx_belongs i mm tx = true) txs →
  ∃ at0 k, message_for p mm accts i txs = (ip_of p i 0, MAccountStateAndTx at0) ∧ at_fits i mm at0 ∧
    FromShard at0 = PShardID p ∧ ASAddrs at0 !! k = Some a ∧ ASAccountState at0 !! k = Some s.
Proof.
  intros Hin Hm Hnd Hdom Htx. unfold message_for.
  assert ((a, s) ∈ selected mm accts i) as Hsel.
  { apply list_elem_of_In, filter_In. split; [by apply list_elem_of_In|]. cbn. rewrite Hm. apply Z.eqb_refl. }
  apply list_elem_of_lookup in Hsel as [k Hk]. eexists _, k. split; [reflexivity|]. cbn.
  rewrite !list_lookup_fmap, Hk. split; [|done]. split; [|split; [|exact Htx]]; cbn.
  - split; cbn; [by apply selected_nodup|]. by rewrite !length_fmap.
  - apply Forall_forall. intros b (aa & -> & Haa)%list_elem_of_fmap. apply Hdom.
    apply list_elem_of_In, filter_In in Haa as [Haa _]. by apply list_elem_of_In.
Qed.

(** Committing what the new shard's leader proposes. *)
Lemma commit_moved (p q n : cnode) (mA mB : ledger) mm a j at0 k y r now t clock cmsg :
  state_ok (CurChain (App p)) mA → mm !! a = Some j →
  ASAddrs at0 !! k = Some a → ASAccountState at0 !! k = Some (acct mA a 0) →
  PShardID q = j → collected q mm (PShardID p) at0 a → proposePartition q now clock = Ok (y, r) →
  chain_ok (CurChain (App n)) mB → ShardID (Config (CurChain (App n))) = j →
  requestPool n !! CDigest cmsg = Some r →
  ∃ z out' s s', clpa_HandleinCommit n t cmsg = Ok (z, out', true) ∧
    FetchAccounts (CurChain (App p)) [a] = Ok [s] ∧ FetchAccounts (CurChain z) [a] = Ok [s'] ∧
    Balance s' = Balance s ∧ Nonce s' = Nonce s ∧ shard_of (CurChain z) a = j ∧
    PartitionOn (cdm z) = false ∧ Txpool (CurChain z) = Txpool (CurChain (App n)).
Proof.
  intros Hst Hma Hk Hs Hqj [[Hf _] Hmm Hmsg Hok] Ep Hck Hcfg Hr.
  destruct (propose_partition_spec q y now clock r mm at0 k a (acct mA a 0) Ep Hf Hmm) as
    (addrs & states & i & -> & Hl & Hnda & Hdom & Hi & Hsi); [..|by eexists|done|exact Hs|].
  { intros s at_ Hin. by destruct (Hok s at_ Hin) as ((? & ? & _) & _). }
  { intros s at_ Hin Ha. destruct (Hok s at_ Hin) as (_ & Hx). rewrite (Hx Ha) in Hin. congruence. }
  unfold clpa_HandleinCommit. rewrite Hr. cbn [RequestType Content].
  rewrite bool_decide_eq_true_2 by done. rewrite must_decode_encode. cbn [mbind go_bind].
  destruct (transfer_do_spec n (App n) mB (mkAccountTransferMsg mm addrs states
    (len (ModifiedMap (cdm (App q)))))) as (z & bc0 & -> & Hckz & Hc0 & Hpm & Hp0 & Htx & _ & Hon); [done..|].
  cbn [mbind go_bind fst snd ATModifiedMap ATAddrs ATAccountState] in *.
  assert (PartitionMap bc0 !! a = Some j) as Hpa by (by rewrite Hp0, Hma).
  eexists z, _, _, _. split; [done|]. rewrite (fetch_accounts_spec _ mA) by done.
  rewrite (fetch_accounts_spec _ _ _ (ck_state _ _ Hckz)). split; [done|]. split; [done|].
  unfold put_accounts, acct at 1 3.
  rewrite (put_account_own bc0 states (imap pair addrs) mB a i (acct mA a 0)); [cbn|..].
  - split; [done|]. split; [done|]. split; [apply map_placed; by rewrite Hpm|]. done.
  - by rewrite imap_pair_snd.
  - apply elem_of_lookup_imap. eauto.
  - done.
  - rewrite Hc0, Hcfg. by apply map_placed.
Qed.

(** C14: an account that moves keeps its balance.  Shard [p] sends its accounts under the new map
    [mm]; the message to the shard that gets account [a] fits that shard.  When the leader [q] of
    that shard has collected it, it proposes the transfer, and every node [n] of the shard that
    commits the proposal reads the account with the balance and the nonce it had on [p]'s chain,
    sends its transactions to the new shard, and is ready for the next partition. *)
Theorem account_moves (p : cnode) (mA : ledger) (mm : gmap string Z) (a : string) (j : Z) :
  state_ok (CurChain (App p)) mA → last (ModifiedMap (cdm (App p))) = Some mm →
  (∀ k v, mm !! k = Some v → placed (CurChain (App p)) k) →
  mm !! a = Some j → j ∈ other_shards p → j ≠ PShardID p →
  shard_of (CurChain (App p)) a = PShardID p →
  ∃ x out at0, sendAccounts_and_Txs p = Ok (x, out) ∧
    (ip_of p j 0, MAccountStateAndTx at0) ∈ out ∧ FromShard at0 = PShardID p ∧
    at_fits j mm at0 ∧ a ∈ ASAddrs at0 ∧
    ∀ (q : cnode) (now : Time) (clock : nat → Time),
      PShardID q = j → collected q mm (PShardID p) at0 a →
      ∃ y r, proposePartition q now clock = Ok (y, r) ∧
        ∀ (n : cnode) (mB : ledger) (cmsg : Commit) (t : Time),
          chain_ok (CurChain (App n)) mB → ShardID (Config (CurChain (App n))) = j →
          requestPool n !! CDigest cmsg = Some r →
          ∃ z out' s s', clpa_HandleinCommit n t cmsg = Ok (z, out', true) ∧
            FetchAccounts (CurChain (App p)) [a] = Ok [s] ∧ FetchAccounts (CurChain z) [a] = Ok [s'] ∧
            Balance s' = Balance s ∧ Nonce s' = Nonce s ∧ shard_of (CurChain z) a = j ∧
            PartitionOn (cdm z) = false ∧ Txpool (CurChain z) = Txpool (CurChain (App n)).
Proof.
  intros Hst Hlast Hpl Hma Hq Hne Hsh.
  destruct (send_accounts_spec p mA mm Hst Hlast Hpl)
    as (x & accts & sent & Es & Hlen & Hnd & HF & Hdom & Hacc).
  apply list_elem_of_lookup in Hq as [i0 Hj].
  destruct (lookup_lt_is_Some_2 sent i0) as [txs Htxs]; [rewrite Hlen; by eapply lookup_lt_Some|].
  destruct (message_has_account p mm accts j txs a (acct mA a 0)) as
    (at0 & k & Em & Hat & Hfrom & Hk & Hs);
    [by eapply Hacc|done|done|exact Hdom|by eapply (Forall2_lookup_lr _ _ _ _ _ _ HF)|].
  eexists x, _, at0. split; [exact Es|]. split.
  { rewrite <-Em. apply list_elem_of_lookup. exists i0. by rewrite lookup_zip_with, Hj, Htxs. }
  split; [done|]. split; [done|]. split; [by eapply list_elem_of_lookup_2|].
  intros q now clock Hqj Hco.
  destruct (propose_total q mm _ _ a now clock Hco) as (y & r & Ep). exists y, r. split; [exact Ep|].
  intros n mB cmsg t Hck Hcfg Hr.
  by eapply (commit_moved p q n mA mB mm a j at0 k y r now t clock cmsg).
Qed.
End facts.

(** ** Witnesses: account [addrA] moves from shard 3 to shard 1 *)
Module ClpaExample.
Import ConcreteLibs ConcreteCore ChainExample.
#[local] Existing Instance default_params.
#[local] Existing Instance OverheadExample.req_codec.

#[export] Instance AccountTransferMsg_eq_dec : EqDecision AccountTransferMsg.
Proof. solve_decision. Defined.
#[export] Instance AccountTransferMsg_countable : Countable AccountTransferMsg.
Proof.
  refine (inj_countable' (λ m, (ATModifiedMap m, ATAddrs m, ATAccountState m, ATid m))
    (λ x, let '(a, b, c, d) := x in mkAccountTransferMsg a b c d) _).
  by intros [].
Qed.
#[export] Instance atm_codec : Codec AccountTransferMsg := countable_codec AccountTransferMsg.
#[export] Instance atm_codec_laws : CodecLaws AccountTransferMsg := countable_codec_laws AccountTransferMsg.

Definition newMap : gmap string Z := {[ addrA := 1 ]}.
Definition cfg1 : ChainConfig := mkChainConfig 1 0 1 4 4 2000 5000 300 2000.

(** A leader that knows the new map and has collected [ats]. *)
Definition leader (sid : Z) (cc : ChainConfig) (bc : BlockChain) (ats : gmap Z AccountStateAndTx)
    : PbftConsensusNode ClpaApp :=
  NewPbftNode sid 0 cc ∅ 0 0
    (mkClpaApp bc (NewCLPADataSupport <| ModifiedMap := [newMap] |> <| PartitionOn := true |>
                     <| AccountStateTx := ats |>) PhWaitReady).

(** A pending transaction of the account that moves, and one that stays. *)
Definition pending : list Transaction := [sample_tx addrA addrB 5; sample_tx addrB addrA 7].

Lemma placed_A bc : PartitionMap bc = ∅ → placed bc addrA ∧ shard_of bc addrA = 3.
Proof. intros E. apply (placed_here bc addrA 3 E). vm_compute. reflexivity. Qed.

Lemma map_placed_A bc : PartitionMap bc = ∅ → ∀ k v, newMap !! k = Some v → placed bc k.
Proof. unfold newMap. intros E k v [<- <-]%lookup_singleton_Some. by apply placed_A. Qed.

Lemma transfer_partitions_witness :
  ∃ (p : PbftConsensusNode ClpaApp) x out mm accts sent, sendAccounts_and_Txs p = Ok (x, out) ∧
    out = zip_with (message_for p mm accts) (other_shards p) sent ∧
    TxQueue (Txpool (CurChain x)) ++ concat sent ≡ₚ pending.
Proof.
  destruct (genesis_of cfg) as (bc & _ & Hck & _ & Hp & Hm & _).
  set (p := leader 3 cfg (bc <| Txpool ::= λ t, t <| TxQueue := pending |> |>) ∅).
  destruct (send_accounts_spec p ∅ newMap) as (x & accts & sent & Es & _).
  - apply Hck.
  - done.
  - by apply map_placed_A.
  - destruct (transfer_partitions p x _ Es) as (mm & accts' & sent' & _ & Eo & _ & Hperm & _).
    eexists p, x, _, mm, accts', sent'. split; [exact Es|]. split; [exact Eo|exact Hperm].
Defined.

Lemma account_moves_witness :
  ∃ (n : PbftConsensusNode ClpaApp) cmsg z out s s', clpa_HandleinCommit n 20 cmsg = Ok (z, out, true) ∧
    FetchAccounts (CurChain (App n)) [addrA] = Ok [s] ∧ FetchAccounts (CurChain z) [addrA] = Ok [s'] ∧
    shard_of (CurChain (App n)) addrA = 3 ∧ shard_of (CurChain z) addrA = 1.
Proof.
  destruct (genesis_of cfg) as (bc & _ & Hck & _ & _ & Hm & _).
  destruct (genesis_of cfg1) as (bc1 & _ & Hck1 & Hc1 & _ & Hm1 & _).
  set (p := leader 3 cfg bc ∅).
  destruct (account_moves p ∅ newMap addrA 1) as (x & out & at0 & Es & Hin & Hfrom & Hfit & Ha & Hnext);
    [apply Hck|done|by apply map_placed_A|done| |done|by apply placed_A|].
  { apply (bool_decide_eq_true_1 (1 ∈ other_shards p)). vm_compute. reflexivity. }
  set (q := leader 1 cfg1 bc1 {[ 3 := at0 ]}).
  destruct (Hnext q 10 (λ _, 10) eq_refl) as (y & r & Ep & Hn).
  { split; [exact (conj eq_refl eq_refl)|exact eq_refl|apply lookup_singleton_eq|].
    apply map_Forall_singleton. split; [exact Hfit|by intros _]. }
  set (n := q <| requestPool := {[ "d" := r ]} |>).
  destruct (Hn n ∅ (mkCommit "d" 1 (mkNode 0 1 "")) 20 Hck1) as (z & o & s & s' & Hz & _ & Hs' & _ & _ & Hsh & _).
  { cbn. by rewrite Hc1. }
  { cbn. by rewrite lookup_singleton_eq. }
  eexists n, _, z, o, _, s'. split; [exact Hz|].
  split; [by apply (fetch_accounts_spec _ ∅ [addrA]), Hck1|]. split; [exact Hs'|].
  split; [by apply placed_A|exact Hsh].
Defined.
End ClpaExample.
