(* ===== verification/Partition.v ===== *)
(** * The account graph and the CLPA partition ([partition/graph.go], [partition/partition_CLPA.go])

    The supervisor keeps a graph whose vertices are accounts and whose edges are transactions,
    and computes from it, by constrained label propagation, which accounts move to which shard.
    Scores are [float64]: the IEEE operations of [SpecFloat] at precision 53.  Go iterates over
    a map in an unspecified order that may differ from loop to loop, so the partition takes the
    order of each round as an argument.  The counters of the state are [Z]: they count edges and
    vertices held in memory, far below 2^63. *)
From Stdlib Require Import SpecFloat.
From S2P Require Import Prelude Utils.

(** ** [float64] *)
Abbreviation float := spec_float.
(** [float64(z)] for an integer. *)
Definition fl_of (z : Z) : float := binary_normalize 53 1024 z 0 false.
Definition fmul : float → float → float := SFmul 53 1024.
Definition fdiv : float → float → float := SFdiv 53 1024.
Definition fadd : float → float → float := SFadd 53 1024.
Definition fsub : float → float → float := SFsub 53 1024.

(** ** Slices of counters *)
Definition at_ (l : list Z) (k : Z) : Z := nth (Z.to_nat k) l 0.

Definition in_slice {A} (i : Z) (l : list A) : bool := (0 <=? i) && (i <? len l).

(** [l[i] += d] *)
Definition slice_add (d i : Z) (l : list Z) : go (list Z) :=
  if in_slice i l then Ok (alter (Z.add d) (Z.to_nat i) l) else Panic "index out of range".

(** [l[i]] *)
Definition slice_get (i : Z) (l : list Z) : go Z :=
  if in_slice i l then Ok (at_ l i) else Panic "index out of range".

(** [make([]int, n)] *)
Definition make_ints (n : Z) : go (list Z) :=
  if n <? 0 then Panic "makeslice: len out of range" else Ok (replicate (Z.to_nat n) 0).

(** The minimum that [ComputeEdges2Shard] and [changeShardRecompute] look for. *)
Definition min_of (l : list Z) : Z := foldl (λ m v, if v <? m then v else m) MaxInt l.

(** ** [graph.go] *)
Record Vertex := mkVertex { Addr : string }.
#[export] Instance Vertex_eq_dec : EqDecision Vertex.
Proof. solve_decision. Defined.
#[export] Instance Vertex_countable : Countable Vertex.
Proof. refine (inj_countable' Addr mkVertex _). by intros []. Defined.

Record Graph := mkGraph {
  VertexSet : gset Vertex;
  EdgeSet : gmap Vertex (list Vertex);
}.
#[export] Instance Graph_eta : Eta Graph := λ g, mkGraph (VertexSet g) (EdgeSet g).

(** [g.EdgeSet[v]]: a missing key reads as the empty slice. *)
Definition adj (g : Graph) (v : Vertex) : list Vertex := default [] (EdgeSet g !! v).

Definition Graph_AddVertex (v : Vertex) (g : Graph) : Graph := g <| VertexSet ::= λ s, {[v]} ∪ s |>.

Definition Graph_AddEdge (u v : Vertex) (g : Graph) : Graph :=
  let g := if decide (u ∈ VertexSet g) then g else Graph_AddVertex u g in
  let g := if decide (v ∈ VertexSet g) then g else Graph_AddVertex v g in
  let g := g <| EdgeSet := <[u := adj g u ++ [v]]> (EdgeSet g) |> in
  g <| EdgeSet := <[v := adj g v ++ [u]]> (EdgeSet g) |>.

(** ** [CLPAState] *)
Record CLPAState := mkCLPAState {
  NetGraph : Graph;
  PartitionMap : gmap Vertex Z;
  Edges2Shard : list Z;
  VertexsNumInShard : list Z;
  WeightPenalty : float;
  MinEdges2Shard : Z;
  MaxIterations : Z;
  CrossShardEdgeNum : Z;
  CShardNum : Z;
}.
#[export] Instance CLPAState_eta : Eta CLPAState := λ c,
  mkCLPAState (NetGraph c) (PartitionMap c) (Edges2Shard c) (VertexsNumInShard c) (WeightPenalty c)
    (MinEdges2Shard c) (MaxIterations c) (CrossShardEdgeNum c) (CShardNum c).

(** [cs.PartitionMap[v]]: a missing key reads as 0. *)
Definition shard_at (m : gmap Vertex Z) (v : Vertex) : Z := default 0 (m !! v).

Definition Init_CLPAState (wp : float) (mIter sn : Z) (cs : CLPAState) : go CLPAState :=
  nums ← make_ints sn;
  Ok (cs <| WeightPenalty := wp |> <| MaxIterations := mIter |> <| CShardNum := sn |>
         <| VertexsNumInShard := nums |> <| PartitionMap := ∅ |>).

(** [new(CLPAState)] *)
Definition zero_state : CLPAState := mkCLPAState (mkGraph ∅ ∅) ∅ [] [] (S754_zero false) 0 0 0 0.

Section clpa.
Context `{Params}.

Definition AddVertex (v : Vertex) (cs : CLPAState) : go CLPAState :=
  let cs := cs <| NetGraph ::= Graph_AddVertex v |> in
  s ← (match PartitionMap cs !! v with
       | None => Addr2Shard (Addr v)
       | Some val => Ok val
       end);
  nums ← slice_add 1 s (VertexsNumInShard cs);
  Ok (cs <| PartitionMap ::= <[v := s]> |> <| VertexsNumInShard := nums |>).

Definition AddEdge (u v : Vertex) (cs : CLPAState) : go CLPAState :=
  cs ← (if decide (u ∈ VertexSet (NetGraph cs)) then Ok cs else AddVertex u cs);
  cs ← (if decide (v ∈ VertexSet (NetGraph cs)) then Ok cs else AddVertex v cs);
  Ok (cs <| NetGraph ::= Graph_AddEdge u v |>).

(** One entry [u] of the list of [v]: an edge into another shard counts for that shard, an inner
    edge for [interEdge]. *)
Definition count_edge (m : gmap Vertex Z) (v : Vertex) (acc : list Z * list Z) (u : Vertex)
    : go (list Z * list Z) :=
  let vShard := shard_at m v in
  let uShard := shard_at m u in
  if negb (vShard =? uShard) then e ← slice_add 1 uShard acc.1; Ok (e, acc.2)
  else i ← slice_add 1 uShard acc.2; Ok (acc.1, i).

Definition count_vertex (m : gmap Vertex Z) (acc : list Z * list Z) (vl : Vertex * list Vertex)
    : go (list Z * list Z) :=
  go_fold (count_edge m vl.1) acc vl.2.

Definition ComputeEdges2Shard (cs : CLPAState) : go CLPAState :=
  zeros ← make_ints (CShardNum cs);
  r ← go_fold (count_vertex (PartitionMap cs)) (zeros, zeros) (map_to_list (EdgeSet (NetGraph cs)));
  let '(cross, inter) := r in
  let e2s := zip_with (λ w i, w + Z.quot i 2) cross inter in
  Ok (cs <| Edges2Shard := e2s |> <| CrossShardEdgeNum := Z.quot (sumZ id cross) 2 |>
         <| MinEdges2Shard := min_of e2s |>).

(** One neighbour of the vertex that moved from [old] to [new]. *)
Definition recount_edge (m : gmap Vertex Z) (old new : Z) (acc : list Z * Z) (u : Vertex)
    : go (list Z * Z) :=
  let neighborShard := shard_at m u in
  if negb (neighborShard =? new) && negb (neighborShard =? old) then
    e ← slice_add 1 new acc.1; e ← slice_add (-1) old e; Ok (e, acc.2)
  else if neighborShard =? new then e ← slice_add (-1) old acc.1; Ok (e, acc.2 - 1)
  else e ← slice_add 1 new acc.1; Ok (e, acc.2 + 1).

Definition changeShardRecompute (v : Vertex) (old : Z) (cs : CLPAState) : go CLPAState :=
  let new := shard_at (PartitionMap cs) v in
  r ← go_fold (recount_edge (PartitionMap cs) old new) (Edges2Shard cs, CrossShardEdgeNum cs)
        (adj (NetGraph cs) v);
  Ok (cs <| Edges2Shard := r.1 |> <| CrossShardEdgeNum := r.2 |> <| MinEdges2Shard := min_of r.1 |>).

Definition getShard_score (cs : CLPAState) (v : Vertex) (uShard : Z) : go float :=
  let lst := adj (NetGraph cs) v in
  let v_outdegree := len lst in
  let edgesTo := len (List.filter (λ u, shard_at (PartitionMap cs) u =? uShard) lst) in
  e ← slice_get uShard (Edges2Shard cs);
  Ok (fmul (fdiv (fl_of edgesTo) (fl_of v_outdegree))
        (fsub (fl_of 1) (fdiv (fmul (WeightPenalty cs) (fl_of e)) (fl_of (MinEdges2Shard cs))))).

(** The loop over the neighbours of [v]: the scores seen, the best one and its shard. *)
Definition score_neighbor (cs : CLPAState) (v : Vertex) (acc : gmap Z float * float * Z) (u : Vertex)
    : go (gmap Z float * float * Z) :=
  let '(scores, max_score, max_scoreShard) := acc in
  let uShard := shard_at (PartitionMap cs) u in
  match scores !! uShard with
  | Some _ => Ok acc
  | None =>
      sc ← getShard_score cs v uShard;
      let scores := <[uShard := sc]> scores in
      Ok (if SFltb max_score sc then (scores, sc, uShard) else (scores, max_score, max_scoreShard))
  end.

Definition best_shard (cs : CLPAState) (v : Vertex) : go Z :=
  r ← go_fold (score_neighbor cs v) (∅, fl_of (-9999), shard_at (PartitionMap cs) v)
        (adj (NetGraph cs) v);
  Ok r.2.

(** What [CLPA_Partition] threads through its loops. *)
Record clpa_run := mkRun {
  r_cs : CLPAState;
  r_res : gmap string Z;
  r_thr : gmap string Z;
}.

Definition clpa_visit (st : clpa_run) (v : Vertex) : go clpa_run :=
  let cs := r_cs st in
  if 50 <=? default 0 (r_thr st !! Addr v) then Ok st
  else
    let vNowShard := shard_at (PartitionMap cs) v in
    max_scoreShard ← best_shard cs v;
    if negb (vNowShard =? max_scoreShard) then
      n ← slice_get vNowShard (VertexsNumInShard cs);
      if 1 <? n then
        nums ← slice_add (-1) vNowShard (VertexsNumInShard cs);
        nums ← slice_add 1 max_scoreShard nums;
        cs ← changeShardRecompute v vNowShard
               (cs <| PartitionMap ::= <[v := max_scoreShard]> |> <| VertexsNumInShard := nums |>);
        Ok (mkRun cs (<[Addr v := u64 max_scoreShard]> (r_res st))
              (<[Addr v := default 0 (r_thr st !! Addr v) + 1]> (r_thr st)))
      else Ok st
    else Ok st.

(** Round [iter] visits the vertices in the order [orders iter]. *)
Fixpoint clpa_rounds (orders : nat → list Vertex) (fuel : nat) (iter : nat) (st : clpa_run) : go clpa_run :=
  match fuel with
  | O => Ok st
  | S fuel => st ← go_fold clpa_visit st (orders iter); clpa_rounds orders fuel (S iter) st
  end.

Definition CLPA_Partition (orders : nat → list Vertex) (cs : CLPAState)
    : go (CLPAState * gmap string Z * Z) :=
  cs ← ComputeEdges2Shard cs;
  st ← clpa_rounds orders (Z.to_nat (MaxIterations cs)) 0 (mkRun cs ∅ ∅);
  cs ← ComputeEdges2Shard (r_cs st);
  Ok (cs, r_res st, CrossShardEdgeNum cs).

(** [Stable_Init_Partition], visiting the vertices in the order [order]; [inl] is the error. *)
Definition place_vertex (sn : Z) (acc : gmap Vertex Z * list Z * Z) (v : Vertex)
    : go (gmap Vertex Z * list Z * Z) :=
  let '(m, nums, cnt) := acc in
  s ← go_rem cnt sn;
  nums ← slice_add 1 s nums;
  Ok (<[v := s]> m, nums, cnt + 1).

Definition Stable_Init_Partition (order : list Vertex) (cs : CLPAState) : go (string + CLPAState) :=
  if Z.of_nat (size (VertexSet (NetGraph cs))) <? CShardNum cs then
    Ok (inl "too many shards, number of shards should be less than nodes. ")
  else
    nums ← make_ints (CShardNum cs);
    r ← go_fold (place_vertex (CShardNum cs)) (∅, nums, 0) order;
    cs ← ComputeEdges2Shard (cs <| PartitionMap := r.1.1 |> <| VertexsNumInShard := r.1.2 |>);
    Ok (inr cs).

(** [strconv.ParseInt(s, 16, 64)]: an optional sign and an unsigned number. *)
Definition ParseInt16 (s : string) : option Z :=
  match chars s with
  | [] => None
  | c :: l =>
      let neg := byte_of c =? 45 in
      num ← ParseUint16 (if neg || (byte_of c =? 43) then unchars l else s);
      if (if neg then 2 ^ 63 <? num else 2 ^ 63 <=? num) then None
      else Some (if neg then - num else num)
  end.

(** [Init_Partition], visiting the vertices in the order [order]. *)
Definition init_vertex (sn : Z) (acc : gmap Vertex Z * list Z) (v : Vertex) : go (gmap Vertex Z * list Z) :=
  let addr := chars (Addr v) in
  if len addr <? 8 then Panic "slice bounds out of range"
  else
    match ParseInt16 (unchars (drop (length addr - 8) addr)) with
    | None => Panic "strconv.ParseInt"
    | Some num =>
        s ← go_rem num sn;
        nums ← slice_add 1 s acc.2;
        Ok (<[v := s]> acc.1, nums)
    end.

Definition Init_Partition (order : list Vertex) (cs : CLPAState) : go CLPAState :=
  nums ← make_ints (CShardNum cs);
  r ← go_fold (init_vertex (CShardNum cs)) (∅, nums) order;
  ComputeEdges2Shard (cs <| PartitionMap := r.1 |> <| VertexsNumInShard := r.2 |>).

Definition EraseEdges (cs : CLPAState) : CLPAState := cs <| NetGraph ::= λ g, g <| EdgeSet := ∅ |> |>.
End clpa.
