(* ===== verification/PartitionFacts.v ===== *)
(** * Properties of the partition

    The counters of [CLPAState] are refined by counts over the list of edges that were added,
    the incremental update agrees with the full computation, and the partition returns a map
    within the shards that empties no shard. *)
From Stdlib Require Import SpecFloat.
From S2P Require Import Prelude Utils Partition.

Arguments at_ : simpl never.
Arguments Graph_AddEdge : simpl never.

(** Decide every comparison of the goal. *)
Ltac eqb_cases :=
  repeat match goal with
  | |- context [?x =? ?y] => let E := fresh "Eq" in destruct (x =? y) eqn:E; zbool
  end; cbn; lia.

(** ** Slices of counters *)
Lemma in_slice_true {A} i (l : list A) : in_slice i l = true ↔ 0 ≤ i < len l.
Proof. unfold in_slice. rewrite andb_true_iff, Z.leb_le, Z.ltb_lt. done. Qed.

Lemma at_alter d i l k : 0 ≤ i < len l → 0 ≤ k →
  at_ (alter (Z.add d) (Z.to_nat i) l) k = at_ l k + (if k =? i then d else 0).
Proof.
  intros Hi Hk. unfold at_, len in *.
  destruct (k =? i) eqn:E; zbool.
  - subst. rewrite !nth_lookup, list_lookup_alter_eq.
    destruct (lookup_lt_is_Some_2 l (Z.to_nat i)) as [x ->]; [lia|]. cbn. lia.
  - rewrite !nth_lookup, list_lookup_alter_ne by lia. lia.
Qed.

Lemma slice_add_ok d i l : 0 ≤ i < len l → ∃ l', slice_add d i l = Ok l' ∧ len l' = len l ∧
  ∀ k, 0 ≤ k → at_ l' k = at_ l k + (if k =? i then d else 0).
Proof.
  intros Hi. eexists. unfold slice_add. rewrite (proj2 (in_slice_true i l) Hi). split; [done|].
  split; [unfold len; by rewrite length_alter|]. intros k Hk. by apply at_alter.
Qed.

Lemma slice_get_ok i l : 0 ≤ i < len l → slice_get i l = Ok (at_ l i).
Proof. intros Hi. unfold slice_get. by rewrite (proj2 (in_slice_true i l) Hi). Qed.

Lemma at_ext l l' : len l = len l' → (∀ k, 0 ≤ k < len l → at_ l k = at_ l' k) → l = l'.
Proof.
  unfold len, at_. intros Hl Hk. apply nth_ext with (d := 0) (d' := 0); [lia|].
  intros n Hn. specialize (Hk (Z.of_nat n)). rewrite Nat2Z.id in Hk. apply Hk. lia.
Qed.

Lemma at_replicate n k : at_ (replicate n 0) k = 0.
Proof.
  unfold at_. rewrite nth_lookup. destruct (replicate n 0 !! Z.to_nat k) eqn:E; [|done].
  by apply lookup_replicate in E as [-> _].
Qed.

Lemma make_ints_ok n : 0 ≤ n → make_ints n = Ok (replicate (Z.to_nat n) 0) ∧
  len (replicate (Z.to_nat n) 0 : list Z) = n.
Proof.
  intros Hn. unfold make_ints. rewrite (proj2 (Z.ltb_ge n 0)) by lia.
  split; [done|]. unfold len. rewrite length_replicate. lia.
Qed.

Lemma sum_alter d n l : (n < length l)%nat → sumZ id (alter (Z.add d) n l) = sumZ id l + d.
Proof.
  revert n. induction l as [|x l IH]; intros [|n] Hn; cbn in Hn; [lia..| |].
  - cbn. unfold id. lia.
  - change (alter (Z.add d) (S n) (x :: l)) with (x :: alter (Z.add d) n l).
    rewrite !sumZ_cons, IH by lia. lia.
Qed.

Lemma slice_add_sum d i l l' : slice_add d i l = Ok l' → sumZ id l' = sumZ id l + d.
Proof.
  unfold slice_add. destruct (in_slice i l) eqn:E; [|done]. intros [= <-].
  apply in_slice_true in E. apply sum_alter. unfold len in E. lia.
Qed.

(** A loop whose body keeps [I] and adds [d x t] to every observation [t] of the state. *)
Lemma go_fold_measure {A S T} (f : S → A → go S) (I : S → Prop) (μ : S → T → Z) (d : A → T → Z) l s :
  I s → (∀ s x, x ∈ l → I s → ∃ s', f s x = Ok s' ∧ I s' ∧ ∀ t, μ s' t = μ s t + d x t) →
  ∃ r, go_fold f s l = Ok r ∧ I r ∧ ∀ t, μ r t = μ s t + sumZ (λ x, d x t) l.
Proof.
  revert s. induction l as [|x l IH]; intros s Hs Hf; cbn [go_fold].
  - exists s. split; [done|]. split; [done|]. intros t. cbn. lia.
  - destruct (Hf s x) as (s1 & -> & Hs1 & H1); [apply list_elem_of_here|done|]. cbn [mbind go_bind].
    destruct (IH s1 Hs1) as (r & -> & Hr & H2).
    { intros s' y Hy. apply Hf. by apply list_elem_of_further. }
    exists r. split; [done|]. split; [done|]. intros t. rewrite H2, H1, sumZ_cons. lia.
Qed.

(** ** The graph as a list of edges *)
Abbreviation edge := (Vertex * Vertex)%type.
Definition swap (e : edge) : edge := (e.2, e.1).

(** Every entry of the adjacency lists, as a directed edge. *)
Definition directed_of (m : gmap Vertex (list Vertex)) : list edge :=
  concat ((λ vl : Vertex * list Vertex, pair vl.1 <$> vl.2) <$> map_to_list m).
Definition directed (g : Graph) : list edge := directed_of (EdgeSet g).

(** The graph [g] holds exactly the undirected edges [E]: each in both directions. *)
Definition edges_of (g : Graph) (E : list edge) : Prop :=
  directed g ≡ₚ E ++ (swap <$> E) ∧
  Forall (λ e : edge, e.1 ∈ VertexSet g ∧ e.2 ∈ VertexSet g) E.

Lemma directed_insert m v l :
  directed_of (<[v := l]> m) ≡ₚ (pair v <$> l) ++ directed_of (delete v m).
Proof.
  unfold directed_of. rewrite <-insert_delete_eq. rewrite map_to_list_insert by apply lookup_delete_eq.
  cbn. done.
Qed.

Lemma directed_split m v :
  directed_of m ≡ₚ (pair v <$> default [] (m !! v)) ++ directed_of (delete v m).
Proof.
  destruct (m !! v) as [l|] eqn:E; cbn.
  - rewrite <-(insert_id m v l E) at 1. apply directed_insert.
  - by rewrite delete_id.
Qed.

Lemma directed_append m v u :
  directed_of (<[v := default [] (m !! v) ++ [u]]> m) ≡ₚ (v, u) :: directed_of m.
Proof.
  rewrite directed_insert, (directed_split m v), fmap_app. cbn.
  rewrite <-app_assoc. cbn. symmetry. apply Permutation_middle.
Qed.

Lemma add_edge_edges u v g E : edges_of g E → edges_of (Graph_AddEdge u v g) (E ++ [(u, v)]).
Proof.
  intros [Hd Hv]. unfold Graph_AddEdge.
  set (g1 := if decide (u ∈ VertexSet g) then _ else _).
  set (g2 := if decide (v ∈ VertexSet g1) then _ else _).
  assert (EdgeSet g2 = EdgeSet g) as Ee by (unfold g2, g1; repeat case_decide; done).
  assert (VertexSet g ⊆ VertexSet g2 ∧ u ∈ VertexSet g2 ∧ v ∈ VertexSet g2) as (Hs & Hu & Hvv).
  { unfold g2, g1. repeat case_decide; cbn in *; set_solver. }
  split.
  - unfold directed, adj. cbn. rewrite Ee, directed_append, directed_append.
    unfold directed in Hd. rewrite Hd, fmap_app. cbn. solve_Permutation.
  - cbn. apply Forall_app. split; [|by apply Forall_singleton].
    eapply Forall_impl; [exact Hv|]. intros e []. split; by apply Hs.
Qed.

(** A sum over the directed edges counts every edge in both directions; a sum over the
    neighbours of [v] counts the edges at [v]. *)
Lemma directed_sum (h : edge → Z) g E : edges_of g E →
  sumZ h (directed g) = sumZ (λ e, h e + h (swap e)) E.
Proof.
  intros [Hd _]. rewrite (sumZ_Permutation _ _ _ Hd), sumZ_app, sumZ_fmap, sumZ_add. done.
Qed.

Lemma adj_sum (f : Vertex → Z) g E v : edges_of g E →
  sumZ f (adj g v) =
  sumZ (λ e, (if decide (e.1 = v) then f e.2 else 0) + (if decide (e.2 = v) then f e.1 else 0)) E.
Proof.
  intros HE. rewrite <-(directed_sum (λ e, if decide (e.1 = v) then f e.2 else 0) g E HE).
  unfold directed. rewrite (sumZ_Permutation _ _ _ (directed_split (EdgeSet g) v)), sumZ_app, sumZ_fmap.
  rewrite (sumZ_zero _ (directed_of (delete v (EdgeSet g)))).
  - rewrite Z.add_0_r. apply sumZ_ext. intros x _. cbn. by rewrite decide_True.
  - intros e He. unfold directed_of in He. rewrite list_elem_of_In in He.
    apply in_concat in He as (l & Hl & He). rewrite <-!list_elem_of_In in *.
    apply list_elem_of_fmap in Hl as ([v' l'] & -> & Hl). apply list_elem_of_fmap in He as (u & -> & _).
    apply elem_of_map_to_list in Hl. cbn. rewrite decide_False; [done|]. intros ->.
    by rewrite lookup_delete_eq in Hl.
Qed.

Lemma adj_elem g E v u : edges_of g E → u ∈ adj g v → (v, u) ∈ E ∨ (u, v) ∈ E.
Proof.
  intros [Hd _] Hu. assert ((v, u) ∈ directed g) as Hin.
  { unfold directed. rewrite (directed_split (EdgeSet g) v). apply elem_of_app. left.
    by apply list_elem_of_fmap_2. }
  rewrite Hd in Hin. apply elem_of_app in Hin as [Hin|Hin]; [by left|right].
  apply list_elem_of_fmap in Hin as ([a b] & [= -> ->] & Hin). done.
Qed.

(** ** What the counters mean *)
Definition b2z (b : bool) : Z := if b then 1 else 0.

Section counts.
Context (E : list edge) (P : Vertex → Z).

(** The edges with an end in shard [k], and the edges between two shards. *)
Definition edges_at (k : Z) : Z := sumZ (λ e : edge, b2z ((P e.1 =? k) || (P e.2 =? k))) E.
Definition cross_edges : Z := sumZ (λ e : edge, b2z (negb (P e.1 =? P e.2))) E.
End counts.

(** The statistics of the state are those of the edges [E] under the state's own map. *)
Record stats_ok (cs : CLPAState) (E : list edge) : Prop := {
  so_len : len (Edges2Shard cs) = CShardNum cs;
  so_edges : ∀ k, 0 ≤ k < CShardNum cs → at_ (Edges2Shard cs) k = edges_at E (shard_at (PartitionMap cs)) k;
  so_cross : CrossShardEdgeNum cs = cross_edges E (shard_at (PartitionMap cs));
  so_min : MinEdges2Shard cs = min_of (Edges2Shard cs);
}.

(** Every vertex is placed in one of the shards. *)
Definition placed_ok (cs : CLPAState) : Prop :=
  ∀ v, v ∈ VertexSet (NetGraph cs) → 0 ≤ shard_at (PartitionMap cs) v < CShardNum cs.

(** Two states with the same graph, map and shards and right statistics have equal statistics. *)
Lemma stats_unique cs cs' E : stats_ok cs E → stats_ok cs' E →
  PartitionMap cs = PartitionMap cs' → CShardNum cs = CShardNum cs' →
  Edges2Shard cs = Edges2Shard cs' ∧ CrossShardEdgeNum cs = CrossShardEdgeNum cs' ∧
  MinEdges2Shard cs = MinEdges2Shard cs'.
Proof.
  intros [L1 E1 C1 M1] [L2 E2 C2 M2] HP HN.
  assert (Edges2Shard cs = Edges2Shard cs') as He.
  { apply at_ext; [congruence|]. intros k Hk. rewrite E1, E2, HP by (rewrite <-?HN, <-?L1; done). done. }
  rewrite He, C1, C2, M1, M2, HP, He. done.
Qed.

(** ** [ComputeEdges2Shard] *)

(** The two nested loops are one loop over the directed edges. *)
Lemma count_flat m l acc :
  go_fold (count_vertex m) acc l =
  go_fold (λ acc (e : edge), count_edge m e.1 acc e.2) acc
    (concat ((λ vl : Vertex * list Vertex, pair vl.1 <$> vl.2) <$> l)).
Proof.
  revert acc. induction l as [|[v us] l IH]; intros acc; [done|]. cbn [go_fold fmap list_fmap concat].
  rewrite go_fold_app. change (count_vertex m acc (v, us)) with (go_fold (count_edge m v) acc us).
  cbn [fst snd].
  assert (go_fold (λ acc (e : edge), count_edge m e.1 acc e.2) acc (pair v <$> us) =
          go_fold (count_edge m v) acc us) as ->.
  { clear. revert acc. induction us as [|u us IH]; intros acc; [done|]. cbn.
    destruct (count_edge m v acc u); cbn; [apply IH|done]. }
  destruct (go_fold (count_edge m v) acc us); cbn; [apply IH|done].
Qed.

(** What one edge adds to the two counters of shard [k] and to the sum of the first. *)
Definition count_obs (s : list Z * list Z) (t : option nat + nat) : Z :=
  match t with
  | inl (Some k) => at_ s.1 (Z.of_nat k)
  | inl None => sumZ id s.1
  | inr k => at_ s.2 (Z.of_nat k)
  end.

Definition count_inc (P : Vertex → Z) (e : edge) (t : option nat + nat) : Z :=
  match t with
  | inl (Some k) => b2z (negb (P e.1 =? P e.2) && (Z.of_nat k =? P e.2))
  | inl None => b2z (negb (P e.1 =? P e.2))
  | inr k => b2z ((P e.1 =? P e.2) && (Z.of_nat k =? P e.2))
  end.

Lemma count_edge_spec m n (e : edge) s :
  0 ≤ shard_at m e.2 < n → len s.1 = n ∧ len s.2 = n →
  ∃ s', count_edge m e.1 s e.2 = Ok s' ∧ (len s'.1 = n ∧ len s'.2 = n) ∧
    ∀ t, count_obs s' t = count_obs s t + count_inc (shard_at m) e t.
Proof.
  intros Hs [H1 H2]. unfold count_edge. destruct (negb (shard_at m e.1 =? shard_at m e.2)) eqn:Eq.
  - destruct (slice_add_ok 1 (shard_at m e.2) s.1) as (l & El & Hl & Ha); [by rewrite H1|].
    pose proof (slice_add_sum _ _ _ _ El) as Hsum. rewrite El. cbn [mbind go_bind].
    eexists. split; [done|]. split; [cbn; lia|].
    intros [[k|]|k]; cbn [count_obs count_inc fst snd]; rewrite ?Eq.
    + rewrite Ha by lia. cbn. by destruct (_ =? _).
    + cbn. lia.
    + apply negb_true_iff in Eq. rewrite Eq. cbn. lia.
  - destruct (slice_add_ok 1 (shard_at m e.2) s.2) as (l & -> & Hl & Ha); [by rewrite H2|].
    cbn [mbind go_bind]. eexists. split; [done|]. split; [cbn; lia|].
    intros [[k|]|k]; cbn [count_obs count_inc fst snd]; rewrite ?Eq; cbn; [lia..|].
    apply negb_false_iff in Eq. rewrite Ha, Eq by lia. cbn. by destruct (_ =? _).
Qed.

Lemma quot_double x : Z.quot (2 * x) 2 = x.
Proof. rewrite Z.mul_comm. by apply Z.quot_mul. Qed.

Lemma compute_spec cs E :
  edges_of (NetGraph cs) E → placed_ok cs → 0 ≤ CShardNum cs →
  ∃ e c m, ComputeEdges2Shard cs =
      Ok (cs <| Edges2Shard := e |> <| CrossShardEdgeNum := c |> <| MinEdges2Shard := m |>) ∧
    stats_ok (cs <| Edges2Shard := e |> <| CrossShardEdgeNum := c |> <| MinEdges2Shard := m |>) E.
Proof.
  intros HE Hp Hn. destruct (make_ints_ok _ Hn) as [Hz Hl]. unfold ComputeEdges2Shard.
  rewrite Hz. cbn [mbind go_bind]. rewrite count_flat.
  change (concat _) with (directed (NetGraph cs)). set (z := replicate _ 0) in *.
  destruct (go_fold_measure (λ acc (e : edge), count_edge (PartitionMap cs) e.1 acc e.2)
    (λ s, len s.1 = CShardNum cs ∧ len s.2 = CShardNum cs) count_obs
    (count_inc (shard_at (PartitionMap cs))) (directed (NetGraph cs)) (z, z))
    as ([cr it] & -> & [L1 L2] & Ho); [done| |].
  { intros s e He Hs. apply count_edge_spec; [|done]. apply Hp. destruct HE as [Hd Hv].
    rewrite Hd in He. rewrite Forall_forall in Hv.
    apply elem_of_app in He as [He|He]; [by apply Hv|].
    apply list_elem_of_fmap in He as (e' & -> & He). exact (proj1 (Hv e' He)). }
  cbn [mbind go_bind]. eexists _, _, _. split; [reflexivity|]. cbn [fst snd] in *.
  set (P := shard_at (PartitionMap cs)) in *.
  assert (∀ k, at_ z k = 0) as Hz0 by (intros; apply at_replicate).
  split; cbn; [| | |done].
  - unfold len. rewrite length_zip_with. unfold len in L1, L2. lia.
  - intros k Hk. assert (at_ (zip_with (λ w i, w + Z.quot i 2) cr it) k = at_ cr k + Z.quot (at_ it k) 2) as ->.
    { unfold at_, len in *. rewrite !nth_lookup, lookup_zip_with.
      destruct (lookup_lt_is_Some_2 cr (Z.to_nat k)) as [x ->]; [lia|].
      destruct (lookup_lt_is_Some_2 it (Z.to_nat k)) as [y ->]; [lia|]. done. }
    pose proof (Ho (inl (Some (Z.to_nat k)))) as H1. pose proof (Ho (inr (Z.to_nat k))) as H2.
    cbn in H1, H2. rewrite Z2Nat.id in H1, H2 by lia. rewrite Hz0 in H1, H2.
    rewrite (directed_sum _ _ _ HE), Z.add_0_l in H1. rewrite (directed_sum _ _ _ HE), Z.add_0_l in H2.
    rewrite (sumZ_ext _ (λ e, 2 * b2z ((P e.1 =? k) && (P e.2 =? k))) E), sumZ_scale in H2.
    + rewrite H1, H2, quot_double, <-sumZ_add. apply sumZ_ext.
      intros e _. fold P. cbn [fst snd swap]. eqb_cases.
    + intros e _. cbn [fst snd swap]. eqb_cases.
  - pose proof (Ho (inl None)) as H1. unfold count_obs, count_inc in H1. cbn [fst snd] in H1. rewrite (directed_sum _ _ _ HE) in H1.
    rewrite (sumZ_zero id z) in H1 by (intros x Hx; by apply elem_of_replicate in Hx as [-> _]).
    rewrite H1, Z.add_0_l, (sumZ_ext _ (λ e, 2 * b2z (negb (P e.1 =? P e.2))) E).
    + rewrite sumZ_scale, quot_double. done.
    + intros e _. cbn [fst snd swap]. eqb_cases.
Qed.

(** ** [changeShardRecompute] *)
Definition recount_obs (s : list Z * Z) (t : option nat) : Z :=
  match t with Some k => at_ s.1 (Z.of_nat k) | None => s.2 end.

Definition recount_inc (P : Vertex → Z) (old new : Z) (u : Vertex) (t : option nat) : Z :=
  match t with
  | Some k => b2z ((Z.of_nat k =? new) && negb (P u =? new)) - b2z ((Z.of_nat k =? old) && negb (P u =? old))
  | None => b2z (P u =? old) - b2z (P u =? new)
  end.

Lemma recount_edge_spec m n old new u s :
  0 ≤ old < n → 0 ≤ new < n → old ≠ new → len s.1 = n →
  ∃ s', recount_edge m old new s u = Ok s' ∧ len s'.1 = n ∧
    ∀ t, recount_obs s' t = recount_obs s t + recount_inc (shard_at m) old new u t.
Proof.
  intros Ho Hn Hne Hl. unfold recount_edge.
  destruct (slice_add_ok 1 new s.1) as (l1 & E1 & L1 & A1); [lia|].
  destruct (slice_add_ok (-1) old l1) as (l2 & E2 & L2 & A2); [lia|].
  destruct (slice_add_ok (-1) old s.1) as (l3 & E3 & L3 & A3); [lia|].
  destruct (negb (shard_at m u =? new) && negb (shard_at m u =? old)) eqn:Eq;
    [|destruct (shard_at m u =? new) eqn:Eq'; zbool].
  - rewrite E1. cbn [mbind go_bind]. rewrite E2. cbn [mbind go_bind]. zbool.
    eexists. split; [done|]. split; [cbn; lia|].
    intros [k|]; cbn [recount_obs recount_inc fst snd]; [rewrite A2, A1 by lia|]; eqb_cases.
  - rewrite E3. cbn [mbind go_bind]. eexists. split; [done|]. split; [cbn; lia|].
    intros [k|]; cbn [recount_obs recount_inc fst snd]; [rewrite A3 by lia|]; eqb_cases.
  - rewrite E1. cbn [mbind go_bind]. eexists. split; [done|]. split; [cbn; lia|].
    cbn in Eq. zbool.
    intros [k|]; cbn [recount_obs recount_inc fst snd]; [rewrite A1 by lia|]; eqb_cases.
Qed.

(** The edges at [v] are those the loop sees, and the counts of all others stay. *)
Section moved.
Context (E : list edge) (P : Vertex → Z) (v : Vertex) (new : Z).
Definition moved (u : Vertex) : Z := if decide (u = v) then new else P u.
Hypothesis Hloop : (v, v) ∉ E.

Lemma moved_edges k : P v ≠ new →
  edges_at E moved k = edges_at E P k +
    sumZ (λ e : edge, (if decide (e.1 = v) then b2z ((k =? new) && negb (P e.2 =? new)) - b2z ((k =? P v) && negb (P e.2 =? P v)) else 0)
                    + (if decide (e.2 = v) then b2z ((k =? new) && negb (P e.1 =? new)) - b2z ((k =? P v) && negb (P e.1 =? P v)) else 0)) E.
Proof.
  intros Hne. unfold edges_at. rewrite <-sumZ_add. apply sumZ_ext. intros [a b] Hin. unfold moved. cbn [fst snd].
  assert (¬ (a = v ∧ b = v)) as Hab by (intros [-> ->]; done).
  repeat case_decide; subst; [naive_solver|eqb_cases..].
Qed.

Lemma moved_cross : P v ≠ new →
  cross_edges E moved = cross_edges E P +
    sumZ (λ e : edge, (if decide (e.1 = v) then b2z (P e.2 =? P v) - b2z (P e.2 =? new) else 0)
                    + (if decide (e.2 = v) then b2z (P e.1 =? P v) - b2z (P e.1 =? new) else 0)) E.
Proof.
  intros Hne. unfold cross_edges. rewrite <-sumZ_add. apply sumZ_ext. intros [a b] Hin. unfold moved. cbn [fst snd].
  assert (¬ (a = v ∧ b = v)) as Hab by (intros [-> ->]; done).
  repeat case_decide; subst; [naive_solver|eqb_cases..].
Qed.
End moved.

Lemma shard_at_insert m v s u : shard_at (<[v := s]> m) u = moved (shard_at m) v s u.
Proof.
  unfold moved, shard_at. case_decide; subst; [by rewrite lookup_insert_eq|by rewrite lookup_insert_ne].
Qed.

Lemma edges_at_ext E P P' k : (∀ u, P u = P' u) → edges_at E P k = edges_at E P' k.
Proof. intros He. apply sumZ_ext. intros e _. by rewrite !He. Qed.

Lemma cross_edges_ext E P P' : (∀ u, P u = P' u) → cross_edges E P = cross_edges E P'.
Proof. intros He. apply sumZ_ext. intros e _. by rewrite !He. Qed.

Lemma recompute_spec cs cs' v new E :
  edges_of (NetGraph cs) E → stats_ok cs E → (v, v) ∉ E →
  0 ≤ shard_at (PartitionMap cs) v < CShardNum cs → 0 ≤ new < CShardNum cs →
  shard_at (PartitionMap cs) v ≠ new →
  cs' = cs <| PartitionMap := <[v := new]> (PartitionMap cs) |> <| VertexsNumInShard := VertexsNumInShard cs' |> →
  ∃ e c m, changeShardRecompute v (shard_at (PartitionMap cs) v) cs' =
      Ok (cs' <| Edges2Shard := e |> <| CrossShardEdgeNum := c |> <| MinEdges2Shard := m |>) ∧
    stats_ok (cs' <| Edges2Shard := e |> <| CrossShardEdgeNum := c |> <| MinEdges2Shard := m |>) E.
Proof.
  intros HE [HL HW HX _] Hloop Hold Hnew Hne Hcs. set (P := shard_at (PartitionMap cs)) in *.
  assert (PartitionMap cs' = <[v := new]> (PartitionMap cs)) as HP by (by rewrite Hcs).
  assert (NetGraph cs' = NetGraph cs ∧ Edges2Shard cs' = Edges2Shard cs ∧ CShardNum cs' = CShardNum cs ∧
    CrossShardEdgeNum cs' = CrossShardEdgeNum cs) as (HG & HE2 & HS & HC) by (by rewrite Hcs).
  assert (shard_at (PartitionMap cs') v = new) as Hv
    by (rewrite HP, shard_at_insert; unfold moved; by rewrite decide_True).
  unfold changeShardRecompute. rewrite Hv, HG, HE2, HC.
  destruct (go_fold_measure (recount_edge (PartitionMap cs') (P v) new) (λ s, len s.1 = CShardNum cs)
    recount_obs (recount_inc (shard_at (PartitionMap cs')) (P v) new) (adj (NetGraph cs) v)
    (Edges2Shard cs, CrossShardEdgeNum cs)) as ([e c] & -> & Hle & Ho); [done| |].
  { intros s u _ Hs. by apply recount_edge_spec. }
  assert (∀ t, sumZ (λ x, recount_inc (shard_at (PartitionMap cs')) (P v) new x t) (adj (NetGraph cs) v) =
               sumZ (λ x, recount_inc P (P v) new x t) (adj (NetGraph cs) v)) as Hinc.
  { intros t. apply sumZ_ext. intros u Hu. assert (u ≠ v) as Huv.
    { intros ->. by destruct (adj_elem _ _ _ _ HE Hu). }
    assert (shard_at (PartitionMap cs') u = P u) as Hu'
      by (rewrite HP, shard_at_insert; unfold moved; by rewrite decide_False).
    destruct t; cbn [recount_inc]; by rewrite Hu'. }
  cbn [mbind go_bind]. eexists e, c, (min_of e). split; [done|].
  split; cbn [upd Edges2Shard CShardNum PartitionMap CrossShardEdgeNum MinEdges2Shard]; [by rewrite HS| | |done].
  - intros k Hk. rewrite HS in Hk. specialize (Ho (Some (Z.to_nat k))). rewrite Hinc in Ho.
    cbn [recount_obs recount_inc fst] in Ho. rewrite Z2Nat.id in Ho by lia.
    rewrite Ho, (HW k Hk), (adj_sum _ _ _ v HE), HP.
    rewrite (edges_at_ext _ (shard_at _) (moved P v new)) by (intros; apply shard_at_insert).
    by rewrite moved_edges.
  - specialize (Ho None). rewrite Hinc in Ho. cbn [recount_obs recount_inc snd] in Ho.
    rewrite Ho, HX, (adj_sum _ _ _ v HE), HP.
    rewrite (cross_edges_ext _ (shard_at _) (moved P v new)) by (intros; apply shard_at_insert).
    by rewrite moved_cross.
Qed.

(** ** The partition *)

(** The vertices placed in shard [k]. *)
Definition vertices_in (g : Graph) (P : Vertex → Z) (k : Z) : Z :=
  sumZ (λ v, b2z (P v =? k)) (elements (VertexSet g)).

(** The state before the statistics are computed: the graph holds the edges [E], every account is in a shard, and the shards' sizes are counted. *)
Record graph_ok (cs : CLPAState) (E : list edge) : Prop := {
  go_edges : edges_of (NetGraph cs) E;
  go_placed : placed_ok cs;
  go_len : len (VertexsNumInShard cs) = CShardNum cs;
  go_nums : ∀ k, 0 ≤ k < CShardNum cs →
    at_ (VertexsNumInShard cs) k = vertices_in (NetGraph cs) (shard_at (PartitionMap cs)) k;
}.

Lemma graph_ok_stats cs e c m E : graph_ok cs E →
  graph_ok (cs <| Edges2Shard := e |> <| CrossShardEdgeNum := c |> <| MinEdges2Shard := m |>) E.
Proof. intros []. by split. Qed.

Lemma vertices_moved g P v new k : v ∈ VertexSet g → P v ≠ new →
  vertices_in g (moved P v new) k = vertices_in g P k + (if k =? new then 1 else 0) - (if k =? P v then 1 else 0).
Proof.
  intros Hv Hne. unfold vertices_in.
  rewrite (sumZ_ext _ (λ u, b2z (P u =? k) +
    (if decide (u = v) then (if k =? new then 1 else 0) - (if k =? P v then 1 else 0) else 0))).
  - rewrite sumZ_add, sumZ_single; [lia|apply NoDup_elements|by apply elem_of_elements].
  - intros u _. unfold moved. case_decide; subst; eqb_cases.
Qed.

Lemma score_ok cs v s : 0 ≤ s < len (Edges2Shard cs) → ∃ f, getShard_score cs v s = Ok f.
Proof. intros Hs. unfold getShard_score. rewrite slice_get_ok by done. by eexists. Qed.

Lemma adj_placed cs v u E : graph_ok cs E → u ∈ adj (NetGraph cs) v →
  0 ≤ shard_at (PartitionMap cs) u < CShardNum cs.
Proof.
  intros [HE Hp _ _] Hu. apply Hp. pose proof (proj2 HE) as HF. rewrite Forall_forall in HF.
  destruct (adj_elem _ _ _ _ HE Hu) as [Hin|Hin]; by apply HF in Hin as [].
Qed.

Lemma best_shard_ok cs v E : graph_ok cs E → stats_ok cs E → v ∈ VertexSet (NetGraph cs) →
  ∃ s, best_shard cs v = Ok s ∧ 0 ≤ s < CShardNum cs.
Proof.
  intros Hg [HL _ _ _] Hv. unfold best_shard.
  destruct (go_fold_total (score_neighbor cs v) (λ acc, 0 ≤ acc.2 < CShardNum cs)
    (∅, fl_of (-9999), shard_at (PartitionMap cs) v) (adj (NetGraph cs) v)) as (r & -> & Hr).
  - by apply (go_placed _ _ Hg).
  - intros [[sc mx] ms] u Hu Hacc. unfold score_neighbor. destruct (sc !! _); [by eexists|].
    pose proof (adj_placed cs v u E Hg Hu).
    destruct (score_ok cs v (shard_at (PartitionMap cs) u)) as [f ->]; [lia|]. cbn [mbind go_bind].
    eexists. split; [done|]. by case_match.
  - by exists r.2.
Qed.

(** What the run keeps: the invariants, the original places of the accounts that were not
    moved, and every shard that had an account still has one. *)
Record run_ok (E : list edge) (cs0 : CLPAState) (st : clpa_run) : Prop := {
  ro_graph : graph_ok (r_cs st) E;
  ro_stats : stats_ok (r_cs st) E;
  ro_same : NetGraph (r_cs st) = NetGraph cs0 ∧ CShardNum (r_cs st) = CShardNum cs0;
  ro_res : ∀ v, shard_at (PartitionMap (r_cs st)) v =
    default (shard_at (PartitionMap cs0) v) (r_res st !! Addr v);
  ro_keys : ∀ a s, r_res st !! a = Some s → mkVertex a ∈ VertexSet (NetGraph cs0) ∧ 0 ≤ s < CShardNum cs0;
  ro_full : ∀ k, 0 ≤ k < CShardNum cs0 →
    1 ≤ vertices_in (NetGraph cs0) (shard_at (PartitionMap cs0)) k →
    1 ≤ vertices_in (NetGraph cs0) (shard_at (PartitionMap (r_cs st))) k;
}.

Lemma visit_moves E cs0 st v new nums e c m :
  run_ok E cs0 st → CShardNum cs0 < two64 → v ∈ VertexSet (NetGraph cs0) →
  0 ≤ new < CShardNum cs0 → shard_at (PartitionMap (r_cs st)) v ≠ new →
  1 < vertices_in (NetGraph cs0) (shard_at (PartitionMap (r_cs st))) (shard_at (PartitionMap (r_cs st)) v) →
  len nums = CShardNum cs0 →
  (∀ k, 0 ≤ k → at_ nums k = at_ (VertexsNumInShard (r_cs st)) k + (if k =? new then 1 else 0)
     - (if k =? shard_at (PartitionMap (r_cs st)) v then 1 else 0)) →
  let cs' := (r_cs st) <| PartitionMap ::= <[v := new]> |> <| VertexsNumInShard := nums |>
               <| Edges2Shard := e |> <| CrossShardEdgeNum := c |> <| MinEdges2Shard := m |> in
  stats_ok cs' E →
  ∀ thr, run_ok E cs0 (mkRun cs' (<[Addr v := u64 new]> (r_res st)) thr).
Proof.
  intros [[HE Hp Hnl Hn] _ [HG HS] Hres Hkeys Hfull] H64 Hv Hnew Hne Hone Hl Hnums cs' Hst thr.
  assert (∀ u, shard_at (PartitionMap cs') u = moved (shard_at (PartitionMap (r_cs st))) v new u) as Hm
    by (intros; apply shard_at_insert).
  assert (∀ k, vertices_in (NetGraph cs0) (shard_at (PartitionMap cs')) k =
    vertices_in (NetGraph cs0) (shard_at (PartitionMap (r_cs st))) k + (if k =? new then 1 else 0)
     - (if k =? shard_at (PartitionMap (r_cs st)) v then 1 else 0)) as Hcount.
  { intros k. rewrite <-(vertices_moved _ _ v) by done. apply sumZ_ext. intros u _. by rewrite Hm. }
  assert (∀ k, 0 ≤ k < CShardNum cs0 → at_ (VertexsNumInShard (r_cs st)) k =
    vertices_in (NetGraph cs0) (shard_at (PartitionMap (r_cs st))) k) as Hn' by (by rewrite <-HG, <-HS).
  split; [| exact Hst | exact (conj HG HS) |..]; cbn [r_cs r_res].
  - split; [exact HE| |exact (eq_trans Hl (eq_sym HS))|].
    + intros u Hu. rewrite Hm. unfold moved. change (CShardNum cs') with (CShardNum (r_cs st)).
      case_decide; [by rewrite HS|by apply Hp].
    + intros k Hk. change (CShardNum cs') with (CShardNum (r_cs st)) in Hk.
      change (VertexsNumInShard cs') with nums. change (NetGraph cs') with (NetGraph (r_cs st)).
      rewrite HG, Hcount, Hnums, Hn' by (rewrite <-?HS; lia). done.
  - intros u. rewrite Hm. unfold moved. case_decide as Hd.
    + subst. rewrite lookup_insert_eq. cbn. by rewrite u64_small by lia.
    + rewrite lookup_insert_ne; [apply Hres|]. intros He. apply Hd. destruct u, v. cbn in He. by subst.
  - intros a s. destruct (decide (a = Addr v)) as [->|Hd].
    + rewrite lookup_insert_eq. intros [= <-]. rewrite u64_small by lia. by destruct v.
    + rewrite lookup_insert_ne by done. apply Hkeys.
  - intros k Hk H1. rewrite Hcount. specialize (Hfull k Hk H1).
    destruct (k =? new); destruct (k =? shard_at _ v) eqn:Eq; zbool; subst; lia.
Qed.

Lemma visit_ok E cs0 st v :
  (∀ v, (v, v) ∉ E) → run_ok E cs0 st → CShardNum cs0 < two64 → v ∈ VertexSet (NetGraph cs0) →
  ∃ st', clpa_visit st v = Ok st' ∧ run_ok E cs0 st'.
Proof.
  intros Hlp Hrun H64 Hv. pose proof Hrun as [Hg Hst [HG HS] _ _ _]. unfold clpa_visit.
  case_match; [by eexists|].
  destruct (best_shard_ok (r_cs st) v E Hg Hst) as (new & -> & Hnew); [by rewrite HG|].
  cbn [mbind go_bind]. destruct (negb _) eqn:Ene; [|by eexists]. zbool.
  pose proof Hg as [HE Hp Hnl Hn]. pose proof (Hp v ltac:(by rewrite HG)) as Hold.
  rewrite slice_get_ok by lia. cbn [mbind go_bind].
  destruct (1 <? _) eqn:E1; [|by eexists]. zbool. rewrite (Hn _ Hold), HG in E1.
  destruct (slice_add_ok (-1) (shard_at (PartitionMap (r_cs st)) v) (VertexsNumInShard (r_cs st)))
    as (n1 & -> & L1 & A1); [lia|]. cbn [mbind go_bind].
  destruct (slice_add_ok 1 new n1) as (n2 & -> & L2 & A2); [lia|]. cbn [mbind go_bind].
  pose (cs' := (r_cs st) <| PartitionMap ::= <[v := new]> |> <| VertexsNumInShard := n2 |>).
  destruct (recompute_spec (r_cs st) cs' v new E) as (e & c & m & Er & Hst'); try done.
  unfold cs' in Er. rewrite Er. cbn [mbind go_bind]. eexists. split; [done|].
  apply (visit_moves E cs0 st v new n2 e c m); try done; [by rewrite <-HS|lia|].
  intros k Hk. rewrite A2, A1 by done. destruct (k =? new), (k =? shard_at _ v); lia.
Qed.

Lemma rounds_ok E cs0 orders :
  (∀ v, (v, v) ∉ E) → CShardNum cs0 < two64 →
  (∀ i v, v ∈ orders i → v ∈ VertexSet (NetGraph cs0)) →
  ∀ fuel iter st, run_ok E cs0 st →
  ∃ st', clpa_rounds orders fuel iter st = Ok st' ∧ run_ok E cs0 st'.
Proof.
  intros Hlp H64 Ho. induction fuel as [|fuel IH]; intros iter st Hst; [by eexists|]. cbn [clpa_rounds].
  destruct (go_fold_total clpa_visit (run_ok E cs0) st (orders iter)) as (st' & -> & Hst'); [done| |].
  { intros t v Hv%Ho Ht. by apply visit_ok. }
  by apply IH.
Qed.

(** ** Building the graph *)

(** The places known in advance are shards, and every vertex has one. *)
Definition map_ok (cs : CLPAState) : Prop :=
  map_Forall (λ _ s, 0 ≤ s < CShardNum cs) (PartitionMap cs) ∧
  ∀ v, v ∈ VertexSet (NetGraph cs) → is_Some (PartitionMap cs !! v).

Section build.
Context `{Params}.

Definition addr_ok (v : Vertex) : Prop := is_hex (Addr v) = true ∧ Addr v ≠ "".

Lemma add_vertex_ok v cs E :
  graph_ok cs E → map_ok cs → addr_ok v → CShardNum cs = ShardNum → 0 < ShardNum →
  v ∉ VertexSet (NetGraph cs) →
  ∃ cs', AddVertex v cs = Ok cs' ∧ graph_ok cs' E ∧ map_ok cs' ∧ CShardNum cs' = CShardNum cs ∧
    VertexSet (NetGraph cs') = {[v]} ∪ VertexSet (NetGraph cs).
Proof.
  intros [HE Hp Hl Hn] [Hm Hdom] [Hh Ha] Hs Hpos Hnew. unfold AddVertex. cbn [upd PartitionMap VertexsNumInShard].
  assert (∃ s, match PartitionMap cs !! v with None => Addr2Shard (Addr v) | Some val => Ok val end = Ok s
    ∧ 0 ≤ s < CShardNum cs) as (s & -> & Hr).
  { destruct (PartitionMap cs !! v) as [s|] eqn:Em; [exists s; by split; [|apply (Hm v)]|].
    rewrite Hs. by apply addr2shard_ok. }
  cbn [mbind go_bind]. destruct (slice_add_ok 1 s (VertexsNumInShard cs)) as (nums & -> & Hnl & Hna); [lia|].
  cbn [mbind go_bind]. eexists. split; [done|].
  assert (∀ u, shard_at (<[v := s]> (PartitionMap cs)) u = if decide (u = v) then s else shard_at (PartitionMap cs) u)
    as Hsh by (intros; by rewrite shard_at_insert).
  split; [|split; [|done]]; split; cbn [upd NetGraph PartitionMap VertexsNumInShard CShardNum Graph_AddVertex VertexSet].
  - split; [exact (proj1 HE)|]. eapply Forall_impl; [exact (proj2 HE)|]. cbn. set_solver.
  - intros u Hu. cbn in *. rewrite Hsh. case_decide; [done|]. apply Hp. set_solver.
  - by rewrite Hnl.
  - intros k Hk. cbn in Hk. rewrite Hna, (Hn k Hk) by lia. unfold vertices_in. cbn.
    rewrite (sumZ_Permutation _ _ _ (elements_union_singleton _ _ Hnew)).
    rewrite sumZ_cons, Hsh, decide_True by done.
    rewrite (sumZ_ext (λ u, b2z (shard_at (<[v:=s]> (PartitionMap cs)) u =? k))
      (λ u, b2z (shard_at (PartitionMap cs) u =? k))).
    + eqb_cases.
    + intros u Hu%elem_of_elements. rewrite Hsh, decide_False; [done|]. by intros ->.
  - by apply map_Forall_insert_2.
  - intros u. cbn. destruct (decide (u = v)) as [->|Hd]; [by rewrite lookup_insert_eq|].
    rewrite lookup_insert_ne by done. intros Hu. apply Hdom. set_solver.
Qed.

Lemma ensure_vertex_ok v cs E :
  graph_ok cs E → map_ok cs → addr_ok v → CShardNum cs = ShardNum → 0 < ShardNum →
  ∃ cs', (if decide (v ∈ VertexSet (NetGraph cs)) then Ok cs else AddVertex v cs) = Ok cs' ∧
    graph_ok cs' E ∧ map_ok cs' ∧ CShardNum cs' = CShardNum cs ∧
    VertexSet (NetGraph cs') = {[v]} ∪ VertexSet (NetGraph cs).
Proof.
  intros Hg Hm Ha Hs Hpos. case_decide as Hd; [|by apply add_vertex_ok].
  exists cs. split; [done|]. split; [done|]. split; [done|]. split; [done|]. set_solver.
Qed.

Lemma add_edge_ok u v cs E :
  graph_ok cs E → map_ok cs → addr_ok u → addr_ok v → CShardNum cs = ShardNum → 0 < ShardNum →
  ∃ cs', AddEdge u v cs = Ok cs' ∧ graph_ok cs' (E ++ [(u, v)]) ∧ map_ok cs' ∧ CShardNum cs' = CShardNum cs.
Proof.
  intros Hg Hm Hu Hv Hs Hpos. unfold AddEdge.
  destruct (ensure_vertex_ok u cs E Hg Hm Hu Hs Hpos) as (c1 & -> & Hg1 & Hm1 & Hs1 & V1).
  cbn [mbind go_bind].
  destruct (ensure_vertex_ok v c1 E Hg1 Hm1 Hv) as (c2 & -> & Hg2 & Hm2 & Hs2 & V2); [congruence|done|].
  cbn [mbind go_bind]. eexists. split; [done|]. destruct Hg2 as [HE Hp Hl Hn].
  assert (VertexSet (Graph_AddEdge u v (NetGraph c2)) = VertexSet (NetGraph c2)) as HV.
  { assert (u ∈ VertexSet (NetGraph c2)) as Hu2 by (rewrite V2, V1; set_solver +).
    assert (v ∈ VertexSet (NetGraph c2)) as Hv2 by (rewrite V2; set_solver +).
    unfold Graph_AddEdge. destruct (decide (u ∈ _)) as [_|]; [|done].
    by destruct (decide (v ∈ _)). }
  split; [split|split; [split|exact (eq_trans Hs2 Hs1)]];
    cbn [upd NetGraph PartitionMap VertexsNumInShard CShardNum]; [apply (add_edge_edges u v _ E HE)|..].
  - intros w. cbn. rewrite HV. apply Hp.
  - exact Hl.
  - intros k Hk. cbn in Hk. rewrite (Hn k Hk). unfold vertices_in. cbn. by rewrite HV.
  - apply Hm2.
  - intros w. cbn. rewrite HV. apply Hm2.
Qed.

Definition add_edges (E : list edge) (cs : CLPAState) : go CLPAState :=
  go_fold (λ cs (e : edge), AddEdge e.1 e.2 cs) cs E.

Lemma add_edges_ok E' cs E :
  graph_ok cs E → map_ok cs → Forall (λ e : edge, addr_ok e.1 ∧ addr_ok e.2) E' →
  CShardNum cs = ShardNum → 0 < ShardNum →
  ∃ cs', add_edges E' cs = Ok cs' ∧ graph_ok cs' (E ++ E') ∧ map_ok cs' ∧ CShardNum cs' = CShardNum cs.
Proof.
  unfold add_edges. revert cs E. induction E' as [|e E' IH]; intros cs E Hg Hm Ha Hs Hpos.
  - exists cs. by rewrite app_nil_r.
  - apply Forall_cons in Ha as [[Hu Hv] Ha]. cbn [go_fold].
    destruct (add_edge_ok e.1 e.2 cs E Hg Hm Hu Hv Hs Hpos) as (c1 & -> & Hg1 & Hm1 & Hs1). cbn [mbind go_bind].
    destruct (IH c1 (E ++ [e]) ltac:(by destruct e) Hm1 Ha) as (c2 & -> & Hg2 & Hm2 & Hs2);
      [congruence|done|].
    exists c2. rewrite <-app_assoc in Hg2. split; [done|]. split; [done|]. split; [done|congruence].
Qed.

Lemma init_ok wp mi : 0 < ShardNum → ∃ cs, Init_CLPAState wp mi ShardNum zero_state = Ok cs ∧
  graph_ok cs [] ∧ map_ok cs ∧ CShardNum cs = ShardNum ∧ MaxIterations cs = mi.
Proof.
  intros Hpos. unfold Init_CLPAState. destruct (make_ints_ok ShardNum) as [-> Hl]; [lia|].
  cbn [mbind go_bind]. eexists. split; [done|]. split; [|split; [|done]]; split; cbn.
  - by split.
  - intros v Hv. by apply elem_of_empty in Hv.
  - done.
  - intros k _. unfold vertices_in. cbn. rewrite elements_empty. apply at_replicate.
  - apply map_Forall_empty.
  - intros v Hv. by apply elem_of_empty in Hv.
Qed.

Lemma min_of_le l x : x ∈ l → min_of l ≤ x.
Proof.
  unfold min_of. assert (∀ l m, foldl (λ m v, if v <? m then v else m) m l ≤ m) as Hle.
  { clear. induction l as [|y l IH]; intros m; cbn; [lia|]. specialize (IH (if y <? m then y else m)).
    destruct (y <? m) eqn:E; zbool; lia. }
  generalize MaxInt. induction l as [|y l IH]; intros m Hx; [by apply elem_of_nil in Hx|].
  apply elem_of_cons in Hx as [->|Hx]; cbn; [|by apply IH].
  specialize (Hle l (if y <? m then y else m)). destruct (y <? m) eqn:E; zbool; lia.
Qed.

(** The counters of the graph.  Adding any list of transactions (edges) between valid
    addresses to a new state and computing the statistics never panics, and gives what the
    counters mean: for every shard the number of edges with an end in it, the number of edges
    between shards, the number of accounts of every shard, and a minimum that bounds every
    shard's edges. *)
Theorem edges2shard_counts (wp : float) (mi : Z) (E : list edge) :
  0 < ShardNum → Forall (λ e : edge, addr_ok e.1 ∧ addr_ok e.2) E →
  ∃ cs0 cs cs', Init_CLPAState wp mi ShardNum zero_state = Ok cs0 ∧ add_edges E cs0 = Ok cs ∧
    ComputeEdges2Shard cs = Ok cs' ∧ PartitionMap cs' = PartitionMap cs ∧
    (∀ k, 0 ≤ k < ShardNum →
       at_ (Edges2Shard cs') k = edges_at E (shard_at (PartitionMap cs)) k ∧
       at_ (VertexsNumInShard cs') k = vertices_in (NetGraph cs) (shard_at (PartitionMap cs)) k ∧
       MinEdges2Shard cs' ≤ at_ (Edges2Shard cs') k) ∧
    CrossShardEdgeNum cs' = cross_edges E (shard_at (PartitionMap cs)) ∧
    ∀ e, e ∈ E → e.1 ∈ VertexSet (NetGraph cs) ∧ e.2 ∈ VertexSet (NetGraph cs).
Proof.
  intros Hpos Ha. destruct (init_ok wp mi Hpos) as (cs0 & E0 & Hg0 & Hm0 & Hs0 & _).
  destruct (add_edges_ok E cs0 [] Hg0 Hm0 Ha Hs0 Hpos) as (cs & E1 & Hg & Hm & Hs). rewrite app_nil_l in Hg.
  destruct (compute_spec cs E (go_edges _ _ Hg) (go_placed _ _ Hg)) as (e & c & m & E2 & [HL HW HX HM]); [lia|].
  eexists cs0, cs, _. split; [exact E0|]. split; [exact E1|]. split; [exact E2|]. split; [done|].
  cbn [upd Edges2Shard CShardNum PartitionMap CrossShardEdgeNum MinEdges2Shard VertexsNumInShard] in *.
  split; [|split; [done|]].
  - intros k Hk. split; [apply HW; lia|]. split; [apply Hg; lia|]. rewrite HM. apply min_of_le.
    unfold at_. rewrite list_elem_of_In. apply nth_In. unfold len in HL. lia.
  - pose proof (proj2 (go_edges _ _ Hg)) as HF. rewrite Forall_forall in HF. exact HF.
Qed.

(** C20: the incremental update.  When a vertex without an edge to itself moves to another
    shard, [changeShardRecompute], which looks only at its neighbours, gives exactly the state
    that [ComputeEdges2Shard] computes from the whole graph. *)
Theorem recompute_agrees (cs0 cs : CLPAState) (E : list edge) (v : Vertex) (new : Z) :
  graph_ok cs0 E → 0 ≤ CShardNum cs0 → ComputeEdges2Shard cs0 = Ok cs →
  v ∈ VertexSet (NetGraph cs0) → (v, v) ∉ E → 0 ≤ new < CShardNum cs0 →
  shard_at (PartitionMap cs0) v ≠ new →
  changeShardRecompute v (shard_at (PartitionMap cs0) v) (cs <| PartitionMap ::= <[v := new]> |>) =
    ComputeEdges2Shard (cs <| PartitionMap ::= <[v := new]> |>).
Proof.
  intros Hg Hn Ec Hv Hlp Hnew Hne.
  destruct (compute_spec cs0 E (go_edges _ _ Hg) (go_placed _ _ Hg) Hn) as (e & c & m & E1 & Hst).
  rewrite Ec in E1. injection E1 as ->.
  pose (cs := cs0 <| Edges2Shard := e |> <| CrossShardEdgeNum := c |> <| MinEdges2Shard := m |>).
  fold cs in Hst |- *. pose (cs' := cs <| PartitionMap ::= <[v := new]> |>). fold cs'.
  destruct (recompute_spec cs cs' v new E (go_edges _ _ Hg) Hst Hlp (go_placed _ _ Hg v Hv) Hnew Hne eq_refl)
    as (e1 & c1 & m1 & E1 & S1). unfold cs in E1 at 1. cbn [upd PartitionMap] in E1.
  destruct (compute_spec cs' E (go_edges _ _ Hg)) as (e2 & c2 & m2 & E2 & S2); [|done|].
  { intros u Hu. unfold cs'. cbn [upd PartitionMap CShardNum]. rewrite shard_at_insert. unfold moved.
    case_decide; [done|]. by apply (go_placed _ _ Hg). }
  destruct (stats_unique _ _ _ S1 S2 eq_refl eq_refl) as (He & Hc & Hm).
  change (e1 = e2) in He. change (c1 = c2) in Hc. change (m1 = m2) in Hm. subst e1 c1 m1.
  rewrite E2. exact E1.
Qed.

(** The state at the end of the rounds, and the statistics computed from it. *)
Lemma partition_reaches (cs : CLPAState) (E : list edge) (orders : nat → list Vertex) :
  graph_ok cs E → (∀ v, (v, v) ∉ E) → 0 ≤ CShardNum cs < two64 →
  (∀ i v, v ∈ orders i → v ∈ VertexSet (NetGraph cs)) →
  ∃ st e c m, let cs' := (r_cs st) <| Edges2Shard := e |> <| CrossShardEdgeNum := c |> <| MinEdges2Shard := m |> in
    CLPA_Partition orders cs = Ok (cs', r_res st, c) ∧ run_ok E cs st ∧ stats_ok cs' E.
Proof.
  intros Hg Hlp Hn Ho. unfold CLPA_Partition.
  destruct (compute_spec cs E (go_edges _ _ Hg) (go_placed _ _ Hg)) as (e & c & m & -> & Hst); [lia|].
  cbn [mbind go_bind].
  pose (cs1 := cs <| Edges2Shard := e |> <| CrossShardEdgeNum := c |> <| MinEdges2Shard := m |>).
  fold cs1 in Hst |- *. assert (graph_ok cs1 E) as Hg1 by (by apply graph_ok_stats).
  destruct (rounds_ok E cs1 orders Hlp (proj2 Hn) Ho (Z.to_nat (MaxIterations cs1)) 0 (mkRun cs1 ∅ ∅))
    as (st & -> & Hrun).
  { split; [done|done|done|by intros|done|by intros]. }
  pose proof Hrun as [Hgs _ [_ HS] _ _ _]. cbn [mbind go_bind].
  destruct (compute_spec (r_cs st) E (go_edges _ _ Hgs) (go_placed _ _ Hgs)) as (e2 & c2 & m2 & -> & Hst2).
  { rewrite HS. cbn. lia. }
  exists st, e2, c2, m2. split; [reflexivity|]. split; [|exact Hst2]. by destruct Hrun.
Qed.

(** C21: the partition.  On a graph without loops, with any visiting order in every round,
    [CLPA_Partition] returns: the map it returns holds vertices and valid shards, the accounts
    in it are exactly those whose place it decides (all others keep theirs), the number it
    returns is the number of edges between shards under the new map, the sizes of the shards
    are right, and a shard that had an account still has one. *)
Theorem clpa_partition_spec (cs : CLPAState) (E : list edge) (orders : nat → list Vertex) :
  graph_ok cs E → (∀ v, (v, v) ∉ E) → 0 ≤ CShardNum cs < two64 →
  (∀ i v, v ∈ orders i → v ∈ VertexSet (NetGraph cs)) →
  ∃ cs' res x, CLPA_Partition orders cs = Ok (cs', res, x) ∧ NetGraph cs' = NetGraph cs ∧
    (∀ v, shard_at (PartitionMap cs') v = default (shard_at (PartitionMap cs) v) (res !! Addr v)) ∧
    (∀ a s, res !! a = Some s → mkVertex a ∈ VertexSet (NetGraph cs) ∧ 0 ≤ s < CShardNum cs) ∧
    x = cross_edges E (shard_at (PartitionMap cs')) ∧
    ∀ k, 0 ≤ k < CShardNum cs →
      at_ (VertexsNumInShard cs') k = vertices_in (NetGraph cs) (shard_at (PartitionMap cs')) k ∧
      (1 ≤ at_ (VertexsNumInShard cs) k → 1 ≤ at_ (VertexsNumInShard cs') k).
Proof.
  intros Hg Hlp Hn Ho.
  destruct (partition_reaches cs E orders Hg Hlp Hn Ho) as (st & e & c & m & Er & [Hgs _ [HG HS] Hres Hkeys Hfull] & Hst).
  eexists _, _, _. split; [exact Er|].
  split; [exact HG|]. split; [exact Hres|]. split; [exact Hkeys|]. split; [exact (so_cross _ _ Hst)|].
  intros k Hk. pose proof (go_nums _ _ Hgs k ltac:(rewrite HS; exact Hk)) as Hnum. rewrite HG in Hnum.
  split; [exact Hnum|]. intros H1. change (1 ≤ at_ (VertexsNumInShard (r_cs st)) k). rewrite Hnum.
  apply Hfull; [done|]. rewrite (go_nums _ _ Hg k Hk) in H1. exact H1.
Qed.
End build.

(** ** Witnesses: four accounts of shards 3, 3, 1 and 2 *)
Module PartitionExample.
#[local] Existing Instance default_params.

Definition vA := mkVertex "00000003".
Definition vB := mkVertex "00000007".
Definition vC := mkVertex "00000001".
Definition vD := mkVertex "00000002".
Definition edges4 : list edge := [(vA, vC); (vA, vC); (vA, vB); (vC, vD)].
Definition half : float := fdiv (fl_of 1) (fl_of 2).

Lemma edges4_ok : Forall (λ e : edge, addr_ok e.1 ∧ addr_ok e.2) edges4.
Proof.
  repeat apply Forall_cons_2; [..|by apply Forall_nil]; split; split; (reflexivity || discriminate).
Qed.

Lemma shards_pos : 0 < ShardNum.
Proof. done. Qed.

Lemma graph4 : ∃ cs, graph_ok cs edges4 ∧ CShardNum cs = 4.
Proof.
  destruct (init_ok half 100 shards_pos) as (cs0 & _ & Hg & Hm & Hs & _).
  destruct (add_edges_ok edges4 cs0 [] Hg Hm edges4_ok Hs shards_pos) as (cs & _ & Hg' & _ & Hs').
  exists cs. split; [exact Hg'|]. by rewrite Hs', Hs.
Qed.

Lemma vertex4 cs v : graph_ok cs edges4 → v ∈ [vA; vB; vC; vD] → v ∈ VertexSet (NetGraph cs).
Proof.
  intros [[_ HF] _ _ _]. unfold edges4 in HF. rewrite !Forall_cons in HF. cbn in HF.
  destruct HF as ([HA HC] & _ & [_ HB] & [_ HD] & _).
  rewrite !elem_of_cons, elem_of_nil. by intros [->|[->|[->|[->|[]]]]].
Qed.

Lemma no_loops v : (v, v) ∉ edges4.
Proof.
  unfold edges4, vA, vB, vC, vD. rewrite !elem_of_cons, elem_of_nil.
  by intros [[= -> ?]|[[= -> ?]|[[= -> ?]|[[= -> ?]|[]]]]].
Qed.

Lemma edges2shard_counts_witness :
  ∃ cs0 cs cs', Init_CLPAState half 100 4 zero_state = Ok cs0 ∧ add_edges edges4 cs0 = Ok cs ∧
    ComputeEdges2Shard cs = Ok cs' ∧ Edges2Shard cs' = [0; 3; 1; 3] ∧ CrossShardEdgeNum cs' = 3.
Proof.
  destruct (edges2shard_counts half 100 edges4 shards_pos edges4_ok)
    as (cs0 & cs & cs' & E0 & E1 & E2 & _). exists cs0, cs, cs'.
  split; [exact E0|]. split; [exact E1|]. split; [exact E2|].
  vm_compute in E0. injection E0 as <-. vm_compute in E1. injection E1 as <-.
  vm_compute in E2. by injection E2 as <-.
Defined.

Lemma recompute_agrees_witness :
  ∃ cs0 cs cs', ComputeEdges2Shard cs0 = Ok cs ∧ shard_at (PartitionMap cs0) vA ≠ 0 ∧
    changeShardRecompute vA (shard_at (PartitionMap cs0) vA) (cs <| PartitionMap ::= <[vA := 0]> |>) = cs' ∧
    ComputeEdges2Shard (cs <| PartitionMap ::= <[vA := 0]> |>) = cs'.
Proof.
  destruct (init_ok half 100 shards_pos) as (c0 & E0 & Hg & Hm & Hs & _).
  destruct (add_edges_ok edges4 c0 [] Hg Hm edges4_ok Hs shards_pos) as (cs0 & E1 & Hg' & _ & Hs').
  destruct (compute_spec cs0 edges4 (go_edges _ _ Hg') (go_placed _ _ Hg')) as (e & c & m & E2 & _);
    [by rewrite Hs', Hs|].
  assert (shard_at (PartitionMap cs0) vA ≠ 0) as Hne.
  { vm_compute in E0. injection E0 as <-. vm_compute in E1. injection E1 as <-. by vm_compute. }
  eexists cs0, _, _. split; [exact E2|]. split; [exact Hne|]. split; [|reflexivity].
  apply (recompute_agrees cs0 _ edges4 vA 0 Hg'); [by rewrite Hs', Hs|exact E2|..|exact Hne].
  - apply (vertex4 _ _ Hg'). apply list_elem_of_here.
  - apply no_loops.
  - by rewrite Hs', Hs.
Defined.

Lemma clpa_partition_spec_witness :
  ∃ cs cs' res x, CLPA_Partition (λ _, [vA; vB; vC; vD]) cs = Ok (cs', res, x) ∧
    x = cross_edges edges4 (shard_at (PartitionMap cs')).
Proof.
  destruct graph4 as (cs & Hg & Hs).
  destruct (clpa_partition_spec cs edges4 (λ _, [vA; vB; vC; vD]) Hg no_loops) as (cs' & res & x & Ec & _ & _ & _ & Hx & _).
  - by rewrite Hs.
  - intros _ v Hv. by apply (vertex4 _ _ Hg).
  - by exists cs, cs', res, x.
Defined.

(** Shard 0 has no edge, so the score divides by zero: every score is minus infinity and no
    account moves, whatever the transactions are. *)
Example partition_blocked :
  match (cs ← Init_CLPAState half 100 4 zero_state; cs ← add_edges edges4 cs;
         CLPA_Partition (λ _, [vA; vB; vC; vD]) cs) with
  | Ok (_, res, x) => map_to_list res = [] ∧ x = 3
  | Panic _ => False
  end.
Proof. vm_compute. split; reflexivity. Qed.

(** With an edge in every shard accounts move, and fewer edges cross (5 before). *)
Definition vE := mkVertex "00000004".
Example partition_run :
  match (cs ← Init_CLPAState half 1 4 zero_state; cs ← add_edges (edges4 ++ [(vE, vD); (vE, vD)]) cs;
         CLPA_Partition (λ _, [vA; vB; vC; vD; vE]) cs) with
  | Ok (_, res, x) => map_to_list res = [("00000003", 1); ("00000001", 2); ("00000002", 0)] ∧ x = 4
  | Panic _ => False
  end.
Proof. vm_compute. split; reflexivity. Qed.

(** With an edge from an account to itself the incremental update goes wrong: the old shard
    loses two edges, the new one gains none, and an edge that does not cross shards is
    subtracted twice from those that do. *)
Example recompute_self_loop :
  ∃ cs, (cs ← Init_CLPAState half 1 4 zero_state; cs ← add_edges [(vA, vA)] cs; ComputeEdges2Shard cs) = Ok cs ∧
    (c ← ComputeEdges2Shard (cs <| PartitionMap ::= <[vA := 0]> |>); Ok (Edges2Shard c)) = Ok [1; 0; 0; 0] ∧
    (c ← changeShardRecompute vA 3 (cs <| PartitionMap ::= <[vA := 0]> |>);
     Ok (Edges2Shard c, CrossShardEdgeNum c)) = Ok ([0; 0; 0; -1], -2).
Proof. eexists. split; [vm_compute; reflexivity|]. vm_compute. done. Qed.
End PartitionExample.
