(* ===== verification/Contribution.v ===== *)
(** * Contribution values ([partition/partition_Contrib.go], [partition/contribution_calculator.go])

    The ContribChain method gives every account a contribution value that grows with its local
    transactions and decays every epoch, and moves the accounts below a threshold to the other
    shards in turn.  Values are [float64], as in [Partition].  The order in which Go visits a map
    is an argument of the functions whose result depends on it; the locks are not modelled. *)
From Stdlib Require Import SpecFloat.
From S2P Require Import Prelude Utils Partition PartitionFacts.

Definition fl_zero : float := S754_zero false.
(** The constants 0.01 and 0.9: the correctly rounded quotients. *)
Definition fl_0_01 : float := fdiv (fl_of 1) (fl_of 100).
Definition fl_0_9 : float := fdiv (fl_of 9) (fl_of 10).

(** ** [ContribState] *)
Record ContribState := mkContribState {
  ContribMap : gmap string float;
  LocalAccounts : gset string;
  CS_ShardID : Z;
  CS_ShardNum : Z;
  CS_DecayFactor : float;
  ContribIncrement : float;
  TransferThreshold : float;
  RetainThreshold : float;
  CS_CrossShardTxCount : Z;
}.
#[export] Instance ContribState_eta : Eta ContribState := λ c,
  mkContribState (ContribMap c) (LocalAccounts c) (CS_ShardID c) (CS_ShardNum c) (CS_DecayFactor c)
    (ContribIncrement c) (TransferThreshold c) (RetainThreshold c) (CS_CrossShardTxCount c).

Definition Init_ContribState (shardID shardNum : Z) (decay increment transferThresh retainThresh : float)
    : ContribState :=
  mkContribState ∅ ∅ shardID shardNum decay increment transferThresh retainThresh 0.

Definition GetContribution (cs : ContribState) (addr : string) : float :=
  default fl_zero (ContribMap cs !! addr).

Definition UpdateContribution (addr : string) (isLocal : bool) (cs : ContribState) : ContribState :=
  let cs := match ContribMap cs !! addr with
            | None => cs <| ContribMap ::= <[addr := fl_zero]> |>
            | Some _ => cs
            end in
  if isLocal then cs <| ContribMap ::= <[addr := fadd (GetContribution cs addr) (ContribIncrement cs)]> |>
  else cs.

(** One entry: decayed, and deleted below 0.01. *)
Definition decay_one (factor c : float) : option float :=
  let c := fmul c factor in if SFltb c fl_0_01 then None else Some c.

Definition DecayAllContributions (cs : ContribState) : ContribState :=
  cs <| ContribMap ::= omap (decay_one (CS_DecayFactor cs)) |>.

Definition AddLocalAccount (addr : string) (cs : ContribState) : ContribState :=
  cs <| LocalAccounts ::= λ s, {[addr]} ∪ s |>.
Definition RemoveLocalAccount (addr : string) (cs : ContribState) : ContribState :=
  cs <| LocalAccounts ::= λ s, s ∖ {[addr]} |>.
Definition IsLocalAccount (cs : ContribState) (addr : string) : bool := bool_decide (addr ∈ LocalAccounts cs).

(** An account below the transfer threshold. *)
Definition low_contrib (cs : ContribState) (addr : string) : bool :=
  SFltb (GetContribution cs addr) (TransferThreshold cs).

(** The next target: skip the own shard once. *)
Definition next_target (sid num t : Z) : go Z :=
  t ← go_rem (u64 (t + 1)) num;
  if t =? sid then go_rem (u64 (t + 1)) num else Ok t.

Definition realloc_one (sid num : Z) (acc : gmap string Z * Z) (addr : string) : go (gmap string Z * Z) :=
  t ← next_target sid num acc.2;
  Ok (<[addr := acc.2]> acc.1, t).

(** [order] lists the local accounts in the order the map is visited. *)
Definition ComputeReallocation (order : list string) (cs : ContribState) : go (gmap string Z) :=
  let low := List.filter (low_contrib cs) order in
  t ← go_rem (u64 (CS_ShardID cs + 1)) (CS_ShardNum cs);
  r ← go_fold (realloc_one (CS_ShardID cs) (CS_ShardNum cs)) (∅, t) low;
  Ok r.1.

(** ** [ContributionCalculator] *)
Record ContributionMetrics := mkMetrics {
  TotalTxCount : Z;
  IntraShardTxCount : Z;
  M_CrossShardTxCount : Z;
  ContribScore : float;
  TotalContribution : float;
  LastUpdateEpoch : Z;
}.
#[export] Instance Metrics_eta : Eta ContributionMetrics := λ m,
  mkMetrics (TotalTxCount m) (IntraShardTxCount m) (M_CrossShardTxCount m) (ContribScore m)
    (TotalContribution m) (LastUpdateEpoch m).

(** The calculator; its reference to the graph is never read. *)
Record ContributionCalculator := mkCalculator {
  Contributions : gmap Vertex ContributionMetrics;
  DecayFactor : float;
}.
#[export] Instance Calculator_eta : Eta ContributionCalculator := λ c,
  mkCalculator (Contributions c) (DecayFactor c).

Definition NewContributionCalculator : ContributionCalculator := mkCalculator ∅ fl_0_9.

Definition cc_GetContribution (cc : ContributionCalculator) (v : Vertex) : float :=
  match Contributions cc !! v with Some m => ContribScore m | None => fl_zero end.

Definition cc_UpdateContribution (v : Vertex) (isIntraShard : bool) (epoch : Z)
    (cc : ContributionCalculator) : ContributionCalculator :=
  let m := default (mkMetrics 0 0 0 fl_zero fl_zero epoch) (Contributions cc !! v) in
  let m := m <| TotalTxCount ::= Z.add 1 |> in
  let m := if isIntraShard then
             m <| IntraShardTxCount ::= Z.add 1 |> <| ContribScore ::= λ c, fadd c (fl_of 1) |>
               <| TotalContribution ::= λ c, fadd c (fl_of 1) |>
           else m <| M_CrossShardTxCount ::= Z.add 1 |> in
  cc <| Contributions ::= <[v := m <| LastUpdateEpoch := epoch |>]> |>.

Definition decay_metrics (factor : float) (m : ContributionMetrics) : option ContributionMetrics :=
  let m := m <| ContribScore ::= λ c, fmul c factor |> <| TotalContribution ::= λ c, fmul c factor |> in
  if SFltb (ContribScore m) fl_0_01 then None else Some m.

Definition CalculateAllContributions (cc : ContributionCalculator) : ContributionCalculator :=
  cc <| Contributions ::= omap (decay_metrics (DecayFactor cc)) |>.

(** The inner loop of the selection for position [i]: [x] is the element there, and an element
    that is larger changes places with it. *)
Fixpoint select_max (x : Vertex * float) (l : list (Vertex * float))
    : (Vertex * float) * list (Vertex * float) :=
  match l with
  | [] => (x, [])
  | y :: l' =>
      if SFltb x.2 y.2 then let '(m, r) := select_max y l' in (m, x :: r)
      else let '(m, r) := select_max x l' in (m, y :: r)
  end.

(** The outer loop: the array after [k] positions. *)
Fixpoint select_top (k : nat) (l : list (Vertex * float)) : list (Vertex * float) :=
  match k, l with
  | S k, x :: l' => let '(m, r) := select_max x l' in m :: select_top k r
  | _, _ => l
  end.

(** [order] lists the vertices in the order the map is visited; a negative [k] makes a slice of
    negative capacity. *)
Definition GetTopContributors (order : list Vertex) (k : Z) (cc : ContributionCalculator) : go (list Vertex) :=
  if k <? 0 then Panic "makeslice: cap out of range"
  else
    let vertices := omap (λ v, m ← Contributions cc !! v; Some (v, TotalContribution m)) order in
    Ok (take (Z.to_nat k) (select_top (Z.to_nat k) vertices)).*1.

Definition ResetContributions (cc : ContributionCalculator) : ContributionCalculator :=
  cc <| Contributions := ∅ |>.
Definition GetMetrics (cc : ContributionCalculator) (v : Vertex) : option ContributionMetrics :=
  Contributions cc !! v.

Definition SetDecayFactor (factor : float) (cc : ContributionCalculator) : ContributionCalculator :=
  if SFltb fl_zero factor && SFleb factor (fl_of 1) then cc <| DecayFactor := factor |> else cc.

Definition GetTotalContribution (order : list Vertex) (cc : ContributionCalculator) : float :=
  foldl (λ t v, match Contributions cc !! v with Some m => fadd t (TotalContribution m) | None => t end)
    fl_zero order.

Definition GetAverageContribution (order : list Vertex) (cc : ContributionCalculator) : float :=
  if decide (size (Contributions cc) = 0%nat) then fl_zero
  else fdiv (GetTotalContribution order cc) (fl_of (Z.of_nat (size (Contributions cc)))).

Definition GetContributionByVertex (cc : ContributionCalculator) (v : Vertex) : float :=
  match Contributions cc !! v with Some m => TotalContribution m | None => fl_zero end.

(** ** The order of [float64]

    Comparison of two numbers that are not NaN is comparison of (class, exponent, mantissa). *)
Definition is_nan (f : float) : bool := match f with S754_nan => true | _ => false end.

Definition fkey (f : float) : Z * Z * Z :=
  match f with
  | S754_infinity true => (-2, 0, 0)
  | S754_finite true m e => (-1, - e, - Zpos m)
  | S754_zero _ | S754_nan => (0, 0, 0)
  | S754_finite false m e => (1, e, Zpos m)
  | S754_infinity false => (2, 0, 0)
  end.

Definition key_lt (a b : Z * Z * Z) : Prop :=
  a.1.1 < b.1.1 ∨ (a.1.1 = b.1.1 ∧ (a.1.2 < b.1.2 ∨ (a.1.2 = b.1.2 ∧ a.2 < b.2))).

Lemma SFltb_key x y : is_nan x = false → is_nan y = false → SFltb x y = true ↔ key_lt (fkey x) (fkey y).
Proof.
  unfold SFltb, key_lt.
  destruct x as [s|[]| |[] m e], y as [s'|[]| |[] m' e']; cbn; try done; intros _ _;
    try (split; (done || (intros; lia)));
    change (Pos.compare_cont Eq m m') with (Pos.compare m m');
    destruct (Z.compare_spec e e'), (Pos.compare_spec m m'); cbn; split; (done || (intros; lia)).
Qed.

Lemma SFltb_false x y z :
  is_nan x = false → is_nan y = false → is_nan z = false →
  SFltb x y = false → SFltb y z = false → SFltb x z = false.
Proof.
  intros Hx Hy Hz H1 H2. apply not_true_iff_false. intros H3.
  apply not_true_iff_false in H1, H2. rewrite SFltb_key in * by done. unfold key_lt in *. lia.
Qed.

Lemma SFltb_asym x y : is_nan x = false → is_nan y = false → SFltb x y = true → SFltb y x = false.
Proof.
  intros Hx Hy H1. apply not_true_iff_false. intros H2. rewrite SFltb_key in * by done.
  unfold key_lt in *. lia.
Qed.

Lemma SFltb_irrefl x : SFltb x x = false.
Proof.
  destruct (is_nan x) eqn:E; [by destruct x|]. apply not_true_iff_false. intros H.
  rewrite SFltb_key in H by done. unfold key_lt in H. lia.
Qed.

(** ** Selection *)
Definition no_nan (l : list (Vertex * float)) : Prop := Forall (λ x, is_nan x.2 = false) l.

(** The element selected is not below any other. *)
Lemma select_max_spec x l m r :
  no_nan (x :: l) → select_max x l = (m, r) →
  m :: r ≡ₚ x :: l ∧ Forall (λ y, SFltb m.2 y.2 = false) (m :: r) ∧ SFltb m.2 x.2 = false.
Proof.
  unfold no_nan. revert x m r. induction l as [|y l IH]; intros x m r Hn; cbn.
  - intros [= <- <-]. split; [done|]. split; [|apply SFltb_irrefl]. apply Forall_singleton, SFltb_irrefl.
  - apply Forall_cons in Hn as [Hx Hn]. pose proof Hn as [Hy Hl]%Forall_cons.
    destruct (SFltb x.2 y.2) eqn:E; destruct (select_max _ l) as [m' r'] eqn:Es; intros [= <- <-].
    + destruct (IH y m' r' Hn Es) as (Hp & Hm & Hmy).
      assert (is_nan m'.2 = false) as Hnm.
      { rewrite Forall_forall in Hn. apply Hn. rewrite <-Hp. apply list_elem_of_here. }
      assert (SFltb m'.2 x.2 = false) as Hmx by (eapply SFltb_false, SFltb_asym; [done|exact Hy|done|done|..]; done).
      split; [by rewrite Permutation_swap, Hp, Permutation_swap|]. split; [|done].
      apply Forall_cons in Hm as [Hmm Hm]. by repeat apply Forall_cons_2.
    + assert (Forall (λ x : Vertex * float, is_nan x.2 = false) (x :: l)) as Hxl by (by constructor).
      destruct (IH x m' r' Hxl Es) as (Hp & Hm & Hmx).
      assert (is_nan m'.2 = false) as Hnm.
      { rewrite Forall_forall in Hxl. apply Hxl. rewrite <-Hp. apply list_elem_of_here. }
      split; [by rewrite Permutation_swap, Hp, Permutation_swap|]. split; [|done].
      apply Forall_cons in Hm as [Hmm Hm]. repeat apply Forall_cons_2; [done| |done].
      by eapply SFltb_false; [..|exact Hmx|exact E].
Qed.

Lemma select_top_spec k l : no_nan l →
  select_top k l ≡ₚ l ∧
  ∀ i j x y, (i < j)%nat → (i < k)%nat → select_top k l !! i = Some x → select_top k l !! j = Some y →
    SFltb x.2 y.2 = false.
Proof.
  revert l. induction k as [|k IH]; intros l Hn; [cbn; split; [done|]; intros; lia|].
  destruct l as [|x l]; cbn; [done|]. destruct (select_max x l) as [m r] eqn:Es.
  destruct (select_max_spec x l m r Hn Es) as (Hp & Hm & _).
  assert (no_nan r) as Hr.
  { assert (no_nan (m :: r)) as Hmr by (unfold no_nan in *; by rewrite Hp). by apply Forall_cons in Hmr as []. }
  destruct (IH r Hr) as [Hpr Hor]. split; [by rewrite Hpr|].
  intros [|i] [|j] a b Hij Hik Ha Hb; cbn in *; [lia| |lia|].
  - injection Ha as <-. apply Forall_cons in Hm as [_ Hm]. rewrite Forall_forall in Hm. apply Hm.
    rewrite <-Hpr. by eapply list_elem_of_lookup_2.
  - eapply (Hor i j); [lia|lia|done|done].
Qed.

(** ** Reallocation *)
Section realloc.
Context (sid n : Z).
Hypothesis Hn : 2 ≤ n < two64.
Hypothesis Hsid : 0 ≤ sid < n.

Definition target (i : nat) : Z := (sid + 1 + Z.of_nat i mod (n - 1)) mod n.

Lemma rem_succ t : 0 ≤ t < n → go_rem (u64 (t + 1)) n = Ok ((t + 1) mod n).
Proof.
  intros Ht. destruct (Z.eq_dec (t + 1) two64) as [E|E].
  - assert (n = two64) as -> by lia. rewrite E. unfold u64. by rewrite Z.mod_same.
  - rewrite u64_small by lia. destruct (go_rem_range (t + 1) n) as (r & -> & -> & _); [lia..|]. done.
Qed.

Lemma target_range i : 0 ≤ target i < n.
Proof. apply Z.mod_pos_bound. lia. Qed.

Lemma target_other i : target i ≠ sid.
Proof.
  unfold target. pose proof (Z.mod_pos_bound (Z.of_nat i) (n - 1) ltac:(lia)) as Hj.
  set (j := Z.of_nat i mod (n - 1)) in *. intros E.
  destruct (Z.lt_ge_cases (sid + 1 + j) n) as [Hl|Hg].
  - rewrite Z.mod_small in E; lia.
  - rewrite <-(Z.mod_add _ (-1)), Z.mod_small in E; lia.
Qed.

Lemma mod_succ i : Z.of_nat (S i) mod (n - 1) =
  if Z.of_nat i mod (n - 1) + 1 =? n - 1 then 0 else Z.of_nat i mod (n - 1) + 1.
Proof.
  pose proof (Z.mod_pos_bound (Z.of_nat i) (n - 1) ltac:(lia)) as Hj.
  rewrite Nat2Z.inj_succ, <-Z.add_1_r, <-Zplus_mod_idemp_l.
  destruct (_ =? _) eqn:E; zbool; [rewrite E; by apply Z.mod_same; lia|apply Z.mod_small; lia].
Qed.

Lemma next_target_spec i : next_target sid n (target i) = Ok (target (S i)).
Proof.
  unfold next_target. rewrite rem_succ by apply target_range. cbn [mbind go_bind].
  unfold target. rewrite mod_succ. pose proof (Z.mod_pos_bound (Z.of_nat i) (n - 1) ltac:(lia)) as Hj.
  set (j := Z.of_nat i mod (n - 1)) in *. rewrite Zplus_mod_idemp_l.
  destruct (j + 1 =? n - 1) eqn:E; zbool.
  - replace (sid + 1 + j + 1) with (sid + 1 * n) by lia.
    rewrite Z.mod_add, (Z.mod_small sid), Z.eqb_refl, rem_succ by lia. by rewrite Z.add_0_r.
  - assert ((sid + 1 + j + 1) mod n ≠ sid) as Hne.
    { destruct (Z.lt_ge_cases (sid + 1 + j + 1) n) as [Hl|Hg].
      - rewrite Z.mod_small; lia.
      - rewrite <-(Z.mod_add _ (-1)), Z.mod_small; lia. }
    rewrite (proj2 (Z.eqb_neq _ _) Hne). do 2 f_equal. lia.
Qed.

(** The loop from the [i]-th account on. *)
Lemma realloc_fold l i m : NoDup l →
  ∃ m', go_fold (realloc_one sid n) (m, target i) l = Ok (m', target (i + length l)) ∧
    (∀ j a, l !! j = Some a → m' !! a = Some (target (i + j))) ∧
    (∀ a, a ∉ l → m' !! a = m !! a).
Proof.
  revert i m. induction l as [|x l IH]; intros i m Hnd.
  - exists m. rewrite Nat.add_0_r. done.
  - apply NoDup_cons in Hnd as [Hx Hnd]. cbn [go_fold].
    assert (realloc_one sid n (m, target i) x = Ok (<[x := target i]> m, target (S i))) as ->
      by (unfold realloc_one; cbn [fst snd]; by rewrite next_target_spec).
    cbn [mbind go_bind].
    destruct (IH (S i) (<[x := target i]> m) Hnd) as (m' & E & Hin & Hout). exists m'.
    cbn [length]. rewrite <-Nat.add_succ_comm. split; [exact E|]. split.
    + intros [|j] a Ha; cbn in Ha.
      * injection Ha as <-. rewrite Hout by done. by rewrite lookup_insert_eq, Nat.add_0_r.
      * rewrite (Hin j a Ha). by rewrite <-Nat.add_succ_comm.
    + intros a Ha. apply not_elem_of_cons in Ha as [Hne Ha]. rewrite Hout by done.
      by rewrite lookup_insert_ne.
Qed.
End realloc.

(** The reallocation.  With at least two shards, [ComputeReallocation] moves exactly the
    local accounts whose contribution is below the threshold, and gives the i-th of them to the
    shard [i mod (n - 1)] places after the next one: always another shard, each of the other
    shards in turn. *)
Theorem reallocation_spec (order : list string) (cs : ContribState) :
  order ≡ₚ elements (LocalAccounts cs) → 2 ≤ CS_ShardNum cs < two64 →
  0 ≤ CS_ShardID cs < CS_ShardNum cs →
  ∃ m, ComputeReallocation order cs = Ok m ∧
    (∀ a, is_Some (m !! a) ↔ a ∈ LocalAccounts cs ∧ low_contrib cs a = true) ∧
    (∀ i a, List.filter (low_contrib cs) order !! i = Some a →
       m !! a = Some ((CS_ShardID cs + 1 + Z.of_nat i mod (CS_ShardNum cs - 1)) mod CS_ShardNum cs)) ∧
    ∀ a t, m !! a = Some t → t ≠ CS_ShardID cs ∧ 0 ≤ t < CS_ShardNum cs.
Proof.
  intros Hord Hn Hsid. set (low := List.filter (low_contrib cs) order).
  assert (NoDup low) as Hnd.
  { apply NoDup_ListNoDup, List.NoDup_filter, NoDup_ListNoDup. rewrite Hord. apply NoDup_elements. }
  assert (∀ a, a ∈ low ↔ a ∈ LocalAccounts cs ∧ low_contrib cs a = true) as Hlow.
  { intros a. unfold low. rewrite list_elem_of_In, filter_In, <-list_elem_of_In, Hord.
    by rewrite elem_of_elements. }
  destruct (realloc_fold _ _ Hn Hsid low 0 ∅ Hnd) as (m & E & Hin & Hout).
  exists m. unfold ComputeReallocation. rewrite (rem_succ (CS_ShardID cs) _ Hn Hsid _ Hsid). cbn [mbind go_bind]. fold low.
  assert (target (CS_ShardID cs) (CS_ShardNum cs) 0 = (CS_ShardID cs + 1) mod CS_ShardNum cs) as Ht
    by (unfold target; rewrite Z.mod_0_l, Z.add_0_r by lia; done).
  rewrite <-Ht, E. split; [done|].
  assert (∀ a t, m !! a = Some t → ∃ j, low !! j = Some a ∧ t = target (CS_ShardID cs) (CS_ShardNum cs) j) as Hinv.
  { intros a t Hm. destruct (decide (a ∈ low)) as [Ha|Ha].
    - apply list_elem_of_lookup in Ha as [j Hj]. exists j. split; [done|]. rewrite (Hin j a Hj) in Hm. cbn in Hm. congruence.
    - rewrite (Hout a Ha) in Hm. done. }
  split; [|split; [exact Hin|]].
  - intros a. rewrite <-Hlow. split.
    + intros [t (j & Hj & _)%Hinv]. by eapply list_elem_of_lookup_2.
    + intros [j Hj]%list_elem_of_lookup. rewrite (Hin j a Hj). by eexists.
  - intros a t (j & _ & ->)%Hinv. split; [by apply target_other|by apply target_range].
Qed.

(** The top contributors.  When no value is NaN, [GetTopContributors] returns [k] different
    vertices (all when there are fewer), in descending order of their total contribution, and no
    vertex it leaves out has a larger one than any it returns. *)
Theorem top_contributors_spec (order : list Vertex) (k : Z) (cc : ContributionCalculator) :
  order ≡ₚ elements (dom (Contributions cc)) → 0 ≤ k →
  map_Forall (λ _ m, is_nan (TotalContribution m) = false) (Contributions cc) →
  ∃ top rest, GetTopContributors order k cc = Ok top ∧ top ++ rest ≡ₚ order ∧ NoDup top ∧
    len top = Z.min k (len order) ∧
    (∀ i j v w, (i < j)%nat → top !! i = Some v → top !! j = Some w →
       SFltb (GetContributionByVertex cc v) (GetContributionByVertex cc w) = false) ∧
    ∀ v w, v ∈ top → w ∈ rest →
      SFltb (GetContributionByVertex cc v) (GetContributionByVertex cc w) = false.
Proof.
  intros Hord Hk Hnan. unfold GetTopContributors. rewrite (proj2 (Z.ltb_ge k 0)) by lia.
  set (f := λ v, (v, GetContributionByVertex cc v)).
  assert (omap (λ v, m ← Contributions cc !! v; Some (v, TotalContribution m)) order = f <$> order) as ->.
  { assert (Forall (λ v, is_Some (Contributions cc !! v)) order) as Hall.
    { apply Forall_forall. intros v Hv. rewrite Hord in Hv. apply elem_of_elements, elem_of_dom in Hv. done. }
    clear -Hall. induction Hall as [|v l [m Hm] _ IH]; [done|]. cbn. rewrite Hm. cbn. rewrite IH.
    unfold f, GetContributionByVertex. by rewrite Hm. }
  assert (no_nan (f <$> order)) as Hno.
  { apply Forall_fmap, Forall_forall. intros v Hv. cbn. rewrite Hord in Hv.
    apply elem_of_elements, elem_of_dom in Hv as [m Hm]. unfold GetContributionByVertex. rewrite Hm.
    by apply (Hnan v m). }
  destruct (select_top_spec (Z.to_nat k) _ Hno) as [Hp Ho]. set (l := select_top _ _) in *.
  assert (∀ i x, l !! i = Some x → x = f x.1) as Hf.
  { intros i x Hx%list_elem_of_lookup_2. rewrite Hp in Hx. apply list_elem_of_fmap in Hx as (v & -> & _). done. }
  assert (length l = length order) as Hll by (by rewrite Hp, length_fmap).
  assert (NoDup l.*1) as Hnd.
  { rewrite Hp, <-list_fmap_compose. change (fst ∘ f) with (@id Vertex). rewrite list_fmap_id, Hord.
    apply NoDup_elements. }
  exists (take (Z.to_nat k) l).*1, (drop (Z.to_nat k) l).*1. split; [done|].
  rewrite <-fmap_app, take_drop. split.
  { rewrite Hp, <-list_fmap_compose. change (fst ∘ f) with (@id Vertex). by rewrite list_fmap_id. }
  split; [rewrite fmap_take; rewrite <-(take_drop (Z.to_nat k) l.*1) in Hnd; by apply NoDup_app in Hnd as [? _]|].
  split; [unfold len; rewrite length_fmap, length_take, Hll; lia|]. split.
  - intros i j v w Hij. rewrite !list_lookup_fmap, !fmap_Some.
    intros (x & [Hx Hi]%lookup_take_Some & ->) (y & [Hy Hj]%lookup_take_Some & ->).
    pose proof (Ho i j x y Hij Hi Hx Hy) as Hlt. rewrite (Hf i x Hx), (Hf j y Hy) in Hlt. exact Hlt.
  - intros v w (x & -> & Hx)%list_elem_of_fmap (y & -> & Hy)%list_elem_of_fmap.
    apply list_elem_of_lookup in Hx as (i & [Hx Hi]%lookup_take_Some).
    apply list_elem_of_lookup in Hy as (j & Hy). rewrite lookup_drop in Hy.
    pose proof (Ho i (Z.to_nat k + j)%nat x y ltac:(lia) Hi Hx Hy) as Hlt.
    rewrite (Hf _ x Hx), (Hf _ y Hy) in Hlt. exact Hlt.
Qed.

(** ** Witnesses *)
Module ContributionExample.
(** Shard 1 of 3 with three local accounts, one of them above the threshold 1. *)
Definition state : ContribState :=
  UpdateContribution "c" true (UpdateContribution "c" true
    (AddLocalAccount "a" (AddLocalAccount "b" (AddLocalAccount "c"
      (Init_ContribState 1 3 fl_0_9 (fl_of 1) (fl_of 1) (fl_of 10)))))).

Lemma reallocation_spec_witness :
  ∃ m, ComputeReallocation ["a"; "b"; "c"] state = Ok m ∧ map_to_list m = [("a", 2); ("b", 0)] ∧
    ∀ a t, m !! a = Some t → t ≠ 1 ∧ 0 ≤ t < 3.
Proof.
  destruct (reallocation_spec ["a"; "b"; "c"] state) as (m & E & _ & _ & Hm);
    [apply (bool_decide_eq_true_1 (_ ≡ₚ _)); vm_compute; reflexivity|done|done|].
  exists m. split; [exact E|]. split; [|exact Hm]. vm_compute in E. by injection E as <-.
Defined.

Definition v1 := mkVertex "1".
Definition v2 := mkVertex "2".
Definition v3 := mkVertex "3".
Definition calc : ContributionCalculator :=
  cc_UpdateContribution v3 true 0 (cc_UpdateContribution v2 true 0 (cc_UpdateContribution v2 true 0
    (cc_UpdateContribution v1 false 0 NewContributionCalculator))).

Lemma top_contributors_spec_witness :
  ∃ top rest, GetTopContributors [v1; v2; v3] 2 calc = Ok top ∧ top ++ rest ≡ₚ [v1; v2; v3] ∧
    top = [v2; v3].
Proof.
  destruct (top_contributors_spec [v1; v2; v3] 2 calc) as (top & rest & E & Hp & _).
  - apply (bool_decide_eq_true_1 (_ ≡ₚ _)). vm_compute. reflexivity.
  - done.
  - apply (bool_decide_eq_true_1 (map_Forall _ _)). vm_compute. reflexivity.
  - exists top, rest. split; [exact E|]. split; [exact Hp|]. vm_compute in E. by injection E as <-.
Defined.
End ContributionExample.
