(* ===== verification/ContribModule.v ===== *)
(** * The ContribChain modules ([pbftInside_moduleContrib.go], [pbftOutside_moduleContrib.go])

    The ContribChain method re-partitions like CLPA, on the same data ([Data_supportCLPA]).  Its
    module repeats the code of the CLPA module with a few changes: a received transaction that
    does not belong to the shard is dropped instead of a panic, the supervisor gets no
    acknowledgement of a transfer, and the messages of other shards are handled differently. *)
From S2P Require Import Prelude Utils Libs Core Messages Storage Chain MerkleProof Overhead.
From S2P Require Import Pbft PbftFacts RelayModule ClpaModule.

Section contrib.
Context `{Params, BitSetLib, CryptoLib, !Codec AccountState, !Codec Request, !Codec Transaction,
          !Codec BlockHeader, !Codec Block, !Codec AccountTransferMsg, BoltLib, TrieLib}.
Abbreviation cnode := (PbftConsensusNode ClpaApp).
Abbreviation chain_of p := (CurChain (App p)).
Abbreviation data_of p := (cdm (App p)).

(** ** [ContribPbftInsideExtraHandleMod]: the account transfer *)
Definition contrib_sendPartitionReady (p : cnode) : ClpaApp * list packet :=
  let x := (App p) <| cdm ::= λ c, c <| PartitionReady ::= λ s, {[PShardID p]} ∪ s |> |> in
  let pr := mkPartitionReadyMsg (PShardID p) (sequenceID p) in
  (x, (λ sid, (ip_of p sid 0, MPartitionReady pr)) <$>
        List.filter (λ sid, negb (sid =? PRFromShard pr)) (heights 0 (ShardNums (pbftChainConfig p) - 1))).

Definition contrib_getPartitionReady (p : cnode) : bool :=
  let flag := map_fold (λ sid val flag,
    match ReadySeq (data_of p) !! sid with
    | None => false
    | Some rval => if negb (u64 (rval - 1) =? val) then false else flag
    end) true (seqIDMap p) in
  (Z.of_nat (size (PartitionReady (data_of p))) =? ShardNums (pbftChainConfig p)) && flag.

(** The accounts of this shard that the map [mm] gives to another one. *)
Definition contrib_accountToFetch (sid : Z) (bc : BlockChain) (mm : gmap string Z) : go (list string) :=
  go_fold (λ acc (kv : string * Z),
    let '(key, val) := kv in
    if negb (val =? sid) then
      here ← Get_PartitionMap bc key;
      Ok (if here =? sid then acc ++ [key] else acc)
    else Ok acc) [] (map_to_list mm).

(** The pass over the queue with its two pointers: what is sent, and what stays in front. *)
Definition contrib_split (addrSet : gset string) (acc : list Transaction * list Transaction) (ptx : Transaction)
    : list Transaction * list Transaction :=
  let condition1 := bool_decide (Sender ptx ∈ addrSet) && negb (Relayed ptx) in
  let condition2 := bool_decide (Recipient ptx ∈ addrSet) && Relayed ptx in
  if condition1 || condition2 then (acc.1 ++ [ptx], acc.2) else (acc.1, acc.2 ++ [ptx]).

(** One iteration of the loop over the shards. *)
Definition contrib_send_shard (p : cnode) (mm : gmap string Z) (fetched : list (string * AccountState))
    (acc : list Transaction * list packet) (i : Z) : list Transaction * list packet :=
  if i =? PShardID p then acc
  else
    let '(queue, out) := acc in
    let chosen := List.filter (λ aa : string * AccountState, default 0 (mm !! aa.1) =? i) fetched in
    let '(txSend, kept) := foldl (contrib_split (list_to_set chosen.*1)) ([], []) queue in
    (kept, out ++ [(ip_of p i 0, MAccountStateAndTx (mkAccountStateAndTx chosen.*1 chosen.*2 txSend (PShardID p)))]).

Definition contrib_sendAccounts_and_Txs (p : cnode) : go (ClpaApp * list packet) :=
  match last (ModifiedMap (data_of p)) with
  | None => Panic "index out of range"
  | Some mm =>
      accountToFetch ← contrib_accountToFetch (PShardID p) (chain_of p) mm;
      asFetched ← FetchAccounts (chain_of p) accountToFetch;
      let '(queue, out) := foldl (contrib_send_shard p mm (zip accountToFetch asFetched))
                             (TxQueue (Txpool (chain_of p)), []) (heights 0 (ShardNums (pbftChainConfig p) - 1)) in
      Ok ((App p) <| CurChain ::= λ bc, bc <| Txpool ::= λ t, t <| TxQueue := queue |> |> |>, out)
  end.

Definition contrib_getCollectOver (p : cnode) : bool := CollectOver (data_of p).

(** The states of one received message, and its transactions. *)
Definition contrib_collect (acc : gmap string AccountState * list Transaction) (at_ : AccountStateAndTx)
    : go (gmap string AccountState * list Transaction) :=
  states ← go_fold (λ m (ia : nat * string),
             match ASAccountState at_ !! ia.1 with
             | None => Panic "index out of range"
             | Some s => Ok (<[ia.2 := s]> m)
             end) acc.1 (imap pair (ASAddrs at_));
  Ok (states, acc.2 ++ ASTxs at_).

(** The check on a received transaction; an address that is not in the map reads as shard 0. *)
Definition contrib_belongs (sid : Z) (mm : gmap string Z) (tx : Transaction) : bool :=
  if negb (Relayed tx) then default 0 (mm !! Sender tx) =? sid else default 0 (mm !! Recipient tx) =? sid.

(** Transactions that do not belong to this shard are logged and dropped; the map of the round
    is only read for a transaction, and always for the message. *)
Definition contrib_proposePartition (p : cnode) (now : Time) (clock : nat → Time)
    : go (ClpaApp * Request) :=
  let c := data_of p in
  st ← go_fold contrib_collect (ReceivedNewAccountState c, ReceivedNewTx c)
         (map_to_list (AccountStateTx c)).*2;
  let '(states, txs) := st in
  match ModifiedMap c !! Z.to_nat (AccountTransferRound c) with
  | None => Panic "index out of range"
  | Some mm =>
      let filtered := List.filter (contrib_belongs (PShardID p) mm) txs in
      let atm := mkAccountTransferMsg mm (map_to_list states).*1 (map_to_list states).*2
                   (len (ModifiedMap c)) in
      let x := (App p) <| cdm := c <| ReceivedNewAccountState := states |> <| ReceivedNewTx := txs |> |>
                       <| CurChain ::= SendTx2Pool clock filtered |> in
      Ok (x, mkRequest PartitionReq (Encode atm) now)
  end.

Definition contrib_accountTransfer_do (p : cnode) (x : ClpaApp) (atm : AccountTransferMsg) : go ClpaApp :=
  let bc := foldl (λ bc kv, Update_PartitionMap kv.1 kv.2 bc) (CurChain x)
              (map_to_list (ATModifiedMap atm)) in
  bc ← AddAccounts (ATAddrs atm) (ATAccountState atm) (view p) bc;
  let c := cdm x in
  let mm := if len (ModifiedMap c) =? ATid atm then ModifiedMap c
            else ModifiedMap c ++ [ATModifiedMap atm] in
  Ok (mkClpaApp bc (mkCdm mm (ATid atm) ∅ [] ∅ false ∅ (ReadySeq c) false) (phase x)).

Definition contrib_HandleinPropose (p : cnode) (now : Time)
    : go (ClpaApp * list packet * option Request) :=
  match phase (App p) with
  | PhIdle =>
      if PartitionOn (data_of p) then
        let '(x, out) := contrib_sendPartitionReady p in
        Ok (x <| phase := PhWaitReady |>, out, None)
      else
        g ← propose_block (chain_of p) (i32 (PNodeID p)) now;
        Ok ((App p) <| CurChain := g.1 |>, [], Some g.2)
  | PhWaitReady =>
      if contrib_getPartitionReady p then
        r ← contrib_sendAccounts_and_Txs p;
        Ok (r.1 <| phase := PhWaitCollect |>, r.2, None)
      else Ok (App p, [], None)
  | PhWaitCollect =>
      if contrib_getCollectOver p then
        r ← contrib_proposePartition p now (λ _, now);
        Ok (r.1 <| phase := PhIdle |>, [], Some r.2)
      else Ok (App p, [], None)
  end.

Definition contrib_HandleinPrePrepare (p : cnode) (ppmsg : PrePrepare) : go (ClpaApp * bool) :=
  if bool_decide (RequestType (RequestMsg ppmsg) = PartitionReq) then Ok (App p, true)
  else ok ← valid_proposal (chain_of p) ppmsg; Ok (App p, ok).

Definition contrib_HandleinCommit (p : cnode) (now : Time) (cmsg : Commit)
    : go (ClpaApp * list packet * bool) :=
  match requestPool p !! CDigest cmsg with
  | None => Ok (App p, [], false)
  | Some r =>
      if bool_decide (RequestType r = PartitionReq) then
        atm ← MustDecode (Content r);
        x ← contrib_accountTransfer_do p (App p) atm;
        Ok (x, [], true)
      else
        c ← commit_block p (chain_of p) (i64 (AccountTransferRound (data_of p))) now r;
        Ok ((App p) <| CurChain := c.1 |>, c.2, true)
  end.

Definition contrib_HandleforSequentialRequest (p : cnode) (som : SendOldMessage)
    : go (ClpaApp * list packet * bool) :=
  if negb (i64 (u64 (SOSeqEndHeight som - SOSeqStartHeight som + 1)) =? len (OldRequest som))
  then Ok (App p, [], true)
  else
    x ← old_loop (λ x r,
          if bool_decide (RequestType r = BlockRequest) then
            b ← DecodeB (Content r);
            bc ← AddBlock b (CurChain x);
            Ok (x <| CurChain := bc |>)
          else
            atm ← MustDecode (Content r);
            contrib_accountTransfer_do p x atm) som (App p);
    Ok (x, [], true).

(** Both methods work on [ClpaApp], so this one is not a default instance. *)
Definition ContribPbftInsideExtraHandleMod : ExtraOpInConsensus ClpaApp := {|
  HandleinPropose := contrib_HandleinPropose;
  HandleinPrePrepare := contrib_HandleinPrePrepare;
  HandleinPrepare p _ := Ok (App p, true);
  HandleinCommit := contrib_HandleinCommit;
  HandleReqestforOldSeq p _ := Ok (App p, true);
  HandleforSequentialRequest := contrib_HandleforSequentialRequest |}.

(** ** [ContribRelayOutsideModule] *)
Definition contrib_handlePartitionModifiedMap (pm : gmap string Z) (p : cnode) : cnode :=
  on_cdm (λ c, c <| ModifiedMap ::= λ l, l ++ [pm] |> <| PartitionOn := true |>) p.

Definition contrib_handlePartitionReady (pr : PartitionReadyMsg) (p : cnode) : cnode :=
  on_cdm (λ c, c <| PartitionReady ::= λ s, {[PRFromShard pr]} ∪ s |>
                 <| ReadySeq ::= <[PRFromShard pr := NowSeqID pr]> |>) p.

Definition contrib_handleAccountStateAndTx (at_ : AccountStateAndTx) (p : cnode) : cnode :=
  on_cdm (λ c, let c := c <| AccountStateTx ::= <[FromShard at_ := at_]> |> in
               if Z.of_nat (size (AccountStateTx c)) =? i64 (ShardNums (pbftChainConfig p)) - 1
               then c <| CollectOver := true |> else c) p.

(** A relay message is decoded as an injection: its transactions are read and the sender's shard
    and sequence number are not.  Every other kind, [CRelayWithProof] too, is not handled. *)
Definition contrib_HandleMessageOutsidePBFT (p : cnode) (clock : nat → Time) (m : Msg)
    : go (cnode * list packet) :=
  match m with
  | MPartition pm => Ok (contrib_handlePartitionModifiedMap pm p, [])
  | MPartitionReady pr => Ok (contrib_handlePartitionReady pr p, [])
  | MAccountStateAndTx at_ => Ok (contrib_handleAccountStateAndTx at_ p, [])
  | MRelay relay => Ok (p <| App ::= λ x, x <| CurChain ::= SendTx2Pool clock (RTxs relay) |> |>, [])
  | MInject it => Ok (p <| App ::= λ x, x <| CurChain ::= SendTx2Pool clock (ITxs it) |> |>, [])
  | _ => Ok (p, [])
  end.

Definition ContribRelayOutsideModule : OpInterShards ClpaApp := {|
  HandleMessageOutsidePBFT := contrib_HandleMessageOutsidePBFT |}.

(** The consensus properties hold with this module too. *)
Lemma contrib_outside_laws : @OpInterShardsLaws ClpaApp ContribRelayOutsideModule.
Proof.
  split. intros p p' clock m out. cbn. unfold contrib_HandleMessageOutsidePBFT.
  destruct m; intros Hs; injection Hs as <- <-; by destruct p.
Qed.

Lemma contrib_prepare : @PrepareNoop ClpaApp ContribPbftInsideExtraHandleMod.
Proof. by split. Qed.
End contrib.
