(* ===== verification/ContribFacts.v ===== *)
(** * Properties of the ContribChain modules

    A re-partitioning loses no transaction, although the receiver drops what does not fit; what the
    module does not do is receive relayed transactions that carry proofs. *)
From S2P Require Import Prelude Utils Libs Core Messages Storage Chain MerkleProof Overhead.
From S2P Require Import Pbft PbftFacts RelayModule RelayFacts ClpaModule ClpaFacts ContribModule.

Section facts.
Context `{Params, BitSetLib, CryptoLib, !Codec AccountState, !Codec Request, !Codec Transaction,
          !Codec BlockHeader, !Codec Block, !Codec AccountTransferMsg, BoltLib, TrieLib}.
Abbreviation cnode := (PbftConsensusNode ClpaApp).

(** ** Sending *)
Definition contrib_leaves (addrSet : gset string) (tx : Transaction) : bool :=
  (bool_decide (Sender tx ∈ addrSet) && negb (Relayed tx)) || (bool_decide (Recipient tx ∈ addrSet) && Relayed tx).

Lemma split_fold S l a b : foldl (contrib_split S) (a, b) l =
  (a ++ List.filter (contrib_leaves S) l, b ++ List.filter (λ tx, negb (contrib_leaves S tx)) l).
Proof.
  revert a b. induction l as [|tx l IH]; intros a b; cbn [foldl List.filter]; [by rewrite !app_nil_r|].
  change (contrib_split S (a, b) tx) with (if contrib_leaves S tx then (a ++ [tx], b) else (a, b ++ [tx])).
  destruct (contrib_leaves S tx); cbn [negb]; rewrite IH, <-app_assoc; done.
Qed.

(** The transactions of a message. *)
Definition moved (pk : packet) : list Transaction :=
  match pk.2 with MAccountStateAndTx a => ASTxs a | _ => [] end.

(** A message for shard [i] under the map [mm]. *)
Definition fits (mm : gmap string Z) (i : Z) (a : AccountStateAndTx) : Prop :=
  length (ASAccountState a) = length (ASAddrs a) ∧ Forall (λ tx, contrib_belongs i mm tx = true) (ASTxs a).

Lemma chosen_belongs mm (fetched : list (string * AccountState)) i tx :
  contrib_leaves (list_to_set (List.filter (λ aa : string * AccountState, default 0 (mm !! aa.1) =? i) fetched).*1) tx = true →
  contrib_belongs i mm tx = true.
Proof.
  set (l := List.filter _ fetched). assert (∀ a, a ∈ (list_to_set l.*1 : gset string) → (default 0 (mm !! a) =? i) = true) as Hsel.
  { intros a Ha. apply elem_of_list_to_set, list_elem_of_fmap in Ha as ([a' s] & -> & Hin).
    apply list_elem_of_In, filter_In in Hin as [_ Hv]. exact Hv. }
  unfold contrib_leaves, contrib_belongs. intros [Hl|Hl]%orb_true_iff; apply andb_true_iff in Hl as [Ha Hr];
    apply bool_decide_eq_true in Ha; destruct (Relayed tx); try done; by apply Hsel.
Qed.

Lemma send_shards p mm fetched shards q0 out0 :
  ∃ q out, foldl (contrib_send_shard p mm fetched) (q0, out0) shards = (q, out0 ++ out) ∧
    q ++ flat_map moved out ≡ₚ q0 ∧
    Forall (λ pk : packet, ∃ i a, i ≠ PShardID p ∧ pk = (ip_of p i 0, MAccountStateAndTx a) ∧ fits mm i a) out.
Proof.
  revert q0 out0. induction shards as [|i shards IH]; intros q0 out0; cbn [foldl].
  { exists q0, []. by rewrite !app_nil_r. }
  unfold contrib_send_shard at 2. destruct (Z.eqb_spec i (PShardID p)) as [_|Hne]; [apply IH|].
  set (l := List.filter _ fetched). rewrite split_fold. cbn [app].
  destruct (IH (List.filter (λ tx, negb (contrib_leaves (list_to_set l.*1) tx)) q0)
    (out0 ++ [(ip_of p i 0, MAccountStateAndTx (mkAccountStateAndTx l.*1 l.*2 (List.filter (contrib_leaves (list_to_set l.*1)) q0) (PShardID p)))]))
    as (q & out & -> & Hp & HF).
  eexists q, (_ :: out). rewrite <-app_assoc. split; [reflexivity|]. split.
  - cbn [flat_map moved snd ASTxs]. rewrite (filter_split_perm (contrib_leaves (list_to_set l.*1)) q0) at 2. rewrite <-Hp. solve_Permutation.
  - constructor; [|done]. eexists i, _. split; [done|]. split; [done|]. split; cbn [ASAccountState ASAddrs ASTxs]; [by rewrite !length_fmap|].
    apply Forall_forall. intros tx. rewrite list_elem_of_In, filter_In. intros [_ Hx]. by eapply chosen_belongs.
Qed.

Lemma contrib_send_spec (p : cnode) x out : contrib_sendAccounts_and_Txs p = Ok (x, out) →
  ∃ mm, last (ModifiedMap (cdm (App p))) = Some mm ∧
    TxQueue (Txpool (CurChain x)) ++ flat_map moved out ≡ₚ TxQueue (Txpool (CurChain (App p))) ∧
    Forall (λ pk : packet, ∃ i a, i ≠ PShardID p ∧ pk = (ip_of p i 0, MAccountStateAndTx a) ∧ fits mm i a) out.
Proof.
  unfold contrib_sendAccounts_and_Txs. destruct (last (ModifiedMap (cdm (App p)))) as [mm|]; [|done].
  intros (ac & _ & E)%go_bind_inv. apply go_bind_inv in E as (as_ & _ & E).
  destruct (send_shards p mm (zip ac as_) (heights 0 (ShardNums (pbftChainConfig p) - 1)) (TxQueue (Txpool (CurChain (App p)))) [])
    as (q & o & Hf & Hp & HF).
  rewrite Hf in E. injection E as <- <-. by exists mm.
Qed.

(** ** Receiving *)
Lemma collect_ok (ats : list AccountStateAndTx) states txs : Forall (λ a, length (ASAccountState a) = length (ASAddrs a)) ats →
  ∃ states', go_fold contrib_collect (states, txs) ats = Ok (states', txs ++ flat_map ASTxs ats).
Proof.
  intros Hl. revert states txs. induction Hl as [|a ats Ha _ IH]; intros states txs; cbn [go_fold flat_map].
  { exists states. by rewrite app_nil_r. }
  unfold contrib_collect at 2. cbn [fst snd].
  match goal with |- context [go_fold ?f states ?l] => destruct (go_fold_total f (λ _, True) states l I) as (m' & -> & _) end.
  { intros m [k b] Hin _. apply elem_of_lookup_imap in Hin as (k' & b' & [= -> ->] & Hk). cbn [fst snd].
    apply lookup_lt_Some in Hk. rewrite <-Ha in Hk. apply lookup_lt_is_Some in Hk as [s ->]. by eexists. }
  cbn [mbind go_bind]. rewrite app_assoc. apply IH.
Qed.

(** The message [a] is what a node with the map [mm] has sent to shard [i]. *)
Definition came_from (mm : gmap string Z) (i : Z) (a : AccountStateAndTx) (p : cnode) : Prop :=
  ∃ x out, contrib_sendAccounts_and_Txs p = Ok (x, out) ∧ last (ModifiedMap (cdm (App p))) = Some mm ∧
    (∀ j, j ≠ i → ip_of p j 0 ≠ ip_of p i 0) ∧ (ip_of p i 0, MAccountStateAndTx a) ∈ out.

Lemma came_fits mm i a p : came_from mm i a p → fits mm i a.
Proof.
  intros (x & out & E & Hm & Hinj & Hin). destruct (contrib_send_spec p x out E) as (mm' & Hm' & _ & HF).
  rewrite Hm in Hm'. injection Hm' as <-. rewrite list.Forall_forall in HF. destruct (HF _ Hin) as (j & a' & _ & [= Ei <-] & Hf).
  destruct (decide (j = i)) as [->|Hne]; [done|]. by destruct (Hinj j Hne).
Qed.

(** C22: a re-partitioning of ContribChain loses no transaction.  What a shard sends in
    [sendAccounts_and_Txs] and what stays in its queue are together the queue it had; and although
    [proposePartition] drops every received transaction that does not fit, it drops none of those:
    when the collected messages come from shards that send by the same map, the transactions of all of
    them are appended to the pool, and the module does not panic. *)
Theorem contrib_transfer_keeps :
  (∀ (p : cnode) x out, contrib_sendAccounts_and_Txs p = Ok (x, out) →
    TxQueue (Txpool (CurChain x)) ++ flat_map moved out ≡ₚ TxQueue (Txpool (CurChain (App p)))) ∧
  ∀ (q : cnode) (now : Time) (clock : nat → Time) mm,
    ModifiedMap (cdm (App q)) !! Z.to_nat (AccountTransferRound (cdm (App q))) = Some mm →
    ReceivedNewTx (cdm (App q)) = [] →
    map_Forall (λ _ a, ∃ p, came_from mm (PShardID q) a p) (AccountStateTx (cdm (App q))) →
    ∃ x r, contrib_proposePartition q now clock = Ok (x, r) ∧
      TxQueue (Txpool (CurChain x)) = TxQueue (Txpool (CurChain (App q))) ++
        imap (λ i tx, stamp (clock i) tx) (flat_map ASTxs (map_to_list (AccountStateTx (cdm (App q)))).*2).
Proof.
  split. { intros p x out E. by destruct (contrib_send_spec p x out E) as (_ & _ & ? & _). }
  intros q now clock mm Hmm Hnil Hall. unfold contrib_proposePartition.
  assert (Forall (fits mm (PShardID q)) (map_to_list (AccountStateTx (cdm (App q)))).*2) as Hf.
  { apply Forall_forall. intros a Ha. apply list_elem_of_fmap in Ha as ([s a'] & -> & Hin%elem_of_map_to_list).
    destruct (Hall s a' Hin) as [p Hp]. by eapply came_fits. }
  destruct (collect_ok (map_to_list (AccountStateTx (cdm (App q)))).*2 (ReceivedNewAccountState (cdm (App q))) (ReceivedNewTx (cdm (App q))))
    as (states & ->); [eapply Forall_impl; [exact Hf|]; by intros a []|].
  cbn [mbind go_bind]. rewrite Hmm, Hnil. eexists _, _. split; [reflexivity|]. cbn. f_equal. f_equal.
  apply filter_all, forallb_forall. intros tx Hin. apply in_flat_map in Hin as (a & Ha & Hx).
  rewrite Forall_forall in Hf. destruct (Hf a) as [_ Hb]; [by apply list_elem_of_In|]. rewrite Forall_forall in Hb. by apply Hb, list_elem_of_In.
Qed.

(** ** Relays with proofs *)

(** The messages of a leader that relays with proofs. *)
Lemma commit_leader_proofs {X} (p : PbftConsensusNode X) bc bc1 epoch now r block :
  PNodeID p = u64 (view p) → RelayWithMerkleProof = 1 →
  DecodeB (Content r) = Ok block → AddBlock block bc = Ok bc1 → txs_placed bc1 (Body block) →
  ∃ bc' out, commit_block p bc epoch now r = Ok (bc', out) ∧ RelayPool (Txpool bc') = None ∧
    triedb bc' = triedb bc1 ∧
    ∀ sid, sid ∈ other_shards p → ∃ proofs,
      (ip_of p sid 0, MRelayWithProof (mkRelayWithProof
         (relayed_to bc1 (PShardID p) sid (Body block)) proofs (PShardID p) (sequenceID p))) ∈ out.
Proof.
  intros Hl Hm Hd Ha Hp. unfold commit_block. rewrite Hd. cbn [mbind go_bind]. rewrite Ha.
  cbn [mbind go_bind]. rewrite Hl, Z.eqb_refl, Hm.
  destruct (sort_block_spec bc1 (PShardID p) (Body block) Hp) as (s & Hs & [_ _ _ _ _ s6 _]).
  rewrite Hs. cbn [mbind go_bind Z.eqb Pos.eqb]. unfold RelayWithProofSend. rewrite Hm.
  cbn [Z.eqb Pos.eqb negb mbind go_bind].
  eexists _, _. split; [reflexivity|]. split; [by destruct (accepts block bc)|].
  split; [by destruct (accepts block bc)|]. intros sid Hsid. eexists. apply elem_of_app. left.
  apply list_elem_of_fmap. exists sid. split; [|done]. rewrite s6. cbn [sb_pool].
  by rewrite empty_relay.
Qed.

(** Relaying with proofs loses the transfers.  With [RelayWithMerkleProof] = 1 the leader
    that commits a block sends every cross-shard transaction, already debited here, to the
    recipient's shard in a [CRelayWithProof] message and empties its relay pool; a ContribChain
    node that receives the message does not change, so the transaction reaches no pool.  (A CLPA
    node adds the transactions when the proofs verify.) *)
Theorem contrib_loses_proved_relays {X} (p : PbftConsensusNode X) bc bc1 epoch now r block tx
    (q : cnode) (clock : nat → Time) :
  PNodeID p = u64 (view p) → RelayWithMerkleProof = 1 →
  DecodeB (Content r) = Ok block → AddBlock block bc = Ok bc1 → txs_placed bc1 (Body block) →
  tx ∈ Body block → is_relay1 bc1 (PShardID p) tx = true →
  shard_of bc1 (Recipient tx) ∈ other_shards p →
  ∃ bc' out rwp, commit_block p bc epoch now r = Ok (bc', out) ∧ RelayPool (Txpool bc') = None ∧
    (ip_of p (shard_of bc1 (Recipient tx)) 0, MRelayWithProof rwp) ∈ out ∧ mark tx ∈ RPTxs rwp ∧
    contrib_HandleMessageOutsidePBFT q clock (MRelayWithProof rwp) = Ok (q, []) ∧
    (∀ q', clpa_HandleMessageOutsidePBFT q clock (MRelayWithProof rwp) = Ok (q', []) →
       check_proofs (RPTxs rwp) (TxProofs rwp) = Ok true →
       CurChain (App q') = SendTx2Pool clock (RPTxs rwp) (CurChain (App q))).
Proof.
  intros Hl Hm Hd Ha Hp Hin Hr Hsh.
  destruct (commit_leader_proofs p bc bc1 epoch now r block Hl Hm Hd Ha Hp)
    as (bc' & out & E & Hnone & _ & Hsend).
  destruct (Hsend _ Hsh) as (proofs & Hpk). eexists bc', out, _. split; [exact E|]. split; [exact Hnone|].
  split; [exact Hpk|]. split; [|split; [done|]].
  - apply list_elem_of_fmap_2. rewrite list_elem_of_In, filter_In, <-list_elem_of_In.
    by rewrite Hr, Z.eqb_refl.
  - intros q' Hq Hok. unfold clpa_HandleMessageOutsidePBFT, clpa_handleRelayWithProof in Hq.
    rewrite Hok in Hq. cbn in Hq. by injection Hq as <-.
Qed.
End facts.

(** ** Witnesses *)
Module ContribExample.
Import ConcreteLibs ConcreteCore ChainExample RelayExample ClpaExample.
#[local] Existing Instance OverheadExample.req_codec.

(** The default configuration with proofs. *)
Definition proof_params : Params := {|
  NodesInShard := 4; ShardNum := 4; MaxBlockSize_global := 2000;
  BlocksizeInBytes := 20000; UseBlocksizeInBytes := 0; InjectSpeed := 300;
  TotalDataSize := 50000; TxBatchSize := 16000; RelayWithMerkleProof := 1;
  PbftViewChangeTimeOut := 10000; SupervisorAddr := "127.0.0.1:18800";
  Overhead_Enabled := false; Overhead_Lightweight := false; Overhead_Migration := false;
  Overhead_MigrationAccounts := 0; Overhead_StreamSkipNode := -1 |}.
#[local] Existing Instance proof_params.

Lemma here bc : PartitionMap bc = ∅ →
  txs_placed bc [big] ∧ shard_of bc addrA = 3 ∧ shard_of bc addrC = 1.
Proof.
  intros Em. unfold txs_placed, placed, shard_of, Get_PartitionMap. rewrite Forall_singleton, Em.
  by vm_compute.
Qed.

Lemma contrib_transfer_keeps_witness :
  ∃ (p q : PbftConsensusNode ClpaApp) x out a y r, contrib_sendAccounts_and_Txs p = Ok (x, out) ∧
    TxQueue (Txpool (CurChain x)) ++ flat_map moved out ≡ₚ pending ∧
    (ip_of p 1 0, MAccountStateAndTx a) ∈ out ∧ AccountStateTx (cdm (App q)) = {[ 3 := a ]} ∧
    contrib_proposePartition q 10 (λ _, 1) = Ok (y, r) ∧ length (TxQueue (Txpool (CurChain y))) = length (ASTxs a).
Proof.
  destruct (genesis_of cfg) as (bc & _ & Hck & _ & Hp & Hm & _).
  destruct (genesis_of cfg1) as (bc1 & _ & _ & _ & Hp1 & _ & _).
  set (p := (leader 3 cfg (bc <| Txpool ::= λ t, t <| TxQueue := pending |> |>) ∅)
              <| ip_nodeTable := {[ 1 := {[ 0 := "leader1" ]} ]} |>).
  assert (∃ x out a, contrib_sendAccounts_and_Txs p = Ok (x, out) ∧ (ip_of p 1 0, MAccountStateAndTx a) ∈ out)
    as (x & out & a & Es & Hin).
  { assert (contrib_accountToFetch (PShardID p) (CurChain (App p)) newMap = Ok [addrA]) as Hf.
    { unfold contrib_accountToFetch, Get_PartitionMap. change (PartitionMap (CurChain (App p))) with (PartitionMap bc).
      rewrite Hm. vm_compute. reflexivity. }
    unfold contrib_sendAccounts_and_Txs. change (last (ModifiedMap (cdm (App p)))) with (Some newMap). cbv iota beta.
    rewrite Hf. cbn [mbind go_bind].
    rewrite (fetch_accounts_spec (CurChain (App p)) ∅) by apply Hck. cbn [mbind go_bind].
    eexists _, _, _. split; [reflexivity|]. cbn. apply elem_of_cons. right. apply elem_of_cons. left. reflexivity. }
  destruct contrib_transfer_keeps as [Hsend Hrecv].
  set (q := leader 1 cfg1 bc1 {[ 3 := a ]}).
  destruct (Hrecv q 10 (λ _, 1) newMap eq_refl eq_refl) as (y & r & Ey & Hq).
  { apply map_Forall_singleton. exists p, x, out. split; [exact Es|]. split; [done|]. split; [|exact Hin].
    intros j Hj. unfold ip_of. cbn. rewrite lookup_singleton_ne by done. done. }
  exists p, q, x, out, a, y, r. split; [exact Es|]. split; [by apply (Hsend p)|]. split; [exact Hin|]. split; [done|]. split; [exact Ey|].
  rewrite Hq. cbn -[flat_map]. rewrite Hp1, map_to_list_singleton. cbn. by rewrite app_nil_r, length_imap.
Defined.

Lemma contrib_loses_proved_relays_witness :
  ∃ (p q : PbftConsensusNode ClpaApp) r bc' out rwp,
    commit_block p (CurChain (App p)) 0 20 r = Ok (bc', out) ∧
    (ip_of p 1 0, MRelayWithProof rwp) ∈ out ∧ mark big ∈ RPTxs rwp ∧
    contrib_HandleMessageOutsidePBFT q (λ _, 1) (MRelayWithProof rwp) = Ok (q, []).
Proof.
  destruct (new_chain_ok cfg trie_NewDatabase (∅ : BoltDB) "cannot find the newest block hash")
    as (bc & _ & Hck & Hc & _ & Hp & Hm & _); [apply trie_new_db_ok|done|].
  set (snt := SendTx2Pool (λ _, 1) [big] bc).
  assert (chain_ok snt ∅) as Hcks by (by apply send_chain_ok).
  assert (TxQueue (Txpool snt) = [big]) as Hq by (cbn; by rewrite Hp).
  assert (txs_placed snt (TxQueue (Txpool snt))) as Hpl by (rewrite Hq; by apply here).
  destruct (generate_block_spec snt ∅ 0 10 (ck_state _ _ Hcks) Hpl) as (db & rt & Hg & _).
  destruct (replica_add snt bc ∅ 0 10 _ _ Hcks Hck eq_refl eq_refl eq_refl Hpl Hg)
    as (_ & bc1 & Ha & _ & _ & _ & Hpm & _).
  set (b := seal _ _) in *. assert (Body b = [big]) as Hb.
  { unfold b. cbn [Body seal NewBlock upd]. unfold pack_block. cbn. by rewrite Hp, Hc. }
  destruct (here bc1) as (Hpl1 & HsA & HsC); [by rewrite Hpm|].
  set (p := NewPbftNode 3 0 cfg ∅ 0 0 (mkClpaApp bc NewCLPADataSupport PhIdle)).
  destruct (contrib_loses_proved_relays p bc bc1 0 20 (mkRequest BlockRequest (Encode b) 10) b big p (λ _, 1))
    as (bc' & out & rwp & E & _ & Hin & Hbig & Hdrop & _); [done|done|apply must_decode_encode|exact Ha|..].
  - by rewrite Hb.
  - rewrite Hb. apply list_elem_of_here.
  - unfold is_relay1. change (Sender big) with addrA. change (Recipient big) with addrC.
    by rewrite HsA, HsC.
  - change (Recipient big) with addrC. rewrite HsC.
    apply (bool_decide_eq_true_1 (1 ∈ other_shards p)). vm_compute. reflexivity.
  - change (Recipient big) with addrC in Hin. rewrite HsC in Hin.
    eexists p, p, _, bc', out, rwp. split; [exact E|]. split; [exact Hin|]. by split.
Defined.
End ContribExample.
