(* ===== verification/Supervisor.v ===== *)
(** * The supervisor's side: the stop signal and the injection of transactions

    [supervisor/signal/supervisorStopModule.go], the stop logic of [supervisor/supervisor.go], and
    [supervisor/committee/committee_relay.go]: reading rows of the dataset into transactions,
    collecting batches, and sending every batch to the leaders of the shards at the configured
    speed.  Every committee has the same [txSending] loop with a routing rule of its own, which
    is an argument here.  The rows of the CSV file are the input; sleeping between two sendings is
    not modelled. *)
From Stdlib Require Import Ascii.
From S2P Require Import Prelude Utils Libs Core Messages Storage Chain MerkleProof Overhead.
From S2P Require Import Pbft.

(** ** [signal.StopSignal] *)
Record StopSignal := mkStopSignal { stopGap : Z; stopThreshold : Z }.
#[export] Instance StopSignal_eta : Eta StopSignal := λ s, mkStopSignal (stopGap s) (stopThreshold s).

Definition NewStopSignal (stop_Threshold : Z) : StopSignal := mkStopSignal 0 stop_Threshold.
Definition StopGap_Inc (ss : StopSignal) : StopSignal := ss <| stopGap ::= Z.add 1 |>.
Definition StopGap_Reset (ss : StopSignal) : StopSignal := ss <| stopGap := 0 |>.
Definition GapEnough (ss : StopSignal) : bool := stopThreshold ss <=? stopGap ss.

(** The stop-signal part of [handleBlockInfos]. *)
Definition observe_block (ss : StopSignal) (bim : BlockInfoMsg) : StopSignal :=
  if BlockBodyLength bim =? 0 then StopGap_Inc ss else StopGap_Reset ss.

(** The stop messages of [SupervisorTxHandling], when the gap is large enough. *)
Definition stop_packets (table : gmap Z (gmap Z string)) (cc : ChainConfig) : list string :=
  sid ← heights 0 (ShardNums cc - 1);
  (λ nid, default "" (t ← table !! sid; t !! nid)) <$> heights 0 (Nodes_perShard cc - 1).

Section inject.
Context `{Params, CryptoLib, !Codec Transaction}.
Context (IpNodeTable : gmap Z (gmap Z string)).

(** ** [txSending] *)
Section sending.
Context (route : Transaction → go Z).

Definition inject_all (sendToShard : gmap Z (list Transaction)) : list packet :=
  (λ sid, (default "" (t ← IpNodeTable !! sid; t !! 0),
           MInject (mkInjectTxs (default [] (sendToShard !! sid)) sid)))
    <$> heights 0 (ShardNum - 1).

(** The loop from position [idx] on; [txs] are the transactions from there. *)
Fixpoint tx_sending (idx : Z) (sendToShard : gmap Z (list Transaction)) (txs : list Transaction)
    : go (list packet) :=
  now ← (if 0 <? idx then
           r ← go_rem idx InjectSpeed;
           Ok ((r =? 0) || match txs with [] => true | _ => false end)
         else Ok false);
  let out := if (now : bool) then inject_all sendToShard else [] in
  let sendToShard := if (now : bool) then ∅ else sendToShard in
  match txs with
  | [] => Ok out
  | tx :: txs' =>
      sid ← route tx;
      rest ← tx_sending (idx + 1) (<[sid := default [] (sendToShard !! sid) ++ [tx]]> sendToShard) txs';
      Ok (out ++ rest)
  end.

Definition txSending (txlist : list Transaction) : go (list packet) := tx_sending 0 ∅ txlist.
End sending.

(** The routing of the relay committee: the sender's shard. *)
Definition relay_route (tx : Transaction) : go Z := s ← Addr2Shard (Sender tx); Ok (u64 s).

(** ** [data2tx]: a row of the dataset *)

(** [big.Int.SetString(s, 10)]: an optional sign and decimal digits. *)
Fixpoint parse_digits (acc : Z) (l : list ascii) : option Z :=
  match l with
  | [] => Some acc
  | c :: l' => let n := byte_of c in
               if (48 <=? n) && (n <=? 57) then parse_digits (acc * 10 + (n - 48)) l' else None
  end.

Definition SetString10 (s : string) : option Z :=
  match chars s with
  | [] => None
  | c :: l => if byte_of c =? 45 then (match l with [] => None | _ => v ← parse_digits 0 l; Some (- v) end)
              else if byte_of c =? 43 then (match l with [] => None | _ => parse_digits 0 l end)
              else parse_digits 0 (c :: l)
  end.

Definition drop2 (s : string) : string := unchars (drop 2 (chars s)).

(** [data[i]] *)
Definition field (data : list string) (i : nat) : go string :=
  match data !! i with Some s => Ok s | None => Panic "index out of range" end.

Definition data2tx (now : Time) (data : list string) (nonce : Z) : go (option Transaction) :=
  f6 ← field data 6;
  if negb (bool_decide (f6 = "0")) then Ok None
  else
    f7 ← field data 7;
    if negb (bool_decide (f7 = "0")) then Ok None
    else
      f3 ← field data 3;
      if negb (16 <? len (chars f3)) then Ok None
      else
        f4 ← field data 4;
        if negb (16 <? len (chars f4)) then Ok None
        else if bool_decide (f3 = f4) then Ok None
        else
          f8 ← field data 8;
          match SetString10 f8 with
          | None => Panic "new int failed"
          | Some val => Ok (Some (NewTransaction (drop2 f3) (drop2 f4) val nonce now))
          end.

(** ** [RelayCommitteeModule] *)
Record RelayCommitteeModule := mkRelayCommittee {
  dataTotalNum : Z;
  nowDataNum : Z;
  batchDataNum : Z;
  Ss : StopSignal;
}.
#[export] Instance RelayCommittee_eta : Eta RelayCommitteeModule := λ m,
  mkRelayCommittee (dataTotalNum m) (nowDataNum m) (batchDataNum m) (Ss m).

Definition NewRelayCommitteeModule (ss : StopSignal) (dataNum batchNum : Z) : RelayCommitteeModule :=
  mkRelayCommittee dataNum 0 batchNum ss.

(** [MsgSendingControl] over the rows of the file, with the times the rows are read at; the
    result is the module and the list of batches it passes to [txSending]. *)
Fixpoint sending_control (rthm : RelayCommitteeModule) (txlist : list Transaction)
    (rows : list (Time * list string)) : go (RelayCommitteeModule * list (list Transaction)) :=
  match rows with
  | [] => Ok (rthm, [])
  | (now, data) :: rows' =>
      r ← data2tx now data (u64 (nowDataNum rthm));
      let '(rthm, txlist) := match r with
                             | Some tx => (rthm <| nowDataNum ::= Z.add 1 |>, txlist ++ [tx])
                             | None => (rthm, txlist)
                             end in
      let full := (len txlist =? batchDataNum rthm) || (nowDataNum rthm =? dataTotalNum rthm) in
      let batches := if full then [txlist] else [] in
      let rthm := if full then rthm <| Ss ::= StopGap_Reset |> else rthm in
      let txlist := if full then [] else txlist in
      if nowDataNum rthm =? dataTotalNum rthm then Ok (rthm, batches)
      else
        rest ← sending_control rthm txlist rows';
        Ok (rest.1, batches ++ rest.2)
  end.

(** The packets of all batches. *)
Definition MsgSendingControl (rthm : RelayCommitteeModule) (rows : list (Time * list string))
    : go (RelayCommitteeModule * list packet) :=
  r ← sending_control rthm [] rows;
  out ← go_fold (λ out b, o ← txSending relay_route b; Ok (out ++ o)) [] r.2;
  Ok (r.1, out).
End inject.
