(* ===== verification/SupervisorFacts.v ===== *)
(** * Properties of the supervisor's injection and stop signal *)
From S2P Require Import Prelude Utils Libs Core Messages Storage Chain MerkleProof Overhead.
From S2P Require Import Pbft Supervisor.

(** ** The stop signal *)
Lemma gap_run (l : list BlockInfoMsg) ss :
  ∃ suf pre, l = pre ++ suf ∧ Forall (λ b, BlockBodyLength b = 0) suf ∧
    stopThreshold (foldl observe_block ss l) = stopThreshold ss ∧
    stopGap (foldl observe_block ss l) = (if decide (pre = []) then stopGap ss else 0) + len suf ∧
    (last pre = None ∨ ∃ b, last pre = Some b ∧ BlockBodyLength b ≠ 0).
Proof.
  induction l as [|b l IH] using rev_ind.
  - exists [], []. split; [done|]. split; [done|]. split; [done|]. split; [|by left].
    unfold len. cbn. rewrite decide_True by done. cbn. lia.
  - destruct IH as (suf & pre & -> & Hs & Ht & Hg & Hl). rewrite foldl_app. cbn [foldl].
    set (ss' := foldl observe_block ss (pre ++ suf)) in *. unfold observe_block.
    destruct (BlockBodyLength b =? 0) eqn:E; zbool.
    + exists (suf ++ [b]), pre. rewrite app_assoc. split; [done|].
      split; [by apply Forall_app; split; [|apply Forall_singleton]|]. split; [exact Ht|].
      split; [|done]. cbn. rewrite Hg, len_app. unfold len. cbn. lia.
    + exists [], ((pre ++ suf) ++ [b]). rewrite app_nil_r. split; [done|]. split; [done|].
      split; [exact Ht|]. split.
      * cbn. rewrite decide_False by (intros Hx; by apply app_nil in Hx as [_ ?]). done.
      * right. exists b. by rewrite last_snoc.
Qed.

(** The stop signal.  After any sequence of block reports, the supervisor stops the nodes
    exactly when the last [stopThreshold] reports (three per shard) were all of empty blocks. *)
Theorem stop_signal_spec (threshold : Z) (reports : list BlockInfoMsg) :
  0 < threshold →
  GapEnough (foldl observe_block (NewStopSignal threshold) reports) = true ↔
  ∃ pre suf, reports = pre ++ suf ∧ len suf = threshold ∧ Forall (λ b, BlockBodyLength b = 0) suf.
Proof.
  intros Hpos. destruct (gap_run reports (NewStopSignal threshold)) as (suf & pre & Hr & Hs & Ht & Hg & Hl).
  unfold GapEnough. rewrite Ht, Hg, Z.leb_le. cbn [NewStopSignal stopThreshold stopGap].
  replace (if decide (pre = []) then 0 else 0) with 0 by (by case_decide). split.
  - intros Hle. pose (k := Z.to_nat (len suf - threshold)). exists (pre ++ take k suf), (drop k suf).
    rewrite <-app_assoc, take_drop. split; [done|]. split; [|by apply Forall_drop].
    unfold len in *. rewrite length_drop. unfold k. lia.
  - intros (pre' & suf' & Hr' & Hlen & Hs'). subst reports.
    destruct (Z.le_gt_cases threshold (len suf)) as [|Hlt]; [lia|exfalso].
    (* the last report before [suf] is in [suf'] *)
    assert (∃ x y, pre = x ++ y ∧ suf' = y ++ suf ∧ y ≠ []) as (x & y & -> & -> & Hy).
    { exists pre', (take (length suf' - length suf) suf').
      assert (length suf ≤ length suf')%nat as Hle by (unfold len in *; lia).
      assert (suf = drop (length suf' - length suf) suf') as Hd.
      { apply (f_equal (drop (length pre))) in Hr' as Hd. rewrite drop_app_length in Hd.
        etrans; [exact Hd|].
        apply (f_equal length) in Hr'. rewrite !length_app in Hr'.
        rewrite drop_app, drop_ge, app_nil_l by lia. f_equal. lia. }
      split; [|split].
      - apply (app_inv_tail suf). rewrite Hr', <-app_assoc. f_equal.
        rewrite Hd at 2. by rewrite take_drop.
      - rewrite Hd at 2. by rewrite take_drop.
      - intros Hn%(f_equal length). rewrite length_take in Hn. cbn in Hn. unfold len in *. lia. }
    destruct (exists_last Hy) as (y' & b & ->). rewrite app_assoc, last_snoc in Hl.
    apply Forall_app in Hs' as [Hs' _]. apply Forall_app in Hs' as [_ Hb]. rewrite Forall_singleton in Hb.
    destruct Hl as [|(b' & [= <-] & Hne)]; done.
Qed.

(** ** Injection *)
Section inject.
Context `{Params, CryptoLib, !Codec Transaction}.
Context (IpNodeTable : gmap Z (gmap Z string)) (route : Transaction → go Z).

(** What the packets inject into shard [sid], in the order of the packets. *)
Definition injected (sid : Z) (out : list packet) : list Transaction :=
  concat ((λ pk : packet, match pk.2 with
                          | MInject it => if ToShardID it =? sid then ITxs it else []
                          | _ => []
                          end) <$> out).

Definition routed_to (sid : Z) (tx : Transaction) : bool :=
  match route tx with Ok s => s =? sid | Panic _ => false end.

(** A packet of an injection: to the leader of its shard, no more than the speed allows. *)
Definition good_inject (pk : packet) : Prop :=
  ∃ it, pk = (default "" (t ← IpNodeTable !! ToShardID it; t !! 0), MInject it) ∧
    0 ≤ ToShardID it < ShardNum ∧ len (ITxs it) ≤ InjectSpeed.

Lemma injected_app sid o1 o2 : injected sid (o1 ++ o2) = injected sid o1 ++ injected sid o2.
Proof. unfold injected. by rewrite fmap_app, concat_app. Qed.

Lemma heights_elem n i : i ∈ heights 0 (n - 1) ↔ 0 ≤ i < n.
Proof.
  unfold heights. rewrite list_elem_of_fmap. split.
  - intros (k & -> & Hk%elem_of_seq). lia.
  - intros Hi. exists (Z.to_nat i). rewrite elem_of_seq. lia.
Qed.

Lemma heights_nodup n : NoDup (heights 0 (n - 1)).
Proof. unfold heights. apply NoDup_fmap_2; [intros ???; lia|apply NoDup_seq]. Qed.

Lemma concat_single {A} (f : Z → list A) l k : NoDup l → k ∈ l →
  concat ((λ x, if x =? k then f x else []) <$> l) = f k.
Proof.
  induction l as [|x l IH]; intros Hnd Hin; [by apply elem_of_nil in Hin|].
  apply NoDup_cons in Hnd as [Hx Hnd]. cbn. destruct (x =? k) eqn:E; zbool.
  - subst. rewrite <-(app_nil_r (f k)) at 2. f_equal. clear IH Hin. induction l as [|y l IH]; [done|].
    apply not_elem_of_cons in Hx as [Hk Hx]. apply NoDup_cons in Hnd as [_ Hnd]. cbn.
    rewrite (proj2 (Z.eqb_neq y k)) by congruence. by apply IH.
  - apply elem_of_cons in Hin as [Hin|Hin]; [congruence|]. by apply IH.
Qed.

Lemma inject_all_to m sid : 0 ≤ sid < ShardNum → injected sid (inject_all IpNodeTable m) = default [] (m !! sid).
Proof.
  intros Hs. unfold injected, inject_all. rewrite <-list_fmap_compose.
  apply (concat_single (λ x, default [] (m !! x)) (heights 0 (ShardNum - 1)) sid);
    [apply heights_nodup|by apply heights_elem].
Qed.

Lemma inject_all_good m : (∀ sid, len (default [] (m !! sid)) ≤ InjectSpeed) →
  Forall good_inject (inject_all IpNodeTable m).
Proof.
  intros Hm. apply Forall_fmap, Forall_forall. intros sid Hs%heights_elem. cbn.
  exists (mkInjectTxs (default [] (m !! sid)) sid). split; [reflexivity|]. split; [exact Hs|apply Hm].
Qed.

Lemma mod_pred i n : 0 < n → 0 < i → i mod n ≠ 0 → (i - 1) mod n + 1 = i mod n.
Proof.
  intros Hn Hi Hne. pose proof (Z.mod_pos_bound i n Hn) as Hb.
  replace (i - 1) with ((i mod n - 1) + (i / n) * n) by (pose proof (Z_div_mod_eq_full i n); lia).
  rewrite Z.mod_add by lia. rewrite Z.mod_small; lia.
Qed.

Lemma tx_sending_spec txs idx m :
  0 < InjectSpeed → 0 ≤ idx → (idx = 0 → m = ∅) →
  (∀ sid, len (default [] (m !! sid)) ≤ (idx - 1) mod InjectSpeed + 1) →
  Forall (λ tx, ∃ s, route tx = Ok s) txs →
  ∃ out, tx_sending IpNodeTable route idx m txs = Ok out ∧ Forall good_inject out ∧
    ∀ sid, 0 ≤ sid < ShardNum →
      injected sid out = default [] (m !! sid) ++ List.filter (routed_to sid) txs.
Proof.
  intros Hsp. revert idx m. induction txs as [|tx txs IH]; intros idx m Hi Hzero Hm Hr.
  - cbn [tx_sending]. destruct (0 <? idx) eqn:E; zbool.
    + destruct (go_rem_range idx InjectSpeed) as (r & -> & _); [lia..|]. cbn [mbind go_bind].
      rewrite orb_true_r. eexists. split; [done|]. split.
      * apply inject_all_good. intros sid. specialize (Hm sid).
        pose proof (Z.mod_pos_bound (idx - 1) InjectSpeed Hsp). lia.
      * intros sid Hs. cbn. by rewrite inject_all_to, app_nil_r.
    + exists []. split; [done|]. split; [done|]. intros sid _. rewrite Hzero by lia. by rewrite lookup_empty.
  - apply Forall_cons in Hr as [[s Hs] Hr].
    assert (∃ now, (if 0 <? idx then r ← go_rem idx InjectSpeed; Ok ((r =? 0) || false) else Ok false) = Ok now ∧
      (now = false → idx = 0 ∨ idx mod InjectSpeed ≠ 0)) as (now & En & Hnow).
    { destruct (0 <? idx) eqn:E; zbool.
      - destruct (go_rem_range idx InjectSpeed) as (r & -> & -> & _); [lia..|]. cbn [mbind go_bind].
        eexists. split; [done|]. rewrite orb_false_r. intros Hx. zbool. by right.
      - eexists. split; [done|]. left. lia. }
    cbn [tx_sending]. rewrite En. cbn [mbind go_bind]. rewrite Hs. cbn [mbind go_bind].
    set (m1 := if now then ∅ else m).
    assert (∀ sid, len (default [] (m1 !! sid)) ≤ idx mod InjectSpeed) as Hm1.
    { intros sid. pose proof (Z.mod_pos_bound idx InjectSpeed Hsp). unfold m1. destruct now.
      - rewrite lookup_empty. unfold len. cbn. lia.
      - destruct (Hnow eq_refl) as [->|Hne]; [rewrite Hzero by done; rewrite lookup_empty; unfold len; cbn; lia|].
        specialize (Hm sid). rewrite mod_pred in Hm by (done || (destruct (Z.eq_dec idx 0) as [->|]; [by rewrite Z.mod_0_l in Hne by lia|lia])). lia. }
    destruct (IH (idx + 1) (<[s := default [] (m1 !! s) ++ [tx]]> m1)) as (rest & -> & Hg & Hrest); [lia|lia| |done|].
    { intros sid. replace (idx + 1 - 1) with idx by lia. specialize (Hm1 sid).
      destruct (decide (sid = s)) as [->|Hd].
      - rewrite lookup_insert_eq. cbn. rewrite len_app. unfold len at 2. cbn. lia.
      - rewrite lookup_insert_ne by done. lia. }
    cbn [mbind go_bind]. eexists. split; [done|].
    assert (∀ sid, 0 ≤ sid < ShardNum →
      injected sid (if now then inject_all IpNodeTable m else []) ++ default [] (m1 !! sid) = default [] (m !! sid)) as Hsplit.
    { intros sid Hsid. unfold m1. destruct now; [|done]. rewrite inject_all_to by done. by rewrite lookup_empty, app_nil_r. }
    split.
    + apply Forall_app. split; [|done]. destruct now; [|done]. apply inject_all_good. intros sid. specialize (Hm sid).
      pose proof (Z.mod_pos_bound (idx - 1) InjectSpeed Hsp). lia.
    + intros sid Hsid. rewrite injected_app, Hrest, <-(Hsplit sid Hsid) by done. rewrite <-!app_assoc. f_equal.
      cbn. unfold routed_to at 2. rewrite Hs. destruct (decide (sid = s)) as [->|Hd].
      * rewrite lookup_insert_eq, Z.eqb_refl. cbn. by rewrite <-app_assoc.
      * rewrite lookup_insert_ne by done. by rewrite (proj2 (Z.eqb_neq s sid)).
Qed.

(** Every transaction is injected once.  For any routing rule that never panics, [txSending]
    returns; over all its messages each shard gets exactly the transactions routed to it, in
    order and without loss or repetition; every message goes to a shard's leader and holds at
    most [InjectSpeed] transactions. *)
Theorem injected_once (txs : list Transaction) :
  0 < InjectSpeed → Forall (λ tx, ∃ s, route tx = Ok s) txs →
  ∃ out, txSending IpNodeTable route txs = Ok out ∧ Forall good_inject out ∧
    ∀ sid, 0 ≤ sid < ShardNum → injected sid out = List.filter (routed_to sid) txs.
Proof.
  intros Hsp Hr. destruct (tx_sending_spec txs 0 ∅ Hsp) as (out & E & Hg & Ho); [lia|done| |done|].
  { intros sid. rewrite lookup_empty. pose proof (Z.mod_pos_bound (0 - 1) InjectSpeed Hsp). unfold len. cbn. lia. }
  exists out. split; [exact E|]. split; [exact Hg|]. intros sid Hs. rewrite Ho by done. by rewrite lookup_empty.
Qed.

(** ** Reading the dataset *)

(** A row that does not panic, whatever the nonce. *)
Definition row_ok (row : Time * list string) : Prop :=
  ∀ nonce, ∃ r, data2tx row.1 row.2 nonce = Ok r.

(** The transactions of the rows; nonces count from [k]. *)
Fixpoint rows_txs (k : Z) (rows : list (Time * list string)) : list Transaction :=
  match rows with
  | [] => []
  | row :: rows' =>
      match data2tx row.1 row.2 (u64 k) with
      | Ok (Some tx) => tx :: rows_txs (k + 1) rows'
      | _ => rows_txs k rows'
      end
  end.

(** What is sent when [p] is pending, [n] transactions were read and [txs] are still to come. *)
Definition sent_txs (batch total n : Z) (p txs : list Transaction) : list Transaction :=
  if total <=? n + len txs then p ++ take (Z.to_nat (total - n)) txs
  else take (Z.to_nat ((len p + len txs) / batch * batch)) (p ++ txs).

Lemma sent_more batch total n p tx txs : n + 1 < total →
  sent_txs batch total (n + 1) (p ++ [tx]) txs = sent_txs batch total n p (tx :: txs).
Proof.
  intros Hn. unfold sent_txs. rewrite len_app. unfold len. cbn [length].
  replace (n + 1 + Z.of_nat (length txs)) with (n + Z.of_nat (S (length txs))) by lia.
  replace (Z.of_nat (length p) + Z.of_nat 1 + Z.of_nat (length txs)) with
    (Z.of_nat (length p) + Z.of_nat (S (length txs))) by lia.
  rewrite <-!app_assoc. cbn [app]. case_match; [|done].
  replace (Z.to_nat (total - n)) with (S (Z.to_nat (total - (n + 1)))) by lia. done.
Qed.

Lemma sent_flush batch total n p txs : 0 < batch → len p = batch → n < total →
  sent_txs batch total n p txs = p ++ sent_txs batch total n [] txs.
Proof.
  intros Hb Hp Hn. unfold sent_txs. case_match; [done|]. rewrite Hp, app_nil_l.
  replace (batch + len txs) with (len txs + 1 * batch) by lia. rewrite Z.div_add by lia.
  unfold len at 3. cbn [length]. rewrite Z.add_0_l.
  assert (0 ≤ len txs / batch) by (apply Z.div_pos; [apply len_nonneg|lia]).
  replace (Z.to_nat ((len txs / batch + 1) * batch)) with
    (length p + Z.to_nat (len txs / batch * batch))%nat by (unfold len in *; nia).
  by rewrite take_app_add.
Qed.

Lemma sending_control_spec rows rthm p :
  0 < batchDataNum rthm → nowDataNum rthm < dataTotalNum rthm → len p < batchDataNum rthm →
  Forall row_ok rows →
  ∃ m bs, sending_control rthm p rows = Ok (m, bs) ∧
    concat bs = sent_txs (batchDataNum rthm) (dataTotalNum rthm) (nowDataNum rthm) p
                  (rows_txs (nowDataNum rthm) rows) ∧
    Forall (λ b, 0 < len b ≤ batchDataNum rthm) bs.
Proof.
  revert rthm p. induction rows as [|[now data] rows IH]; intros rthm p Hb Hn Hp Hok.
  - eexists _, []. split; [done|]. split; [|done]. cbn [rows_txs concat].
    unfold sent_txs. change (len (@nil Transaction)) with 0.
    rewrite (proj2 (Z.leb_gt _ _)) by lia. rewrite Z.add_0_r, Z.div_small by (split; [apply len_nonneg|done]). done.
  - apply Forall_cons in Hok as [Hrow Hok]. destruct (Hrow (u64 (nowDataNum rthm))) as [r Er].
    cbn [sending_control rows_txs fst snd] in *. rewrite Er. cbn [mbind go_bind].
    destruct r as [tx|].
    + set (r1 := rthm <| nowDataNum ::= Z.add 1 |>).
      assert (len (p ++ [tx]) = len p + 1) as Hlp by (rewrite len_app; done).
      change (batchDataNum r1) with (batchDataNum rthm). change (dataTotalNum r1) with (dataTotalNum rthm).
      change (nowDataNum r1) with (1 + nowDataNum rthm).
      destruct (1 + nowDataNum rthm =? dataTotalNum rthm) eqn:Et.
      * rewrite orb_true_r. zbool. change (nowDataNum r1 <| Ss ::= StopGap_Reset |>) with (1 + nowDataNum rthm).
        change (dataTotalNum r1 <| Ss ::= StopGap_Reset |>) with (dataTotalNum rthm).
        rewrite (proj2 (Z.eqb_eq _ _) Et). eexists _, [p ++ [tx]]. split; [done|].
        split; [|apply Forall_singleton; pose proof (len_nonneg p); lia].
        cbn [concat]. rewrite app_nil_r. unfold sent_txs.
        rewrite (proj2 (Z.leb_le _ _)) by (unfold len; cbn [length]; lia).
        replace (Z.to_nat _) with 1%nat by lia. cbn. by rewrite take_0.
      * rewrite orb_false_r. zbool. destruct (len (p ++ [tx]) =? batchDataNum rthm) eqn:Ef; zbool.
        -- change (nowDataNum r1 <| Ss ::= StopGap_Reset |>) with (1 + nowDataNum rthm).
           change (dataTotalNum r1 <| Ss ::= StopGap_Reset |>) with (dataTotalNum rthm).
           rewrite (proj2 (Z.eqb_neq _ _) Et).
           destruct (IH (r1 <| Ss ::= StopGap_Reset |>) []) as (m & bs & E & Hc & Hf);
             [exact Hb|change (1 + nowDataNum rthm < dataTotalNum rthm); lia|exact Hb|done|].
           rewrite E. cbn [mbind go_bind fst snd]. eexists _, _. split; [done|]. split.
           ++ cbn [concat app]. rewrite Hc.
              change (batchDataNum r1 <| Ss ::= StopGap_Reset |>) with (batchDataNum rthm).
              change (nowDataNum r1 <| Ss ::= StopGap_Reset |>) with (1 + nowDataNum rthm).
              change (dataTotalNum r1 <| Ss ::= StopGap_Reset |>) with (dataTotalNum rthm).
              rewrite (Z.add_comm 1), <-sent_more, (sent_flush _ _ _ (p ++ [tx])) by lia. done.
           ++ apply Forall_cons_2; [pose proof (len_nonneg p); lia|exact Hf].
        -- change (nowDataNum r1) with (1 + nowDataNum rthm). change (dataTotalNum r1) with (dataTotalNum rthm). rewrite (proj2 (Z.eqb_neq _ _) Et).
           destruct (IH r1 (p ++ [tx])) as (m & bs & E & Hc & Hf);
             [exact Hb|change (1 + nowDataNum rthm < dataTotalNum rthm); lia|change (len (p ++ [tx]) < batchDataNum rthm); lia|done|].
           rewrite E. cbn [mbind go_bind fst snd app]. eexists _, _. split; [done|]. split; [|exact Hf].
           rewrite Hc. change (batchDataNum r1) with (batchDataNum rthm).
           change (nowDataNum r1) with (1 + nowDataNum rthm). change (dataTotalNum r1) with (dataTotalNum rthm).
           rewrite (Z.add_comm 1), <-sent_more by lia. done.
    + rewrite (proj2 (Z.eqb_neq (len p) _)) by lia. rewrite (proj2 (Z.eqb_neq (nowDataNum rthm) _)) by lia. cbn [orb].
      rewrite (proj2 (Z.eqb_neq (nowDataNum rthm) _)) by lia.
      destruct (IH rthm p Hb Hn Hp Hok) as (m & bs & -> & Hc & Hf). cbn. by exists m, bs.
Qed.

(** What the relay committee sends.  With a readable dataset [MsgSendingControl] returns.
    Its batches hold, in order, the first [dataTotalNum] valid rows when the dataset has that
    many; when it has fewer, only the full batches are sent, and the rest of the transactions
    that were read is never sent. *)
Theorem control_sends (ss : StopSignal) (total batch : Z) (rows : list (Time * list string)) :
  0 < batch → 0 < total → Forall row_ok rows →
  ∃ m bs, sending_control (NewRelayCommitteeModule ss total batch) [] rows = Ok (m, bs) ∧
    Forall (λ b, 0 < len b ≤ batch) bs ∧
    (total ≤ len (rows_txs 0 rows) → concat bs = take (Z.to_nat total) (rows_txs 0 rows)) ∧
    (len (rows_txs 0 rows) < total →
       concat bs = take (Z.to_nat (len (rows_txs 0 rows) / batch * batch)) (rows_txs 0 rows)).
Proof.
  intros Hb Ht Hok.
  destruct (sending_control_spec rows (NewRelayCommitteeModule ss total batch) []) as (m & bs & E & Hc & Hf);
    [exact Hb|exact Ht|exact Hb|done|].
  exists m, bs. split; [exact E|]. split; [exact Hf|].
  cbn [NewRelayCommitteeModule batchDataNum dataTotalNum nowDataNum] in Hc. unfold sent_txs in Hc.
  rewrite !Z.add_0_l, Z.sub_0_r, !app_nil_l in Hc. split; intros Hl.
  - by rewrite (proj2 (Z.leb_le _ _) Hl) in Hc.
  - rewrite (proj2 (Z.leb_gt _ _) Hl) in Hc. exact Hc.
Qed.
End inject.

(** ** Witnesses *)
Module SupervisorExample.
Import ConcreteLibs ConcreteCore.
#[local] Existing Instance default_params.

Definition report (n : Z) : BlockInfoMsg := mkBlockInfoMsg n [] 0 0 0 0 [] [] [] [].

Lemma stop_signal_spec_witness :
  GapEnough (foldl observe_block (NewStopSignal 2) [report 5; report 0; report 0]) = true.
Proof.
  apply (stop_signal_spec 2 [report 5; report 0; report 0]); [done|].
  exists [report 5], [report 0; report 0]. split; [done|]. split; [done|]. by repeat constructor.
Defined.

Definition txA : Transaction := NewTransaction "00000003" "00000001" 5 0 0.
Definition txB : Transaction := NewTransaction "00000001" "00000003" 7 1 0.

Lemma injected_once_witness :
  ∃ out, txSending ∅ relay_route [txA; txB; txA] = Ok out ∧ injected 3 out = [txA; txA].
Proof.
  destruct (injected_once ∅ relay_route [txA; txB; txA]) as (out & E & _ & Ho); [done| |].
  { repeat (apply Forall_cons_2; [by eexists; vm_compute; reflexivity|]). by apply Forall_nil. }
  exists out. split; [exact E|]. rewrite Ho by done. vm_compute. reflexivity.
Defined.

(** A row as in the dataset, and one whose sender is a contract. *)
Definition row (contract : string) : Time * list string :=
  (0, ["0"; ""; ""; "0x00000000000000000003"; "0x00000000000000000001"; ""; contract; "0"; "12"]).

Lemma control_sends_witness :
  ∃ m bs, sending_control (NewRelayCommitteeModule (NewStopSignal 12) 10 2) []
      [row "0"; row "1"; row "0"; row "0"] = Ok (m, bs) ∧ len (concat bs) = 2.
Proof.
  destruct (control_sends (NewStopSignal 12) 10 2 [row "0"; row "1"; row "0"; row "0"])
    as (m & bs & E & _ & _ & Hc); [done|done| |].
  { repeat (apply Forall_cons_2; [intros nonce; eexists; reflexivity|]). by apply Forall_nil. }
  exists m, bs. split; [exact E|]. rewrite Hc; [|by vm_compute]. vm_compute. reflexivity.
Defined.
End SupervisorExample.
