(* ===== verification/Broker.v ===== *)
(** * The broker protocol ([broker/broker.go], [supervisor/committee/committee_broker.go],
      [pbftInside_moduleBroker.go], [pbftOutside_moduleBroker.go])

    Instead of relaying, the broker method splits a cross-shard transaction in two at the
    supervisor: the sender pays a broker in its own shard ([tx1]), and when a block with [tx1] has
    been reported, the broker pays the recipient in the recipient's shard ([tx2]).  The nodes only
    execute blocks and report them.  Broker addresses are read from a file: they are a field of
    the state.  Fields of the messages that are never set or read are left out. *)
From S2P Require Import Prelude Utils Libs Core Messages Storage Chain MerkleProof Overhead.
From S2P Require Import Pbft PbftFacts RelayModule Supervisor.

(** ** Messages ([message_broker.go]) *)
Record BrokerRawMeg := mkRawMeg { RawTx : Transaction; RawBroker : Address }.
Record BrokerType1Meg := mkType1 { T1RawMeg : BrokerRawMeg; T1Broker : Address }.
Record BrokerType2Meg := mkType2 { T2RawMeg : BrokerRawMeg; T2Broker : Address }.
Record Mag1Confirm := mkMag1 { Tx1Hash : bytes; M1RawMeg : BrokerRawMeg }.
Record Mag2Confirm := mkMag2 { Tx2Hash : bytes; M2RawMeg : BrokerRawMeg }.

(** ** State *)
Record Broker := mkBroker {
  BrokerRawMegs : gmap string BrokerRawMeg;
  BrokerAddress : list Address;
  RawTx2BrokerTx : gmap string (list string);
}.
#[export] Instance Broker_eta : Eta Broker := λ b,
  mkBroker (BrokerRawMegs b) (BrokerAddress b) (RawTx2BrokerTx b).

(** [NewBroker], with the addresses of the file. *)
Definition NewBroker (addrs : list Address) : Broker := mkBroker ∅ addrs ∅.
Definition IsBroker (b : Broker) (address : Address) : bool :=
  existsb (λ a, bool_decide (a = address)) (BrokerAddress b).

Record BrokerCommitteeMod := mkBrokerCommittee {
  broker : Broker;
  brokerConfirm1Pool : gmap string Mag1Confirm;
  brokerConfirm2Pool : gmap string Mag2Confirm;
}.
#[export] Instance BrokerCommittee_eta : Eta BrokerCommitteeMod := λ m,
  mkBrokerCommittee (broker m) (brokerConfirm1Pool m) (brokerConfirm2Pool m).

Definition NewBrokerCommitteeMod (addrs : list Address) : BrokerCommitteeMod :=
  mkBrokerCommittee (NewBroker addrs) ∅ ∅.

Definition fetchModifiedMap `{Params} (key : Address) : go Z := s ← Addr2Shard key; Ok (u64 s).

(** The committee with re-partitioning has the same protocol with another [fetchModifiedMap]:
    the placement [fetch] of addresses is an argument. *)
Section committee.
Context `{Params, CryptoLib, !Codec Transaction, !Codec BrokerRawMeg}.
Context (IpNodeTable : gmap Z (gmap Z string)) (fetch : Address → go Z).

(** The routing of [txSending]: a transaction of a broker goes to the recipient's shard. *)
Definition broker_route (b : Broker) (tx : Transaction) : go Z :=
  s ← fetch (Sender tx);
  if IsBroker b (Sender tx) then fetch (Recipient tx) else Ok s.

Definition broker_txSending (b : Broker) (txs : list Transaction) : go (list packet) :=
  txSending IpNodeTable (broker_route b) txs.

Definition first_broker (b : Broker) : go Address :=
  match BrokerAddress b with [] => Panic "index out of range" | a :: _ => Ok a end.

Definition getBrokerRawMagDigest (r : BrokerRawMeg) : bytes := sha256 (Encode r).

(** ** The first half *)

(** [tx1]: the sender pays the broker. *)
Definition make_tx1 (now : Time) (m : BrokerType1Meg) : Transaction :=
  let ctx := RawTx (T1RawMeg m) in
  (NewTransaction (Sender ctx) (T1Broker m) (Value ctx) (TxNonce ctx) now)
    <| OriginalSender := Sender ctx |> <| FinalRecipient := Recipient ctx |> <| RawTxHash := TxHash ctx |>.

Definition type1_one (clock : nat → Time) (acc : BrokerCommitteeMod * list Transaction)
    (im : nat * BrokerType1Meg) : BrokerCommitteeMod * list Transaction :=
  let tx1 := make_tx1 (clock im.1) im.2 in
  (acc.1 <| brokerConfirm1Pool ::= <[TxHash tx1 := mkMag1 (TxHash tx1) (T1RawMeg im.2)]> |>, acc.2 ++ [tx1]).

Definition handleBrokerType1Mes (clock : nat → Time) (ms : list BrokerType1Meg) (bcm : BrokerCommitteeMod)
    : go (BrokerCommitteeMod * list packet) :=
  let '(bcm, tx1s) := foldl (type1_one clock) (bcm, []) (imap pair ms) in
  out ← broker_txSending (broker bcm) tx1s;
  Ok (bcm, out).

Definition handleBrokerRawMag (clock : nat → Time) (raws : list BrokerRawMeg) (bcm : BrokerCommitteeMod)
    : go (BrokerCommitteeMod * list packet) :=
  let bcm := foldl (λ bcm m, bcm <| broker ::= λ b, b <| BrokerRawMegs ::= <[getBrokerRawMagDigest m := m]> |> |>)
               bcm raws in
  handleBrokerType1Mes clock ((λ m, mkType1 m (RawBroker m)) <$> raws) bcm.

(** One transaction of [dealTxByBroker]: it goes to the broker, or stays with its broker flags. *)
Definition deal_one (b : Broker) (acc : list Transaction * list BrokerRawMeg) (tx : Transaction)
    : go (list Transaction * list BrokerRawMeg) :=
  rSid ← fetch (Recipient tx);
  sSid ← fetch (Sender tx);
  if negb (rSid =? sSid) && negb (IsBroker b (Recipient tx)) && negb (IsBroker b (Sender tx)) then
    a ← first_broker b;
    Ok (acc.1, acc.2 ++ [mkRawMeg tx a])
  else
    let tx := if IsBroker b (Recipient tx) || IsBroker b (Sender tx) then
                tx <| HasBroker := true |> <| SenderIsBroker := IsBroker b (Sender tx) |> else tx in
    Ok (acc.1 ++ [tx], acc.2).

Definition dealTxByBroker (clock : nat → Time) (txs : list Transaction) (bcm : BrokerCommitteeMod)
    : go (BrokerCommitteeMod * list Transaction * list packet) :=
  r ← go_fold (deal_one (broker bcm)) ([], []) txs;
  let '(itxs, raws) := r in
  if len raws =? 0 then Ok (bcm, itxs, [])
  else
    s ← handleBrokerRawMag clock raws bcm;
    Ok (s.1, itxs, s.2).

(** ** The second half *)

(** [tx2]: the broker pays the recipient. *)
Definition make_tx2 (now : Time) (m : BrokerType2Meg) : Transaction :=
  let ctx := RawTx (T2RawMeg m) in
  (NewTransaction (T2Broker m) (Recipient ctx) (Value ctx) (TxNonce ctx) now)
    <| OriginalSender := Sender ctx |> <| FinalRecipient := Recipient ctx |> <| RawTxHash := TxHash ctx |>.

Definition type2_one (clock : nat → Time) (acc : BrokerCommitteeMod * list Transaction)
    (im : nat * BrokerType2Meg) : BrokerCommitteeMod * list Transaction :=
  let tx2 := make_tx2 (clock im.1) im.2 in
  (acc.1 <| brokerConfirm2Pool ::= <[TxHash tx2 := mkMag2 (TxHash tx2) (T2RawMeg im.2)]> |>, acc.2 ++ [tx2]).

Definition handleBrokerType2Mes (clock : nat → Time) (ms : list BrokerType2Meg) (bcm : BrokerCommitteeMod)
    : go (BrokerCommitteeMod * list packet) :=
  let '(bcm, tx2s) := foldl (type2_one clock) (bcm, []) (imap pair ms) in
  out ← broker_txSending (broker bcm) tx2s;
  Ok (bcm, out).

(** Append a hash to the halves of a raw transaction. *)
Definition add_half (rawHash hash : bytes) (b : Broker) : Broker :=
  b <| RawTx2BrokerTx := <[rawHash := default [] (RawTx2BrokerTx b !! rawHash) ++ [hash]]> (RawTx2BrokerTx b) |>.

Definition confirm1_one (acc : BrokerCommitteeMod * list BrokerType2Meg) (c : Mag1Confirm)
    : go (BrokerCommitteeMod * list BrokerType2Meg) :=
  let '(bcm, ms) := acc in
  match BrokerRawMegs (broker bcm) !! getBrokerRawMagDigest (M1RawMeg c) with
  | None => Ok acc
  | Some _ =>
      a ← first_broker (broker bcm);
      Ok (bcm <| broker ::= add_half (TxHash (RawTx (M1RawMeg c))) (Tx1Hash c) |>, ms ++ [mkType2 (M1RawMeg c) a])
  end.

Definition handleTx1ConfirmMag (clock : nat → Time) (cs : list Mag1Confirm) (bcm : BrokerCommitteeMod)
    : go (BrokerCommitteeMod * list packet) :=
  r ← go_fold confirm1_one (bcm, []) cs;
  handleBrokerType2Mes clock r.2 r.1.

Definition handleTx2ConfirmMag (cs : list Mag2Confirm) (bcm : BrokerCommitteeMod) : BrokerCommitteeMod :=
  foldl (λ bcm c, bcm <| broker ::= add_half (TxHash (RawTx (M2RawMeg c))) (Tx2Hash c) |>) bcm cs.

Definition createConfirm (clock : nat → Time) (txs : list Transaction) (bcm : BrokerCommitteeMod)
    : go (BrokerCommitteeMod * list packet) :=
  let confirm1s := omap (λ tx, brokerConfirm1Pool bcm !! TxHash tx) txs in
  let confirm2s := omap (λ tx, brokerConfirm2Pool bcm !! TxHash tx) txs in
  r ← (if len confirm1s =? 0 then Ok (bcm, []) else handleTx1ConfirmMag clock confirm1s bcm);
  Ok (if len confirm2s =? 0 then r.1 else handleTx2ConfirmMag confirm2s r.1, r.2).

Definition broker_HandleBlockInfo (clock : nat → Time) (b : BlockInfoMsg) (bcm : BrokerCommitteeMod)
    : go (BrokerCommitteeMod * list packet) :=
  if BlockBodyLength b =? 0 then Ok (bcm, [])
  else createConfirm clock (Broker1Txs b ++ Broker2Txs b) bcm.

(** ** Reading the dataset *)
Record broker_feed := mkFeed { bfTotal : Z; bfNow : Z; bfBatch : Z; bfSs : StopSignal }.
#[export] Instance broker_feed_eta : Eta broker_feed := λ f, mkFeed (bfTotal f) (bfNow f) (bfBatch f) (bfSs f).

(** A batch: cross-shard transactions are split, the others sent. *)
Definition broker_batch (clock : nat → Time) (txlist : list Transaction) (bcm : BrokerCommitteeMod)
    : go (BrokerCommitteeMod * list packet) :=
  r ← dealTxByBroker clock txlist bcm;
  let '(bcm, itxs, out) := r in
  out2 ← broker_txSending (broker bcm) itxs;
  Ok (bcm, out ++ out2).

(** [MsgSendingControl] over the rows, each with the time it is read at and the times of its halves. *)
Fixpoint broker_sending_control (f : broker_feed) (txlist : list Transaction) (bcm : BrokerCommitteeMod)
    (rows : list (Time * (nat → Time) * list string)) : go (broker_feed * BrokerCommitteeMod * list packet) :=
  match rows with
  | [] => Ok (f, bcm, [])
  | (now, clock, data) :: rows' =>
      r ← data2tx now data (u64 (bfNow f));
      match r with
      | None => broker_sending_control f txlist bcm rows'
      | Some tx =>
          let txlist := txlist ++ [tx] in
          let f := f <| bfNow ::= Z.add 1 |> in
          s ← (if (len txlist =? bfBatch f) || (bfNow f =? bfTotal f) then
                 r ← broker_batch clock txlist bcm;
                 Ok (f <| bfSs ::= StopGap_Reset |>, @nil Transaction, r.1, r.2)
               else Ok (f, txlist, bcm, []));
          let '(f, txlist, bcm, out) := s in
          if bfNow f =? bfTotal f then Ok (f, bcm, out)
          else
            rest ← broker_sending_control f txlist bcm rows';
            Ok (rest.1, out ++ rest.2)
      end
  end.
End committee.

(** ** The nodes *)
Section node.
Context `{Params, BitSetLib, CryptoLib, !Codec AccountState, !Codec Request, !Codec Transaction,
          !Codec BlockHeader, !Codec Block, BoltLib, TrieLib}.
Abbreviation bnode := (PbftConsensusNode BlockChain).

(** The kind of an executed transaction; [RawTxHash] is nil for a transaction that is not a half. *)
Definition isBroker2Tx (tx : Transaction) : bool :=
  negb (bool_decide (RawTxHash tx = "")) && bool_decide (Recipient tx = FinalRecipient tx).
Definition isBroker1Tx (tx : Transaction) : bool :=
  negb (bool_decide (RawTxHash tx = "")) && bool_decide (Sender tx = OriginalSender tx).

Definition broker_HandleinCommit (p : bnode) (now : Time) (cmsg : Commit)
    : go (BlockChain * list packet * bool) :=
  match requestPool p !! CDigest cmsg with
  | None => Panic "nil pointer dereference"
  | Some r =>
      block ← DecodeB (Content r);
      bc ← AddBlock block (App p);
      if PNodeID p =? u64 (view p) then
        let body := Body block in
        let broker2Txs := List.filter isBroker2Tx body in
        let broker1Txs := List.filter (λ tx, negb (isBroker2Tx tx) && isBroker1Tx tx) body in
        let inner := List.filter (λ tx, negb (isBroker2Tx tx) && negb (isBroker1Tx tx)) body in
        let sii := mkSeqIDinfo (PShardID p) (sequenceID p) in
        let bim := mkBlockInfoMsg (len body) inner 0 (ReqTime r) now (PShardID p) [] [] broker1Txs broker2Txs in
        Ok (bc, ((λ sid, (ip_of p sid 0, MSeqIDinfo sii)) <$> other_shards p)
                ++ [(ip_of p SupervisorShard 0, MBlockInfo bim)], true)
      else Ok (bc, [], true)
  end.

(** The length test of this module is [SeqStartHeight - SeqEndHeight]; past the end of the
    requests is a panic. *)
Definition broker_HandleforSequentialRequest (p : bnode) (som : SendOldMessage)
    : go (BlockChain * list packet * bool) :=
  if negb (i64 (u64 (SOSeqStartHeight som - SOSeqEndHeight som)) =? len (OldRequest som))
  then Ok (App p, [], true)
  else
    bc ← old_loop (λ bc r,
           if bool_decide (RequestType r = BlockRequest) then
             b ← DecodeB (Content r); AddBlock b bc
           else Ok bc) som (App p);
    Ok (bc, [], true).

(** The relay method has the same state, so this is not a default instance. *)
Definition RawBrokerPbftExtraHandleMod : ExtraOpInConsensus BlockChain := {|
  HandleinPropose p now := g ← propose_block (App p) (i32 (PNodeID p)) now; Ok (g.1, [], Some g.2);
  HandleinPrePrepare p ppmsg := ok ← valid_proposal (App p) ppmsg; Ok (App p, ok);
  HandleinPrepare p _ := Ok (App p, true);
  HandleinCommit := broker_HandleinCommit;
  HandleReqestforOldSeq p _ := Ok (App p, true);
  HandleforSequentialRequest := broker_HandleforSequentialRequest |}.

Definition broker_HandleMessageOutsidePBFT (p : bnode) (clock : nat → Time) (m : Msg) : go (bnode * list packet) :=
  match m with
  | MSeqIDinfo sii => Ok (p <| seqIDMap ::= <[SISenderShardID sii := SISenderSeq sii]> |>, [])
  | MInject it => Ok (p <| App ::= SendTx2Pool clock (ITxs it) |>, [])
  | _ => Ok (p, [])
  end.

Definition RawBrokerOutsideModule : OpInterShards BlockChain := {|
  HandleMessageOutsidePBFT := broker_HandleMessageOutsidePBFT |}.

(** The consensus properties hold with these modules too. *)
Lemma broker_outside_laws : @OpInterShardsLaws BlockChain RawBrokerOutsideModule.
Proof.
  split. intros p p' clock m out. cbn. unfold broker_HandleMessageOutsidePBFT.
  destruct m; intros Hs; injection Hs as <- <-; by destruct p.
Qed.

Lemma broker_prepare : @PrepareNoop BlockChain RawBrokerPbftExtraHandleMod.
Proof. by split. Qed.
End node.
