(* ===== verification/BrokerFacts.v ===== *)
(** * Properties of the broker protocol

    The committee turns a cross-shard transaction into two halves, each sent once to the right
    shard, the second only after the first was reported; what the halves do to the balances of
    the two shards depends on where the broker's account lives; the nodes' reports put every
    transaction in one list. *)
From S2P Require Import Prelude Utils Libs Core Messages Storage Chain MerkleProof Overhead.
From S2P Require Import Pbft PbftFacts RelayModule RelayFacts Supervisor SupervisorFacts Broker.

Section committee.
Context `{Params, CryptoLib, !Codec Transaction, !Codec BrokerRawMeg}.
Context (IpNodeTable : gmap Z (gmap Z string)) (fetch : Address → go Z).

(** A cross-shard transaction [ctx] between accounts of the shards [sa] and [sb] that are not
    brokers; [a] is the first broker. *)
Record broker_case (b : Broker) (ctx : Transaction) (a : Address) (sa sb : Z) : Prop := {
  bc_first : first_broker b = Ok a;
  bc_from : fetch (Sender ctx) = Ok sa;
  bc_to : fetch (Recipient ctx) = Ok sb;
  bc_broker : ∃ s, fetch a = Ok s;
  bc_cross : sa ≠ sb;
  bc_plain : IsBroker b (Sender ctx) = false ∧ IsBroker b (Recipient ctx) = false;
}.

Lemma first_is_broker b a : first_broker b = Ok a → IsBroker b a = true.
Proof.
  unfold first_broker, IsBroker. destruct (BrokerAddress b) as [|x l]; [done|]. intros [= ->].
  cbn. by rewrite bool_decide_eq_true_2.
Qed.

Definition tx1_of (now : Time) (ctx : Transaction) (a : Address) : Transaction :=
  make_tx1 now (mkType1 (mkRawMeg ctx a) a).
Definition tx2_of (now : Time) (ctx : Transaction) (a : Address) : Transaction :=
  make_tx2 now (mkType2 (mkRawMeg ctx a) a).

Lemma tx1_fields now ctx a : Sender (tx1_of now ctx a) = Sender ctx ∧ Recipient (tx1_of now ctx a) = a ∧
  Value (tx1_of now ctx a) = Value ctx ∧ Relayed (tx1_of now ctx a) = false ∧ HasBroker (tx1_of now ctx a) = false ∧
  RawTxHash (tx1_of now ctx a) = TxHash ctx ∧ OriginalSender (tx1_of now ctx a) = Sender ctx ∧
  FinalRecipient (tx1_of now ctx a) = Recipient ctx.
Proof. unfold tx1_of, make_tx1, NewTransaction. cbn. done. Qed.

Lemma tx2_fields now ctx a : Sender (tx2_of now ctx a) = a ∧ Recipient (tx2_of now ctx a) = Recipient ctx ∧
  Value (tx2_of now ctx a) = Value ctx ∧ Relayed (tx2_of now ctx a) = false ∧ HasBroker (tx2_of now ctx a) = false ∧
  RawTxHash (tx2_of now ctx a) = TxHash ctx ∧ OriginalSender (tx2_of now ctx a) = Sender ctx ∧
  FinalRecipient (tx2_of now ctx a) = Recipient ctx.
Proof. unfold tx2_of, make_tx2, NewTransaction. cbn. done. Qed.

(** ** A batch *)

(** A transaction that the broker protocol splits: between accounts of different shards that are not
    brokers. *)
Definition shard_in (x : Address) : Z := match fetch x with Ok s => s | Panic _ => 0 end.
Definition crosses (b : Broker) (tx : Transaction) : bool :=
  negb (shard_in (Recipient tx) =? shard_in (Sender tx)) && negb (IsBroker b (Recipient tx)) && negb (IsBroker b (Sender tx)).
Definition fetched (x : Address) : Prop := is_ok (fetch x) = true.
Definition tx_fetched (tx : Transaction) : Prop := fetched (Sender tx) ∧ fetched (Recipient tx).

(** Any other transaction, with its broker flags. *)
Definition flagged (b : Broker) (tx : Transaction) : Transaction :=
  if IsBroker b (Recipient tx) || IsBroker b (Sender tx)
  then tx <| HasBroker := true |> <| SenderIsBroker := IsBroker b (Sender tx) |> else tx.

Lemma fetched_shard x : fetched x → fetch x = Ok (shard_in x).
Proof. unfold fetched, shard_in. by destruct (fetch x). Qed.

(** The transactions of a batch that are split, and the others. *)
Definition split_of (b : Broker) (txs : list Transaction) : list Transaction := List.filter (crosses b) txs.
Definition rest_of (b : Broker) (txs : list Transaction) : list Transaction :=
  flagged b <$> List.filter (λ tx, negb (crosses b tx)) txs.

Lemma deal_fold b a txs acc : first_broker b = Ok a → Forall tx_fetched txs →
  go_fold (deal_one fetch b) acc txs = Ok (acc.1 ++ rest_of b txs, acc.2 ++ ((λ c, mkRawMeg c a) <$> split_of b txs)).
Proof.
  intros Ha Hf. revert acc. induction Hf as [|tx txs [Hs Hr] _ IH]; intros [l1 l2]; cbn [go_fold fst snd].
  { unfold rest_of, split_of. cbn. by rewrite !app_nil_r. }
  unfold deal_one at 2. rewrite (fetched_shard _ Hs), (fetched_shard _ Hr). cbn [mbind go_bind].
  change (negb (shard_in (Recipient tx) =? shard_in (Sender tx)) && negb (IsBroker b (Recipient tx)) && negb (IsBroker b (Sender tx)))
    with (crosses b tx).
  unfold rest_of, split_of. cbn [List.filter]. destruct (crosses b tx); cbn [negb].
  - rewrite Ha. cbn [mbind go_bind]. rewrite IH. cbn. by rewrite <-app_assoc.
  - cbn [mbind go_bind]. rewrite IH. cbn [fst snd]. unfold rest_of. by rewrite <-app_assoc.
Qed.

(** Maps that are filled in a loop. *)
Lemma fill_other {A V} (key : A → string) (val : A → V) l (m : gmap string V) k : k ∉ key <$> l →
  foldl (λ m x, <[key x := val x]> m) m l !! k = m !! k.
Proof.
  revert m. induction l as [|x l IH]; intros m Hk; cbn in *; [done|]. apply not_elem_of_cons in Hk as [Hne Hk].
  rewrite IH by done. by rewrite lookup_insert_ne.
Qed.

Lemma fill_lookup {A V} (key : A → string) (val : A → V) l (m : gmap string V) x : NoDup (key <$> l) → x ∈ l →
  foldl (λ m x, <[key x := val x]> m) m l !! key x = Some (val x).
Proof.
  revert m. induction l as [|y l IH]; intros m Hnd Hx; [by apply not_elem_of_nil in Hx|]. cbn in *.
  apply NoDup_cons in Hnd as [Hy Hnd]. apply elem_of_cons in Hx as [->|Hx]; [|by apply IH].
  rewrite fill_other by done. apply lookup_insert_eq.
Qed.

Lemma fill_some {A V} (key : A → string) (val : A → V) l (m : gmap string V) k : k ∈ key <$> l ∨ is_Some (m !! k) →
  is_Some (foldl (λ m x, <[key x := val x]> m) m l !! k).
Proof.
  revert m. induction l as [|y l IH]; intros m Hk; cbn in *; [destruct Hk as [Hk|Hk]; [by apply not_elem_of_nil in Hk|done]|].
  apply IH. rewrite elem_of_cons in Hk. rewrite lookup_insert_is_Some'. naive_solver.
Qed.

(** ** The first halves *)
Lemma type1_fold (clock : nat → Time) l bcm acc :
  foldl (type1_one clock) (bcm, acc) l =
    (bcm <| brokerConfirm1Pool ::= λ P, foldl (λ P im, <[TxHash (make_tx1 (clock im.1) im.2) :=
        mkMag1 (TxHash (make_tx1 (clock im.1) im.2)) (T1RawMeg im.2)]> P) P l |>,
     acc ++ ((λ im : nat * BrokerType1Meg, make_tx1 (clock im.1) im.2) <$> l)).
Proof.
  revert bcm acc. induction l as [|im l IH]; intros [br p1 p2] acc; cbn [foldl]; [by rewrite app_nil_r|].
  unfold type1_one at 2. rewrite IH. cbn. by rewrite <-app_assoc.
Qed.

Lemma type2_fold (clock : nat → Time) l bcm acc :
  foldl (type2_one clock) (bcm, acc) l =
    (bcm <| brokerConfirm2Pool ::= λ P, foldl (λ P im, <[TxHash (make_tx2 (clock im.1) im.2) :=
        mkMag2 (TxHash (make_tx2 (clock im.1) im.2)) (T2RawMeg im.2)]> P) P l |>,
     acc ++ ((λ im : nat * BrokerType2Meg, make_tx2 (clock im.1) im.2) <$> l)).
Proof.
  revert bcm acc. induction l as [|im l IH]; intros [br p1 p2] acc; cbn [foldl]; [by rewrite app_nil_r|].
  unfold type2_one at 2. rewrite IH. cbn. by rewrite <-app_assoc.
Qed.

Lemma raws_fold raws bcm :
  foldl (λ bcm m, bcm <| broker ::= λ b, b <| BrokerRawMegs ::= <[getBrokerRawMagDigest m := m]> |> |>) bcm raws =
    bcm <| broker ::= λ b, b <| BrokerRawMegs ::= λ M, foldl (λ M m, <[getBrokerRawMagDigest m := m]> M) M raws |> |>.
Proof. revert bcm. induction raws as [|m raws IH]; intros [[M l R] p1 p2]; cbn [foldl]; [done|]. by rewrite IH. Qed.

Definition first_halves (clock : nat → Time) (a : Address) (cs : list Transaction) : list Transaction :=
  imap (λ i c, tx1_of (clock i) c a) cs.
Definition second_halves (clock : nat → Time) (a : Address) (cs : list Transaction) : list Transaction :=
  imap (λ i c, tx2_of (clock i) c a) cs.

(** The committee knows the first half [tx] of [ctx]. *)
Record knows_first (bcm : BrokerCommitteeMod) (a : Address) (ct : Transaction * Transaction) : Prop := {
  kf_pool : brokerConfirm1Pool bcm !! TxHash ct.2 = Some (mkMag1 (TxHash ct.2) (mkRawMeg ct.1 a));
  kf_other : brokerConfirm2Pool bcm !! TxHash ct.2 = None;
  kf_raw : is_Some (BrokerRawMegs (broker bcm) !! getBrokerRawMagDigest (mkRawMeg ct.1 a));
}.

Definition goes_to (b : Broker) (tx : Transaction) : Z :=
  if IsBroker b (Sender tx) then shard_in (Recipient tx) else shard_in (Sender tx).

Lemma send_list b txs : 0 < InjectSpeed → Forall tx_fetched txs →
  ∃ out, broker_txSending IpNodeTable fetch b txs = Ok out ∧
    ∀ sid, 0 ≤ sid < ShardNum → injected sid out = List.filter (λ tx, goes_to b tx =? sid) txs.
Proof.
  intros Hsp Hf.
  assert (∀ tx, tx_fetched tx → broker_route fetch b tx = Ok (goes_to b tx)) as Hroute.
  { intros tx [Hs Hr]. unfold broker_route, goes_to. rewrite (fetched_shard _ Hs), (fetched_shard _ Hr). cbn [mbind go_bind].
    by destruct (IsBroker b (Sender tx)). }
  destruct (tx_sending_spec IpNodeTable (broker_route fetch b) txs 0 ∅ Hsp) as (out & E & _ & Ho); [lia|done|..].
  { intros sid. rewrite lookup_empty. pose proof (Z.mod_pos_bound (0 - 1) InjectSpeed Hsp). unfold len. cbn. lia. }
  { eapply Forall_impl; [exact Hf|]. intros tx Ht. eexists. by apply Hroute. }
  exists out. split; [exact E|]. intros sid Hs. rewrite Ho by done. rewrite lookup_empty. cbn [default app].
  apply filter_ext_in. intros tx Hin. unfold routed_to. rewrite Hroute; [done|]. rewrite Forall_forall in Hf. by apply Hf, list_elem_of_In.
Qed.

Lemma first_halves_fmap clock a cs :
  (λ im : nat * BrokerType1Meg, make_tx1 (clock im.1) im.2) <$>
    imap pair ((λ m, mkType1 m (RawBroker m)) <$> ((λ c, mkRawMeg c a) <$> cs)) = first_halves clock a cs.
Proof. unfold first_halves. rewrite !imap_fmap, fmap_imap. by apply imap_ext. Qed.

Lemma second_halves_fmap clock a cs :
  (λ im : nat * BrokerType2Meg, make_tx2 (clock im.1) im.2) <$>
    imap pair ((λ c, mkType2 (mkRawMeg c a) a) <$> cs) = second_halves clock a cs.
Proof. unfold second_halves. rewrite imap_fmap, fmap_imap. by apply imap_ext. Qed.

Lemma halves_fetched (f : nat → Transaction → Transaction) a cs : fetched a → Forall tx_fetched cs →
  (∀ i c, (Sender (f i c) = Sender c ∧ Recipient (f i c) = a) ∨ (Sender (f i c) = a ∧ Recipient (f i c) = Recipient c)) →
  Forall tx_fetched (imap f cs).
Proof.
  intros Ha Hc Hf. apply Forall_forall. intros tx (i & c & -> & Hi)%elem_of_lookup_imap.
  rewrite Forall_forall in Hc. destruct (Hc c) as [H1 H2]; [by eapply list_elem_of_lookup_2|].
  unfold tx_fetched. by destruct (Hf i c) as [[-> ->]|[-> ->]].
Qed.

Lemma zip_imap {A B} (f : nat → A → B) l x : x ∈ zip l (imap f l) → ∃ i, l !! i = Some x.1 ∧ x.2 = f i x.1.
Proof.
  intros (i & Hi)%list_elem_of_lookup. apply lookup_zip_with_Some in Hi as (u & v & -> & Hu & Hv).
  rewrite list_lookup_imap, Hu in Hv. injection Hv as <-. by exists i.
Qed.

(** The committee keeps what it knows of earlier transactions. *)
Record after_first (bcm bcm1 : BrokerCommitteeMod) : Prop := {
  af_halves : RawTx2BrokerTx (broker bcm1) = RawTx2BrokerTx (broker bcm);
  af_addrs : BrokerAddress (broker bcm1) = BrokerAddress (broker bcm);
  af_pool : brokerConfirm2Pool bcm1 = brokerConfirm2Pool bcm;
}.

Lemma raw_mags_spec clock a cs bcm :
  0 < InjectSpeed → fetched a → Forall tx_fetched cs → NoDup (TxHash <$> first_halves clock a cs) →
  Forall (λ tx, brokerConfirm2Pool bcm !! TxHash tx = None) (first_halves clock a cs) →
  ∃ bcm1 out, handleBrokerRawMag IpNodeTable fetch clock ((λ c, mkRawMeg c a) <$> cs) bcm = Ok (bcm1, out) ∧
    (∀ sid, 0 ≤ sid < ShardNum → injected sid out = List.filter (λ tx, goes_to (broker bcm) tx =? sid) (first_halves clock a cs)) ∧
    Forall (knows_first bcm1 a) (zip cs (first_halves clock a cs)) ∧ after_first bcm bcm1.
Proof.
  intros Hsp Ha Hc Hnd H2. unfold handleBrokerRawMag, handleBrokerType1Mes. rewrite raws_fold, type1_fold, first_halves_fmap. cbn [app].
  set (bcm0 := bcm <| broker ::= _ |>). set (bcm1 := bcm0 <| brokerConfirm1Pool ::= _ |>).
  destruct (send_list (broker bcm1) (first_halves clock a cs) Hsp) as (out & -> & Ho).
  { apply (halves_fetched _ a); try done. intros i c. left. by destruct (tx1_fields (clock i) c a) as (? & ? & _). }
  cbn [mbind go_bind]. exists bcm1, out. split; [done|]. split; [exact Ho|]. split; [|by split].
  apply Forall_forall. intros [c tx] Hin. assert (tx ∈ first_halves clock a cs) as Htx by (eapply elem_of_zip_r; exact Hin).
  destruct (zip_imap _ _ _ Hin) as (i & Hi & E). cbn [fst snd] in *. split; cbn [fst snd].
  - subst tx. set (im := (i, mkType1 (mkRawMeg c a) a)).
    change (TxHash (tx1_of (clock i) c a)) with (TxHash (make_tx1 (clock im.1) im.2)) at 1.
    cbn [brokerConfirm1Pool upd bcm1 bcm0].
    apply (fill_lookup (λ im : nat * BrokerType1Meg, TxHash (make_tx1 (clock im.1) im.2))
      (λ im, mkMag1 (TxHash (make_tx1 (clock im.1) im.2)) (T1RawMeg im.2))).
    + rewrite <-first_halves_fmap, <-list_fmap_compose in Hnd. exact Hnd.
    + rewrite !imap_fmap. apply elem_of_lookup_imap. exists i, c. done.
  - rewrite Forall_forall in H2. by apply H2.
  - cbn. apply fill_some. left. rewrite <-list_fmap_compose. apply list_elem_of_fmap. exists c. split; [done|]. by eapply list_elem_of_lookup_2.
Qed.

(** ** The reports *)

(** The hashes that are recorded for the transaction with hash [h]. *)
Definition halves_for (b : Broker) (h : bytes) : list bytes := default [] (RawTx2BrokerTx b !! h).
Definition hashes_of (l : list (Transaction * Transaction)) (h : bytes) : list bytes :=
  (λ ct : Transaction * Transaction, TxHash ct.2) <$> List.filter (λ ct : Transaction * Transaction, bool_decide (TxHash ct.1 = h)) l.

Definition add_halves (l : list (Transaction * Transaction)) (b : Broker) : Broker :=
  foldl (λ b (ct : Transaction * Transaction), add_half (TxHash ct.1) (TxHash ct.2) b) b l.

Lemma add_halves_for l b h : halves_for (add_halves l b) h = halves_for b h ++ hashes_of l h.
Proof.
  revert b. induction l as [|ct l IH]; intros b; unfold add_halves, hashes_of; cbn [foldl List.filter]; [cbn; by rewrite app_nil_r|].
  change (foldl _ ?b l) with (add_halves l b). rewrite IH. unfold halves_for at 1, add_half. cbn [RawTx2BrokerTx upd].
  rewrite lookup_insert. case_bool_decide as E.
  - rewrite decide_True by done. rewrite <-E. cbn. by rewrite <-app_assoc.
  - by rewrite decide_False.
Qed.

Lemma add_halves_fields l b : BrokerRawMegs (add_halves l b) = BrokerRawMegs b ∧ BrokerAddress (add_halves l b) = BrokerAddress b.
Proof. revert b. induction l as [|ct l IH]; intros b; [done|]. exact (IH (add_half (TxHash ct.1) (TxHash ct.2) b)). Qed.

Definition mag1 (a : Address) (ct : Transaction * Transaction) : Mag1Confirm := mkMag1 (TxHash ct.2) (mkRawMeg ct.1 a).

Lemma confirm1_fold a l bcm ms : first_broker (broker bcm) = Ok a → Forall (knows_first bcm a) l →
  go_fold confirm1_one (bcm, ms) (mag1 a <$> l) =
    Ok (bcm <| broker ::= add_halves l |>, ms ++ ((λ c, mkType2 (mkRawMeg c a) a) <$> l.*1)).
Proof.
  revert bcm ms. induction l as [|ct l IH]; intros bcm ms Ha Hk; cbn [fmap list_fmap go_fold].
  { rewrite app_nil_r. by destruct bcm as [[] ? ?]. }
  apply Forall_cons in Hk as [[_ _ [raw Hraw]] Hk]. unfold confirm1_one at 2. cbn [mag1 M1RawMeg Tx1Hash RawTx]. rewrite Hraw, Ha.
  cbn [mbind go_bind]. rewrite IH.
  - cbn. rewrite <-app_assoc. by destruct bcm as [[] ? ?].
  - exact Ha.
  - eapply Forall_impl; [exact Hk|]. intros x [k1 k2 k3]. by split.
Qed.

Lemma known_confirms bcm a l : Forall (knows_first bcm a) l →
  omap (λ tx, brokerConfirm1Pool bcm !! TxHash tx) l.*2 = mag1 a <$> l ∧
  omap (λ tx, brokerConfirm2Pool bcm !! TxHash tx) l.*2 = [].
Proof.
  induction 1 as [|ct l [k1 k2 _] _ [IH1 IH2]]; [done|]. csimpl. rewrite k1, k2. by rewrite IH1, IH2.
Qed.

(** A block with first halves is reported. *)
Lemma report_firsts clock rep a l bcm :
  0 < InjectSpeed → first_broker (broker bcm) = Ok a → fetched a → Forall tx_fetched l.*1 →
  Forall (knows_first bcm a) l → BlockBodyLength rep ≠ 0 → Broker1Txs rep ++ Broker2Txs rep = l.*2 →
  ∃ bcm2 out, broker_HandleBlockInfo IpNodeTable fetch clock rep bcm = Ok (bcm2, out) ∧
    (∀ sid, 0 ≤ sid < ShardNum → injected sid out = List.filter (λ tx, shard_in (Recipient tx) =? sid) (second_halves clock a l.*1)) ∧
    (∀ h, halves_for (broker bcm2) h = halves_for (broker bcm) h ++ hashes_of l h) ∧
    brokerConfirm1Pool bcm2 = brokerConfirm1Pool bcm ∧
    (NoDup (TxHash <$> second_halves clock a l.*1) → ∀ c tx, (c, tx) ∈ zip l.*1 (second_halves clock a l.*1) →
      brokerConfirm2Pool bcm2 !! TxHash tx = Some (mkMag2 (TxHash tx) (mkRawMeg c a))).
Proof.
  intros Hsp Ha Hfa Hf Hk Hlen Hb. unfold broker_HandleBlockInfo. rewrite (proj2 (Z.eqb_neq _ _) Hlen), Hb.
  unfold createConfirm. destruct (known_confirms bcm a l Hk) as [-> ->]. cbn [len length Z.of_nat Z.eqb].
  destruct l as [|ct0 l0].
  { exists bcm, []. cbn. split; [done|]. split; [done|]. split; [intros h; by rewrite app_nil_r|]. split; [done|].
    intros _ c tx Hin. by apply not_elem_of_nil in Hin. }
  set (l := ct0 :: l0) in *. assert ((len (mag1 a <$> l) =? 0) = false) as -> by done.
  unfold handleTx1ConfirmMag. rewrite (confirm1_fold a l bcm [] Ha Hk). cbn [mbind go_bind fst snd app].
  unfold handleBrokerType2Mes. rewrite type2_fold, second_halves_fmap. cbn [app].
  set (bcm0 := bcm <| broker ::= _ |>). set (bcm2 := bcm0 <| brokerConfirm2Pool ::= _ |>).
  destruct (send_list (broker bcm2) (second_halves clock a l.*1) Hsp) as (out & -> & Ho).
  { apply (halves_fetched _ a); try done. intros i c. right. by destruct (tx2_fields (clock i) c a) as (? & ? & _). }
  cbn [mbind go_bind fst snd]. exists bcm2, out. split; [done|]. split; [|split; [|split; [done|]]].
  - intros sid Hs. rewrite Ho by done. apply filter_ext_in. intros tx Hin. unfold goes_to.
    apply list_elem_of_In, elem_of_lookup_imap in Hin as (i & c & -> & _). destruct (tx2_fields (clock i) c a) as (-> & _).
    assert (IsBroker (broker bcm2) a = true) as ->; [|done]. unfold IsBroker. cbn [broker upd bcm2 bcm0].
    rewrite (proj2 (add_halves_fields l (broker bcm))). exact (first_is_broker _ _ Ha).
  - intros h. apply add_halves_for.
  - intros Hnd c tx Hin. destruct (zip_imap _ _ _ Hin) as (i & Hi & E). cbn [fst snd] in *. subst tx.
    set (im := (i, mkType2 (mkRawMeg c a) a)).
    apply (fill_lookup (λ im : nat * BrokerType2Meg, TxHash (make_tx2 (clock im.1) im.2))
      (λ im, mkMag2 (TxHash (make_tx2 (clock im.1) im.2)) (T2RawMeg im.2)) _ _ im).
    + rewrite <-second_halves_fmap, <-list_fmap_compose in Hnd. exact Hnd.
    + rewrite imap_fmap. apply elem_of_lookup_imap. exists i, c. done.
Qed.

(** A block with second halves is reported. *)
Lemma report_seconds clock rep a l bcm :
  Forall (λ ct : Transaction * Transaction, brokerConfirm1Pool bcm !! TxHash ct.2 = None ∧
            brokerConfirm2Pool bcm !! TxHash ct.2 = Some (mkMag2 (TxHash ct.2) (mkRawMeg ct.1 a))) l →
  BlockBodyLength rep ≠ 0 → Broker1Txs rep ++ Broker2Txs rep = l.*2 →
  ∃ bcm3, broker_HandleBlockInfo IpNodeTable fetch clock rep bcm = Ok (bcm3, []) ∧
    ∀ h, halves_for (broker bcm3) h = halves_for (broker bcm) h ++ hashes_of l h.
Proof.
  intros Hl Hlen Hb. unfold broker_HandleBlockInfo. rewrite (proj2 (Z.eqb_neq _ _) Hlen), Hb. unfold createConfirm.
  assert (omap (λ tx, brokerConfirm1Pool bcm !! TxHash tx) l.*2 = [] ∧
    omap (λ tx, brokerConfirm2Pool bcm !! TxHash tx) l.*2 = (λ ct : Transaction * Transaction, mkMag2 (TxHash ct.2) (mkRawMeg ct.1 a)) <$> l)
    as [-> ->].
  { clear -Hl. induction Hl as [|ct l [k1 k2] _ [IH1 IH2]]; [done|]. csimpl. rewrite k1, k2. by rewrite IH1, IH2. }
  cbn [len length Z.of_nat Z.eqb mbind go_bind fst snd].
  assert (∀ cs bcm, handleTx2ConfirmMag ((λ ct : Transaction * Transaction, mkMag2 (TxHash ct.2) (mkRawMeg ct.1 a)) <$> cs) bcm =
    bcm <| broker ::= add_halves cs |>) as Hfold.
  { clear. induction cs as [|ct cs IH]; intros bcm; [by destruct bcm as [[] ? ?]|]. cbn. unfold handleTx2ConfirmMag in IH. rewrite IH. done. }
  eexists. split; [reflexivity|]. intros h. destruct (len _ =? 0) eqn:E.
  - destruct l; [|done]. cbn. by rewrite app_nil_r.
  - rewrite Hfold. apply add_halves_for.
Qed.

(** ** The protocol *)
Lemma Forall2_imap_self {A B} (R : A → B → Prop) (f : nat → A → B) l : (∀ i x, l !! i = Some x → R x (f i x)) → Forall2 R l (imap f l).
Proof.
  revert f. induction l as [|x l IH]; intros f Hf; [constructor|]. rewrite imap_cons. constructor; [by apply Hf|].
  apply IH. intros i y Hi. by apply Hf.
Qed.

Lemma goes_to_addrs b b' tx : BrokerAddress b' = BrokerAddress b → goes_to b' tx = goes_to b tx.
Proof. intros E. unfold goes_to, IsBroker. by rewrite E. Qed.

Lemma split_fetched b txs : Forall tx_fetched txs → Forall tx_fetched (split_of b txs) ∧ Forall tx_fetched (rest_of b txs).
Proof.
  intros Hf. rewrite Forall_forall in Hf. split; apply Forall_forall; intros tx.
  - intros [Hin _]%list_elem_of_In%filter_In. by apply Hf, list_elem_of_In.
  - intros (tx' & -> & Hin)%list_elem_of_fmap. apply list_elem_of_In, filter_In in Hin as [Hin _].
    destruct (Hf tx' (proj2 (list_elem_of_In _ _) Hin)) as [H1 H2]. unfold flagged. by destruct (_ || _).
Qed.

Lemma deal_spec clock a txs bcm :
  0 < InjectSpeed → first_broker (broker bcm) = Ok a → fetched a → Forall tx_fetched txs →
  let cs := split_of (broker bcm) txs in
  NoDup (TxHash <$> first_halves clock a cs) →
  Forall (λ tx, brokerConfirm2Pool bcm !! TxHash tx = None) (first_halves clock a cs) →
  ∃ bcm1 out, dealTxByBroker IpNodeTable fetch clock txs bcm = Ok (bcm1, rest_of (broker bcm) txs, out) ∧
    (∀ sid, 0 ≤ sid < ShardNum → injected sid out = List.filter (λ tx, shard_in (Sender tx) =? sid) (first_halves clock a cs)) ∧
    Forall (knows_first bcm1 a) (zip cs (first_halves clock a cs)) ∧ after_first bcm bcm1.
Proof.
  intros Hsp Ha Hfa Hf cs Hnd H2. unfold dealTxByBroker. rewrite (deal_fold _ a) by done. cbn [mbind go_bind fst snd app]. fold cs.
  destruct (raw_mags_spec clock a cs bcm Hsp Hfa (proj1 (split_fetched _ _ Hf)) Hnd H2) as (bcm1 & out & E & Ho & Hk & Haf).
  destruct (len _ =? 0) eqn:El.
  - unfold len in El. rewrite length_fmap in El. apply Z.eqb_eq in El. assert (cs = []) as -> by (apply nil_length_inv; lia).
    exists bcm, []. by repeat split.
  - rewrite E. cbn [mbind go_bind fst snd]. exists bcm1, out. split; [done|]. split; [|done]. intros sid Hs. rewrite Ho by done.
    apply filter_ext_in. intros tx (i & c & -> & Hi)%list_elem_of_In%elem_of_lookup_imap. unfold goes_to.
    destruct (tx1_fields (clock i) c a) as (-> & _). apply list_elem_of_lookup_2, list_elem_of_In, filter_In in Hi as [_ Hc].
    unfold crosses in Hc. by apply andb_true_iff in Hc as [_ ->%negb_true_iff].
Qed.

End committee.

Section ledger.
Context `{Params, BitSetLib, CryptoLib, !Codec AccountState, !Codec Request, !Codec Transaction,
          !Codec BlockHeader, !Codec Block, BoltLib, TrieLib}.
Context `{!BitSetLaws, !CryptoLaws, !CodecLaws AccountState, !CodecLaws BlockHeader,
          !CodecLaws Block, !BoltLaws, !TrieLaws}.

Lemma default_shard (bc : BlockChain) x s : PartitionMap bc = ∅ → fetchModifiedMap x = Ok s →
  placed bc x ∧ shard_of bc x = s.
Proof.
  unfold placed, shard_of, Get_PartitionMap, fetchModifiedMap. intros -> Hs. rewrite lookup_empty.
  by rewrite Hs.
Qed.

(** The total after a block with one transaction. *)
Lemma one_tx_total (bc bc' : BlockChain) m tx addrs db rt :
  state_ok bc m → txs_placed bc [tx] → GetUpdateStatusTrie bc [tx] = Ok (db, rt) →
  triedb bc' = db → StateRoot (Header (CurrentBlock bc')) = rt →
  NoDup addrs → Sender tx ∈ addrs → Recipient tx ∈ addrs →
  ∃ old new, FetchAccounts bc addrs = Ok old ∧ FetchAccounts bc' addrs = Ok new ∧
    sumZ Balance new = sumZ Balance old + net_tx (shard_of bc) (ShardID (Config bc)) (bal m) tx.
Proof.
  intros Hst Hpl E Hdb Hrt Hnd Hs Hr.
  destruct (fetch_total bc m addrs Hst) as (old & Eo & So).
  destruct (exec_total bc m [tx] addrs db rt Hst Hpl E bc' Hdb Hrt) as (new & En & Sn).
  exists old, new. split; [exact Eo|]. split; [exact En|]. rewrite Sn, So, balance_exec_sum; [|done|].
  - cbn. lia.
  - by apply Forall_singleton.
Qed.

(** The net value of a transaction that is neither relayed nor marked with a broker. *)
Lemma plain_net (shard : Address → Z) sid bal_ tx : Relayed tx = false → HasBroker tx = false →
  net_tx shard sid bal_ tx =
    if (shard (Sender tx) =? sid) && bool_decide (bal_ (Sender tx) < Value tx) then 0
    else (if shard (Recipient tx) =? sid then Value tx else 0) - (if shard (Sender tx) =? sid then Value tx else 0).
Proof. intros Hr Hb. unfold net_tx, rejected, debits, credits. rewrite Hr, Hb. by rewrite !orb_false_r. Qed.

(** C19: what the broker protocol does to the money.  The first half is executed by the sender's
    shard [A], the second by the recipient's shard [B], as the committee sends them.  The total
    of the two shards stays the same for a sender that can pay only when the broker's account
    belongs to neither shard: if it belongs to [A] the value is created, if it belongs to [B] it
    is destroyed.  And if the sender cannot pay, the recipient is still paid (unless the broker's
    account is in [B] and pays). *)
Theorem broker_money (b : Broker) (A B A' B' : BlockChain) (mA mB : ledger) (ctx : Transaction) (a : Address)
    (sa sb h : Z) (now1 now2 : Time) dbA rtA dbB rtB :
  broker_case fetchModifiedMap b ctx a sa sb → fetchModifiedMap a = Ok h →
  state_ok A mA → state_ok B mB → PartitionMap A = ∅ → PartitionMap B = ∅ →
  ShardID (Config A) = sa → ShardID (Config B) = sb →
  GetUpdateStatusTrie A [tx1_of now1 ctx a] = Ok (dbA, rtA) →
  triedb A' = dbA → StateRoot (Header (CurrentBlock A')) = rtA →
  GetUpdateStatusTrie B [tx2_of now2 ctx a] = Ok (dbB, rtB) →
  triedb B' = dbB → StateRoot (Header (CurrentBlock B')) = rtB →
  let addrs := [Sender ctx; Recipient ctx; a] in
  let pays := bool_decide (Value ctx ≤ bal mA (Sender ctx)) in
  ∃ oA nA oB nB, FetchAccounts A addrs = Ok oA ∧ FetchAccounts A' addrs = Ok nA ∧
    FetchAccounts B addrs = Ok oB ∧ FetchAccounts B' addrs = Ok nB ∧
    let change := sumZ Balance nA + sumZ Balance nB - (sumZ Balance oA + sumZ Balance oB) in
    (pays = true → h ≠ sa → h ≠ sb → change = 0) ∧
    (pays = true → h = sa → change = Value ctx) ∧
    (pays = true → h = sb → change = - Value ctx) ∧
    (pays = false → change = if h =? sb then 0 else Value ctx).
Proof.
  intros Hc Hh HA HB HpA HpB HsA HsB EA HA1 HA2 EB HB1 HB2 addrs pays.
  destruct (tx1_fields now1 ctx a) as (F1 & F2 & F3 & F4 & F5 & _).
  destruct (tx2_fields now2 ctx a) as (G1 & G2 & G3 & G4 & G5 & _).
  pose proof (first_is_broker _ _ (bc_first _ _ _ _ _ _ Hc)) as Hia.
  pose proof (bc_plain _ _ _ _ _ _ Hc) as [HiS HiR]. pose proof (bc_cross _ _ _ _ _ _ Hc) as Hne.
  assert (NoDup addrs) as Hnd.
  { unfold addrs. apply NoDup_cons. split; [|apply NoDup_cons; split; [|apply NoDup_singleton]].
    - rewrite !elem_of_cons, elem_of_nil. intros [He|[He|[]]]; [|congruence].
      pose proof (bc_from _ _ _ _ _ _ Hc). pose proof (bc_to _ _ _ _ _ _ Hc). congruence.
    - rewrite list_elem_of_singleton. congruence. }
  destruct (default_shard A _ _ HpA (bc_from _ _ _ _ _ _ Hc)) as [PS SS].
  destruct (default_shard A _ _ HpA Hh) as [Pa Sa]. destruct (default_shard B _ _ HpB Hh) as [Pb Sb].
  destruct (default_shard B _ _ HpB (bc_to _ _ _ _ _ _ Hc)) as [PR SR].
  destruct (one_tx_total A A' mA (tx1_of now1 ctx a) addrs dbA rtA) as (oA & nA & EoA & EnA & TA); try done.
  { apply Forall_singleton. rewrite F1, F2. done. }
  { rewrite F1. apply list_elem_of_here. }
  { rewrite F2. unfold addrs. rewrite !elem_of_cons. auto. }
  destruct (one_tx_total B B' mB (tx2_of now2 ctx a) addrs dbB rtB) as (oB & nB & EoB & EnB & TB); try done.
  { apply Forall_singleton. rewrite G1, G2. done. }
  { rewrite G1. unfold addrs. rewrite !elem_of_cons. auto. }
  { rewrite G2. unfold addrs. rewrite !elem_of_cons. auto. }
  exists oA, nA, oB, nB. split; [done|]. split; [done|]. split; [done|]. split; [done|].
  rewrite plain_net in TA, TB by done.
  rewrite F1, F2, F3, SS, Sa, HsA, Z.eqb_refl in TA. rewrite G1, G2, G3, SR, Sb, HsB, Z.eqb_refl in TB.
  clear EA EB EoA EnA EoB EnB. subst pays.
  cbv zeta.
  destruct (h =? sa) eqn:E1, (h =? sb) eqn:E2; zbool; cbn [andb] in TA, TB;
    repeat case_bool_decide; repeat split; intros; (done || lia).
Qed.
End ledger.

Section node.
Context `{Params, BitSetLib, CryptoLib, !Codec AccountState, !Codec Request, !Codec Transaction,
          !Codec BlockHeader, !Codec Block, BoltLib, TrieLib}.
Abbreviation bnode := (PbftConsensusNode BlockChain).
#[local] Existing Instance RawBrokerPbftExtraHandleMod.

(** The three lists of a report partition the body. *)
Lemma split_three {A} (f g : A → bool) (l : list A) :
  List.filter (λ x, negb (f x) && negb (g x)) l ++ List.filter (λ x, negb (f x) && g x) l ++ List.filter f l ≡ₚ l.
Proof.
  induction l as [|x l IH]; cbn; [done|]. destruct (f x), (g x); cbn; rewrite <-IH at 4;
    [solve_Permutation..].
Qed.

(** The halves are told apart by the node as the committee made them. *)
Lemma tx1_is_first now ctx a : TxHash ctx ≠ "" → a ≠ Recipient ctx →
  isBroker2Tx (tx1_of now ctx a) = false ∧ isBroker1Tx (tx1_of now ctx a) = true.
Proof.
  intros Hh Ha. unfold isBroker2Tx, isBroker1Tx.
  destruct (tx1_fields now ctx a) as (-> & -> & _ & _ & _ & -> & -> & ->).
  by rewrite (bool_decide_eq_false_2 (_ = "")), (bool_decide_eq_false_2 (a = _)), bool_decide_eq_true_2.
Qed.

Lemma tx2_is_second now ctx a : TxHash ctx ≠ "" → isBroker2Tx (tx2_of now ctx a) = true.
Proof.
  intros Hh. unfold isBroker2Tx.
  destruct (tx2_fields now ctx a) as (_ & -> & _ & _ & _ & -> & _ & ->).
  by rewrite (bool_decide_eq_false_2 (_ = "")), bool_decide_eq_true_2.
Qed.

(** The leader's commit of a block of the request pool. *)
Lemma broker_commit_leader (p : bnode) now cmsg r b bc :
  requestPool p !! CDigest cmsg = Some r → DecodeB (Content r) = Ok b → AddBlock b (App p) = Ok bc →
  PNodeID p = u64 (view p) →
  ∃ out rep, broker_HandleinCommit p now cmsg = Ok (bc, out ++ [(ip_of p SupervisorShard 0, MBlockInfo rep)], true) ∧
    BlockBodyLength rep = len (Body b) ∧
    Broker2Txs rep = List.filter isBroker2Tx (Body b) ∧
    Broker1Txs rep = List.filter (λ tx, negb (isBroker2Tx tx) && isBroker1Tx tx) (Body b) ∧
    InnerShardTxs rep = List.filter (λ tx, negb (isBroker2Tx tx) && negb (isBroker1Tx tx)) (Body b).
Proof.
  intros Hr Hd Ha Hl. unfold broker_HandleinCommit. rewrite Hr, Hd. cbn [mbind go_bind]. rewrite Ha.
  cbn [mbind go_bind]. rewrite Hl, Z.eqb_refl. eexists _, _. split; [reflexivity|]. done.
Qed.

(** The leader's report.  When the leader of a shard commits a block, it adds it to its
    chain and reports every transaction of the body in exactly one of the three lists; the first
    half of a transaction (whose recipient is not the broker) is reported as a first half and the
    second half as a second half, which is what the committee's pools wait for. *)
Theorem broker_report (p : bnode) (now : Time) (cmsg : Commit) (r : Request) (b : Block) (bc : BlockChain) :
  requestPool p !! CDigest cmsg = Some r → DecodeB (Content r) = Ok b → AddBlock b (App p) = Ok bc →
  PNodeID p = u64 (view p) →
  ∃ out rep, broker_HandleinCommit p now cmsg = Ok (bc, out ++ [(ip_of p SupervisorShard 0, MBlockInfo rep)], true) ∧
    BlockBodyLength rep = len (Body b) ∧
    InnerShardTxs rep ++ Broker1Txs rep ++ Broker2Txs rep ≡ₚ Body b ∧
    ∀ ctx a t, TxHash ctx ≠ "" →
      (a ≠ Recipient ctx → tx1_of t ctx a ∈ Body b → tx1_of t ctx a ∈ Broker1Txs rep) ∧
      (tx2_of t ctx a ∈ Body b → tx2_of t ctx a ∈ Broker2Txs rep).
Proof.
  intros Hr Hd Ha Hl. destruct (broker_commit_leader p now cmsg r b bc Hr Hd Ha Hl) as (out & rep & E & Hlen & Eb & Ea & Ei).
  exists out, rep. split; [exact E|]. split; [exact Hlen|]. rewrite Ea, Eb, Ei. split; [apply split_three|].
  intros ctx a t Hh. rewrite !list_elem_of_In, !filter_In. split.
  - intros Hne Hin. destruct (tx1_is_first t ctx a Hh Hne) as [-> ->]. done.
  - intros Hin. by rewrite tx2_is_second.
Qed.

(** ** Catching up *)
Lemma learn_old_height b rs (p : bnode) h : (∀ ir, ir ∈ rs → u64 (Z.of_nat ir.1 + b) ≠ h) →
  height2Digest (foldl (learn_old b) p rs) !! h = height2Digest p !! h.
Proof.
  revert p. induction rs as [|ir rs IH]; intros p Hn; cbn [foldl]; [done|].
  rewrite IH; [|intros; apply Hn; set_solver]. cbn. rewrite lookup_insert_ne; [done|]. apply Hn. set_solver.
Qed.

Lemma learn_old_replies b rs (p : bnode) ir : ir ∈ rs → getDigest ir.2 ∈ isReply (foldl (learn_old b) p rs).
Proof.
  revert p. induction rs as [|x rs IH]; intros p; cbn [foldl]; [by intros ?%elem_of_nil|].
  intros [->|Hin]%elem_of_cons; [|by apply IH].
  destruct (learn_old_fields b rs (learn_old b p x)) as (_ & _ & Hs & _). apply Hs. cbn. set_solver +.
Qed.

Lemma broker_sequential_skips (p : bnode) som :
  0 ≤ SOSeqStartHeight som ≤ SOSeqEndHeight som → SOSeqEndHeight som < 2 ^ 63 → OldRequest som ≠ [] →
  broker_HandleforSequentialRequest p som = Ok (App p, [], true).
Proof.
  intros Hse He Hne. unfold broker_HandleforSequentialRequest.
  assert (i64 (u64 (SOSeqStartHeight som - SOSeqEndHeight som)) = SOSeqStartHeight som - SOSeqEndHeight som) as ->.
  { apply i64_u64. lia. }
  destruct (OldRequest som) as [|r rs]; [done|]. unfold len. cbn [length].
  rewrite (proj2 (Z.eqb_neq _ _)); [done|lia].
Qed.

(** Catching up adds no blocks.  A node of the broker method that receives the requests it
    asked for, one for each sequence number from the start to the end, marks them as answered
    and moves its sequence number past the end, but adds no block: the length test of the
    handler subtracts the end from the start, and is never met. *)
Theorem broker_catchup_skips (p : bnode) (som : SendOldMessage) :
  0 ≤ SOSeqStartHeight som ≤ SOSeqEndHeight som → SOSeqEndHeight som < 2 ^ 63 - 1 →
  len (OldRequest som) = SOSeqEndHeight som - SOSeqStartHeight som + 1 →
  height2Digest p !! (SOSeqEndHeight som + 1) = None → askForLock p = true →
  ∃ p', handleSendOldSeq som p = Ok (Some (p', [])) ∧ App p' = App p ∧ sequenceID p' = SOSeqEndHeight som + 1 ∧
    (∀ r, r ∈ OldRequest som → getDigest r ∈ isReply p').
Proof.
  intros Hse He Hlen Hn Hl. unfold handleSendOldSeq. cbn [HandleforSequentialRequest RawBrokerPbftExtraHandleMod].
  rewrite broker_sequential_skips; [|done|lia|]; last first.
  { intros E. rewrite E in Hlen. unfold len in Hlen. cbn in Hlen. lia. }
  cbn [mbind go_bind]. cbv zeta.
  pose proof (learn_old_fields (SOSeqStartHeight som) (imap pair (OldRequest som)) (p <| App := App p |>)) as Hf.
  cbv zeta in Hf. 
  pose proof (learn_old_height (SOSeqStartHeight som) (imap pair (OldRequest som)) (p <| App := App p |>) (SOSeqEndHeight som + 1)) as Hh.
  pose proof (learn_old_replies (SOSeqStartHeight som) (imap pair (OldRequest som)) (p <| App := App p |>)) as Hr.
  set (p1 := foldl _ _ _) in *. destruct Hf as (_ & _ & _ & _ & _ & E6 & E7). cbn in E6, E7.
  rewrite u64_small by (unfold two64; lia). cbn [height2Digest sequenceID upd].
  rewrite Hh; cycle 1.
  { intros [i r] Hin. apply elem_of_lookup_imap in Hin as (j & y & [= -> ->] & Hj). cbn.
    apply lookup_lt_Some in Hj. unfold len in Hlen. rewrite u64_small by (unfold two64; lia). lia. }
  cbn [height2Digest upd]. rewrite Hn. cbn. rewrite E6, Hl.
  eexists. split; [reflexivity|]. cbn. split; [exact E7|]. split; [done|].
  intros r [i Hi]%list_elem_of_lookup. apply (Hr (i, r)). apply elem_of_lookup_imap. eauto.
Qed.
End node.

(** ** Witnesses: a transfer from shard 3 to shard 1 through a broker of shard 2 *)
Module BrokerExample.
Import ConcreteLibs ConcreteCore ChainExample RelayExample.
#[local] Existing Instance default_params.
#[local] Existing Instance OverheadExample.req_codec.

#[export] Instance BrokerRawMeg_eq_dec : EqDecision BrokerRawMeg.
Proof. solve_decision. Defined.
#[export] Instance BrokerRawMeg_countable : Countable BrokerRawMeg.
Proof. refine (inj_countable' (λ m, (RawTx m, RawBroker m)) (λ x, mkRawMeg x.1 x.2) _). by intros []. Qed.
#[export] Instance raw_codec : Codec BrokerRawMeg := countable_codec BrokerRawMeg.

Definition brk : Address := "00000002".
Definition ctx : Transaction := sample_tx addrA addrC 5.
Definition bcm : BrokerCommitteeMod := NewBrokerCommitteeMod [brk].
Definition half1 : Transaction := tx1_of 1 ctx brk.
Definition half2 : Transaction := tx2_of 1 ctx brk.

Lemma case_here : broker_case fetchModifiedMap (broker bcm) ctx brk 3 1.
Proof. split; try done; [vm_compute; reflexivity..|]. exists 2. vm_compute. reflexivity. Qed.

(** A batch of two cross-shard transactions and one within a shard; both first halves are reported in
    one block. *)
Definition ctx' : Transaction := sample_tx addrA addrC 6.
Definition within : Transaction := sample_tx addrA addrB 1.
Definition half1' : Transaction := tx1_of 1 ctx' brk.
Definition half2' : Transaction := tx2_of 1 ctx' brk.


Lemma half_placed bc tx : PartitionMap bc = ∅ →
  is_ok (fetchModifiedMap (Sender tx)) && is_ok (fetchModifiedMap (Recipient tx)) = true → txs_placed bc [tx].
Proof.
  intros E [Hs Hr]%andb_true_iff. destruct (fetchModifiedMap (Sender tx)) as [s|] eqn:Es; [|done].
  destruct (fetchModifiedMap (Recipient tx)) as [r|] eqn:Er; [|done].
  apply Forall_singleton. split; eapply default_shard; done.
Qed.

Lemma broker_money_witness :
  ∃ A B A' B' oA nA oB nB, FetchAccounts A [addrA; addrC; brk] = Ok oA ∧ FetchAccounts A' [addrA; addrC; brk] = Ok nA ∧
    FetchAccounts B [addrA; addrC; brk] = Ok oB ∧ FetchAccounts B' [addrA; addrC; brk] = Ok nB ∧
    sumZ Balance nA + sumZ Balance nB - (sumZ Balance oA + sumZ Balance oB) = 0.
Proof.
  destruct (genesis_of cfg) as (A & _ & HckA & HcA & HpA & HmA & _).
  destruct (genesis_of cfgB) as (B & _ & HckB & HcB & _ & HmB & _).
  destruct (update_status_spec A ∅ [half1] (ck_state _ _ HckA)) as (dbA & rtA & EA & _);
    [apply half_placed; [done|vm_compute; reflexivity]|].
  destruct (update_status_spec B ∅ [half2] (ck_state _ _ HckB)) as (dbB & rtB & EB & _);
    [apply half_placed; [done|vm_compute; reflexivity]|].
  destruct (broker_money (broker bcm) A B (with_state A dbA rtA) (with_state B dbB rtB) ∅ ∅ ctx brk 3 1 2 1 1
    dbA rtA dbB rtB case_here) as (oA & nA & oB & nB & H1 & H2 & H3 & H4 & Hz & _);
    [vm_compute; reflexivity|apply HckA|apply HckB|done|done|by rewrite HcA|by rewrite HcB|exact EA|done|done|exact EB|done|done|].
  eexists A, B, _, _, oA, nA, oB, nB. do 4 (split; [done|]). apply Hz; [vm_compute; reflexivity|done|done].
Defined.

Lemma broker_report_witness :
  ∃ (p : PbftConsensusNode BlockChain) cmsg bc out rep,
    broker_HandleinCommit p 20 cmsg = Ok (bc, out ++ [(ip_of p SupervisorShard 0, MBlockInfo rep)], true) ∧
    half1 ∈ Broker1Txs rep.
Proof.
  destruct (genesis_of cfg) as (bc & _ & Hck & Hc & Hp & Hm & _).
  destruct (one_block bc half1 Hck Hc Hp Hm) as (b & l1 & bc1 & _ & Hb & Ha & _);
    [vm_compute; reflexivity|apply half_placed; [done|vm_compute; reflexivity]|].
  set (r := mkRequest BlockRequest (Encode b) 10).
  set (p := (NewPbftNode 3 0 cfg ∅ 0 0 bc) <| requestPool := {[ "d" := r ]} |>).
  destruct (broker_report p 20 (mkCommit "d" 1 (mkNode 0 3 "")) r b bc1) as (out & rep & E & _ & _ & Hin);
    [apply lookup_singleton_eq|apply must_decode_encode|exact Ha|done|].
  eexists p, _, bc1, out, rep. split; [exact E|]. apply (Hin ctx brk 1); [done|done|].
  rewrite Hb. apply list_elem_of_here.
Defined.

(** A node that asked for the request of height 1, whose block it could add. *)
Lemma broker_catchup_skips_witness :
  ∃ (p p' : PbftConsensusNode BlockChain) r b bc1, DecodeB (Content r) = Ok b ∧ AddBlock b (App p) = Ok bc1 ∧
    handleSendOldSeq (ExtraOpInConsensus0 := RawBrokerPbftExtraHandleMod)
      (mkSendOldMessage 1 1 [r] (mkNode 0 3 "")) p = Ok (Some (p', [])) ∧
    App p' = App p ∧ sequenceID p' = 2.
Proof.
  destruct (genesis_of cfg) as (bc & _ & Hck & Hc & Hp & Hm & _).
  destruct (one_block bc half1 Hck Hc Hp Hm) as (b & l1 & bc1 & _ & Hb & Ha & _);
    [vm_compute; reflexivity|apply half_placed; [done|vm_compute; reflexivity]|].
  set (r := mkRequest BlockRequest (Encode b) 10).
  set (p := (NewPbftNode 3 1 cfg ∅ 0 0 bc) <| askForLock := true |>).
  destruct (broker_catchup_skips p (mkSendOldMessage 1 1 [r] (mkNode 0 3 ""))) as (p' & E & Happ & Hs & _);
    [done..|].
  exists p, p', r, b, bc1. split; [apply must_decode_encode|]. split; [exact Ha|]. split; [exact E|].
  split; [exact Happ|exact Hs].
Defined.
End BrokerExample.
