(* ===== verification/Committee.v ===== *)
(** * The re-partitioning committee ([supervisor/committee/committee_clpa.go])

    The supervisor sends the transactions of the dataset in batches, and whenever enough time has
    passed it partitions the graph of the transactions reported by the shards, sends the map of
    moved accounts to all leaders, routes by it from then on, and waits until some shard reports
    a block of the new epoch.  [MsgSendingControl] runs beside [HandleBlockInfo]: its loops are
    phases, one step per row read and per look at a condition it waits for; a report is a step of
    its own.  The rows of the CSV file, the times and the visiting orders are in the events. *)
From S2P Require Import Prelude Utils Libs Core Messages Storage Chain MerkleProof Overhead.
From S2P Require Import Pbft Supervisor Partition.

Record CLPACommitteeModule := mkClpaCommittee {
  ccDataTotalNum : Z;
  ccNowDataNum : Z;
  ccBatchDataNum : Z;
  curEpoch : Z;
  clpaGraph : CLPAState;
  modifiedMap : gmap string Z;
  clpaLastRunningTime : Time;
  clpaFreq : Z;
  ccSs : StopSignal;
}.
#[export] Instance ClpaCommittee_eta : Eta CLPACommitteeModule := λ m,
  mkClpaCommittee (ccDataTotalNum m) (ccNowDataNum m) (ccBatchDataNum m) (curEpoch m) (clpaGraph m)
    (modifiedMap m) (clpaLastRunningTime m) (clpaFreq m) (ccSs m).

(** Where [MsgSendingControl] is: at the top of its first loop with the batch so far, waiting for
    the epoch inside the first loop or inside the second one, in the second loop, or done.  The
    number is [clpaCnt]. *)
Inductive control :=
| Reading (txlist : list Transaction) (clpaCnt : Z)
| WaitReading (txlist : list Transaction) (clpaCnt : Z)
| Draining (clpaCnt : Z)
| WaitDraining (clpaCnt : Z)
| Finished (clpaCnt : Z).

Definition clpaCnt (c : control) : Z :=
  match c with
  | Reading _ n | WaitReading _ n | Draining n | WaitDraining n | Finished n => n
  end.

Section committee.
Context `{Params, CryptoLib, !Codec Transaction}.
Context (IpNodeTable : gmap Z (gmap Z string)).

(** The literal [0.5]. *)
Definition half_penalty : float := SpecFloat.binary_normalize 53 1024 1 (-1) false.

Definition new_graph : go CLPAState := Init_CLPAState half_penalty 100 ShardNum zero_state.

Definition NewCLPACommitteeModule (ss : StopSignal) (dataNum batchNum clpaFrequency : Z)
    : go CLPACommitteeModule :=
  cg ← new_graph;
  Ok (mkClpaCommittee dataNum 0 batchNum 0 cg ∅ 0 clpaFrequency ss).

Definition clpa_fetchModifiedMap (ccm : CLPACommitteeModule) (key : string) : go Z :=
  match modifiedMap ccm !! key with
  | None => s ← Addr2Shard key; Ok (u64 s)
  | Some val => Ok val
  end.

Definition clpa_txSending (ccm : CLPACommitteeModule) (txlist : list Transaction) : go (list packet) :=
  txSending IpNodeTable (λ tx, clpa_fetchModifiedMap ccm (Sender tx)) txlist.

Definition clpaMapSend (m : gmap string Z) : list packet :=
  (λ i, (default "" (t ← IpNodeTable !! i; t !! 0), MPartition m)) <$> heights 0 (ShardNum - 1).

Definition clpaReset (ccm : CLPACommitteeModule) : go CLPACommitteeModule :=
  cg ← new_graph;
  Ok (ccm <| clpaGraph := cg <| PartitionMap ::= λ pm,
        foldl (λ pm kv, <[mkVertex kv.1 := i64 kv.2]> pm) pm (map_to_list (modifiedMap ccm)) |> |>).

(** The body of both re-partitioning branches, up to the wait. *)
Definition repartition (orders : nat → list Vertex) (ccm : CLPACommitteeModule)
    : go (CLPACommitteeModule * list packet) :=
  r ← CLPA_Partition orders (clpaGraph ccm);
  let '(cg, mmap, _) := r in
  ccm ← clpaReset (ccm <| clpaGraph := cg |> <| modifiedMap ::= λ mm, mmap ∪ mm |>);
  Ok (ccm, clpaMapSend mmap).

(** The timer of the algorithm. *)
Definition due (now : Time) (ccm : CLPACommitteeModule) : bool :=
  (1 <? ShardNum) && (clpaFreq ccm * 1000000000 <=? now - clpaLastRunningTime ccm).

(** What the loops do after a row: leave the first loop when all data was read. *)
Definition next_row (ccm : CLPACommitteeModule) (txlist : list Transaction) (cnt : Z) : control :=
  if ccNowDataNum ccm =? ccDataTotalNum ccm then Draining cnt else Reading txlist cnt.

(** One row of the first loop; [clock] has the times of the three calls of [time.Now]. *)
Definition read_row (data : list string) (clock : nat → Time) (orders : nat → list Vertex)
    (txlist : list Transaction) (cnt : Z) (ccm : CLPACommitteeModule)
    : go (CLPACommitteeModule * control * list packet) :=
  r ← data2tx (clock 0%nat) data (u64 (ccNowDataNum ccm));
  match r with
  | None => Ok (ccm, Reading txlist cnt, [])
  | Some tx =>
      let txlist := txlist ++ [tx] in
      let ccm := ccm <| ccNowDataNum ::= Z.add 1 |> in
      let full := (len txlist =? ccBatchDataNum ccm) || (ccNowDataNum ccm =? ccDataTotalNum ccm) in
      s ← (if full then
             let ccm := if IsZero (clpaLastRunningTime ccm) then ccm <| clpaLastRunningTime := clock 1%nat |> else ccm in
             out ← clpa_txSending ccm txlist;
             Ok (ccm <| ccSs ::= StopGap_Reset |>, [], out)
           else Ok (ccm, txlist, []));
      let '(ccm, txlist, out) := s in
      if negb (IsZero (clpaLastRunningTime ccm)) && due (clock 2%nat) ccm then
        p ← repartition orders ccm;
        Ok (p.1, WaitReading txlist (cnt + 1), out ++ p.2)
      else Ok (ccm, next_row ccm txlist cnt, out)
  end.

(** One look of a waiting loop at its condition. *)
Definition poll (now : Time) (orders : nat → list Vertex) (c : control) (ccm : CLPACommitteeModule)
    : go (CLPACommitteeModule * control * list packet) :=
  match c with
  | WaitReading txlist cnt =>
      if curEpoch ccm =? i32 cnt then
        let ccm := ccm <| clpaLastRunningTime := now |> in
        Ok (ccm, next_row ccm txlist cnt, [])
      else Ok (ccm, c, [])
  | WaitDraining cnt =>
      if curEpoch ccm =? i32 cnt then Ok (ccm <| clpaLastRunningTime := now |>, Draining cnt, [])
      else Ok (ccm, c, [])
  | Draining cnt =>
      if GapEnough (ccSs ccm) then Ok (ccm, Finished cnt, [])
      else if due now ccm then
        p ← repartition orders ccm;
        Ok (p.1, WaitDraining (cnt + 1), p.2)
      else Ok (ccm, c, [])
  | Reading _ _ | Finished _ => Ok (ccm, c, [])
  end.

(** The edge that a transaction adds to the graph. *)
Definition add_tx (cg : CLPAState) (tx : Transaction) : go CLPAState :=
  AddEdge (mkVertex (Sender tx)) (mkVertex (Recipient tx)) cg.

Definition clpa_HandleBlockInfo (b : BlockInfoMsg) (ccm : CLPACommitteeModule) : go CLPACommitteeModule :=
  let ccm := if curEpoch ccm =? i32 (Epoch b - 1) then ccm <| curEpoch := i32 (Epoch b) |> else ccm in
  if BlockBodyLength b =? 0 then Ok ccm
  else
    cg ← go_fold add_tx (clpaGraph ccm) (InnerShardTxs b);
    cg ← go_fold add_tx cg (Relay2Txs b);
    Ok (ccm <| clpaGraph := cg |>).

(** ** The committee as a machine *)
Record committee := mkCommittee { ccm : CLPACommitteeModule; ctl : control }.

Inductive cevent :=
| EvRow (data : list string) (clock : nat → Time) (orders : nat → list Vertex)
| EvEOF
| EvPoll (now : Time) (orders : nat → list Vertex)
| EvGap (b : BlockInfoMsg)
| EvReport (b : BlockInfoMsg).

(** A block report goes to the stop signal ([EvGap], in [supervisor.go]) and to the committee. *)
Definition cstep (s : committee) (e : cevent) : go (committee * list packet) :=
  match e with
  | EvRow data clock orders =>
      match ctl s with
      | Reading txlist cnt =>
          r ← read_row data clock orders txlist cnt (ccm s);
          Ok (mkCommittee r.1.1 r.1.2, r.2)
      | _ => Ok (s, [])
      end
  | EvEOF =>
      match ctl s with
      | Reading _ cnt => Ok (mkCommittee (ccm s) (Draining cnt), [])
      | _ => Ok (s, [])
      end
  | EvPoll now orders =>
      r ← poll now orders (ctl s) (ccm s);
      Ok (mkCommittee r.1.1 r.1.2, r.2)
  | EvGap b => Ok (mkCommittee ((ccm s) <| ccSs ::= λ ss, observe_block ss b |>) (ctl s), [])
  | EvReport b =>
      c ← clpa_HandleBlockInfo b (ccm s);
      Ok (mkCommittee c (ctl s), [])
  end.

(** Runs whose events all satisfy [ok] in the state they arrive in. *)
Inductive crun (ok : committee → cevent → Prop) : committee → list cevent → list packet → committee → Prop :=
| crun_nil s : crun ok s [] [] s
| crun_cons s e s1 out es outs s2 :
    ok s e → cstep s e = Ok (s1, out) → crun ok s1 es outs s2 → crun ok s (e :: es) (out ++ outs) s2.
End committee.
