(* ===== verification/CommitteeFacts.v ===== *)
(** * Properties of the re-partitioning committee

    The committee never panics on well-formed input and sends only valid maps; it routes by
    exactly the maps it has sent, so that it agrees with every shard that has applied them; and
    it has at most one map outstanding. *)
From S2P Require Import Prelude Utils Libs Core Messages Storage Chain MerkleProof Overhead.
From S2P Require Import Pbft PbftFacts RelayModule ClpaModule ClpaFacts Supervisor SupervisorFacts Partition PartitionFacts Committee.

Section committee.
Context `{Params, CryptoLib, !Codec Transaction}.
Context (IpNodeTable : gmap Z (gmap Z string)).
Abbreviation cstep := (cstep IpNodeTable).
Abbreviation crun := (crun IpNodeTable).

(** ** Maps *)
Definition valid_map (m : gmap string Z) : Prop := map_Forall (λ _ s, 0 ≤ s < ShardNum) m.

(** The maps in a list of packets, in order. *)
Definition maps_of (outs : list packet) : list (gmap string Z) :=
  omap (λ p : packet, match p.2 with MPartition m => Some m | _ => None end) outs.

Lemma maps_of_app o1 o2 : maps_of (o1 ++ o2) = maps_of o1 ++ maps_of o2.
Proof. unfold maps_of. apply omap_app. Qed.

(** Later maps win. *)
Definition merged (ms : list (gmap string Z)) : gmap string Z := foldl (λ acc m, m ∪ acc) ∅ ms.

Lemma merged_snoc ms m : merged (ms ++ [m]) = m ∪ merged ms.
Proof. unfold merged. by rewrite foldl_snoc. Qed.

(** One map to every shard. *)
Definition to_all (ms : list (gmap string Z)) : list (gmap string Z) := ms ≫= replicate (Z.to_nat ShardNum).

Lemma map_send_maps m : maps_of (clpaMapSend IpNodeTable m) = to_all [m].
Proof.
  unfold clpaMapSend, heights, to_all. cbn [mbind list_bind]. rewrite app_nil_r.
  replace (Z.to_nat (ShardNum - 1 - 0 + 1)) with (Z.to_nat ShardNum) by lia.
  generalize 0%nat. induction (Z.to_nat ShardNum) as [|n IH]; intros k; cbn; [done|]. f_equal. apply IH.
Qed.

Lemma inject_no_maps route idx m txs out : tx_sending IpNodeTable route idx m txs = Ok out → maps_of out = [].
Proof.
  assert (∀ mm, maps_of (inject_all IpNodeTable mm) = []) as Hi.
  { intros mm. unfold inject_all. induction (heights 0 (ShardNum - 1)) as [|x l IH]; [done|exact IH]. }
  assert (∀ (b : bool) mm, maps_of (if b then inject_all IpNodeTable mm else []) = []) as Hb by (intros []; done).
  revert idx m out. induction txs as [|tx txs IH]; intros idx m out Hs; cbn [tx_sending] in Hs;
    apply go_bind_inv in Hs as (now & _ & Hs).
  - injection Hs as <-. apply Hb.
  - apply go_bind_inv in Hs as (sid & _ & Hs). apply go_bind_inv in Hs as (rest & Er & Hs).
    injection Hs as <-. unfold maps_of. rewrite omap_app. fold (maps_of rest). apply IH in Er. rewrite Er, app_nil_r.
    apply Hb.
Qed.

(** ** Re-partitioning *)
Lemma repartition_effect orders c c' out : repartition IpNodeTable orders c = Ok (c', out) →
  ∃ m, out = clpaMapSend IpNodeTable m ∧ modifiedMap c' = m ∪ modifiedMap c ∧ curEpoch c' = curEpoch c.
Proof.
  unfold repartition, clpaReset. intros Hr. apply go_bind_inv in Hr as ([[cg m] x] & _ & Hr).
  apply go_bind_inv in Hr as (c1 & Hc & Hr). injection Hr as <- <-.
  apply go_bind_inv in Hc as (cg' & _ & Hc). injection Hc as <-. by exists m.
Qed.

(** What a step does to the routing map, the epoch and the phase: it sends no map and keeps them, or it
    was ready, sends one map to all shards and waits. *)
Definition waiting (c : control) : bool :=
  match c with WaitReading _ _ | WaitDraining _ => true | _ => false end.

Inductive effect (s : committee) (e : cevent) (s' : committee) (out : list packet) : Prop :=
| eff_quiet : maps_of out = [] → modifiedMap (ccm s') = modifiedMap (ccm s) →
    clpaCnt (ctl s') = clpaCnt (ctl s) → curEpoch (ccm s') = curEpoch (ccm s) →
    waiting (ctl s') = waiting (ctl s) ∨ waiting (ctl s') = false ∧ curEpoch (ccm s) = i32 (clpaCnt (ctl s)) →
    effect s e s' out
| eff_report b : e = EvReport b → out = [] → ctl s' = ctl s → modifiedMap (ccm s') = modifiedMap (ccm s) →
    curEpoch (ccm s') = (if curEpoch (ccm s) =? i32 (Epoch b - 1) then i32 (Epoch b) else curEpoch (ccm s)) →
    effect s e s' out
| eff_send m : maps_of out = to_all [m] → modifiedMap (ccm s') = m ∪ modifiedMap (ccm s) →
    clpaCnt (ctl s') = clpaCnt (ctl s) + 1 → curEpoch (ccm s') = curEpoch (ccm s) →
    waiting (ctl s) = false → waiting (ctl s') = true → effect s e s' out.

Lemma next_row_fields c txl cnt : clpaCnt (next_row c txl cnt) = cnt ∧ waiting (next_row c txl cnt) = false.
Proof. unfold next_row. by case_match. Qed.

(** The two things a row can do after its transaction was added. *)
Lemma row_tail c c1 ct1 orders txl cnt out out1 now :
  (if negb (IsZero (clpaLastRunningTime c)) && due now c then
     p ← repartition IpNodeTable orders c; Ok (p.1, WaitReading txl (cnt + 1), out ++ p.2)
   else Ok (c, next_row c txl cnt, out)) = Ok (c1, ct1, out1) → maps_of out = [] →
  curEpoch c1 = curEpoch c ∧
  (maps_of out1 = [] ∧ modifiedMap c1 = modifiedMap c ∧ clpaCnt ct1 = cnt ∧ waiting ct1 = false ∨
   ∃ m, maps_of out1 = to_all [m] ∧ modifiedMap c1 = m ∪ modifiedMap c ∧ clpaCnt ct1 = cnt + 1 ∧ waiting ct1 = true).
Proof.
  intros Hr Hout. destruct (negb _ && _).
  - apply go_bind_inv in Hr as ([c2 o2] & Hp & Hr). injection Hr as <- <- <-.
    apply repartition_effect in Hp as (m & -> & Em & Ee). split; [exact Ee|]. right. exists m.
    split; [|done]. cbn [snd]. unfold maps_of. rewrite omap_app. fold (maps_of out). rewrite Hout.
    apply map_send_maps.
  - injection Hr as <- <- <-. split; [done|]. left. destruct (next_row_fields c txl cnt) as [-> ->]. done.
Qed.

Lemma read_row_effect data clock orders txl cnt c c' ct' out :
  read_row IpNodeTable data clock orders txl cnt c = Ok (c', ct', out) →
  curEpoch c' = curEpoch c ∧
  (maps_of out = [] ∧ modifiedMap c' = modifiedMap c ∧ clpaCnt ct' = cnt ∧ waiting ct' = false ∨
   ∃ m, maps_of out = to_all [m] ∧ modifiedMap c' = m ∪ modifiedMap c ∧ clpaCnt ct' = cnt + 1 ∧ waiting ct' = true).
Proof.
  unfold read_row. intros Hr. apply go_bind_inv in Hr as ([tx|] & _ & Hr); [|by injection Hr as <- <- <-; auto 10].
  cbv zeta in Hr. apply go_bind_inv in Hr as ([[c1 txl1] o1] & Hs & Hr).
  assert (maps_of o1 = [] ∧ modifiedMap c1 = modifiedMap c ∧ curEpoch c1 = curEpoch c) as (Ho & Hm & He).
  { destruct (_ || _); [|by injection Hs as <- <- <-].
    apply go_bind_inv in Hs as (o2 & Ho & Hs). injection Hs as <- <- <-.
    split; [by eapply inject_no_maps|]. cbn. by destruct (IsZero _). }
  apply row_tail in Hr as [He' Hr]; [|done]. rewrite Hm, He in *. auto.
Qed.

Lemma poll_effect now orders s c' ct' out :
  poll IpNodeTable now orders (ctl s) (ccm s) = Ok (c', ct', out) →
  effect s (EvPoll now orders) (mkCommittee c' ct') out.
Proof.
  destruct s as [c ct]. cbn [ctl ccm]. unfold poll. intros Hr. destruct ct as [txl cnt|txl cnt|cnt|cnt|cnt].
  - injection Hr as <- <- <-. by apply eff_quiet; auto.
  - destruct (_ =? _) eqn:E; injection Hr as <- <- <-; [|by apply eff_quiet; auto]. zbool.
    destruct (next_row_fields (c <| clpaLastRunningTime := now |>) txl cnt) as [En Ew].
    apply eff_quiet; cbn [ccm ctl]; auto.
  - destruct (GapEnough _); [by injection Hr as <- <- <-; apply eff_quiet; auto|].
    destruct (due now c); [|by injection Hr as <- <- <-; apply eff_quiet; auto].
    apply go_bind_inv in Hr as ([c2 o2] & Hp & Hr). injection Hr as <- <- <-.
    apply repartition_effect in Hp as (m & -> & Em & Ee). apply (eff_send _ _ _ _ m); try done. apply map_send_maps.
  - destruct (_ =? _) eqn:E; injection Hr as <- <- <-; [|by apply eff_quiet; auto]. zbool. by apply eff_quiet; auto.
  - injection Hr as <- <- <-. by apply eff_quiet; auto.
Qed.

Lemma step_effect s e s' out : cstep s e = Ok (s', out) → effect s e s' out.
Proof.
  destruct e as [data clock orders| |now orders|b|b]; cbn [Committee.cstep]; intros Hs.
  - destruct (ctl s) as [txl cnt| | | |] eqn:Ec; try (injection Hs as <- <-; apply eff_quiet; by auto).
    apply go_bind_inv in Hs as ([[c' ct'] o] & Hr & Hs). injection Hs as <- <-.
    apply read_row_effect in Hr as [He [(Ho & Hm & Hc & Hw)|(m & Ho & Hm & Hc & Hw)]].
    + apply eff_quiet; cbn [ccm ctl fst snd]; rewrite ?Ec; auto.
    + apply (eff_send _ _ _ _ m); cbn [ccm ctl fst snd]; rewrite ?Ec; auto.
  - destruct (ctl s) as [txl cnt| | | |] eqn:Ec; injection Hs as <- <-; apply eff_quiet; cbn [ccm ctl]; rewrite ?Ec; auto.
  - apply go_bind_inv in Hs as ([[c' ct'] o] & Hr & Hs). injection Hs as <- <-. by apply poll_effect.
  - injection Hs as <- <-. by apply eff_quiet; auto.
  - apply go_bind_inv in Hs as (c & Hr & Hs). injection Hs as <- <-. unfold clpa_HandleBlockInfo in Hr.
    apply (eff_report _ _ _ _ b); cbn [ccm ctl]; try done; cbv zeta in Hr; destruct (BlockBodyLength b =? 0).
    1,3: injection Hr as <-; by case_match.
    all: apply go_bind_inv in Hr as (g1 & _ & Hr); apply go_bind_inv in Hr as (g2 & _ & Hr); injection Hr as <-; by case_match.
Qed.

(** The maps sent so far are those the committee routes by, one per count. *)
Lemma run_maps ok s es outs s' ms :
  crun ok s es outs s' → modifiedMap (ccm s) = merged ms → clpaCnt (ctl s) = len ms →
  ∃ ms', maps_of outs = to_all ms' ∧ modifiedMap (ccm s') = merged (ms ++ ms') ∧ clpaCnt (ctl s') = len (ms ++ ms').
Proof.
  intros Hr. revert ms. induction Hr as [s|s e s1 out es outs s2 _ Hs _ IH]; intros ms Hm Hc.
  - exists []. by rewrite app_nil_r.
  - unfold maps_of. rewrite omap_app. fold (maps_of out) (maps_of outs).
    apply step_effect in Hs as [Ho Hm1 Hc1 _ _|b _ -> Hc1 Hm1 _|m Ho Hm1 Hc1 _ _ _].
    + destruct (IH ms) as (ms' & Ho' & ?); [congruence..|]. exists ms'. by rewrite Ho, Ho'.
    + destruct (IH ms) as (ms' & Ho' & ?); [congruence..|]. exists ms'. by rewrite Ho'.
    + destruct (IH (ms ++ [m])) as (ms' & Ho' & Hfin).
      * by rewrite merged_snoc, <-Hm.
      * rewrite Hc1, Hc. unfold len. rewrite length_app. cbn. lia.
      * exists (m :: ms'). rewrite <-app_assoc in Hfin. split; [|exact Hfin].
        rewrite Ho, Ho'. unfold to_all. cbn. by rewrite app_nil_r.
Qed.

(** ** Epochs *)

(** A shard reports no epoch whose map was not sent yet. *)
Definition in_time (s : committee) (e : cevent) : Prop :=
  match e with EvReport b => 0 ≤ Epoch b ≤ clpaCnt (ctl s) | _ => True end.

Definition epoch_ok (s : committee) : Prop :=
  0 ≤ curEpoch (ccm s) ∧ clpaCnt (ctl s) - 1 ≤ curEpoch (ccm s) ≤ clpaCnt (ctl s) ∧
  (waiting (ctl s) = false → curEpoch (ccm s) = clpaCnt (ctl s)).

Lemma step_epoch s e s' out :
  cstep s e = Ok (s', out) → in_time s e → clpaCnt (ctl s') < 2 ^ 31 → epoch_ok s → epoch_ok s'.
Proof.
  intros Hs Ht Hb (H0' & Hr & Hw). unfold epoch_ok.
  apply step_effect in Hs as [_ _ Hc He Hwt|b -> _ Hc _ He|m _ _ Hc He Hw1 Hw2].
  - rewrite He, Hc in *. split; [done|]. split; [done|]. intros Hw'.
    destruct Hwt as [Hwt|[_ Hwt]]; [apply Hw; congruence|]. rewrite Hwt. apply i32_small. lia.
  - cbn in Ht. rewrite He, Hc in *. destruct (_ =? _) eqn:E; zbool; [|done].
    rewrite i32_small in E by lia. rewrite i32_small by lia. split; [lia|]. split; [lia|].
    intros Hw'. specialize (Hw Hw'). lia.
  - rewrite He, Hc in *. specialize (Hw Hw1). rewrite Hw2. split; [done|]. split; [lia|done].
Qed.

Lemma step_count s e s' out : cstep s e = Ok (s', out) → clpaCnt (ctl s) ≤ clpaCnt (ctl s').
Proof. intros Hs. apply step_effect in Hs as [_ _ -> _ _|b _ _ -> _ _|m _ _ -> _ _ _]; lia. Qed.

Lemma run_count ok s es outs s' : crun ok s es outs s' → clpaCnt (ctl s) ≤ clpaCnt (ctl s').
Proof. induction 1 as [|s e s1 out es outs s2 _ Hs _ IH]; [lia|]. apply step_count in Hs. lia. Qed.

Lemma run_epoch s es outs s' :
  crun in_time s es outs s' → clpaCnt (ctl s') < 2 ^ 31 → epoch_ok s → epoch_ok s'.
Proof.
  induction 1 as [|s e s1 out es outs s2 Ht Hs Hr IH]; [done|]. intros Hb Ho. apply IH; [done|].
  eapply step_epoch; [exact Hs|exact Ht| |exact Ho]. apply run_count in Hr. lia.
Qed.

(** A new committee at the start of [MsgSendingControl]. *)
Definition starts (c0 : CLPACommitteeModule) (ss : StopSignal) (dataNum batchNum freq : Z) : Prop :=
  NewCLPACommitteeModule ss dataNum batchNum freq = Ok c0.

Lemma starts_fields c0 ss d b f : starts c0 ss d b f → modifiedMap c0 = ∅ ∧ curEpoch c0 = 0.
Proof. unfold starts, NewCLPACommitteeModule. intros Hs. apply go_bind_inv in Hs as (cg & _ & Hs). by injection Hs as <-. Qed.

(** One map at a time.  In every run in which no shard reports an epoch before its map was
    sent, the committee's epoch is at most one behind the number of maps it has sent, never
    ahead, and a step that sends a map is taken only when the epoch of the last map was
    reported: the shards never have to handle two maps at once. *)
Theorem one_map_at_a_time (c0 : CLPACommitteeModule) ss d b f es outs (s : committee) :
  starts c0 ss d b f → crun in_time (mkCommittee c0 (Reading [] 0)) es outs s → clpaCnt (ctl s) < 2 ^ 31 →
  ∃ ms, maps_of outs = to_all ms ∧ len ms - 1 ≤ curEpoch (ccm s) ≤ len ms ∧
    ∀ e s' out, cstep s e = Ok (s', out) → maps_of out ≠ [] → curEpoch (ccm s) = len ms.
Proof.
  intros Hst Hr Hb. destruct (starts_fields c0 ss d b f Hst) as [Hm He].
  destruct (run_maps in_time _ es outs s [] Hr Hm eq_refl) as (ms & Ho & _ & Hc). cbn [app] in Hc. exists ms. rewrite <-Hc.
  assert (epoch_ok s) as (_ & Hrange & Hw).
  { apply (run_epoch _ _ _ _ Hr Hb). unfold epoch_ok. cbn [ccm ctl clpaCnt waiting]. rewrite He. lia. }
  split; [exact Ho|]. split; [exact Hrange|]. intros e s' out Hs Hne.
  apply step_effect in Hs as [Hn _ _ _ _|? _ -> _ _ _|m _ _ _ _ Hw1 _]; [done|done|by apply Hw].
Qed.
End committee.

(** ** Agreement with the shards *)
Section agreement.
Context `{Params, BitSetLib, CryptoLib, !Codec AccountState, !Codec Request, !Codec Transaction,
          !Codec BlockHeader, !Codec Block, !Codec AccountTransferMsg, BoltLib, TrieLib}.
Context (IpNodeTable : gmap Z (gmap Z string)).
Abbreviation cnode := (PbftConsensusNode ClpaApp).

(** A node applies maps one after the other by account transfers; what it does in between keeps
    its partition map. *)
Inductive transfers (p : cnode) : ClpaApp → list (gmap string Z) → ClpaApp → Prop :=
| tr_nil x : transfers p x [] x
| tr_cons x x1 atm y out ms z :
    Chain.PartitionMap (CurChain x1) = Chain.PartitionMap (CurChain x) →
    accountTransfer_do p x1 atm = Ok (y, out) → transfers p y ms z →
    transfers p x (ATModifiedMap atm :: ms) z.

Lemma add_accounts_map ac sts miner (bc bc' : BlockChain) :
  AddAccounts ac sts miner bc = Ok bc' → Chain.PartitionMap bc' = Chain.PartitionMap bc.
Proof.
  unfold AddAccounts. intros Ha. apply go_bind_inv in Ha as ([db rt] & _ & Ha).
  apply go_bind_inv in Ha as (s & _ & Ha). by injection Ha as <-.
Qed.

Lemma update_fold_map (l : list (string * Z)) (bc : BlockChain) :
  Chain.PartitionMap (foldl (λ bc kv, Update_PartitionMap kv.1 kv.2 bc) bc l) =
  foldl (λ m kv, <[kv.1 := kv.2]> m) (Chain.PartitionMap bc) l.
Proof. revert bc. induction l as [|kv l IH]; intros bc; [done|]. cbn [foldl]. by rewrite IH. Qed.

Lemma transfer_map (p : cnode) x atm y out : accountTransfer_do p x atm = Ok (y, out) →
  Chain.PartitionMap (CurChain y) = ATModifiedMap atm ∪ Chain.PartitionMap (CurChain x).
Proof.
  unfold accountTransfer_do. intros Ht. apply go_bind_inv in Ht as (bc & Ha & Ht). injection Ht as <- _.
  cbn [CurChain]. apply add_accounts_map in Ha. rewrite Ha, update_fold_map. apply map_eq. intros k.
  rewrite fold_insert by apply NoDup_fst_map_to_list. rewrite list_to_map_to_list, lookup_union.
  destruct (ATModifiedMap atm !! k), (Chain.PartitionMap (CurChain x) !! k); done.
Qed.

Lemma transfers_map (p : cnode) x ms y : transfers p x ms y →
  Chain.PartitionMap (CurChain y) = foldl (λ acc m, m ∪ acc) (Chain.PartitionMap (CurChain x)) ms.
Proof.
  induction 1 as [|x x1 atm y out ms z Hx Ht _ IH]; [done|]. cbn [foldl].
  by rewrite IH, (transfer_map p x1 atm y out Ht), Hx.
Qed.

(** C16: the committee and the shards agree on where accounts live.  After any run of the
    committee, the maps it has sent, one after the other and each to every shard, are such that
    a node that started without a partition map and has applied them by account transfers
    places every address where the committee routes it. *)
Theorem routing_agrees (c0 : CLPACommitteeModule) ss d b f es outs (s : committee) :
  starts c0 ss d b f → crun IpNodeTable (λ _ _, True) (mkCommittee c0 (Reading [] 0)) es outs s →
  ∃ ms, maps_of outs = to_all ms ∧
    ∀ (p : cnode) (x y : ClpaApp), Chain.PartitionMap (CurChain x) = ∅ → transfers p x ms y →
      ∀ addr, Get_PartitionMap (CurChain y) addr = clpa_fetchModifiedMap (ccm s) addr.
Proof.
  intros Hst Hr. destruct (starts_fields c0 ss d b f Hst) as [Hm He].
  destruct (run_maps IpNodeTable _ _ es outs s [] Hr Hm eq_refl) as (ms & Ho & Hmm & _). cbn [app] in Hmm.
  exists ms. split; [exact Ho|]. intros p x y Hx Ht addr. apply transfers_map in Ht.
  unfold Get_PartitionMap, clpa_fetchModifiedMap. by rewrite Ht, Hx, Hmm.
Qed.
End agreement.

(** ** No panics *)
Section safety.
Context `{Params, CryptoLib, !Codec Transaction}.
Context (IpNodeTable : gmap Z (gmap Z string)).

Definition batch (c : control) : list Transaction :=
  match c with Reading l _ | WaitReading l _ => l | _ => [] end.

Definition sender_ok (tx : Transaction) : Prop := is_hex (Sender tx) = true ∧ Sender tx ≠ "".

(** The graph holds the edges [E], none of them a loop, and every known place is a shard. *)
Record committee_ok (s : committee) (E : list edge) : Prop := {
  co_graph : graph_ok (clpaGraph (ccm s)) E;
  co_places : map_ok (clpaGraph (ccm s));
  co_shards : CShardNum (clpaGraph (ccm s)) = ShardNum;
  co_loops : ∀ v, (v, v) ∉ E;
  co_map : valid_map (modifiedMap (ccm s));
  co_batch : Forall sender_ok (batch (ctl s));
}.

Definition tx_edge (tx : Transaction) : edge := (mkVertex (Sender tx), mkVertex (Recipient tx)).

(** A transaction between two different well-formed addresses, as [data2tx] makes them. *)
Definition tx_ok (tx : Transaction) : Prop :=
  addr_ok (mkVertex (Sender tx)) ∧ addr_ok (mkVertex (Recipient tx)) ∧ Sender tx ≠ Recipient tx.

Definition orders_ok (s : committee) (orders : nat → list Vertex) : Prop :=
  ∀ i v, v ∈ orders i → v ∈ VertexSet (NetGraph (clpaGraph (ccm s))).

(** Rows parse, with well-formed senders; visiting orders visit the graph; reported transactions are well-formed. *)
Definition event_ok (s : committee) (e : cevent) : Prop :=
  match e with
  | EvRow data clock orders => orders_ok s orders ∧
      ∀ nonce, ∃ r, data2tx (clock 0%nat) data nonce = Ok r ∧ ∀ tx, r = Some tx → sender_ok tx
  | EvPoll _ orders => orders_ok s orders
  | EvReport b => Forall tx_ok (InnerShardTxs b) ∧ Forall tx_ok (Relay2Txs b)
  | EvEOF | EvGap _ => True
  end.

Context (Hshards : 0 < ShardNum < 2 ^ 63) (Hspeed : 0 < InjectSpeed).

Lemma graph_fold (pm : gmap Vertex Z) (l : list (string * Z)) : map_Forall (λ _ s, 0 ≤ s < ShardNum) pm →
  Forall (λ kv, 0 ≤ kv.2 < ShardNum) l →
  map_Forall (λ _ s, 0 ≤ s < ShardNum) (foldl (λ pm kv, <[mkVertex kv.1 := i64 kv.2]> pm) pm l).
Proof.
  revert pm. induction l as [|kv l IH]; intros pm Hp Hl; [done|]. apply Forall_cons in Hl as [Hkv Hl]. cbn.
  apply IH; [|done]. apply map_Forall_insert_2; [|done]. rewrite i64_small by lia. done.
Qed.

Lemma reset_ok c : valid_map (modifiedMap c) →
  ∃ cg, clpaReset c = Ok (c <| clpaGraph := cg |>) ∧ graph_ok cg [] ∧ map_ok cg ∧ CShardNum cg = ShardNum.
Proof.
  intros Hv. unfold clpaReset, new_graph, Init_CLPAState.
  destruct (make_ints_ok ShardNum) as [-> Hl]; [lia|]. cbn [mbind go_bind]. eexists. split; [reflexivity|].
  split; [|split; [|done]]; split; cbn.
  - by split.
  - intros v Hin. by apply elem_of_empty in Hin.
  - done.
  - intros k _. unfold vertices_in. cbn. rewrite elements_empty. apply at_replicate.
  - apply graph_fold; [apply map_Forall_empty|]. apply Forall_forall. intros [k v] Hin.
    apply elem_of_map_to_list in Hin. by apply (Hv k v).
  - intros v Hin. by apply elem_of_empty in Hin.
Qed.

Lemma repartition_ok orders s E :
  committee_ok s E → orders_ok s orders →
  ∃ cg m, valid_map m ∧
    repartition IpNodeTable orders (ccm s) =
      Ok ((ccm s) <| clpaGraph := cg |> <| modifiedMap ::= λ mm, m ∪ mm |>, clpaMapSend IpNodeTable m) ∧
    graph_ok cg [] ∧ map_ok cg ∧ CShardNum cg = ShardNum ∧ valid_map (m ∪ modifiedMap (ccm s)).
Proof.
  intros [Hg Hm Hs Hl Hv _] Ho. unfold repartition.
  destruct (partition_reaches (clpaGraph (ccm s)) E orders Hg Hl) as (st & e & c & m & -> & [_ _ _ _ Hk _] & _);
    [rewrite Hs; unfold two64; lia|exact Ho|].
  assert (valid_map (r_res st)) as Hres.
  { intros k v Hkv. apply Hk in Hkv as [_ Hkv]. by rewrite <-Hs. }
  assert (valid_map (r_res st ∪ modifiedMap (ccm s))) as Hu by (by apply map_Forall_union_2).
  cbn [mbind go_bind]. cbv zeta.
  match goal with |- context [clpaReset ?c1] => destruct (reset_ok c1 Hu) as (cg & -> & Hg' & Hm' & Hs') end.
  cbn [mbind go_bind]. exists cg, (r_res st). split; [exact Hres|]. split; [|done]. by destruct s as [[] ?].
Qed.

Lemma add_txs_ok txs cg E :
  graph_ok cg E → map_ok cg → CShardNum cg = ShardNum → (∀ v, (v, v) ∉ E) → Forall tx_ok txs →
  ∃ cg' E', go_fold add_tx cg txs = Ok cg' ∧ graph_ok cg' E' ∧ map_ok cg' ∧ CShardNum cg' = ShardNum ∧
    (∀ v, (v, v) ∉ E').
Proof.
  revert cg E. induction txs as [|tx txs IH]; intros cg E Hg Hm Hs Hl Ht; [by exists cg, E|].
  apply Forall_cons in Ht as [(Hu & Hv & Hne) Ht]. cbn [go_fold].
  destruct (add_edge_ok _ _ cg E Hg Hm Hu Hv Hs) as (c1 & E1 & Hg1 & Hm1 & Hs1); [lia|].
  change (add_tx cg tx = Ok c1) in E1. rewrite E1. cbn [mbind go_bind].
  apply (IH c1 _ Hg1 Hm1); [congruence| |done]. intros v. rewrite elem_of_app, list_elem_of_singleton.
  intros [Hin|Heq]; [by apply (Hl v)|]. congruence.
Qed.

Lemma send_ok c txs : valid_map (modifiedMap c) → Forall sender_ok txs →
  ∃ out, clpa_txSending IpNodeTable c txs = Ok out.
Proof.
  intros Hv Hs.
  destruct (tx_sending_spec IpNodeTable (λ tx, clpa_fetchModifiedMap c (Sender tx)) txs 0 ∅ Hspeed) as (out & E & _);
    [lia|done| | |by exists out].
  - intros sid. rewrite lookup_empty. pose proof (Z.mod_pos_bound (0 - 1) InjectSpeed Hspeed). unfold len. cbn. lia.
  - eapply Forall_impl; [exact Hs|]. intros tx [Hh Hne]. unfold clpa_fetchModifiedMap.
    destruct (modifiedMap c !! _); [by eexists|].
    destruct (addr2shard_ok (Sender tx)) as (s & -> & _); [lia|done|done|]. by eexists.
Qed.

(** The maps in a list of packets are valid. *)
Definition maps_valid (out : list packet) : Prop := Forall valid_map (maps_of out).

Lemma map_send_valid m : valid_map m → maps_valid (clpaMapSend IpNodeTable m).
Proof.
  intros Hv. unfold maps_valid. rewrite map_send_maps. unfold to_all. cbn. rewrite app_nil_r.
  apply Forall_replicate. exact Hv.
Qed.

Lemma maps_valid_app o1 o2 : maps_valid o1 → maps_valid o2 → maps_valid (o1 ++ o2).
Proof. unfold maps_valid, maps_of. rewrite omap_app. intros. by apply Forall_app. Qed.

(** Changing counters, times and the phase keeps the invariant. *)
Lemma committee_ok_frame s E c ct :
  committee_ok s E → clpaGraph c = clpaGraph (ccm s) → modifiedMap c = modifiedMap (ccm s) →
  Forall sender_ok (batch ct) → committee_ok (mkCommittee c ct) E.
Proof. intros [Hg Hm Hs Hl Hv _] Ec Em Hb. split; cbn; rewrite ?Ec, ?Em; done. Qed.

Lemma batch_next c txl cnt : Forall sender_ok txl → Forall sender_ok (batch (next_row c txl cnt)).
Proof. unfold next_row. intros Hf. by case_match; [apply Forall_nil|]. Qed.

(** The end of a row, and the re-partitioning of the second loop. *)
Lemma repartition_step orders s E ct :
  committee_ok s E → orders_ok s orders → Forall sender_ok (batch ct) →
  ∃ c out, repartition IpNodeTable orders (ccm s) = Ok (c, out) ∧ committee_ok (mkCommittee c ct) [] ∧ maps_valid out.
Proof.
  intros Hc Ho Hb. destruct (repartition_ok orders s E Hc Ho) as (cg & m & Hv & Er & Hg & Hm & Hs & Hu).
  eexists _, _. split; [exact Er|]. split; [|by apply map_send_valid].
  split; cbn; try done. intros v Hin. by apply elem_of_nil in Hin.
Qed.

Lemma row_tail_ok orders s E now txl cnt out :
  committee_ok s E → orders_ok s orders → Forall sender_ok txl → maps_valid out →
  ∃ c ct out', (if negb (IsZero (clpaLastRunningTime (ccm s))) && due now (ccm s) then
     p ← repartition IpNodeTable orders (ccm s); Ok (p.1, WaitReading txl (cnt + 1), out ++ p.2)
   else Ok (ccm s, next_row (ccm s) txl cnt, out)) = Ok (c, ct, out') ∧
   (∃ E', committee_ok (mkCommittee c ct) E') ∧ maps_valid out'.
Proof.
  intros Hc Ho Ht Hv. destruct (negb _ && _).
  - destruct (repartition_step orders s E (WaitReading txl (cnt + 1)) Hc Ho Ht) as (c & o & -> & Hc' & Hv').
    cbn [mbind go_bind fst snd]. eexists _, _, _. split; [reflexivity|]. split; [by eexists|]. by apply maps_valid_app.
  - eexists _, _, _. split; [reflexivity|]. split; [|done]. exists E.
    apply (committee_ok_frame s); try done. by apply batch_next.
Qed.

Lemma read_row_ok s E data clock orders txl cnt :
  committee_ok s E → ctl s = Reading txl cnt → event_ok s (EvRow data clock orders) →
  ∃ c ct out, read_row IpNodeTable data clock orders txl cnt (ccm s) = Ok (c, ct, out) ∧
   (∃ E', committee_ok (mkCommittee c ct) E') ∧ maps_valid out.
Proof.
  intros Hc Ect [Ho Hrow]. pose proof (co_batch _ _ Hc) as Hb. rewrite Ect in Hb. cbn [batch] in Hb.
  unfold read_row. destruct (Hrow (u64 (ccNowDataNum (ccm s)))) as (r & -> & Hr). cbn [mbind go_bind].
  destruct r as [tx|]; cycle 1.
  { eexists _, _, _. split; [reflexivity|]. split; [exists E; by apply (committee_ok_frame s)|by apply Forall_nil]. }
  assert (Forall sender_ok (txl ++ [tx])) as Hb' by (apply Forall_app; split; [done|apply Forall_singleton; auto]).
  cbv zeta. set (c0 := (ccm s) <| ccNowDataNum ::= Z.add 1 |>). destruct (_ || _).
  - set (c1 := if IsZero _ then _ else _).
    assert (clpaGraph c1 = clpaGraph (ccm s) ∧ modifiedMap c1 = modifiedMap (ccm s)) as [Eg Em]
      by (unfold c1; by destruct (IsZero _)).
    destruct (send_ok c1 (txl ++ [tx])) as (out & Eo); [rewrite Em; apply Hc|done|]. rewrite Eo. cbn [mbind go_bind].
    pose proof (row_tail_ok orders (mkCommittee (c1 <| ccSs ::= StopGap_Reset |>) (ctl s)) E (clock 2%nat) [] cnt out) as Hfin.
    cbn [ccm] in Hfin. apply Hfin; clear Hfin; [| |by apply Forall_nil|].
    + apply (committee_ok_frame s); [done|exact Eg|exact Em|apply Hc].
    + unfold orders_ok. cbn. by rewrite Eg.
    + unfold maps_valid. rewrite (inject_no_maps _ _ _ _ _ _ Eo). by apply Forall_nil.
  - cbn [mbind go_bind]. pose proof (row_tail_ok orders (mkCommittee c0 (ctl s)) E (clock 2%nat) (txl ++ [tx]) cnt []) as Hfin.
    cbn [ccm] in Hfin. apply Hfin; clear Hfin; [|done|done|by apply Forall_nil].
    apply (committee_ok_frame s); try done. apply Hc.
Qed.

Lemma poll_ok s E now orders :
  committee_ok s E → orders_ok s orders →
  ∃ c ct out, poll IpNodeTable now orders (ctl s) (ccm s) = Ok (c, ct, out) ∧
   (∃ E', committee_ok (mkCommittee c ct) E') ∧ maps_valid out.
Proof.
  intros Hc Ho. pose proof (co_batch _ _ Hc) as Hb.
  assert (∀ c ct, clpaGraph c = clpaGraph (ccm s) → modifiedMap c = modifiedMap (ccm s) → Forall sender_ok (batch ct) →
    ∃ c' ct' out, Ok (c, ct, [] : list packet) = Ok (c', ct', out) ∧
     (∃ E', committee_ok (mkCommittee c' ct') E') ∧ maps_valid out) as Hq.
  { intros c ct Eg Em Hf. eexists _, _, _. split; [reflexivity|]. split; [|by apply Forall_nil].
    exists E. by apply (committee_ok_frame s). }
  unfold poll. destruct (ctl s) as [txl cnt|txl cnt|cnt|cnt|cnt] eqn:Ec; [by apply Hq| | | |by apply Hq].
  - destruct (_ =? _); apply Hq; try done. by apply batch_next.
  - destruct (GapEnough _); [by apply Hq|]. destruct (due _ _); [|by apply Hq].
    destruct (repartition_step orders s E (WaitDraining (cnt + 1)) Hc Ho) as (c & o & -> & Hc' & Hv); [done|].
    cbn [mbind go_bind fst snd]. eexists _, _, _. split; [reflexivity|]. split; [by eexists|done].
  - destruct (_ =? _); by apply Hq.
Qed.

Lemma report_ok s E b : committee_ok s E → Forall tx_ok (InnerShardTxs b) → Forall tx_ok (Relay2Txs b) →
  ∃ c E', clpa_HandleBlockInfo b (ccm s) = Ok c ∧ committee_ok (mkCommittee c (ctl s)) E'.
Proof.
  intros Hc H1 H2. unfold clpa_HandleBlockInfo. set (c0 := if curEpoch _ =? _ then _ else _).
  assert (clpaGraph c0 = clpaGraph (ccm s) ∧ modifiedMap c0 = modifiedMap (ccm s)) as [Eg Em]
    by (unfold c0; by destruct (curEpoch _ =? _)).
  destruct (BlockBodyLength b =? 0).
  { exists c0, E. split; [done|]. apply (committee_ok_frame s); try done. apply Hc. }
  pose proof Hc as [Hg Hm Hs Hl Hv Hb]. rewrite Eg.
  destruct (add_txs_ok (InnerShardTxs b) _ E Hg Hm Hs Hl H1) as (g1 & E1 & -> & Hg1 & Hm1 & Hs1 & Hl1). cbn [mbind go_bind].
  destruct (add_txs_ok (Relay2Txs b) g1 E1 Hg1 Hm1 Hs1 Hl1 H2) as (g2 & E2 & -> & Hg2 & Hm2 & Hs2 & Hl2).
  cbn [mbind go_bind]. exists (c0 <| clpaGraph := g2 |>), E2. split; [done|]. split; cbn; try done. by rewrite Em.
Qed.

Lemma step_ok s E e : committee_ok s E → event_ok s e →
  ∃ s' out E', cstep IpNodeTable s e = Ok (s', out) ∧ committee_ok s' E' ∧ maps_valid out.
Proof.
  intros Hc He. assert (Forall valid_map (maps_of [])) as Hnil by (by apply Forall_nil).
  destruct e as [data clock orders| |now orders|b|b]; cbn [cstep].
  - destruct (ctl s) as [txl cnt| | | |] eqn:Ec; try (by exists s, [], E).
    destruct (read_row_ok s E data clock orders txl cnt Hc Ec He) as (c & ct & out & -> & [E' Hc'] & Hv).
    cbn [mbind go_bind fst snd]. by eexists _, _, E'.
  - pose proof (co_batch _ _ Hc) as Hb. destruct (ctl s) as [txl cnt| | | |] eqn:Ec; try (by exists s, [], E).
    eexists _, _, E. split; [reflexivity|]. split; [by apply (committee_ok_frame s)|done].
  - destruct (poll_ok s E now orders Hc He) as (c & ct & out & -> & [E' Hc'] & Hv).
    cbn [mbind go_bind fst snd]. by eexists _, _, E'.
  - eexists _, _, E. split; [reflexivity|]. split; [|done]. apply (committee_ok_frame s); try done. apply Hc.
  - destruct He as [H1 H2]. destruct (report_ok s E b Hc H1 H2) as (c & E' & -> & Hc'). cbn [mbind go_bind].
    by eexists _, _, E'.
Qed.

Lemma new_ok ss d b f : ∃ c0, starts c0 ss d b f ∧ committee_ok (mkCommittee c0 (Reading [] 0)) [].
Proof.
  unfold starts, NewCLPACommitteeModule, new_graph.
  destruct (init_ok half_penalty 100) as (cg & -> & Hg & Hm & Hs & _); [lia|]. cbn [mbind go_bind].
  eexists. split; [reflexivity|]. split; cbn; try done.
  intros v Hin. by apply elem_of_nil in Hin.
Qed.

Lemma run_ok_maps s es outs s' : crun IpNodeTable event_ok s es outs s' → (∃ E, committee_ok s E) →
  (∃ E, committee_ok s' E) ∧ maps_valid outs.
Proof.
  induction 1 as [|s e s1 out es outs s2 He Hs _ IH]; intros [E Hc]; [split; [by exists E|by apply Forall_nil]|].
  destruct (step_ok s E e Hc He) as (s1' & out' & E' & Es & Hc' & Hv). rewrite Hs in Es. injection Es as <- <-.
  destruct IH as [Hfin Hvs]; [by exists E'|]. split; [done|]. by apply maps_valid_app.
Qed.

(** C17: the committee does not panic and sends valid maps.  With at least one shard, from a new
    committee, as long as rows parse into transactions with well-formed senders, visiting
    orders visit the graph and reported transactions are between different well-formed
    addresses, every step returns, and every map the committee has sent places its accounts in
    existing shards. *)
Theorem committee_safe ss d b f : ∃ c0, starts c0 ss d b f ∧
  ∀ es outs (s : committee), crun IpNodeTable event_ok (mkCommittee c0 (Reading [] 0)) es outs s →
    Forall valid_map (maps_of outs) ∧
    ∀ e, event_ok s e → ∃ s' out, cstep IpNodeTable s e = Ok (s', out).
Proof.
  destruct (new_ok ss d b f) as (c0 & Hs & Hc). exists c0. split; [exact Hs|]. intros es outs s Hr.
  destruct (run_ok_maps _ es outs s Hr) as [[E Hc'] Hv]; [by exists []|]. split; [exact Hv|].
  intros e He. destruct (step_ok s E e Hc' He) as (s' & out & _ & Es & _). by exists s', out.
Qed.
End safety.

(** ** Witnesses: a report, the end of the data, a partition, and the report of its epoch *)
Module CommitteeExample.
Import ConcreteLibs ConcreteCore ChainExample.
#[local] Existing Instance default_params.
#[local] Existing Instance OverheadExample.req_codec.
#[local] Existing Instance ClpaExample.atm_codec.

Definition sig : StopSignal := NewStopSignal 12.
Definition report (epoch : Z) (txs : list Transaction) : BlockInfoMsg :=
  mkBlockInfoMsg (len txs) txs epoch 0 0 3 [] [] [] [].
Definition visit : nat → list Vertex := λ _, [mkVertex addrA; mkVertex addrB; mkVertex addrC].
Definition moves : list Transaction := [sample_tx addrA addrC 1; sample_tx addrA addrB 1; sample_tx addrC "00000002" 1;
  sample_tx "00000000" "00000002" 1].
Definition events : list cevent :=
  [EvReport (report 0 moves); EvEOF; EvPoll 5 visit; EvReport (report 1 []); EvPoll 6 visit].

Definition start : committee :=
  match NewCLPACommitteeModule sig 10 2 0 with
  | Ok c => mkCommittee c (Reading [] 0)
  | Panic _ => mkCommittee (mkClpaCommittee 0 0 0 0 zero_state ∅ 0 0 sig) (Finished 0)
  end.

Lemma started : starts (ccm start) sig 10 2 0.
Proof. vm_compute. reflexivity. Qed.

Fixpoint steps (s : committee) (es : list cevent) : list packet * committee :=
  match es with
  | [] => ([], s)
  | e :: es' => match Committee.cstep ∅ s e with
                | Ok (s1, out) => let r := steps s1 es' in (out ++ r.1, r.2)
                | Panic _ => ([], s)
                end
  end.

(** The events are acceptable along the run. *)
Fixpoint all_ok (ok : committee → cevent → Prop) (s : committee) (es : list cevent) : Prop :=
  match es with
  | [] => True
  | e :: es' => ok s e ∧ match Committee.cstep ∅ s e with Ok (s1, _) => all_ok ok s1 es' | Panic _ => False end
  end.

Lemma steps_run (ok : committee → cevent → Prop) es : ∀ s,
  all_ok ok s es → Committee.crun ∅ ok s es (steps s es).1 (steps s es).2.
Proof.
  induction es as [|e es IH]; intros s Hs; [apply crun_nil|]. destruct Hs as [He Hs]. cbn [steps].
  destruct (Committee.cstep ∅ s e) as [[s1 out]|] eqn:E; [|done]. cbn [fst snd].
  eapply crun_cons; [exact He|exact E|by apply IH].
Qed.

Definition final : committee := (steps start events).2.
Definition sent_packets : list packet := (steps start events).1.

Lemma start_at : start = mkCommittee (ccm start) (Reading [] 0).
Proof. vm_compute. reflexivity. Qed.

Lemma one_map_at_a_time_witness :
  ∃ ms, maps_of sent_packets = to_all ms ∧ len ms - 1 ≤ curEpoch (ccm final) ≤ len ms.
Proof.
  destruct (one_map_at_a_time ∅ (ccm start) sig 10 2 0 events sent_packets final) as (ms & Ho & Hr & _).
  - exact started.
  - rewrite <-start_at. apply steps_run. vm_compute. repeat split; congruence.
  - vm_compute. reflexivity.
  - exists ms. split; [exact Ho|exact Hr].
Defined.

(** A node can apply any maps. *)
Lemma transfers_exist (p : PbftConsensusNode ClpaApp) ms : ∀ x m, chain_ok (CurChain x) m → ∃ y, transfers p x ms y.
Proof.
  induction ms as [|mm ms IH]; intros x m Hck; [by eexists; apply tr_nil|].
  destruct (transfer_do_spec p x m (mkAccountTransferMsg mm [] [] 1) Hck) as (x' & bc0 & E & Hck' & _);
    [done|by apply Forall_nil|].
  destruct (IH x' _ Hck') as [y Hy]. exists y. by eapply (tr_cons p x x (mkAccountTransferMsg mm [] [] 1)).
Qed.

Lemma routing_agrees_witness :
  ∃ y : ClpaApp, ∀ addr, Get_PartitionMap (CurChain y) addr = clpa_fetchModifiedMap (ccm final) addr.
Proof.
  destruct (genesis_of cfg) as (bc & _ & Hck & _ & _ & Hm & _).
  destruct (routing_agrees ∅ (ccm start) sig 10 2 0 events sent_packets final) as (ms & _ & Hag).
  - exact started.
  - rewrite <-start_at. apply steps_run. vm_compute. by repeat split.
  - destruct (transfers_exist (NewPbftNode 3 0 cfg ∅ 0 0 (mkClpaApp bc NewCLPADataSupport PhIdle)) ms
      (mkClpaApp bc NewCLPADataSupport PhIdle) ∅ Hck) as [y Hy].
    exists y. exact (Hag _ (mkClpaApp bc NewCLPADataSupport PhIdle) y Hm Hy).
Defined.

Lemma committee_safe_witness : ∃ c0, starts c0 sig 10 2 0 ∧
  ∃ s' out, Committee.cstep ∅ (mkCommittee c0 (Reading [] 0)) (EvReport (report 0 moves)) = Ok (s', out).
Proof.
  assert (0 < ShardNum < 2 ^ 63) as Hn by (split; vm_compute; reflexivity).
  assert (0 < InjectSpeed) as Hi by (vm_compute; reflexivity).
  destruct (committee_safe ∅ Hn Hi sig 10 2 0) as (c0 & Hs & Hrun).
  exists c0. split; [exact Hs|]. apply (Hrun [] [] _ (crun_nil _ _ _)). cbn. split; [|by apply Forall_nil].
  assert (∀ a c, is_hex a && is_hex c && bool_decide (a ≠ "" ∧ c ≠ "" ∧ a ≠ c) = true → tx_ok (sample_tx a c 1)) as Htx.
  { intros a c [[Ha Hc]%andb_true_iff (? & ? & ?)%bool_decide_eq_true]%andb_true_iff. done. }
  repeat (apply Forall_cons_2; [apply Htx; vm_compute; reflexivity|]). by apply Forall_nil.
Defined.
End CommitteeExample.
