(* ===== verification/Cbf.v ===== *)
(** * The counting Bloom filter of ExClique ([consensus_shard/exclique/cbf.go])

    A slice of 8-bit counters, hashed into by 64-bit FNV-1a with a seed byte.  The counters
    saturate at 255 and at 0.  As long as nothing saturates the filter refines the multiset of
    the items it holds. *)
From Stdlib Require Import Ascii.
From stdpp Require Import gmultiset.
From S2P Require Import Prelude Utils.

(** ** [hash/fnv] *)
Definition fnv_offset : Z := 14695981039346656037.
Definition fnv_prime : Z := 1099511628211.

(** Write one byte: xor, then multiply. *)
Definition fnv_byte (h : Z) (c : ascii) : Z := u64 (Z.lxor h (byte_of c) * fnv_prime).
Definition fnv64a (l : list ascii) : Z := foldl fnv_byte fnv_offset l.

(** [byte(n)] *)
Definition to_byte (n : Z) : ascii := ascii_of_nat (Z.to_nat (n mod 256)).

(** ** The filter *)
Record CountingBloomFilter := mkCBF {
  counters : list Z;
  cbf_size : Z;
  hashNum : Z;
}.
#[export] Instance CBF_eta : Eta CountingBloomFilter := λ c, mkCBF (counters c) (cbf_size c) (hashNum c).

Definition NewCountingBloomFilter (size hashNum : Z) : CountingBloomFilter :=
  mkCBF (replicate (Z.to_nat size) 0) size hashNum.

Definition cbf_hash (cbf : CountingBloomFilter) (item : bytes) (seed : Z) : go Z :=
  if cbf_size cbf =? 0 then Panic "integer divide by zero"
  else Ok (fnv64a (chars item ++ [to_byte seed]) mod cbf_size cbf).

(** The seeds of the loops. *)
Definition seeds (cbf : CountingBloomFilter) : list Z := Z.of_nat <$> seq 0 (Z.to_nat (hashNum cbf)).

(** [cbf.counters[pos]] *)
Definition counter (cbf : CountingBloomFilter) (pos : Z) : go Z :=
  match counters cbf !! Z.to_nat pos with
  | Some c => Ok c
  | None => Panic "index out of range"
  end.

Definition add_seed (item : bytes) (cbf : CountingBloomFilter) (i : Z) : go CountingBloomFilter :=
  pos ← cbf_hash cbf item i;
  c ← counter cbf pos;
  Ok (if c <? 255 then cbf <| counters ::= <[Z.to_nat pos := c + 1]> |> else cbf).

Definition CBF_Add (item : bytes) (cbf : CountingBloomFilter) : go CountingBloomFilter :=
  go_fold (add_seed item) cbf (seeds cbf).

Definition remove_seed (item : bytes) (cbf : CountingBloomFilter) (i : Z) : go CountingBloomFilter :=
  pos ← cbf_hash cbf item i;
  c ← counter cbf pos;
  Ok (if 0 <? c then cbf <| counters ::= <[Z.to_nat pos := c - 1]> |> else cbf).

Definition CBF_Remove (item : bytes) (cbf : CountingBloomFilter) : go CountingBloomFilter :=
  go_fold (remove_seed item) cbf (seeds cbf).

(** The loop of [Contains], with its early return. *)
Fixpoint contains_from (cbf : CountingBloomFilter) (item : bytes) (is_ : list Z) : go bool :=
  match is_ with
  | [] => Ok true
  | i :: is_' =>
      pos ← cbf_hash cbf item i;
      c ← counter cbf pos;
      if c =? 0 then Ok false else contains_from cbf item is_'
  end.

Definition CBF_Contains (cbf : CountingBloomFilter) (item : bytes) : go bool :=
  contains_from cbf item (seeds cbf).

Definition min_seed (cbf : CountingBloomFilter) (item : bytes) (minCount i : Z) : go Z :=
  pos ← cbf_hash cbf item i;
  c ← counter cbf pos;
  Ok (if c <? minCount then c else minCount).

Definition CBF_GetCount (cbf : CountingBloomFilter) (item : bytes) : go Z :=
  go_fold (min_seed cbf item) 255 (seeds cbf).

Definition CBF_Clear (cbf : CountingBloomFilter) : CountingBloomFilter :=
  cbf <| counters ::= λ l, replicate (length l) 0 |>.

Definition CBF_Size (cbf : CountingBloomFilter) : Z := cbf_size cbf.

Definition CBF_Encode (cbf : CountingBloomFilter) : bytes := unchars (to_byte <$> counters cbf).

Definition CBF_Decode (data : bytes) (cbf : CountingBloomFilter) : CountingBloomFilter :=
  if len (chars data) =? len (counters cbf) then cbf <| counters := byte_of <$> chars data |> else cbf.

(** ** The invariant *)
Record cbf_ok (cbf : CountingBloomFilter) : Prop := {
  cbf_len : len (counters cbf) = cbf_size cbf;
  cbf_pos : 0 < cbf_size cbf;
  cbf_u8 : Forall (λ c, 0 ≤ c ≤ 255) (counters cbf);
}.

(** The position of an item for a seed, and how often the item hits a position. *)
Definition pos_of (cbf : CountingBloomFilter) (item : bytes) (i : Z) : Z :=
  fnv64a (chars item ++ [to_byte i]) mod cbf_size cbf.
Definition at_pos (cbf : CountingBloomFilter) (p : Z) : Z := nth (Z.to_nat p) (counters cbf) 0.
Definition hits (cbf : CountingBloomFilter) (item : bytes) (is_ : list Z) (p : Z) : Z :=
  sumZ (λ i, if pos_of cbf item i =? p then 1 else 0) is_.

Lemma new_cbf_ok size hn : 0 < size → cbf_ok (NewCountingBloomFilter size hn).
Proof.
  intros Hs. split; cbn; [unfold len; rewrite length_replicate; lia|done|].
  apply Forall_replicate. lia.
Qed.

Lemma pos_range cbf item i : cbf_ok cbf → 0 ≤ pos_of cbf item i < len (counters cbf).
Proof. intros [-> Hp _]. apply Z.mod_pos_bound. done. Qed.

Lemma hash_ok cbf item i : cbf_ok cbf → cbf_hash cbf item i = Ok (pos_of cbf item i).
Proof. intros [_ Hp _]. unfold cbf_hash. by rewrite (proj2 (Z.eqb_neq _ _)) by lia. Qed.

Lemma counter_ok cbf p : 0 ≤ p < len (counters cbf) → counter cbf p = Ok (at_pos cbf p).
Proof.
  unfold len, counter, at_pos. intros Hp.
  destruct (lookup_lt_is_Some_2 (counters cbf) (Z.to_nat p)) as [c Hc]; [lia|]. rewrite Hc.
  by rewrite (nth_lookup_Some _ _ _ _ Hc).
Qed.

Lemma at_pos_u8 cbf p : cbf_ok cbf → 0 ≤ at_pos cbf p ≤ 255.
Proof.
  intros [_ _ Hu]. unfold at_pos. destruct (counters cbf !! Z.to_nat p) as [c|] eqn:E.
  - rewrite (nth_lookup_Some _ _ _ _ E). eapply Forall_lookup_1 in Hu; [|exact E]. done.
  - rewrite nth_lookup, E. cbn. lia.
Qed.

(** Writing one counter. *)
Lemma write_ok cbf p v : cbf_ok cbf → 0 ≤ p < len (counters cbf) → 0 ≤ v ≤ 255 →
  let cbf' := cbf <| counters ::= <[Z.to_nat p := v]> |> in
  cbf_ok cbf' ∧ ∀ q, 0 ≤ q → at_pos cbf' q = if p =? q then v else at_pos cbf q.
Proof.
  intros [Hl Hp Hu] Hr Hv cbf'. split.
  - split; cbn; [unfold len in *; rewrite length_insert; exact Hl|done|by apply Forall_insert].
  - intros q Hq. unfold at_pos. cbn. rewrite !nth_lookup. destruct (p =? q) eqn:E; zbool.
    + subst. unfold len in Hr. rewrite list_lookup_insert_eq by lia. done.
    + rewrite list_lookup_insert_ne by lia. done.
Qed.

(** ** What the loops do to the counters *)
Lemma add_seed_ok item cbf i : cbf_ok cbf →
  ∃ cbf', add_seed item cbf i = Ok cbf' ∧ cbf_ok cbf' ∧ cbf_size cbf' = cbf_size cbf ∧ hashNum cbf' = hashNum cbf ∧
    ∀ p, 0 ≤ p → at_pos cbf' p = Z.min 255 (at_pos cbf p + (if pos_of cbf item i =? p then 1 else 0)).
Proof.
  intros Hok. unfold add_seed. rewrite hash_ok by done. cbn [mbind go_bind].
  pose proof (pos_range cbf item i Hok) as Hr. rewrite counter_ok by done. cbn [mbind go_bind].
  pose proof (at_pos_u8 cbf (pos_of cbf item i) Hok) as Hu.
  destruct (at_pos cbf (pos_of cbf item i) <? 255) eqn:E; zbool.
  - destruct (write_ok cbf (pos_of cbf item i) (at_pos cbf (pos_of cbf item i) + 1) Hok Hr) as [Hok' Hat]; [lia|].
    eexists. split; [done|]. split; [exact Hok'|]. split; [done|]. split; [done|]. intros p Hp. rewrite Hat by done.
    pose proof (at_pos_u8 cbf p Hok). destruct (_ =? p) eqn:Ep; zbool; [subst p|]; lia.
  - exists cbf. split; [done|]. split; [done|]. split; [done|]. split; [done|]. intros p Hp.
    pose proof (at_pos_u8 cbf p Hok). destruct (_ =? p) eqn:Ep; zbool; [subst p|]; lia.
Qed.

Lemma remove_seed_ok item cbf i : cbf_ok cbf →
  ∃ cbf', remove_seed item cbf i = Ok cbf' ∧ cbf_ok cbf' ∧ cbf_size cbf' = cbf_size cbf ∧ hashNum cbf' = hashNum cbf ∧
    ∀ p, 0 ≤ p → at_pos cbf' p = Z.max 0 (at_pos cbf p - (if pos_of cbf item i =? p then 1 else 0)).
Proof.
  intros Hok. unfold remove_seed. rewrite hash_ok by done. cbn [mbind go_bind].
  pose proof (pos_range cbf item i Hok) as Hr. rewrite counter_ok by done. cbn [mbind go_bind].
  pose proof (at_pos_u8 cbf (pos_of cbf item i) Hok) as Hu.
  destruct (0 <? at_pos cbf (pos_of cbf item i)) eqn:E; zbool.
  - destruct (write_ok cbf (pos_of cbf item i) (at_pos cbf (pos_of cbf item i) - 1) Hok Hr) as [Hok' Hat]; [lia|].
    eexists. split; [done|]. split; [exact Hok'|]. split; [done|]. split; [done|]. intros p Hp. rewrite Hat by done.
    pose proof (at_pos_u8 cbf p Hok). destruct (_ =? p) eqn:Ep; zbool; [subst p|]; lia.
  - exists cbf. split; [done|]. split; [done|]. split; [done|]. split; [done|]. intros p Hp.
    pose proof (at_pos_u8 cbf p Hok). destruct (_ =? p) eqn:Ep; zbool; [subst p|]; lia.
Qed.

Lemma hits_cons cbf item i is_ p :
  hits cbf item (i :: is_) p = (if pos_of cbf item i =? p then 1 else 0) + hits cbf item is_ p.
Proof. unfold hits. by rewrite sumZ_cons. Qed.

Lemma hits_nonneg cbf item is_ p : 0 ≤ hits cbf item is_ p.
Proof. induction is_ as [|i is_ IH]; [done|]. rewrite hits_cons. case_match; lia. Qed.

Lemma hits_size cbf cbf' item is_ p : cbf_size cbf' = cbf_size cbf → hits cbf' item is_ p = hits cbf item is_ p.
Proof. intros E. unfold hits, pos_of. by rewrite E. Qed.

Lemma add_loop item is_ : ∀ cbf, cbf_ok cbf →
  ∃ cbf', go_fold (add_seed item) cbf is_ = Ok cbf' ∧ cbf_ok cbf' ∧ cbf_size cbf' = cbf_size cbf ∧ hashNum cbf' = hashNum cbf ∧
    ∀ p, 0 ≤ p → at_pos cbf' p = Z.min 255 (at_pos cbf p + hits cbf item is_ p).
Proof.
  induction is_ as [|i is_ IH]; intros cbf Hok; cbn [go_fold].
  - exists cbf. split; [done|]. split; [done|]. split; [done|]. split; [done|]. intros p _.
    pose proof (at_pos_u8 cbf p Hok). cbn. lia.
  - destruct (add_seed_ok item cbf i Hok) as (c1 & -> & Hok1 & S1 & N1 & A1). cbn [mbind go_bind].
    destruct (IH c1 Hok1) as (c2 & -> & Hok2 & S2 & N2 & A2). exists c2. split; [done|]. split; [done|].
    split; [congruence|]. split; [congruence|]. intros p Hp. rewrite A2, A1, hits_cons, (hits_size cbf c1) by done.
    pose proof (hits_nonneg cbf item is_ p). case_match; lia.
Qed.

Lemma remove_loop item is_ : ∀ cbf, cbf_ok cbf →
  ∃ cbf', go_fold (remove_seed item) cbf is_ = Ok cbf' ∧ cbf_ok cbf' ∧ cbf_size cbf' = cbf_size cbf ∧ hashNum cbf' = hashNum cbf ∧
    ∀ p, 0 ≤ p → at_pos cbf' p = Z.max 0 (at_pos cbf p - hits cbf item is_ p).
Proof.
  induction is_ as [|i is_ IH]; intros cbf Hok; cbn [go_fold].
  - exists cbf. split; [done|]. split; [done|]. split; [done|]. split; [done|]. intros p _.
    pose proof (at_pos_u8 cbf p Hok). cbn. lia.
  - destruct (remove_seed_ok item cbf i Hok) as (c1 & -> & Hok1 & S1 & N1 & A1). cbn [mbind go_bind].
    destruct (IH c1 Hok1) as (c2 & -> & Hok2 & S2 & N2 & A2). exists c2. split; [done|]. split; [done|].
    split; [congruence|]. split; [congruence|]. intros p Hp. rewrite A2, A1, hits_cons, (hits_size cbf c1) by done.
    pose proof (hits_nonneg cbf item is_ p). case_match; lia.
Qed.

Lemma contains_spec item is_ cbf : cbf_ok cbf →
  contains_from cbf item is_ = Ok (forallb (λ i, negb (at_pos cbf (pos_of cbf item i) =? 0)) is_).
Proof.
  intros Hok. induction is_ as [|i is_ IH]; cbn; [done|]. rewrite hash_ok by done. cbn [mbind go_bind].
  rewrite counter_ok by (by apply pos_range). cbn [mbind go_bind]. by case_match.
Qed.

Lemma min_seed_ok cbf item m i : cbf_ok cbf →
  min_seed cbf item m i = Ok (Z.min (at_pos cbf (pos_of cbf item i)) m).
Proof.
  intros Hok. unfold min_seed. rewrite hash_ok by done. cbn [mbind go_bind].
  rewrite counter_ok by (by apply pos_range). cbn [mbind go_bind]. f_equal. case_match; zbool; lia.
Qed.

Lemma count_spec item is_ cbf : cbf_ok cbf → ∀ m, 0 ≤ m ≤ 255 →
  ∃ k, go_fold (min_seed cbf item) m is_ = Ok k ∧ 0 ≤ k ≤ m ∧
    (∀ b, b ≤ m → (∀ i, i ∈ is_ → b ≤ at_pos cbf (pos_of cbf item i)) → b ≤ k) ∧
    ∀ i, i ∈ is_ → k ≤ at_pos cbf (pos_of cbf item i).
Proof.
  intros Hok. induction is_ as [|i is_ IH]; intros m Hm; cbn [go_fold].
  - exists m. split; [done|]. split; [lia|]. split; [done|]. by intros i ?%elem_of_nil.
  - rewrite min_seed_ok by done. cbn [mbind go_bind]. set (c := at_pos cbf (pos_of cbf item i)). pose proof (at_pos_u8 cbf (pos_of cbf item i) Hok) as Hc. fold c in Hc.
    destruct (IH (Z.min c m)) as (k & Ek & Hr & Hlow & Hup); [lia|].
    exists k. split; [exact Ek|]. split; [lia|]. split.
    + intros b Hb Hall. apply Hlow; [|intros j Hj; apply Hall; set_solver].
      pose proof (Hall i (list_elem_of_here _ _)). fold c in H. lia.
    + intros j Hj. apply elem_of_cons in Hj as [->|Hj]; [|by apply Hup]. fold c. lia.
Qed.

(** ** Refinement of a multiset *)
Section multiset.
Abbreviation items := (gmultiset bytes).

(** An operation of the filter, and what it means for the multiset of items; an item is removed
    only while it is there. *)
Inductive cbf_op := OpAdd (item : bytes) | OpRemove (item : bytes).

Definition cbf_step (cbf : CountingBloomFilter) (o : cbf_op) : go CountingBloomFilter :=
  match o with OpAdd x => CBF_Add x cbf | OpRemove x => CBF_Remove x cbf end.

Fixpoint held (X : items) (ops : list cbf_op) : option items :=
  match ops with
  | [] => Some X
  | OpAdd x :: ops' => held (X ⊎ {[+ x +]}) ops'
  | OpRemove x :: ops' => if decide (x ∈ X) then held (X ∖ {[+ x +]}) ops' else None
  end.

Definition adds (ops : list cbf_op) : Z := len (List.filter (λ o, match o with OpAdd _ => true | _ => false end) ops).

(** Every counter is the number of hits of the items held. *)
Definition holds (cbf : CountingBloomFilter) (X : items) : Prop :=
  ∀ p, 0 ≤ p → at_pos cbf p = sumZ (λ x, hits cbf x (seeds cbf) p) (elements X).

Lemma hits_le cbf x is_ p : hits cbf x is_ p ≤ len is_.
Proof. induction is_ as [|i is_ IH]; [done|]. rewrite hits_cons. unfold len in *. cbn. case_match; lia. Qed.

Lemma seeds_len cbf : 0 ≤ hashNum cbf → len (seeds cbf) = hashNum cbf.
Proof. intros Hn. unfold seeds, len. rewrite length_fmap, length_seq. lia. Qed.

Lemma seeds_same cbf cbf' : hashNum cbf' = hashNum cbf → seeds cbf' = seeds cbf.
Proof. unfold seeds. by intros ->. Qed.

Lemma sum_hits_bound cbf l p : 0 ≤ hashNum cbf → sumZ (λ x, hits cbf x (seeds cbf) p) l ≤ hashNum cbf * len l.
Proof.
  intros Hn. induction l as [|x l IH]; [unfold len; cbn; lia|]. rewrite sumZ_cons. unfold len in *. cbn [length].
  pose proof (hits_le cbf x (seeds cbf) p) as Hh. rewrite seeds_len in Hh by done. lia.
Qed.

Lemma sum_hits_split cbf (X : items) x p : x ∈ X →
  sumZ (λ y, hits cbf y (seeds cbf) p) (elements X) =
  hits cbf x (seeds cbf) p + sumZ (λ y, hits cbf y (seeds cbf) p) (elements (X ∖ {[+ x +]})).
Proof.
  intros Hx. rewrite <-(sumZ_cons (λ y, hits cbf y (seeds cbf) p) x). apply sumZ_Permutation.
  rewrite (gmultiset_disj_union_difference' x X Hx) at 1. by rewrite gmultiset_elements_disj_union, gmultiset_elements_singleton.
Qed.

Lemma elements_add (X : items) x : elements (X ⊎ {[+ x +]}) ≡ₚ x :: elements X.
Proof. by rewrite gmultiset_elements_disj_union, gmultiset_elements_singleton, Permutation_app_comm. Qed.

Lemma add_holds cbf X x : cbf_ok cbf → holds cbf X → 0 ≤ hashNum cbf →
  hashNum cbf * (len (elements X) + 1) ≤ 255 →
  ∃ cbf', CBF_Add x cbf = Ok cbf' ∧ cbf_ok cbf' ∧ hashNum cbf' = hashNum cbf ∧ holds cbf' (X ⊎ {[+ x +]}).
Proof.
  intros Hok Hh Hn Hb. destruct (add_loop x (seeds cbf) cbf Hok) as (c & E & Hok' & S & N & A).
  exists c. split; [exact E|]. split; [done|]. split; [done|]. intros p Hp.
  rewrite A, Hh by done. rewrite (sumZ_Permutation _ _ _ (elements_add X x)), sumZ_cons.
  rewrite (seeds_same cbf c N), (hits_size cbf c) by done.
  rewrite (sumZ_ext (λ y, hits c y _ p) (λ y, hits cbf y (seeds cbf) p)) by (intros; by apply hits_size).
  pose proof (sum_hits_bound cbf (elements X) p Hn). pose proof (hits_le cbf x (seeds cbf) p) as Hl.
  rewrite seeds_len in Hl by done. lia.
Qed.

Lemma remove_holds cbf X x : cbf_ok cbf → holds cbf X → x ∈ X →
  ∃ cbf', CBF_Remove x cbf = Ok cbf' ∧ cbf_ok cbf' ∧ hashNum cbf' = hashNum cbf ∧ holds cbf' (X ∖ {[+ x +]}).
Proof.
  intros Hok Hh Hx. destruct (remove_loop x (seeds cbf) cbf Hok) as (c & E & Hok' & S & N & A).
  exists c. split; [exact E|]. split; [done|]. split; [done|]. intros p Hp.
  rewrite A, Hh, (sum_hits_split cbf X x p Hx) by done. rewrite (seeds_same cbf c N).
  rewrite (sumZ_ext (λ y, hits c y _ p) (λ y, hits cbf y (seeds cbf) p)) by (intros; by apply hits_size).
  assert (0 ≤ sumZ (λ y, hits cbf y (seeds cbf) p) (elements (X ∖ {[+ x +]}))); [|lia].
  clear. induction (elements _) as [|y l IH]; [done|]. rewrite sumZ_cons. pose proof (hits_nonneg cbf y (seeds cbf) p). lia.
Qed.

Lemma run_holds ops : ∀ cbf X Y, cbf_ok cbf → holds cbf X → held X ops = Some Y → 0 ≤ hashNum cbf →
  hashNum cbf * (len (elements X) + adds ops) ≤ 255 →
  ∃ cbf', go_fold cbf_step cbf ops = Ok cbf' ∧ cbf_ok cbf' ∧ hashNum cbf' = hashNum cbf ∧ holds cbf' Y.
Proof.
  induction ops as [|[x|x] ops IH]; intros cbf X Y Hok Hh He Hn Hb; cbn [held go_fold cbf_step] in *.
  - injection He as <-. by exists cbf.
  - unfold adds in Hb. cbn in Hb. unfold len in Hb. cbn [length] in Hb.
    destruct (add_holds cbf X x Hok Hh Hn) as (c & -> & Hok' & N & Hh'); [unfold len; lia|]. cbn [mbind go_bind].
    destruct (IH c _ Y Hok' Hh' He) as (c' & -> & Hok'' & N' & Hh''); [lia| |exists c'; rewrite <-N; auto].
    rewrite N. unfold len, adds, len. rewrite (Permutation_length (elements_add X x)). cbn [length]. lia.
  - destruct (decide (x ∈ X)) as [Hx|]; [|done].
    destruct (remove_holds cbf X x Hok Hh Hx) as (c & -> & Hok' & N & Hh'). cbn [mbind go_bind].
    destruct (IH c _ Y Hok' Hh' He) as (c' & -> & Hok'' & N' & Hh''); [lia| |exists c'; rewrite <-N; auto].
    rewrite N. assert (len (elements (X ∖ {[+ x +]})) ≤ len (elements X)); [|unfold adds in *; cbn in Hb; nia].
    rewrite (gmultiset_disj_union_difference' x X Hx) at 2. unfold len.
    rewrite gmultiset_elements_disj_union, length_app. lia.
Qed.

Lemma new_holds size hn : holds (NewCountingBloomFilter size hn) ∅.
Proof.
  intros p _. rewrite gmultiset_elements_empty. unfold at_pos. cbn. rewrite nth_lookup.
  destruct (replicate _ 0 !! _) as [v|] eqn:E; [|done]. by apply lookup_replicate in E as [-> _].
Qed.

(** An item held [k] times hits each of its positions at least [k] times. *)
Lemma sum_hits_mult cbf x i (X : items) : i ∈ seeds cbf →
  Z.of_nat (multiplicity x X) ≤ sumZ (λ y, hits cbf y (seeds cbf) (pos_of cbf x i)) (elements X).
Proof.
  intros Hi. assert (1 ≤ hits cbf x (seeds cbf) (pos_of cbf x i)) as H1.
  { clear -Hi. induction (seeds cbf) as [|j l IH]; [by apply elem_of_nil in Hi|]. rewrite hits_cons.
    pose proof (hits_nonneg cbf x l (pos_of cbf x i)). apply elem_of_cons in Hi as [->|Hi].
    - rewrite Z.eqb_refl. lia.
    - specialize (IH Hi). case_match; lia. }
  induction X as [|y X IH] using gmultiset_ind; [rewrite multiplicity_empty, gmultiset_elements_empty; done|].
  rewrite gmultiset_elements_disj_union, gmultiset_elements_singleton. cbn [app]. rewrite sumZ_cons.
  rewrite multiplicity_disj_union. pose proof (hits_nonneg cbf y (seeds cbf) (pos_of cbf x i)).
  rewrite multiplicity_singleton. case_decide as Hd; [subst y|]; lia.
Qed.
End multiset.

(** C28: the counting Bloom filter refines a multiset.  After any additions, and removals of
    items that are there, on a new filter with at least one hash function, in which fewer than
    256 increments were made, the filter answers [Contains] for every item held, and
    [GetCount] is at least the number of copies held; the counters fit a byte. *)
Theorem cbf_refines_multiset (size hn : Z) (ops : list cbf_op) (X : gmultiset bytes) :
  0 < size → 0 < hn → hn * adds ops ≤ 255 → held ∅ ops = Some X →
  ∃ cbf, go_fold cbf_step (NewCountingBloomFilter size hn) ops = Ok cbf ∧
    Forall (λ c, 0 ≤ c ≤ 255) (counters cbf) ∧
    ∀ x, x ∈ X → CBF_Contains cbf x = Ok true ∧
      ∃ k, CBF_GetCount cbf x = Ok k ∧ Z.of_nat (multiplicity x X) ≤ k ≤ 255.
Proof.
  intros Hs Hn Hb He.
  destruct (run_holds ops (NewCountingBloomFilter size hn) ∅ X (new_cbf_ok size hn Hs) (new_holds size hn) He)
    as (cbf & E & Hok & N & Hh); [cbn; lia|rewrite gmultiset_elements_empty; unfold len; cbn; lia|].
  exists cbf. split; [exact E|]. split; [apply Hok|]. intros x Hx.
  assert (∀ i, i ∈ seeds cbf → Z.of_nat (multiplicity x X) ≤ at_pos cbf (pos_of cbf x i)) as Hm.
  { intros i Hi. rewrite Hh by (by apply pos_range). by apply sum_hits_mult. }
  assert (0 < Z.of_nat (multiplicity x X)) as Hpos by (apply (inj_lt 0); exact Hx).
  split.
  - unfold CBF_Contains. rewrite contains_spec by done. f_equal. apply forallb_forall. intros i Hi%list_elem_of_In.
    specialize (Hm i Hi). apply negb_true_iff, Z.eqb_neq. lia.
  - unfold CBF_GetCount. destruct (count_spec x (seeds cbf) cbf Hok 255) as (k & Ek & Hr & Hlow & _); [lia|].
    exists k. split; [exact Ek|]. split; [|lia]. apply Hlow; [|exact Hm].
    assert (seeds cbf ≠ []) as Hne by (intros E0; pose proof (seeds_len cbf ltac:(rewrite N; cbn; lia)) as Hl;
      rewrite E0, N in Hl; unfold len in Hl; cbn in Hl; lia).
    destruct (seeds cbf) as [|i l]; [done|]. pose proof (Hm i (list_elem_of_here _ _)).
    pose proof (at_pos_u8 cbf (pos_of cbf x i) Hok). lia.
Qed.

(** ** The wire format *)
Lemma byte_roundtrip c : 0 ≤ c ≤ 255 → byte_of (to_byte c) = c.
Proof.
  intros Hc. unfold byte_of, to_byte. rewrite nat_ascii_embedding; [|rewrite Z.mod_small by lia; lia].
  rewrite Z.mod_small by lia. lia.
Qed.

(** A filter sent to a filter of the same shape arrives; one of another size is ignored. *)
Lemma cbf_wire cbf cbf' : cbf_ok cbf →
  (len (counters cbf') = len (counters cbf) → counters (CBF_Decode (CBF_Encode cbf) cbf') = counters cbf) ∧
  (len (counters cbf') ≠ len (counters cbf) → CBF_Decode (CBF_Encode cbf) cbf' = cbf').
Proof.
  intros [_ _ Hu]. unfold CBF_Decode, CBF_Encode. rewrite chars_unchars. unfold len. rewrite length_fmap. split; intros E.
  - rewrite E, Z.eqb_refl. cbn. rewrite <-list_fmap_compose.
    rewrite <-(list_fmap_id (counters cbf)) at 2. apply list_fmap_ext. intros i c Hc. cbn.
    apply byte_roundtrip. by eapply Forall_lookup_1 in Hu; [|exact Hc].
  - rewrite (proj2 (Z.eqb_neq _ _)) by congruence. done.
Qed.

(** ** Witnesses *)
Module CbfExample.
Definition ops3 : list cbf_op := [OpAdd "tx1"; OpAdd "tx2"; OpAdd "tx1"; OpRemove "tx2"; OpAdd "tx3"].

Lemma cbf_refines_multiset_witness :
  ∃ cbf, go_fold cbf_step (NewCountingBloomFilter 50 4) ops3 = Ok cbf ∧
    ∃ k, CBF_GetCount cbf "tx1" = Ok k ∧ 2 ≤ k.
Proof.
  destruct (cbf_refines_multiset 50 4 ops3 ({[+ "tx1" +]} ⊎ {[+ "tx1" +]} ⊎ {[+ "tx3" +]})) as (cbf & E & _ & Hx);
    [done|done|by vm_compute|by vm_compute|].
  assert (multiplicity "tx1" ({[+ "tx1" +]} ⊎ {[+ "tx1" +]} ⊎ {[+ "tx3" +]}) = 2%nat) as E2 by (vm_compute; reflexivity).
  exists cbf. split; [exact E|]. destruct (Hx "tx1") as [_ (k & Ek & Hk)].
  { apply elem_of_multiplicity. rewrite E2. lia. }
  exists k. split; [exact Ek|]. rewrite E2 in Hk. lia.
Defined.

(** Counters that saturate forget additions: 256 additions and 255 removals of one item leave an
    empty filter, although one copy is left. *)
Example cbf_saturates :
  (c ← go_fold cbf_step (NewCountingBloomFilter 50 4) (replicate 256 (OpAdd "tx1") ++ replicate 255 (OpRemove "tx1"));
   CBF_Contains c "tx1") = Ok false ∧
  (X ← held ∅ (replicate 256 (OpAdd "tx1") ++ replicate 255 (OpRemove "tx1")); Some (multiplicity "tx1" X)) = Some 1%nat.
Proof. by vm_compute. Qed.
End CbfExample.
