(* ===== verification/Sealing.v ===== *)
(** * Sealing delays and sealing order of ExClique ([exclique/delay.go], [exclique/order.go])

    The delay manager keeps the last ten broadcast and verification times and derives the delay
    [beta] that a validator out of turn waits at least; the order manager keeps the order in
    which the validators are in turn, and scores that make it fair.  Durations are [int64]
    nanoseconds; random numbers are arguments. *)
From Stdlib Require Import SpecFloat Ascii.
From S2P Require Import Prelude Utils Libs Partition Cbf.

(** ** [DelayManager] *)
Abbreviation Duration := Z (only parsing).
Definition Millisecond : Duration := 1000000.

Record DelayManager := mkDelayManager {
  beta : Duration;
  waitWindow : Duration;
  broadcastHist : list Duration;
  verifyHist : list Duration;
  historySize : Z;
}.
#[export] Instance DelayManager_eta : Eta DelayManager := λ d,
  mkDelayManager (beta d) (waitWindow d) (broadcastHist d) (verifyHist d) (historySize d).

Definition NewDelayManager (initialBeta waitWindow : Duration) : DelayManager :=
  mkDelayManager initialBeta waitWindow [] [] 10.

(** The sum of a history, with the overflow of [int64], and its average. *)
Definition sum_hist (l : list Duration) : Duration := foldl (λ a d, i64 (a + d)) 0 l.
Definition avg_hist (l : list Duration) : Duration := Z.quot (sum_hist l) (len l).

Definition updateBeta (dm : DelayManager) : DelayManager :=
  if (len (broadcastHist dm) =? 0) || (len (verifyHist dm) =? 0) then dm
  else
    let avgBroadcast := avg_hist (broadcastHist dm) in
    let avgVerify := avg_hist (verifyHist dm) in
    dm <| beta := Z.quot (i64 (i64 (avgBroadcast + avgVerify) * 12)) 10 |>.

(** Append a measurement, and drop the first one when there are too many. *)
Definition push_hist (size : Z) (d : Duration) (l : list Duration) : list Duration :=
  let l := l ++ [d] in if size <? len l then drop 1 l else l.

Definition RecordBroadcastTime (d : Duration) (dm : DelayManager) : DelayManager :=
  updateBeta (dm <| broadcastHist ::= push_hist (historySize dm) d |>).
Definition RecordVerifyTime (d : Duration) (dm : DelayManager) : DelayManager :=
  updateBeta (dm <| verifyHist ::= push_hist (historySize dm) d |>).

(** [rnd n] is the result of [rand.Int63n(n)]. *)
Definition GetRandomDelay (rnd : Z → Z) (dm : DelayManager) : Duration :=
  if waitWindow dm <=? beta dm then beta dm
  else
    let deltaRange := i64 (waitWindow dm - beta dm) in
    i64 (beta dm + rnd deltaRange).

Definition GetBeta (dm : DelayManager) : Duration := beta dm.
Definition GetWaitWindow (dm : DelayManager) : Duration := waitWindow dm.
Definition SetWaitWindow (w : Duration) (dm : DelayManager) : DelayManager := dm <| waitWindow := w |>.

(** [r] is the result of [rand.Float64()]. *)
Definition ShouldPropose (r : float) (timeSinceLastBlock : Duration) (dm : DelayManager) : bool :=
  if timeSinceLastBlock <? beta dm then false
  else if waitWindow dm <=? timeSinceLastBlock then false
  else
    let progress := fdiv (fl_of (i64 (timeSinceLastBlock - beta dm))) (fl_of (i64 (waitWindow dm - beta dm))) in
    SFltb r progress.

(** [Duration.Milliseconds] *)
Definition Milliseconds (d : Duration) : Z := Z.quot d Millisecond.

Record DelayStats := mkDelayStats {
  st_beta : Z; st_waitWindow : Z; st_avgBroadcast : Z; st_avgVerify : Z; st_historySize : Z }.

Definition avg_or_zero (l : list Duration) : Duration := if 0 <? len l then avg_hist l else 0.

Definition GetStats (dm : DelayManager) : DelayStats :=
  mkDelayStats (Milliseconds (beta dm)) (Milliseconds (waitWindow dm))
    (Milliseconds (avg_or_zero (broadcastHist dm))) (Milliseconds (avg_or_zero (verifyHist dm)))
    (len (broadcastHist dm)).

(** ** [OrderManager] *)
Record OrderManager := mkOrderManager {
  validators : list Z;
  baseOrder : list Z;
  currentEpoch : Z;
  fairnessScore : gmap Z Z;
}.
#[export] Instance OrderManager_eta : Eta OrderManager := λ o,
  mkOrderManager (validators o) (baseOrder o) (currentEpoch o) (fairnessScore o).

Definition NewOrderManager (validators : list Z) : OrderManager :=
  mkOrderManager validators validators 0 (foldl (λ m v, <[v := 0]> m) ∅ validators).

(** [om.fairnessScore[v]]: a missing key reads as 0. *)
Definition GetFairnessScore (om : OrderManager) (v : Z) : Z := default 0 (fairnessScore om !! v).

Definition RecordBlock (validatorID : Z) (wasInTurn : bool) (om : OrderManager) : OrderManager :=
  om <| fairnessScore ::= <[validatorID := GetFairnessScore om validatorID + (if wasInTurn then 1 else -1)]> |>.

Definition GetAllScores (om : OrderManager) : gmap Z Z := fairnessScore om.
Definition ResetScores (om : OrderManager) : OrderManager := om <| fairnessScore ::= fmap (λ _, 0) |>.

(** [binary.BigEndian.PutUint64] *)
Definition be64 (n : Z) : list ascii := (λ i : nat, to_byte (n / 256 ^ (7 - Z.of_nat i))) <$> seq 0 8.

Section order.
Context `{CryptoLib}.

Definition hashValidator (validatorID epoch : Z) : Z := bytes_to_Z (sha256 (unchars (be64 validatorID ++ be64 epoch))).

(** The comparison of [updateOrderForEpoch]: lower score first, then lower hash. *)
Definition seal_less (score : Z → Z) (epoch v w : Z) : bool :=
  if negb (score v =? score w) then score v <? score w
  else hashValidator v epoch <? hashValidator w epoch.

Definition updateOrderForEpoch (epoch : Z) (om : OrderManager) : OrderManager :=
  om <| baseOrder := sort_slice (seal_less (GetFairnessScore om) epoch) (validators om) |>.

Definition GetOrderForHeight (blockHeight : Z) (om : OrderManager) : go (OrderManager * list Z) :=
  if len (validators om) =? 0 then Panic "integer divide by zero"
  else
    let epoch := blockHeight / len (validators om) in
    let om := if negb (epoch =? currentEpoch om)
              then (updateOrderForEpoch epoch om) <| currentEpoch := epoch |> else om in
    Ok (om, baseOrder om).

Definition GetInTurnValidator (blockHeight : Z) (om : OrderManager) : go (OrderManager * Z) :=
  r ← GetOrderForHeight blockHeight om;
  let '(om, order) := r in
  if len order =? 0 then Panic "integer divide by zero"
  else
    match order !! Z.to_nat (blockHeight mod len order) with
    | Some v => Ok (om, v)
    | None => Panic "index out of range"
    end.
End order.

(** The counts are sorted; [i + 1] is their rank. *)
Definition CalculateGiniCoefficient (blockCounts : gmap Z Z) : float :=
  if len (map_to_list blockCounts) =? 0 then fl_of 0
  else
    let counts := sort_slice Z.ltb (map_to_list blockCounts).*2 in
    let n := len counts in
    let sum := foldl (λ s c, i64 (s + c)) 0 counts in
    let weightedSum := foldl (λ s ic, i64 (s + i64 ((Z.of_nat ic.1 + 1) * ic.2))) 0 (imap pair counts) in
    if sum =? 0 then fl_of 0
    else fsub (fdiv (fl_of (i64 (2 * weightedSum))) (fl_of (i64 (n * sum)))) (fdiv (fl_of (n + 1)) (fl_of n)).

(** ** Delays stay in range *)

(** The calls that change the manager. *)
Inductive measure := MBroadcast (d : Duration) | MVerify (d : Duration).
Definition observe (dm : DelayManager) (m : measure) : DelayManager :=
  match m with MBroadcast d => RecordBroadcastTime d dm | MVerify d => RecordVerifyTime d dm end.

Definition within (B : Z) (l : list Duration) : Prop := len l ≤ 10 ∧ Forall (λ d, 0 ≤ d ≤ B) l.

Lemma sum_hist_from a B l : Forall (λ d, 0 ≤ d ≤ B) l → 0 ≤ a → a + len l * B < 2 ^ 63 →
  0 ≤ foldl (λ a d, i64 (a + d)) a l ≤ a + len l * B.
Proof.
  intros Hl. revert a. induction Hl as [|d l Hd Hl IH]; intros a Ha Hb; cbn; [unfold len; cbn; lia|].
  unfold len in Hb |- *. cbn [length] in Hb |- *. rewrite Nat2Z.inj_succ in *. unfold len in IH.
  assert (0 ≤ Z.of_nat (length l) * B) by nia. rewrite i64_small by lia.
  destruct (IH (a + d)) as [? ?]; lia.
Qed.

Lemma avg_range B l : within B l → l ≠ [] → 0 ≤ B → 10 * B < 2 ^ 63 → 0 ≤ avg_hist l ≤ B.
Proof.
  intros [Hlen Hl] Hne HB Hb. assert (0 < len l) as Hpos by (destruct l; [done|unfold len; cbn; lia]).
  unfold avg_hist, sum_hist. pose proof (sum_hist_from 0 B l Hl ltac:(lia) ltac:(nia)) as Hs.
  rewrite Z.quot_div_nonneg by lia. split; [by apply Z.div_pos; lia|]. apply Z.div_le_upper_bound; lia.
Qed.

Lemma push_within B d l : within B l → 0 ≤ d ≤ B → within B (push_hist 10 d l).
Proof.
  intros [Hlen Hl] Hd. unfold push_hist.
  assert (Forall (λ d, 0 ≤ d ≤ B) (l ++ [d])) as Hf by (apply Forall_app; split; [done|by apply Forall_singleton]).
  unfold within, len in *. destruct (10 <? _) eqn:E; zbool.
  - rewrite length_drop. split; [rewrite length_app; cbn; lia|by apply Forall_drop].
  - done.
Qed.

(** The invariant: both histories are short and within their bounds, and [beta] is. *)
Record delay_ok (b0 B V w : Z) (dm : DelayManager) : Prop := {
  dl_bcast : within B (broadcastHist dm);
  dl_verify : within V (verifyHist dm);
  dl_size : historySize dm = 10;
  dl_window : waitWindow dm = w;
  dl_beta : 0 ≤ beta dm ≤ Z.max b0 ((B + V) * 12 / 10);
}.

Section delays.
Context (b0 B V w : Z) (HB : 0 ≤ B) (HV : 0 ≤ V) (Hb0 : 0 ≤ b0)
  (HB10 : 10 * B < 2 ^ 63) (HV10 : 10 * V < 2 ^ 63) (HBV : (B + V) * 12 < 2 ^ 63).

Lemma update_beta_ok dm : delay_ok b0 B V w dm → delay_ok b0 B V w (updateBeta dm).
Proof.
  intros [Hb Hv Hs Hw Hbeta]. unfold updateBeta. destruct (_ || _) eqn:E; [done|]. apply orb_false_iff in E as [E1 E2]. zbool.
  assert (broadcastHist dm ≠ [] ∧ verifyHist dm ≠ []) as [N1 N2].
  { split; intros E; rewrite E in *; done. }
  pose proof (avg_range B _ Hb N1 HB HB10). pose proof (avg_range V _ Hv N2 HV HV10).
  split; try done. cbn. rewrite (i64_small (_ + _)) by lia. rewrite i64_small by lia.
  rewrite Z.quot_div_nonneg by lia. split; [apply Z.div_pos; lia|].
  etrans; [|apply Z.le_max_r]. apply Z.div_le_mono; lia.
Qed.

Lemma observe_ok dm m :
  delay_ok b0 B V w dm → match m with MBroadcast d => 0 ≤ d ≤ B | MVerify d => 0 ≤ d ≤ V end →
  delay_ok b0 B V w (observe dm m).
Proof.
  intros [Hb Hv Hs Hw Hbeta] Hm. destruct m as [d|d]; cbn; apply update_beta_ok; split; try done; cbn;
    rewrite Hs; by apply push_within.
Qed.

Lemma observes_ok ms dm :
  delay_ok b0 B V w dm → Forall (λ m, match m with MBroadcast d => 0 ≤ d ≤ B | MVerify d => 0 ≤ d ≤ V end) ms →
  delay_ok b0 B V w (foldl observe dm ms).
Proof. revert dm. induction ms as [|m ms IH]; intros dm Hd Hm; [done|]. apply Forall_cons in Hm as [? ?]. cbn. apply IH; [by apply observe_ok|done]. Qed.

(** C30: delays stay in range.  However many broadcast times up to [B] and verification times
    up to [V] are recorded, the manager keeps at most ten of each, [beta] is at most
    1.2 (B + V) (or its initial value) without overflow, a random delay lies in [[beta, w)]
    when the window is open and is [beta] otherwise, and a validator out of turn proposes only
    at a time in [[beta, w)]. *)
Theorem delays_in_range (ms : list measure) (rnd : Z → Z) :
  w < 2 ^ 63 → (∀ n, 0 < n → 0 ≤ rnd n < n) →
  Forall (λ m, match m with MBroadcast d => 0 ≤ d ≤ B | MVerify d => 0 ≤ d ≤ V end) ms →
  let dm := foldl observe (NewDelayManager b0 w) ms in
  len (broadcastHist dm) ≤ 10 ∧ len (verifyHist dm) ≤ 10 ∧
  0 ≤ beta dm ≤ Z.max b0 ((B + V) * 12 / 10) ∧
  (beta dm < w → beta dm ≤ GetRandomDelay rnd dm < w) ∧
  (w ≤ beta dm → GetRandomDelay rnd dm = beta dm) ∧
  ∀ r t, ShouldPropose r t dm = true → beta dm ≤ t < w.
Proof.
  intros Hw Hr Hm dm. assert (delay_ok b0 B V w dm) as [[L1 _] [L2 _] _ Hww Hbeta].
  { apply observes_ok; [|done]. split; try done; cbn; [split; [unfold len; cbn; lia|by apply Forall_nil]..|lia]. }
  split; [done|]. split; [done|]. split; [done|]. unfold GetRandomDelay, ShouldPropose. rewrite Hww. split; [|split].
  - intros Hlt. rewrite (proj2 (Z.leb_gt _ _)) by done. pose proof (Hr (w - beta dm) ltac:(lia)).
    rewrite (i64_small (w - _)) by lia. rewrite i64_small by lia. lia.
  - intros Hge. by rewrite (proj2 (Z.leb_le _ _)) by done.
  - intros r t. destruct (t <? beta dm) eqn:E1; [done|]. destruct (w <=? t) eqn:E2; [done|]. zbool. lia.
Qed.
End delays.

(** ** The order of sealing *)
Section orders.
Context `{CryptoLib}.

(** Lexicographic comparison by score and hash is a strict weak order. *)
Lemma seal_less_spec sc e v w : seal_less sc e v w = true ↔
  sc v < sc w ∨ sc v = sc w ∧ hashValidator v e < hashValidator w e.
Proof. unfold seal_less. destruct (sc v =? sc w) eqn:E; zbool; cbn; rewrite Z.ltb_lt; lia. Qed.

Lemma seal_less_false sc e v w : seal_less sc e v w = false ↔
  sc w < sc v ∨ sc v = sc w ∧ hashValidator w e ≤ hashValidator v e.
Proof. unfold seal_less. destruct (sc v =? sc w) eqn:E; zbool; cbn; rewrite Z.ltb_ge; lia. Qed.

#[local] Instance seal_less_weak sc e : StrictWeak (seal_less sc e).
Proof.
  split.
  - intros x. apply seal_less_false. lia.
  - intros x y. rewrite seal_less_spec, seal_less_false. lia.
  - intros x y z. rewrite !seal_less_false. lia.
Qed.

(** The operations, for any use of the manager. *)
Inductive seal_op := SRecord (v : Z) (inTurn : bool) | SReset | SQuery (h : Z).

Definition seal_step (om : OrderManager) (o : seal_op) : go OrderManager :=
  match o with
  | SRecord v b => Ok (RecordBlock v b om)
  | SReset => Ok (ResetScores om)
  | SQuery h => r ← GetInTurnValidator h om; Ok r.1
  end.

Definition order_ok (vs : list Z) (om : OrderManager) : Prop := validators om = vs ∧ baseOrder om ≡ₚ vs.

(** One question: the order is that of the epoch, and the answer its element. *)
Lemma in_turn_spec vs om h : order_ok vs om → 0 < len vs → 0 ≤ h →
  ∃ om' v, GetInTurnValidator h om = Ok (om', v) ∧ order_ok vs om' ∧ currentEpoch om' = h / len vs ∧
    fairnessScore om' = fairnessScore om ∧
    baseOrder om' = (if h / len vs =? currentEpoch om then baseOrder om
                     else sort_slice (seal_less (GetFairnessScore om) (h / len vs)) vs) ∧
    baseOrder om' !! Z.to_nat (h mod len vs) = Some v.
Proof.
  intros [Hv Hb] Hn Hh. unfold GetInTurnValidator, GetOrderForHeight. rewrite Hv, (proj2 (Z.eqb_neq _ _)) by lia.
  set (om' := if negb _ then _ else om). cbn [mbind go_bind].
  assert (order_ok vs om' ∧ currentEpoch om' = h / len vs ∧ fairnessScore om' = fairnessScore om ∧
    baseOrder om' = (if h / len vs =? currentEpoch om then baseOrder om
      else sort_slice (seal_less (GetFairnessScore om) (h / len vs)) vs)) as (Hok & He & Hf & Ho).
  { unfold om', updateOrderForEpoch. destruct (h / len vs =? currentEpoch om) eqn:E; zbool; cbn; [done|].
    split; [split; [done|]; cbn; rewrite Hv; apply sort_slice_perm|]. by rewrite Hv. }
  assert (len (baseOrder om') = len vs) as Hl by (unfold len; by rewrite (Permutation_length (proj2 Hok))).
  rewrite Hl, (proj2 (Z.eqb_neq _ _)) by lia.
  destruct (lookup_lt_is_Some_2 (baseOrder om') (Z.to_nat (h mod len vs))) as [v Hlk].
  { pose proof (Z.mod_pos_bound h (len vs) Hn). unfold len in *. lia. }
  rewrite Hlk. by exists om', v.
Qed.

Lemma step_order vs om o : order_ok vs om → 0 < len vs → match o with SQuery h => 0 ≤ h | _ => True end →
  ∃ om', seal_step om o = Ok om' ∧ order_ok vs om'.
Proof.
  intros Hok Hn Ho. destruct o as [v b| |h]; [by eexists|by eexists|]. cbn.
  destruct (in_turn_spec vs om h Hok Hn Ho) as (om' & v & -> & Hok' & _). by eexists.
Qed.

Lemma steps_order vs ops : ∀ om, order_ok vs om → 0 < len vs →
  Forall (λ o, match o with SQuery h => 0 ≤ h | _ => True end) ops →
  ∃ om', go_fold seal_step om ops = Ok om' ∧ order_ok vs om'.
Proof.
  induction ops as [|o ops IH]; intros om Hok Hn Hf; [by eexists|]. apply Forall_cons in Hf as [Ho Hf]. cbn [go_fold].
  destruct (step_order vs om o Hok Hn Ho) as (om1 & -> & Hok1). by apply IH.
Qed.

(** Ask for each height in turn; before each question, blocks are recorded. *)
Fixpoint turns (recs : nat → list (Z * bool)) (hs : list Z) (om : OrderManager) : go (list Z) :=
  match hs with
  | [] => Ok []
  | h :: hs' =>
      r ← GetInTurnValidator h (foldl (λ om vb, RecordBlock vb.1 vb.2 om) om (recs (length hs')));
      rest ← turns recs hs' r.1;
      Ok (r.2 :: rest)
  end.

Lemma records_keep (l : list (Z * bool)) om :
  let om' := foldl (λ om vb, RecordBlock vb.1 vb.2 om) om l in
  validators om' = validators om ∧ baseOrder om' = baseOrder om ∧ currentEpoch om' = currentEpoch om.
Proof. revert om. induction l as [|vb l IH]; intros om; [done|]. cbn. apply (IH (RecordBlock vb.1 vb.2 om)). Qed.

Lemma records_ok vs (l : list (Z * bool)) om : order_ok vs om → order_ok vs (foldl (λ om vb, RecordBlock vb.1 vb.2 om) om l).
Proof. unfold order_ok. by destruct (records_keep l om) as (-> & -> & _). Qed.

(** Inside an epoch the order does not change. *)
Lemma turns_epoch recs vs e om : order_ok vs om → currentEpoch om = e → 0 ≤ e → 0 < len vs →
  ∀ k j, Z.of_nat (j + k) = len vs →
  turns recs ((λ i : nat, e * len vs + Z.of_nat i) <$> seq j k) om = Ok (drop j (baseOrder om)).
Proof.
  intros Hok He He0 Hn k. revert om Hok He. induction k as [|k IH]; intros om Hok He j Hj; cbn [seq fmap list_fmap turns].
  - rewrite drop_ge; [done|]. rewrite (Permutation_length (proj2 Hok)). unfold len in Hj. lia.
  - rewrite length_fmap, length_seq. destruct (records_keep (recs k) om) as (Kv & Kb & Ke).
    assert ((e * len vs + Z.of_nat j) / len vs = e) as Hd by (rewrite Z.div_add_l, Z.div_small by lia; lia).
    assert ((e * len vs + Z.of_nat j) mod len vs = Z.of_nat j) as Hm
      by (rewrite Z.add_comm, Z.mod_add, Z.mod_small by lia; done).
    destruct (in_turn_spec vs _ (e * len vs + Z.of_nat j) (records_ok vs (recs k) om Hok) Hn)
      as (om' & v & -> & Hok' & He' & _ & Hb & Hv); [nia|].
    rewrite Hd, Ke, He, Z.eqb_refl, Kb in Hb. rewrite Hm, Hb, Nat2Z.id in Hv. cbn [mbind go_bind fst snd].
    rewrite (IH om' Hok' ltac:(by rewrite He') (S j)) by lia. cbn [mbind go_bind]. rewrite Hb.
    by rewrite (drop_S _ _ _ Hv).
Qed.

(** C29: every validator is in turn exactly once per epoch.  Whatever was recorded and asked
    before, and whatever blocks are recorded meanwhile, the validators in turn for the heights
    of an epoch [e], asked one after the other, are a permutation of all validators. *)
Theorem in_turn_once (vs : list Z) (ops : list seal_op) (recs : nat → list (Z * bool)) (e : Z) :
  0 < len vs → 0 ≤ e → Forall (λ o, match o with SQuery h => 0 ≤ h | _ => True end) ops →
  ∃ om l, go_fold seal_step (NewOrderManager vs) ops = Ok om ∧
    turns recs ((λ i : nat, e * len vs + Z.of_nat i) <$> seq 0 (length vs)) om = Ok l ∧ l ≡ₚ vs.
Proof.
  intros Hn He Hf. destruct (steps_order vs ops (NewOrderManager vs)) as (om & E & Hok); [done|done|done|].
  exists om. destruct (length vs) as [|k] eqn:El; [unfold len in Hn; lia|]. cbn [seq fmap list_fmap turns].
  rewrite length_fmap, length_seq. change (Z.of_nat 0) with 0.
  destruct (in_turn_spec vs _ (e * len vs + 0) (records_ok vs (recs k) om Hok) Hn)
    as (om' & v & -> & Hok' & He' & _ & _ & Hv); [nia|].
  rewrite Z.add_0_r, Z.div_mul in He' by lia. rewrite Z.add_0_r, Z.mod_mul in Hv by lia. cbn [mbind go_bind fst snd].
  rewrite (turns_epoch recs vs e om' Hok' He' He Hn k 1) by (unfold len; lia). cbn [mbind go_bind].
  eexists. split; [exact E|]. split; [reflexivity|]. rewrite <-(proj2 Hok'). by rewrite <-(drop_S _ _ 0 Hv).
Qed.

Lemma sorted_lookup {A} (R : relation A) (l : list A) i j x y :
  StronglySorted R l → l !! i = Some x → l !! j = Some y → (i < j)%nat → R x y.
Proof.
  intros Hs. revert i j. induction Hs as [|z l Hs IH Hz]; intros [|i] [|j] Hi Hj Hlt; cbn in *; try done; try lia.
  - injection Hi as <-. by eapply Forall_lookup_1 in Hz.
  - eapply IH; [exact Hi|exact Hj|lia].
Qed.

(** The validator in turn last in an epoch is the largest one. *)
Lemma last_is_max vs om e w : order_ok vs om → NoDup vs → 0 < len vs → 0 ≤ e → e ≠ currentEpoch om → w ∈ vs →
  (∀ u, u ∈ vs → u ≠ w → seal_less (GetFairnessScore om) e u w = true) →
  ∃ om', GetInTurnValidator (e * len vs + (len vs - 1)) om = Ok (om', w).
Proof.
  intros Hok Hnd Hn He Hne Hw Hmax.
  assert ((e * len vs + (len vs - 1)) / len vs = e) as Hd by (rewrite Z.div_add_l, Z.div_small by lia; lia).
  assert ((e * len vs + (len vs - 1)) mod len vs = len vs - 1) as Hm
    by (rewrite Z.add_comm, Z.mod_add, Z.mod_small by lia; done).
  destruct (in_turn_spec vs om (e * len vs + (len vs - 1)) Hok Hn) as (om' & v & E & Hok' & _ & _ & Hb & Hv); [nia|].
  exists om'. rewrite E. do 2 f_equal. rewrite Hd, (proj2 (Z.eqb_neq _ _) Hne) in Hb. rewrite Hm in Hv.
  destruct (decide (v = w)) as [|Hvw]; [done|exfalso].
  pose proof (sort_slice_sorted (seal_less (GetFairnessScore om) e) vs) as Hs. rewrite <-Hb in Hs.
  assert (w ∈ baseOrder om') as Hin by (by rewrite (proj2 Hok')). apply list_elem_of_lookup in Hin as [i Hi].
  assert (i < Z.to_nat (len vs - 1))%nat as Hlt.
  { pose proof (lookup_lt_Some _ _ _ Hi) as Hil. rewrite (Permutation_length (proj2 Hok')) in Hil. unfold len in *.
    destruct (decide (i = Z.to_nat (Z.of_nat (length vs) - 1))) as [->|]; [congruence|lia]. }
  assert (v ∈ vs) as Hvin by (rewrite <-(proj2 Hok'); by eapply list_elem_of_lookup_2).
  pose proof (sorted_lookup _ _ i _ w v Hs Hi Hv Hlt) as Hfin. cbn in Hfin.
  rewrite Hmax in Hfin by done. done.
Qed.

Lemma score_record v b om u : GetFairnessScore (RecordBlock v b om) u =
  if decide (u = v) then GetFairnessScore om v + (if b then 1 else -1) else GetFairnessScore om u.
Proof.
  unfold RecordBlock. unfold GetFairnessScore at 1. cbn. case_decide as Hd.
  - subst. by rewrite lookup_insert_eq.
  - by rewrite lookup_insert_ne.
Qed.

(** The nodes do not agree on the order.  A node records only the blocks it proposes
    itself, and the scores decide the order of the next epochs.  If [v] has proposed one block
    in its turn and [w] none, then in every later epoch [e] for which [w] has the largest hash,
    at the last height of the epoch [v] takes itself to be in turn and [w] takes itself to be in
    turn: both propose a block for the same height. *)
Theorem sealing_orders_diverge (vs : list Z) (v w e : Z) :
  NoDup vs → v ∈ vs → w ∈ vs → v ≠ w → 0 < e →
  (∀ u, u ∈ vs → u ≠ w → hashValidator u e < hashValidator w e) →
  let h := e * len vs + (len vs - 1) in
  ∃ om1 om2, GetInTurnValidator h (RecordBlock v true (NewOrderManager vs)) = Ok (om1, v) ∧
    GetInTurnValidator h (NewOrderManager vs) = Ok (om2, w).
Proof.
  intros Hnd Hv Hw Hne He Hmax h.
  assert (0 < len vs) as Hn by (destruct vs; [by apply elem_of_nil in Hv|unfold len; cbn; lia]).
  assert (∀ u, GetFairnessScore (NewOrderManager vs) u = 0) as Hz.
  { intros u. unfold GetFairnessScore, NewOrderManager. cbn. clear.
    assert (∀ m : gmap Z Z, default 0 (m !! u) = 0 → default 0 (foldl (λ m v, <[v := 0]> m) m vs !! u) = 0) as Hg.
    { induction vs as [|x l IH]; intros m Hm; [done|]. cbn. apply IH.
      destruct (decide (x = u)) as [->|]; [by rewrite lookup_insert_eq|by rewrite lookup_insert_ne]. }
    apply Hg. by rewrite lookup_empty. }
  destruct (last_is_max vs (RecordBlock v true (NewOrderManager vs)) e v) as [om1 E1]; try done; [lia|cbn; lia| |].
  { intros u Hu Huv. apply seal_less_spec. left. rewrite !score_record, !Hz. rewrite decide_False, decide_True by done. lia. }
  destruct (last_is_max vs (NewOrderManager vs) e w) as [om2 E2]; try done; [lia|cbn; lia| |by exists om1, om2].
  intros u Hu Huw. apply seal_less_spec. right. rewrite !Hz. auto.
Qed.
End orders.

(** ** Witnesses *)
Module SealingExample.
Import ConcreteLibs.

Lemma delays_in_range_witness :
  let dm := foldl observe (NewDelayManager 50 100) [MBroadcast 20; MVerify 30; MBroadcast 40] in
  beta dm = 72 ∧ beta dm ≤ GetRandomDelay (λ n, n - 1) dm < 100.
Proof.
  cbv zeta. split; [by vm_compute|].
  apply (delays_in_range 50 100 100 100 ltac:(lia) ltac:(lia) ltac:(lia) ltac:(lia) ltac:(lia) ltac:(lia)
    [MBroadcast 20; MVerify 30; MBroadcast 40] (λ n, n - 1)); [lia|lia| |by vm_compute].
  repeat (apply Forall_cons_2; [lia|]). by apply Forall_nil.
Defined.

Lemma in_turn_once_witness :
  ∃ om l, go_fold seal_step (NewOrderManager [0; 1; 2; 3]) [SQuery 1; SRecord 2 true; SQuery 6] = Ok om ∧
    turns (λ i, [(Z.of_nat i, true)]) ((λ i : nat, 2 * 4 + Z.of_nat i) <$> seq 0 4) om = Ok l ∧ l ≡ₚ [0; 1; 2; 3].
Proof.
  apply (in_turn_once [0; 1; 2; 3] [SQuery 1; SRecord 2 true; SQuery 6] (λ i, [(Z.of_nat i, true)]) 2); [done|done|].
  repeat (apply Forall_cons_2; [lia || done|]). by apply Forall_nil.
Defined.

Lemma sealing_orders_diverge_witness :
  ∃ om1 om2, GetInTurnValidator 7 (RecordBlock 0 true (NewOrderManager [0; 1; 2; 3])) = Ok (om1, 0) ∧
    GetInTurnValidator 7 (NewOrderManager [0; 1; 2; 3]) = Ok (om2, 3).
Proof.
  apply (sealing_orders_diverge [0; 1; 2; 3] 0 3 1).
  - apply (bool_decide_eq_true_1 (NoDup [0; 1; 2; 3])). vm_compute. reflexivity.
  - set_solver.
  - set_solver.
  - done.
  - done.
  - intros u Hu Hne. repeat (apply elem_of_cons in Hu as [->|Hu]; [try done; by vm_compute|]). by apply elem_of_nil in Hu.
Defined.
End SealingExample.
