(* ===== verification/Network.v ===== *)
(** * Messages on the wire ([networks/])

    One message is its bytes and a newline, written in chunks through a rate limiter
    ([upload_limit.go]), on a pooled connection and with up to five attempts ([p2pNetwork.go]);
    receivers cut the stream at newlines.  Connections and [rate.Limiter] are outside the
    repository: they are parameters with the contract of [io.Writer] and of [WaitN].  Sleeping
    and deadlines are not modelled; the rows of the traffic log are in [Trace]. *)
From Stdlib Require Import Ascii.
From S2P Require Import Prelude Utils Libs Core Messages.

(** ** Framing *)
Definition newline : ascii := ascii_of_nat 10.

Definition frame (m : list ascii) : list ascii := m ++ [newline].

(** [ReadBytes('\n')] until the end of the stream: the complete messages, without their newline,
    and what is left. *)
Fixpoint frames (acc stream : list ascii) : list (list ascii) * list ascii :=
  match stream with
  | [] => ([], acc)
  | c :: stream' =>
      if Ascii.eqb c newline then let r := frames [] stream' in (acc :: r.1, r.2)
      else frames (acc ++ [c]) stream'
  end.

Definition no_newline (m : list ascii) : Prop := Forall (λ c, c ≠ newline) m.

Lemma frames_prefix acc m rest : no_newline m →
  frames acc (m ++ rest) = frames (acc ++ m) rest.
Proof.
  revert acc. induction m as [|c m IH]; intros acc Hm; cbn; [by rewrite app_nil_r|].
  apply Forall_cons in Hm as [Hc Hm]. rewrite (proj2 (Ascii.eqb_neq c newline) Hc), IH by done. by rewrite <-app_assoc.
Qed.

Lemma frames_one acc m rest : no_newline m →
  frames acc (frame m ++ rest) = ((acc ++ m) :: (frames [] rest).1, (frames [] rest).2).
Proof. intros Hm. unfold frame. rewrite <-app_assoc, frames_prefix by done. reflexivity. Qed.

Lemma frames_many ms rest : Forall no_newline ms → no_newline rest →
  frames [] ((ms ≫= frame) ++ rest) = (ms, rest).
Proof.
  intros Hms Hr. induction Hms as [|m ms Hm Hms IH]; cbn [mbind list_bind app].
  - rewrite <-(app_nil_r rest) at 1. rewrite frames_prefix by done. done.
  - rewrite <-app_assoc, frames_one, IH by done. done.
Qed.

(** A message that contains a newline arrives as two. *)
Lemma frames_cut m1 m2 : no_newline m1 → no_newline m2 →
  frames [] (frame (m1 ++ newline :: m2)) = ([m1; m2], []).
Proof.
  intros H1 H2. unfold frame. replace ((m1 ++ newline :: m2) ++ [newline]) with (frame m1 ++ frame m2 ++ [])
    by (unfold frame; by rewrite app_nil_r, <-!app_assoc).
  rewrite !frames_one by done. done.
Qed.

(** ** Connections and limiters *)
Class NetLib := {
  Conn : Type;
  Limiter : Type;
  conn_Write : Conn → list ascii → Conn * Z * option string;
  lim_Burst : Limiter → Z;
  lim_WaitN : Limiter → Z → Limiter * option string;
  (** what the other side has received; an observation, not an operation *)
  received : Conn → list ascii;
}.

(** The contract of [io.Writer]: a count [0 <= n <= len(p)] of bytes that are delivered. *)
Class NetLaws `{NetLib} : Prop := {
  write_contract c p c' n e :
    conn_Write c p = (c', n, e) → 0 ≤ n ≤ len p ∧ received c' = received c ++ take (Z.to_nat n) p;
}.

Section network.
Context `{NetLib}.

(** The inner loop of [rateLimitedWriter.Write]; [None] is a loop that does not end within the
    fuel. *)
Fixpoint write_chunk (fuel : nat) (c : Conn) (chunk : list ascii) (total : Z)
    : option (Conn * Z * option string) :=
  if len chunk =? 0 then Some (c, total, None)
  else
    match fuel with
    | O => None
    | S fuel =>
        let '(c, n, e) := conn_Write c chunk in
        let total := if 0 <? n then total + n else total in
        let chunk := if 0 <? n then drop (Z.to_nat n) chunk else chunk in
        match e with
        | Some err => Some (c, total, Some err)
        | None => if n =? 0 then Some (c, total, Some "ErrNoProgress") else write_chunk fuel c chunk total
        end
    end.

(** The size of the next chunk. *)
Definition chunk_size (l : Limiter) (p : list ascii) : Z :=
  let chunk := lim_Burst l in
  let chunk := if chunk <=? 0 then 1 else chunk in
  if len p <? chunk then len p else chunk.

Fixpoint write_loop (fuel : nat) (c : Conn) (l : Limiter) (p : list ascii) (total : Z)
    : option (Conn * Limiter * Z * option string) :=
  if len p =? 0 then Some (c, l, total, None)
  else
    match fuel with
    | O => None
    | S fuel =>
        let chunk := chunk_size l p in
        let '(l, e) := lim_WaitN l chunk in
        match e with
        | Some err => Some (c, l, total, Some err)
        | None =>
            let ch := take (Z.to_nat chunk) p in
            match write_chunk (length ch) c ch total with
            | None => None
            | Some (c, total, Some err) => Some (c, l, total, Some err)
            | Some (c, total, None) => write_loop fuel c l (drop (Z.to_nat chunk) p) total
            end
        end
    end.

Definition rateLimited_Write (c : Conn) (l : Limiter) (p : list ascii)
    : option (Conn * Limiter * Z * option string) := write_loop (length p) c l p 0.

(** ** [TcpDial] *)

(** The connections by address, and the shared upload limiter. *)
Record Net := mkNet { connectionPool : gmap string Conn; rateLimiterUpload : Limiter }.

(** The attempts that are left; [dial k] is the outcome of the k-th [net.DialTimeout]. *)
Fixpoint dial_loop (dial : nat → Conn + string) (context : list ascii) (addr : string) (lastErr : string)
    (tries : nat) (net : Net) : option (Net * option string) :=
  match tries with
  | O => Some (net, Some lastErr)
  | S tries =>
      match (match connectionPool net !! addr with Some c => inl c | None => dial (4 - tries)%nat end) with
      | inr err => dial_loop dial context addr err tries net
      | inl c =>
          match rateLimited_Write c (rateLimiterUpload net) (frame context) with
          | None => None
          | Some (c, l, _, Some err) =>
              dial_loop dial context addr err tries (mkNet (delete addr (connectionPool net)) l)
          | Some (c, l, _, None) => Some (mkNet (<[addr := c]> (connectionPool net)) l, None)
          end
      end
  end.

Definition TcpDial (dial : nat → Conn + string) (context : list ascii) (addr : string) (net : Net)
    : option (Net * option string) :=
  if bool_decide (addr = "") then Some (net, Some "empty addr")
  else dial_loop dial context addr "" 5 net.

Definition CloseAllConnInPool (net : Net) : Net := mkNet ∅ (rateLimiterUpload net).

(** ** [rateLimitedReader.Read]: the wait before reading [n] bytes *)
Fixpoint read_wait (fuel : nat) (l : Limiter) (n : Z) : option (Limiter * option string) :=
  if n <=? 0 then Some (l, None)
  else
    match fuel with
    | O => None
    | S fuel =>
        let writeByteNum := if n <? lim_Burst l then n else lim_Burst l in
        let '(l, e) := lim_WaitN l n in
        match e with
        | Some err => Some (l, Some err)
        | None => read_wait fuel l (n - writeByteNum)
        end
    end.

(** ** Writing ends and delivers *)
Context `{!NetLaws}.

Lemma write_chunk_ok fuel c chunk total : (length chunk ≤ fuel)%nat →
  ∃ c' total' e, write_chunk fuel c chunk total = Some (c', total', e) ∧ total ≤ total' ≤ total + len chunk ∧
    received c' = received c ++ take (Z.to_nat (total' - total)) chunk ∧ (e = None → total' = total + len chunk).
Proof.
  revert c chunk total. induction fuel as [|fuel IH]; intros c chunk total Hf; cbn [write_chunk].
  - destruct chunk; [|cbn in Hf; lia]. cbn. exists c, total, None. rewrite Z.sub_diag, app_nil_r. unfold len. cbn. auto with lia.
  - destruct (len chunk =? 0) eqn:E0; zbool.
    { destruct chunk; [|done]. exists c, total, None. rewrite Z.sub_diag, app_nil_r. unfold len. cbn. auto with lia. }
    destruct (conn_Write c chunk) as [[c1 n] e] eqn:Ew. apply write_contract in Ew as [Hn Hr].
    destruct (0 <? n) eqn:En; zbool; cycle 1.
    { assert (n = 0) as -> by lia. rewrite app_nil_r in Hr.
      destruct e as [err|]; eexists _, _, _; (split; [reflexivity|]); rewrite Z.sub_diag, app_nil_r; (split; [unfold len; lia|done]). }
    destruct e as [err|].
    { eexists _, _, _. split; [reflexivity|]. split; [lia|]. split; [|done]. rewrite Hr. do 3 f_equal. lia. }
    rewrite (proj2 (Z.eqb_neq n 0)) by lia.
    destruct (IH c1 (drop (Z.to_nat n) chunk) (total + n)) as (c2 & t2 & e2 & -> & Ht & Hr2 & Hd).
    { rewrite length_drop. lia. }
    unfold len in *. rewrite length_drop in Ht, Hd. eexists _, _, _. split; [reflexivity|]. split; [lia|].
    split; [|intros He; specialize (Hd He); lia]. rewrite Hr2, Hr, <-app_assoc. f_equal.
    replace (Z.to_nat (t2 - total)) with (Z.to_nat n + Z.to_nat (t2 - (total + n)))%nat by lia. apply take_take_drop.
Qed.

Lemma chunk_size_range l p : p ≠ [] → 1 ≤ chunk_size l p ≤ len p.
Proof.
  intros Hp. unfold chunk_size. assert (0 < len p) by (destruct p; [done|unfold len; cbn; lia]).
  destruct (lim_Burst l <=? 0) eqn:E; zbool; case_match; zbool; lia.
Qed.

Lemma write_loop_ok fuel c l p total : (length p ≤ fuel)%nat →
  ∃ c' l' total' e, write_loop fuel c l p total = Some (c', l', total', e) ∧ total ≤ total' ≤ total + len p ∧
    received c' = received c ++ take (Z.to_nat (total' - total)) p ∧ (e = None → total' = total + len p).
Proof.
  revert c l p total. induction fuel as [|fuel IH]; intros c l p total Hf; cbn [write_loop].
  - destruct p; [|cbn in Hf; lia]. cbn. exists c, l, total, None. rewrite Z.sub_diag, app_nil_r. unfold len. cbn. auto with lia.
  - destruct (len p =? 0) eqn:E0; zbool.
    { destruct p; [|done]. exists c, l, total, None. rewrite Z.sub_diag, app_nil_r. unfold len. cbn. auto with lia. }
    assert (p ≠ []) as Hne by (by intros ->). pose proof (chunk_size_range l p Hne) as Hch. set (k := chunk_size l p) in *.
    destruct (lim_WaitN l k) as [l1 [err|]].
    { eexists _, _, _, _. split; [reflexivity|]. rewrite Z.sub_diag, app_nil_r. split; [lia|]. done. }
    destruct (write_chunk_ok (length (take (Z.to_nat k) p)) c (take (Z.to_nat k) p) total)
      as (c1 & t1 & e1 & -> & Ht & Hr & Hd); [lia|].
    unfold len in *. rewrite length_take in Ht, Hd.
    destruct e1 as [err|].
    { eexists _, _, _, _. split; [reflexivity|]. split; [lia|]. split; [|done].
      rewrite Hr, take_take. do 2 f_equal. lia. }
    specialize (Hd eq_refl).
    destruct (IH c1 l1 (drop (Z.to_nat k) p) t1) as (c2 & l2 & t2 & e2 & -> & Ht2 & Hr2 & Hd2).
    { rewrite length_drop. lia. }
    rewrite length_drop in Ht2, Hd2. eexists _, _, _, _. split; [reflexivity|]. split; [lia|].
    split; [|intros He; specialize (Hd2 He); lia]. rewrite Hr2, Hr, <-app_assoc, take_take. f_equal.
    replace (Z.to_nat (t2 - total)) with (Z.to_nat k + Z.to_nat (t2 - t1))%nat by lia.
    rewrite <-take_take_drop. do 2 f_equal. lia.
Qed.

(** C31: writing ends.  For every connection that keeps the contract of [io.Writer] and every
    limiter, [Write] returns after at most as many rounds as there are bytes; the count it
    returns is the number of bytes delivered, which are a prefix of the data, and all of it if
    no error is returned. *)
Theorem write_terminates (c : Conn) (l : Limiter) (p : list ascii) :
  ∃ c' l' n e, rateLimited_Write c l p = Some (c', l', n, e) ∧ 0 ≤ n ≤ len p ∧
    received c' = received c ++ take (Z.to_nat n) p ∧ (e = None → received c' = received c ++ p).
Proof.
  destruct (write_loop_ok (length p) c l p 0) as (c' & l' & n & e & E & Hn & Hr & Hd); [lia|].
  rewrite Z.sub_0_r in Hr. exists c', l', n, e. split; [exact E|]. split; [lia|]. split; [exact Hr|].
  intros He. rewrite Hr, (Hd He). unfold len. rewrite take_ge by lia. done.
Qed.

Lemma dial_loop_ok dial context addr tries : ∀ lastErr net,
  ∃ net' e, dial_loop dial context addr lastErr tries net = Some (net', e) ∧
    (∀ a, a ≠ addr → connectionPool net' !! a = connectionPool net !! a) ∧
    match e with
    | None => ∃ c old, connectionPool net' !! addr = Some c ∧ received c = old ++ frame context
    | Some _ => tries = O ∨ connectionPool net' !! addr = None
    end.
Proof.
  induction tries as [|tries IH]; intros lastErr net; cbn [dial_loop].
  { eexists _, _. split; [reflexivity|]. split; [done|]. by left. }
  assert (∀ err net1, connectionPool net1 !! addr = None → (∀ a, a ≠ addr → connectionPool net1 !! a = connectionPool net !! a) →
    ∃ net' e, dial_loop dial context addr err tries net1 = Some (net', e) ∧
    (∀ a, a ≠ addr → connectionPool net' !! a = connectionPool net !! a) ∧
    match e with
    | None => ∃ c old, connectionPool net' !! addr = Some c ∧ received c = old ++ frame context
    | Some _ => S tries = O ∨ connectionPool net' !! addr = None
    end) as Hnext.
  { intros err net1 H1 H2. destruct tries as [|t].
    - eexists _, _. split; [reflexivity|]. split; [exact H2|]. by right.
    - destruct (IH err net1) as (net' & e & E & Ho & He). exists net', e. split; [exact E|].
      split; [intros a Ha; by rewrite Ho, H2|]. destruct e as [e|]; [|done]. destruct He as [He|He]; [done|by right]. }
  destruct (connectionPool net !! addr) as [c|] eqn:Ec; [|destruct (dial (4 - tries)%nat) as [c|err]; [|by apply Hnext]].
  all: destruct (write_loop_ok (length (frame context)) c (rateLimiterUpload net) (frame context) 0)
      as (c' & l' & n & e & E & Hn & Hr & Hd); [lia|]; unfold rateLimited_Write; rewrite E.
  all: destruct e as [err|]; [apply Hnext; cbn; [apply lookup_delete_eq|intros; by rewrite lookup_delete_ne]|].
  all: eexists _, _; split; [reflexivity|]; cbn; split; [intros; by rewrite lookup_insert_ne|].
  all: exists c', (received c); split; [by rewrite lookup_insert_eq|]; rewrite Hr, (Hd eq_refl); unfold len; rewrite take_ge by lia; done.
Qed.

(** Dialling.  [TcpDial] always returns, after at most five attempts.  If it reports
    success, the connection it leaves in the pool has received the whole framed message last;
    if it reports an error for a non-empty address, no connection to it is left in the pool.
    Connections to other addresses are untouched. *)
Theorem tcp_dial_spec (dial : nat → Conn + string) (context : list ascii) (addr : string) (net : Net) :
  ∃ net' e, TcpDial dial context addr net = Some (net', e) ∧
    (∀ a, a ≠ addr → connectionPool net' !! a = connectionPool net !! a) ∧
    match e with
    | None => ∃ c old, connectionPool net' !! addr = Some c ∧ received c = old ++ frame context
    | Some _ => addr = "" ∧ net' = net ∨ connectionPool net' !! addr = None
    end.
Proof.
  unfold TcpDial. case_bool_decide as Ha.
  - eexists _, _. split; [reflexivity|]. split; [done|]. by left.
  - destruct (dial_loop_ok dial context addr 5 "" net) as (net' & e & E & Ho & He). exists net', e.
    split; [exact E|]. split; [exact Ho|]. destruct e as [err|]; [|done]. destruct He as [He|He]; [done|by right].
Qed.

(** ** Reading ([ReadFromConn], [rateLimitedReader]) *)

(** [readMessage]: [ReadBytes('\n')] on the buffer; the end of the buffer is not an error here. *)
Fixpoint readMessage (buffer : list ascii) : list ascii * list ascii :=
  match buffer with
  | [] => ([], [])
  | c :: buffer' => if Ascii.eqb c newline then ([c], buffer')
                    else let r := readMessage buffer' in (c :: r.1, r.2)
  end.

(** The inner loop of [ReadFromConn]: it stops only on an error of [readMessage], which returns
    none.  [None] is a loop that is still running after [fuel] rounds. *)
Fixpoint drain (fuel : nat) (buffer : list ascii) : option (list ascii) :=
  match fuel with
  | O => None
  | S fuel => drain fuel (readMessage buffer).2
  end.

Lemma drain_never_ends fuel buffer : drain fuel buffer = None.
Proof. revert buffer. by induction fuel as [|fuel IH]; intros buffer; [|apply IH]. Qed.

(** [WaitN] refuses a request larger than the burst; the reader waits for all of its buffer at
    once, so reading into a buffer larger than the burst fails. *)
Lemma read_wait_fails fuel l n : (0 < fuel)%nat → 0 < n →
  (∀ l n, lim_Burst l < n → is_Some (lim_WaitN l n).2) → lim_Burst l < n →
  ∃ l' err, read_wait fuel l n = Some (l', Some err).
Proof.
  intros Hf Hn Hw Hb. destruct fuel as [|fuel]; [lia|]. cbn [read_wait]. rewrite (proj2 (Z.leb_gt _ _)) by done.
  destruct (Hw l n Hb) as [err He]. destruct (lim_WaitN l n) as [l' e]. cbn in He. subst e. by exists l', err.
Qed.

(** The outer loop of [ReadFromConn]: [reads k] is the outcome of the k-th [Read] of the connection
    into the buffer of 1024 bytes, the bytes or an error ([io.EOF] included).  The result is what the
    message buffer holds when the loop ends. *)
Fixpoint read_loop (fuel : nat) (reads : nat → list ascii * option string) (k : nat) (l : Limiter) (buffer : list ascii)
    : option (list ascii) :=
  match fuel with
  | O => None
  | S fuel =>
      match read_wait 1024 l 1024 with
      | None => None
      | Some (l, Some _) => Some buffer
      | Some (l, None) =>
          match reads k with
          | (_, Some _) => Some buffer
          | (bs, None) =>
              match drain fuel (buffer ++ bs) with
              | None => None
              | Some buffer => read_loop fuel reads (S k) l buffer
              end
          end
      end
  end.

Definition ReadFromConn (fuel : nat) (reads : nat → list ascii * option string) (l : Limiter) (addr : string) (net : Net)
    : option (list ascii) :=
  match connectionPool net !! addr with
  | None => Some []
  | Some _ => read_loop fuel reads 0 l []
  end.

(** [ReadFromConn] returns only if nothing has been read: without a connection, when the limiter
    refuses, or when the first read fails.  Once bytes have arrived it never reads again, since its
    inner loop does not end. *)
Theorem read_from_conn_spec (reads : nat → list ascii * option string) (l : Limiter) (addr : string) (net : Net) :
  (connectionPool net !! addr = None → ∀ fuel, ReadFromConn fuel reads l addr net = Some []) ∧
  (is_Some (connectionPool net !! addr) → ∀ l' e, read_wait 1024 l 1024 = Some (l', e) →
   (is_Some e ∨ is_Some (reads 0%nat).2 → ∀ fuel, (0 < fuel)%nat → ReadFromConn fuel reads l addr net = Some []) ∧
   (e = None → (reads 0%nat).2 = None → ∀ fuel, ReadFromConn fuel reads l addr net = None)).
Proof.
  unfold ReadFromConn. split; [by intros ->|]. intros [c ->] l' e Hw. split.
  - intros He [|fuel] Hf; [lia|]. cbn [read_loop]. rewrite Hw. destruct e as [err|]; [done|].
    destruct He as [[? ?]|[err Hr]]; [done|]. destruct (reads 0%nat) as [bs o]. cbn in Hr. by subst o.
  - intros -> Hr [|fuel]; [done|]. cbn [read_loop]. rewrite Hw. destruct (reads 0%nat) as [bs o]. cbn in Hr. subst o.
    by rewrite drain_never_ends.
Qed.
End network.

(** ** Traffic accounting ([networks/overhead.go]) *)

(** The digests of partition requests, as [MarkMigrationDigest] stores them. *)
Definition MarkMigrationDigest (digest : bytes) (migrationDigests : gset bytes) : gset bytes :=
  {[digest]} ∪ migrationDigests.

(** The part of a vote that is decoded. *)
Record VoteDigest := mkVoteDigest { VDigest : bytes }.

Definition trafficCategory `{!Codec PrePrepare, !Codec VoteDigest} (migrationDigests : gset bytes) (data : bytes)
    : go string :=
  if len (chars data) <? 30 then Ok "other"
  else
    r ← SplitMessage data;
    let '(t, b) := r in
    let is_ := existsb (λ x, bool_decide (t = x)) in
    if is_ [OHStream] then Ok "stream"
    else if is_ [OHMissing; OHBodies; CRequestOldrequest; CSendOldrequest] then Ok "recovery"
    else if is_ [OHCompact] then Ok "consensus"
    else if is_ [CInject] then Ok "injection"
    else if is_ [CRelay; CRelayWithProof] then Ok "cross_shard"
    else if is_ [CPartitionMsg; AccountState_and_TX; CPartitionReady; OHMigrationDone] then Ok "migration"
    else if is_ [CPrePrepare] then
      Ok (match Decode b : option PrePrepare with
          | Some pp => if bool_decide (RequestType (RequestMsg pp) = PartitionReq) then "migration" else "consensus"
          | None => "consensus"
          end)
    else if is_ [CPrepare; CCommit] then
      Ok (match Decode b : option VoteDigest with
          | Some v => if decide (VDigest v ∈ migrationDigests) then "migration" else "consensus"
          | None => "consensus"
          end)
    else if is_ [ViewChangePropose; NewChange] then Ok "consensus"
    else if is_ [CBlockInfo; CStop] then Ok "control"
    else Ok "other".

(** ** Witnesses: a connection that takes three bytes at a time *)
Module NetworkExample.
#[export] Instance slow : NetLib := {|
  Conn := list ascii;
  Limiter := unit;
  conn_Write c p := (c ++ take 3 p, Z.min 3 (len p), None);
  lim_Burst _ := 4;
  lim_WaitN l _ := (l, None);
  received c := c |}.

#[export] Instance slow_laws : NetLaws.
Proof.
  split. cbn. intros c p c' n e [= <- <- _]. split; [unfold len; lia|]. f_equal.
  destruct (decide (length p ≤ 3)%nat); unfold len.
  - rewrite !take_ge by lia. done.
  - f_equal. lia.
Qed.

Definition empty_conn : Conn := @nil ascii.
Definition lim : Limiter := tt.
Definition hello : list ascii := chars "abcdefghij".

Lemma write_terminates_witness :
  ∃ (c' : Conn) l' n e, rateLimited_Write empty_conn lim hello = Some (c', l', n, e) ∧ n = 10 ∧ received c' = hello.
Proof.
  destruct (write_terminates empty_conn lim hello) as (c' & l' & n & e & E & _).
  exists c', l', n, e. split; [exact E|]. vm_compute in E. by injection E as <- _ <- _.
Defined.

Lemma tcp_dial_spec_witness :
  ∃ net' c, TcpDial (λ k, if (k <? 2)%nat then inr "refused" else inl empty_conn) hello "addr" (mkNet ∅ lim) = Some (net', None) ∧
    connectionPool net' !! "addr" = Some c ∧ received c = frame hello.
Proof.
  destruct (tcp_dial_spec (λ k, if (k <? 2)%nat then inr "refused" else inl empty_conn) hello "addr" (mkNet ∅ lim))
    as (net' & e & E & _).
  vm_compute in E. injection E as <- <-. eexists _, _. split; [vm_compute; reflexivity|]. by vm_compute.
Defined.
End NetworkExample.
