(* ===== verification/BrokerFile.v ===== *)
(** * The file of broker addresses ([initBrokerAddr] of [broker/broker.go])

    The addresses are the lines of a file, read with a [bufio.Scanner] that splits at line ends:
    a line loses one carriage return at its end, the last line needs no line end, and a line that
    does not fit the buffer of 64 KB ends the scan silently.  A file that cannot be opened gives no
    addresses. *)
From Stdlib Require Import Ascii.
From S2P Require Import Prelude Utils Libs Core Messages Broker Network.

Definition MaxScanTokenSize : Z := 64 * 1024.
Definition carriage_return : ascii := ascii_of_nat 13.

(** [dropCR] of [bufio.ScanLines]. *)
Definition dropCR (line : list ascii) : list ascii :=
  match last line with
  | Some c => if Ascii.eqb c carriage_return then removelast line else line
  | None => line
  end.

(** The lines a [Scanner] returns; [acc] is what it has read of the current one. *)
Fixpoint scan_lines (acc data : list ascii) : list (list ascii) :=
  match data with
  | [] => if (0 <? len acc) && (len acc <? MaxScanTokenSize) then [dropCR acc] else []
  | c :: data =>
      if Ascii.eqb c newline then
        if len acc <? MaxScanTokenSize then dropCR acc :: scan_lines [] data else []
      else scan_lines (acc ++ [c]) data
  end.

(** The loop: a line is added, the counter goes down, and zero ends it. *)
Fixpoint take_lines (num : Z) (lines : list Address) : list Address :=
  match lines with
  | [] => []
  | line :: lines =>
      line :: (let num := i64 (num - 1) in if num =? 0 then [] else take_lines num lines)
  end.

Definition initBrokerAddr (file : option bytes) (num : Z) : list Address :=
  match file with
  | None => []
  | Some text => take_lines num (List.map unchars (scan_lines [] (chars text)))
  end.

(** ** What is read *)

(** A line that a scan returns unchanged. *)
Definition plain_line (l : list ascii) : Prop :=
  no_newline l ∧ last l ≠ Some carriage_return ∧ len l < MaxScanTokenSize.

Lemma dropCR_plain l : last l ≠ Some carriage_return → dropCR l = l.
Proof.
  unfold dropCR. destruct (last l) as [c|]; [|done]. intros Hc. destruct (Ascii.eqb_spec c carriage_return); [congruence|done].
Qed.

Lemma scan_prefix acc l rest : no_newline l → scan_lines acc (l ++ rest) = scan_lines (acc ++ l) rest.
Proof.
  revert acc. induction l as [|c l IH]; intros acc Hl; [by rewrite app_nil_r|]. apply Forall_cons in Hl as [Hc Hl].
  cbn [app scan_lines]. destruct (Ascii.eqb_spec c newline) as [E|_]; [done|]. by rewrite IH, <-app_assoc.
Qed.

(** Lines with their line ends, and a last line without. *)
Lemma scan_text ls l : Forall plain_line ls → plain_line l →
  scan_lines [] (flat_map frame ls ++ l) = ls ++ (if 0 <? len l then [l] else []).
Proof.
  intros Hls (Hn & Hc & Hlen). induction Hls as [|l0 ls (Hn0 & Hc0 & Hlen0) _ IH]; cbn [flat_map app].
  - rewrite <-(app_nil_r l), scan_prefix by done. cbn [app scan_lines]. rewrite (proj2 (Z.ltb_lt _ _) Hlen), andb_true_r.
    rewrite app_nil_r, dropCR_plain by done. done.
  - unfold frame at 1. rewrite <-!app_assoc, scan_prefix by done. cbn [app scan_lines].
    rewrite Ascii.eqb_refl, (proj2 (Z.ltb_lt _ _) Hlen0), dropCR_plain by done. by rewrite IH.
Qed.

(** A positive number is the number of lines that are taken; any other takes all of them. *)
Lemma take_lines_pos (lines : list Address) num : 0 < num < 2 ^ 63 → take_lines num lines = take (Z.to_nat num) lines.
Proof.
  revert num. induction lines as [|l lines IH]; intros num Hn; [by rewrite take_nil|]. cbn [take_lines].
  rewrite i64_small by lia. replace (Z.to_nat num) with (S (Z.to_nat (num - 1))) by lia. cbn [take].
  destruct (num - 1 =? 0) eqn:E; zbool; [by rewrite E|]. rewrite IH by lia. done.
Qed.

Lemma take_lines_all (lines : list Address) num : num ≤ 0 → - 2 ^ 63 ≤ num - len lines → take_lines num lines = lines.
Proof.
  revert num. induction lines as [|l lines IH]; intros num Hn Hb; [done|]. cbn [take_lines]. unfold len in *. cbn [length] in Hb.
  rewrite i64_small by lia. rewrite (proj2 (Z.eqb_neq _ _)) by lia. rewrite IH; [done|lia|unfold len; lia].
Qed.

(** The brokers are the first [num] addresses of the file, or all of them when [num] is not
    positive; an address is a broker exactly if it is one of them. *)
Theorem broker_addresses (ls : list (list ascii)) (l : list ascii) (num : Z) :
  Forall plain_line ls → plain_line l → l ≠ [] → num < 2 ^ 63 → - 2 ^ 63 ≤ num - len ls - 1 →
  let addrs := List.map unchars (ls ++ [l]) in
  let b := NewBroker (initBrokerAddr (Some (unchars (flat_map frame ls ++ l))) num) in
  BrokerAddress b = (if 0 <? num then take (Z.to_nat num) addrs else addrs) ∧
  ∀ a, IsBroker b a = true ↔ a ∈ BrokerAddress b.
Proof.
  intros Hls Hl Hne Hn Hb addrs b. split.
  - subst b. unfold initBrokerAddr. cbn [NewBroker BrokerAddress]. rewrite chars_unchars, scan_text by done.
    rewrite (proj2 (Z.ltb_lt 0 (len l))) by (destruct l; [done|]; unfold len; cbn; lia). fold addrs.
    destruct (0 <? num) eqn:E; zbool; [by apply take_lines_pos|]. apply take_lines_all; [done|].
    subst addrs. unfold len in *. rewrite length_map, length_app. cbn. lia.
  - intros a. unfold IsBroker. rewrite existsb_exists. split.
    + intros (x & Hx & Ha). apply bool_decide_eq_true in Ha as ->. by apply list_elem_of_In.
    + intros Ha. exists a. split; [by apply list_elem_of_In|]. by apply bool_decide_eq_true.
Qed.

Lemma broker_addresses_witness :
  BrokerAddress (NewBroker (initBrokerAddr (Some (unchars (flat_map frame [chars "aa"; chars "bb"] ++ chars "cc"))) 2)) = ["aa"; "bb"].
Proof.
  destruct (broker_addresses [chars "aa"; chars "bb"] (chars "cc") 2) as [E _]; [..|exact E]; try (vm_compute; congruence).
  - repeat constructor; vm_compute; congruence.
  - repeat constructor; vm_compute; congruence.
Defined.
