(* ===== verification/ExClique.v ===== *)
(** * ExClique ([consensus_shard/exclique/])

    The alternative to PBFT: there are no votes.  The validator in turn proposes when the block
    interval has passed, the others at random times before that; a block is sent to every peer
    in compact form, where transactions that the peer is thought to know are only named by
    their hash.  The state of a node also lists the goroutines [sendCompactBlockToPeer] that it
    has started and that have not run yet: they read the Bloom filter when they run.  Logging and
    statistics are not modelled; [inTurnIndex] and [rng] are never used. *)
From Stdlib Require Import SpecFloat Ascii.
From S2P Require Import Prelude Utils Libs Partition Cbf Sealing Core Messages Storage Chain Network.

Record CompactBlock `{BitSetLib} := mkCompactBlock {
  CBHeader : option BlockHeader;
  TxHashes : list bytes;
  MissingTxs : list Transaction;
  CBFilter : bytes;
  CBSenderNodeID : Z;
  CBShardID : Z;
}.

Section exclique.
Context `{Params, BitSetLib, CryptoLib, !Codec AccountState, !Codec Transaction, !Codec BlockHeader, !Codec Block,
          !Codec CompactBlock, !Codec InjectTxs, BoltLib, TrieLib}.

Record ExCliqueNode := mkExCliqueNode {
  xShardID : Z;
  xNodeID : Z;
  xChain : BlockChain;
  nodeNums : Z;
  blockInterval : Duration;
  lastBlockTime : Time;
  delayManager : DelayManager;
  txPool : list Transaction;
  cbf : CountingBloomFilter;
  knownTxs : gset bytes;
  orderManager : OrderManager;
  x_ip_nodeTable : gmap Z (gmap Z string);
  stopSignal : bool;
  pStopClosed : bool;
  broadcastTime : Z;
  verifyTime : Z;
  blockCount : Z;
  forkCount : Z;
  sends : list (Block * string);
}.
#[export] Instance ExCliqueNode_eta : Eta ExCliqueNode := λ e,
  mkExCliqueNode (xShardID e) (xNodeID e) (xChain e) (nodeNums e) (blockInterval e) (lastBlockTime e) (delayManager e)
    (txPool e) (cbf e) (knownTxs e) (orderManager e) (x_ip_nodeTable e) (stopSignal e) (pStopClosed e) (broadcastTime e)
    (verifyTime e) (blockCount e) (forkCount e) (sends e).

(** The numbers [0 .. n-1]. *)
Definition upto (n : Z) : list Z := Z.of_nat <$> seq 0 (Z.to_nat n).

(** [NewExCliqueNode], with the opened databases. *)
Definition NewExCliqueNode (shardID nodeID : Z) (pcc : ChainConfig) (table : gmap Z (gmap Z string)) (now : Time)
    (db : TrieDB) (s : BoltDB) : go ExCliqueNode :=
  let interval := i64 (BlockInterval pcc * Millisecond) in
  bc ← NewBlockChain pcc db s;
  Ok (mkExCliqueNode shardID nodeID bc (Nodes_perShard pcc) interval now (NewDelayManager (50 * Millisecond) interval)
        [] (NewCountingBloomFilter 100000 4) ∅ (NewOrderManager (upto (Nodes_perShard pcc))) table false false 0 0 0 0 []).

(** ** Blocks *)
Definition verifyBlock (b : Block) (ec : ExCliqueNode) : bool :=
  if negb (Number (Header b) =? u64 (Number (Header (CurrentBlock (xChain ec))) + 1)) then false
  else bool_decide (ParentBlockHash (Header b) = Hash (CurrentBlock (xChain ec))).

(** A transaction becomes known. *)
Definition know (ec : ExCliqueNode) (tx : Transaction) : go ExCliqueNode :=
  c ← CBF_Add (TxHash tx) (cbf ec);
  Ok (ec <| knownTxs ::= λ k, {[TxHash tx]} ∪ k |> <| cbf := c |>).

(** [verifyDuration] is the time that [verifyBlock] took. *)
Definition addBlock (verifyDuration : Duration) (b : Block) (ec : ExCliqueNode) : go ExCliqueNode :=
  if negb (verifyBlock b ec) then Ok (ec <| forkCount ::= Z.add 1 |>)
  else
    let ec := ec <| verifyTime := Milliseconds verifyDuration |>
                 <| delayManager ::= RecordVerifyTime verifyDuration |> in
    bc ← AddBlock b (xChain ec);
    go_fold know (ec <| xChain := bc |>) (Body b).

(** The header has no state root and no transaction root. *)
Definition createBlock (now : Time) (txs : list Transaction) (ec : ExCliqueNode) : Block :=
  let prevBlock := CurrentBlock (xChain ec) in
  seal (mkBlockHeader _ (Hash prevBlock) "" "" (bitset_New 0) (u64 (Number (Header prevBlock) + 1)) now (i32 (xNodeID ec))) txs.

Definition peers (ec : ExCliqueNode) : list string :=
  (λ nid, default "" (t ← x_ip_nodeTable ec !! xShardID ec; t !! nid)) <$>
    List.filter (λ nid, negb (nid =? xNodeID ec)) (upto (nodeNums ec)).

(** One goroutine per peer is started. *)
Definition broadcastBlockWithPCB (b : Block) (ec : ExCliqueNode) : ExCliqueNode :=
  ec <| sends ::= λ s, s ++ ((λ addr, (b, addr)) <$> peers ec) |>.

(** The measured and read times of one proposal. *)
Record xclock := mkClock {
  ck_block : Time;          (* in [createBlock] *)
  ck_broadcast : Duration;  (* [broadcastDuration] *)
  ck_verify : Duration;     (* [verifyDuration] *)
  ck_last : Time;           (* the new [lastBlockTime] *)
}.

Definition proposeBlock (isInTurn : bool) (ck : xclock) (ec : ExCliqueNode) : go ExCliqueNode :=
  if len (txPool ec) =? 0 then Ok ec
  else
    let maxSize := MaxBlockSize_global in
    blockTxs ← (if maxSize <? len (txPool ec) then
                  if maxSize <? 0 then Panic "slice bounds out of range" else Ok (take (Z.to_nat maxSize) (txPool ec))
                else Ok (txPool ec));
    let block := createBlock (ck_block ck) blockTxs ec in
    let ec := ec <| txPool ::= drop (length blockTxs) |> in
    let ec := broadcastBlockWithPCB block ec in
    let ec := ec <| broadcastTime := Milliseconds (ck_broadcast ck) |>
                 <| delayManager ::= RecordBroadcastTime (ck_broadcast ck) |> in
    ec ← addBlock (ck_verify ck) block ec;
    Ok (ec <| lastBlockTime := ck_last ck |> <| orderManager ::= RecordBlock (xNodeID ec) isInTurn |>
           <| blockCount ::= Z.add 1 |>).

(** [r] is the random number of [ShouldPropose]. *)
Definition tryProposeBlock (now : Time) (r : float) (ck : xclock) (ec : ExCliqueNode) : go ExCliqueNode :=
  let currentHeight := u64 (Number (Header (CurrentBlock (xChain ec))) + 1) in
  t ← GetInTurnValidator currentHeight (orderManager ec);
  let '(om, inTurnValidator) := t in
  let ec := ec <| orderManager := om |> in
  let timeSinceLastBlock := now - lastBlockTime ec in
  if xNodeID ec =? inTurnValidator then
    if blockInterval ec <=? timeSinceLastBlock then proposeBlock true ck ec else Ok ec
  else if ShouldPropose r timeSinceLastBlock (delayManager ec) then proposeBlock false ck ec else Ok ec.

(** ** Compact blocks *)

(** [ec.cbf.Contains(h) && ec.cbf.GetCount(h) > 1] *)
Definition likely_known (c : CountingBloomFilter) (h : bytes) : go bool :=
  has ← CBF_Contains c h;
  if (has : bool) then n ← CBF_GetCount c h; Ok (1 <? n) else Ok false.

Definition classify (c : CountingBloomFilter) (acc : list bytes * list Transaction) (tx : Transaction)
    : go (list bytes * list Transaction) :=
  k ← likely_known c (TxHash tx);
  Ok (if (k : bool) then (acc.1 ++ [TxHash tx], acc.2) else (acc.1, acc.2 ++ [tx])).

Definition compact_block (b : Block) (ec : ExCliqueNode) : go CompactBlock :=
  cl ← go_fold (classify (cbf ec)) ([], []) (Body b);
  Ok (mkCompactBlock _ (Some (Header b)) cl.1 cl.2 (CBF_Encode (cbf ec)) (xNodeID ec) (xShardID ec)).

(** [inl] is the error value. *)
Definition EncodeCompactBlock (cb : CompactBlock) : string + bytes :=
  match CBHeader cb with
  | None => inl "EncodeCompactBlock: nil compact block or header"
  | Some _ => inr (Encode cb)
  end.

Definition DecodeCompactBlock (data : bytes) : string + CompactBlock :=
  if bool_decide (data = "") then inl "DecodeCompactBlock: empty data"
  else
    match Decode data : option CompactBlock with
    | None => inl "gob"
    | Some cb => match CBHeader cb with
                 | None => inl "DecodeCompactBlock: nil header"
                 | Some _ => inr cb
                 end
    end.

(** A goroutine runs: the message it sends. *)
Definition sendCompactBlockToPeer (b : Block) (peerAddr : string) (ec : ExCliqueNode) : go (list (string * bytes)) :=
  cb ← compact_block b ec;
  match EncodeCompactBlock cb with
  | inl _ => Ok []
  | inr cbData => msg ← MergeMessage ExCliqueBlock cbData; Ok [(peerAddr, msg)]
  end.

(** The transactions named by their hash are not looked up. *)
Definition handleCompactBlock (verifyDuration : Duration) (cb : CompactBlock) (ec : ExCliqueNode) : go ExCliqueNode :=
  match CBHeader cb with
  | None => Ok ec
  | Some h => addBlock verifyDuration (seal h (MissingTxs cb)) ec
  end.

(** ** Messages *)
Definition handleInjectTxs (content : bytes) (ec : ExCliqueNode) : go ExCliqueNode :=
  match Decode content : option InjectTxs with
  | None => Ok ec
  | Some it => go_fold (λ ec tx, know (ec <| txPool ::= λ p, p ++ [tx] |>) tx) ec (ITxs it)
  end.

Definition Stop (ec : ExCliqueNode) : go ExCliqueNode :=
  let ec := ec <| stopSignal := true |> in
  if pStopClosed ec then Panic "close of closed channel" else Ok (ec <| pStopClosed := true |>).

Definition x_handleMessage (verifyDuration : Duration) (data : bytes) (ec : ExCliqueNode) : go ExCliqueNode :=
  if len (chars data) <? 30 then Ok ec
  else
    m ← SplitMessage data;
    let '(msgType, content) := m in
    if bool_decide (msgType = ExCliqueBlock) then
      match DecodeCompactBlock content with
      | inl _ => Ok ec
      | inr cb => handleCompactBlock verifyDuration cb ec
      end
    else if bool_decide (msgType = CInject) then handleInjectTxs content ec
    else if bool_decide (msgType = CStop) then Stop ec
    else Ok ec.

(** A connection: the stream is cut at newlines; an empty message is skipped, and what is left
    at the end is dropped. *)
Definition handleConnection (verifyDuration : Duration) (stream : list ascii) (ec : ExCliqueNode) : go ExCliqueNode :=
  go_fold (λ ec b, if len b =? 0 then Ok ec else x_handleMessage verifyDuration (unchars b) ec) ec (frames [] stream).1.

(** ** Steps of a node *)
Inductive xevent :=
| XTick (now : Time) (r : float) (ck : xclock)
| XSend (i : nat)
| XMsg (verifyDuration : Duration) (data : bytes).

(** A tick after the stop signal ends the loop; a goroutine that runs leaves the list. *)
Definition xstep (ec : ExCliqueNode) (e : xevent) : go (ExCliqueNode * list (string * bytes)) :=
  match e with
  | XTick now r ck => if stopSignal ec then Ok (ec, []) else ec ← tryProposeBlock now r ck ec; Ok (ec, [])
  | XSend i =>
      match sends ec !! i with
      | None => Ok (ec, [])
      | Some ba => out ← sendCompactBlockToPeer ba.1 ba.2 ec; Ok (ec <| sends ::= delete i |>, out)
      end
  | XMsg d data => ec ← x_handleMessage d data ec; Ok (ec, [])
  end.
End exclique.
