(* ===== verification/ExCliqueFacts.v ===== *)
(** * Properties of ExClique nodes

    What a proposal does, what the peers make of it depending on when the sending goroutine
    runs, and when a node proposes at all. *)
From Stdlib Require Import SpecFloat Ascii.
From S2P Require Import Prelude Utils Libs Partition Cbf Sealing Core Messages Storage Chain Network ExClique.

Section exclique.
Context `{Params, BitSetLib, CryptoLib, !Codec AccountState, !Codec Transaction, !Codec BlockHeader, !Codec Block,
          !Codec CompactBlock, !Codec InjectTxs, BoltLib, TrieLib}.
Context `{!CryptoLaws, !CodecLaws BlockHeader, !CodecLaws Block, !CodecLaws CompactBlock, !CodecLaws InjectTxs,
          !BoltLaws, !TrieLaws}.

(** ** The filter after several transactions *)
Lemma know_all txs : ∀ ec, cbf_ok (cbf ec) →
  ∃ k c, go_fold know ec txs = Ok (ec <| knownTxs := k |> <| cbf := c |>) ∧ cbf_ok c ∧
    cbf_size c = cbf_size (cbf ec) ∧ hashNum c = hashNum (cbf ec) ∧
    ∀ p, 0 ≤ p → at_pos c p =
      Z.min 255 (at_pos (cbf ec) p + sumZ (λ tx, hits (cbf ec) (TxHash tx) (seeds (cbf ec)) p) txs).
Proof.
  induction txs as [|tx txs IH]; intros ec Hok; cbn [go_fold].
  - exists (knownTxs ec), (cbf ec). split; [by destruct ec|]. split; [done|]. split; [done|]. split; [done|].
    intros p _. pose proof (at_pos_u8 (cbf ec) p Hok). cbn. lia.
  - destruct (add_loop (TxHash tx) (seeds (cbf ec)) (cbf ec) Hok) as (c1 & E1 & Hok1 & S1 & N1 & A1).
    assert (know ec tx = Ok (ec <| knownTxs ::= λ k, {[TxHash tx]} ∪ k |> <| cbf := c1 |>)) as ->
      by (unfold know, CBF_Add; by rewrite E1).
    cbn [mbind go_bind]. set (ec1 := ec <| knownTxs ::= λ k, {[TxHash tx]} ∪ k |> <| cbf := c1 |>).
    assert (cbf ec1 = c1) as Ec by done.
    destruct (IH ec1) as (k & c & -> & Hok' & S & N & A); [by rewrite Ec|].
    exists k, c. split; [done|]. split; [done|]. rewrite Ec in S, N, A. split; [congruence|]. split; [congruence|].
    intros p Hp. rewrite A, A1, sumZ_cons by done.
    rewrite (sumZ_ext (λ t, hits c1 (TxHash t) (seeds c1) p) (λ t, hits (cbf ec) (TxHash t) (seeds (cbf ec)) p))
      by (intros; rewrite (seeds_same (cbf ec) c1 N1); by apply hits_size).
    assert (0 ≤ sumZ (λ t, hits (cbf ec) (TxHash t) (seeds (cbf ec)) p) txs); [|lia].
    clear. induction txs as [|t txs IH]; [done|]. rewrite sumZ_cons.
    pose proof (hits_nonneg (cbf ec) (TxHash t) (seeds (cbf ec)) p). lia.
Qed.

(** A transaction of the list hits its own positions. *)
Lemma own_hit (c : CountingBloomFilter) tx txs i : tx ∈ txs → i ∈ seeds c →
  1 ≤ sumZ (λ t, hits c (TxHash t) (seeds c) (pos_of c (TxHash tx) i)) txs.
Proof.
  intros Ht Hi. assert (∀ t, 0 ≤ hits c (TxHash t) (seeds c) (pos_of c (TxHash tx) i)) as Hpos by (intros; apply hits_nonneg).
  assert (∀ l, 0 ≤ sumZ (λ t, hits c (TxHash t) (seeds c) (pos_of c (TxHash tx) i)) l) as Hs.
  { induction l as [|t l IH]; [done|]. rewrite sumZ_cons. specialize (Hpos t). lia. }
  induction txs as [|t txs IH]; [by apply elem_of_nil in Ht|]. rewrite sumZ_cons.
  apply elem_of_cons in Ht as [<-|Ht]; [|specialize (IH Ht); specialize (Hpos t); lia].
  specialize (Hs txs). assert (1 ≤ hits c (TxHash tx) (seeds c) (pos_of c (TxHash tx) i)); [|lia].
  clear -Hi. induction (seeds c) as [|j l IH]; [by apply elem_of_nil in Hi|]. rewrite hits_cons.
  pose proof (hits_nonneg c (TxHash tx) l (pos_of c (TxHash tx) i)).
  apply elem_of_cons in Hi as [->|Hi]; [rewrite Z.eqb_refl; lia|]. specialize (IH Hi). case_match; lia.
Qed.

(** An item whose counters are all at least 2 is taken to be known. *)
Lemma likely_known_true (c : CountingBloomFilter) h : cbf_ok c →
  (∀ i, i ∈ seeds c → 2 ≤ at_pos c (pos_of c h i)) → likely_known c h = Ok true.
Proof.
  intros Hok Hall. unfold likely_known, CBF_Contains, CBF_GetCount. rewrite contains_spec by done.
  rewrite (proj2 (forallb_forall _ _)).
  - cbn [mbind go_bind]. destruct (count_spec h (seeds c) c Hok 255) as (k & -> & _ & Hlow & _); [lia|].
    cbn [mbind go_bind]. f_equal. apply Z.ltb_lt. enough (2 ≤ k) by lia. apply Hlow; [lia|exact Hall].
  - intros i Hi%list_elem_of_In. apply negb_true_iff, Z.eqb_neq. specialize (Hall i Hi). lia.
Qed.

Lemma likely_known_false (c : CountingBloomFilter) h i : cbf_ok c → i ∈ seeds c →
  at_pos c (pos_of c h i) ≤ 1 → likely_known c h = Ok false.
Proof.
  intros Hok Hi Hle. unfold likely_known, CBF_Contains, CBF_GetCount. rewrite contains_spec by done. cbn [mbind go_bind].
  destruct (forallb _ _); [|done].
  destruct (count_spec h (seeds c) c Hok 255) as (k & -> & _ & _ & Hup); [lia|]. cbn [mbind go_bind]. f_equal.
  apply Z.ltb_ge. specialize (Hup i Hi). lia.
Qed.

(** The same answer for all transactions of a block. *)
Lemma classify_all (c : CountingBloomFilter) (k : bool) txs : (∀ tx, tx ∈ txs → likely_known c (TxHash tx) = Ok k) →
  ∀ acc, go_fold (classify c) acc txs =
    Ok (if k then (acc.1 ++ (TxHash <$> txs), acc.2) else (acc.1, acc.2 ++ txs)).
Proof.
  induction txs as [|tx txs IH]; intros Hk [h m]; cbn [go_fold fst snd fmap list_fmap].
  - rewrite !app_nil_r. by destruct k.
  - assert (classify c (h, m) tx = Ok (if k then (h ++ [TxHash tx], m) else (h, m ++ [tx]))) as ->
      by (unfold classify; by rewrite Hk by (by apply list_elem_of_here)).
    cbn [mbind go_bind]. rewrite IH by (intros t Ht; apply Hk; by apply list_elem_of_further).
    destruct k; cbn; by rewrite <-!app_assoc.
Qed.

(** ** Adding a block without a state root *)
Definition fresh_account : AccountState := mkAccountState "" 0 Init_Balance "" "".

Lemma add_zero_root (bc : BlockChain) b :
  Number (Header b) = u64 (Number (Header (CurrentBlock bc)) + 1) → ParentBlockHash (Header b) = Hash (CurrentBlock bc) →
  StateRoot (Header b) = "" → Hash b = HeaderHash (Header b) →
  ∃ bc', AddBlock b bc = Ok bc' ∧ triedb bc' = triedb bc ∧ CurrentBlock bc' = b ∧
    ∀ addrs, FetchAccounts bc' addrs = Ok ((λ _, fresh_account) <$> addrs).
Proof.
  intros Hn Hp Hz Hh. unfold AddBlock. rewrite Hn, Z.eqb_refl, Hp, bool_decide_eq_true_2, Hz by done. cbn [negb].
  destruct (trie_new_zero (triedb bc)) as (t & Ht & Hg). rewrite Ht. cbn [mbind go_bind].
  destruct (store_block_gets (Storage bc) b) as (s & -> & _); [rewrite Hh; apply sha256_nonempty|]. cbn [mbind go_bind].
  eexists. split; [reflexivity|]. split; [done|]. split; [done|]. intros addrs. unfold FetchAccounts, open_state.
  cbn [CurrentBlock triedb upd]. rewrite Hz, Ht. cbn [mbind go_bind].
  assert (∀ acc, go_fold (λ res addr, a ← load_account t addr 0; Ok (res ++ [a])) acc addrs =
    Ok (acc ++ ((λ _, fresh_account) <$> addrs))) as Hl.
  { induction addrs as [|a addrs IH]; intros acc; cbn [go_fold fmap list_fmap]; [by rewrite app_nil_r|].
    assert (load_account t a 0 = Ok fresh_account) as -> by (unfold load_account; by rewrite Hg).
    cbn [mbind go_bind]. rewrite IH, <-app_assoc. done. }
  apply (Hl []).
Qed.
(** What a node that has added [b] keeps and gains. *)
Record added (b : Block) (ec ec' : ExCliqueNode) : Prop := {
  ad_block : CurrentBlock (xChain ec') = b;
  ad_trie : triedb (xChain ec') = triedb (xChain ec);
  ad_accounts : ∀ addrs, FetchAccounts (xChain ec') addrs = Ok ((λ _, fresh_account) <$> addrs);
  ad_pool : txPool ec' = txPool ec;
  ad_sends : sends ec' = sends ec;
  ad_node : xNodeID ec' = xNodeID ec;
  ad_shard : xShardID ec' = xShardID ec;
  ad_ok : cbf_ok (cbf ec');
  ad_size : cbf_size (cbf ec') = cbf_size (cbf ec);
  ad_hashes : hashNum (cbf ec') = hashNum (cbf ec);
  ad_counters : ∀ p, 0 ≤ p → at_pos (cbf ec') p =
    Z.min 255 (at_pos (cbf ec) p + sumZ (λ tx, hits (cbf ec) (TxHash tx) (seeds (cbf ec)) p) (Body b));
}.

Lemma add_block_ok d b ec : cbf_ok (cbf ec) → verifyBlock b ec = true → StateRoot (Header b) = "" →
  Hash b = HeaderHash (Header b) → ∃ ec', addBlock d b ec = Ok ec' ∧ added b ec ec'.
Proof.
  intros Hok Hv Hz Hh. unfold addBlock. rewrite Hv. cbn [negb]. unfold verifyBlock in Hv.
  destruct (_ =? _) eqn:En; [|done]. cbn [negb] in Hv. apply bool_decide_eq_true in Hv. apply Z.eqb_eq in En.
  set (ec0 := ec <| verifyTime := _ |> <| delayManager ::= _ |>).
  destruct (add_zero_root (xChain ec0) b) as (bc & -> & Ht & Hc & Hf); [done..|]. cbn [mbind go_bind].
  destruct (know_all (Body b) (ec0 <| xChain := bc |>)) as (k & c & E & Hok' & Hs & Hn & Ha); [done|].
  eexists. split; [exact E|]. split; try done.
Qed.

(** A new block fits the chain of its proposer. *)
Lemma created_fits now txs ec : verifyBlock (createBlock now txs ec) ec = true.
Proof. unfold verifyBlock, createBlock, seal. cbn. by rewrite Z.eqb_refl, bool_decide_eq_true_2. Qed.

(** The transactions that a proposal takes. *)
Definition taken (ec : ExCliqueNode) : list Transaction := take (Z.to_nat MaxBlockSize_global) (txPool ec).
Definition proposal (ck : xclock) (ec : ExCliqueNode) : Block := createBlock (ck_block ck) (taken ec) ec.

Lemma propose_ok isInTurn ck ec : cbf_ok (cbf ec) → 0 < MaxBlockSize_global → txPool ec ≠ [] →
  ∃ ec', proposeBlock isInTurn ck ec = Ok ec' ∧
    added (proposal ck ec) (ec <| txPool := drop (Z.to_nat MaxBlockSize_global) (txPool ec) |>
                              <| sends ::= λ s, s ++ ((λ a, (proposal ck ec, a)) <$> peers ec) |>) ec'.
Proof.
  intros Hok Hmax Hne. unfold proposeBlock.
  assert (len (txPool ec) =? 0 = false) as -> by (destruct (txPool ec); [done|apply Z.eqb_neq; unfold len; cbn; lia]).
  assert ((if MaxBlockSize_global <? len (txPool ec)
           then if MaxBlockSize_global <? 0 then Panic "slice bounds out of range"
                else Ok (take (Z.to_nat MaxBlockSize_global) (txPool ec)) else Ok (txPool ec)) = Ok (taken ec)) as ->.
  { rewrite (proj2 (Z.ltb_ge _ 0)) by lia. destruct (_ <? _) eqn:E; [done|]. zbool.
    unfold taken. rewrite take_ge; [done|]. unfold len in E. lia. }
  cbn [mbind go_bind]. assert (drop (length (taken ec)) (txPool ec) = drop (Z.to_nat MaxBlockSize_global) (txPool ec)) as Hd.
  { unfold taken. rewrite length_take. destruct (decide (Z.to_nat MaxBlockSize_global ≤ length (txPool ec))%nat).
    - by rewrite Nat.min_l by done.
    - rewrite Nat.min_r by lia. by rewrite !drop_ge by lia. }
  fold (proposal ck ec). match goal with |- context [addBlock _ _ ?e] => set (ec1 := e) end.
  destruct (add_block_ok (ck_verify ck) (proposal ck ec) ec1) as (ec2 & E & Ha); [done|exact (created_fits (ck_block ck) (taken ec) ec)|done|done|].
  rewrite E. cbn [mbind go_bind]. eexists. split; [reflexivity|].
  destruct Ha as [A1 A2 A3 A4 A5 A6 A7 A8 A9 A10 A11]. split; try done. rewrite <-Hd. exact A4.
Qed.

(** C40: ExClique never executes transactions.  A proposal of a node with a filled pool
    succeeds, and takes up to [MaxBlockSize_global] transactions from the pool into the new current
    block; but the header of that block has no state root and the zero root opens an empty trie, so
    the chain takes the state as known: no account changes, and every account then has its
    initial balance again. *)
Theorem exclique_never_executes isInTurn ck ec : cbf_ok (cbf ec) → 0 < MaxBlockSize_global → txPool ec ≠ [] →
  ∃ ec', proposeBlock isInTurn ck ec = Ok ec' ∧
    Body (CurrentBlock (xChain ec')) ++ txPool ec' = txPool ec ∧
    len (Body (CurrentBlock (xChain ec'))) = Z.min MaxBlockSize_global (len (txPool ec)) ∧
    ParentBlockHash (Header (CurrentBlock (xChain ec'))) = Hash (CurrentBlock (xChain ec)) ∧
    triedb (xChain ec') = triedb (xChain ec) ∧
    ∀ addrs, FetchAccounts (xChain ec') addrs = Ok ((λ _, fresh_account) <$> addrs).
Proof.
  intros Hok Hmax Hne. destruct (propose_ok isInTurn ck ec Hok Hmax Hne) as (ec' & E & Ha). exists ec'.
  split; [exact E|]. rewrite (ad_block _ _ _ Ha), (ad_pool _ _ _ Ha). cbn [txPool upd].
  split; [apply take_drop|]. split; [|split; [done|split; [apply (ad_trie _ _ _ Ha)|apply (ad_accounts _ _ _ Ha)]]].
  assert (Body (proposal ck ec) = taken ec) as -> by done. unfold taken, len. rewrite length_take. lia.
Qed.

(** ** Compact blocks on the wire *)

(** A block whose transactions are all taken to be known ([k]), or all not, and a peer at its
    parent: the message of the goroutine and the block the peer adds. *)
Lemma delivered (k : bool) b addr d ec peer :
  (∀ tx, tx ∈ Body b → likely_known (cbf ec) (TxHash tx) = Ok k) →
  cbf_ok (cbf peer) → verifyBlock b peer = true → StateRoot (Header b) = "" →
  ∃ msg peer', sendCompactBlockToPeer b addr ec = Ok [(addr, msg)] ∧ x_handleMessage d msg peer = Ok peer' ∧
    CurrentBlock (xChain peer') = seal (Header b) (if k then [] else Body b).
Proof.
  intros Hk Hok Hv Hz. unfold sendCompactBlockToPeer, compact_block. rewrite (classify_all _ k) by done. cbn [mbind go_bind].
  match goal with |- context [EncodeCompactBlock ?c] => set (cb := c) end.
  assert (CBHeader cb = Some (Header b) ∧ MissingTxs cb = if k then [] else Body b) as [Hh Hm] by (by destruct k).
  unfold EncodeCompactBlock. rewrite Hh.
  assert ((m ← MergeMessage ExCliqueBlock (Encode cb); SplitMessage m) = Ok (ExCliqueBlock, Encode cb)) as Hsm
    by (by apply split_merge).
  destruct (MergeMessage ExCliqueBlock (Encode cb)) as [msg|] eqn:Em; [|done]. cbn [mbind go_bind] in Hsm |- *.
  destruct (add_block_ok d (seal (Header b) (MissingTxs cb)) peer Hok Hv Hz) as (peer' & Ea & Ha); [done|].
  exists msg, peer'. split; [done|]. split; [|by rewrite (ad_block _ _ _ Ha), Hm].
  unfold x_handleMessage. assert (len (chars msg) <? 30 = false) as ->.
  { unfold SplitMessage in Hsm. destruct (_ <? _)%nat eqn:E in Hsm; [done|]. apply Nat.ltb_ge in E.
    apply Z.ltb_ge. unfold len. unfold prefixMSGtypeLen in E. lia. }
  rewrite Hsm. cbn [mbind go_bind]. rewrite bool_decide_eq_true_2 by done. unfold DecodeCompactBlock.
  rewrite bool_decide_eq_false_2 by (apply encode_nonempty). rewrite codec_roundtrip, Hh.
  unfold handleCompactBlock. by rewrite Hh.
Qed.

(** One occurrence is not enough to be taken as known; adding the transaction again is. *)
Lemma once_unknown (c : CountingBloomFilter) h : cbf_ok c → CBF_GetCount c h = Ok 1 → likely_known c h = Ok false.
Proof.
  intros Hok Hc. unfold likely_known, CBF_Contains. rewrite contains_spec by done. cbn [mbind go_bind].
  case_match; [|done]. by rewrite Hc.
Qed.

Lemma readded_known b ec ec' tx : cbf_ok (cbf ec) → added b ec ec' → tx ∈ Body b →
  CBF_GetCount (cbf ec) (TxHash tx) = Ok 1 → likely_known (cbf ec') (TxHash tx) = Ok true.
Proof.
  intros Hok Ha Hin Hc. apply likely_known_true; [apply (ad_ok _ _ _ Ha)|]. intros i Hi.
  rewrite (seeds_same (cbf ec)) in Hi by apply (ad_hashes _ _ _ Ha).
  assert (pos_of (cbf ec') (TxHash tx) i = pos_of (cbf ec) (TxHash tx) i) as -> by (unfold pos_of; by rewrite (ad_size _ _ _ Ha)).
  rewrite (ad_counters _ _ _ Ha) by (by apply pos_range).
  pose proof (own_hit (cbf ec) tx (Body b) i Hin Hi). unfold CBF_GetCount in Hc.
  destruct (count_spec (TxHash tx) (seeds (cbf ec)) (cbf ec) Hok 255) as (k & Ek & _ & _ & Hup); [lia|].
  rewrite Ek in Hc. injection Hc as ->. specialize (Hup i Hi). lia.
Qed.

(** What the peers receive depends on a race.  A node proposes transactions that it has
    counted once (they were injected once).  If a goroutine that sends the block runs before the
    node adds the block to its own chain, the peer at the parent adds exactly the proposed
    block.  If it runs afterwards, the block's own transactions are taken to be known to the peer
    and only their hashes are sent; the peer does not look them up, and adds a block with the
    same header and hash and no transactions. *)
Theorem compact_block_race isInTurn ck d addr ec peer :
  cbf_ok (cbf ec) → 0 < MaxBlockSize_global → txPool ec ≠ [] →
  (∀ tx, tx ∈ taken ec → CBF_GetCount (cbf ec) (TxHash tx) = Ok 1) →
  cbf_ok (cbf peer) → CurrentBlock (xChain peer) = CurrentBlock (xChain ec) →
  ∃ ec' early late peer1 peer2, proposeBlock isInTurn ck ec = Ok ec' ∧
    CurrentBlock (xChain ec') = proposal ck ec ∧
    sendCompactBlockToPeer (proposal ck ec) addr (broadcastBlockWithPCB (proposal ck ec) ec) = Ok [(addr, early)] ∧
    sendCompactBlockToPeer (proposal ck ec) addr ec' = Ok [(addr, late)] ∧
    x_handleMessage d early peer = Ok peer1 ∧ x_handleMessage d late peer = Ok peer2 ∧
    CurrentBlock (xChain peer1) = proposal ck ec ∧
    Hash (CurrentBlock (xChain peer2)) = Hash (proposal ck ec) ∧ Body (CurrentBlock (xChain peer2)) = [].
Proof.
  intros Hok Hmax Hne Honce Hpok Hsame. destruct (propose_ok isInTurn ck ec Hok Hmax Hne) as (ec' & E & Ha).
  set (ec1 := ec <| txPool := _ |> <| sends ::= _ |>) in Ha.
  assert (verifyBlock (proposal ck ec) peer = true) as Hv.
  { unfold verifyBlock. rewrite Hsame. exact (created_fits (ck_block ck) (taken ec) ec). }
  destruct (delivered false (proposal ck ec) addr d (broadcastBlockWithPCB (proposal ck ec) ec) peer)
    as (early & peer1 & S1 & H1' & C1); [intros tx Htx; apply once_unknown; [exact Hok|by apply Honce]|done..|].
  destruct (delivered true (proposal ck ec) addr d ec' peer) as (late & peer2 & S2 & H2' & C2);
    [intros tx Htx; apply (readded_known (proposal ck ec) ec1); [exact Hok|exact Ha|exact Htx|by apply Honce]|done..|].
  exists ec', early, late, peer1, peer2. split; [exact E|]. split; [apply (ad_block _ _ _ Ha)|]. split; [exact S1|].
  split; [exact S2|]. split; [exact H1'|]. split; [exact H2'|]. rewrite C1, C2. done.
Qed.

(** ** When a node proposes *)

(** A tick of a node with a filled pool always succeeds.  The validator in turn proposes
    exactly when the block interval has passed since its own last proposal.  A node out of
    turn never proposes outside [[beta, waitWindow)], and within it proposes as the random number
    decides.  As [NewExCliqueNode] sets [waitWindow] to the block interval, a node out of turn
    proposes only at times at which the one in turn, with the same last proposal time, may not
    yet. *)
Theorem proposal_windows now r ck ec om v :
  cbf_ok (cbf ec) → 0 < MaxBlockSize_global → txPool ec ≠ [] →
  GetInTurnValidator (u64 (Number (Header (CurrentBlock (xChain ec))) + 1)) (orderManager ec) = Ok (om, v) →
  let since := now - lastBlockTime ec in
  ∃ ec', tryProposeBlock now r ck ec = Ok ec' ∧
    (xNodeID ec = v → blockInterval ec ≤ since → CurrentBlock (xChain ec') = proposal ck ec) ∧
    (xNodeID ec = v → since < blockInterval ec → xChain ec' = xChain ec ∧ txPool ec' = txPool ec) ∧
    (xNodeID ec ≠ v → ¬ (beta (delayManager ec) ≤ since < waitWindow (delayManager ec)) →
       xChain ec' = xChain ec ∧ txPool ec' = txPool ec) ∧
    (xNodeID ec ≠ v → ShouldPropose r since (delayManager ec) = true → CurrentBlock (xChain ec') = proposal ck ec).
Proof.
  intros Hok Hmax Hne Ht since. unfold tryProposeBlock. rewrite Ht. cbn [mbind go_bind].
  set (ec1 := ec <| orderManager := om |>).
  destruct (propose_ok (xNodeID ec =? v) ck ec1 Hok Hmax Hne) as (ec2 & E & Ha). apply ad_block in Ha.
  change (proposal ck ec1) with (proposal ck ec) in Ha. change (xNodeID ec1) with (xNodeID ec).
  change (now - lastBlockTime ec1) with since. change (blockInterval ec1) with (blockInterval ec).
  change (delayManager ec1) with (delayManager ec).
  destruct (xNodeID ec =? v) eqn:Ev; zbool.
  - destruct (_ <=? _) eqn:Ei; zbool.
    + exists ec2. split; [exact E|]. by repeat split; intros; try done; lia.
    + exists ec1. split; [done|]. by repeat split; intros; try done; lia.
  - destruct (ShouldPropose _ _ _) eqn:Es.
    + exists ec2. split; [exact E|]. split; [done|]. split; [done|]. split; [|done]. intros _ Hout. destruct Hout.
      unfold ShouldPropose in Es. destruct (_ <? _) eqn:E1 in Es; [done|]. destruct (_ <=? _) eqn:E2 in Es; [done|].
      zbool. lia.
    + exists ec1. by split; [done|].
Qed.

(** A new node's window closes when the turn of the one in turn opens. *)
Lemma new_node_window shardID nodeID pcc table now db s ec :
  NewExCliqueNode shardID nodeID pcc table now db s = Ok ec →
  waitWindow (delayManager ec) = blockInterval ec ∧ cbf_ok (cbf ec) ∧ txPool ec = [] ∧ sends ec = [].
Proof.
  unfold NewExCliqueNode. destruct (NewBlockChain _ _ _) as [bc|]; cbn [mbind go_bind]; [|done]. intros [= <-].
  split; [done|]. split; [by apply new_cbf_ok|done].
Qed.

(** The second stop message crashes the node. *)
Lemma stop_twice ec : pStopClosed ec = false →
  ∃ ec', Stop ec = Ok ec' ∧ stopSignal ec' = true ∧ Stop ec' = Panic "close of closed channel".
Proof. intros E. unfold Stop. cbn. rewrite E. eexists. split; [done|]. done. Qed.
End exclique.

(** ** Two nodes at genesis *)
Module ExCliqueExample.
Import ConcreteLibs ConcreteCore ChainExample.
#[local] Existing Instance default_params.

#[export] Instance CompactBlock_eq_dec : EqDecision CompactBlock.
Proof. solve_decision. Defined.
#[export] Instance CompactBlock_countable : Countable CompactBlock.
Proof.
  refine (inj_countable' (λ c, (CBHeader c, TxHashes c, MissingTxs c, CBFilter c, CBSenderNodeID c, CBShardID c))
    (λ x, let '(a, b, c, d, e, f) := x in mkCompactBlock _ a b c d e f) _).
  by intros [].
Qed.
#[export] Instance cb_codec : Codec CompactBlock := countable_codec CompactBlock.
#[export] Instance cb_codec_laws : CodecLaws CompactBlock := countable_codec_laws CompactBlock.
#[export] Instance InjectTxs_eq_dec : EqDecision InjectTxs.
Proof. solve_decision. Defined.
#[export] Instance InjectTxs_countable : Countable InjectTxs.
Proof. refine (inj_countable' (λ m, (ITxs m, ToShardID m)) (λ x, mkInjectTxs x.1 x.2) _). by intros []. Qed.
#[export] Instance it_codec : Codec InjectTxs := countable_codec InjectTxs.
#[export] Instance it_codec_laws : CodecLaws InjectTxs := countable_codec_laws InjectTxs.

(** A filter with room for the two transactions. *)
Definition filter2 : CountingBloomFilter :=
  match go_fold (λ c tx, CBF_Add (TxHash tx) c) (NewCountingBloomFilter 64 4) (take 2 txs) with
  | Ok c => c
  | Panic _ => NewCountingBloomFilter 64 4
  end.

Definition node (nodeID : Z) (bc : BlockChain) (pool : list Transaction) (c : CountingBloomFilter) : ExCliqueNode :=
  mkExCliqueNode 3 nodeID bc 4 (5000 * Millisecond) 0 (NewDelayManager (50 * Millisecond) (5000 * Millisecond)) pool c ∅
    (NewOrderManager (upto 4)) ∅ false false 0 0 0 0 [].
Definition ck0 : xclock := mkClock 10 1000000 1000000 20.

Lemma filter2_ok : cbf_ok filter2.
Proof. vm_compute. repeat split; try (by apply Forall_true); repeat constructor; discriminate. Qed.

Lemma exclique_never_executes_witness : ∃ bc ec', NewBlockChain cfg trie_NewDatabase (∅ : BoltDB) = Ok bc ∧
  proposeBlock true ck0 (node 0 bc (take 2 txs) filter2) = Ok ec' ∧
  FetchAccounts (xChain ec') [addrA] = Ok [fresh_account].
Proof.
  destruct (genesis_of cfg) as (bc & E & _).
  destruct (exclique_never_executes true ck0 (node 0 bc (take 2 txs) filter2)) as (ec' & Ep & _ & _ & _ & _ & Hf);
    [exact filter2_ok|done|done|].
  exists bc, ec'. split; [exact E|]. split; [exact Ep|]. apply Hf.
Defined.

Lemma compact_block_race_witness : ∃ bc ec' late peer, NewBlockChain cfg trie_NewDatabase (∅ : BoltDB) = Ok bc ∧
  proposeBlock true ck0 (node 0 bc (take 2 txs) filter2) = Ok ec' ∧
  sendCompactBlockToPeer (CurrentBlock (xChain ec')) "ip1" ec' = Ok [("ip1", late)] ∧
  x_handleMessage 0 late (node 1 bc [] (NewCountingBloomFilter 64 4)) = Ok peer ∧ Body (CurrentBlock (xChain peer)) = [].
Proof.
  destruct (genesis_of cfg) as (bc & E & _).
  destruct (compact_block_race true ck0 0 "ip1" (node 0 bc (take 2 txs) filter2) (node 1 bc [] (NewCountingBloomFilter 64 4)))
    as (ec' & early & late & p1 & p2 & Ep & Hb & _ & S2 & _ & M2 & _ & _ & B2).
  - exact filter2_ok.
  - done.
  - done.
  - assert (forallb (λ tx, match CBF_GetCount filter2 (TxHash tx) with Ok n => n =? 1 | Panic _ => false end) (take 2 txs) = true) as Hc
      by (vm_compute; reflexivity).
    intros tx Htx. rewrite forallb_forall in Hc. specialize (Hc tx (proj1 (list_elem_of_In _ _) Htx)).
    cbv beta in Hc. change (cbf (node 0 bc (take 2 txs) filter2)) with filter2. destruct (CBF_GetCount filter2 (TxHash tx)); [|done]. f_equal. by apply Z.eqb_eq.
  - by apply new_cbf_ok.
  - done.
  - exists bc, ec', late, p2. rewrite Hb. auto.
Defined.

Lemma proposal_windows_witness : ∃ bc ec', NewBlockChain cfg trie_NewDatabase (∅ : BoltDB) = Ok bc ∧
  tryProposeBlock 6000000000 (fl_of 0) ck0 (node 1 bc (take 2 txs) filter2) = Ok ec' ∧
  CurrentBlock (xChain ec') = proposal ck0 (node 1 bc (take 2 txs) filter2).
Proof.
  destruct (genesis_of cfg) as (bc & E & _ & _ & _ & _ & Hcb & _).
  destruct (proposal_windows 6000000000 (fl_of 0) ck0 (node 1 bc (take 2 txs) filter2) (NewOrderManager (upto 4)) 1)
    as (ec' & Et & Hin & _).
  - exact filter2_ok.
  - done.
  - done.
  - cbn [xChain node]. rewrite Hcb. vm_compute. reflexivity.
  - exists bc, ec'. split; [exact E|]. split; [exact Et|]. by apply Hin.
Defined.
End ExCliqueExample.
