(* ===== verification/Float64.v ===== *)
(** * Exact arithmetic of [float64]

    The partition algorithms count edges in [float64].  Integers below 2^53 are represented
    exactly, and sums, comparisons and multiples by 1.5 of them are exact as well; the rounding
    of the IEEE operations plays no part as long as the counts stay below that bound. *)
From Stdlib Require Import SpecFloat.
From S2P Require Import Prelude Utils Partition.

(** The literals of the source: [0.1], [0.001], [1.5] and [math.MaxFloat64]. *)
Definition f_tenth : float := fdiv (fl_of 1) (fl_of 10).
Definition f_thousandth : float := fdiv (fl_of 1) (fl_of 1000).
Definition f_three_halves : float := fdiv (fl_of 3) (fl_of 2).
Definition MaxFloat64 : float := S754_finite false (2 ^ 53 - 1) 971.

(** [z * 2^k], for a positive integer of at most 53 bits: the mantissa has 53 bits. *)
Definition mant (z : Z) : Z := z * 2 ^ (52 - Z.log2 z).
Definition dyadic (z k : Z) : float := S754_finite false (Z.to_pos (mant z)) (Z.log2 z - 52 + k).

Lemma log2_range z : 0 < z → 2 ^ Z.log2 z ≤ z < 2 ^ (Z.log2 z + 1).
Proof. intros Hz. pose proof (Z.log2_spec z Hz). rewrite Z.add_1_r. lia. Qed.

Lemma log2_53 z : 0 < z < 2 ^ 53 → 0 ≤ Z.log2 z ≤ 52.
Proof. intros Hz. pose proof (Z.log2_nonneg z). assert (Z.log2 z < 53) by (apply Z.log2_lt_pow2; lia). lia. Qed.

Lemma mant_range z : 0 < z < 2 ^ 53 → 2 ^ 52 ≤ mant z < 2 ^ 53.
Proof.
  intros Hz. pose proof (log2_53 z Hz). pose proof (log2_range z ltac:(lia)) as [Hl Hu]. unfold mant.
  split.
  - replace (2 ^ 52) with (2 ^ Z.log2 z * 2 ^ (52 - Z.log2 z)) by (rewrite <-Z.pow_add_r by lia; f_equal; lia).
    apply Z.mul_le_mono_nonneg_r; [apply Z.pow_nonneg; lia|done].
  - replace (2 ^ 53) with (2 ^ (Z.log2 z + 1) * 2 ^ (52 - Z.log2 z)) by (rewrite <-Z.pow_add_r by lia; f_equal; lia).
    apply Z.mul_lt_mono_pos_r; [apply Z.pow_pos_nonneg; lia|done].
Qed.

(** ** Digits and shifts *)
Lemma digits_log2 p : Z.pos (digits2_pos p) = Z.log2 (Z.pos p) + 1.
Proof.
  induction p as [p IH|p IH|]; cbn [digits2_pos]; rewrite ?Pos2Z.inj_succ, ?IH; [| |done].
  - rewrite (Pos2Z.inj_xI p), Z.log2_succ_double by lia. lia.
  - rewrite (Pos2Z.inj_xO p), Z.log2_double by lia. lia.
Qed.

Lemma shift_pos_mul s p : Z.pos (Pos.iter xO p s) = Z.pos p * 2 ^ Z.pos s.
Proof.
  induction s as [|s IH] using Pos.peano_ind; [cbn; lia|].
  rewrite Pos.iter_succ, Pos2Z.inj_xO, IH, Pos2Z.inj_succ, Z.pow_succ_r by lia. lia.
Qed.

Lemma iter_xI s x : SpecFloat.iter_pos shr_1 (xI s) x = SpecFloat.iter_pos shr_1 s (SpecFloat.iter_pos shr_1 s (shr_1 x)).
Proof. done. Qed.
Lemma iter_xO s x : SpecFloat.iter_pos shr_1 (xO s) x = SpecFloat.iter_pos shr_1 s (SpecFloat.iter_pos shr_1 s x).
Proof. done. Qed.

(** Shifting out zero bits is exact. *)
Lemma shr_exact c s : 0 < c → SpecFloat.iter_pos shr_1 s (shr_record_of_loc (c * 2 ^ Z.pos s) loc_Exact) = shr_record_of_loc c loc_Exact.
Proof.
  intros Hc. assert (∀ m, 0 < m → shr_1 (shr_record_of_loc (m * 2) loc_Exact) = shr_record_of_loc m loc_Exact) as H1.
  { intros m Hm. destruct m as [|p|p]; [lia| |lia]. rewrite Z.mul_comm. reflexivity. }
  revert c Hc. induction s as [s IH|s IH|]; intros c Hc.
  - rewrite (iter_xI s), (Pos2Z.inj_xI s). replace (c * 2 ^ (2 * Z.pos s + 1)) with ((c * 2 ^ Z.pos s * 2 ^ Z.pos s) * 2)
      by (rewrite Z.pow_add_r, <-Z.add_diag, Z.pow_add_r by lia; lia).
    rewrite H1 by (apply Z.mul_pos_pos; [apply Z.mul_pos_pos; [done|]|]; apply Z.pow_pos_nonneg; lia).
    rewrite (IH (c * 2 ^ Z.pos s)) by (apply Z.mul_pos_pos; [done|apply Z.pow_pos_nonneg; lia]). by apply IH.
  - rewrite (iter_xO s), (Pos2Z.inj_xO s). replace (c * 2 ^ (2 * Z.pos s)) with (c * 2 ^ Z.pos s * 2 ^ Z.pos s)
      by (rewrite <-Z.add_diag, Z.pow_add_r by lia; lia).
    rewrite (IH (c * 2 ^ Z.pos s)) by (apply Z.mul_pos_pos; [done|apply Z.pow_pos_nonneg; lia]). by apply IH.
  - by apply H1.
Qed.

Lemma shr_fexp_exact c e s : 2 ^ 52 ≤ c < 2 ^ 53 → -1074 ≤ e → 0 ≤ s →
  shr_fexp 53 1024 (c * 2 ^ s) (e - s) loc_Exact = (shr_record_of_loc c loc_Exact, e).
Proof.
  intros Hc He Hs. unfold shr_fexp. assert (0 < 2 ^ s) by (apply Z.pow_pos_nonneg; lia).
  assert (Zdigits2 (c * 2 ^ s) = 53 + s) as ->.
  { destruct (c * 2 ^ s) as [|p|p] eqn:E; [nia| |nia]. cbn [Zdigits2]. rewrite digits_log2, <-E, Z.log2_mul_pow2 by lia.
    assert (Z.log2 c = 52) by (apply Z.log2_unique; lia). lia. }
  unfold fexp, emin. replace (Z.max _ _ - (e - s)) with s by lia. unfold shr. destruct s as [|s|s]; [| |lia].
  - rewrite Z.mul_1_r. f_equal. lia.
  - rewrite shr_exact by lia. f_equal. lia.
Qed.

Lemma round_exact c e s : 2 ^ 52 ≤ c < 2 ^ 53 → -1074 ≤ e ≤ 971 → 0 ≤ s →
  binary_round_aux 53 1024 false (c * 2 ^ s) (e - s) loc_Exact = S754_finite false (Z.to_pos c) e.
Proof.
  intros Hc He Hs. unfold binary_round_aux. rewrite shr_fexp_exact by lia. cbn [shr_m shr_record_of_loc loc_of_shr_record round_nearest_even].
  pose proof (shr_fexp_exact c e 0 Hc ltac:(lia) ltac:(lia)) as E0. rewrite Z.mul_1_r, Z.sub_0_r in E0. rewrite E0.
  cbn [shr_m shr_record_of_loc]. destruct c as [|p|p]; [lia| |lia]. rewrite (proj2 (Z.leb_le e (1024 - 53))) by lia. done.
Qed.

(** ** Normalised integers *)

(** An integer multiple of a representable number, at a smaller exponent. *)
Lemma normalize_shr c e s : 2 ^ 52 ≤ c < 2 ^ 53 → -1074 ≤ e ≤ 971 → 0 ≤ s →
  binary_normalize 53 1024 (c * 2 ^ s) (e - s) false = S754_finite false (Z.to_pos c) e.
Proof.
  intros Hc He Hs. assert (0 < 2 ^ s) by (apply Z.pow_pos_nonneg; lia). rewrite <-(round_exact c e s) by done.
  destruct (c * 2 ^ s) as [|p|p] eqn:E; [nia| |nia]. cbn [binary_normalize]. unfold binary_round, shl_align.
  assert (Z.pos (digits2_pos p) = 53 + s) as ->.
  { rewrite digits_log2, <-E, Z.log2_mul_pow2 by lia. assert (Z.log2 c = 52) by (apply Z.log2_unique; lia). lia. }
  unfold fexp, emin. replace (Z.max _ _ - (e - s)) with s by lia. destruct s; [done|done|lia].
Qed.

Lemma fl_of_dyadic z : 0 < z < 2 ^ 53 → fl_of z = dyadic z 0.
Proof.
  intros Hz. pose proof (log2_53 z Hz). pose proof (mant_range z Hz) as Hm. unfold fl_of, dyadic.
  destruct z as [|p|p]; [lia| |lia]. cbn [binary_normalize]. unfold binary_round, shl_align.
  rewrite digits_log2. set (L := Z.log2 (Z.pos p)) in *. unfold fexp, emin.
  replace (Z.max _ _ - 0) with (L - 52) by lia.
  assert (∀ q e, Z.pos q = mant (Z.pos p) → -1074 ≤ e ≤ 971 →
    binary_round_aux 53 1024 false (Z.pos q) e loc_Exact = S754_finite false (Z.to_pos (mant (Z.pos p))) e) as Hr.
  { intros q e -> He. pose proof (round_exact (mant (Z.pos p)) e 0 Hm He ltac:(lia)) as R. by rewrite Z.mul_1_r, Z.sub_0_r in R. }
  destruct (L - 52) as [|d|d] eqn:Ed; [|lia|].
  - rewrite Z.add_0_r. apply Hr; [|lia]. unfold mant. fold L. replace (52 - L) with 0 by lia. cbn. lia.
  - replace (Z.max _ _) with (Z.neg d + 0) by lia. apply Hr; [|lia]. rewrite shift_pos_mul. unfold mant. fold L. f_equal. f_equal. lia.
Qed.

Lemma dyadic_double z k : 0 < 2 * z < 2 ^ 53 → dyadic (2 * z) (k - 1) = dyadic z k.
Proof.
  intros Hz. pose proof (log2_53 (2 * z) Hz) as Hl. unfold dyadic, mant. rewrite Z.log2_double in Hl |- * by lia.
  f_equal; [|lia]. f_equal. replace (52 - Z.log2 z) with (1 + (52 - Z.succ (Z.log2 z))) by lia.
  rewrite Z.pow_add_r by lia. lia.
Qed.

(** ** The operations on exact numbers *)
Lemma dyadic_lt a b k : 0 < a < 2 ^ 53 → 0 < b < 2 ^ 53 → SFltb (dyadic a k) (dyadic b k) = (a <? b).
Proof.
  intros Ha Hb. pose proof (mant_range a Ha) as Ma. pose proof (mant_range b Hb) as Mb.
  pose proof (log2_53 a Ha). pose proof (log2_53 b Hb).
  unfold SFltb, SFcompare, dyadic. destruct (Z.compare_spec (Z.log2 a - 52 + k) (Z.log2 b - 52 + k)) as [E|E|E].
  - assert (Z.log2 a = Z.log2 b) as El by lia. unfold mant in *. rewrite <-El in *.
    assert (0 < 2 ^ (52 - Z.log2 a)) by (apply Z.pow_pos_nonneg; lia).
    change (Pos.compare_cont Eq ?x ?y) with (Pos.compare x y). rewrite Pos2Z.inj_compare, !Z2Pos.id by lia.
    destruct (Z.compare_spec (a * 2 ^ (52 - Z.log2 a)) (b * 2 ^ (52 - Z.log2 a))); symmetry;
      (apply Z.ltb_lt || apply Z.ltb_ge); nia.
  - symmetry. apply Z.ltb_lt. destruct (Z.le_gt_cases b a) as [Hba|]; [|done]. pose proof (Z.log2_le_mono b a Hba). lia.
  - symmetry. apply Z.ltb_ge. destruct (Z.le_gt_cases b a) as [|Hba]; [done|]. pose proof (Z.log2_le_mono a b ltac:(lia)). lia.
Qed.

Lemma fl_of_lt a b : 0 ≤ a < 2 ^ 53 → 0 ≤ b < 2 ^ 53 → SFltb (fl_of a) (fl_of b) = (a <? b).
Proof.
  intros Ha Hb. destruct (decide (a = 0)) as [->|Ha0], (decide (b = 0)) as [->|Hb0]; [done| | |].
  - rewrite (fl_of_dyadic b) by lia. cbn. symmetry. apply Z.ltb_lt. lia.
  - rewrite (fl_of_dyadic a) by lia. cbn. symmetry. apply Z.ltb_ge. lia.
  - rewrite !fl_of_dyadic by lia. apply dyadic_lt; lia.
Qed.

(** Aligning the mantissa of an exact number to a smaller exponent. *)
Lemma align_dyadic z k ez : 0 < z < 2 ^ 53 → ez ≤ Z.log2 z - 52 + k →
  Z.pos (fst (shl_align (Z.to_pos (mant z)) (Z.log2 z - 52 + k) ez)) = mant z * 2 ^ (Z.log2 z - 52 + k - ez).
Proof.
  intros Hz He. pose proof (mant_range z Hz). unfold shl_align.
  destruct (ez - (Z.log2 z - 52 + k)) as [|d|d] eqn:E; [|lia|]; cbn [fst].
  - rewrite Z2Pos.id by lia. replace (Z.log2 z - 52 + k - ez) with 0 by lia. lia.
  - rewrite shift_pos_mul, Z2Pos.id by lia. f_equal. f_equal. lia.
Qed.

Lemma dyadic_add a b k : 0 < a → 0 < b → a + b < 2 ^ 53 → -1 ≤ k ≤ 0 →
  fadd (dyadic a k) (dyadic b k) = dyadic (a + b) k.
Proof.
  intros Ha Hb Hab Hk.
  pose proof (log2_53 a ltac:(lia)). pose proof (log2_53 b ltac:(lia)). pose proof (log2_53 (a + b) ltac:(lia)).
  pose proof (Z.log2_le_mono a (a + b) ltac:(lia)). pose proof (Z.log2_le_mono b (a + b) ltac:(lia)).
  unfold fadd, SFadd, dyadic. set (ez := Z.min _ _). cbn [cond_Zopp]. rewrite !align_dyadic by lia.
  assert (∀ z, 0 < z → 0 ≤ Z.log2 z ≤ 52 → ez ≤ Z.log2 z - 52 + k →
    mant z * 2 ^ (Z.log2 z - 52 + k - ez) = z * 2 ^ (k - ez)) as Hm.
  { intros z Hz Hl He. unfold mant. rewrite <-Z.mul_assoc, <-Z.pow_add_r by lia. f_equal. f_equal. lia. }
  rewrite !Hm, <-Z.mul_add_distr_r by lia. rewrite <-(Hm (a + b)) by lia.
  pose proof (normalize_shr (mant (a + b)) (Z.log2 (a + b) - 52 + k) (Z.log2 (a + b) - 52 + k - ez)) as N.
  replace (Z.log2 (a + b) - 52 + k - (Z.log2 (a + b) - 52 + k - ez)) with ez in N by lia.
  apply N; [apply mant_range; lia|lia|lia].
Qed.

Lemma fl_of_add a b : 0 ≤ a → 0 ≤ b → a + b < 2 ^ 53 → fadd (fl_of a) (fl_of b) = fl_of (a + b).
Proof.
  intros Ha Hb Hab. destruct (decide (a = 0)) as [->|Ha0].
  { destruct (decide (b = 0)) as [->|Hb0]; [done|]. rewrite Z.add_0_l, (fl_of_dyadic b) by lia. done. }
  destruct (decide (b = 0)) as [->|Hb0]; [rewrite Z.add_0_r, (fl_of_dyadic a) by lia; done|].
  rewrite (fl_of_dyadic a), (fl_of_dyadic b), (fl_of_dyadic (a + b)) by lia. apply dyadic_add; lia.
Qed.

(** ** Halves: [z / 2] is exact, and so are sums of halves *)
Definition f_half (z : Z) : float := if z =? 0 then S754_zero false else dyadic z (-1).

Lemma fl_of_div2 z : 0 ≤ z < 2 ^ 53 → fdiv (fl_of z) (fl_of 2) = f_half z.
Proof.
  intros Hz. unfold f_half. destruct (Z.eqb_spec z 0) as [->|Hz0]; [done|].
  rewrite (fl_of_dyadic z) by lia. pose proof (mant_range z ltac:(lia)) as Hm. pose proof (log2_53 z ltac:(lia)).
  change (fl_of 2) with (S754_finite false (2 ^ 52) (-51)).
  unfold fdiv, SFdiv. unfold dyadic at 1. rewrite Z.add_0_r. unfold SFdiv_core_binary. rewrite Z2Pos.id by lia.
  assert (Zdigits2 (mant z) = 53) as ->.
  { destruct (mant z) as [|p|p] eqn:E; [lia| |lia]. cbn [Zdigits2]. rewrite digits_log2.
    assert (Z.log2 (Z.pos p) = 52) by (apply Z.log2_unique; lia). lia. }
  change (Zdigits2 (Z.pos (2 ^ 52))) with 53. unfold fexp, emin.
  replace (Z.min _ _) with (Z.log2 z - 54) by lia.
  replace (Z.log2 z - 52 - -51 - (Z.log2 z - 54)) with 53 by lia. rewrite Z.shiftl_mul_pow2 by lia.
  pose proof (Z_div_mod (mant z * 2 ^ 53) (Z.pos (2 ^ 52)) ltac:(lia)) as Hd.
  destruct (Z.div_eucl _ _) as [q r]. destruct Hd as [Hq Hr]. change (Z.pos (2 ^ 52)) with (2 ^ 52) in *.
  assert (q = mant z * 2 ^ 1 ∧ r = 0) as [-> ->] by lia.
  cbn [xorb new_location]. replace (new_location (2 ^ 52) 0) with loc_Exact by reflexivity.
  pose proof (round_exact (mant z) (Z.log2 z - 53) 1 Hm ltac:(lia) ltac:(lia)) as R.
  replace (Z.log2 z - 53 - 1) with (Z.log2 z - 54) in R by lia. rewrite R. unfold dyadic. f_equal. lia.
Qed.

Lemma f_half_even z : 0 ≤ z → 2 * z < 2 ^ 53 → fl_of z = f_half (2 * z).
Proof.
  intros Hz H2. unfold f_half. destruct (Z.eqb_spec (2 * z) 0); [by replace z with 0 by lia|].
  rewrite (fl_of_dyadic z) by lia. symmetry. apply (dyadic_double z 0). lia.
Qed.

Lemma f_half_add a b : 0 ≤ a → 0 ≤ b → a + b < 2 ^ 53 → fadd (f_half a) (f_half b) = f_half (a + b).
Proof.
  intros Ha Hb Hab. unfold f_half. destruct (Z.eqb_spec a 0) as [->|], (Z.eqb_spec b 0) as [->|]; [done| | |].
  - rewrite Z.add_0_l, (proj2 (Z.eqb_neq b 0)) by lia. done.
  - rewrite Z.add_0_r, (proj2 (Z.eqb_neq a 0)) by lia. done.
  - rewrite (proj2 (Z.eqb_neq (a + b) 0)) by lia. apply dyadic_add; lia.
Qed.

(** [x > c * 1.5] for integers. *)
Lemma fl_of_three_halves c m : 0 ≤ c → 3 * c < 2 ^ 53 → 0 ≤ m → 2 * m < 2 ^ 53 →
  SFltb (fmul (fl_of c) f_three_halves) (fl_of m) = (3 * c <? 2 * m).
Proof.
  intros Hc Hc3 Hm Hm2. change f_three_halves with (S754_finite false (3 * 2 ^ 51) (-52)).
  destruct (decide (c = 0)) as [->|Hc0].
  { change (fmul (fl_of 0) _) with (fl_of 0). rewrite fl_of_lt by lia.
    destruct (Z.ltb_spec 0 m), (Z.ltb_spec (3 * 0) (2 * m)); lia. }
  assert (fmul (fl_of c) (S754_finite false (3 * 2 ^ 51) (-52)) = dyadic (3 * c) (-1)) as ->.
  { rewrite (fl_of_dyadic c) by lia. pose proof (mant_range c ltac:(lia)). pose proof (log2_53 c ltac:(lia)).
    pose proof (log2_53 (3 * c) ltac:(lia)). pose proof (Z.log2_le_mono c (3 * c) ltac:(lia)).
    unfold fmul, SFmul, dyadic. cbn [xorb]. rewrite Z.add_0_r, Pos2Z.inj_mul, Z2Pos.id by lia.
    replace (mant c * Z.pos (3 * 2 ^ 51)) with (mant (3 * c) * 2 ^ (Z.log2 (3 * c) - Z.log2 c + 51)).
    2: { unfold mant. change (Z.pos (3 * 2 ^ 51)) with (3 * 2 ^ 51). rewrite <-Z.mul_assoc, <-Z.pow_add_r by lia.
         replace (52 - Z.log2 (3 * c) + (Z.log2 (3 * c) - Z.log2 c + 51)) with ((52 - Z.log2 c) + 51) by lia.
         rewrite Z.pow_add_r by lia. lia. }
    pose proof (round_exact (mant (3 * c)) (Z.log2 (3 * c) - 52 + -1) (Z.log2 (3 * c) - Z.log2 c + 51)) as R.
    replace (Z.log2 (3 * c) - 52 + -1 - (Z.log2 (3 * c) - Z.log2 c + 51)) with (Z.log2 c - 52 + -52) in R by lia.
    apply R; [apply mant_range; lia|lia|lia]. }
  destruct (decide (m = 0)) as [->|Hm0].
  { cbn. symmetry. apply Z.ltb_ge. lia. }
  rewrite (fl_of_dyadic m), <-(dyadic_double m 0), dyadic_lt by lia. done.
Qed.

(** ** The order *)

(** [<] is transitive, and a comparison with NaN is false. *)
Lemma flt_trans x y z : SFltb x y = true → SFltb y z = true → SFltb x z = true.
Proof.
  unfold SFltb, SFcompare. destruct x as [[]|[]| |[] mx ex], y as [[]|[]| |[] my ey], z as [[]|[]| |[] mz ez]; try done;
    repeat change (Pos.compare_cont Eq ?p ?q) with (Pos.compare p q);
    repeat (match goal with |- context [Z.compare ?a ?b] => destruct (Z.compare_spec a b) end; try done; try lia);
    destruct (Pos.compare_spec mx my), (Pos.compare_spec my mz), (Pos.compare_spec mx mz); cbn [CompOpp]; try done; lia.
Qed.

Lemma flt_irrefl x : SFltb x x = false.
Proof.
  unfold SFltb, SFcompare. destruct x as [[]|[]| |[] m e]; try done; rewrite Z.compare_refl;
    change (Pos.compare_cont Eq m m) with (Pos.compare m m); by rewrite Pos.compare_refl.
Qed.
