(* ===== verification/PLouvain.v ===== *)
(** * The Louvain partition ([partition/partition_PLouvain.go])

    Vertices are grouped into communities by moving them to the community of most of their
    neighbours, the communities are distributed greedily over the shards, and single vertices
    then move to the shard of most of their neighbours.  Weights and loads are [float64].  Every
    [range] over a map runs in an unspecified order: [ord] gives the order of each such loop, and
    with it the order that [sort.Slice] leaves between equal elements.  The lock and the
    printing are not modelled. *)
From Stdlib Require Import SpecFloat.
From S2P Require Import Prelude Utils Partition Float64.

(** The loops over maps, with the iteration or round and the vertex they belong to. *)
Inductive map_loop :=
| LInit
| LVertices (iteration : nat)
| LWeights (iteration : nat) (v : Vertex)
| LTargets (iteration : nat) (v : Vertex)
| LBuild
| LLoad (v : Vertex)
| LComms
| MVertices (round : nat)
| MWeights (round : nat) (v : Vertex)
| MShards (round : nat) (v : Vertex)
| MLoad (round : nat) (v : Vertex).

Record PLouvainState := mkPLouvainState {
  plGraph : Graph;
  plMap : gmap Vertex Z;
  plShardNum : Z;
  ShardPerformances : list float;
  ShardWorkloads : list float;
  R_max : float;
}.
#[export] Instance PLouvainState_eta : Eta PLouvainState := λ p,
  mkPLouvainState (plGraph p) (plMap p) (plShardNum p) (ShardPerformances p) (ShardWorkloads p) (R_max p).

Record Community := mkCommunity {
  ComID : Z;
  Vertices : list Vertex;
  Workload : float;
  InternalEdges : Z;
  ExternalEdges : Z;
}.
#[export] Instance Community_eta : Eta Community := λ c,
  mkCommunity (ComID c) (Vertices c) (Workload c) (InternalEdges c) (ExternalEdges c).

(** ** Slices of [float64] *)
Definition get_at {A} (i : Z) (l : list A) : go A :=
  match (if i <? 0 then None else l !! Z.to_nat i) with
  | Some x => Ok x
  | None => Panic "index out of range"
  end.

Definition set_at {A} (i : Z) (x : A) (l : list A) : go (list A) :=
  if in_slice i l then Ok (<[Z.to_nat i := x]> l) else Panic "index out of range".

(** [make([]float64, n)] *)
Definition make_floats (n : Z) : go (list float) :=
  if n <? 0 then Panic "makeslice: len out of range" else Ok (replicate (Z.to_nat n) (fl_of 0)).

Definition NewPLouvainState (graph : Graph) (shardNum : Z) : go PLouvainState :=
  perfs ← make_floats shardNum;
  loads ← make_floats shardNum;
  Ok (mkPLouvainState graph ∅ shardNum ((λ _, fl_of 1) <$> perfs) loads f_thousandth).

Definition SetShardPerformance (shardID : Z) (perf : float) (pl : PLouvainState) : go PLouvainState :=
  if shardID <? plShardNum pl then
    ps ← set_at shardID perf (ShardPerformances pl); Ok (pl <| ShardPerformances := ps |>)
  else Ok pl.

Definition GetProcessingTime (pl : PLouvainState) (shardID : Z) : go float :=
  p ← get_at shardID (ShardPerformances pl);
  if SFeqb p (fl_of 0) then Ok (S754_infinity false)
  else w ← get_at shardID (ShardWorkloads pl); p ← get_at shardID (ShardPerformances pl); Ok (fdiv w p).

(** [m[k]++] *)
Definition incr {K} `{Countable K} (m : gmap K Z) (k : K) : gmap K Z := <[k := default 0 (m !! k) + 1]> m.

(** ** Neighbours *)
Definition getNeighborWeights (g : Graph) (v : Vertex) : gmap Vertex Z := foldl incr ∅ (adj g v).

Definition calculateNodeDegree (g : Graph) (v : Vertex) : Z := len (adj g v).

(** The comparison by which vertices are sorted. *)
Definition higher_degree (g : Graph) (a b : Vertex) : bool := calculateNodeDegree g b <? calculateNodeDegree g a.

(** The weights of the neighbours, summed by the place (community or shard) they are in. *)
Definition weight_at (m : gmap Z float) (c : Z) : float := default (fl_of 0) (m !! c).
Definition add_weight (place : gmap Vertex Z) (m : gmap Z float) (nw : Vertex * Z) : gmap Z float :=
  match place !! nw.1 with
  | Some c => <[c := fadd (weight_at m c) (fl_of nw.2)]> m
  | None => m
  end.

(** [nodeLoad]: 1 and a tenth of every weight. *)
Definition node_load (ws : list (Vertex * Z)) : float :=
  foldl (λ l nw, fadd l (fmul (fl_of nw.2) f_tenth)) (fl_of 1) ws.

Section louvain.
Context (ord : map_loop → ∀ A : Type, list A → list A).

(** [range m] *)
Definition range_map {K V} `{Countable K} (l : map_loop) (m : gmap K V) : list (K * V) :=
  ord l _ (map_to_list m).

(** ** Phase 0: communities *)
Definition best_target (currentComm : Z) (currentCommWeight : float) (acc : float * Z) (t : Z * float) : float * Z :=
  if t.1 =? currentComm then acc
  else
    let gain := fmul (fsub t.2 currentCommWeight) (fl_of 2) in
    if SFltb acc.1 gain then (gain, t.1) else acc.

(** One vertex of an iteration; the state is [nodeToComm] and [improved]. *)
Definition visit0 (g : Graph) (iteration : nat) (st : gmap Vertex Z * bool) (v : Vertex) : gmap Vertex Z * bool :=
  let '(nodeToComm, improved) := st in
  let currentComm := default 0 (nodeToComm !! v) in
  let neighborComms := foldl (add_weight nodeToComm) ∅ (range_map (LWeights iteration v) (getNeighborWeights g v)) in
  let currentCommWeight := weight_at neighborComms currentComm in
  let best := foldl (best_target currentComm currentCommWeight) (fl_of 0, currentComm)
                (range_map (LTargets iteration v) neighborComms) in
  if negb (best.2 =? currentComm) && SFltb f_tenth best.1 then (<[v := best.2]> nodeToComm, true)
  else (nodeToComm, improved).

Definition by_degree (g : Graph) (l : list Vertex) : list Vertex := sort_slice (higher_degree g) l.

(** [fuel] is [maxIterations - iteration]. *)
Fixpoint phase0_loop (g : Graph) (fuel iteration : nat) (nodeToComm : gmap Vertex Z) (improved : bool) : gmap Vertex Z :=
  match fuel with
  | O => nodeToComm
  | S fuel =>
      if improved then
        let vertices := by_degree g (ord (LVertices iteration) _ (elements (VertexSet g))) in
        let r := foldl (visit0 g iteration) (nodeToComm, false) vertices in
        phase0_loop g fuel (S iteration) r.1 r.2
      else nodeToComm
  end.

Definition number_vertices (l : list Vertex) : gmap Vertex Z :=
  (foldl (λ acc v, (<[v := acc.2]> acc.1, acc.2 + 1)) (∅, 0) l).1.

(** An edge to a neighbour is internal or external. *)
Definition count_neighbor (nodeToComm : gmap Vertex Z) (cid : Z) (c : Community) (nw : Vertex * Z) : Community :=
  if default 0 (nodeToComm !! nw.1) =? cid then c <| InternalEdges ::= Z.add 1 |> else c <| ExternalEdges ::= Z.add 1 |>.

Definition build_community (g : Graph) (nodeToComm : gmap Vertex Z) (commMap : gmap Z Community) (vc : Vertex * Z)
    : gmap Z Community :=
  let '(v, cid) := vc in
  let c := default (mkCommunity cid [] (fl_of 0) 0 0) (commMap !! cid) in
  let ws := range_map (LLoad v) (getNeighborWeights g v) in
  let c := foldl (count_neighbor nodeToComm cid) (c <| Vertices ::= λ l, l ++ [v] |>) ws in
  <[cid := c <| Workload ::= λ w, fadd w (node_load ws) |>]> commMap.

(** The share of internal edges, by which communities are sorted. *)
Definition internal_ratio (c : Community) : float :=
  fdiv (fl_of (InternalEdges c)) (fl_of (InternalEdges c + ExternalEdges c + 1)).

Definition phase0_AggressiveLouvain (pl : PLouvainState) : list Community :=
  let g := plGraph pl in
  let nodeToComm := number_vertices (ord LInit _ (elements (VertexSet g))) in
  let nodeToComm := phase0_loop g 30 0 nodeToComm true in
  let commMap := foldl (build_community g nodeToComm) ∅ (range_map LBuild nodeToComm) in
  let communities := List.filter (λ c, 0 <? len (Vertices c)) (range_map LComms commMap).*2 in
  sort_slice (λ a b, SFltb (internal_ratio b) (internal_ratio a)) communities.

(** ** Phase 1: communities to shards *)
Definition estimate (pl : PLouvainState) (c : Community) (s : Z) : go float :=
  w ← get_at s (ShardWorkloads pl);
  p ← get_at s (ShardPerformances pl);
  Ok (fdiv (fadd w (Workload c)) p).

Definition best_time (pl : PLouvainState) (c : Community) (acc : Z * float) (s : Z) : go (Z * float) :=
  estTime ← estimate pl c s;
  Ok (if SFltb estTime acc.2 then (s, estTime) else acc).

Definition shards (n : Z) : list Z := Z.of_nat <$> seq 0 (Z.to_nat n).

Definition place_community (pl : PLouvainState) (c : Community) : go PLouvainState :=
  b ← go_fold (best_time pl c) (-1, MaxFloat64) (shards (plShardNum pl));
  let bestShard := if b.1 =? -1 then 0 else b.1 in
  let pl := pl <| plMap ::= λ m, foldl (λ m v, <[v := bestShard]> m) m (Vertices c) |> in
  w ← get_at bestShard (ShardWorkloads pl);
  ws ← set_at bestShard (fadd w (Workload c)) (ShardWorkloads pl);
  Ok (pl <| ShardWorkloads := ws |>).

Definition phase1_CommunityMovement (communities : list Community) (pl : PLouvainState) : go PLouvainState :=
  ws ← make_floats (plShardNum pl);
  go_fold place_community (pl <| ShardWorkloads := ws |>) communities.

(** ** Phase 2: single vertices *)

(** The largest weight seen, and its shard. *)
Definition best_neighbor (acc : float * Z) (sw : Z * float) : float * Z := if SFltb acc.1 sw.2 then (sw.2, sw.1) else acc.

Definition move_account (round : nat) (v : Vertex) (currentShard bestShard : Z) (pl : PLouvainState) : go PLouvainState :=
  let nodeLoad := node_load (range_map (MLoad round v) (getNeighborWeights (plGraph pl) v)) in
  let pl := pl <| plMap ::= <[v := bestShard]> |> in
  w ← get_at currentShard (ShardWorkloads pl);
  let w := fsub w nodeLoad in
  ws ← set_at currentShard (if SFltb w (fl_of 0) then fl_of 0 else w) (ShardWorkloads pl);
  w ← get_at bestShard ws;
  ws ← set_at bestShard (fadd w nodeLoad) ws;
  Ok (pl <| ShardWorkloads := ws |>).

(** One vertex; the state has [movedCount]. *)
Definition visit2 (round : nat) (st : PLouvainState * Z) (v : Vertex) : go (PLouvainState * Z) :=
  let '(pl, movedCount) := st in
  let currentShard := default 0 (plMap pl !! v) in
  let ws := range_map (MWeights round v) (getNeighborWeights (plGraph pl) v) in
  let neighborShards := foldl (add_weight (plMap pl)) ∅ ws in
  let isBoundary := existsb (λ nw, match plMap pl !! nw.1 with Some s => negb (s =? currentShard) | None => false end) ws in
  if negb isBoundary then Ok (pl, movedCount)
  else
    let best := foldl best_neighbor (fl_of 0, currentShard) (range_map (MShards round v) neighborShards) in
    let currentShardWeight := weight_at neighborShards currentShard in
    if negb (best.2 =? currentShard) && SFltb (fmul currentShardWeight f_three_halves) best.1 then
      pl ← move_account round v currentShard best.2 pl;
      Ok (pl, movedCount + 1)
    else Ok (pl, movedCount).

Definition phase2_AccountMovement (round : nat) (pl : PLouvainState) : go (PLouvainState * Z) :=
  let vertices := by_degree (plGraph pl) (ord (MVertices round) _ (map_to_list (plMap pl)).*1) in
  go_fold (visit2 round) (pl, 0) vertices.

(** ** The statistics of [printStats] *)
Definition count_cross (pl : PLouvainState) (acc : Z * Z) (vs : Vertex * Z) : Z * Z :=
  foldl (λ acc n, (acc.1 + (match plMap pl !! n with Some s => if s =? vs.2 then 0 else 1 | None => 0 end), acc.2 + 1))
    acc (adj (plGraph pl) vs.1).

(** The nodes of each shard, the crossing ends of edges and all ends. *)
Definition printStats (pl : PLouvainState) : go (list Z * (Z * Z)) :=
  zeros ← make_ints (plShardNum pl);
  counts ← go_fold (λ l (vs : Vertex * Z), slice_add 1 vs.2 l) zeros (map_to_list (plMap pl));
  _ ← go_fold (λ _ i, _ ← get_at i (ShardWorkloads pl); _ ← GetProcessingTime pl i; Ok tt) tt (shards (plShardNum pl));
  Ok (counts, foldl (count_cross pl) (0, 0) (map_to_list (plMap pl))).

(** ** The whole algorithm *)

(** The five rounds of phase 2, or fewer when nothing moved. *)
Fixpoint phase2_rounds (fuel round : nat) (pl : PLouvainState) : go PLouvainState :=
  match fuel with
  | O => Ok pl
  | S fuel =>
      r ← phase2_AccountMovement round pl;
      if r.2 =? 0 then Ok r.1 else phase2_rounds fuel (S round) r.1
  end.

Definition RunPLouvain (pl : PLouvainState) : go PLouvainState :=
  let communities := phase0_AggressiveLouvain pl in
  pl ← phase1_CommunityMovement communities pl;
  pl ← phase2_rounds 5 0 pl;
  _ ← printStats pl;
  Ok pl.
End louvain.
