(* ===== verification/PLouvainFacts.v ===== *)
(** * Properties of the Louvain partition

    For every order of the loops over maps: the algorithm returns and places every vertex in an
    existing shard, its communities partition the vertices, and moving single vertices only ever
    removes edges between shards. *)
From Stdlib Require Import SpecFloat.
From S2P Require Import Prelude Utils Partition PartitionFacts Float64 PLouvain.

(** ** Slices *)
Lemma get_at_ok {A} i (l : list A) : 0 ≤ i < len l → ∃ x, get_at i l = Ok x.
Proof.
  intros Hi. unfold get_at. rewrite (proj2 (Z.ltb_ge i 0)) by lia.
  destruct (lookup_lt_is_Some_2 l (Z.to_nat i)) as [x ->]; [unfold len in Hi; lia|by eexists].
Qed.

Lemma set_at_ok {A} i (x : A) l : 0 ≤ i < len l → ∃ l', set_at i x l = Ok l' ∧ len l' = len l.
Proof.
  intros Hi. unfold set_at. rewrite (proj2 (in_slice_true i l) Hi). eexists. split; [done|].
  unfold len. by rewrite length_insert.
Qed.

Lemma make_floats_ok n : 0 ≤ n → ∃ l, make_floats n = Ok l ∧ len l = n.
Proof.
  intros Hn. unfold make_floats. rewrite (proj2 (Z.ltb_ge n 0)) by lia. eexists. split; [done|].
  unfold len. rewrite length_replicate. lia.
Qed.

Lemma elem_shards n s : s ∈ shards n ↔ 0 ≤ s < n.
Proof.
  unfold shards. rewrite list_elem_of_fmap. split.
  - intros (k & -> & Hk%elem_of_seq). lia.
  - intros Hs. exists (Z.to_nat s). split; [lia|]. apply elem_of_seq. lia.
Qed.

(** ** Counting with a map *)
Section tally.
Context {K : Type} `{Countable K} (h : K → Z).

(** The entries of a map of counts, each counted [h] times. *)
Definition wsum (m : gmap K Z) : Z := sumZ (λ nw : K * Z, h nw.1 * nw.2) (map_to_list m).

Lemma wsum_insert m n w : wsum (<[n := w]> m) = wsum (delete n m) + h n * w.
Proof.
  unfold wsum. rewrite <-insert_delete_eq, (sumZ_Permutation _ _ _ (map_to_list_insert _ n w (lookup_delete_eq m n))), sumZ_cons.
  cbn. lia.
Qed.

Lemma wsum_split m n : wsum m = wsum (delete n m) + h n * default 0 (m !! n).
Proof.
  destruct (m !! n) as [w|] eqn:E; cbn.
  - rewrite <-(insert_id m n w E) at 1. apply wsum_insert.
  - rewrite delete_id by done. lia.
Qed.

Lemma tally_sum l : ∀ m, wsum (foldl incr m l) = wsum m + sumZ h l.
Proof.
  induction l as [|n l IH]; intros m; cbn [foldl]; [cbn; lia|]. unfold incr at 2.
  rewrite IH, wsum_insert, (wsum_split m n), sumZ_cons. lia.
Qed.

Lemma tally_from_empty l : wsum (foldl incr ∅ l) = sumZ h l.
Proof. rewrite tally_sum. unfold wsum. by rewrite map_to_list_empty. Qed.
End tally.

(** The keys of a count are the counted items, and every count is positive. *)
Lemma tally_dom {K} `{Countable K} (l : list K) : ∀ m : gmap K Z, dom (foldl incr m l) = dom m ∪ list_to_set l.
Proof.
  induction l as [|x l IH]; intros m; cbn [foldl]; [set_solver|]. rewrite IH. unfold incr. rewrite dom_insert_L. set_solver.
Qed.

Lemma tally_pos {K} `{Countable K} (l : list K) : ∀ m : gmap K Z, map_Forall (λ _ w, 1 ≤ w) m →
  map_Forall (λ _ w, 1 ≤ w) (foldl incr m l).
Proof.
  induction l as [|x l IH]; intros m Hm; cbn [foldl]; [done|]. apply IH, map_Forall_insert_2; [|done].
  destruct (m !! x) as [k|] eqn:E; cbn; [apply Hm in E; lia|lia].
Qed.

Lemma neighbor_weights_elem g v nw : nw ∈ map_to_list (getNeighborWeights g v) → nw.1 ∈ adj g v ∧ 1 ≤ nw.2.
Proof.
  destruct nw as [n w]. rewrite elem_of_map_to_list. intros E. cbn [fst snd]. split.
  - apply elem_of_dom_2 in E. unfold getNeighborWeights in E. rewrite tally_dom in E. set_solver.
  - by apply (tally_pos (adj g v) ∅ (map_Forall_empty _) n).
Qed.

(** Summing weights by place: only places of neighbours occur, and the sums are exact. *)
Lemma add_weights_dom place ws m c : c ∈ dom (foldl (add_weight place) m ws) →
  c ∈ dom m ∨ ∃ nw, nw ∈ ws ∧ place !! nw.1 = Some c.
Proof.
  revert m. induction ws as [|nw ws IH]; intros m; cbn [foldl]; [auto|]. intros [Hc|(nw' & ? & ?)]%IH.
  - unfold add_weight in Hc. destruct (place !! nw.1) as [s|] eqn:E; [|auto]. rewrite dom_insert in Hc.
    apply elem_of_union in Hc as [->%elem_of_singleton|Hc]; [|auto]. right. exists nw. split; [apply list_elem_of_here|done].
  - right. exists nw'. split; [by apply list_elem_of_further|done].
Qed.

Definition at_place (place : gmap Vertex Z) (c : Z) (nw : Vertex * Z) : Z := if decide (place !! nw.1 = Some c) then nw.2 else 0.

Lemma at_place_nonneg place c ws : Forall (λ nw, 0 ≤ nw.2) ws → 0 ≤ sumZ (at_place place c) ws.
Proof. rewrite Forall_forall. intros Hw. apply sumZ_nonneg. intros nw Hn. unfold at_place. case_decide; [by apply Hw|done]. Qed.

Lemma add_weights_exact place ws : Forall (λ nw, 0 ≤ nw.2) ws → ∀ m W,
  (∀ c, weight_at m c = fl_of (W c) ∧ 0 ≤ W c ∧ W c + sumZ (at_place place c) ws < 2 ^ 53) →
  ∀ c, weight_at (foldl (add_weight place) m ws) c = fl_of (W c + sumZ (at_place place c) ws).
Proof.
  induction 1 as [|nw ws Hn Hws IH]; intros m W HW c; cbn [foldl].
  - rewrite Z.add_0_r. apply HW.
  - rewrite (IH _ (λ c, W c + at_place place c nw)); [f_equal; rewrite sumZ_cons; lia|]. clear c. intros c.
    destruct (HW c) as (Hc & H0 & Hb). rewrite sumZ_cons in Hb. pose proof (at_place_nonneg place c ws Hws) as Hp.
    unfold add_weight, weight_at, at_place in *. destruct (place !! nw.1) as [s|] eqn:E.
    + destruct (decide (Some s = Some c)) as [[= ->]|Hne].
      * rewrite lookup_insert_eq. change (default (fl_of 0) (Some ?x)) with x. rewrite Hc, fl_of_add by lia. split; [done|]. lia.
      * rewrite lookup_insert_ne by congruence. rewrite Z.add_0_r. split; [done|]. lia.
    + rewrite decide_False in Hb |- * by done. rewrite Z.add_0_r. split; [done|]. lia.
Qed.

(** ** The rounds of phase 2 *)
Section facts.
Context (ord : map_loop → ∀ A : Type, list A → list A).
Hypothesis ord_perm : ∀ l A (xs : list A), ord l A xs ≡ₚ xs.

(** A state of [n] shards over the graph [g] with the vertices [D] placed. *)
Record louvain_ok (g : Graph) (n : Z) (D : gset Vertex) (pl : PLouvainState) : Prop := {
  lo_graph : plGraph pl = g;
  lo_num : plShardNum pl = n;
  lo_perfs : len (ShardPerformances pl) = n;
  lo_loads : len (ShardWorkloads pl) = n;
  lo_dom : dom (plMap pl) = D;
  lo_valid : map_Forall (λ _ s, 0 ≤ s < n) (plMap pl);
}.

Lemma range_elem {K V} `{Countable K} l (m : gmap K V) kv : kv ∈ range_map ord l m ↔ m !! kv.1 = Some kv.2.
Proof. unfold range_map. rewrite (ord_perm l _ (map_to_list m)). destruct kv. apply elem_of_map_to_list. Qed.

(** The best shard is the current one, or one whose weight is the maximum that is kept. *)
Lemma best_neighbor_in acc l : foldl best_neighbor acc l = acc ∨ (∃ sw, sw ∈ l ∧ foldl best_neighbor acc l = (sw.2, sw.1)).
Proof.
  revert acc. induction l as [|sw l IH]; intros acc; cbn [foldl]; [by left|].
  destruct (IH (best_neighbor acc sw)) as [E|(sw' & Hin & E)].
  - rewrite E. unfold best_neighbor. case_match; [|by left]. right. exists sw. split; [apply list_elem_of_here|done].
  - right. exists sw'. split; [by apply list_elem_of_further|done].
Qed.

(** Moving [v] to the shard [new] removes at least as many edges between shards as there are
    neighbours more in [new] than in the old shard. *)
Lemma moved_cross_le E P v new : P v ≠ new →
  cross_edges E (moved P v new) ≤ cross_edges E P +
    sumZ (λ e : edge, (if decide (e.1 = v) then b2z (P e.2 =? P v) - b2z (P e.2 =? new) else 0)
                    + (if decide (e.2 = v) then b2z (P e.1 =? P v) - b2z (P e.1 =? new) else 0)) E.
Proof.
  intros Hne. unfold cross_edges. rewrite <-sumZ_add. apply sumZ_mono. intros [a b] Hin. unfold moved. cbn [fst snd].
  repeat case_decide; subst; eqb_cases.
Qed.

Lemma move_account_ok g n D pl round v cur new : louvain_ok g n D pl → v ∈ D → 0 ≤ cur < n → 0 ≤ new < n →
  ∃ pl', move_account ord round v cur new pl = Ok pl' ∧ louvain_ok g n D pl' ∧ plMap pl' = <[v := new]> (plMap pl).
Proof.
  intros [Hg Hn Hp Hw Hd Hv] HvD Hc Hnew. unfold move_account.
  change (ShardWorkloads (pl <| plMap ::= <[v := new]> |>)) with (ShardWorkloads pl).
  destruct (get_at_ok cur (ShardWorkloads pl)) as (w & ->); [lia|]. cbn [mbind go_bind].
  match goal with |- context [set_at cur ?x ?l] => destruct (set_at_ok cur x l) as (ws & -> & Hl); [lia|] end.
  cbn [mbind go_bind]. destruct (get_at_ok new ws) as (w' & ->); [lia|]. cbn [mbind go_bind].
  match goal with |- context [set_at new ?x ws] => destruct (set_at_ok new x ws) as (ws' & -> & Hl'); [lia|] end.
  cbn [mbind go_bind]. eexists. split; [done|]. split; [|done]. split; cbn; try done; [congruence| |].
  - rewrite dom_insert_L, Hd. set_solver.
  - by apply map_Forall_insert_2.
Qed.

(** The weight of shard [s] among the neighbours of [v]. *)
Definition neighbors_in (g : Graph) (m : gmap Vertex Z) (v : Vertex) (s : Z) : Z := sumZ (λ u, b2z (shard_at m u =? s)) (adj g v).

Lemma neighbors_in_range g m v s : 0 ≤ neighbors_in g m v s ≤ len (adj g v).
Proof.
  unfold neighbors_in. split; [apply sumZ_nonneg; intros; unfold b2z; case_match; lia|].
  unfold len. induction (adj g v) as [|u l IH]; [done|]. rewrite sumZ_cons. cbn [length].
  rewrite Nat2Z.inj_succ. unfold b2z at 1. case_match; lia.
Qed.

Lemma weights_counted l g m v s : (∀ u, u ∈ adj g v → u ∈ dom m) →
  sumZ (at_place m s) (range_map ord l (getNeighborWeights g v)) = neighbors_in g m v s.
Proof.
  intros Hdom. unfold range_map. rewrite (sumZ_Permutation _ _ _ (ord_perm l _ _)). unfold neighbors_in.
  rewrite <-(tally_from_empty (λ u, b2z (shard_at m u =? s)) (adj g v)). unfold wsum. apply sumZ_ext.
  intros nw Hin. destruct (neighbor_weights_elem g v nw Hin) as [Hn _]. apply Hdom, elem_of_dom in Hn as [t Ht].
  unfold at_place, shard_at. rewrite Ht. cbn. case_decide as Hd; [injection Hd as ->|]; unfold b2z; eqb_cases || idtac.
  destruct (t =? s) eqn:E; zbool; [subst; done|lia].
Qed.

Lemma cross_after_move g E m v new : edges_of g E → shard_at m v ≠ new →
  cross_edges E (shard_at (<[v := new]> m)) ≤
  cross_edges E (shard_at m) + neighbors_in g m v (shard_at m v) - neighbors_in g m v new.
Proof.
  intros HE Hne. rewrite (cross_edges_ext _ _ _ (shard_at_insert m v new)).
  pose proof (moved_cross_le E (shard_at m) v new Hne) as Hle. unfold neighbors_in.
  pose proof (adj_sum (λ u, b2z (shard_at m u =? shard_at m v) - b2z (shard_at m u =? new)) g E v HE) as Ha.
  assert (sumZ (λ u, b2z (shard_at m u =? shard_at m v) - b2z (shard_at m u =? new)) (adj g v) =
    sumZ (λ u, b2z (shard_at m u =? shard_at m v)) (adj g v) - sumZ (λ u, b2z (shard_at m u =? new)) (adj g v)) as Hs.
  { rewrite <-Z.add_opp_r, <-sumZ_opp, <-sumZ_add. apply sumZ_ext. intros. lia. }
  cbv beta in Ha. rewrite <-Ha, Hs in Hle. lia.
Qed.

(** A vertex is left alone, or moves and removes an edge between shards. *)
Lemma visit2_ok g n D pl round v c : louvain_ok g n D pl → v ∈ D →
  ∃ pl' k, visit2 ord round (pl, c) v = Ok (pl', c + k) ∧ 0 ≤ k ≤ 1 ∧ louvain_ok g n D pl' ∧
    ∀ E, edges_of g E → VertexSet g ⊆ D → 3 * len (adj g v) < 2 ^ 53 →
      cross_edges E (shard_at (plMap pl')) + k ≤ cross_edges E (shard_at (plMap pl)).
Proof.
  intros Hok HvD. pose proof Hok as [Hg Hn Hp Hw Hd Hv]. unfold visit2.
  set (ws := range_map ord (MWeights round v) (getNeighborWeights (plGraph pl) v)).
  set (ns := foldl (add_weight (plMap pl)) ∅ ws). set (cur := default 0 (plMap pl !! v)).
  assert (∃ pl' k, Ok (pl, c) = Ok (pl', c + k) ∧ 0 ≤ k ≤ 1 ∧ louvain_ok g n D pl' ∧
    ∀ E, edges_of g E → VertexSet g ⊆ D → 3 * len (adj g v) < 2 ^ 53 →
      cross_edges E (shard_at (plMap pl')) + k ≤ cross_edges E (shard_at (plMap pl))) as Hstay.
  { exists pl, 0. rewrite Z.add_0_r. split; [done|]. split; [lia|]. split; [done|]. intros. lia. }
  case_match; [exact Hstay|]. set (best := foldl best_neighbor _ _).
  destruct (negb (best.2 =? cur) && _) eqn:Eb; [|exact Hstay]. clear Hstay. apply andb_true_iff in Eb as [Ene Egt].
  apply negb_true_iff in Ene. zbool.
  destruct (best_neighbor_in (fl_of 0, cur) (range_map ord (MShards round v) ns)) as [E|(sw & Hsw & E)];
    [unfold best in Ene; by rewrite E in Ene|]. fold best in E. rewrite range_elem in Hsw.
  assert (0 ≤ cur < n) as Hcur.
  { rewrite <-Hd in HvD. apply elem_of_dom in HvD as [s Hs]. unfold cur. rewrite Hs. by apply (Hv v). }
  assert (0 ≤ best.2 < n) as Hbest.
  { rewrite E. cbn. destruct (add_weights_dom (plMap pl) ws ∅ sw.1) as [Hc|(nw & _ & Hc)];
      [apply elem_of_dom; by exists sw.2|set_solver|by apply (Hv nw.1)]. }
  destruct (move_account_ok g n D pl round v cur best.2 Hok HvD Hcur Hbest) as (pl' & Em & Hok' & Em').
  rewrite Em. cbn [mbind go_bind]. exists pl', 1. split; [done|]. split; [lia|]. split; [exact Hok'|].
  intros E' HE HVD Hdeg. rewrite Em'. assert (∀ u, u ∈ adj g v → u ∈ dom (plMap pl)) as Hadj.
  { intros u Hu. rewrite Hd. apply HVD. destruct HE as [HE1 HE2].
    destruct (adj_elem g E' v u (conj HE1 HE2) Hu) as [Hin|Hin]; rewrite Forall_forall in HE2; apply HE2 in Hin; tauto. }
  assert (shard_at (plMap pl) v = cur) as Ecur by done.
  pose proof (cross_after_move g E' (plMap pl) v best.2 HE ltac:(rewrite Ecur; done)) as Hmove. rewrite Ecur in Hmove.
  assert (∀ s, weight_at ns s = fl_of (neighbors_in g (plMap pl) v s)) as Hwt.
  { intros s. rewrite <-(weights_counted (MWeights round v) g (plMap pl) v s Hadj), <-(Z.add_0_l (sumZ _ _)), <-Hg.
    apply (add_weights_exact (plMap pl) ws) with (W := λ _, 0).
    - apply Forall_forall. intros nw Hin. unfold ws, range_map in Hin. rewrite (ord_perm _ _ _) in Hin.
      apply neighbor_weights_elem in Hin. lia.
    - intros t. split; [unfold weight_at; by rewrite lookup_empty|]. split; [done|]. rewrite Z.add_0_l. unfold ws. rewrite Hg.
      rewrite weights_counted by done. pose proof (neighbors_in_range g (plMap pl) v t). lia. }
  assert (best.1 = weight_at ns best.2) as Eb1 by (unfold weight_at; rewrite E; cbn; by rewrite Hsw).
  rewrite Eb1, !Hwt in Egt. pose proof (neighbors_in_range g (plMap pl) v cur). pose proof (neighbors_in_range g (plMap pl) v best.2).
  rewrite fl_of_three_halves in Egt by lia. zbool. lia.
Qed.

(** What a part of phase 2 does that moves [k] accounts. *)
Definition improves (g : Graph) (D : gset Vertex) (k : Z) (pl pl' : PLouvainState) : Prop :=
  ∀ E, edges_of g E → VertexSet g ⊆ D → (∀ v, 3 * len (adj g v) < 2 ^ 53) →
    cross_edges E (shard_at (plMap pl')) + k ≤ cross_edges E (shard_at (plMap pl)).

Lemma visits2_ok g n D round l : (∀ v, v ∈ l → v ∈ D) → ∀ pl c, louvain_ok g n D pl →
  ∃ pl' k, go_fold (visit2 ord round) (pl, c) l = Ok (pl', c + k) ∧ 0 ≤ k ∧ louvain_ok g n D pl' ∧ improves g D k pl pl'.
Proof.
  induction l as [|v l IH]; intros Hl pl c Hok; cbn [go_fold].
  - exists pl, 0. rewrite Z.add_0_r. split; [done|]. split; [done|]. split; [done|]. intros E _ _ _. lia.
  - destruct (visit2_ok g n D pl round v c Hok) as (pl1 & k1 & -> & Hk1 & Hok1 & Hc1); [apply Hl, list_elem_of_here|].
    cbn [mbind go_bind]. destruct (IH ltac:(intros; apply Hl; by apply list_elem_of_further) pl1 (c + k1) Hok1)
      as (pl2 & k2 & -> & Hk2 & Hok2 & Hc2).
    exists pl2, (k1 + k2). split; [f_equal; f_equal; lia|]. split; [lia|]. split; [done|]. intros E HE HV Hd.
    specialize (Hc1 E HE HV (Hd v)). specialize (Hc2 E HE HV Hd). lia.
Qed.

Lemma phase2_ok g n D round pl : louvain_ok g n D pl →
  ∃ pl' k, phase2_AccountMovement ord round pl = Ok (pl', k) ∧ 0 ≤ k ∧ louvain_ok g n D pl' ∧ improves g D k pl pl'.
Proof.
  intros Hok. unfold phase2_AccountMovement. apply (visits2_ok g n D round _) with (c := 0); [|done].
  intros v Hv. unfold by_degree in Hv. rewrite sort_slice_perm, (ord_perm _ _ _) in Hv.
  apply list_elem_of_fmap in Hv as ([u s] & -> & Hu). apply elem_of_map_to_list in Hu.
  rewrite <-(lo_dom _ _ _ _ Hok). apply elem_of_dom. by exists s.
Qed.

Lemma rounds2_ok g n D fuel : ∀ round pl, louvain_ok g n D pl →
  ∃ pl' k, phase2_rounds ord fuel round pl = Ok pl' ∧ 0 ≤ k ∧ louvain_ok g n D pl' ∧ improves g D k pl pl'.
Proof.
  induction fuel as [|fuel IH]; intros round pl Hok; cbn [phase2_rounds].
  - exists pl, 0. split; [done|]. split; [done|]. split; [done|]. intros E _ _ _. lia.
  - destruct (phase2_ok g n D round pl Hok) as (pl1 & k1 & -> & Hk1 & Hok1 & Hc1). cbn [mbind go_bind fst snd].
    case_match; [by exists pl1, k1|]. destruct (IH (S round) pl1 Hok1) as (pl2 & k2 & -> & Hk2 & Hok2 & Hc2).
    exists pl2, (k1 + k2). split; [done|]. split; [lia|]. split; [done|]. intros E HE HV Hd.
    specialize (Hc1 E HE HV Hd). specialize (Hc2 E HE HV Hd). lia.
Qed.

(** ** Phase 1 *)

(** The loop over the shards keeps the earliest estimate. *)
Lemma best_time_spec g n D pl c l : louvain_ok g n D pl → (∀ s, s ∈ l → 0 ≤ s < n) → ∀ acc,
  ∃ b t, go_fold (best_time pl c) acc l = Ok (b, t) ∧ (b = acc.1 ∧ t = acc.2 ∨ b ∈ l ∧ estimate pl c b = Ok t) ∧
    (∀ x, SFltb x t = true → SFltb x acc.2 = true) ∧
    ∀ s e, s ∈ l → estimate pl c s = Ok e → SFltb e t = false.
Proof.
  intros [Hg Hn Hp Hw _ _]. induction l as [|s l IH]; intros Hl acc; cbn [go_fold].
  - exists acc.1, acc.2. split; [by destruct acc|]. split; [by left|]. split; [done|]. by intros s e ?%elem_of_nil.
  - pose proof (Hl s (list_elem_of_here s l)) as Hs. assert (∃ e, estimate pl c s = Ok e) as [e Ee].
    { unfold estimate. destruct (get_at_ok s (ShardWorkloads pl)) as (w & ->); [lia|].
      destruct (get_at_ok s (ShardPerformances pl)) as (p & ->); [lia|]. by eexists. }
    assert (best_time pl c acc s = Ok (if SFltb e acc.2 then (s, e) else acc)) as -> by (unfold best_time; by rewrite Ee).
    cbn [mbind go_bind]. set (acc1 := if SFltb e acc.2 then (s, e) else acc).
    destruct (IH ltac:(intros; apply Hl; by apply list_elem_of_further) acc1) as (b & t & -> & Hb & Hlow & Hmin).
    exists b, t. split; [done|].
    assert (∀ x, SFltb x acc1.2 = true → SFltb x acc.2 = true) as H1.
    { intros x. unfold acc1. destruct (SFltb e acc.2) eqn:E1; [|done]. cbn. intros Hx. by apply (flt_trans x e). }
    split; [|split].
    + destruct Hb as [[-> ->]|[Hin He]]; [|right; split; [by apply list_elem_of_further|done]].
      unfold acc1. destruct (SFltb e acc.2); [|by left]. right. split; [apply list_elem_of_here|done].
    + intros x Hx. by apply H1, Hlow.
    + intros s' e' [->|Hin]%elem_of_cons He'; [|by apply (Hmin s')]. rewrite Ee in He'. injection He' as <-.
      destruct (SFltb e t) eqn:Et; [|done]. apply Hlow in Et. unfold acc1 in Et. destruct (SFltb e acc.2) eqn:E1; [|congruence].
      cbn in Et. pose proof (flt_irrefl e). congruence.
Qed.

Lemma inserts_lookup (vs : list Vertex) (s : Z) (m : gmap Vertex Z) v :
  foldl (λ m v, <[v := s]> m) m vs !! v = if decide (v ∈ vs) then Some s else m !! v.
Proof.
  revert m. induction vs as [|u vs IH]; intros m; cbn [foldl]; [by rewrite decide_False by apply not_elem_of_nil|].
  rewrite IH. destruct (decide (v = u)) as [->|Hne].
  - rewrite lookup_insert_eq, (decide_True (P := u ∈ u :: vs)) by apply list_elem_of_here. by case_decide.
  - rewrite lookup_insert_ne by done. destruct (decide (v ∈ vs)).
    + rewrite decide_True; [done|by apply list_elem_of_further].
    + rewrite decide_False; [done|]. by intros [->|?]%elem_of_cons.
Qed.

(** A community goes to one shard, for which no other has an earlier estimate. *)
Lemma place_ok g n D pl c : louvain_ok g n D pl → 0 < n →
  ∃ pl' s, place_community pl c = Ok pl' ∧ 0 ≤ s < n ∧ louvain_ok g n (D ∪ list_to_set (Vertices c)) pl' ∧
    (∀ v, plMap pl' !! v = if decide (v ∈ Vertices c) then Some s else plMap pl !! v) ∧
    ((∃ s' e', 0 ≤ s' < n ∧ estimate pl c s' = Ok e' ∧ SFltb e' MaxFloat64 = true) →
       ∃ e, estimate pl c s = Ok e ∧ ∀ s' e', 0 ≤ s' < n → estimate pl c s' = Ok e' → SFltb e' e = false).
Proof.
  intros Hok Hn. pose proof Hok as [Hg En Hp Hw Hd Hv]. unfold place_community.
  destruct (best_time_spec g n D pl c (shards (plShardNum pl)) Hok) with (acc := (-1, MaxFloat64))
    as (b & t & -> & Hb & _ & Hmin); [intros s; rewrite elem_shards; lia|]. cbn [mbind go_bind fst].
  set (s := if b =? -1 then 0 else b).
  assert (0 ≤ s < n ∧ (b = -1 ∧ t = MaxFloat64 ∨ b = s ∧ estimate pl c s = Ok t)) as [Hs Hst].
  { unfold s. destruct Hb as [[-> ->]|[Hin He]]; cbn in *; [split; [lia|by left]|]. apply elem_shards in Hin.
    rewrite (proj2 (Z.eqb_neq b (-1))) by lia. split; [lia|by right]. }
  change (ShardWorkloads (pl <| plMap ::= _ |>)) with (ShardWorkloads pl).
  destruct (get_at_ok s (ShardWorkloads pl)) as (w & ->); [lia|]. cbn [mbind go_bind].
  match goal with |- context [set_at s ?x ?l] => destruct (set_at_ok s x l) as (ws & -> & Hl); [lia|] end. cbn [mbind go_bind].
  eexists _, s. split; [done|]. split; [done|].
  assert (∀ v, foldl (λ m v, <[v := s]> m) (plMap pl) (Vertices c) !! v = if decide (v ∈ Vertices c) then Some s else plMap pl !! v)
    as Hm by (intros v; apply inserts_lookup).
  split; [|split; [exact Hm|]].
  - split; cbn; try done; [congruence| |].
    + apply set_eq. intros v. rewrite elem_of_dom, Hm, elem_of_union, elem_of_list_to_set, <-Hd, elem_of_dom.
      case_decide; [|tauto]. split; [by right|by eexists].
    + intros v k Hvk. rewrite Hm in Hvk. case_decide; [by injection Hvk as <-|by apply (Hv v)].
  - intros (s' & e' & Hs' & He' & Hlt). destruct Hst as [[_ ->]|[_ Het]].
    + rewrite (Hmin s' e') in Hlt; [done|apply elem_shards; lia|done].
    + exists t. split; [done|]. intros s2 e2 Hs2 He2. apply (Hmin s2); [apply elem_shards; lia|done].
Qed.

Lemma places_ok g n cs : 0 < n → ∀ D pl, louvain_ok g n D pl → NoDup (concat (Vertices <$> cs)) →
  ∃ pl', go_fold place_community pl cs = Ok pl' ∧ louvain_ok g n (D ∪ list_to_set (concat (Vertices <$> cs))) pl' ∧
    (∀ v, v ∉ concat (Vertices <$> cs) → plMap pl' !! v = plMap pl !! v) ∧
    ∀ c, c ∈ cs → ∃ s, 0 ≤ s < n ∧ ∀ v, v ∈ Vertices c → plMap pl' !! v = Some s.
Proof.
  intros Hn. induction cs as [|c cs IH]; intros D pl Hok Hnd; cbn [go_fold fmap list_fmap concat] in *.
  - exists pl. split; [done|]. split; [by rewrite list_to_set_nil, union_empty_r_L|]. split; [done|]. by intros c ?%elem_of_nil.
  - apply NoDup_app in Hnd as (Hc & Hdis & Hcs).
    destruct (place_ok g n D pl c Hok Hn) as (pl1 & s & -> & Hs & Hok1 & Hm1 & _). cbn [mbind go_bind].
    destruct (IH _ _ Hok1 Hcs) as (pl2 & -> & Hok2 & Hm2 & Hin2). exists pl2. split; [done|].
    split; [by rewrite list_to_set_app_L, union_assoc_L|]. split.
    + intros v Hv. rewrite not_elem_of_app in Hv. rewrite Hm2, Hm1, decide_False by tauto. done.
    + intros c' [->|Hc']%elem_of_cons; [|by apply Hin2]. exists s. split; [done|]. intros v Hv.
      rewrite Hm2, Hm1, decide_True by (done || by apply Hdis). done.
Qed.

(** ** Phase 0 *)
Lemma number_dom l : dom (number_vertices l) = list_to_set l.
Proof.
  unfold number_vertices. enough (∀ (m : gmap Vertex Z) k, dom (foldl (λ acc v, (<[v := acc.2]> acc.1, acc.2 + 1)) (m, k) l).1
    = dom m ∪ (list_to_set l : gset Vertex)) as Hl by (rewrite Hl, dom_empty_L; set_solver).
  induction l as [|v l IH]; intros m k; cbn [foldl fst snd]; [set_solver|]. rewrite IH, dom_insert_L. set_solver.
Qed.

Lemma visits0_dom g it l : ∀ st : gmap Vertex Z * bool, (∀ v, v ∈ l → v ∈ dom st.1) →
  dom (foldl (visit0 ord g it) st l).1 = dom st.1.
Proof.
  induction l as [|v l IH]; intros [m b] Hl; cbn [foldl]; [done|].
  assert (dom (visit0 ord g it (m, b) v).1 = dom m) as Hd.
  { unfold visit0. case_match; [|done]. cbn [fst]. rewrite dom_insert_L.
    pose proof (Hl v (list_elem_of_here v l)). cbn [fst] in *. set_solver. }
  rewrite IH; [by rewrite Hd|]. intros u Hu. rewrite Hd. apply Hl. by apply list_elem_of_further.
Qed.

Lemma phase0_loop_dom g fuel : ∀ it m b, VertexSet g ⊆ dom m → dom (phase0_loop ord g fuel it m b) = dom m.
Proof.
  induction fuel as [|fuel IH]; intros it m b Hm; cbn [phase0_loop]; [done|]. destruct b; [|done].
  assert (∀ v, v ∈ by_degree g (ord (LVertices it) _ (elements (VertexSet g))) → v ∈ dom m) as Hl.
  { intros v. unfold by_degree. rewrite sort_slice_perm, (ord_perm _ _ _), elem_of_elements. apply Hm. }
  pose proof (visits0_dom g it _ (m, false) Hl) as Hd. cbn [fst] in Hd. rewrite IH; [done|]. by rewrite Hd.
Qed.

(** The members of all communities. *)
Definition members (m : gmap Z Community) : list Vertex :=
  concat ((λ kc : Z * Community, Vertices kc.2) <$> map_to_list m).

Lemma members_insert m k c : members (<[k := c]> m) ≡ₚ Vertices c ++ members (delete k m).
Proof.
  unfold members. rewrite <-insert_delete_eq. rewrite map_to_list_insert by apply lookup_delete_eq. done.
Qed.

Lemma members_split m k : members m ≡ₚ default [] (Vertices <$> m !! k) ++ members (delete k m).
Proof.
  destruct (m !! k) as [c|] eqn:E; cbn.
  - rewrite <-(insert_id m k c E) at 1. apply members_insert.
  - by rewrite delete_id.
Qed.

Lemma build_members g nc m vc : members (build_community ord g nc m vc) ≡ₚ vc.1 :: members m.
Proof.
  destruct vc as [v cid]. unfold build_community. rewrite members_insert, (members_split m cid). cbn [fst].
  assert (∀ ws c, Vertices (foldl (count_neighbor nc cid) c ws) = Vertices c) as Hc.
  { induction ws as [|w ws IH]; intros c; cbn [foldl]; [done|]. rewrite IH. unfold count_neighbor. by case_match. }
  match goal with |- Vertices (?c <| Workload ::= _ |>) ++ _ ≡ₚ _ => change (Vertices (c <| Workload ::= _ |>)) with (Vertices c) end.
  rewrite Hc. destruct (m !! cid) as [c|]; cbn; solve_Permutation.
Qed.

Lemma builds_members g nc l : ∀ m, members (foldl (build_community ord g nc) m l) ≡ₚ reverse l.*1 ++ members m.
Proof.
  induction l as [|vc l IH]; intros m; cbn [foldl]; [done|]. rewrite IH, build_members, fmap_cons, reverse_cons, <-app_assoc. done.
Qed.

Lemma concat_filter cs : concat (Vertices <$> List.filter (λ c, 0 <? len (Vertices c)) cs) = concat (Vertices <$> cs).
Proof.
  induction cs as [|c cs IH]; cbn [List.filter fmap list_fmap concat]; [done|]. destruct (0 <? len (Vertices c)) eqn:E.
  - cbn [fmap list_fmap concat]. by rewrite IH.
  - zbool. rewrite IH. unfold len in E. by destruct (Vertices c).
Qed.

Lemma communities_perm pl : concat (Vertices <$> phase0_AggressiveLouvain ord pl) ≡ₚ elements (VertexSet (plGraph pl)).
Proof.
  unfold phase0_AggressiveLouvain. set (nc := phase0_loop _ _ _ _ _ _). assert (dom nc = VertexSet (plGraph pl)) as Hnc.
  { assert (dom (number_vertices (ord LInit _ (elements (VertexSet (plGraph pl))))) = VertexSet (plGraph pl)) as Hd
      by (rewrite number_dom, (ord_perm _ _ _); apply list_to_set_elements_L).
    unfold nc. rewrite phase0_loop_dom by (by rewrite Hd). exact Hd. }
  clearbody nc. rewrite <-Hnc, sort_slice_perm, concat_filter.
  set (cm := foldl _ _ _). assert ((range_map ord LComms cm).*2 ≡ₚ (map_to_list cm).*2) as ->
    by (unfold range_map; by rewrite (ord_perm _ _ _)).
  rewrite <-list_fmap_compose. change (concat _) with (members cm).
  unfold cm. rewrite builds_members. unfold members at 1. rewrite map_to_list_empty. cbn [fmap list_fmap concat].
  rewrite app_nil_r, reverse_Permutation. unfold range_map. rewrite (ord_perm _ _ _).
  apply NoDup_Permutation; [apply NoDup_fst_map_to_list|apply NoDup_elements|]. intros v.
  rewrite elem_of_elements, list_elem_of_fmap, elem_of_dom. split.
  - intros ([u k] & -> & Hu). apply elem_of_map_to_list in Hu. exists k. exact Hu.
  - intros [k Hk]. exists (v, k). split; [done|]. by apply elem_of_map_to_list.
Qed.

Lemma phase1_ok g n D pl : louvain_ok g n D pl → 0 < n →
  ∃ pl', phase1_CommunityMovement (phase0_AggressiveLouvain ord pl) pl = Ok pl' ∧ louvain_ok g n (D ∪ VertexSet g) pl' ∧
    ∀ c, c ∈ phase0_AggressiveLouvain ord pl → ∃ s, 0 ≤ s < n ∧ ∀ v, v ∈ Vertices c → plMap pl' !! v = Some s.
Proof.
  intros [Hg Hn Hp Hw Hd Hv] H0. unfold phase1_CommunityMovement.
  destruct (make_floats_ok (plShardNum pl)) as (ws & -> & Hl); [lia|]. cbn [mbind go_bind].
  pose proof (communities_perm pl) as Hperm.
  destruct (places_ok g n (phase0_AggressiveLouvain ord pl) H0 D (pl <| ShardWorkloads := ws |>)) as (pl' & E & Hok & _ & Hc).
  - split; cbn; try done; congruence.
  - rewrite Hperm. apply NoDup_elements.
  - exists pl'. split; [exact E|]. split; [|exact Hc]. rewrite Hperm, list_to_set_elements_L, Hg in Hok. exact Hok.
Qed.

Lemma stats_ok_louvain g n D pl : louvain_ok g n D pl → 0 ≤ n → ∃ st, printStats pl = Ok st.
Proof.
  intros [Hg Hn Hp Hw Hd Hv] H0. unfold printStats. destruct (make_ints_ok (plShardNum pl)) as [-> Hz]; [lia|].
  cbn [mbind go_bind]. assert (∀ l z, len z = n → (∀ vs, vs ∈ l → 0 ≤ vs.2 < n) →
    ∃ r, go_fold (λ l (vs : Vertex * Z), slice_add 1 vs.2 l) z l = Ok r) as Hc.
  { induction l as [|vs l IH]; intros z Hlz Hin; cbn [go_fold]; [by eexists|].
    destruct (slice_add_ok 1 vs.2 z) as (z' & -> & Hz' & _); [rewrite Hlz; apply Hin, list_elem_of_here|].
    cbn [mbind go_bind]. apply IH; [congruence|]. intros; apply Hin. by apply list_elem_of_further. }
  destruct (Hc (map_to_list (plMap pl)) (replicate (Z.to_nat (plShardNum pl)) 0)) as (r & ->); [congruence| |].
  { intros [v s] Hvs%elem_of_map_to_list. by apply (Hv v). }
  cbn [mbind go_bind]. assert (∀ l, (∀ i, i ∈ l → 0 ≤ i < n) →
    go_fold (λ _ i, _ ← get_at i (ShardWorkloads pl); _ ← GetProcessingTime pl i; Ok tt) tt l = Ok tt) as Hs.
  { induction l as [|i l IH]; intros Hin; cbn [go_fold]; [done|]. pose proof (Hin i (list_elem_of_here i l)) as Hi.
    destruct (get_at_ok i (ShardWorkloads pl)) as (w & Ew); [lia|]. destruct (get_at_ok i (ShardPerformances pl)) as (q & Eq); [lia|].
    assert (∃ t, GetProcessingTime pl i = Ok t) as [t Et].
    { unfold GetProcessingTime. rewrite Ew, Eq. cbn [mbind go_bind]. case_match; by eexists. }
    rewrite Ew, Et. cbn [mbind go_bind]. apply IH. intros; apply Hin. by apply list_elem_of_further. }
  rewrite Hs by (intros i; rewrite elem_shards; lia). by eexists.
Qed.

(** C25: the Louvain partition is total and complete.  For every order in which Go visits the
    maps, every performance values and every graph, [RunPLouvain] returns, without an index out of
    range, within its bounds of 30 iterations and 5 rounds; the vertices placed are those placed
    before and all of the graph, each in one of the [n] shards. *)
Theorem louvain_places g n D pl : louvain_ok g n D pl → 0 < n →
  ∃ pl', RunPLouvain ord pl = Ok pl' ∧ plGraph pl' = g ∧ dom (plMap pl') = D ∪ VertexSet g ∧
    (∀ v s, plMap pl' !! v = Some s → 0 ≤ s < n) ∧ len (ShardWorkloads pl') = n.
Proof.
  intros Hok Hn. unfold RunPLouvain. destruct (phase1_ok g n D pl Hok Hn) as (pl1 & -> & Hok1 & _). cbn [mbind go_bind].
  destruct (rounds2_ok g n _ 5 0 pl1 Hok1) as (pl2 & k & -> & _ & Hok2 & _). cbn [mbind go_bind].
  destruct (stats_ok_louvain g n _ pl2 Hok2 ltac:(lia)) as (st & ->). cbn [mbind go_bind].
  exists pl2. split; [done|]. split; [apply (lo_graph _ _ _ _ Hok2)|]. split; [apply (lo_dom _ _ _ _ Hok2)|].
  split; [|apply (lo_loads _ _ _ _ Hok2)]. intros v s Hv. by apply (lo_valid _ _ _ _ Hok2 v).
Qed.

(** The communities partition the vertices of the graph: every vertex is a member of
    exactly one, and phase 1 gives all members of a community the same shard. *)
Theorem communities_partition g n D pl : louvain_ok g n D pl → 0 < n →
  concat (Vertices <$> phase0_AggressiveLouvain ord pl) ≡ₚ elements (VertexSet g) ∧
  ∃ pl', phase1_CommunityMovement (phase0_AggressiveLouvain ord pl) pl = Ok pl' ∧
    ∀ c, c ∈ phase0_AggressiveLouvain ord pl → ∃ s, 0 ≤ s < n ∧ ∀ v, v ∈ Vertices c → plMap pl' !! v = Some s.
Proof.
  intros Hok Hn. split; [rewrite communities_perm; by rewrite (lo_graph _ _ _ _ Hok)|].
  destruct (phase1_ok g n D pl Hok Hn) as (pl' & E & _ & Hc). by exists pl'.
Qed.

(** Moving single accounts only improves the partition.  In a graph that holds the edges
    [E] (in memory: each degree below 2^53 / 3, so that the float64 weights are exact), a
    round of phase 2 that reports [k] moved accounts leaves at least [k] edges fewer between
    shards than before, with self-loops and repeated edges and in every visiting order. *)
Theorem account_movement_improves g n D E round pl :
  louvain_ok g n D pl → VertexSet g ⊆ D → edges_of g E → (∀ v, 3 * len (adj g v) < 2 ^ 53) →
  ∃ pl' k, phase2_AccountMovement ord round pl = Ok (pl', k) ∧ 0 ≤ k ∧
    cross_edges E (shard_at (plMap pl')) + k ≤ cross_edges E (shard_at (plMap pl)).
Proof.
  intros Hok HD HE Hdeg. destruct (phase2_ok g n D round pl Hok) as (pl' & k & Er & Hk & _ & Hc).
  exists pl', k. split; [exact Er|]. split; [exact Hk|]. by apply Hc.
Qed.
End facts.

(** ** A graph of two pairs *)
Module LouvainExample.
Definition va := mkVertex "a".
Definition vb := mkVertex "b".
Definition vc := mkVertex "c".
Definition vd := mkVertex "d".
Definition edges : list edge := [(va, vb); (va, vb); (vc, vd); (vc, vd); (vb, vc)].
Definition graph : Graph := foldl (λ g e, Graph_AddEdge e.1 e.2 g) (mkGraph ∅ ∅) edges.
(** Every loop over a map in the order of the model's maps. *)
Definition plain (l : map_loop) (A : Type) (xs : list A) : list A := xs.
(** One of each pair is in the wrong shard. *)
Definition placing : list (Vertex * Z) := [(va, 0); (vb, 1); (vc, 1); (vd, 0)].
Definition mixed : PLouvainState :=
  mkPLouvainState graph (list_to_map placing) 2 [fl_of 1; fl_of 1] [fl_of 0; fl_of 0] f_thousandth.

Lemma mixed_ok : louvain_ok graph 2 (dom (plMap mixed)) mixed.
Proof.
  split; try done. intros v s Hin. apply (elem_of_list_to_map_2 placing) in Hin. unfold placing in Hin. repeat (apply elem_of_cons in Hin as [[= -> ->]|Hin]; [lia|]). by apply elem_of_nil in Hin.
Qed.

Lemma graph_edges : edges_of graph edges.
Proof.
  change edges with ([] ++ [(va, vb)] ++ [(va, vb)] ++ [(vc, vd)] ++ [(vc, vd)] ++ [(vb, vc)]). rewrite !app_assoc.
  do 5 apply add_edge_edges. split; [done|by apply Forall_nil].
Qed.

Lemma small_degrees v : 3 * len (adj graph v) < 2 ^ 53.
Proof.
  assert (forallb (λ kl : Vertex * list Vertex, (3 * len kl.2 <? 2 ^ 53)) (map_to_list (EdgeSet graph)) = true) as Hall by (vm_compute; reflexivity).
  unfold adj. destruct (EdgeSet graph !! v) as [l|] eqn:E; [|done]. cbn [default].
  rewrite forallb_forall in Hall. apply Z.ltb_lt, (Hall (v, l)), list_elem_of_In, elem_of_map_to_list, E.
Qed.

Lemma placed_all : VertexSet graph ⊆ dom (plMap mixed).
Proof. apply (bool_decide_eq_true_1 (VertexSet graph ⊆ dom (plMap mixed))). vm_compute. reflexivity. Qed.

Lemma louvain_places_witness : ∃ pl, RunPLouvain plain mixed = Ok pl ∧ ∀ v s, plMap pl !! v = Some s → 0 ≤ s < 2.
Proof.
  destruct (louvain_places plain (λ _ _ _, reflexivity _) graph 2 (dom (plMap mixed)) mixed mixed_ok) as (pl & E & _ & _ & Hv & _); [done|].
  exists pl. split; [exact E|exact Hv].
Defined.

Lemma communities_partition_witness : concat (Vertices <$> phase0_AggressiveLouvain plain mixed) ≡ₚ elements (VertexSet graph).
Proof. by apply (communities_partition plain (λ _ _ _, reflexivity _) graph 2 (dom (plMap mixed)) mixed mixed_ok). Defined.

Lemma account_movement_improves_witness : ∃ pl k, phase2_AccountMovement plain 0 mixed = Ok (pl, k) ∧
  cross_edges edges (shard_at (plMap pl)) + k ≤ 4.
Proof.
  destruct (account_movement_improves plain (λ _ _ _, reflexivity _) graph 2 (dom (plMap mixed)) edges 0 mixed mixed_ok
    placed_all graph_edges small_degrees) as (pl & k & E & _ & Hc).
  exists pl, k. split; [exact E|exact Hc].
Defined.

(** Two accounts move in the first round, and no edge between shards is left: all four accounts
    are then in one shard, as the loads are not considered. *)
Example mixed_moves : match phase2_AccountMovement plain 0 mixed with
  | Ok (pl, k) => (k =? 2) && (cross_edges edges (shard_at (plMap pl)) =? 0)
  | Panic _ => false
  end = true.
Proof. vm_compute. reflexivity. Qed.
End LouvainExample.
