(* ===== verification/PLouvainCommittee.v ===== *)
(** * The PLouvain committee ([supervisor/committee/committee_plouvain.go])

    The method the supervisor runs by default.  All rows of the dataset are read into a graph of
    addresses weighted by transferred values; the addresses are distributed over the shards by
    their number of transactions, moved towards the shard of their heaviest neighbours in two
    phases, and balanced; the transactions are then sent to the shards of their senders.  The
    order of every [range] over a map is given by [ord].  [strconv.ParseFloat] is an argument;
    opening and parsing the CSV file, sleeping and logging are not modelled. *)
From Stdlib Require Import SpecFloat.
From S2P Require Import Prelude Utils Libs Core Messages Storage Chain MerkleProof Overhead Pbft Supervisor Partition Float64 PLouvain.

(** The committee's own transactions. *)
Record PTransaction := mkPTransaction { PSender : string; PRecipient : string; PValue : float }.

Record PLouvainCommittee := mkPLouvainCommittee {
  pDataTotalNum : Z;
  pNowDataNum : Z;
  pBatchDataNum : Z;
  reconfigTimeGap : Z;
  pIpNodeTable : gmap Z (gmap Z string);
  partitionMap : gmap string Z;
  pSs : StopSignal;
}.
#[export] Instance PLouvainCommittee_eta : Eta PLouvainCommittee := λ p,
  mkPLouvainCommittee (pDataTotalNum p) (pNowDataNum p) (pBatchDataNum p) (reconfigTimeGap p) (pIpNodeTable p)
    (partitionMap p) (pSs p).

Definition NewPLouvainCommitteeModule (table : gmap Z (gmap Z string)) (ss : StopSignal) (dataNum batchNum gap : Z)
    : PLouvainCommittee := mkPLouvainCommittee dataNum 0 batchNum gap table ∅ ss.

(** Both handlers are empty. *)
Definition plouvain_HandleBlockInfo (b : BlockInfoMsg) (p : PLouvainCommittee) : PLouvainCommittee := p.
Definition plouvain_HandleOtherMessage (msg : bytes) (p : PLouvainCommittee) : PLouvainCommittee := p.

(** The loops over maps. *)
Inductive pl_loop :=
| PAddrs
| PNodes (boundary : bool) (iter : nat)
| PNeighbors (boundary : bool) (iter : nat) (node : string)
| PShardNodes
| PRest
| PIps (message : nat).

(** The literals [1.2] and [1.3]. *)
Definition f_six_fifths : float := fdiv (fl_of 6) (fl_of 5).
Definition f_thirteen_tenths : float := fdiv (fl_of 13) (fl_of 10).

(** ** The graph *)
Abbreviation wgraph := (gmap string (gmap string float)).

Definition touch (a : string) (g : wgraph) : wgraph := match g !! a with None => <[a := ∅]> g | Some _ => g end.
Definition add_value (a b : string) (x : float) (g : wgraph) : wgraph :=
  let row := default ∅ (g !! a) in <[a := <[b := fadd (default (fl_of 0) (row !! b)) x]> row]> g.

Definition add_ptx (g : wgraph) (tx : PTransaction) : wgraph :=
  let g := touch (PRecipient tx) (touch (PSender tx) g) in
  add_value (PRecipient tx) (PSender tx) (PValue tx) (add_value (PSender tx) (PRecipient tx) (PValue tx) g).

Definition build_graph (allTxs : list PTransaction) : wgraph := foldl add_ptx ∅ allTxs.

Section plouvain.
Context (ord : pl_loop → ∀ A : Type, list A → list A).

(** ** Initial partition by the number of transactions *)
Definition addrTxCount (allTxs : list PTransaction) : gmap string Z :=
  foldl (λ m tx, incr (incr m (PSender tx)) (PRecipient tx)) ∅ allTxs.

(** The indices [1 .. n-1]. *)
Definition others (n : Z) : list Z := Z.of_nat <$> seq 1 (Z.to_nat n - 1).

Definition lighter (load : list Z) (acc : Z * Z) (sid : Z) : go (Z * Z) :=
  w ← get_at sid load;
  Ok (if w <? acc.2 then (sid, w) else acc).

(** The shard with the least load, the first of several. *)
Definition lightest (numShards : Z) (load : list Z) : go Z :=
  w0 ← get_at 0 load;
  r ← go_fold (lighter load) (0, w0) (others numShards);
  Ok r.1.

Definition assign (numShards : Z) (st : gmap string Z * list Z) (af : string * Z) : go (gmap string Z * list Z) :=
  minShard ← lightest numShards st.2;
  load ← slice_add af.2 minShard st.2;
  Ok (<[af.1 := u64 minShard]> st.1, load).

Definition transactionBasedPartitioning (allTxs : list PTransaction) (numShards : Z) : go (gmap string Z) :=
  let addrList := sort_slice (λ a b : string * Z, b.2 <? a.2) (ord PAddrs _ (map_to_list (addrTxCount allTxs))) in
  load ← make_ints numShards;
  r ← go_fold (assign numShards) (∅, load) addrList;
  Ok r.1.

(** ** Moving nodes to their heaviest shard *)
Definition add_shard_weight (P : gmap string Z) (ws : list float) (nw : string * float) : go (list float) :=
  let s := default 0 (P !! nw.1) in
  w ← get_at s ws;
  set_at s (fadd w nw.2) ws.

Definition heavier (ws : list float) (acc : Z * float) (sid : Z) : go (Z * float) :=
  w ← get_at sid ws;
  Ok (if SFltb acc.2 w then (u64 sid, w) else acc).

(** One node: it moves if the heaviest shard has more than [factor] times its own weight.  The
    state is the partition and [moved]. *)
Definition optimize_node (factor : float) (boundary : bool) (iter : nat) (numShards : Z)
    (st : gmap string Z * Z) (nd : string * gmap string float) : go (gmap string Z * Z) :=
  let '(P, moved) := st in
  let currentShard := default 0 (P !! nd.1) in
  zeros ← make_floats numShards;
  ws ← go_fold (add_shard_weight P) zeros (ord (PNeighbors boundary iter nd.1) _ (map_to_list nd.2));
  w0 ← get_at 0 ws;
  best ← go_fold (heavier ws) (0, w0) (others numShards);
  cur ← get_at currentShard ws;
  Ok (if SFltb (fmul cur factor) best.2 then (<[nd.1 := best.1]> P, moved + 1) else (P, moved)).

Fixpoint optimize_loop (factor : float) (boundary : bool) (graph : wgraph) (numShards : Z) (fuel iter : nat)
    (P : gmap string Z) : go (gmap string Z) :=
  match fuel with
  | O => Ok P
  | S fuel =>
      r ← go_fold (optimize_node factor boundary iter numShards) (P, 0) (ord (PNodes boundary iter) _ (map_to_list graph));
      if r.2 =? 0 then Ok r.1 else optimize_loop factor boundary graph numShards fuel (S iter) r.1
  end.

Definition louvainOptimization (P : gmap string Z) (graph : wgraph) (numShards : Z) : go (gmap string Z) :=
  optimize_loop f_six_fifths false graph numShards 5 0 P.

Definition optimizeBoundaryNodes (P : gmap string Z) (graph : wgraph) (numShards : Z) : go (gmap string Z) :=
  optimize_loop f_three_halves true graph numShards 3 0 P.

(** ** Load balancing *)
Definition list_node (sn : list (list string)) (ns : string * Z) : go (list (list string)) :=
  l ← get_at ns.2 sn;
  set_at ns.2 (l ++ [ns.1]) sn.

(** Transactions inside a shard count for its load. *)
Definition count_inner (P : gmap string Z) (load : list Z) (tx : PTransaction) : go (list Z) :=
  match P !! PSender tx, P !! PRecipient tx with
  | Some s, Some r => if s =? r then slice_add 1 s load else Ok load
  | _, _ => Ok load
  end.

Definition inner_load (P : gmap string Z) (allTxs : list PTransaction) (numShards : Z) : go (list Z) :=
  zeros ← make_ints numShards;
  go_fold (count_inner P) zeros allTxs.

(** The heaviest and the lightest shard with their loads. *)
Definition extremes (load : list Z) (acc : (Z * Z) * (Z * Z)) (sid : Z) : go ((Z * Z) * (Z * Z)) :=
  w ← get_at sid load;
  let mx := if acc.1.2 <? w then (sid, w) else acc.1 in
  let mn := if w <? acc.2.2 then (sid, w) else acc.2 in
  Ok (mx, mn).

Definition cross_neighbors (P : gmap string Z) (graph : wgraph) (maxShard : Z) (node : string) : Z :=
  len (List.filter (λ nb, match P !! nb with Some s => negb (s =? u64 maxShard) | None => false end)
         (map_to_list (default ∅ (graph !! node))).*1).

Definition best_node (P : gmap string Z) (graph : wgraph) (maxShard : Z) (acc : string * Z) (node : string) : string * Z :=
  let n := cross_neighbors P graph maxShard node in
  if acc.2 <? n then (node, n) else acc.

(** [append(l[:i], l[i+1:]...)] at the first [i] with [l[i] == x]. *)
Fixpoint remove_first (x : string) (l : list string) : list string :=
  match l with
  | [] => []
  | y :: l' => if bool_decide (y = x) then l' else y :: remove_first x l'
  end.

Fixpoint balance (graph : wgraph) (allTxs : list PTransaction) (numShards : Z) (avgWorkload : float) (fuel : nat)
    (P : gmap string Z) (sn : list (list string)) (load : list Z) : go (gmap string Z) :=
  match fuel with
  | O => Ok P
  | S fuel =>
      w0 ← get_at 0 load;
      e ← go_fold (extremes load) ((0, w0), (0, w0)) (others numShards);
      let '((maxShard, maxWorkload), (minShard, _)) := e in
      if SFltb (fl_of maxWorkload) (fmul avgWorkload f_thirteen_tenths) then Ok P
      else
        nodes ← get_at maxShard sn;
        let '(bestNode, maxCross) := foldl (best_node P graph maxShard) ("", 0) nodes in
        if bool_decide (bestNode = "") || (maxCross =? 0) then Ok P
        else
          let P := <[bestNode := u64 minShard]> P in
          sn ← set_at maxShard (remove_first bestNode nodes) sn;
          l ← get_at minShard sn;
          sn ← set_at minShard (l ++ [bestNode]) sn;
          load ← inner_load P allTxs numShards;
          balance graph allTxs numShards avgWorkload fuel P sn load
  end.

Definition finalLoadBalancing (P : gmap string Z) (graph : wgraph) (allTxs : list PTransaction) (numShards : Z)
    : go (gmap string Z) :=
  _ ← make_ints numShards;
  sn ← go_fold list_node (replicate (Z.to_nat numShards) []) (ord PShardNodes _ (map_to_list P));
  load ← inner_load P allTxs numShards;
  balance graph allTxs numShards (fdiv (fl_of (len allTxs)) (fl_of numShards)) 10 P sn load.

(** ** Statistics: nodes per shard, inner transactions per shard, transactions between shards *)
Definition count_tx (P : gmap string Z) (acc : list Z * Z) (tx : PTransaction) : go (list Z * Z) :=
  match P !! PSender tx, P !! PRecipient tx with
  | Some s, Some r => if s =? r then l ← slice_add 1 s acc.1; Ok (l, acc.2) else Ok (acc.1, acc.2 + 1)
  | _, _ => Ok acc
  end.

Definition printPartitionStats (P : gmap string Z) (allTxs : list PTransaction) (numShards : Z) : go (list Z * list Z * Z) :=
  zeros ← make_ints numShards;
  nodes ← go_fold (λ l (ns : string * Z), slice_add 1 ns.2 l) zeros (map_to_list P);
  r ← go_fold (count_tx P) (zeros, 0) allTxs;
  Ok (nodes, r.1, r.2).

Definition ImprovedPLouvain (graph : wgraph) (allTxs : list PTransaction) (numShards : Z) : go (gmap string Z) :=
  P ← transactionBasedPartitioning allTxs numShards;
  P ← louvainOptimization P graph numShards;
  P ← optimizeBoundaryNodes P graph numShards;
  P ← finalLoadBalancing P graph allTxs numShards;
  _ ← printPartitionStats P allTxs numShards;
  Ok P.

(** ** Reading and sending *)

(** One record with its index; the columns are those of the source. *)
Definition load_record (ParseFloat : string → float) (totalToRead : Z) (i : nat) (record : list string) : option PTransaction :=
  if (i =? 0)%nat || (totalToRead <? Z.of_nat i) then None
  else match record with
       | _ :: _ :: sender :: recipient :: value :: _ => Some (mkPTransaction sender recipient (ParseFloat value))
       | _ => None
       end.

Definition loadAllTransactions (ParseFloat : string → float) (records : list (list string)) (p : PLouvainCommittee)
    : list PTransaction :=
  omap (λ ir, load_record ParseFloat (pDataTotalNum p) ir.1 ir.2) (imap pair records).

(** [int64(f)]: the truncated value; out of range, the result that amd64 gives. *)
Definition int64_of (f : float) : Z :=
  match f with
  | S754_zero _ => 0
  | S754_finite s m e =>
      let a := if e <? 0 then Z.pos m / 2 ^ (- e) else Z.pos m * 2 ^ e in
      let z := if s then - a else a in
      if (- 2 ^ 63 <=? z) && (z <? 2 ^ 63) then z else - 2 ^ 63
  | _ => - 2 ^ 63
  end.

Definition core_tx (tx : PTransaction) : Transaction :=
  mkTransaction (PSender tx) (PRecipient tx) 0 "" (int64_of (PValue tx)) "" 0 false false false "" "" "".

(** The [k]-th batch goes to the node whose address the loop over the shard's nodes yields first,
    if the shard is in the table. *)
Definition sendBatchToShard (k : nat) (shardID : Z) (txs : list Transaction) (p : PLouvainCommittee) : list packet :=
  match pIpNodeTable p !! shardID with
  | None => []
  | Some nodeIPs => (λ ip : Z * string, (ip.2, MInject (mkInjectTxs txs shardID))) <$> take 1 (ord (PIps k) _ (map_to_list nodeIPs))
  end.

Context `{Params}.

Definition plouvain_route (p : PLouvainCommittee) (tx : PTransaction) : go Z :=
  match partitionMap p !! PSender tx with
  | Some s => Ok s
  | None => s ← Addr2Shard (PSender tx); Ok (u64 s)
  end.

(** What the loop threads: the transactions collected per shard, the number of batches and the
    packets so far. *)
Record sending := mkSending { shardTxs : gmap Z (list Transaction); batches : nat; sent : list packet }.

Definition send_tx (p : PLouvainCommittee) (st : sending) (tx : PTransaction) : go sending :=
  shard ← plouvain_route p tx;
  let l := default [] (shardTxs st !! shard) ++ [core_tx tx] in
  Ok (if pBatchDataNum p <=? len l then
        mkSending (<[shard := []]> (shardTxs st)) (S (batches st)) (sent st ++ sendBatchToShard (batches st) shard l p)
      else mkSending (<[shard := l]> (shardTxs st)) (batches st) (sent st)).

Definition send_rest (p : PLouvainCommittee) (st : nat * list packet) (sl : Z * list Transaction) : nat * list packet :=
  if 0 <? len sl.2 then (S st.1, st.2 ++ sendBatchToShard st.1 sl.1 sl.2 p) else st.

Definition sendTransactionsWithPartition (p : PLouvainCommittee) (allTxs : list PTransaction) : go (list packet) :=
  st ← go_fold (send_tx p) (mkSending ∅ 0 []) allTxs;
  Ok (foldl (send_rest p) (batches st, sent st) (ord PRest _ (map_to_list (shardTxs st)))).2.

(** [MsgSendingControl] is this function. *)
Definition committee_RunPLouvain (ParseFloat : string → float) (records : list (list string)) (p : PLouvainCommittee)
    : go (PLouvainCommittee * list packet) :=
  let allTxs := loadAllTransactions ParseFloat records p in
  P ← ImprovedPLouvain (build_graph allTxs) allTxs ShardNum;
  let p := p <| partitionMap ::= λ m, P ∪ m |> in
  out ← sendTransactionsWithPartition p allTxs;
  Ok (p, out).
End plouvain.
