(* ===== verification/PLouvainCommitteeFacts.v ===== *)
(** * Properties of the PLouvain committee

    For every order of the loops over maps and all float values: the partition is total, covers
    all addresses and stays within the shards; the initial distribution is balanced; every
    transaction is sent once, to the shard of its sender.  The shards are never told. *)
From Stdlib Require Import SpecFloat.
From S2P Require Import Prelude Utils Libs Core Messages Storage Chain MerkleProof Overhead Pbft Supervisor SupervisorFacts.
From S2P Require Import Partition PartitionFacts Float64 PLouvain PLouvainFacts PLouvainCommittee.

Lemma elem_others n s : s ∈ others n ↔ 1 ≤ s < n.
Proof.
  unfold others. rewrite list_elem_of_fmap. split.
  - intros (k & -> & Hk%elem_of_seq). lia.
  - intros Hs. exists (Z.to_nat s). split; [lia|]. apply elem_of_seq. lia.
Qed.

Lemma get_at_at i (l : list Z) : 0 ≤ i < len l → get_at i l = Ok (at_ l i).
Proof.
  intros Hi. unfold get_at, at_. rewrite (proj2 (Z.ltb_ge i 0)) by lia. rewrite nth_lookup.
  destruct (lookup_lt_is_Some_2 l (Z.to_nat i)) as [x ->]; [unfold len in Hi; lia|done].
Qed.

(** ** The least loaded shard *)
Lemma lighter_spec n load l : len load = n → (∀ s, s ∈ l → 0 ≤ s < n) → ∀ acc : Z * Z, 0 ≤ acc.1 < n → acc.2 = at_ load acc.1 →
  ∃ r : Z * Z, go_fold (lighter load) acc l = Ok r ∧ 0 ≤ r.1 < n ∧ r.2 = at_ load r.1 ∧ r.2 ≤ acc.2 ∧ ∀ s, s ∈ l → r.2 ≤ at_ load s.
Proof.
  intros Hn. induction l as [|s l IH]; intros Hl acc Ha Hw; cbn [go_fold].
  - exists acc. split; [done|]. split; [done|]. split; [done|]. split; [done|]. by intros s ?%elem_of_nil.
  - pose proof (Hl s (list_elem_of_here s l)) as Hs.
    assert (lighter load acc s = Ok (if at_ load s <? acc.2 then (s, at_ load s) else acc)) as -> by (unfold lighter; by rewrite get_at_at by lia).
    cbn [mbind go_bind]. set (acc1 := if at_ load s <? acc.2 then (s, at_ load s) else acc).
    destruct (IH ltac:(intros; apply Hl; by apply list_elem_of_further) acc1) as (r & -> & Hr & Hrw & Hle & Hmin);
      [unfold acc1; by case_match..|].
    exists r. split; [done|]. split; [done|]. split; [done|].
    assert (acc1.2 ≤ acc.2 ∧ acc1.2 ≤ at_ load s) as [H1 H2] by (unfold acc1; case_match; zbool; cbn; lia).
    split; [lia|]. intros s' [->|Hin]%elem_of_cons; [lia|by apply Hmin].
Qed.

Lemma lightest_spec n load : 0 < n → len load = n →
  ∃ m, lightest n load = Ok m ∧ 0 ≤ m < n ∧ ∀ j, 0 ≤ j < n → at_ load m ≤ at_ load j.
Proof.
  intros Hn Hl. unfold lightest. rewrite get_at_at by lia. cbn [mbind go_bind].
  destruct (lighter_spec n load (others n) Hl) with (acc := (0, at_ load 0)) as (r & -> & Hr & Hw & H0 & Hmin);
    [intros s; rewrite elem_others; lia|cbn; lia|done|]. cbn [mbind go_bind].
  exists r.1. split; [done|]. split; [done|]. intros j Hj. rewrite <-Hw. destruct (decide (j = 0)) as [->|]; [done|].
  apply Hmin. apply elem_others. lia.
Qed.

(** ** Greedy distribution *)
Definition valid (n : Z) (P : gmap string Z) : Prop := map_Forall (λ _ s, 0 ≤ s < n) P.

(** The load that the placed addresses bring to shard [k]. *)
Definition placed_load (P : gmap string Z) (l : list (string * Z)) (k : Z) : Z :=
  sumZ (λ ac : string * Z, if decide (P !! ac.1 = Some k) then ac.2 else 0) l.

Record spread (n M : Z) (l : list (string * Z)) (st : gmap string Z * list Z) : Prop := {
  sp_len : len st.2 = n;
  sp_valid : valid n st.1;
  sp_dom : dom st.1 = list_to_set l.*1;
  sp_load : ∀ k, 0 ≤ k < n → at_ st.2 k = placed_load st.1 l k;
  sp_diff : ∀ i j, 0 ≤ i < n → 0 ≤ j < n → at_ st.2 i ≤ at_ st.2 j + M;
}.

Lemma assign_ok n M l st a c : 0 < n < 2 ^ 63 → spread n M l st → a ∉ l.*1 → 0 ≤ c ≤ M →
  ∃ st', assign n st (a, c) = Ok st' ∧ spread n M (l ++ [(a, c)]) st'.
Proof.
  intros Hn [Hl Hv Hd Hp Hs] Ha Hc. unfold assign. cbn [fst snd].
  destruct (lightest_spec n st.2) as (m & -> & Hm & Hmin); [lia|done|]. cbn [mbind go_bind].
  destruct (slice_add_ok c m st.2) as (load & -> & Hlen & Hat); [lia|]. cbn [mbind go_bind].
  eexists. split; [done|]. rewrite u64_small by (unfold two64; lia). split; cbn [fst snd].
  - lia.
  - by apply map_Forall_insert_2.
  - rewrite dom_insert_L, Hd, fmap_app, list_to_set_app_L. set_solver.
  - intros k Hk. rewrite Hat, Hp by lia. unfold placed_load. rewrite sumZ_app. cbn [sumZ fmap list_fmap foldr fst snd].
    rewrite lookup_insert_eq. f_equal.
    + apply sumZ_ext. intros [b d] Hin. cbn [fst snd]. rewrite lookup_insert_ne; [done|]. intros ->. apply Ha.
      by apply (list_elem_of_fmap_2 fst l (b, d)).
    + destruct (k =? m) eqn:E; zbool; case_decide as Hd'; simplify_eq; cbn; lia.
  - intros i j Hi Hj. rewrite !Hat by lia. specialize (Hs i j Hi Hj). specialize (Hmin j Hj). repeat case_match; zbool; subst; lia.
Qed.

Lemma assigns_ok n M l : 0 < n < 2 ^ 63 → Forall (λ ac : string * Z, 0 ≤ ac.2 ≤ M) l → ∀ l0 st, spread n M l0 st → NoDup (l0 ++ l).*1 →
  ∃ st', go_fold (assign n) st l = Ok st' ∧ spread n M (l0 ++ l) st'.
Proof.
  intros Hn. induction 1 as [|[a c] l Hc Hl IH]; intros l0 st Hsp Hnd; cbn [go_fold].
  - exists st. by rewrite app_nil_r.
  - destruct (assign_ok n M l0 st a c Hn Hsp) as (st1 & -> & Hsp1); [|done|].
    + rewrite fmap_app in Hnd. apply NoDup_app in Hnd as (_ & Hdis & _). intros Hin. by apply (Hdis a Hin), list_elem_of_here.
    + cbn [mbind go_bind]. destruct (IH (l0 ++ [(a, c)]) st1 Hsp1) as (st2 & E & Hsp2); [by rewrite <-app_assoc|].
      exists st2. split; [exact E|]. by rewrite <-app_assoc in Hsp2.
Qed.

(** ** The addresses of the transactions *)
Definition endpoints (txs : list PTransaction) : list string := txs ≫= λ tx, [PSender tx; PRecipient tx].
Definition addresses (txs : list PTransaction) : gset string := list_to_set (endpoints txs).

Lemma counts_tally txs : addrTxCount txs = foldl incr ∅ (endpoints txs).
Proof.
  unfold addrTxCount, endpoints. generalize (∅ : gmap string Z). induction txs as [|tx txs IH]; intros m; [done|].
  cbn [foldl mbind list_bind]. rewrite foldl_app, IH. done.
Qed.

Lemma graph_dom txs : dom (build_graph txs) = addresses txs.
Proof.
  unfold build_graph, addresses. enough (∀ g, dom (foldl add_ptx g txs) = dom g ∪ list_to_set (endpoints txs)) as Hg
    by (rewrite Hg; set_solver).
  assert (∀ a g, dom (touch a g) = {[a]} ∪ dom g) as Ht.
  { intros a g. unfold touch. destruct (g !! a) eqn:E; [apply elem_of_dom_2 in E; set_solver|by rewrite dom_insert_L]. }
  induction txs as [|tx txs IH]; intros g; cbn [foldl endpoints mbind list_bind]; [set_solver|].
  rewrite IH. unfold add_ptx, add_value. rewrite !dom_insert_L, !Ht. fold (endpoints txs). rewrite list_to_set_app_L. cbn. set_solver.
Qed.

(** The number of ends of transactions in shard [k]. *)
Definition end_load (txs : list PTransaction) (P : gmap string Z) (k : Z) : Z :=
  sumZ (λ a, b2z (bool_decide (P !! a = Some k))) (endpoints txs).

Section facts.
Context (ord : pl_loop → ∀ A : Type, list A → list A).
Hypothesis ord_perm : ∀ l A (xs : list A), ord l A xs ≡ₚ xs.
Context (n : Z) (Hn : 0 < n < 2 ^ 63).

(** What every phase keeps: the addresses placed, and shards that exist. *)
Definition covers (D : gset string) (P : gmap string Z) : Prop := valid n P ∧ dom P = D.

Lemma covers_insert D P a s : covers D P → a ∈ D → 0 ≤ s < n → covers D (<[a := s]> P).
Proof. intros [Hv Hd] Ha Hs. split; [by apply map_Forall_insert_2|]. rewrite dom_insert_L, Hd. set_solver. Qed.

Lemma covers_shard D P a : covers D P → 0 ≤ default 0 (P !! a) < n.
Proof. intros [Hv _]. destruct (P !! a) as [s|] eqn:E; cbn; [by apply (Hv a)|lia]. Qed.

Lemma initial_ok txs M : map_Forall (λ _ c, c ≤ M) (addrTxCount txs) → 0 ≤ M →
  ∃ P, transactionBasedPartitioning ord txs n = Ok P ∧ covers (addresses txs) P ∧
    ∀ i j, 0 ≤ i < n → 0 ≤ j < n → end_load txs P i ≤ end_load txs P j + M.
Proof.
  intros HM HM0. unfold transactionBasedPartitioning. set (al := sort_slice _ _).
  assert (al ≡ₚ map_to_list (addrTxCount txs)) as Hal by (unfold al; by rewrite sort_slice_perm, (ord_perm _ _ _)).
  destruct (make_ints_ok n) as [-> Hz]; [lia|]. cbn [mbind go_bind].
  destruct (assigns_ok n M al Hn) with (l0 := @nil (string * Z)) (st := (∅ : gmap string Z, replicate (Z.to_nat n) 0)) as (st & -> & [S1 S2 S3 S4 S5]).
  - rewrite Hal. apply Forall_forall. intros [a c] Hin. apply elem_of_map_to_list in Hin. cbn [fst snd].
    split; [|by apply (HM a)]. rewrite counts_tally in Hin.
    pose proof (tally_pos (endpoints txs) ∅ (map_Forall_empty _) a c Hin) as Hp. cbn in Hp. lia.
  - split; cbn [fst snd]; [done|by apply map_Forall_empty|done| |].
    + intros k _. by rewrite at_replicate.
    + intros i j _ _. rewrite !at_replicate. lia.
  - rewrite app_nil_l, Hal. apply NoDup_fst_map_to_list.
  - cbn [mbind go_bind]. exists st.1. split; [done|]. rewrite app_nil_l in S3, S4. split; [split; [done|]|].
    + rewrite S3, Hal. unfold addresses. apply set_eq. intros a.
      rewrite elem_of_list_to_set, list_elem_of_fmap.
      assert (dom (addrTxCount txs) = list_to_set (endpoints txs)) as <- by (rewrite counts_tally, tally_dom; set_solver).
      rewrite elem_of_dom. split.
      * intros ([b c] & -> & Hin). apply elem_of_map_to_list in Hin. exists c. exact Hin.
      * intros [c Hc]. exists (a, c). split; [done|]. by apply elem_of_map_to_list.
    + assert (∀ k, 0 ≤ k < n → end_load txs st.1 k = at_ st.2 k) as Hload.
      { intros k Hk. rewrite S4 by done. unfold end_load, placed_load. rewrite <-tally_from_empty, <-counts_tally. unfold wsum.
        rewrite (sumZ_Permutation _ _ _ Hal). apply sumZ_ext. intros ac _. case_bool_decide; case_decide; cbn; (done || lia). }
      intros i j Hi Hj. rewrite !Hload by done. by apply S5.
Qed.

(** ** The passes over the graph *)
Lemma shard_weights_ok D P l : covers D P → ∀ ws : list float, len ws = n →
  ∃ ws', go_fold (add_shard_weight P) ws l = Ok ws' ∧ len ws' = n.
Proof.
  intros HP ws Hw. apply go_fold_total; [done|]. clear ws Hw. intros ws nw _ Hw.
  pose proof (covers_shard D P nw.1 HP) as Hs. set (s := default 0 (P !! nw.1)) in *.
  destruct (get_at_ok s ws) as (w & Ew); [lia|]. destruct (set_at_ok s (fadd w nw.2) ws) as (ws' & Es & Hl); [lia|].
  exists ws'. unfold add_shard_weight. fold s. rewrite Ew. cbn [mbind go_bind]. split; [done|lia].
Qed.

Lemma heavier_ok (ws : list float) l : len ws = n → (∀ s, s ∈ l → 0 ≤ s < n) → ∀ acc : Z * float, 0 ≤ acc.1 < n →
  ∃ r : Z * float, go_fold (heavier ws) acc l = Ok r ∧ 0 ≤ r.1 < n.
Proof.
  intros Hw Hl acc Ha. apply (go_fold_total _ (λ r : Z * float, 0 ≤ r.1 < n)); [done|]. clear acc Ha.
  intros acc s Hs%Hl Ha. destruct (get_at_ok s ws) as (w & Ew); [lia|]. unfold heavier. rewrite Ew.
  cbn [mbind go_bind]. eexists. split; [done|]. case_match; [|done]. cbn. rewrite u64_small by (unfold two64; lia). done.
Qed.

Lemma optimize_node_ok factor b iter D st nd : covers D st.1 → nd.1 ∈ D →
  ∃ st', optimize_node ord factor b iter n st nd = Ok st' ∧ covers D st'.1.
Proof.
  destruct st as [P m]. cbn [fst]. intros HP Hnd. unfold optimize_node.
  destruct (make_floats_ok n) as (zs & -> & Hz); [lia|]. cbn [mbind go_bind].
  destruct (shard_weights_ok D P (ord (PNeighbors b iter nd.1) _ (map_to_list nd.2)) HP zs Hz) as (ws & -> & Hw). cbn [mbind go_bind].
  destruct (get_at_ok 0 ws) as (w0 & ->); [lia|]. cbn [mbind go_bind].
  destruct (heavier_ok ws (others n) Hw) with (acc := (0, w0)) as (best & -> & Hb); [intros s; rewrite elem_others; lia|cbn; lia|].
  cbn [mbind go_bind]. pose proof (covers_shard D P nd.1 HP) as Hc.
  destruct (get_at_ok (default 0 (P !! nd.1)) ws) as (cur & ->); [lia|]. cbn [mbind go_bind].
  eexists. split; [done|]. case_match; [|done]. by apply covers_insert.
Qed.

Lemma optimize_loop_ok factor b graph D fuel : dom graph ⊆ D → ∀ iter P, covers D P →
  ∃ P', optimize_loop ord factor b graph n fuel iter P = Ok P' ∧ covers D P'.
Proof.
  intros Hg. induction fuel as [|fuel IH]; intros iter P HP; cbn [optimize_loop]; [by exists P|].
  destruct (go_fold_total (optimize_node ord factor b iter n) (λ st, covers D st.1) (P, 0)
    (ord (PNodes b iter) _ (map_to_list graph))) as (st & -> & Hst).
  - done.
  - intros st [a row] Hin Hst. apply optimize_node_ok; [done|].
    rewrite (ord_perm _ _ _) in Hin. apply elem_of_map_to_list in Hin. apply Hg. by eapply elem_of_dom_2.
  - cbn [mbind go_bind]. case_match; [by exists st.1|]. by apply IH.
Qed.

(** ** Balancing *)
Lemma count_inner_ok D P l : covers D P → ∀ load : list Z, len load = n →
  ∃ load', go_fold (count_inner P) load l = Ok load' ∧ len load' = n.
Proof.
  intros HP. induction l as [|tx l IH]; intros load Hl; cbn [go_fold]; [by exists load|].
  assert (∃ load1, count_inner P load tx = Ok load1 ∧ len load1 = n) as (load1 & -> & Hl1).
  { unfold count_inner. destruct (P !! PSender tx) as [s|] eqn:Es; [|by exists load]. destruct (P !! PRecipient tx); [|by exists load].
    case_match; [|by exists load]. destruct HP as [Hv _]. apply Hv in Es.
    destruct (slice_add_ok 1 s load) as (l' & -> & Hl' & _); [lia|]. exists l'. split; [done|lia]. }
  cbn [mbind go_bind]. by apply IH.
Qed.

Lemma inner_load_ok D P txs : covers D P → ∃ load, inner_load P txs n = Ok load ∧ len load = n.
Proof.
  intros HP. unfold inner_load. destruct (make_ints_ok n) as [-> Hz]; [lia|]. cbn [mbind go_bind].
  by apply (count_inner_ok D).
Qed.

Lemma extremes_ok (load : list Z) l : len load = n → (∀ s, s ∈ l → 0 ≤ s < n) →
  ∀ acc : (Z * Z) * (Z * Z), 0 ≤ acc.1.1 < n ∧ 0 ≤ acc.2.1 < n →
  ∃ r : (Z * Z) * (Z * Z), go_fold (extremes load) acc l = Ok r ∧ 0 ≤ r.1.1 < n ∧ 0 ≤ r.2.1 < n.
Proof.
  intros Hw Hl acc Ha.
  apply (go_fold_total _ (λ a : (Z * Z) * (Z * Z), 0 ≤ a.1.1 < n ∧ 0 ≤ a.2.1 < n)); [done|]. clear acc Ha.
  intros acc s Hs%Hl Ha. unfold extremes. rewrite get_at_at by lia. eexists. split; [done|].
  cbn [fst snd]. destruct Ha. split; case_match; cbn; lia.
Qed.

Lemma best_node_in P graph mx acc l : (foldl (best_node P graph mx) acc l).1 = acc.1 ∨ (foldl (best_node P graph mx) acc l).1 ∈ l.
Proof.
  revert acc. induction l as [|x l IH]; intros acc; cbn [foldl]; [by left|]. destruct (IH (best_node P graph mx acc x)) as [->|Hin].
  - unfold best_node. case_match; [right; apply list_elem_of_here|by left].
  - right. by apply list_elem_of_further.
Qed.

Lemma remove_first_in x y l : y ∈ remove_first x l → y ∈ l.
Proof.
  induction l as [|z l IH]; cbn; [done|]. case_bool_decide; [by apply list_elem_of_further|].
  intros [->|Hin]%elem_of_cons; [apply list_elem_of_here|by apply list_elem_of_further, IH].
Qed.

(** Lists of nodes with known addresses. *)
Definition known (D : gset string) (sn : list (list string)) : Prop := len sn = n ∧ Forall (Forall (λ x, x ∈ D)) sn.

Lemma known_get D sn i : known D sn → 0 ≤ i < n → ∃ l, get_at i sn = Ok l ∧ Forall (λ x, x ∈ D) l.
Proof.
  intros [Hl Hall] Hi. unfold get_at. rewrite (proj2 (Z.ltb_ge i 0)) by lia.
  destruct (lookup_lt_is_Some_2 sn (Z.to_nat i)) as [l E]; [unfold len in Hl; lia|]. rewrite E. exists l. split; [done|].
  by eapply Forall_lookup_1.
Qed.

Lemma known_set D sn i l : known D sn → 0 ≤ i < n → Forall (λ x, x ∈ D) l → ∃ sn', set_at i l sn = Ok sn' ∧ known D sn'.
Proof.
  intros [Hl Hall] Hi Hfl. unfold set_at. rewrite (proj2 (in_slice_true i sn)) by lia. eexists. split; [done|].
  split; [unfold len in *; by rewrite length_insert|]. by apply Forall_insert.
Qed.

Lemma balance_ok graph txs avg D fuel : ∀ P sn load, covers D P → known D sn → len load = n →
  ∃ P', balance graph txs n avg fuel P sn load = Ok P' ∧ covers D P'.
Proof.
  induction fuel as [|fuel IH]; intros P sn load HP Hsn Hl; cbn [balance]; [by exists P|].
  rewrite get_at_at by lia. cbn [mbind go_bind].
  destruct (extremes_ok load (others n) Hl) with (acc := ((0, at_ load 0), (0, at_ load 0))) as ([[mx wx] [mn wn]] & -> & Hmx & Hmn);
    [intros s; rewrite elem_others; lia|cbn; lia|]. cbn [mbind go_bind fst snd] in *.
  case_match; [by exists P|]. destruct (known_get D sn mx Hsn Hmx) as (nodes & -> & Hnodes). cbn [mbind go_bind].
  destruct (foldl (best_node P graph mx) ("", 0) nodes) as [bn c] eqn:Eb. destruct (bool_decide (bn = "")) eqn:Ebn; [by exists P|].
  apply bool_decide_eq_false in Ebn. cbn [orb]. case_match; [by exists P|].
  assert (bn ∈ D) as Hbn.
  { destruct (best_node_in P graph mx ("", 0) nodes) as [E|E]; rewrite Eb in E; cbn in E; [done|]. rewrite Forall_forall in Hnodes. by apply Hnodes. }
  destruct (known_set D sn mx (remove_first bn nodes) Hsn Hmx) as (sn1 & -> & Hsn1).
  { rewrite Forall_forall in Hnodes |- *. intros x Hx. by apply Hnodes, (remove_first_in bn). }
  cbn [mbind go_bind]. destruct (known_get D sn1 mn Hsn1 Hmn) as (l & -> & Hfl). cbn [mbind go_bind].
  destruct (known_set D sn1 mn (l ++ [bn]) Hsn1 Hmn) as (sn2 & -> & Hsn2); [apply Forall_app; split; [done|by apply Forall_singleton]|].
  cbn [mbind go_bind]. assert (covers D (<[bn := u64 mn]> P)) as HP' by (rewrite u64_small by (unfold two64; lia); by apply covers_insert).
  destruct (inner_load_ok D _ txs HP') as (load' & -> & Hl'). cbn [mbind go_bind]. by apply IH.
Qed.

Lemma final_ok graph txs D P : covers D P → ∃ P', finalLoadBalancing ord P graph txs n = Ok P' ∧ covers D P'.
Proof.
  intros HP. unfold finalLoadBalancing. destruct (make_ints_ok n) as [-> _]; [lia|]. cbn [mbind go_bind].
  assert (∀ l sn, known D sn → (∀ ns : string * Z, ns ∈ l → ns.1 ∈ D ∧ 0 ≤ ns.2 < n) →
    ∃ sn', go_fold list_node sn l = Ok sn' ∧ known D sn') as Hl.
  { induction l as [|ns l IHl]; intros sn Hsn Hin; cbn [go_fold]; [by exists sn|].
    destruct (Hin ns (list_elem_of_here ns l)) as [Hd Hr].
    destruct (known_get D sn ns.2 Hsn Hr) as (nl & E1 & Hnl).
    destruct (known_set D sn ns.2 (nl ++ [ns.1]) Hsn Hr) as (sn1 & E2 & Hsn1); [apply Forall_app; split; [done|by apply Forall_singleton]|].
    assert (list_node sn ns = Ok sn1) as -> by (unfold list_node; by rewrite E1).
    cbn [mbind go_bind]. apply IHl; [done|]. intros; apply Hin; by apply list_elem_of_further. }
  destruct (Hl (ord PShardNodes _ (map_to_list P)) (replicate (Z.to_nat n) [])) as (sn & -> & Hsn).
  - split; [unfold len; rewrite length_replicate; lia|]. apply Forall_replicate. by apply Forall_nil.
  - intros [a s] Hin. rewrite (ord_perm _ _ _) in Hin. apply elem_of_map_to_list in Hin. destruct HP as [Hv <-].
    split; [by eapply elem_of_dom_2|by apply (Hv a)].
  - cbn [mbind go_bind]. destruct (inner_load_ok D P txs HP) as (load & -> & Hl'). cbn [mbind go_bind]. by apply balance_ok.
Qed.

Lemma stats_total txs D P : covers D P → ∃ st, printPartitionStats P txs n = Ok st.
Proof.
  intros HP. unfold printPartitionStats. destruct (make_ints_ok n) as [-> Hz]; [lia|]. cbn [mbind go_bind].
  assert (∀ l z, len z = n → (∀ ns : string * Z, ns ∈ l → 0 ≤ ns.2 < n) →
    ∃ r, go_fold (λ l (ns : string * Z), slice_add 1 ns.2 l) z l = Ok r) as Hc.
  { induction l as [|ns l IH]; intros z Hlz Hin; cbn [go_fold]; [by eexists|].
    destruct (slice_add_ok 1 ns.2 z) as (z' & -> & Hz' & _); [rewrite Hlz; apply Hin, list_elem_of_here|].
    cbn [mbind go_bind]. apply IH; [congruence|]. intros; apply Hin. by apply list_elem_of_further. }
  destruct (Hc (map_to_list P) (replicate (Z.to_nat n) 0)) as (r & ->); [done| |].
  { intros [a s] Hin%elem_of_map_to_list. by apply (proj1 HP a). }
  cbn [mbind go_bind]. assert (∀ l (acc : list Z * Z), len acc.1 = n → ∃ r, go_fold (count_tx P) acc l = Ok r) as Ht.
  { induction l as [|tx l IH]; intros acc Ha; cbn [go_fold]; [by eexists|].
    assert (∃ a1, count_tx P acc tx = Ok a1 ∧ len a1.1 = n) as (a1 & -> & H1).
    { unfold count_tx. destruct (P !! PSender tx) as [s|] eqn:Es; [|by eexists]. destruct (P !! PRecipient tx); [|by eexists].
      case_match; [|by eexists]. apply (proj1 HP) in Es. destruct (slice_add_ok 1 s acc.1) as (l' & -> & Hl' & _); [lia|].
      eexists. split; [done|]. cbn. lia. }
    cbn [mbind go_bind]. by apply IH. }
  destruct (Ht txs (replicate (Z.to_nat n) 0, 0) Hz) as (r2 & ->). by eexists.
Qed.

Lemma improved_ok txs : ∃ P, ImprovedPLouvain ord (build_graph txs) txs n = Ok P ∧ covers (addresses txs) P.
Proof.
  unfold ImprovedPLouvain.
  assert (∃ M, map_Forall (λ _ c, c ≤ M) (addrTxCount txs) ∧ 0 ≤ M) as (M & HM & HM0).
  { exists (sumZ (λ ac : string * Z, Z.abs ac.2) (map_to_list (addrTxCount txs))). split; [|apply sumZ_nonneg; intros; lia].
    intros a c Hac%elem_of_map_to_list. revert Hac. generalize (map_to_list (addrTxCount txs)). intros l Hl.
    assert (∀ l : list (string * Z), 0 ≤ sumZ (λ ac : string * Z, Z.abs ac.2) l) as H0 by (intros; apply sumZ_nonneg; intros; lia).
    induction l as [|ac l IH]; [by apply elem_of_nil in Hl|]. rewrite sumZ_cons. specialize (H0 l).
    apply elem_of_cons in Hl as [<-|Hl]; [cbn; lia|]. specialize (IH Hl). lia. }
  destruct (initial_ok txs M HM HM0) as (P0 & -> & H0 & _). cbn [mbind go_bind].
  destruct (optimize_loop_ok f_six_fifths false (build_graph txs) (addresses txs) 5) with (iter := 0%nat) (P := P0) as (P1 & E1 & H1);
    [by rewrite graph_dom|done|]. unfold louvainOptimization. rewrite E1. cbn [mbind go_bind].
  destruct (optimize_loop_ok f_three_halves true (build_graph txs) (addresses txs) 3) with (iter := 0%nat) (P := P1) as (P2 & E2 & H2);
    [by rewrite graph_dom|done|]. unfold optimizeBoundaryNodes. rewrite E2. cbn [mbind go_bind].
  destruct (final_ok (build_graph txs) txs (addresses txs) P2 H2) as (P3 & -> & H3). cbn [mbind go_bind].
  destruct (stats_total txs (addresses txs) P3 H3) as (st & ->). cbn [mbind go_bind]. by exists P3.
Qed.

(** ** Sending *)
Context `{Params, CryptoLib, !Codec Transaction}.
Context (p : PLouvainCommittee).

(** The table has a node of every shard. *)
Definition table_full : Prop := ∀ s, 0 ≤ s < n → ∃ nodes, pIpNodeTable p !! s = Some nodes ∧ nodes ≠ ∅.

(** A batch: to some node of its shard, not empty and within the batch size. *)
Definition good_batch (pk : packet) : Prop := ∃ it nodes nid, pk.2 = MInject it ∧
  pIpNodeTable p !! ToShardID it = Some nodes ∧ nodes !! nid = Some pk.1 ∧ 1 ≤ len (ITxs it) ≤ Z.max 1 (pBatchDataNum p).

Lemma send_batch_ok k s txs : table_full → 0 ≤ s < n → 1 ≤ len txs ≤ Z.max 1 (pBatchDataNum p) →
  Forall good_batch (sendBatchToShard ord k s txs p) ∧
  ∀ sid, injected sid (sendBatchToShard ord k s txs p) = if s =? sid then txs else [].
Proof.
  intros Ht Hs Hl. destruct (Ht s Hs) as (nodes & E & Hne). unfold sendBatchToShard. rewrite E.
  assert (map_to_list nodes ≠ []) as Hnn by (by rewrite map_to_list_empty_iff).
  destruct (ord (PIps k) _ (map_to_list nodes)) as [|[nid ip] rest] eqn:Eo.
  { pose proof (ord_perm (PIps k) _ (map_to_list nodes)) as Hp. rewrite Eo in Hp. by apply Permutation_nil in Hp. }
  cbn [take fmap list_fmap snd]. split.
  - apply Forall_singleton. exists (mkInjectTxs txs s), nodes, nid. split; [done|]. split; [done|]. split; [|done].
    cbn. apply elem_of_map_to_list. rewrite <-(ord_perm (PIps k) _ (map_to_list nodes)), Eo. apply list_elem_of_here.
  - intros sid. cbn. case_match; [by rewrite app_nil_r|done].
Qed.

Definition to_shard (P : gmap string Z) (sid : Z) (tx : PTransaction) : bool := bool_decide (P !! PSender tx = Some sid).

(** What the loop over the transactions [txs] has done. *)
Record collected (txs : list PTransaction) (st : sending) : Prop := {
  co_all : ∀ sid, injected sid (sent st) ++ default [] (shardTxs st !! sid) =
             core_tx <$> List.filter (to_shard (partitionMap p) sid) txs;
  co_good : Forall good_batch (sent st);
  co_small : map_Forall (λ s l, 0 ≤ s < n ∧ len l < Z.max 1 (pBatchDataNum p)) (shardTxs st);
}.

Lemma send_tx_ok txs st tx s : table_full → valid n (partitionMap p) → partitionMap p !! PSender tx = Some s → collected txs st →
  ∃ st', send_tx ord p st tx = Ok st' ∧ collected (txs ++ [tx]) st'.
Proof.
  intros Ht Hv Es [Ca Cg Cs]. unfold send_tx, plouvain_route. rewrite Es. cbn [mbind go_bind].
  set (l := default [] (shardTxs st !! s) ++ [core_tx tx]). pose proof (Hv _ _ Es) as Hs.
  assert (len (default [] (shardTxs st !! s)) < Z.max 1 (pBatchDataNum p)) as Hpre.
  { destruct (shardTxs st !! s) as [l0|] eqn:E; cbn; [by apply (Cs s)|unfold len; cbn; lia]. }
  assert (len l = len (default [] (shardTxs st !! s)) + 1) as Hlen by (unfold l, len; rewrite length_app; cbn; lia).
  assert (∀ sid, core_tx <$> List.filter (to_shard (partitionMap p) sid) (txs ++ [tx]) =
    (core_tx <$> List.filter (to_shard (partitionMap p) sid) txs) ++ (if s =? sid then [core_tx tx] else [])) as Hf.
  { intros sid. rewrite List.filter_app, fmap_app. f_equal. cbn [List.filter]. unfold to_shard at 1. rewrite Es.
    destruct (s =? sid) eqn:E; zbool; [subst; by rewrite bool_decide_eq_true_2|]. rewrite bool_decide_eq_false_2 by congruence. done. }
  destruct (pBatchDataNum p <=? len l) eqn:Eb; zbool; eexists; (split; [done|]); split; cbn [shardTxs sent].
  - intros sid. destruct (send_batch_ok (batches st) s l Ht Hs) as [_ Hi]; [unfold len in *; lia|].
    rewrite injected_app, Hi, Hf, <-Ca. destruct (s =? sid) eqn:E; zbool.
    + subst sid. rewrite lookup_insert_eq. cbn. rewrite app_nil_r. unfold l. by rewrite app_assoc.
    + rewrite lookup_insert_ne by done. by rewrite !app_nil_r.
  - apply Forall_app. split; [done|]. apply send_batch_ok; [done|done|unfold len in *; lia].
  - apply map_Forall_insert_2; [split; [done|unfold len; cbn; lia]|done].
  - intros sid. rewrite Hf, <-Ca. destruct (s =? sid) eqn:E; zbool.
    + subst sid. rewrite lookup_insert_eq. cbn. unfold l. by rewrite app_assoc.
    + rewrite lookup_insert_ne by done. by rewrite app_nil_r.
  - done.
  - apply map_Forall_insert_2; [split; [done|lia]|done].
Qed.

Lemma concat_keyed (l : list (Z * list Transaction)) sid : NoDup l.*1 →
  concat ((λ sl : Z * list Transaction, if sl.1 =? sid then sl.2 else []) <$> l) = default [] ((list_to_map l : gmap Z (list Transaction)) !! sid).
Proof.
  induction l as [|[s t] l IH]; intros Hnd; [done|]. cbn in Hnd. apply NoDup_cons in Hnd as [Hs Hnd].
  cbn [fmap list_fmap concat fst snd list_to_map foldr]. destruct (s =? sid) eqn:E; zbool.
  - subst. cbn. rewrite lookup_insert_eq. cbn. rewrite IH by done.
    rewrite (not_elem_of_list_to_map_1 l sid) by done. cbn. apply app_nil_r.
  - cbn. rewrite lookup_insert_ne by done. by apply IH.
Qed.

Lemma rest_ok l : table_full → (∀ sl : Z * list Transaction, sl ∈ l → 0 ≤ sl.1 < n ∧ len sl.2 < Z.max 1 (pBatchDataNum p)) →
  ∀ st : nat * list packet, Forall good_batch st.2 →
  Forall good_batch (foldl (send_rest ord p) st l).2 ∧
  ∀ sid, injected sid (foldl (send_rest ord p) st l).2 =
    injected sid st.2 ++ concat ((λ sl : Z * list Transaction, if sl.1 =? sid then sl.2 else []) <$> l).
Proof.
  intros Ht. induction l as [|sl l IH]; intros Hl st Hst; cbn [foldl fmap list_fmap concat].
  - split; [done|]. intros. by rewrite app_nil_r.
  - destruct (Hl sl (list_elem_of_here sl l)) as [Hs Hlen].
    assert (∃ o, (send_rest ord p st sl).2 = st.2 ++ o ∧ Forall good_batch o ∧ ∀ sid, injected sid o = if sl.1 =? sid then sl.2 else [])
      as (o & Eo & Ho & Hi).
    { unfold send_rest. destruct (0 <? len sl.2) eqn:E; zbool.
      - eexists. split; [done|]. apply send_batch_ok; [done|done|lia].
      - exists []. split; [cbn; by rewrite app_nil_r|]. split; [by apply Forall_nil|]. intros sid. unfold len in E.
        destruct sl.2; [by case_match|cbn in E; lia]. }
    destruct (IH ltac:(intros; apply Hl; by apply list_elem_of_further) (send_rest ord p st sl)) as [Hg Hin].
    { rewrite Eo. by apply Forall_app. }
    split; [done|]. intros sid. by rewrite Hin, Eo, injected_app, Hi, <-app_assoc.
Qed.

Lemma sends_ok txs : table_full → valid n (partitionMap p) → (∀ tx, tx ∈ txs → PSender tx ∈ dom (partitionMap p)) →
  ∃ out, sendTransactionsWithPartition ord p txs = Ok out ∧ Forall good_batch out ∧
    ∀ sid, injected sid out = core_tx <$> List.filter (to_shard (partitionMap p) sid) txs.
Proof.
  intros Ht Hv Hd. unfold sendTransactionsWithPartition.
  assert (∀ txs' done_ st, collected done_ st → (∀ tx, tx ∈ txs' → PSender tx ∈ dom (partitionMap p)) →
    ∃ st', go_fold (send_tx ord p) st txs' = Ok st' ∧ collected (done_ ++ txs') st') as Hl.
  { induction txs' as [|tx txs' IH]; intros dn st Hc Hin; cbn [go_fold]; [exists st; by rewrite app_nil_r|].
    destruct (proj1 (elem_of_dom _ _) (Hin tx (list_elem_of_here tx txs'))) as [s Es].
    destruct (send_tx_ok dn st tx s Ht Hv Es Hc) as (st1 & -> & Hc1). cbn [mbind go_bind].
    destruct (IH (dn ++ [tx]) st1 Hc1) as (st2 & E & Hc2); [intros; apply Hin; by apply list_elem_of_further|].
    exists st2. split; [exact E|]. by rewrite <-app_assoc in Hc2. }
  destruct (Hl txs [] (mkSending ∅ 0 [])) as (st & -> & [Ca Cg Cs]); [|done|].
  { split; cbn; [intros; by rewrite lookup_empty|by apply Forall_nil|by apply map_Forall_empty]. }
  cbn [mbind go_bind]. eexists. split; [done|].
  destruct (rest_ok (ord PRest _ (map_to_list (shardTxs st))) Ht) with (st := (batches st, sent st)) as [Hg Hi]; [|done|].
  { intros [s l] Hin. rewrite (ord_perm _ _ _) in Hin. apply elem_of_map_to_list in Hin. by apply (Cs s). }
  split; [exact Hg|]. intros sid. rewrite Hi. cbn [snd]. rewrite <-Ca. f_equal.
  assert (ord PRest _ (map_to_list (shardTxs st)) ≡ₚ map_to_list (shardTxs st)) as Hp by apply ord_perm.
  rewrite concat_keyed by (rewrite Hp; apply NoDup_fst_map_to_list).
  rewrite (list_to_map_proper _ (map_to_list (shardTxs st))), list_to_map_to_list; [done| |done].
  rewrite Hp. apply NoDup_fst_map_to_list.
Qed.
End facts.

(** ** The committee *)
Section committee.
Context (ord : pl_loop → ∀ A : Type, list A → list A).
Hypothesis ord_perm : ∀ l A (xs : list A), ord l A xs ≡ₚ xs.

(** The greedy distribution is balanced.  For every order in which Go visits the address
    counts, the initial partition covers all addresses, places them in existing shards, and the
    loads of any two shards (counted in ends of transactions) differ by no more than the
    number of ends [M] of the busiest single address. *)
Theorem greedy_balanced (n M : Z) (txs : list PTransaction) :
  0 < n < 2 ^ 63 → 0 ≤ M → map_Forall (λ _ c, c ≤ M) (addrTxCount txs) →
  ∃ P, transactionBasedPartitioning ord txs n = Ok P ∧ dom P = addresses txs ∧
    (∀ a s, P !! a = Some s → 0 ≤ s < n) ∧
    ∀ i j, 0 ≤ i < n → 0 ≤ j < n → end_load txs P i ≤ end_load txs P j + M.
Proof.
  intros Hn HM0 HM. destruct (initial_ok ord ord_perm n Hn txs M HM HM0) as (P & E & [Hv Hd] & Hb).
  exists P. split; [exact E|]. split; [exact Hd|]. split; [|exact Hb]. intros a s Ha. by apply (Hv a).
Qed.

Context `{Params, CryptoLib, !Codec Transaction}.

(** C26: a run of the default committee.  For every dataset, every value [ParseFloat] returns
    (NaN and infinities included) and every order of the loops over maps, the run ends; the
    partition covers exactly the senders and recipients and stays within the shards; and the
    packets inject every transaction exactly once, into the shard of its sender, in order,
    each batch going to some node of that shard and holding at most [batchDataNum] (at least one)
    transactions.  No packet tells the shards about the partition. *)
Theorem plouvain_run (ParseFloat : string → float) (records : list (list string)) (p : PLouvainCommittee) :
  0 < ShardNum < 2 ^ 63 → partitionMap p = ∅ → table_full ShardNum p →
  let txs := loadAllTransactions ParseFloat records p in
  ∃ p' out, committee_RunPLouvain ord ParseFloat records p = Ok (p', out) ∧
    dom (partitionMap p') = addresses txs ∧ (∀ a s, partitionMap p' !! a = Some s → 0 ≤ s < ShardNum) ∧
    (∀ sid, injected sid out = core_tx <$> List.filter (to_shard (partitionMap p') sid) txs) ∧
    Forall (good_batch p) out.
Proof.
  intros Hn Hp Ht txs. unfold committee_RunPLouvain. fold txs.
  destruct (improved_ok ord ord_perm ShardNum Hn txs) as (P & -> & Hv & Hd). cbn [mbind go_bind].
  set (p' := p <| partitionMap ::= λ m, P ∪ m |>).
  assert (partitionMap p' = P) as EP by (unfold p'; cbn; by rewrite Hp, map_union_empty).
  destruct (sends_ok ord ord_perm ShardNum p' txs) as (out & E & Hg & Hi).
  - exact Ht.
  - by rewrite EP.
  - intros tx Htx. rewrite EP, Hd. apply elem_of_list_to_set, list_elem_of_bind. exists tx. split; [apply list_elem_of_here|done].
  - rewrite E. cbn [mbind go_bind]. exists p', out. split; [done|]. rewrite EP. split; [done|].
    split; [intros a s Ha; by apply (Hv a)|]. split; [by rewrite <-EP|exact Hg].
Qed.

Context `{BitSetLib, !Codec AccountState, !Codec BlockHeader, !Codec Block, BoltLib, TrieLib}.
Context `{!CryptoLaws, !CodecLaws AccountState, !CodecLaws BlockHeader, !CodecLaws Block, !BoltLaws, !TrieLaws}.

(** The shards do not know the partition.  A transaction whose sender the committee has
    placed in shard [sid] is routed there; a node of that shard, which has no partition map and
    finds the sender in another shard and the recipient in its own, credits the recipient and
    debits nobody: the transfer creates its value. *)
Theorem plouvain_creates_value (p : PLouvainCommittee) (ptx : PTransaction) (bc : BlockChain) (m : ledger) (sid s r : Z) :
  partitionMap p !! PSender ptx = Some sid →
  state_ok bc m → Chain.PartitionMap bc = ∅ → ShardID (Config bc) = sid →
  Addr2Shard (PSender ptx) = Ok s → u64 s ≠ sid → Addr2Shard (PRecipient ptx) = Ok r → u64 r = sid →
  plouvain_route p ptx = Ok sid ∧
  ∃ db rt, GetUpdateStatusTrie bc [core_tx ptx] = Ok (db, rt) ∧
    ∀ bc', triedb bc' = db → StateRoot (Header (CurrentBlock bc')) = rt →
    ∃ s0 r0 s1 r1, FetchAccounts bc [PSender ptx; PRecipient ptx] = Ok [s0; r0] ∧
      FetchAccounts bc' [PSender ptx; PRecipient ptx] = Ok [s1; r1] ∧
      Balance s1 = Balance s0 ∧ Balance r1 = Balance r0 + Value (core_tx ptx).
Proof.
  intros HP Hst Hpm Hsid Hs Hne Hr Heq. split; [unfold plouvain_route; by rewrite HP|].
  assert (∀ a x, Addr2Shard a = Ok x → placed bc a ∧ shard_of bc a = u64 x) as Hplace.
  { intros a x Ha. unfold placed, shard_of, Get_PartitionMap. by rewrite Hpm, lookup_empty, Ha. }
  destruct (Hplace _ _ Hs) as [Ps Es]. destruct (Hplace _ _ Hr) as [Pr Er].
  destruct (update_status_spec bc m [core_tx ptx] Hst) as (db & rt & E & Hok & Hroot & _); [by apply Forall_singleton|].
  exists db, rt. split; [exact E|]. intros bc' <- <-. set (m' := ledger_exec (shard_of bc) (ShardID (Config bc)) m [core_tx ptx]).
  exists (acct m (PSender ptx) 0), (acct m (PRecipient ptx) 0), (acct m' (PSender ptx) 0), (acct m' (PRecipient ptx) 0).
  split; [exact (fetch_accounts_spec bc m _ Hst)|].
  split; [exact (fetch_accounts_spec bc' m' [PSender ptx; PRecipient ptx] (conj Hok Hroot))|].
  assert (PSender ptx ≠ PRecipient ptx) as Hsr by (intros Esr; rewrite Esr in Hs; congruence).
  assert (∀ a, Balance (acct m' a 0) = Balance (acct m a 0) + delta (shard_of bc) (ShardID (Config bc)) (core_tx ptx) a) as Hb.
  { intros a. pose proof (ledger_exec_bal (shard_of bc) (ShardID (Config bc)) m [core_tx ptx] a) as Hb.
    fold m' in Hb. unfold bal in Hb. rewrite Hb. unfold balance_exec. cbn [foldl]. unfold balance_tx.
    assert (rejected (shard_of bc) (ShardID (Config bc)) (λ a0, Balance (acct m a0 0)) (core_tx ptx) = false) as Hrej.
    { unfold rejected, debits. cbn. rewrite Es, Hsid, (proj2 (Z.eqb_neq _ _) Hne). done. }
    unfold bal. rewrite Hrej. done. }
  rewrite !Hb. unfold delta, debits, credits. cbn [Sender Recipient Relayed HasBroker core_tx].
  rewrite Es, Er, Hsid, Heq, Z.eqb_refl, (proj2 (Z.eqb_neq _ _) Hne). cbn [negb orb andb].
  rewrite bool_decide_eq_false_2, bool_decide_eq_true_2 by done. lia.
Qed.
End committee.

(** ** A dataset of three transfers *)
Module PLouvainExample.
Import ConcreteLibs ConcreteCore ChainExample.
#[local] Existing Instance default_params.

Definition plain (l : pl_loop) (A : Type) (xs : list A) : list A := xs.
Definition five (s : string) : float := fl_of 5.
Definition records : list (list string) :=
  [["block"; "time"; "from"; "to"; "value"]; ["0"; "1"; addrA; addrC; "5"]; ["0"; "1"; addrA; addrC; "5"]; ["0"];
   ["0"; "1"; "00000002"; "00000006"; "5"]].
Definition cmt : PLouvainCommittee :=
  NewPLouvainCommitteeModule (list_to_map ((λ i, (i, {[1 := "ip1"]})) <$> shards 4)) (NewStopSignal 3) 100 2 0.
Definition loaded : list PTransaction := loadAllTransactions five records cmt.

Lemma full : table_full ShardNum cmt.
Proof.
  intros s Hs. assert (s ∈ shards 4) as Hin by (by apply elem_shards). change (shards 4) with [0; 1; 2; 3] in Hin.
  exists {[1 := "ip1"]}. split; [|done].
  repeat (apply elem_of_cons in Hin as [->|Hin]; [vm_compute; reflexivity|]). by apply elem_of_nil in Hin.
Qed.

Lemma greedy_balanced_witness : ∃ P, transactionBasedPartitioning plain loaded 4 = Ok P ∧ end_load loaded P 0 ≤ end_load loaded P 3 + 2.
Proof.
  destruct (greedy_balanced plain (λ _ _ _, reflexivity _) 4 2 loaded) as (P & E & _ & _ & Hb); [lia|lia| |].
  - assert (forallb (λ ac : string * Z, ac.2 <=? 2) (map_to_list (addrTxCount loaded)) = true) as Hc by (vm_compute; reflexivity).
    intros a c Hac. rewrite forallb_forall in Hc. apply elem_of_map_to_list, list_elem_of_In, Hc, Z.leb_le in Hac. exact Hac.
  - exists P. split; [exact E|]. apply Hb; lia.
Defined.

Lemma plouvain_run_witness : ∃ p out, committee_RunPLouvain plain five records cmt = Ok (p, out) ∧
  dom (partitionMap p) = addresses loaded.
Proof.
  destruct (plouvain_run plain (λ _ _ _, reflexivity _) five records cmt) as (p & out & E & Hd & _); [done|done|exact full|].
  exists p, out. split; [exact E|exact Hd].
Defined.

(** The account [addrA] of shard 3 is placed in shard 1, and its transfer to [addrC] of shard 1
    is executed there. *)
Definition cfg1 : ChainConfig := mkChainConfig 1 0 1 4 4 2000 5000 300 2000.
Definition placed_cmt : PLouvainCommittee :=
  cmt <| partitionMap := match ImprovedPLouvain plain (build_graph loaded) loaded 4 with Ok P => P | Panic _ => ∅ end |>.
Definition ptx : PTransaction := mkPTransaction addrA addrC (fl_of 5).

Lemma plouvain_creates_value_witness : ∃ bc db rt, NewBlockChain cfg1 trie_NewDatabase (∅ : BoltDB) = Ok bc ∧
  plouvain_route placed_cmt ptx = Ok 1 ∧ GetUpdateStatusTrie bc [core_tx ptx] = Ok (db, rt).
Proof.
  destruct (genesis_of cfg1) as (bc & E & Hck & Hc & _ & Hpm & _ & _).
  destruct (plouvain_creates_value placed_cmt ptx bc ∅ 1 3 1) as (Hr & db & rt & Eg & _).
  - vm_compute. reflexivity.
  - apply (ck_state _ _ Hck).
  - exact Hpm.
  - by rewrite Hc.
  - vm_compute. reflexivity.
  - vm_compute. discriminate.
  - vm_compute. reflexivity.
  - reflexivity.
  - exists bc, db, rt. split; [exact E|]. split; [exact Hr|exact Eg].
Defined.
End PLouvainExample.
