(* ===== verification/ContribPartition.v ===== *)
(** * The partition by edges and contributions ([partition/partition_CLPA.go], second half)

    The ContribChain extension of [CLPAState]: label propagation as in [CLPA_Partition], where the
    score of a shard also weighs the contribution of the vertex against the average of the shard,
    with an end as soon as a round moves nothing; and rewards in proportion to contributions.
    The fields that the extension adds to the struct are a record around [CLPAState].  As in
    [Partition], the order of every [range] over a map is an argument; printing is not modelled,
    but the indices that it reads are. *)
From Stdlib Require Import SpecFloat.
From S2P Require Import Prelude Utils Partition PartitionFacts Contribution PLouvain.

Record ContribCLPA := mkContribCLPA {
  clpa : CLPAState;
  ContribCalculator : option ContributionCalculator;   (* nil: [None] *)
  ContribInShard : list float;
  ContribWeight : float;
  IncentivePool : option (gmap Vertex float);          (* nil: [None] *)
  EnableContrib : bool;
}.
#[export] Instance ContribCLPA_eta : Eta ContribCLPA := λ c,
  mkContribCLPA (clpa c) (ContribCalculator c) (ContribInShard c) (ContribWeight c) (IncentivePool c)
    (EnableContrib c).

(** [new(CLPAState)] with [Init_CLPAState] *)
Definition Init_ContribCLPA (wp : float) (mIter sn : Z) : go ContribCLPA :=
  cs ← Init_CLPAState wp mIter sn zero_state;
  contribs ← make_floats sn;
  Ok (mkContribCLPA cs None contribs fl_zero (Some ∅) false).

Definition EnableContribChain (contribWeight : float) (cs : ContribCLPA) : go ContribCLPA :=
  contribs ← make_floats (CShardNum (clpa cs));
  Ok (cs <| EnableContrib := true |> <| ContribWeight := contribWeight |>
         <| ContribCalculator := Some NewContributionCalculator |> <| ContribInShard := contribs |>
         <| IncentivePool := Some ∅ |>).

(** Using the pointer [cs.ContribCalculator]. *)
Definition calculator (cs : ContribCLPA) : go ContributionCalculator :=
  match ContribCalculator cs with
  | Some cc => Ok cc
  | None => Panic "nil pointer dereference"
  end.

(** [l[i] = f(l[i])] *)
Definition change_at (f : float → float) (i : Z) (l : list float) : go (list float) :=
  x ← get_at i l; set_at i (f x) l.

(** [order] lists the keys of [PartitionMap]. *)
Definition ComputeContribInShard (order : list Vertex) (cs : ContribCLPA) : go ContribCLPA :=
  match EnableContrib cs, ContribCalculator cs with
  | true, Some cc =>
      zeros ← make_floats (CShardNum (clpa cs));
      contribs ← go_fold (λ l v, change_at (λ x, fadd x (cc_GetContribution cc v))
                                   (shard_at (PartitionMap (clpa cs)) v) l) zeros order;
      Ok (cs <| ContribInShard := contribs |>)
  | _, _ => Ok cs
  end.

(** The base score is computed as in [getShard_score]. *)
Definition getShard_score_Contrib (cs : ContribCLPA) (v : Vertex) (uShard : Z) : go float :=
  if len (adj (NetGraph (clpa cs)) v) =? 0 then Ok fl_zero
  else
    baseScore ← getShard_score (clpa cs) v uShard;
    cc ← calculator cs;
    let vContrib := cc_GetContribution cc v in
    n ← slice_get uShard (VertexsNumInShard (clpa cs));
    let shardNodeCount := if n =? 0 then 1 else n in
    c ← get_at uShard (ContribInShard cs);
    let avgContrib := fdiv c (fl_of shardNodeCount) in
    let contribFactor :=
      if SFltb fl_zero avgContrib && SFltb avgContrib vContrib
      then fadd (fl_of 1) (fmul (ContribWeight cs) (fsub (fdiv vContrib avgContrib) (fl_of 1)))
      else fl_of 1 in
    Ok (fmul baseScore contribFactor).

(** The loop over the neighbours: the scores computed, the best one and its shard. *)
Definition score_neighbor_Contrib (cs : ContribCLPA) (v : Vertex) (acc : gmap Z float * float * Z)
    (u : Vertex) : go (gmap Z float * float * Z) :=
  let '(scores, max_score, max_scoreShard) := acc in
  let uShard := shard_at (PartitionMap (clpa cs)) u in
  match scores !! uShard with
  | Some _ => Ok acc
  | None =>
      sc ← getShard_score_Contrib cs v uShard;
      let scores := <[uShard := sc]> scores in
      Ok (if SFltb max_score sc then (scores, sc, uShard) else (scores, max_score, max_scoreShard))
  end.

Definition best_shard_Contrib (cs : ContribCLPA) (v : Vertex) : go Z :=
  r ← go_fold (score_neighbor_Contrib cs v) (∅, fl_of (-9999), shard_at (PartitionMap (clpa cs)) v)
        (adj (NetGraph (clpa cs)) v);
  Ok r.2.

(** What [ContribChain_Partition] threads through its loops. *)
Record contrib_run := mkContribRun {
  c_cs : ContribCLPA;
  c_res : gmap string Z;
  c_thr : gmap string Z;
  c_moved : bool;
}.
#[export] Instance contrib_run_eta : Eta contrib_run := λ c,
  mkContribRun (c_cs c) (c_res c) (c_thr c) (c_moved c).

(** The vertex changes its shard. *)
Definition contrib_move (st : contrib_run) (v : Vertex) (old new : Z) : go contrib_run :=
  let cs := c_cs st in
  cc ← calculator cs;
  let vContrib := cc_GetContribution cc v in
  contribs ← change_at (λ x, fsub x vContrib) old (ContribInShard cs);
  contribs ← change_at (λ x, fadd x vContrib) new contribs;
  nums ← slice_add (-1) old (VertexsNumInShard (clpa cs));
  nums ← slice_add 1 new nums;
  base ← changeShardRecompute v old
           ((clpa cs) <| PartitionMap ::= <[v := new]> |> <| VertexsNumInShard := nums |>);
  Ok (mkContribRun (cs <| clpa := base |> <| ContribInShard := contribs |>)
        (<[Addr v := u64 new]> (c_res st)) (<[Addr v := default 0 (c_thr st !! Addr v) + 1]> (c_thr st)) true).

Definition contrib_visit (st : contrib_run) (v : Vertex) : go contrib_run :=
  let cs := c_cs st in
  if 50 <=? default 0 (c_thr st !! Addr v) then Ok st
  else
    let vNowShard := shard_at (PartitionMap (clpa cs)) v in
    max_scoreShard ← best_shard_Contrib cs v;
    if negb (vNowShard =? max_scoreShard) then
      n ← slice_get vNowShard (VertexsNumInShard (clpa cs));
      if 1 <? n then contrib_move st v vNowShard max_scoreShard else Ok st
    else Ok st.

(** Round [iter] visits the vertices in the order [orders iter]; a round without a move is the last. *)
Fixpoint contrib_rounds (orders : nat → list Vertex) (fuel iter : nat) (st : contrib_run) : go contrib_run :=
  match fuel with
  | O => Ok st
  | S fuel =>
      st ← go_fold contrib_visit (st <| c_moved := false |>) (orders iter);
      if c_moved st then contrib_rounds orders fuel (S iter) st else Ok st
  end.

(** Before the loop; [mapOrder] is the order of [ComputeContribInShard]. *)
Definition contrib_start (mapOrder : list Vertex) (cs : ContribCLPA) : go contrib_run :=
  cc ← calculator cs;
  base ← ComputeEdges2Shard (clpa cs);
  cs ← ComputeContribInShard mapOrder
         (cs <| ContribCalculator := Some (CalculateAllContributions cc) |> <| clpa := base |>);
  Ok (mkContribRun cs ∅ ∅ false).

Definition ContribChain_Partition (mapOrder : list Vertex) (orders : nat → list Vertex) (cs : ContribCLPA)
    : go (ContribCLPA * gmap string Z * Z) :=
  st ← contrib_start mapOrder cs;
  st ← contrib_rounds orders (Z.to_nat (MaxIterations (clpa cs))) 0 st;
  let cs := c_cs st in
  (* the sizes and contributions are printed shard by shard *)
  if len (ContribInShard cs) <? len (VertexsNumInShard (clpa cs)) then Panic "index out of range"
  else
    base ← ComputeEdges2Shard (clpa cs);
    Ok (cs <| clpa := base |>, c_res st, CrossShardEdgeNum base).

(** The reward of an account: its share of the total. *)
Definition reward_of (totalContrib totalReward : float) (m : ContributionMetrics) : float :=
  fmul (fdiv (TotalContribution m) totalContrib) totalReward.

Definition pay (cc : ContributionCalculator) (totalContrib totalReward : float)
    (acc : gmap string float * option (gmap Vertex float)) (v : Vertex)
    : go (gmap string float * option (gmap Vertex float)) :=
  match Contributions cc !! v with
  | None => Ok acc
  | Some m =>
      let reward := reward_of totalContrib totalReward m in
      match acc.2 with
      | None => Panic "assignment to entry in nil map"
      | Some pool => Ok (<[Addr v := reward]> acc.1, Some (<[v := reward]> pool))
      end
  end.

(** [order] and [order'] list the vertices with contributions, for the two loops; [None] is nil. *)
Definition CalculateIncentives (order order' : list Vertex) (totalReward : float) (cs : ContribCLPA)
    : go (ContribCLPA * option (gmap string float)) :=
  match EnableContrib cs, ContribCalculator cs with
  | true, Some cc =>
      let totalContrib := GetTotalContribution order cc in
      if SFeqb totalContrib fl_zero then Ok (cs, None)
      else
        r ← go_fold (pay cc totalContrib totalReward) (∅, IncentivePool cs) order';
        Ok (cs <| IncentivePool := r.2 |>, Some r.1)
  | _, _ => Ok (cs, None)
  end.

Definition clpa_GetTopContributors (order : list Vertex) (k : Z) (cs : ContribCLPA) : go (list Vertex) :=
  match EnableContrib cs, ContribCalculator cs with
  | true, Some cc => GetTopContributors order k cc
  | _, _ => Ok []
  end.

(** [order] lists the vertices of the graph. *)
Definition GetNodeContribution (order : list Vertex) (addr : string) (cs : ContribCLPA) : float :=
  match EnableContrib cs, ContribCalculator cs with
  | true, Some cc =>
      match List.find (λ v, bool_decide (Addr v = addr)) order with
      | Some v => cc_GetContribution cc v
      | None => fl_zero
      end
  | _, _ => fl_zero
  end.
