(* ===== verification/ContribPartitionFacts.v ===== *)
(** * Properties of the initial partitions and of the partition by contributions

    [Init_Partition] places the vertices like [Addr2Shard], [Stable_Init_Partition] leaves no
    shard empty.  [ContribChain_Partition] promises what [CLPA_Partition] does, and its early end
    loses no move.  Rewards go to exactly the accounts with a contribution. *)
From Stdlib Require Import SpecFloat.
From S2P Require Import Prelude Utils Partition PartitionFacts Contribution PLouvain PLouvainFacts ContribPartition.

(** ** Placing the vertices one after the other *)

(** The vertices [l] have been placed by [m] in [n] shards, and [nums] counts them. *)
Record placing (n : Z) (l : list Vertex) (m : gmap Vertex Z) (nums : list Z) : Prop := {
  pl_len : len nums = n;
  pl_in : ∀ v, v ∈ l → 0 ≤ shard_at m v < n;
  pl_nums : ∀ k, 0 ≤ k < n → at_ nums k = sumZ (λ v, b2z (shard_at m v =? k)) l;
}.

Lemma placing_none n : 0 ≤ n → placing n [] ∅ (replicate (Z.to_nat n) 0).
Proof.
  intros Hn. split; [by apply make_ints_ok|by intros v ?%elem_of_nil|].
  intros k _. apply at_replicate.
Qed.

Lemma moved_other (P : Vertex → Z) v s u : u ≠ v → moved P v s u = P u.
Proof. intros Hu. unfold moved. by rewrite decide_False. Qed.

Lemma placing_one n l m nums v s : placing n l m nums → v ∉ l → 0 ≤ s < n →
  ∃ nums', slice_add 1 s nums = Ok nums' ∧ placing n (l ++ [v]) (<[v := s]> m) nums'.
Proof.
  intros [Hl Hin Hn] Hv Hs. destruct (slice_add_ok 1 s nums) as (nums' & E & Hl' & Ha); [lia|].
  exists nums'. split; [done|].
  assert (∀ u, u ∈ l → shard_at (<[v := s]> m) u = shard_at m u) as Hold.
  { intros u Hu. rewrite shard_at_insert. apply moved_other. by intros ->. }
  assert (shard_at (<[v := s]> m) v = s) as Hnew by (unfold shard_at; by rewrite lookup_insert_eq).
  split; [lia| |].
  - intros u [Hu| ->%list_elem_of_singleton]%elem_of_app; [rewrite Hold by done; by apply Hin|by rewrite Hnew].
  - intros k Hk. rewrite Ha, (Hn k Hk), sumZ_app, sumZ_cons, Hnew by lia. cbn [sumZ].
    rewrite (sumZ_ext (λ u, b2z (shard_at (<[v := s]> m) u =? k)) (λ u, b2z (shard_at m u =? k)))
      by (intros u Hu; by rewrite Hold).
    cbn. eqb_cases.
Qed.

Lemma placing_graph cs E order m nums : edges_of (NetGraph cs) E → order ≡ₚ elements (VertexSet (NetGraph cs)) →
  placing (CShardNum cs) order m nums →
  graph_ok (cs <| PartitionMap := m |> <| VertexsNumInShard := nums |>) E.
Proof.
  intros HE Hord [Hl Hin Hn]. split; [done| |done|].
  - intros v Hv. apply Hin. rewrite Hord. by apply elem_of_elements.
  - intros k Hk. cbn. rewrite (Hn k Hk). apply sumZ_Permutation, Hord.
Qed.

(** ** [Init_Partition] *)

Lemma parse_int_hex s c l : chars s = c :: l → is_Some (hex_digit c) →
  ∀ num, ParseUint16 s = Some num → 0 ≤ num < 2 ^ 32 → ParseInt16 s = Some num.
Proof.
  intros Hs [d Hd] num Hnum Hr. unfold ParseInt16. rewrite Hs.
  assert (byte_of c =? 45 = false ∧ byte_of c =? 43 = false) as [-> ->].
  { unfold hex_digit in Hd. split; apply Z.eqb_neq; intros Hb; rewrite Hb in Hd; vm_compute in Hd; done. }
  cbn [orb]. rewrite Hnum. cbn. by rewrite (proj2 (Z.leb_gt _ _)) by lia.
Qed.

(** A vertex whose address has at least eight hexadecimal digits. *)
Definition long_hex (v : Vertex) : Prop := is_hex (Addr v) = true ∧ 8 ≤ len (chars (Addr v)).

Lemma init_vertex_ok `{Params} v : 0 < ShardNum → long_hex v → ∃ s, Addr2Shard (Addr v) = Ok s ∧ 0 ≤ s < ShardNum ∧
  ∀ m nums, init_vertex ShardNum (m, nums) v = (nums ← slice_add 1 s nums; Ok (<[v := s]> m, nums)).
Proof.
  intros Hn [Hh H8]. assert (Addr v ≠ "") as Hne by (intros He; rewrite He in H8; by vm_compute in H8).
  destruct (parse_last8 _ Hh Hne) as (num & Ep & Hr).
  assert (unchars (drop (length (chars (Addr v)) - 8) (chars (Addr v))) = last8 (Addr v)) as El.
  { unfold last8. cbv zeta. case_match eqn:E8; [done|]. zbool. unfold len in *.
    replace (length (chars (Addr v)) - 8)%nat with 0%nat by lia. by rewrite drop_0, unchars_chars. }
  assert (ParseInt16 (last8 (Addr v)) = Some num) as Ei.
  { pose proof (last8_hex _ Hh) as Hh'. pose proof (last8_nonempty _ Hne) as Hc. unfold is_hex in Hh'.
    destruct (chars (last8 (Addr v))) as [|c l] eqn:Ec; [done|]. cbn in Hh'.
    apply andb_true_iff in Hh' as [Hd%bool_decide_eq_true _]. by eapply parse_int_hex. }
  destruct (go_rem_range num ShardNum) as (s & Es & _ & Hs); [lia|lia|]. exists s.
  split; [unfold Addr2Shard; by rewrite Ep, i64_small by lia|]. split; [done|].
  intros m nums. unfold init_vertex. rewrite (proj2 (Z.ltb_ge _ _)) by lia. by rewrite El, Ei, Es.
Qed.

(** The initial partition by addresses.  For every order in which the vertices are visited,
    [Init_Partition] places each of them in the shard of [Addr2Shard], and its counters are right. *)
Theorem init_partition_spec `{Params} (order : list Vertex) (cs : CLPAState) (E : list edge) :
  edges_of (NetGraph cs) E → order ≡ₚ elements (VertexSet (NetGraph cs)) → CShardNum cs = ShardNum → 0 < ShardNum →
  Forall long_hex order →
  ∃ cs', Init_Partition order cs = Ok cs' ∧ graph_ok cs' E ∧ stats_ok cs' E ∧ NetGraph cs' = NetGraph cs ∧
    ∀ v, v ∈ VertexSet (NetGraph cs) → Addr2Shard (Addr v) = Ok (shard_at (PartitionMap cs') v).
Proof.
  intros HE Hord Hs Hpos Hhex. unfold Init_Partition. destruct (make_ints_ok (CShardNum cs)) as [-> _]; [lia|].
  cbn [mbind go_bind].
  assert (∀ l l0 m nums, NoDup (l0 ++ l) → Forall long_hex l → placing ShardNum l0 m nums →
    (∀ v, v ∈ l0 → Addr2Shard (Addr v) = Ok (shard_at m v)) →
    ∃ r, go_fold (init_vertex ShardNum) (m, nums) l = Ok r ∧ placing ShardNum (l0 ++ l) r.1 r.2 ∧
      ∀ v, v ∈ l0 ++ l → Addr2Shard (Addr v) = Ok (shard_at r.1 v)) as Hloop.
  { clear -Hpos. induction l as [|v l IH]; intros l0 m nums Hnd Hh Hpl Ha; cbn [go_fold].
    { exists (m, nums). by rewrite app_nil_r. }
    apply Forall_cons in Hh as [Hv Hh]. destruct (init_vertex_ok v Hpos Hv) as (s & Es & Hs & ->).
    assert (v ∉ l0) as Hnew.
    { apply NoDup_app in Hnd as (_ & Hd & _). intros Hin. apply (Hd v Hin), list_elem_of_here. }
    destruct (placing_one _ _ _ _ v s Hpl Hnew Hs) as (nums' & -> & Hpl'). cbn [mbind go_bind].
    rewrite (cons_middle v l0 l), app_assoc in Hnd |- *. apply IH; [done..|].
    intros u [Hu| ->%list_elem_of_singleton]%elem_of_app; rewrite shard_at_insert.
    - rewrite moved_other; [by apply Ha|]. by intros ->.
    - unfold moved. by rewrite decide_True. }
  destruct (Hloop order [] ∅ (replicate (Z.to_nat ShardNum) 0)) as ([m nums] & Er & Hpl & Ha);
    [rewrite Hord; apply NoDup_elements|done|apply placing_none; lia|by intros v ?%elem_of_nil|].
  rewrite Hs, Er. cbn [mbind go_bind fst snd]. rewrite <-Hs in Hpl.
  pose proof (placing_graph cs E order m nums HE Hord Hpl) as Hg.
  destruct (compute_spec _ E (go_edges _ _ Hg) (go_placed _ _ Hg)) as (e & c & mn & -> & Hst); [cbn; lia|].
  eexists. split; [done|]. split; [by apply graph_ok_stats|]. split; [done|]. split; [done|].
  intros v Hv. apply (Ha v). cbn. rewrite Hord. by apply elem_of_elements.
Qed.

(** ** [Stable_Init_Partition] *)

(** The initial partition in turn.  With at least as many vertices as shards, and in whatever
    order the vertices are visited, [Stable_Init_Partition] gives no error, leaves no shard empty
    and its counters are right; with fewer vertices it gives the error. *)
Theorem stable_init_spec (order : list Vertex) (cs : CLPAState) (E : list edge) :
  edges_of (NetGraph cs) E → order ≡ₚ elements (VertexSet (NetGraph cs)) → 0 < CShardNum cs →
  if len order <? CShardNum cs then
    Stable_Init_Partition order cs = Ok (inl "too many shards, number of shards should be less than nodes. ")
  else ∃ cs', Stable_Init_Partition order cs = Ok (inr cs') ∧ graph_ok cs' E ∧ stats_ok cs' E ∧
    ∀ k, 0 ≤ k < CShardNum cs → 1 ≤ at_ (VertexsNumInShard cs') k.
Proof.
  intros HE Hord Hpos. unfold Stable_Init_Partition.
  assert (Z.of_nat (size (VertexSet (NetGraph cs))) = len order) as -> by (unfold len; by rewrite Hord).
  destruct (len order <? CShardNum cs) eqn:Elt; [done|]. zbool.
  destruct (make_ints_ok (CShardNum cs)) as [-> _]; [lia|]. cbn [mbind go_bind].
  assert (∀ l l0 m nums, NoDup (l0 ++ l) → placing (CShardNum cs) l0 m nums →
    (∀ i v, l0 !! i = Some v → shard_at m v = Z.of_nat i mod CShardNum cs) →
    ∃ m' nums', go_fold (place_vertex (CShardNum cs)) (m, nums, len l0) l = Ok (m', nums', len (l0 ++ l)) ∧
      placing (CShardNum cs) (l0 ++ l) m' nums' ∧
      ∀ i v, (l0 ++ l) !! i = Some v → shard_at m' v = Z.of_nat i mod CShardNum cs) as Hloop.
  { clear -Hpos. induction l as [|v l IH]; intros l0 m nums Hnd Hpl Ha; cbn [go_fold].
    { exists m, nums. by rewrite app_nil_r. }
    assert (v ∉ l0) as Hnew.
    { apply NoDup_app in Hnd as (_ & Hd & _). intros Hin. apply (Hd v Hin), list_elem_of_here. }
    destruct (go_rem_range (len l0) (CShardNum cs)) as (s & Es & Hs & Hr); [apply len_nonneg|done|].
    destruct (placing_one _ _ _ _ v s Hpl Hnew Hr) as (nums' & En & Hpl').
    assert (place_vertex (CShardNum cs) (m, nums, len l0) v = Ok (<[v := s]> m, nums', len (l0 ++ [v]))) as ->
      by (unfold place_vertex; rewrite Es; cbn [mbind go_bind]; by rewrite En, len_app).
    cbn [mbind go_bind].
    rewrite (cons_middle v l0 l), app_assoc in Hnd |- *. apply IH; [done..|].
    intros i u [Hi|[Hi Hu]]%lookup_app_Some; rewrite shard_at_insert.
    - rewrite moved_other; [by apply Ha|]. intros ->. by apply list_elem_of_lookup_2 in Hi.
    - apply list_lookup_singleton_Some in Hu as [Hi0 <-]. unfold moved. rewrite decide_True by done.
      rewrite Hs. f_equal. unfold len. lia. }
  destruct (Hloop order [] ∅ (replicate (Z.to_nat (CShardNum cs)) 0)) as (m & nums & Er & Hpl & Ha);
    [rewrite Hord; apply NoDup_elements|apply placing_none; lia|by intros|].
  change (len (@nil Vertex)) with 0 in Er. rewrite Er. cbn [mbind go_bind fst snd].
  pose proof (placing_graph cs E order m nums HE Hord Hpl) as Hg.
  destruct (compute_spec _ E (go_edges _ _ Hg) (go_placed _ _ Hg)) as (e & c & mn & -> & Hst); [cbn; lia|].
  eexists. split; [done|]. split; [by apply graph_ok_stats|]. split; [done|].
  intros k Hk. cbn. rewrite (pl_nums _ _ _ _ Hpl k Hk). cbn [app].
  destruct (lookup_lt_is_Some_2 order (Z.to_nat k)) as [v Hv]; [unfold len in Elt; lia|].
  specialize (Ha _ _ Hv). rewrite Z2Nat.id, Z.mod_small in Ha by lia.
  apply list_elem_of_lookup_2, list_elem_of_split in Hv as (l1 & l2 & ->).
  rewrite sumZ_app, sumZ_cons, Ha, Z.eqb_refl. cbn.
  assert (∀ l, 0 ≤ sumZ (λ v, b2z (shard_at m v =? k)) l) as Hnn
    by (intros; apply sumZ_nonneg; intros; by destruct (_ =? _)).
  pose proof (Hnn l1). pose proof (Hnn l2). lia.
Qed.

(** ** [ContribChain_Partition] *)

Lemma change_at_ok f i l : 0 ≤ i < len l → ∃ l', change_at f i l = Ok l' ∧ len l' = len l.
Proof.
  intros Hi. unfold change_at. destruct (get_at_ok i l Hi) as [x ->]. cbn [mbind go_bind]. by apply set_at_ok.
Qed.

(** The run as one of [CLPA_Partition]. *)
Definition run_of (st : contrib_run) : clpa_run := mkRun (clpa (c_cs st)) (c_res st) (c_thr st).

(** What the run keeps. *)
Record contrib_run_ok (E : list edge) (cs0 : CLPAState) (st : contrib_run) : Prop := {
  cr_run : run_ok E cs0 (run_of st);
  cr_len : len (ContribInShard (c_cs st)) = CShardNum cs0;
  cr_calc : is_Some (ContribCalculator (c_cs st));
}.

Lemma best_shard_Contrib_ok E cs0 st v : contrib_run_ok E cs0 st → v ∈ VertexSet (NetGraph cs0) →
  ∃ s, best_shard_Contrib (c_cs st) v = Ok s ∧ 0 ≤ s < CShardNum cs0.
Proof.
  intros [[Hg Hst [HG HS] _ _ _] Hl [cc Hcc]] Hv. cbn [r_cs run_of] in *. unfold best_shard_Contrib.
  destruct (go_fold_total (score_neighbor_Contrib (c_cs st) v) (λ acc, 0 ≤ acc.2 < CShardNum cs0)
    (∅, fl_of (-9999), shard_at (PartitionMap (clpa (c_cs st))) v) (adj (NetGraph (clpa (c_cs st))) v))
    as (r & -> & Hr).
  - rewrite <-HS. apply (go_placed _ _ Hg). by rewrite HG.
  - intros [[sc mx] ms] u Hu Hacc. unfold score_neighbor_Contrib. destruct (sc !! _); [by eexists|].
    pose proof (adj_placed _ v u E Hg Hu) as Hs. pose proof (so_len _ _ Hst) as Hls.
    pose proof (go_len _ _ Hg) as Hln. set (s := shard_at _ u) in *.
    assert (∃ f, getShard_score_Contrib (c_cs st) v s = Ok f) as [f ->].
    { unfold getShard_score_Contrib. case_match; [by eexists|].
      destruct (score_ok (clpa (c_cs st)) v s) as [b ->]; [lia|]. unfold calculator. rewrite Hcc.
      cbn [mbind go_bind]. rewrite slice_get_ok by lia. cbn [mbind go_bind].
      destruct (get_at_ok s (ContribInShard (c_cs st))) as [c ->]; [lia|]. by eexists. }
    cbn [mbind go_bind]. eexists. split; [done|]. rewrite HS in Hs. by case_match.
  - by exists r.2.
Qed.

Lemma contrib_visit_ok E cs0 st v :
  (∀ v, (v, v) ∉ E) → contrib_run_ok E cs0 st → CShardNum cs0 < two64 → v ∈ VertexSet (NetGraph cs0) →
  ∃ st', contrib_visit st v = Ok st' ∧ contrib_run_ok E cs0 st'.
Proof.
  intros Hlp Hok H64 Hv. pose proof Hok as [Hrun Hl [cc Hcc]]. pose proof Hrun as [Hg Hst [HG HS] _ _ _].
  cbn [r_cs run_of] in *. unfold contrib_visit. case_match; [by eexists|].
  destruct (best_shard_Contrib_ok E cs0 st v Hok Hv) as (new & -> & Hnew). cbn [mbind go_bind].
  destruct (negb _) eqn:Ene; [|by eexists]. zbool.
  pose proof Hg as [HE Hp Hnl Hn]. pose proof (Hp v ltac:(by rewrite HG)) as Hold.
  set (old := shard_at (PartitionMap (clpa (c_cs st))) v) in *.
  rewrite slice_get_ok by lia. cbn [mbind go_bind].
  destruct (1 <? _) eqn:E1; [|by eexists]. zbool. rewrite (Hn _ Hold), HG in E1.
  unfold contrib_move, calculator. rewrite Hcc. cbn [mbind go_bind].
  destruct (change_at_ok (λ x, fsub x (cc_GetContribution cc v)) old (ContribInShard (c_cs st))) as (l1 & -> & L1); [lia|].
  cbn [mbind go_bind]. destruct (change_at_ok (λ x, fadd x (cc_GetContribution cc v)) new l1) as (l2 & -> & L2); [lia|].
  cbn [mbind go_bind].
  destruct (slice_add_ok (-1) old (VertexsNumInShard (clpa (c_cs st)))) as (n1 & -> & N1 & A1); [lia|].
  cbn [mbind go_bind]. destruct (slice_add_ok 1 new n1) as (n2 & -> & N2 & A2); [lia|]. cbn [mbind go_bind].
  pose (cs' := (clpa (c_cs st)) <| PartitionMap ::= <[v := new]> |> <| VertexsNumInShard := n2 |>).
  destruct (recompute_spec (clpa (c_cs st)) cs' v new E) as (e & c & m & Er & Hst'); try done; [by rewrite HS|].
  unfold cs' in Er. fold old in Er. rewrite Er. cbn [mbind go_bind]. eexists. split; [done|].
  split; [|cbn; lia|by exists cc].
  apply (visit_moves E cs0 (run_of st) v new n2 e c m); try done; [lia|].
  intros k Hk. rewrite A2, A1 by done. cbn [r_cs run_of]. fold old. destruct (k =? new), (k =? old); lia.
Qed.

Lemma contrib_rounds_ok E cs0 orders :
  (∀ v, (v, v) ∉ E) → CShardNum cs0 < two64 →
  (∀ i v, v ∈ orders i → v ∈ VertexSet (NetGraph cs0)) →
  ∀ fuel iter st, contrib_run_ok E cs0 st →
  ∃ st', contrib_rounds orders fuel iter st = Ok st' ∧ contrib_run_ok E cs0 st'.
Proof.
  intros Hlp H64 Ho. induction fuel as [|fuel IH]; intros iter st Hst; [by eexists|]. cbn [contrib_rounds].
  destruct (go_fold_total contrib_visit (contrib_run_ok E cs0) (st <| c_moved := false |>) (orders iter))
    as (st' & -> & Hst'); [by destruct Hst| |].
  { intros t v Hv%Ho Ht. by apply contrib_visit_ok. }
  cbn [mbind go_bind]. case_match; [by apply IH|by eexists].
Qed.

(** *** The early end *)

(** The loop without [break]. *)
Fixpoint contrib_all_rounds (orders : nat → list Vertex) (fuel iter : nat) (st : contrib_run) : go contrib_run :=
  match fuel with
  | O => Ok st
  | S fuel =>
      st ← go_fold contrib_visit (st <| c_moved := false |>) (orders iter);
      contrib_all_rounds orders fuel (S iter) st
  end.

Lemma visit_cases st v st' : contrib_visit st v = Ok st' → st' = st ∨ c_moved st' = true.
Proof.
  unfold contrib_visit. case_match; [intros [= <-]; by left|].
  intros (new & _ & Hx)%go_bind_inv. case_match; [|injection Hx as <-; by left].
  apply go_bind_inv in Hx as (n & _ & Hx). case_match; [|injection Hx as <-; by left].
  unfold contrib_move in Hx. repeat apply go_bind_inv in Hx as (? & _ & Hx). injection Hx as <-. by right.
Qed.

(** A round after which [moved] is false has changed nothing, and found nothing to change. *)
Lemma fold_still l : ∀ st st', go_fold contrib_visit st l = Ok st' → c_moved st' = false →
  st' = st ∧ ∀ v, v ∈ l → contrib_visit st v = Ok st.
Proof.
  induction l as [|v l IH]; intros st st'.
  - intros [= <-] _. split; [done|]. by intros v ?%elem_of_nil.
  - cbn. intros (st1 & E1 & El)%go_bind_inv Hm. destruct (visit_cases _ _ _ E1) as [->|H1].
    + destruct (IH _ _ El Hm) as [-> Hl]. split; [done|]. intros u [->|Hu]%elem_of_cons; [done|by apply Hl].
    + assert (c_moved st' = true) as H2; [|congruence].
      eapply (go_fold_inv contrib_visit (λ t, c_moved t = true)); [exact H1| |exact El].
      intros t t' x _ Ht Hx. by destruct (visit_cases _ _ _ Hx) as [->|].
Qed.

Lemma still_rounds orders st : c_moved st = false → (∀ i v, v ∈ orders i → contrib_visit st v = Ok st) →
  ∀ fuel iter, contrib_all_rounds orders fuel iter st = Ok st.
Proof.
  intros Hm Hstill. assert (st <| c_moved := false |> = st) as Hst by (destruct st; cbn in *; by subst).
  induction fuel as [|fuel IH]; intros iter; [done|]. cbn [contrib_all_rounds]. rewrite Hst.
  destruct (go_fold_total contrib_visit (eq st) st (orders iter)) as (st' & -> & <-); [done| |by apply IH].
  intros t v Hv <-. exists st. by rewrite (Hstill iter v Hv).
Qed.

Lemma early_end orders : (∀ i j v, v ∈ orders i → v ∈ orders j) → ∀ fuel iter st st',
  contrib_rounds orders fuel iter st = Ok st' → contrib_all_rounds orders fuel iter st = Ok st'.
Proof.
  intros Ho. induction fuel as [|fuel IH]; intros iter st st'; [done|]. cbn [contrib_rounds contrib_all_rounds].
  intros (st1 & E1 & Hr)%go_bind_inv. rewrite E1. cbn [mbind go_bind].
  destruct (c_moved st1) eqn:Em; [by apply IH|]. injection Hr as <-.
  destruct (fold_still _ _ _ E1 Em) as [-> Hstill]. apply still_rounds; [done|].
  intros i v Hv. apply Hstill. by eapply Ho.
Qed.

(** *** The whole function *)

Lemma start_ok E mapOrder cs cc :
  graph_ok (clpa cs) E → map_ok (clpa cs) → 0 ≤ CShardNum (clpa cs) →
  mapOrder ≡ₚ elements (dom (PartitionMap (clpa cs))) →
  EnableContrib cs = true → ContribCalculator cs = Some cc →
  ∃ st, contrib_start mapOrder cs = Ok st ∧ contrib_run_ok E (clpa cs) st.
Proof.
  intros Hg [Hm _] Hn Hord He Hc. unfold contrib_start, calculator. rewrite Hc. cbn [mbind go_bind].
  destruct (compute_spec (clpa cs) E (go_edges _ _ Hg) (go_placed _ _ Hg) Hn) as (e & c & m & -> & Hst).
  cbn [mbind go_bind]. unfold ComputeContribInShard.
  match goal with |- context [EnableContrib ?c] => set (cs1 := c) end.
  assert (EnableContrib cs1 = true) as -> by done.
  assert (ContribCalculator cs1 = Some (CalculateAllContributions cc)) as -> by done.
  assert (CShardNum (clpa cs1) = CShardNum (clpa cs) ∧ PartitionMap (clpa cs1) = PartitionMap (clpa cs)) as [-> ->] by done.
  destruct (make_floats_ok (CShardNum (clpa cs))) as (z & -> & Hz); [done|]. cbn [mbind go_bind].
  match goal with |- context [go_fold ?f z mapOrder] =>
    destruct (go_fold_total f (λ l, len l = CShardNum (clpa cs)) z mapOrder) as (l & -> & Hl); [done| |] end.
  { intros l v Hv Hl. rewrite Hord, elem_of_elements, elem_of_dom in Hv. destruct Hv as [s Hs].
    rewrite <-Hl. apply change_at_ok. unfold shard_at. rewrite Hs. cbn. rewrite Hl. by apply (Hm v). }
  cbn [mbind go_bind]. eexists. split; [done|]. split; [|exact Hl|by eexists].
  split; [by apply graph_ok_stats|exact Hst|done|by intros|done|by intros].
Qed.

(** C38: the partition by contributions.  On a graph without loops, for all contributions and
    weights and any visiting orders, [ContribChain_Partition] returns: the accounts in its map are
    vertices and move to existing shards, all others keep their place, the number returned is the
    number of edges between shards, the sizes of the shards are right and a shard that had an
    account still has one.  And the early end is an optimisation only: the loop without [break]
    for all of [MaxIterations] reaches the same map. *)
Theorem contrib_partition_spec (cs : ContribCLPA) (cc : ContributionCalculator) (E : list edge)
    (mapOrder : list Vertex) (orders : nat → list Vertex) :
  graph_ok (clpa cs) E → map_ok (clpa cs) → (∀ v, (v, v) ∉ E) → 0 ≤ CShardNum (clpa cs) < two64 →
  EnableContrib cs = true → ContribCalculator cs = Some cc →
  mapOrder ≡ₚ elements (dom (PartitionMap (clpa cs))) →
  (∀ i, orders i ≡ₚ elements (VertexSet (NetGraph (clpa cs)))) →
  ∃ cs' res x st0 st, ContribChain_Partition mapOrder orders cs = Ok (cs', res, x) ∧
    NetGraph (clpa cs') = NetGraph (clpa cs) ∧
    (∀ v, shard_at (PartitionMap (clpa cs')) v = default (shard_at (PartitionMap (clpa cs)) v) (res !! Addr v)) ∧
    (∀ a s, res !! a = Some s → mkVertex a ∈ VertexSet (NetGraph (clpa cs)) ∧ 0 ≤ s < CShardNum (clpa cs)) ∧
    x = cross_edges E (shard_at (PartitionMap (clpa cs'))) ∧
    (∀ k, 0 ≤ k < CShardNum (clpa cs) →
      at_ (VertexsNumInShard (clpa cs')) k = vertices_in (NetGraph (clpa cs)) (shard_at (PartitionMap (clpa cs'))) k ∧
      (1 ≤ at_ (VertexsNumInShard (clpa cs)) k → 1 ≤ at_ (VertexsNumInShard (clpa cs')) k)) ∧
    contrib_start mapOrder cs = Ok st0 ∧
    contrib_all_rounds orders (Z.to_nat (MaxIterations (clpa cs))) 0 st0 = Ok st ∧
    PartitionMap (clpa (c_cs st)) = PartitionMap (clpa cs') ∧ c_res st = res.
Proof.
  intros Hg Hm Hlp Hn He Hc Hmo Ho. unfold ContribChain_Partition.
  destruct (start_ok E mapOrder cs cc Hg Hm (proj1 Hn) Hmo He Hc) as (st0 & -> & Hst0). cbn [mbind go_bind].
  destruct (contrib_rounds_ok E (clpa cs) orders Hlp (proj2 Hn)) with (fuel := Z.to_nat (MaxIterations (clpa cs)))
    (iter := 0%nat) (st := st0) as (st & Er & [Hrun Hl _]); [|done|].
  { intros i v. by rewrite Ho, elem_of_elements. }
  rewrite Er. cbn [mbind go_bind]. pose proof Hrun as [Hgs _ [HG HS] Hres Hkeys Hfull]. cbn [r_cs r_res run_of] in *.
  rewrite (proj2 (Z.ltb_ge _ _)) by (rewrite Hl, (go_len _ _ Hgs); lia).
  destruct (compute_spec _ E (go_edges _ _ Hgs) (go_placed _ _ Hgs)) as (e & c & m & -> & Hst); [lia|].
  cbn [mbind go_bind]. eexists _, _, _, st0, st. split; [done|].
  split; [exact HG|]. split; [exact Hres|]. split; [exact Hkeys|]. split; [exact (so_cross _ _ Hst)|]. split.
  - intros k Hk. pose proof (go_nums _ _ Hgs k ltac:(rewrite HS; exact Hk)) as Hnum. rewrite HG in Hnum.
    split; [exact Hnum|]. intros H1. change (1 ≤ at_ (VertexsNumInShard (clpa (c_cs st))) k). rewrite Hnum.
    apply Hfull; [done|]. by rewrite <-(go_nums _ _ Hg k Hk).
  - split; [done|]. split; [|done]. apply early_end; [|exact Er]. intros i j v. by rewrite !Ho.
Qed.

(** ** Rewards *)

Lemma pay_fold cc total R l : ∀ inc pool,
  ∃ inc' pool', go_fold (pay cc total R) (inc, Some pool) l = Ok (inc', Some pool') ∧
    (∀ v, inc' !! Addr v = if decide (v ∈ l ∧ is_Some (Contributions cc !! v))
       then reward_of total R <$> Contributions cc !! v else inc !! Addr v) ∧
    ∀ v, pool' !! v = if decide (v ∈ l ∧ is_Some (Contributions cc !! v))
       then reward_of total R <$> Contributions cc !! v else pool !! v.
Proof.
  induction l as [|u l IH]; intros inc pool; cbn [go_fold].
  - exists inc, pool. split; [done|]. split; intros v; rewrite decide_False; [done| |done|]; by intros [?%elem_of_nil _].
  - unfold pay at 2. cbn [fst snd].
    destruct (Contributions cc !! u) as [m|] eqn:Eu; cbn [mbind go_bind].
    + destruct (IH (<[Addr u := reward_of total R m]> inc) (<[u := reward_of total R m]> pool))
        as (inc' & pool' & -> & Hi & Hp).
      exists inc', pool'. split; [done|]. split; intros v; rewrite ?Hi, ?Hp.
      all: destruct (decide (v = u)) as [->|Hne].
      all: try (rewrite (decide_True (P := u ∈ u :: l ∧ _)) by (split; [apply list_elem_of_here|by eexists]);
                case_decide; [done|by rewrite lookup_insert_eq, Eu]).
      all: assert (v ∈ u :: l ↔ v ∈ l) as Hin by (rewrite elem_of_cons; naive_solver).
      all: rewrite lookup_insert_ne by (try done; intros Ha; apply Hne; destruct u, v; cbn in Ha; by subst).
      all: by apply decide_ext; rewrite Hin.
    + destruct (IH inc pool) as (inc' & pool' & -> & Hi & Hp). exists inc', pool'. split; [done|].
      assert (∀ v, v ∈ u :: l ∧ is_Some (Contributions cc !! v) ↔ v ∈ l ∧ is_Some (Contributions cc !! v)) as Hin.
      { intros v. rewrite elem_of_cons. split; [intros [[->|?] Hs]|]; [by rewrite Eu in Hs; destruct Hs|done|naive_solver]. }
      split; intros v; rewrite ?Hi, ?Hp; apply decide_ext; by rewrite Hin.
Qed.

(** The rewards.  Where the contributions add up to something, exactly the accounts with a
    contribution get their share of the reward; in the pool the last reward of every other account
    stays.  Where they do not, nobody gets anything. *)
Theorem incentives_spec (cs : ContribCLPA) (cc : ContributionCalculator) (pool : gmap Vertex float)
    (order order' : list Vertex) (R : float) :
  EnableContrib cs = true → ContribCalculator cs = Some cc → IncentivePool cs = Some pool →
  order' ≡ₚ elements (dom (Contributions cc)) →
  if SFeqb (GetTotalContribution order cc) fl_zero then CalculateIncentives order order' R cs = Ok (cs, None)
  else ∃ inc pool', CalculateIncentives order order' R cs = Ok (cs <| IncentivePool := Some pool' |>, Some inc) ∧
    (∀ a, inc !! a = reward_of (GetTotalContribution order cc) R <$> Contributions cc !! mkVertex a) ∧
    ∀ v, pool' !! v = match Contributions cc !! v with
                      | Some m => Some (reward_of (GetTotalContribution order cc) R m)
                      | None => pool !! v
                      end.
Proof.
  intros He Hc Hp Hord. unfold CalculateIncentives. rewrite He, Hc. destruct (SFeqb _ _); [done|].
  rewrite Hp. destruct (pay_fold cc (GetTotalContribution order cc) R order' ∅ pool) as (inc & pool' & -> & Hi & Hq).
  cbn [mbind go_bind fst snd]. exists inc, pool'. split; [done|].
  assert (∀ v, v ∈ order' ↔ is_Some (Contributions cc !! v)) as Hin
    by (intros v; by rewrite Hord, elem_of_elements, elem_of_dom).
  split; [intros a; specialize (Hi (mkVertex a)); cbn [Addr] in Hi; rewrite Hi|intros v; rewrite Hq].
  all: destruct (Contributions cc !! _) as [m|] eqn:E.
  all: first [rewrite decide_True by (rewrite Hin, E; by split; eexists)|rewrite decide_False by (intros [_ [? [=]]])].
  all: done.
Qed.

(** ** Witnesses: the accounts of [PartitionExample] *)
Module ContribPartitionExample.
Import PartitionExample.
#[local] Existing Instance default_params.

(** The account [vA] has two transactions inside its shard. *)
Definition calc : ContributionCalculator :=
  cc_UpdateContribution vA true 0 (cc_UpdateContribution vA true 0 (cc_UpdateContribution vC false 0
    NewContributionCalculator)).

Lemma contrib_partition_spec_witness :
  ∃ cs mapOrder orders cs' res x, ContribChain_Partition mapOrder orders cs = Ok (cs', res, x) ∧
    NetGraph (clpa cs') = NetGraph (clpa cs) ∧ x = cross_edges edges4 (shard_at (PartitionMap (clpa cs'))).
Proof.
  destruct (init_ok half 100 shards_pos) as (cs0 & _ & Hg0 & Hm0 & Hs0 & _).
  destruct (add_edges_ok edges4 cs0 [] Hg0 Hm0 edges4_ok Hs0 shards_pos) as (cs & _ & Hg & Hm & Hs).
  destruct (contrib_partition_spec (mkContribCLPA cs (Some calc) [] half (Some ∅) true) calc edges4
    (elements (dom (PartitionMap cs))) (λ _, elements (VertexSet (NetGraph cs))) Hg Hm no_loops)
    as (cs' & res & x & _ & _ & Ec & HG & _ & _ & Hx & _).
  - cbn [clpa]. by rewrite Hs, Hs0.
  - reflexivity.
  - reflexivity.
  - reflexivity.
  - intros _. reflexivity.
  - eexists _, _, _, cs', res, x. split; [exact Ec|]. split; [exact HG|exact Hx].
Defined.

(** The graph of [partition_run], with contributions. *)
Definition start5 (mIter : Z) : go ContribCLPA :=
  cs ← Init_ContribCLPA half mIter 4;
  base ← add_edges (edges4 ++ [(vE, vD); (vE, vD)]) (clpa cs);
  cs ← EnableContribChain half (cs <| clpa := base |>);
  Ok (cs <| ContribCalculator := Some calc |>).

Definition order5 : list Vertex := [vA; vB; vC; vD; vE].
Definition run5 (mIter : Z) : go (list (string * Z) * Z) :=
  cs ← start5 mIter; r ← ContribChain_Partition order5 (λ _, order5) cs; Ok (map_to_list r.1.2, r.2).

(** Three accounts move in the first round, and one edge less crosses shards; they go on moving, and
    after four rounds all three are back where they were: the map then names accounts that stay. *)
Example contrib_run_oscillates :
  run5 1 = Ok ([("00000003", 1); ("00000001", 2); ("00000002", 0)], 4) ∧
  run5 4 = Ok ([("00000003", 3); ("00000001", 1); ("00000002", 2)], 5) ∧
  run5 5 = run5 1 ∧ run5 8 = run5 4.
Proof. vm_compute. done. Qed.

Lemma incentives_spec_witness :
  ∃ cs inc pool', CalculateIncentives [vA; vC] [vC; vA] (fl_of 10) cs =
      Ok (cs <| IncentivePool := Some pool' |>, Some inc) ∧
    inc !! "00000003" = Some (fl_of 10) ∧ inc !! "00000007" = None.
Proof.
  exists (mkContribCLPA zero_state (Some calc) [] half (Some ∅) true).
  destruct (incentives_spec (mkContribCLPA zero_state (Some calc) [] half (Some ∅) true) calc ∅
    [vA; vC] [vC; vA] (fl_of 10) eq_refl eq_refl eq_refl) as (inc & pool' & Er & Hi & _).
  - apply (bool_decide_eq_true_1 (_ ≡ₚ _)). vm_compute. reflexivity.
  - exists inc, pool'. split; [exact Er|]. split; rewrite Hi; vm_compute; reflexivity.
Defined.

(** A single edge, in four shards and in two. *)
Definition pair_state (sn : Z) : CLPAState :=
  zero_state <| NetGraph := Graph_AddEdge vA vC (mkGraph ∅ ∅) |> <| CShardNum := sn |>.

Lemma pair_edges sn : edges_of (NetGraph (pair_state sn)) [(vA, vC)].
Proof. apply (add_edge_edges vA vC (mkGraph ∅ ∅) []). by split. Qed.

Lemma pair_order sn : [vA; vC] ≡ₚ elements (VertexSet (NetGraph (pair_state sn))).
Proof. apply (bool_decide_eq_true_1 (_ ≡ₚ _)). vm_compute. reflexivity. Qed.

Lemma init_partition_spec_witness :
  ∃ cs', Init_Partition [vA; vC] (pair_state 4) = Ok cs' ∧ graph_ok cs' [(vA, vC)] ∧
    @Addr2Shard default_params (Addr vA) = Ok (shard_at (PartitionMap cs') vA).
Proof.
  destruct (@init_partition_spec default_params [vA; vC] (pair_state 4) [(vA, vC)] (pair_edges 4) (pair_order 4)
    eq_refl shards_pos) as (cs' & E & Hg & _ & _ & Ha).
  - repeat apply Forall_cons_2; [..|by apply Forall_nil]; split; [reflexivity|done|reflexivity|done].
  - exists cs'. split; [exact E|]. split; [exact Hg|]. apply Ha.
    apply elem_of_elements. rewrite <-(pair_order 4). apply list_elem_of_here.
Defined.

Lemma stable_init_spec_witness :
  (∃ cs', Stable_Init_Partition [vA; vC] (pair_state 2) = Ok (inr cs') ∧ 1 ≤ at_ (VertexsNumInShard cs') 1) ∧
  ∃ e, Stable_Init_Partition [vA; vC] (pair_state 3) = Ok (inl e).
Proof.
  split.
  - destruct (stable_init_spec [vA; vC] (pair_state 2) _ (pair_edges 2) (pair_order 2) eq_refl) as (cs' & E & _ & _ & H1).
    exists cs'. split; [exact E|]. apply (H1 1). change (0 ≤ 1 < 2). lia.
  - eexists. exact (stable_init_spec [vA; vC] (pair_state 3) _ (pair_edges 3) (pair_order 3) eq_refl).
Defined.
End ContribPartitionExample.
