(* ===== verification/CopyState.v ===== *)
(** * Copying a partition state ([CopyGraph], [CopyCLPA])

    A copy duplicates the maps and most slices, but takes over the slice of the shard sizes: the
    copy and the original share it.  States are therefore held in variables whose sizes live in a
    store, so that the sharing is visible.  The nil map of edges and the nil slice of
    contributions are the empty ones: [AddEdge] and [EnableContribChain] create them filled. *)
From Stdlib Require Import SpecFloat.
From S2P Require Import Prelude Utils Partition PartitionFacts Contribution PLouvain ContribPartition.

(** [make] and [copy] *)
Definition copy_into {A} (zero : A) (n : Z) (l : list A) : go (list A) :=
  if n <? 0 then Panic "makeslice: len out of range"
  else Ok (take (Z.to_nat n) l ++ replicate (Z.to_nat n - length l) zero).

Definition CopyGraph (src dst : Graph) : Graph :=
  mkGraph (VertexSet src)
    (if decide (EdgeSet src = ∅) then EdgeSet dst else set_to_map (λ v, (v, adj src v)) (VertexSet src)).

(** A state in a variable: its sizes are the slice at [var_sizes] in the store. *)
Record clpa_var := mkVar { var_state : ContribCLPA; var_sizes : positive }.
Abbreviation store := (gmap positive (list Z)).

Definition load (h : store) (x : clpa_var) : ContribCLPA :=
  (var_state x) <| clpa ::= λ c, c <| VertexsNumInShard := default [] (h !! var_sizes x) |> |>.

(** [CrossShardEdgeNum] and [ContribCalculator] of the destination stay. *)
Definition CopyCLPA (src dst : clpa_var) : go clpa_var :=
  let s := var_state src in
  let d := var_state dst in
  e ← copy_into 0 (CShardNum (clpa s)) (Edges2Shard (clpa s));
  c ← (match ContribInShard s with [] => Ok (ContribInShard d) | l => copy_into fl_zero (CShardNum (clpa s)) l end);
  Ok (mkVar (mkContribCLPA
    (mkCLPAState (CopyGraph (NetGraph (clpa s)) (NetGraph (clpa d))) (PartitionMap (clpa s)) e [] (WeightPenalty (clpa s))
       (MinEdges2Shard (clpa s)) (MaxIterations (clpa s)) (CrossShardEdgeNum (clpa d)) (CShardNum (clpa s)))
    (ContribCalculator d) c (ContribWeight s)
    (match IncentivePool s with None => IncentivePool d | p => p end) (EnableContrib s)) (var_sizes src)).

Section var.
Context `{Params}.

(** [AddVertex] on a variable: the sizes are changed in place. *)
Definition var_AddVertex (v : Vertex) (x : clpa_var) (h : store) : go (clpa_var * store) :=
  cs ← AddVertex v (clpa (load h x));
  Ok (mkVar ((var_state x) <| clpa := cs |>) (var_sizes x), <[var_sizes x := VertexsNumInShard cs]> h).

(** ** What a copy has *)
Lemma copy_graph_same g dst E : edges_of g E → (∀ v l, EdgeSet g !! v = Some l → l ≠ []) → dst = mkGraph ∅ ∅ →
  VertexSet (CopyGraph g dst) = VertexSet g ∧ ∀ v, adj (CopyGraph g dst) v = adj g v.
Proof.
  intros HE Hne ->. unfold CopyGraph. split; [done|]. intros v. unfold adj at 1. cbn [EdgeSet].
  case_decide as Hd; [unfold adj; by rewrite Hd|]. destruct (decide (v ∈ VertexSet g)) as [Hv|Hv].
  - rewrite (proj2 (lookup_set_to_map (λ v, (v, adj g v)) (VertexSet g) v (adj g v) ltac:(done))); [done|]. by exists v.
  - destruct (set_to_map _ _ !! v) as [l|] eqn:El.
    + apply lookup_set_to_map in El as (v' & Hv' & [= -> _]); done.
    + destruct (adj g v) as [|u l] eqn:Ea; [done|]. exfalso. apply Hv.
      destruct HE as [Hd' HF]. rewrite Forall_forall in HF.
      destruct (adj_elem g E v u (conj Hd' (proj2 (Forall_forall _ _) HF))) as [Hi|Hi]; [rewrite Ea; by left|by apply (HF (v, u))|by apply (HF (u, v))].
Qed.

(** Copying a well-formed state into a new one reads as the original, but for the number of edges
    between shards, which is not copied. *)
Lemma copy_reads h src dst E : graph_ok (clpa (load h src)) E → (∀ v l, EdgeSet (NetGraph (clpa (var_state src))) !! v = Some l → l ≠ []) →
  0 ≤ CShardNum (clpa (var_state src)) → len (Edges2Shard (clpa (var_state src))) = CShardNum (clpa (var_state src)) →
  NetGraph (clpa (var_state dst)) = mkGraph ∅ ∅ →
  ∃ x, CopyCLPA src dst = Ok x ∧ PartitionMap (clpa (load h x)) = PartitionMap (clpa (load h src)) ∧
    Edges2Shard (clpa (load h x)) = Edges2Shard (clpa (load h src)) ∧
    VertexsNumInShard (clpa (load h x)) = VertexsNumInShard (clpa (load h src)) ∧
    (∀ v, adj (NetGraph (clpa (load h x))) v = adj (NetGraph (clpa (load h src))) v) ∧
    CrossShardEdgeNum (clpa (load h x)) = CrossShardEdgeNum (clpa (load h dst)).
Proof.
  intros Hg Hne Hn Hl Hd. unfold CopyCLPA.
  assert (copy_into 0 (CShardNum (clpa (var_state src))) (Edges2Shard (clpa (var_state src))) = Ok (Edges2Shard (clpa (var_state src)))) as ->.
  { unfold copy_into. rewrite (proj2 (Z.ltb_ge _ _)) by done. unfold len in Hl.
    rewrite take_ge by lia. replace (Z.to_nat _ - _)%nat with 0%nat by lia. by rewrite app_nil_r. }
  cbn [mbind go_bind].
  assert (∃ c, match ContribInShard (var_state src) with [] => Ok (ContribInShard (var_state dst))
    | l => copy_into fl_zero (CShardNum (clpa (var_state src))) l end = Ok c) as [c ->].
  { destruct (ContribInShard (var_state src)); [by eexists|]. unfold copy_into. rewrite (proj2 (Z.ltb_ge _ _)) by done. by eexists. }
  cbn [mbind go_bind]. eexists. split; [done|]. split_and!; [done..| |done].
  intros v. cbn [load upd clpa var_state NetGraph]. rewrite Hd. eapply copy_graph_same; [apply Hg|done|done].
Qed.

(** A vertex added to the copy is counted in the sizes of the original, whose graph does not have
    it: the original is not well-formed any more. *)
Theorem copy_shares_sizes h src dst x v E s : CopyCLPA src dst = Ok x → graph_ok (clpa (load h src)) E →
  PartitionMap (clpa (var_state src)) !! v = Some s → 0 ≤ s < CShardNum (clpa (var_state src)) →
  ∃ x' h', var_AddVertex v x h = Ok (x', h') ∧
    NetGraph (clpa (load h' src)) = NetGraph (clpa (load h src)) ∧
    at_ (VertexsNumInShard (clpa (load h' src))) s = at_ (VertexsNumInShard (clpa (load h src))) s + 1 ∧
    ¬ graph_ok (clpa (load h' src)) E.
Proof.
  intros Hc Hg Hv Hs. unfold CopyCLPA in Hc. apply go_bind_inv in Hc as (e & _ & Hc). apply go_bind_inv in Hc as (c & _ & [= <-]).
  unfold var_AddVertex, AddVertex. cbn [load upd clpa var_state PartitionMap VertexsNumInShard var_sizes]. rewrite Hv. cbn [mbind go_bind].
  pose proof (go_len _ _ Hg) as Hl. cbn [load upd clpa VertexsNumInShard CShardNum] in Hl.
  destruct (slice_add_ok 1 s (default [] (h !! var_sizes src))) as (nums & E1 & _ & Ha); [lia|]. rewrite E1. cbn [mbind go_bind].
  eexists _, _. split; [done|]. cbn [load upd clpa VertexsNumInShard NetGraph var_sizes]. rewrite lookup_insert_eq. cbn [default].
  split; [done|]. rewrite Ha, Z.eqb_refl by lia. split; [done|]. intros Hg'.
  pose proof (go_nums _ _ Hg s Hs) as H1. pose proof (go_nums _ _ Hg' s Hs) as H2.
  cbn [load upd clpa VertexsNumInShard NetGraph PartitionMap var_sizes] in H1, H2. change (id nums) with nums in H2.
  rewrite Ha, Z.eqb_refl in H2 by lia. lia.
Qed.
End var.
