(* ===== verification/EpochControl.v ===== *)
(** * The other re-partitioning committees ([supervisor/committee/committee_contrib.go],
      [supervisor/committee/committee_clpa_broker.go])

    Both have the control loop of the CLPA committee around another partition and another
    treatment of transactions and reports.  The loop is written once, over the interface
    [EpochCommittee]: what a committee does with a batch, how it computes a new map and what it
    does with it, and how it handles a report or another message.  As in [Committee], the loop is
    a machine with one step per row read and per look at a condition it waits for. *)
From Stdlib Require Import SpecFloat.
From S2P Require Import Prelude Utils Libs Core Messages Storage Chain MerkleProof Overhead Pbft Supervisor.
From S2P Require Import Partition PartitionFacts Contribution Committee Broker.

(** The fields all these committees have. *)
Record epoch_base := mkBase {
  ebDataTotalNum : Z;
  ebNowDataNum : Z;
  ebBatchDataNum : Z;
  ebCurEpoch : Z;
  ebModifiedMap : gmap string Z;
  ebLastRunningTime : Time;
  ebFreq : Z;
  ebSs : StopSignal;
}.
#[export] Instance epoch_base_eta : Eta epoch_base := λ b,
  mkBase (ebDataTotalNum b) (ebNowDataNum b) (ebBatchDataNum b) (ebCurEpoch b) (ebModifiedMap b) (ebLastRunningTime b)
    (ebFreq b) (ebSs b).

Definition new_base (ss : StopSignal) (dataNum batchNum freq : Z) : epoch_base := mkBase dataNum 0 batchNum 0 ∅ 0 freq ss.

(** What a committee with state [X] adds to the loop; [choice] are the orders in which Go visits
    the maps during a partition. *)
Class EpochCommittee (X : Type) := {
  choice : Type;
  send_batch : (nat → Time) → list Transaction → epoch_base → X → go (X * list packet);
  new_map : choice → X → go (X * gmap string Z);
  reset_after : epoch_base → X → go X;
  on_report : (nat → Time) → BlockInfoMsg → epoch_base → X → go (X * list packet);
  on_other : (nat → Time) → Msg → epoch_base → X → go (X * list packet);
}.

Section control.
Context `{Params, CryptoLib, !Codec Transaction}.
Context (IpNodeTable : gmap Z (gmap Z string)).

Definition fetch_in (mm : gmap string Z) (key : string) : go Z :=
  match mm !! key with
  | Some val => Ok val
  | None => s ← Addr2Shard key; Ok (u64 s)
  end.

Context {X : Type} `{!EpochCommittee X}.

Record epoch_state := mkEpoch { eb : epoch_base; ex : X; ectl : control }.
#[export] Instance epoch_state_eta : Eta epoch_state := λ s, mkEpoch (eb s) (ex s) (ectl s).

(** A re-partition, up to the wait: the map goes to all leaders and is merged into the own one. *)
Definition e_repartition (ch : choice) (b : epoch_base) (x : X) : go (epoch_base * X * list packet) :=
  r ← new_map ch x;
  let '(x, m) := r in
  let b := b <| ebModifiedMap ::= λ mm, m ∪ mm |> in
  x ← reset_after b x;
  Ok (b, x, clpaMapSend IpNodeTable m).

Definition e_due (now : Time) (b : epoch_base) : bool :=
  (1 <? ShardNum) && (ebFreq b * 1000000000 <=? now - ebLastRunningTime b).

Definition e_next (b : epoch_base) (txlist : list Transaction) (cnt : Z) : control :=
  if ebNowDataNum b =? ebDataTotalNum b then Draining cnt else Reading txlist cnt.

(** One row of the first loop; [clock] has the times of the calls of [time.Now]. *)
Definition e_row (data : list string) (clock : nat → Time) (ch : choice) (txlist : list Transaction) (cnt : Z)
    (b : epoch_base) (x : X) : go (epoch_state * list packet) :=
  r ← data2tx (clock 0%nat) data (u64 (ebNowDataNum b));
  match r with
  | None => Ok (mkEpoch b x (Reading txlist cnt), [])
  | Some tx =>
      let txlist := txlist ++ [tx] in
      let b := b <| ebNowDataNum ::= Z.add 1 |> in
      s ← (if (len txlist =? ebBatchDataNum b) || (ebNowDataNum b =? ebDataTotalNum b) then
             let b := if IsZero (ebLastRunningTime b) then b <| ebLastRunningTime := clock 1%nat |> else b in
             o ← send_batch (λ i, clock (3 + i)%nat) txlist b x;
             Ok (b <| ebSs ::= StopGap_Reset |>, o.1, @nil Transaction, o.2)
           else Ok (b, x, txlist, []));
      let '(b, x, txlist, out) := s in
      if negb (IsZero (ebLastRunningTime b)) && e_due (clock 2%nat) b then
        p ← e_repartition ch b x;
        Ok (mkEpoch p.1.1 p.1.2 (WaitReading txlist (cnt + 1)), out ++ p.2)
      else Ok (mkEpoch b x (e_next b txlist cnt), out)
  end.

(** One look of a waiting loop at its condition. *)
Definition e_poll (now : Time) (ch : choice) (s : epoch_state) : go (epoch_state * list packet) :=
  let '(mkEpoch b x c) := s in
  match c with
  | WaitReading txlist cnt =>
      if ebCurEpoch b =? i32 cnt then
        let b := b <| ebLastRunningTime := now |> in Ok (mkEpoch b x (e_next b txlist cnt), [])
      else Ok (s, [])
  | WaitDraining cnt =>
      if ebCurEpoch b =? i32 cnt then Ok (mkEpoch (b <| ebLastRunningTime := now |>) x (Draining cnt), [])
      else Ok (s, [])
  | Draining cnt =>
      if GapEnough (ebSs b) then Ok (mkEpoch b x (Finished cnt), [])
      else if e_due now b then
        p ← e_repartition ch b x;
        Ok (mkEpoch p.1.1 p.1.2 (WaitDraining (cnt + 1)), p.2)
      else Ok (s, [])
  | Reading _ _ | Finished _ => Ok (s, [])
  end.

(** [HandleBlockInfo]: the epoch is taken over first; an empty block is not looked at. *)
Definition e_HandleBlockInfo (clock : nat → Time) (bim : BlockInfoMsg) (s : epoch_state) : go (epoch_state * list packet) :=
  let b := eb s in
  let b := if ebCurEpoch b =? i32 (Epoch bim - 1) then b <| ebCurEpoch := i32 (Epoch bim) |> else b in
  if BlockBodyLength bim =? 0 then Ok (mkEpoch b (ex s) (ectl s), [])
  else r ← on_report clock bim b (ex s); Ok (mkEpoch b r.1 (ectl s), r.2).

Inductive eevent :=
| ERow (data : list string) (clock : nat → Time) (ch : choice)
| EEOF
| EPoll (now : Time) (ch : choice)
| EGap (bim : BlockInfoMsg)
| EReport (clock : nat → Time) (bim : BlockInfoMsg)
| EOther (clock : nat → Time) (m : Msg).

Definition estep (s : epoch_state) (e : eevent) : go (epoch_state * list packet) :=
  match e with
  | ERow data clock ch =>
      match ectl s with
      | Reading txlist cnt => e_row data clock ch txlist cnt (eb s) (ex s)
      | _ => Ok (s, [])
      end
  | EEOF =>
      match ectl s with
      | Reading _ cnt => Ok (mkEpoch (eb s) (ex s) (Draining cnt), [])
      | _ => Ok (s, [])
      end
  | EPoll now ch => e_poll now ch s
  | EGap bim => Ok (s <| eb ::= λ b, b <| ebSs ::= λ ss, observe_block ss bim |> |>, [])
  | EReport clock bim => e_HandleBlockInfo clock bim s
  | EOther clock m => r ← on_other clock m (eb s) (ex s); Ok (s <| ex := r.1 |>, r.2)
  end.

Inductive erun (ok : epoch_state → eevent → Prop) : epoch_state → list eevent → list packet → epoch_state → Prop :=
| erun_nil s : erun ok s [] [] s
| erun_cons s e s1 out es outs s2 :
    ok s e → estep s e = Ok (s1, out) → erun ok s1 es outs s2 → erun ok s (e :: es) (out ++ outs) s2.
End control.
Arguments epoch_state X : clear implicits.
Arguments eevent X {EpochCommittee0} : rename.

(** ** The contribution committee *)
Section contrib.
Context `{Params, CryptoLib, !Codec Transaction}.
Context (IpNodeTable : gmap Z (gmap Z string)).

(** The map goes to the leaders of all shards, as in the CLPA committee. *)
Definition contribMapSend : gmap string Z → list packet := clpaMapSend IpNodeTable.

Abbreviation contrib_states := (gmap Z ContribState).

Definition new_contrib_states : contrib_states :=
  list_to_map ((λ sid, (sid, Init_ContribState sid (u64 ShardNum) fl_0_9 (fl_of 1) (fl_of 5) (fl_of 20)))
    <$> heights 0 (ShardNum - 1)).

(** The orders of the loop over the shards and of the loops over the local accounts. *)
Record contrib_orders := mkOrders { shard_order : list Z; account_order : Z → list string }.

Definition add_realloc (ch : contrib_orders) (x : contrib_states) (acc : gmap string Z) (sid : Z) : go (gmap string Z) :=
  match x !! sid with
  | None => Ok acc
  | Some cs => m ← ComputeReallocation (account_order ch sid) cs; Ok (m ∪ acc)
  end.

Definition contrib_new_map (ch : contrib_orders) (x : contrib_states) : go (contrib_states * gmap string Z) :=
  let x := DecayAllContributions <$> x in
  m ← go_fold (add_realloc ch x) ∅ (shard_order ch);
  Ok (x, m).

(** Both ends of an inner transaction gain. *)
Definition credit_inner (cs : ContribState) (tx : Transaction) : ContribState :=
  let cs := UpdateContribution (Recipient tx) true (UpdateContribution (Sender tx) true cs) in
  AddLocalAccount (Recipient tx) (AddLocalAccount (Sender tx) cs).

Definition contrib_report (bim : BlockInfoMsg) (x : contrib_states) : go contrib_states :=
  match x !! SenderShardID bim with
  | None => Panic "nil pointer dereference"
  | Some cs =>
      let cs := foldl credit_inner cs (InnerShardTxs bim) in
      let cs := cs <| CS_CrossShardTxCount ::= λ n, n + (len (Relay1Txs bim) + len (Relay2Txs bim)) |> in
      let cs := foldl (λ cs tx, UpdateContribution (Sender tx) false cs) cs (Relay1Txs bim) in
      let cs := foldl (λ cs tx, UpdateContribution (Recipient tx) false cs) cs (Relay2Txs bim) in
      Ok (<[SenderShardID bim := cs]> x)
  end.

#[export] Instance ContribCommittee : EpochCommittee contrib_states := {|
  choice := contrib_orders;
  send_batch clock txs b x := out ← txSending IpNodeTable (λ tx, fetch_in (ebModifiedMap b) (Sender tx)) txs; Ok (x, out);
  new_map := contrib_new_map;
  reset_after b x := Ok x;
  on_report clock bim b x := x ← contrib_report bim x; Ok (x, []);
  on_other clock m b x := Ok (x, []) |}.

Definition NewContribCommitteeModule (ss : StopSignal) (dataNum batchNum freq : Z) : epoch_state contrib_states :=
  mkEpoch (new_base ss dataNum batchNum freq) new_contrib_states (Reading [] 0).
Definition contrib_step : epoch_state contrib_states → eevent contrib_states → go (epoch_state contrib_states * list packet) :=
  estep IpNodeTable.
End contrib.

(** ** The CLPA committee with brokers *)
Record clpa_broker := mkClpaBroker { cbGraph : CLPAState; cbBroker : BrokerCommitteeMod }.
#[export] Instance clpa_broker_eta : Eta clpa_broker := λ c, mkClpaBroker (cbGraph c) (cbBroker c).

Section clpa_broker.
Context `{Params, CryptoLib, !Codec Transaction, !Codec BrokerRawMeg}.
Context (IpNodeTable : gmap Z (gmap Z string)).

Definition clpa_broker_MapSend : gmap string Z → list packet := clpaMapSend IpNodeTable.
Definition clpa_broker_RawMagDigest : BrokerRawMeg → bytes := getBrokerRawMagDigest.

(** The functions of this committee are those of the broker committee with its own placement. *)
Section placed_by_map.
Context (b : epoch_base).
Definition cb_fetchModifiedMap : Address → go Z := fetch_in (ebModifiedMap b).
Definition cb_txSending : Broker → list Transaction → go (list packet) := broker_txSending IpNodeTable cb_fetchModifiedMap.
Definition cb_handleBrokerType1Mes := handleBrokerType1Mes IpNodeTable cb_fetchModifiedMap.
Definition cb_handleBrokerType2Mes := handleBrokerType2Mes IpNodeTable cb_fetchModifiedMap.
Definition cb_handleBrokerRawMag := handleBrokerRawMag IpNodeTable cb_fetchModifiedMap.
Definition cb_dealTxByBroker := dealTxByBroker IpNodeTable cb_fetchModifiedMap.
Definition cb_handleTx1ConfirmMag := handleTx1ConfirmMag IpNodeTable cb_fetchModifiedMap.
Definition cb_handleTx2ConfirmMag := handleTx2ConfirmMag.
Definition cb_createConfirm := createConfirm IpNodeTable cb_fetchModifiedMap.
End placed_by_map.

Definition cb_batch (clock : nat → Time) (txs : list Transaction) (b : epoch_base) (x : clpa_broker)
    : go (clpa_broker * list packet) :=
  r ← broker_batch IpNodeTable (cb_fetchModifiedMap b) clock txs (cbBroker x);
  Ok (x <| cbBroker := r.1 |>, r.2).

Definition cb_new_map (orders : nat → list Vertex) (x : clpa_broker) : go (clpa_broker * gmap string Z) :=
  r ← CLPA_Partition orders (cbGraph x);
  Ok (x <| cbGraph := r.1.1 |>, r.1.2).

Definition cb_reset (b : epoch_base) (x : clpa_broker) : go clpa_broker :=
  cg ← new_graph;
  Ok (x <| cbGraph := cg <| PartitionMap ::= λ pm,
        foldl (λ pm kv, <[mkVertex kv.1 := i64 kv.2]> pm) pm (map_to_list (ebModifiedMap b)) |> |>).

(** Inner transactions of a broker add no edge; a first half adds the edge of the whole transfer. *)
Definition add_inner (cg : CLPAState) (tx : Transaction) : go CLPAState := if HasBroker tx then Ok cg else add_tx cg tx.
Definition add_half_edge (cg : CLPAState) (tx : Transaction) : go CLPAState :=
  AddEdge (mkVertex (OriginalSender tx)) (mkVertex (FinalRecipient tx)) cg.

Definition cb_report (clock : nat → Time) (bim : BlockInfoMsg) (b : epoch_base) (x : clpa_broker)
    : go (clpa_broker * list packet) :=
  r ← cb_createConfirm b clock (Broker1Txs bim ++ Broker2Txs bim) (cbBroker x);
  cg ← go_fold add_inner (cbGraph x) (InnerShardTxs bim);
  cg ← go_fold add_half_edge cg (Broker1Txs bim);
  Ok (mkClpaBroker cg r.1, r.2).

(** [HandleOtherMessage]: inner transactions that a migration has made cross-shard. *)
Definition cb_other (clock : nat → Time) (m : Msg) (b : epoch_base) (x : clpa_broker) : go (clpa_broker * list packet) :=
  match m with
  | MInner2Cross txs => cb_batch clock txs b x
  | _ => Ok (x, [])
  end.

#[export] Instance ClpaBrokerCommittee : EpochCommittee clpa_broker := {|
  choice := nat → list Vertex;
  send_batch := cb_batch;
  new_map := cb_new_map;
  reset_after := cb_reset;
  on_report := cb_report;
  on_other := cb_other |}.

Definition NewCLPACommitteeMod_Broker (addrs : list Address) (ss : StopSignal) (dataNum batchNum freq : Z)
    : go (epoch_state clpa_broker) :=
  cg ← new_graph;
  Ok (mkEpoch (new_base ss dataNum batchNum freq) (mkClpaBroker cg (NewBrokerCommitteeMod addrs)) (Reading [] 0)).
Definition clpa_broker_step : epoch_state clpa_broker → eevent clpa_broker → go (epoch_state clpa_broker * list packet) :=
  estep IpNodeTable.
End clpa_broker.
