(* ===== verification/EpochControlFacts.v ===== *)
(** * Properties of the re-partitioning committees

    Over the interface [EpochCommittee]: a committee whose batches and reports send no maps has at
    most one map outstanding and routes by the maps it has sent.  Both committees satisfy it.  The
    contribution committee moves idle accounts in every epoch. *)
From Stdlib Require Import SpecFloat.
From S2P Require Import Prelude Utils Libs Core Messages Storage Chain MerkleProof Overhead Pbft PbftFacts RelayModule ClpaModule ClpaFacts.
From S2P Require Import Supervisor SupervisorFacts Partition PartitionFacts Contribution Committee CommitteeFacts Broker BrokerFacts EpochControl.

(** The address whose shard a committee sends a transaction to. *)
Class Payer (X : Type) := payer : X → Transaction → Address.

(** Every injected transaction goes where [fetch] places its payer. *)
Definition routed_by (fetch : Address → go Z) (pay : Transaction → Address) (out : list packet) : Prop :=
  ∀ a it tx, (a, MInject it) ∈ out → tx ∈ ITxs it → fetch (pay tx) = Ok (ToShardID it).

(** The promises to the loop: only a re-partition sends maps, and transactions are sent by the map
    of the loop. *)
Class QuietCommittee `{Params} (X : Type) `{!EpochCommittee X, !Payer X} : Prop := {
  quiet_batch clock txs b (x x' : X) out : send_batch clock txs b x = Ok (x', out) → maps_of out = [];
  quiet_report clock bim b (x x' : X) out : on_report clock bim b x = Ok (x', out) → maps_of out = [];
  quiet_other clock m b (x x' : X) out : on_other clock m b x = Ok (x', out) → maps_of out = [];
  routed_batch clock txs b (x x' : X) out : send_batch clock txs b x = Ok (x', out) →
    routed_by (fetch_in (ebModifiedMap b)) (payer x) out;
  routed_report clock bim b (x x' : X) out : on_report clock bim b x = Ok (x', out) →
    routed_by (fetch_in (ebModifiedMap b)) (payer x) out;
  routed_other clock m b (x x' : X) out : on_other clock m b x = Ok (x', out) →
    routed_by (fetch_in (ebModifiedMap b)) (payer x) out;
}.

Section control.
Context `{Params, CryptoLib, !Codec Transaction}.
Context (IpNodeTable : gmap Z (gmap Z string)).
Context {X : Type} `{!EpochCommittee X, !Payer X, !QuietCommittee X}.
Implicit Types s : epoch_state X.

Inductive e_effect s (e : eevent X) s' (out : list packet) : Prop :=
| ee_quiet : maps_of out = [] → ebModifiedMap (eb s') = ebModifiedMap (eb s) →
    clpaCnt (ectl s') = clpaCnt (ectl s) → ebCurEpoch (eb s') = ebCurEpoch (eb s) →
    waiting (ectl s') = waiting (ectl s) ∨ waiting (ectl s') = false ∧ ebCurEpoch (eb s) = i32 (clpaCnt (ectl s)) →
    e_effect s e s' out
| ee_report clock bim : e = EReport clock bim → maps_of out = [] → ectl s' = ectl s → ebModifiedMap (eb s') = ebModifiedMap (eb s) →
    ebCurEpoch (eb s') = (if ebCurEpoch (eb s) =? i32 (Epoch bim - 1) then i32 (Epoch bim) else ebCurEpoch (eb s)) →
    e_effect s e s' out
| ee_send m : maps_of out = to_all [m] → ebModifiedMap (eb s') = m ∪ ebModifiedMap (eb s) →
    clpaCnt (ectl s') = clpaCnt (ectl s) + 1 → ebCurEpoch (eb s') = ebCurEpoch (eb s) →
    waiting (ectl s) = false → waiting (ectl s') = true → e_effect s e s' out.

Lemma e_next_fields b txl cnt : clpaCnt (e_next b txl cnt) = cnt ∧ waiting (e_next b txl cnt) = false.
Proof. unfold e_next. by case_match. Qed.

Lemma e_repartition_effect ch b (x : X) b' x' out : e_repartition IpNodeTable ch b x = Ok (b', x', out) →
  ∃ m, maps_of out = to_all [m] ∧ ebModifiedMap b' = m ∪ ebModifiedMap b ∧ ebCurEpoch b' = ebCurEpoch b.
Proof.
  unfold e_repartition. intros Hr. apply go_bind_inv in Hr as ([x1 m] & _ & Hr). apply go_bind_inv in Hr as (x2 & _ & Hr).
  injection Hr as <- _ <-. exists m. split; [apply map_send_maps|done].
Qed.

Lemma e_row_effect data clock ch txl cnt s s' out : ectl s = Reading txl cnt →
  e_row IpNodeTable data clock ch txl cnt (eb s) (ex s) = Ok (s', out) → e_effect s (ERow data clock ch) s' out.
Proof.
  intros Ec Hr. unfold e_row in Hr. apply go_bind_inv in Hr as ([tx|] & _ & Hr).
  2: { injection Hr as <- <-. apply ee_quiet; cbn [eb ectl]; rewrite ?Ec; auto. }
  cbv zeta in Hr. apply go_bind_inv in Hr as ([[[b1 x1] txl1] o1] & Hs & Hr).
  assert (maps_of o1 = [] ∧ ebModifiedMap b1 = ebModifiedMap (eb s) ∧ ebCurEpoch b1 = ebCurEpoch (eb s)) as (Ho & Hm & He).
  { destruct (_ || _); [|by injection Hs as <- _ _ <-].
    apply go_bind_inv in Hs as ([x2 o2] & Ho & Hs). injection Hs as <- _ _ <-.
    split; [by eapply quiet_batch|]. cbn. by destruct (IsZero _). }
  destruct (negb _ && _).
  - apply go_bind_inv in Hr as ([[b2 x2] o2] & Hp & Hr). injection Hr as <- <-.
    apply e_repartition_effect in Hp as (m & Hom & Hmm & Hee).
    apply (ee_send _ _ _ _ m); cbn [eb ectl clpaCnt waiting fst snd]; rewrite ?Ec; try done; [|congruence..].
    by rewrite maps_of_app, Ho, Hom.
  - injection Hr as <- <-. destruct (e_next_fields b1 txl1 cnt) as [Hcnt Hw].
    apply ee_quiet; cbn [eb ectl]; rewrite ?Ec, ?Hcnt, ?Hw; auto.
Qed.

Lemma e_poll_effect now ch s s' out : e_poll IpNodeTable now ch s = Ok (s', out) → e_effect s (EPoll now ch) s' out.
Proof.
  destruct s as [b x c]. unfold e_poll. intros Hr. destruct c as [txl cnt|txl cnt|cnt|cnt|cnt].
  - injection Hr as <- <-. by apply ee_quiet; auto.
  - destruct (_ =? _) eqn:E; injection Hr as <- <-; [|by apply ee_quiet; auto]. zbool.
    destruct (e_next_fields (b <| ebLastRunningTime := now |>) txl cnt) as [En Ew].
    apply ee_quiet; cbn [eb ectl]; auto.
  - destruct (GapEnough _); [by injection Hr as <- <-; apply ee_quiet; auto|].
    destruct (e_due now b); [|by injection Hr as <- <-; apply ee_quiet; auto].
    apply go_bind_inv in Hr as ([[b2 x2] o2] & Hp & Hr). injection Hr as <- <-.
    apply e_repartition_effect in Hp as (m & Hom & Em & Ee). by apply (ee_send _ _ _ _ m).
  - destruct (_ =? _) eqn:E; injection Hr as <- <-; [|by apply ee_quiet; auto]. zbool. by apply ee_quiet; auto.
  - injection Hr as <- <-. by apply ee_quiet; auto.
Qed.

Lemma estep_effect s e s' out : estep IpNodeTable s e = Ok (s', out) → e_effect s e s' out.
Proof.
  destruct e as [data clock ch| |now ch|bim|clock bim|clock m]; cbn [estep]; intros Hs.
  - destruct (ectl s) as [txl cnt| | | |] eqn:Ec; try (injection Hs as <- <-; by apply ee_quiet; auto).
    by apply (e_row_effect data clock ch txl cnt).
  - destruct (ectl s) as [txl cnt| | | |] eqn:Ec; injection Hs as <- <-; apply ee_quiet; cbn [eb ectl]; rewrite ?Ec; auto.
  - by apply e_poll_effect.
  - injection Hs as <- <-. by apply ee_quiet; auto.
  - unfold e_HandleBlockInfo in Hs. destruct (BlockBodyLength bim =? 0).
    + injection Hs as <- <-. apply (ee_report _ _ _ _ clock bim); cbn [eb ectl]; try done; by case_match.
    + apply go_bind_inv in Hs as ([x o] & Ho & Hs). injection Hs as <- <-.
      apply (ee_report _ _ _ _ clock bim); cbn [eb ectl snd]; try done; [by eapply quiet_report|by case_match..].
  - apply go_bind_inv in Hs as ([x o] & Ho & Hs). injection Hs as <- <-.
    apply ee_quiet; auto. by eapply quiet_other.
Qed.

(** A shard reports no epoch whose map was not sent yet. *)
Definition e_in_time s (e : eevent X) : Prop :=
  match e with EReport _ bim => 0 ≤ Epoch bim ≤ clpaCnt (ectl s) | _ => True end.

(** The invariant: [ms] are the maps sent so far. *)
Definition e_ok (ms : list (gmap string Z)) s : Prop :=
  ebModifiedMap (eb s) = merged ms ∧ clpaCnt (ectl s) = len ms ∧
  0 ≤ ebCurEpoch (eb s) ∧ len ms - 1 ≤ ebCurEpoch (eb s) ≤ len ms ∧
  (waiting (ectl s) = false → ebCurEpoch (eb s) = len ms).

Lemma estep_count s e s' out : estep IpNodeTable s e = Ok (s', out) → clpaCnt (ectl s) ≤ clpaCnt (ectl s').
Proof. intros Hs. apply estep_effect in Hs as [_ _ -> _ _|? ? _ _ -> _ _|m _ _ -> _ _ _]; lia. Qed.

Lemma erun_count ok s es outs s' : erun IpNodeTable ok s es outs s' → clpaCnt (ectl s) ≤ clpaCnt (ectl s').
Proof. induction 1 as [|s e s1 out es outs s2 _ Hs _ IH]; [lia|]. apply estep_count in Hs. lia. Qed.

Lemma estep_ok ms s e s' out : estep IpNodeTable s e = Ok (s', out) → e_in_time s e → clpaCnt (ectl s') < 2 ^ 31 → e_ok ms s →
  ∃ ms', maps_of out = to_all ms' ∧ e_ok (ms ++ ms') s'.
Proof.
  intros Hs Ht Hb (Hm & Hc & H0' & Hr & Hw). apply estep_effect in Hs as [Ho Em Ec Ee Hwt|clock bim -> Ho Ec Em Ee|m Ho Em Ec Ee Hw1 Hw2].
  - exists []. rewrite app_nil_r. split; [done|]. unfold e_ok. rewrite Em, Ec, Ee in *. split; [done|]. split; [done|].
    split; [done|]. split; [done|]. intros Hw'. destruct Hwt as [Hwt|[_ Hwt]]; [apply Hw; congruence|]. rewrite Hwt, Hc.
    apply i32_small. lia.
  - exists []. rewrite app_nil_r. split; [done|]. unfold e_ok. cbn in Ht. rewrite Em, Ec in *. split; [done|]. split; [done|].
    rewrite Ee. destruct (_ =? _) eqn:E; zbool; [|done]. rewrite i32_small in E by lia. rewrite i32_small by lia.
    split; [lia|]. split; [lia|]. intros Hw'. specialize (Hw Hw'). lia.
  - exists [m]. split; [done|]. unfold e_ok. rewrite merged_snoc, <-Hm. rewrite Em, Ec, Ee in *. specialize (Hw Hw1).
    assert (len (ms ++ [m]) = len ms + 1) as -> by (unfold len; rewrite length_app; cbn; lia). rewrite Hw2.
    split; [done|]. split; [lia|]. split; [done|]. split; [lia|done].
Qed.

Lemma to_all_app ms1 ms2 : to_all (ms1 ++ ms2) = to_all ms1 ++ to_all ms2.
Proof. unfold to_all. apply bind_app. Qed.

Lemma erun_ok s es outs s' : erun IpNodeTable e_in_time s es outs s' → clpaCnt (ectl s') < 2 ^ 31 → ∀ ms, e_ok ms s →
  ∃ ms', maps_of outs = to_all ms' ∧ e_ok (ms ++ ms') s'.
Proof.
  induction 1 as [s|s e s1 out es outs s2 Ht Hs Hr IH]; intros Hb ms Hok; [exists []; by rewrite app_nil_r|].
  destruct (estep_ok ms s e s1 out Hs Ht) as (ms1 & Ho1 & Hok1); [apply erun_count in Hr; lia|done|].
  destruct (IH Hb _ Hok1) as (ms2 & Ho2 & Hok2). exists (ms1 ++ ms2). rewrite maps_of_app, Ho1, Ho2, to_all_app, app_assoc. done.
Qed.

(** ** Routing *)

(** Account [a] lives in shard [sid] after the maps [ms]: the last map that has it says so, or no map
    has it and it is the shard of its address. *)
Definition lives (ms : list (gmap string Z)) (a : Address) (sid : Z) : Prop :=
  match merged ms !! a with
  | Some h => h = sid
  | None => ∃ h, Addr2Shard a = Ok h ∧ sid = u64 h
  end.

Lemma fetch_lives ms a sid : fetch_in (merged ms) a = Ok sid → lives ms a sid.
Proof.
  unfold fetch_in, lives. destruct (merged ms !! a) as [h|]; [by intros [= ->]|].
  intros (h & Hh & [= <-])%go_bind_inv. by exists h.
Qed.

Lemma routed_nil fetch pay : routed_by fetch pay [].
Proof. intros a it tx Hin. by apply not_elem_of_nil in Hin. Qed.

Lemma routed_by_app fetch pay o1 o2 : routed_by fetch pay o1 → routed_by fetch pay o2 → routed_by fetch pay (o1 ++ o2).
Proof. intros H1 H2 a it tx [Hin|Hin]%elem_of_app; [by eapply H1|by eapply H2]. Qed.

Lemma map_send_routed fetch pay m : routed_by fetch pay (clpaMapSend IpNodeTable m).
Proof. intros a it tx Hin. unfold clpaMapSend in Hin. by apply list_elem_of_fmap in Hin as (sid & [=] & _). Qed.

Lemma e_row_routed data clock ch txl cnt b (x : X) s' out : e_row IpNodeTable data clock ch txl cnt b x = Ok (s', out) →
  routed_by (fetch_in (ebModifiedMap b)) (payer x) out.
Proof.
  unfold e_row. intros ([tx|] & _ & Hr)%go_bind_inv; [|injection Hr as _ <-; apply routed_nil].
  cbv zeta in Hr. apply go_bind_inv in Hr as ([[[b1 x1] txl1] o1] & Hs & Hr).
  assert (routed_by (fetch_in (ebModifiedMap b)) (payer x) o1) as Ho.
  { destruct (_ || _); [|injection Hs as _ _ _ <-; apply routed_nil].
    apply go_bind_inv in Hs as ([x2 o2] & Hb & [= _ _ _ <-]). apply routed_batch in Hb. by destruct (IsZero _) in Hb. }
  destruct (negb _ && _); [|injection Hr as _ <-; exact Ho].
  apply go_bind_inv in Hr as ([[b2 x2] o2] & Hp & [= _ <-]). apply routed_by_app; [exact Ho|]. unfold e_repartition in Hp.
  apply go_bind_inv in Hp as ([x3 m] & _ & Hp). apply go_bind_inv in Hp as (x4 & _ & [= _ _ <-]). apply map_send_routed.
Qed.

Lemma estep_routed s e s' out : estep IpNodeTable s e = Ok (s', out) → routed_by (fetch_in (ebModifiedMap (eb s))) (payer (ex s)) out.
Proof.
  destruct e as [data clock ch| |now ch|bim|clock bim|clock m]; cbn [estep]; intros Hs.
  - destruct (ectl s); try (injection Hs as _ <-; apply routed_nil). by eapply e_row_routed.
  - destruct (ectl s); injection Hs as _ <-; apply routed_nil.
  - destruct s as [b x c]. unfold e_poll in Hs. destruct c; try (injection Hs as _ <-; apply routed_nil);
      try (destruct (_ =? _); injection Hs as _ <-; apply routed_nil).
    destruct (GapEnough _); [injection Hs as _ <-; apply routed_nil|]. destruct (e_due now b); [|injection Hs as _ <-; apply routed_nil].
    apply go_bind_inv in Hs as ([[b2 x2] o2] & Hp & [= _ <-]). unfold e_repartition in Hp.
    apply go_bind_inv in Hp as ([x3 m] & _ & Hp). apply go_bind_inv in Hp as (x4 & _ & [= _ _ <-]). apply map_send_routed.
  - injection Hs as _ <-. apply routed_nil.
  - unfold e_HandleBlockInfo in Hs. destruct (BlockBodyLength bim =? 0); [injection Hs as _ <-; apply routed_nil|].
    apply go_bind_inv in Hs as ([x o] & Ho & [= _ <-]). apply routed_report in Ho. by case_match.
  - apply go_bind_inv in Hs as ([x o] & Ho & [= _ <-]). by eapply routed_other.
Qed.

(** C27: the loop of every re-partitioning committee.  For every committee that implements the
    interface and keeps its promises, in every run in which no shard reports an epoch before its map
    was sent: the committee has sent each of some maps [ms] to all shards; its epoch is at most one
    behind their number and never ahead; it sends the next map only when the epoch of the last one was
    reported; and every transaction that it sends in its next step goes to the shard where the last map
    that has its payer (for the contribution committee the sender) puts it, or to the shard of the
    address when no map sent so far has it. *)
Theorem epoch_machine (ss : StopSignal) (d b f : Z) (x0 : X) es outs s :
  erun IpNodeTable e_in_time (mkEpoch (new_base ss d b f) x0 (Reading [] 0)) es outs s → clpaCnt (ectl s) < 2 ^ 31 →
  ∃ ms, maps_of outs = to_all ms ∧ ebModifiedMap (eb s) = merged ms ∧ len ms - 1 ≤ ebCurEpoch (eb s) ≤ len ms ∧
    ∀ e s' out, estep IpNodeTable s e = Ok (s', out) →
      (maps_of out ≠ [] → ebCurEpoch (eb s) = len ms) ∧
      ∀ ip it tx, (ip, MInject it) ∈ out → tx ∈ ITxs it → lives ms (payer (ex s) tx) (ToShardID it).
Proof.
  intros Hr Hb. destruct (erun_ok _ _ _ _ Hr Hb []) as (ms & Ho & Hm & _ & _ & He & Hw); [by repeat split|].
  exists ms. split; [done|]. split; [done|]. split; [done|]. intros e s' out Hs. split.
  - intros Hne. apply estep_effect in Hs as [Hn _ _ _ _|? ? _ Hn _ _ _|m _ _ _ _ Hw1 _]; [done|done|by apply Hw].
  - intros ip it tx Hin Htx. apply estep_routed in Hs. apply fetch_lives. cbn [app] in Hm. rewrite <-Hm. by eapply Hs.
Qed.
End control.

(** ** The committees keep the promise *)
Section instances.
Context `{Params, CryptoLib, !Codec Transaction, !Codec BrokerRawMeg}.
Context (IpNodeTable : gmap Z (gmap Z string)).

Lemma tx_sending_quiet route txs out : txSending IpNodeTable route txs = Ok out → maps_of out = [].
Proof. apply inject_no_maps. Qed.

Lemma batch_quiet fetch clock txs bcm bcm' out :
  broker_batch IpNodeTable fetch clock txs bcm = Ok (bcm', out) → maps_of out = [].
Proof.
  unfold broker_batch. intros Hr. apply go_bind_inv in Hr as ([[b1 itxs] o1] & Hd & Hr).
  apply go_bind_inv in Hr as (o2 & Ho2 & Hr). injection Hr as _ <-. apply tx_sending_quiet in Ho2. rewrite maps_of_app, Ho2, app_nil_r.
  unfold dealTxByBroker in Hd. apply go_bind_inv in Hd as ([it raws] & _ & Hd). destruct (len raws =? 0); [by injection Hd as _ _ <-|].
  apply go_bind_inv in Hd as ([b2 o3] & Hh & Hd). injection Hd as _ _ <-. unfold handleBrokerRawMag, handleBrokerType1Mes in Hh.
  destruct (foldl _ _ _) as [b3 tx1s]. apply go_bind_inv in Hh as (o4 & Ho4 & Hh). injection Hh as _ <-. by apply tx_sending_quiet in Ho4.
Qed.

Lemma confirm_quiet fetch clock txs bcm bcm' out :
  createConfirm IpNodeTable fetch clock txs bcm = Ok (bcm', out) → maps_of out = [].
Proof.
  unfold createConfirm. intros Hr. apply go_bind_inv in Hr as ([b1 o1] & Hc & Hr). injection Hr as _ <-.
  destruct (_ =? _); [by injection Hc as _ <-|]. unfold handleTx1ConfirmMag in Hc. apply go_bind_inv in Hc as ([b2 ms] & _ & Hc).
  unfold handleBrokerType2Mes in Hc. destruct (foldl _ _ _) as [b3 tx2s]. apply go_bind_inv in Hc as (o4 & Ho4 & Hc).
  injection Hc as _ <-. by apply tx_sending_quiet in Ho4.
Qed.

(** What is sent is routed. *)
Lemma tx_sending_routed route idx m txs out : tx_sending IpNodeTable route idx m txs = Ok out →
  (∀ sid tx, tx ∈ default [] (m !! sid) → route tx = Ok sid) →
  ∀ a it tx, (a, MInject it) ∈ out → tx ∈ ITxs it → route tx = Ok (ToShardID it).
Proof.
  assert (∀ mm : gmap Z (list Transaction), (∀ sid tx, tx ∈ default [] (mm !! sid) → route tx = Ok sid) → ∀ (c : bool) a it tx,
    (a, MInject it) ∈ (if c then inject_all IpNodeTable mm else []) → tx ∈ ITxs it → route tx = Ok (ToShardID it)) as Hi.
  { intros mm Hm [] a it tx Hin Htx; [|by apply not_elem_of_nil in Hin].
    unfold inject_all in Hin. apply list_elem_of_fmap in Hin as (sid & [= _ ->] & _). cbn in *. by apply Hm. }
  revert idx m out. induction txs as [|t txs IH]; intros idx m out Hs Hm; cbn [tx_sending] in Hs;
    apply go_bind_inv in Hs as (now & _ & Hs).
  - injection Hs as <-. by apply Hi.
  - apply go_bind_inv in Hs as (sid & Hr & Hs). apply go_bind_inv in Hs as (rest & Er & [= <-]).
    intros a it tx [Hin|Hin]%elem_of_app Htx; [by eapply Hi|]. eapply IH; [exact Er| |exact Hin|exact Htx].
    assert (∀ sid' tx', tx' ∈ default [] ((if now then ∅ else m) !! sid') → route tx' = Ok sid') as Hm'.
    { destruct now; [|exact Hm]. intros sid' tx'. rewrite lookup_empty. intros Hx. by apply not_elem_of_nil in Hx. }
    intros sid' tx'. rewrite lookup_insert. case_decide as E; [|by apply Hm']. subst sid'. cbn [default].
    intros [Hx| ->%list_elem_of_singleton]%elem_of_app; [by apply Hm'|exact Hr].
Qed.

Lemma txSending_routed route txs out : txSending IpNodeTable route txs = Ok out →
  ∀ a it tx, (a, MInject it) ∈ out → tx ∈ ITxs it → route tx = Ok (ToShardID it).
Proof.
  intros Hs. apply (tx_sending_routed _ _ _ _ _ Hs). intros sid tx. rewrite lookup_empty. intros Hx. by apply not_elem_of_nil in Hx.
Qed.

(** A transaction of a broker goes to the recipient's shard. *)
Definition broker_payer (b : Broker) (tx : Transaction) : Address := if IsBroker b (Sender tx) then Recipient tx else Sender tx.

Lemma broker_sending_routed fetch b b' txs out : BrokerAddress b = BrokerAddress b' →
  broker_txSending IpNodeTable fetch b txs = Ok out → routed_by fetch (broker_payer b') out.
Proof.
  intros Eb Hs a it tx Hin Htx. pose proof (txSending_routed _ _ _ Hs a it tx Hin Htx) as Hr.
  unfold broker_route in Hr. unfold broker_payer, IsBroker. rewrite <-Eb. fold (IsBroker b (Sender tx)).
  apply go_bind_inv in Hr as (z & Hz & Hr). destruct (IsBroker b (Sender tx)); [exact Hr|]. by injection Hr as <-.
Qed.

Lemma batch_routed fetch clock txs bcm bcm' out :
  broker_batch IpNodeTable fetch clock txs bcm = Ok (bcm', out) → routed_by fetch (broker_payer (broker bcm)) out.
Proof.
  unfold broker_batch. intros Hr. apply go_bind_inv in Hr as ([[b1 itxs] o1] & Hd & Hr).
  apply go_bind_inv in Hr as (o2 & Ho2 & [= _ <-]). unfold dealTxByBroker in Hd.
  apply go_bind_inv in Hd as ([it raws] & _ & Hd). destruct (len raws =? 0).
  { injection Hd as <- _ <-. by eapply broker_sending_routed in Ho2. }
  apply go_bind_inv in Hd as ([b2 o3] & Hh & [= <- _ <-]). unfold handleBrokerRawMag, handleBrokerType1Mes in Hh.
  rewrite raws_fold, type1_fold in Hh. apply go_bind_inv in Hh as (o4 & Ho4 & [= <- <-]). cbn [fst snd] in *.
  apply routed_by_app; by eapply broker_sending_routed; [|eassumption].
Qed.

Lemma confirm_routed fetch clock txs bcm bcm' out :
  createConfirm IpNodeTable fetch clock txs bcm = Ok (bcm', out) → routed_by fetch (broker_payer (broker bcm)) out.
Proof.
  unfold createConfirm. intros Hr. apply go_bind_inv in Hr as ([b1 o1] & Hc & [= _ <-]).
  destruct (_ =? _); [injection Hc as _ <-; apply routed_nil|]. unfold handleTx1ConfirmMag in Hc.
  apply go_bind_inv in Hc as ([b2 ms] & Hf & Hc). unfold handleBrokerType2Mes in Hc. rewrite type2_fold in Hc.
  apply go_bind_inv in Hc as (o4 & Ho4 & [= _ <-]). cbn [fst snd] in *.
  eapply broker_sending_routed; [|exact Ho4]. cbn [broker upd].
  apply (go_fold_inv confirm1_one (λ st : BrokerCommitteeMod * list BrokerType2Meg, BrokerAddress (broker st.1) = BrokerAddress (broker bcm))) in Hf;
    [exact Hf|done|]. intros [b3 l3] [b4 l4] c _ E3. unfold confirm1_one. destruct (_ !! _); [|by intros [= <- _]].
  intros (a & _ & [= <- _])%go_bind_inv. exact E3.
Qed.

#[export] Instance contrib_payer : Payer (gmap Z ContribState) := λ _, Sender.
#[export] Instance contrib_quiet : @QuietCommittee _ _ (ContribCommittee IpNodeTable) contrib_payer.
Proof.
  split; cbn; intros; try by simplify_eq.
  - match goal with E : _ = Ok _ |- _ => apply go_bind_inv in E as (o & Ho & E); injection E as _ <- end. by eapply tx_sending_quiet.
  - match goal with E : _ = Ok _ |- _ => apply go_bind_inv in E as (o & Ho & E); injection E as _ <- end. done.
  - match goal with E : _ = Ok _ |- _ => apply go_bind_inv in E as (o & Ho & E); injection E as _ <- end.
    intros a it tx. apply (txSending_routed _ _ _ Ho).
  - match goal with E : _ = Ok _ |- _ => apply go_bind_inv in E as (o & Ho & E); injection E as _ <- end. apply routed_nil.
  - match goal with E : Ok _ = Ok _ |- _ => injection E as _ <- end. apply routed_nil.
Qed.

#[export] Instance clpa_broker_payer : Payer clpa_broker := λ x, broker_payer (broker (cbBroker x)).
#[export] Instance clpa_broker_quiet : @QuietCommittee _ _ (ClpaBrokerCommittee IpNodeTable) clpa_broker_payer.
Proof.
  assert (∀ clock txs b x x' out, cb_batch IpNodeTable clock txs b x = Ok (x', out) →
    maps_of out = [] ∧ routed_by (fetch_in (ebModifiedMap b)) (payer x) out) as Hb.
  { unfold cb_batch. intros clock txs b x x' out E. apply go_bind_inv in E as ([o1 o2] & Ho & [= _ <-]).
    split; [by eapply batch_quiet|by eapply batch_routed]. }
  assert (∀ clock bim b x x' out, cb_report IpNodeTable clock bim b x = Ok (x', out) →
    maps_of out = [] ∧ routed_by (fetch_in (ebModifiedMap b)) (payer x) out) as Hr.
  { unfold cb_report. intros clock bim b x x' out E. apply go_bind_inv in E as ([o1 o2] & Ho & E).
    apply go_bind_inv in E as (cg & _ & E). apply go_bind_inv in E as (cg' & _ & [= _ <-]).
    split; [by eapply confirm_quiet|by eapply confirm_routed]. }
  assert (∀ clock m b x x' out, cb_other IpNodeTable clock m b x = Ok (x', out) →
    maps_of out = [] ∧ routed_by (fetch_in (ebModifiedMap b)) (payer x) out) as Ho.
  { intros clock m b x x' out. unfold cb_other. destruct m; try (intros E; injection E as _ <-; split; [done|apply routed_nil]). apply Hb. }
  split; cbn; intros; first [by eapply Hb|by eapply Hr|by eapply Ho].
Qed.
End instances.

(** ** Idle accounts *)
Section idle.
Context (n : Z) (Hn : 2 ≤ n < two64).
Implicit Types x : gmap Z ContribState.

(** The states of [n] shards, and orders that visit all of them and all their accounts. *)
Definition states_ok x : Prop := map_Forall (λ s cs, CS_ShardID cs = s ∧ CS_ShardNum cs = n ∧ 0 ≤ s < n) x.
Definition orders_ok x (ch : contrib_orders) : Prop :=
  shard_order ch ≡ₚ (map_to_list x).*1 ∧ map_Forall (λ s cs, account_order ch s ≡ₚ elements (LocalAccounts cs)) x.

(** A local account of shard [sid] without a contribution. *)
Definition idle x (sid : Z) (a : string) : Prop :=
  ∃ cs, x !! sid = Some cs ∧ a ∈ LocalAccounts cs ∧ ContribMap cs !! a = None ∧ SFltb fl_zero (TransferThreshold cs) = true.

Lemma realloc_fold_ok x ch l : states_ok x → orders_ok x ch → ∀ acc,
  ∃ m, go_fold (add_realloc ch x) acc l = Ok m ∧ (∀ a, is_Some (acc !! a) → is_Some (m !! a)) ∧
    ∀ sid a, sid ∈ l → idle x sid a → is_Some (m !! a).
Proof.
  intros Hx [_ Ho]. induction l as [|s l IH]; intros acc; cbn [go_fold].
  - exists acc. split; [done|]. split; [done|]. by intros sid a ?%elem_of_nil.
  - assert (∃ acc1, add_realloc ch x acc s = Ok acc1 ∧ (∀ a, is_Some (acc !! a) → is_Some (acc1 !! a)) ∧
      (∀ a, idle x s a → is_Some (acc1 !! a))) as (acc1 & -> & Hacc & Hid).
    { unfold add_realloc. destruct (x !! s) as [cs|] eqn:E.
      - destruct (Hx s cs E) as (H1 & H2 & H3).
        destruct (reallocation_spec (account_order ch s) cs) as (m & -> & Hm & _); [by apply Ho|by rewrite H2|by rewrite H1, H2|].
        exists (m ∪ acc). split; [done|]. split; [intros a Ha; apply lookup_union_is_Some; by right|].
        intros a (cs' & E' & Hl & Hc & Ht). rewrite E in E'. injection E' as <-. apply lookup_union_is_Some. left.
        apply Hm. split; [done|]. unfold low_contrib, GetContribution. by rewrite Hc.
      - exists acc. split; [done|]. split; [done|]. intros a (cs' & E' & _). congruence. }
    cbn [mbind go_bind]. destruct (IH acc1) as (m & -> & Hmacc & Hmid). exists m. split; [done|]. split; [auto|].
    intros sid a [->|Hin]%elem_of_cons Hi; [by apply Hmacc, Hid|by apply (Hmid sid)].
Qed.

Lemma new_map_idle x ch sid a : states_ok x → orders_ok x ch → idle x sid a →
  ∃ x' m, contrib_new_map ch x = Ok (x', m) ∧ is_Some (m !! a) ∧ states_ok x' ∧ idle x' sid a ∧
    ∀ ch', orders_ok x ch' → orders_ok x' ch'.
Proof.
  intros Hx Ho Hi. unfold contrib_new_map. set (x' := DecayAllContributions <$> x).
  assert (states_ok x') as Hx'.
  { intros s cs' E. apply lookup_fmap_Some in E as (cs & <- & E). exact (Hx s cs E). }
  assert (∀ ch', orders_ok x ch' → orders_ok x' ch') as Hord.
  { intros ch' [H1 H2]. split.
    - rewrite H1. unfold x'. rewrite map_to_list_fmap, <-list_fmap_compose. done.
    - intros s cs' E. apply lookup_fmap_Some in E as (cs & <- & E). exact (H2 s cs E). }
  assert (idle x' sid a) as Hi'.
  { destruct Hi as (cs & E & Hl & Hc & Ht). exists (DecayAllContributions cs). split; [unfold x'; by rewrite lookup_fmap, E|].
    split; [done|]. split; [|done]. unfold DecayAllContributions. cbn. by rewrite lookup_omap, Hc. }
  destruct (realloc_fold_ok x' ch (shard_order ch) Hx' (Hord ch Ho) ∅) as (m & -> & _ & Hm). cbn [mbind go_bind].
  exists x', m. split; [done|]. split; [|split; [done|split; done]]. apply (Hm sid); [|done]. destruct Ho as [-> _].
  destruct Hi as (cs & E & _). apply list_elem_of_fmap. exists (sid, cs). split; [done|]. by apply elem_of_map_to_list.
Qed.

(** The maps of several re-partitions with no reports between them. *)
Fixpoint reallocations (chs : list contrib_orders) x : go (list (gmap string Z)) :=
  match chs with
  | [] => Ok []
  | ch :: chs => r ← contrib_new_map ch x; ms ← reallocations chs r.1; Ok (r.2 :: ms)
  end.

(** Idle accounts move in every epoch.  The committee never removes an account from the
    local accounts of the shard it moved away from, so an account without a contribution is in
    the map of every re-partition, however often it has been moved before and wherever it is. *)
Theorem idle_accounts_move (chs : list contrib_orders) x (sid : Z) (a : string) :
  states_ok x → Forall (orders_ok x) chs → idle x sid a →
  ∃ ms, reallocations chs x = Ok ms ∧ length ms = length chs ∧ Forall (λ m, is_Some (m !! a)) ms.
Proof.
  revert x. induction chs as [|ch chs IH]; intros x Hx Hch Hi; cbn [reallocations]; [by exists []|].
  apply Forall_cons in Hch as [Ho Hch]. destruct (new_map_idle x ch sid a Hx Ho Hi) as (x' & m & -> & Hm & Hx' & Hi' & Ho').
  cbn [mbind go_bind fst snd]. destruct (IH x' Hx') as (ms & -> & Hl & Hms); [|done|].
  { eapply Forall_impl; [exact Hch|]. exact Ho'. }
  cbn [mbind go_bind]. exists (m :: ms). split; [done|]. split; [cbn; by rewrite Hl|]. by constructor.
Qed.
End idle.

(** ** Two shards with an idle account *)
Module EpochExample.
Import ConcreteLibs ConcreteCore ChainExample.
#[local] Existing Instance default_params.
#[local] Existing Instance BrokerExample.raw_codec.

Definition start : epoch_state (gmap Z ContribState) := NewContribCommitteeModule (NewStopSignal 3) 10 2 0.
Definition ords : contrib_orders := mkOrders (map_to_list new_contrib_states).*1 (λ _, []).
#[local] Instance here : EpochCommittee (gmap Z ContribState) := ContribCommittee ∅.
#[local] Instance here_quiet : QuietCommittee (gmap Z ContribState) := contrib_quiet ∅.

(** The end of the file, and one re-partition. *)
Lemma epoch_machine_witness : ∃ s out ms, erun ∅ e_in_time start [EEOF; EPoll 5 ords] out s ∧
  maps_of out = to_all ms ∧ ebModifiedMap (eb s) = merged ms ∧ waiting (ectl s) = true.
Proof.
  assert (∃ s out, erun ∅ e_in_time start [EEOF; EPoll 5 ords] out s ∧ ectl s = WaitDraining 1) as (s & out & Hr & Hc).
  { eexists _, _. split; [eapply erun_cons; [done|reflexivity|eapply erun_cons; [done|vm_compute; reflexivity|apply erun_nil]]|done]. }
  destruct (epoch_machine (X := gmap Z ContribState) ∅ (NewStopSignal 3) 10 2 0 new_contrib_states _ out s Hr) as (ms & Ho & Hm & _);
    [by rewrite Hc|].
  exists s, out, ms. split; [exact Hr|]. split; [exact Ho|]. split; [exact Hm|]. by rewrite Hc.
Defined.

Definition two : gmap Z ContribState :=
  {[0 := Init_ContribState 0 2 fl_0_9 (fl_of 1) (fl_of 5) (fl_of 20);
    1 := AddLocalAccount "a" (Init_ContribState 1 2 fl_0_9 (fl_of 1) (fl_of 5) (fl_of 20))]}.
Definition both : contrib_orders := mkOrders [1; 0] (λ s, if s =? 1 then ["a"] else []).

Lemma two_ok : states_ok 2 two ∧ orders_ok two both.
Proof.
  assert (∀ s cs, two !! s = Some cs → s = 0 ∧ cs = Init_ContribState 0 2 fl_0_9 (fl_of 1) (fl_of 5) (fl_of 20) ∨
    s = 1 ∧ cs = AddLocalAccount "a" (Init_ContribState 1 2 fl_0_9 (fl_of 1) (fl_of 5) (fl_of 20))) as Hall.
  { intros s cs. unfold two. intros [[<- <-]|[_ E]]%lookup_insert_Some; [by left|].
    apply lookup_singleton_Some in E as [<- <-]. by right. }
  split; [|split].
  - intros s cs E. destruct (Hall s cs E) as [[-> ->]|[-> ->]]; cbn; lia.
  - vm_compute. reflexivity || (apply Permutation_swap).
  - intros s cs E. destruct (Hall s cs E) as [[-> ->]|[-> ->]]; cbn; [done|]. by rewrite union_empty_r_L, elements_singleton.
Qed.

Lemma idle_accounts_move_witness : ∃ ms, reallocations [both; both; both] two = Ok ms ∧ length ms = 3%nat ∧
  Forall (λ m : gmap string Z, is_Some (m !! "a")) ms.
Proof.
  destruct two_ok as [H1 H2]. apply (idle_accounts_move 2 ltac:(by vm_compute) [both; both; both] two 1 "a" H1).
  - apply Forall_cons_2; [exact H2|]. apply Forall_cons_2; [exact H2|]. by apply Forall_singleton.
  - exists (AddLocalAccount "a" (Init_ContribState 1 2 fl_0_9 (fl_of 1) (fl_of 5) (fl_of 20))).
    split; [done|]. split; [by apply elem_of_union_l, elem_of_singleton|]. split; [done|]. vm_compute. reflexivity.
Defined.
End EpochExample.
