(* ===== verification/ClpaBrokerModule.v ===== *)
(** * The broker modules with re-partitioning ([pbftInside_modCLPABroker.go],
      [accountTransfermod_Broker.go], [pbftOutside_modCLPABroker.go])

    The nodes of the CLPA-broker method move accounts like the CLPA module, on the same data, but
    their queues hold halves of broker transfers: a half moves with the account it works on, and
    an inner-shard transaction that the new map would split goes back to the supervisor.  On
    commit the leader checks that every transaction of the block belongs to the shard, and
    panics otherwise. *)
From S2P Require Import Prelude Utils Libs Core Messages Storage Chain MerkleProof Overhead.
From S2P Require Import Pbft PbftFacts RelayModule ClpaModule.

(** What the loop of [sendAccounts_and_Txs] does with a transaction: leave it in the queue
    ([beRemoved] false), put it into the message ([beSend] and [beRemoved]), or remove it and give
    it to the supervisor ([txsBeCross]). *)
Inductive tx_fate := FKeep | FSend | FCross.
#[export] Instance tx_fate_eq_dec : EqDecision tx_fate.
Proof. solve_decision. Defined.

Definition is_fate (f g : tx_fate) : bool := bool_decide (f = g).

Section clpa_broker_module.
Context `{Params, BitSetLib, CryptoLib, !Codec AccountState, !Codec Request, !Codec Transaction,
          !Codec BlockHeader, !Codec Block, !Codec AccountTransferMsg, BoltLib, TrieLib}.
Abbreviation cnode := (PbftConsensusNode ClpaApp).
Abbreviation chain_of p := (CurChain (App p)).
Abbreviation data_of p := (cdm (App p)).

(** ** [accountTransfermod_Broker.go] *)
Definition cb_sendPartitionReady (p : cnode) : ClpaApp * list packet := sendPartitionReady p.
Definition cb_getPartitionReady (p : cnode) : bool := getPartitionReady p.
Definition cb_getCollectOver (p : cnode) : bool := getCollectOver p.

Definition fate (addrSet : gset string) (tx : Transaction) : tx_fate :=
  let ok1 := bool_decide (Sender tx ∈ addrSet) in
  let ok2 := bool_decide (Recipient tx ∈ addrSet) in
  if bool_decide (RawTxHash tx = "") then
    if HasBroker tx then
      if SenderIsBroker tx then if ok2 then FSend else FKeep
      else if ok1 then FSend else FKeep
    else if ok1 || ok2 then FCross else FKeep
  else if bool_decide (FinalRecipient tx = Recipient tx) then if ok2 then FSend else FKeep
  else if bool_decide (OriginalSender tx = Sender tx) then if ok1 then FSend else FKeep
  else FKeep.

(** One iteration of the loop over the shards, on the queue, [txsBeCross] and the packets. *)
Definition cb_send_to_shard (p : cnode) (mm : gmap string Z) (accts : list (string * AccountState))
    (acc : list Transaction * list Transaction * list packet) (i : Z)
    : list Transaction * list Transaction * list packet :=
  let '(queue, cross, out) := acc in
  let sel := List.filter (λ aa : string * AccountState, default 0 (mm !! aa.1) =? i) accts in
  let addrSet : gset string := list_to_set sel.*1 in
  let with_fate f := List.filter (λ tx, is_fate (fate addrSet tx) f) queue in
  (with_fate FKeep, cross ++ with_fate FCross,
   out ++ [(ip_of p i 0, MAccountStateAndTx_broker
              (mkAccountStateAndTx sel.*1 sel.*2 (with_fate FSend) (PShardID p)))]).

Definition cb_sendAccounts_and_Txs (p : cnode) : go (ClpaApp * list packet) :=
  match last (ModifiedMap (data_of p)) with
  | None => Panic "index out of range"
  | Some mm =>
      accountToFetch ← accounts_to_fetch (PShardID p) (chain_of p) mm;
      asFetched ← FetchAccounts (chain_of p) accountToFetch;
      let '(queue, txsBeCross, out) :=
        foldl (cb_send_to_shard p mm (zip accountToFetch asFetched))
          (TxQueue (Txpool (chain_of p)), [], []) (other_shards p) in
      Ok ((App p) <| CurChain ::= λ bc, bc <| Txpool ::= λ t, t <| TxQueue := queue |> |> |>,
          out ++ [(ip_of p SupervisorShard 0, MInner2Cross txsBeCross)])
  end.

(** No check of the received transactions. *)
Definition cb_proposePartition (p : cnode) (now : Time) (clock : nat → Time) : go (ClpaApp * Request) :=
  let c := data_of p in
  st ← go_fold collect_one (ReceivedNewAccountState c, ReceivedNewTx c)
         (map_to_list (AccountStateTx c)).*2;
  let '(states, txs) := st in
  let x := (App p) <| cdm := c <| ReceivedNewAccountState := states |> <| ReceivedNewTx := txs |> |>
                   <| CurChain ::= SendTx2Pool clock txs |> in
  match ModifiedMap c !! Z.to_nat (AccountTransferRound c) with
  | None => Panic "index out of range"
  | Some mm =>
      let atm := mkAccountTransferMsg mm (map_to_list states).*1 (map_to_list states).*2
                   (len (ModifiedMap c)) in
      Ok (x, mkRequest PartitionReq (Encode atm) now)
  end.

Definition cb_accountTransfer_do (p : cnode) (x : ClpaApp) (atm : AccountTransferMsg) : go ClpaApp :=
  let bc := foldl (λ bc kv, Update_PartitionMap kv.1 kv.2 bc) (CurChain x)
              (map_to_list (ATModifiedMap atm)) in
  bc ← AddAccounts (ATAddrs atm) (ATAccountState atm) (view p) bc;
  let c := cdm x in
  let mm := if len (ModifiedMap c) =? ATid atm then ModifiedMap c
            else ModifiedMap c ++ [ATModifiedMap atm] in
  Ok (mkClpaApp bc (mkCdm mm (ATid atm) ∅ [] ∅ false ∅ (ReadySeq c) false) (phase x)).

(** ** [CLPAPbftInsideExtraHandleMod_forBroker] *)
Definition cb_HandleinPropose (p : cnode) (now : Time) : go (ClpaApp * list packet * option Request) :=
  match phase (App p) with
  | PhIdle =>
      if PartitionOn (data_of p) then
        let '(x, out) := cb_sendPartitionReady p in
        Ok (x <| phase := PhWaitReady |>, out, None)
      else
        g ← propose_block (chain_of p) (i32 (PNodeID p)) now;
        Ok ((App p) <| CurChain := g.1 |>, [], Some g.2)
  | PhWaitReady =>
      if cb_getPartitionReady p then
        r ← cb_sendAccounts_and_Txs p;
        Ok (r.1 <| phase := PhWaitCollect |>, r.2, None)
      else Ok (App p, [], None)
  | PhWaitCollect =>
      if cb_getCollectOver p then
        r ← cb_proposePartition p now (λ _, now);
        Ok (r.1 <| phase := PhIdle |>, [], Some r.2)
      else Ok (App p, [], None)
  end.

Definition cb_HandleinPrePrepare (p : cnode) (ppmsg : PrePrepare) : go (ClpaApp * bool) :=
  if bool_decide (RequestType (RequestMsg ppmsg) = PartitionReq) then Ok (App p, true)
  else ok ← valid_proposal (chain_of p) ppmsg; Ok (App p, ok).

(** This module does not ask for a raw hash before it takes a transaction for a half. *)
Definition cb_isBroker1Tx (tx : Transaction) : bool := bool_decide (Sender tx = OriginalSender tx).
Definition cb_isBroker2Tx (tx : Transaction) : bool := bool_decide (Recipient tx = FinalRecipient tx).

(** The checks of the loop over the body of a block. *)
Definition check_tx (sid : Z) (bc : BlockChain) (tx : Transaction) : go unit :=
  s ← Get_PartitionMap bc (Sender tx);
  r ← Get_PartitionMap bc (Recipient tx);
  let senderIsInshard := s =? sid in
  let recipientIsInshard := r =? sid in
  if cb_isBroker1Tx tx && negb senderIsInshard then Panic "Err tx1"
  else if cb_isBroker2Tx tx && negb recipientIsInshard then Panic "Err tx2"
  else if bool_decide (RawTxHash tx = "") then
    if HasBroker tx then
      if SenderIsBroker tx && negb recipientIsInshard then Panic "err tx 1 - recipient"
      else if negb (SenderIsBroker tx) && negb senderIsInshard then Panic "err tx 1 - sender"
      else Ok tt
    else if negb senderIsInshard || negb recipientIsInshard then Panic "err tx - without broker"
    else Ok tt
  else Ok tt.

(** The lists [innerShardTxs], [broker1Txs], [broker2Txs]. *)
Definition classify_tx (sid : Z) (bc : BlockChain)
    (acc : list Transaction * list Transaction * list Transaction) (tx : Transaction)
    : go (list Transaction * list Transaction * list Transaction) :=
  _ ← check_tx sid bc tx;
  let '(inner, b1, b2) := acc in
  Ok (if cb_isBroker2Tx tx then (inner, b1, b2 ++ [tx])
      else if cb_isBroker1Tx tx then (inner, b1 ++ [tx], b2)
      else (inner ++ [tx], b1, b2)).

Definition cb_report_block (p : cnode) (bc : BlockChain) (r : Request) (now : Time) (block : Block)
    : go (list packet) :=
  l ← go_fold (classify_tx (PShardID p) bc) ([], [], []) (Body block);
  let '(inner, b1, b2) := l in
  let sii := mkSeqIDinfo (PShardID p) (sequenceID p) in
  let bim := mkBlockInfoMsg (len (Body block)) inner (i64 (AccountTransferRound (data_of p))) (ReqTime r) now
               (PShardID p) [] [] b1 b2 in
  Ok (((λ sid, (ip_of p sid 0, MSeqIDinfo sii)) <$> other_shards p)
      ++ [(ip_of p SupervisorShard 0, MBlockInfo bim)]).

Definition cb_HandleinCommit (p : cnode) (now : Time) (cmsg : Commit) : go (ClpaApp * list packet * bool) :=
  match requestPool p !! CDigest cmsg with
  | None => Panic "nil pointer dereference"
  | Some r =>
      if bool_decide (RequestType r = PartitionReq) then
        atm ← MustDecode (Content r);
        x ← cb_accountTransfer_do p (App p) atm;
        Ok (x, [], true)
      else
        block ← DecodeB (Content r);
        bc ← AddBlock block (chain_of p);
        let x := (App p) <| CurChain := bc |> in
        if PNodeID p =? u64 (view p) then
          out ← cb_report_block p bc r now block;
          Ok (x, out, true)
        else Ok (x, [], true)
  end.

Definition cb_HandleforSequentialRequest (p : cnode) (som : SendOldMessage)
    : go (ClpaApp * list packet * bool) :=
  if negb (i64 (u64 (SOSeqEndHeight som - SOSeqStartHeight som + 1)) =? len (OldRequest som))
  then Ok (App p, [], true)
  else
    x ← old_loop (λ x r,
          if bool_decide (RequestType r = BlockRequest) then
            b ← DecodeB (Content r);
            bc ← AddBlock b (CurChain x);
            Ok (x <| CurChain := bc |>)
          else
            atm ← MustDecode (Content r);
            cb_accountTransfer_do p x atm) som (App p);
    Ok (x, [], true).

(** The CLPA method has the same state, so these are not default instances. *)
Definition CLPAPbftInsideExtraHandleMod_forBroker : ExtraOpInConsensus ClpaApp := {|
  HandleinPropose := cb_HandleinPropose;
  HandleinPrePrepare := cb_HandleinPrePrepare;
  HandleinPrepare p _ := Ok (App p, true);
  HandleinCommit := cb_HandleinCommit;
  HandleReqestforOldSeq p _ := Ok (App p, true);
  HandleforSequentialRequest := cb_HandleforSequentialRequest |}.

(** ** [CLPABrokerOutsideModule] *)
Definition cb_handleSeqIDinfos (p : cnode) (sii : SeqIDinfo) : cnode :=
  p <| seqIDMap ::= <[SISenderShardID sii := SISenderSeq sii]> |>.
Definition cb_handleInjectTx (p : cnode) (clock : nat → Time) (it : InjectTxs) : cnode :=
  p <| App ::= λ x, x <| CurChain ::= SendTx2Pool clock (ITxs it) |> |>.
Definition cb_handlePartitionMsg : gmap string Z → cnode → cnode := handlePartitionMsg.
Definition cb_handlePartitionReady : PartitionReadyMsg → cnode → cnode := handlePartitionReady.
Definition cb_handleAccountStateAndTxMsg : AccountStateAndTx → cnode → cnode := handleAccountStateAndTxMsg.

Definition cb_HandleMessageOutsidePBFT (p : cnode) (clock : nat → Time) (m : Msg) : go (cnode * list packet) :=
  Ok (match m with
      | MSeqIDinfo sii => cb_handleSeqIDinfos p sii
      | MInject it => cb_handleInjectTx p clock it
      | MPartition pm => cb_handlePartitionMsg pm p
      | MAccountStateAndTx_broker at_ => cb_handleAccountStateAndTxMsg at_ p
      | MPartitionReady pr => cb_handlePartitionReady pr p
      | _ => p
      end, []).

Definition CLPABrokerOutsideModule : OpInterShards ClpaApp := {|
  HandleMessageOutsidePBFT := cb_HandleMessageOutsidePBFT |}.

(** The consensus properties hold with these modules too. *)
Lemma cb_outside_laws : @OpInterShardsLaws ClpaApp CLPABrokerOutsideModule.
Proof.
  split. intros p p' clock m out. cbn. unfold cb_HandleMessageOutsidePBFT.
  intros [= <- <-]. destruct m; by destruct p.
Qed.

Lemma cb_prepare : @PrepareNoop ClpaApp CLPAPbftInsideExtraHandleMod_forBroker.
Proof. by split. Qed.
End clpa_broker_module.
