(* ===== verification/ClpaBrokerFacts.v ===== *)
(** * Properties of the broker modules with re-partitioning

    What re-partitioning keeps, sends and hands back to the supervisor are together the queue;
    what it keeps and sends passes the check of the leader that commits it under the new map. *)
From S2P Require Import Prelude Utils Libs Core Messages Storage Chain MerkleProof Overhead.
From S2P Require Import Pbft PbftFacts RelayModule RelayFacts ClpaModule ClpaFacts Broker BrokerFacts ClpaBrokerModule.

Section facts.
Context `{Params, BitSetLib, CryptoLib, !Codec AccountState, !Codec Request, !Codec Transaction,
          !Codec BlockHeader, !Codec Block, !Codec AccountTransferMsg, BoltLib, TrieLib}.
Abbreviation cnode := (PbftConsensusNode ClpaApp).

(** ** The check of a committed transaction *)
Definition passes (sid : Z) (bc : BlockChain) (tx : Transaction) : Prop := check_tx sid bc tx = Ok tt.
#[export] Instance passes_dec sid bc tx : Decision (passes sid bc tx).
Proof. unfold passes. destruct (check_tx sid bc tx) as [[]|]; [by left|by right]. Defined.

(** The same as a predicate on where the sender and the recipient are. *)
Definition belongs_here (ins inr : bool) (tx : Transaction) : bool :=
  (negb (cb_isBroker1Tx tx) || ins) && (negb (cb_isBroker2Tx tx) || inr) &&
  (if bool_decide (RawTxHash tx = "") then
     if HasBroker tx then if SenderIsBroker tx then inr else ins else ins && inr
   else true).

Lemma passes_iff sid bc tx :
  passes sid bc tx ↔ placed bc (Sender tx) ∧ placed bc (Recipient tx) ∧
    belongs_here (shard_of bc (Sender tx) =? sid) (shard_of bc (Recipient tx) =? sid) tx = true.
Proof.
  unfold passes, check_tx, placed, shard_of, belongs_here.
  destruct (Get_PartitionMap bc (Sender tx)) as [s|], (Get_PartitionMap bc (Recipient tx)) as [r|];
    cbn; try (split; [done|by intros (? & ? & ?)]).
  destruct (cb_isBroker1Tx tx), (cb_isBroker2Tx tx), (bool_decide (RawTxHash tx = "")), (HasBroker tx),
    (SenderIsBroker tx), (s =? sid), (r =? sid); cbn; naive_solver.
Qed.

(** Transactions as the supervisor makes them: a whole transaction names no original sender or
    final recipient of its own, and a half is one half only. *)
Definition tx_formed (tx : Transaction) : bool :=
  if bool_decide (RawTxHash tx = "") then negb (cb_isBroker1Tx tx) && negb (cb_isBroker2Tx tx)
  else negb (cb_isBroker1Tx tx && cb_isBroker2Tx tx).

(** ** One transaction *)
Lemma fate_keep addrs ins inr (ins' inr' : bool) tx :
  tx_formed tx = true → belongs_here ins inr tx = true → Forall (λ S, fate S tx = FKeep) addrs →
  (ins = true → Forall (λ S : gset string, Sender tx ∉ S) addrs → ins' = true) →
  (inr = true → Forall (λ S : gset string, Recipient tx ∉ S) addrs → inr' = true) →
  belongs_here ins' inr' tx = true.
Proof.
  unfold tx_formed, belongs_here. intros Hf Hb Hk Hs Hr.
  assert (∀ (P : gset string → Prop), (∀ S, fate S tx = FKeep → P S) → Forall P addrs) as Hall.
  { intros P HP. eapply Forall_impl; [exact Hk|]. exact HP. }
  unfold fate in Hall. unfold cb_isBroker1Tx, cb_isBroker2Tx in *.
  rewrite (bool_decide_ext (FinalRecipient tx = Recipient tx) (Recipient tx = FinalRecipient tx)) in Hall by done.
  rewrite (bool_decide_ext (OriginalSender tx = Sender tx) (Sender tx = OriginalSender tx)) in Hall by done.
  destruct (bool_decide (RawTxHash tx = "")), (HasBroker tx), (SenderIsBroker tx),
    (bool_decide (Sender tx = OriginalSender tx)), (bool_decide (Recipient tx = FinalRecipient tx));
    cbn in *; try done; zbool;
    repeat match goal with
    | Hx : _ = true → Forall _ _ → ?b = true |- _ =>
        first [ rewrite Hx; [|done|apply Hall; intros S; repeat case_bool_decide; done]; clear Hx | clear Hx ]
    end; try done.
Qed.

Lemma fate_send (S : gset string) (ins inr : bool) tx :
  tx_formed tx = true → fate S tx = FSend →
  (Sender tx ∈ S → ins = true) → (Recipient tx ∈ S → inr = true) → belongs_here ins inr tx = true.
Proof.
  unfold tx_formed, belongs_here, fate, cb_isBroker1Tx, cb_isBroker2Tx. intros Hf Hk Hs Hr.
  repeat case_bool_decide; destruct (HasBroker tx), (SenderIsBroker tx); cbn in *; try done; try congruence;
    rewrite ?Hs, ?Hr by done; done.
Qed.

Lemma fate_cross S tx : fate S tx = FCross → RawTxHash tx = "" ∧ HasBroker tx = false.
Proof. unfold fate. repeat case_bool_decide; repeat case_match; done. Qed.

(** ** The loop over the shards *)
Definition moving (mm : gmap string Z) (accts : list (string * AccountState)) (i : Z) : gset string :=
  list_to_set (selected mm accts i).*1.

Definition cb_message_for (p : cnode) (mm : gmap string Z) (accts : list (string * AccountState))
    (i : Z) (txs : list Transaction) : packet :=
  (ip_of p i 0, MAccountStateAndTx_broker (mkAccountStateAndTx (selected mm accts i).*1
                  (selected mm accts i).*2 txs (PShardID p))).

Lemma split_fates S (q : list Transaction) :
  List.filter (λ tx, is_fate (fate S tx) FKeep) q ++ List.filter (λ tx, is_fate (fate S tx) FCross) q ++
    List.filter (λ tx, is_fate (fate S tx) FSend) q ≡ₚ q.
Proof.
  induction q as [|tx q IH]; [done|]. cbn. unfold is_fate in *.
  destruct (fate S tx); cbn; (etrans; [|apply (Permutation_cons eq_refl IH)]); solve_Permutation.
Qed.

Lemma filter_fate S f (q : list Transaction) :
  Forall (λ tx, fate S tx = f) (List.filter (λ tx, is_fate (fate S tx) f) q).
Proof.
  apply Forall_forall. intros tx [_ Hf]%list_elem_of_In%filter_In. by apply bool_decide_eq_true in Hf.
Qed.

Lemma cb_send_fold p mm accts shards q0 c0 out0 :
  ∃ q cross sent, foldl (cb_send_to_shard p mm accts) (q0, c0, out0) shards =
      (q, c0 ++ cross, out0 ++ zip_with (cb_message_for p mm accts) shards sent) ∧
    length sent = length shards ∧ q ++ cross ++ concat sent ≡ₚ q0 ∧
    Forall (λ tx, Forall (λ S, fate S tx = FKeep) (moving mm accts <$> shards)) q ∧
    Forall (λ tx, RawTxHash tx = "" ∧ HasBroker tx = false) cross ∧
    Forall2 (λ i txs, Forall (λ tx, fate (moving mm accts i) tx = FSend) txs) shards sent.
Proof.
  revert q0 c0 out0. induction shards as [|i shards IH]; intros q0 c0 out0.
  - exists q0, [], []. cbn. rewrite !app_nil_r. split_and!; try done. by apply Forall_forall.
  - cbn [foldl]. unfold cb_send_to_shard at 2. fold (selected mm accts i). fold (moving mm accts i).
    set (S := moving mm accts i). set (w f := List.filter (λ tx, is_fate (fate S tx) f) q0).
    destruct (IH (w FKeep) (c0 ++ w FCross) (out0 ++ [cb_message_for p mm accts i (w FSend)]))
      as (q & cross & sent & E & Hl & Hp & Hk & Hc & Hs).
    exists q, (w FCross ++ cross), (w FSend :: sent). split_and!.
    + etrans; [exact E|]. cbn [zip_with]. by rewrite <-!app_assoc.
    + cbn. by rewrite Hl.
    + cbn [concat]. etrans; [|apply (split_fates S q0)]. change (q ++ (w FCross ++ cross) ++ (w FSend ++ concat sent) ≡ₚ w FKeep ++ w FCross ++ w FSend).
      rewrite <-Hp. solve_Permutation.
    + apply Forall_forall. intros tx Hx. constructor; [|by eapply Forall_forall in Hk].
      assert (tx ∈ w FKeep) as Hw by (rewrite <-Hp; apply elem_of_app; by left).
      pose proof (filter_fate S FKeep q0) as HF. by eapply Forall_forall in HF.
    + apply Forall_app. split; [|done]. eapply Forall_impl; [apply filter_fate|].
      intros tx Hx. by apply fate_cross in Hx.
    + constructor; [apply filter_fate|done].
Qed.

(** ** Where accounts are under the new map *)
Section placement.
Context (bc bc' : BlockChain) (mm : gmap string Z).
Hypothesis merged_map : PartitionMap bc' = mm ∪ PartitionMap bc.

Lemma merged_shard a : shard_of bc' a = default (shard_of bc a) (mm !! a).
Proof.
  unfold shard_of, Get_PartitionMap. rewrite merged_map, lookup_union.
  destruct (mm !! a), (PartitionMap bc !! a); done.
Qed.

Lemma merged_placed a : placed bc a → placed bc' a.
Proof.
  unfold placed, Get_PartitionMap. rewrite merged_map, lookup_union.
  by destruct (mm !! a), (PartitionMap bc !! a).
Qed.
End placement.

Lemma elem_of_moving mm accts i a : a ∈ moving mm accts i ↔ a ∈ accts.*1 ∧ default 0 (mm !! a) = i.
Proof.
  unfold moving, selected. rewrite elem_of_list_to_set, !list_elem_of_fmap. split.
  - intros ([a' s] & -> & Hin). apply list_elem_of_In, filter_In in Hin as [Hin Hv].
    rewrite <-list_elem_of_In in Hin. split; [by exists (a', s)|by apply Z.eqb_eq].
  - intros [([a' s] & -> & Hin) Hv]. exists (a', s). split; [done|]. apply list_elem_of_In, filter_In.
    rewrite <-list_elem_of_In. split; [done|by apply Z.eqb_eq].
Qed.

Context `{!BitSetLaws, !CryptoLaws, !CodecLaws AccountState, !CodecLaws BlockHeader,
          !CodecLaws Block, !CodecLaws AccountTransferMsg, !BoltLaws, !TrieLaws}.

Lemma other_shards_elem (p : cnode) i :
  i ∈ other_shards p ↔ 0 ≤ i < ShardNums (pbftChainConfig p) ∧ i ≠ PShardID p.
Proof.
  unfold other_shards. rewrite list_elem_of_In, filter_In, <-list_elem_of_In, negb_true_iff, Z.eqb_neq.
  unfold heights. rewrite list_elem_of_fmap. setoid_rewrite elem_of_seq. split.
  - intros [(k & -> & ?) ?]. lia.
  - intros [? ?]. split; [|done]. exists (Z.to_nat i). lia.
Qed.

(** C32: re-partitioning with brokers.  If the new map sends known accounts to existing shards and
    every transaction of the queue is well-formed and passes the check of this shard's leader,
    then [sendAccounts_and_Txs] returns; what it keeps, hands to the supervisor and sends are
    together the queue it had, nothing lost or duplicated; what it hands to the supervisor are
    whole transactions without a broker; and on every chain that has applied the new map, what it
    keeps passes the check of this shard's leader and what it sends to a shard passes the check of
    that shard's leader: no leader panics on a transaction because it was pending when accounts
    moved. *)
Theorem broker_repartition (p : cnode) (m : ledger) (mm : gmap string Z) :
  let bc := CurChain (App p) in
  state_ok bc m → last (ModifiedMap (cdm (App p))) = Some mm →
  (∀ k v, mm !! k = Some v → placed bc k ∧ 0 ≤ v < ShardNums (pbftChainConfig p)) →
  Forall (λ tx, tx_formed tx = true ∧ passes (PShardID p) bc tx) (TxQueue (Txpool bc)) →
  ∃ x accts sent cross, cb_sendAccounts_and_Txs p =
      Ok (x, zip_with (cb_message_for p mm accts) (other_shards p) sent ++
             [(ip_of p SupervisorShard 0, MInner2Cross cross)]) ∧
    length sent = length (other_shards p) ∧
    TxQueue (Txpool (CurChain x)) ++ cross ++ concat sent ≡ₚ TxQueue (Txpool bc) ∧
    Forall (λ tx, RawTxHash tx = "" ∧ HasBroker tx = false) cross ∧
    ∀ bc', PartitionMap bc' = mm ∪ PartitionMap bc →
      Forall (passes (PShardID p) bc') (TxQueue (Txpool (CurChain x))) ∧
      Forall2 (λ i txs, Forall (passes i bc') txs) (other_shards p) sent.
Proof.
  intros bc Hst Hmm Hmap Hq. unfold cb_sendAccounts_and_Txs. rewrite Hmm. fold bc.
  destruct (accounts_to_fetch_spec (PShardID p) bc mm) as (ac & -> & _ & Hac); [by intros k v [? _]%Hmap|].
  cbn [mbind go_bind]. rewrite (fetch_accounts_spec bc m ac Hst). cbn [mbind go_bind].
  set (accts := zip ac ((λ a, acct m a 0) <$> ac)).
  destruct (cb_send_fold p mm accts (other_shards p) (TxQueue (Txpool bc)) [] [])
    as (q & cross & sent & -> & Hl & Hp & Hk & Hc & Hs).
  eexists _, accts, sent, cross. split; [done|]. split_and!; [done|exact Hp|done|].
  assert (∀ tx, tx ∈ q ++ cross ++ concat sent → tx_formed tx = true ∧ passes (PShardID p) bc tx) as Hall.
  { intros tx Hin. rewrite Hp in Hin. by eapply Forall_forall in Hq. }
  intros bc' Hbc'.
  assert (∀ a, shard_of bc a = PShardID p → Forall (λ S : gset string, a ∉ S) (moving mm accts <$> other_shards p) →
    shard_of bc' a = PShardID p) as Hstay.
  { intros a Ha Hn. rewrite (merged_shard bc bc' mm Hbc'), Ha. destruct (mm !! a) as [v|] eqn:Ev; [|done]. cbn.
    destruct (decide (v = PShardID p)) as [|Hne]; [done|]. destruct (Hmap a v Ev) as [_ Hv].
    assert (v ∈ other_shards p) as Hin by by apply other_shards_elem.
    rewrite Forall_fmap in Hn. eapply Forall_forall in Hn; [|exact Hin]. cbn in Hn. destruct Hn.
    apply elem_of_moving. rewrite Ev. split; [|done]. unfold accts. rewrite fst_zip by by rewrite length_fmap.
    apply Hac. eauto. }
  assert (∀ a i, a ∈ moving mm accts i → shard_of bc' a = i) as Harrive.
  { intros a i [Hin Hi]%elem_of_moving. rewrite (merged_shard bc bc' mm Hbc'). unfold accts in Hin.
    rewrite fst_zip in Hin by by rewrite length_fmap. apply Hac in Hin as (v & Hv & _). by rewrite Hv in Hi |- *. }
  split.
  - apply Forall_forall. intros tx Hx.
    destruct (Hall tx) as [Hf (H1' & H2' & Hb)%passes_iff]; [apply elem_of_app; by left|].
    apply passes_iff. split_and!; [by eapply merged_placed..|]. eapply Forall_forall in Hk; [|exact Hx].
    eapply fate_keep; [done|exact Hb|exact Hk|..]; intros Hsh%Z.eqb_eq Hn; apply Z.eqb_eq; by apply Hstay.
  - apply Forall2_same_length_lookup in Hs as [_ Hs]. apply Forall2_same_length_lookup. split; [done|].
    intros j i txs Hi Hj. apply Forall_forall. intros tx Hx.
    destruct (Hall tx) as [Hf (H1' & H2' & _)%passes_iff].
    { rewrite !elem_of_app. do 2 right. apply list_elem_of_In, in_concat. exists txs.
      rewrite <-!list_elem_of_In. split; [by eapply list_elem_of_lookup_2|done]. }
    specialize (Hs j i txs Hi Hj). eapply Forall_forall in Hs; [|exact Hx].
    apply passes_iff. split_and!; [by eapply merged_placed..|].
    eapply fate_send; [done|exact Hs|..]; intros Hm; apply Z.eqb_eq; by apply Harrive.
Qed.

(** ** The report of a committed block *)
Lemma classify_fold sid bc l inner b1 b2 : Forall (passes sid bc) l →
  go_fold (classify_tx sid bc) (inner, b1, b2) l =
    Ok (inner ++ List.filter (λ tx, negb (cb_isBroker2Tx tx) && negb (cb_isBroker1Tx tx)) l,
        b1 ++ List.filter (λ tx, negb (cb_isBroker2Tx tx) && cb_isBroker1Tx tx) l,
        b2 ++ List.filter cb_isBroker2Tx l).
Proof.
  intros Hl. revert inner b1 b2. induction Hl as [|tx l Ht _ IH]; intros inner b1 b2.
  - cbn. by rewrite !app_nil_r.
  - cbn [go_fold List.filter].
    assert (classify_tx sid bc (inner, b1, b2) tx = Ok (if cb_isBroker2Tx tx then (inner, b1, b2 ++ [tx])
      else if cb_isBroker1Tx tx then (inner, b1 ++ [tx], b2) else (inner ++ [tx], b1, b2))) as ->
      by (unfold classify_tx; by rewrite Ht).
    cbn [mbind go_bind]. destruct (cb_isBroker2Tx tx), (cb_isBroker1Tx tx); rewrite IH; cbn; by rewrite <-?app_assoc.
Qed.

Lemma classify_panics sid bc l acc : ¬ Forall (passes sid bc) l →
  ∃ msg, go_fold (classify_tx sid bc) acc l = Panic msg.
Proof.
  revert acc. induction l as [|tx l IH]; intros acc Hn; [by destruct Hn|].
  cbn [go_fold]. destruct (classify_tx sid bc acc tx) as [acc'|msg] eqn:E; cbn; [|eauto].
  apply go_bind_inv in E as ([] & Et & _). apply IH. intros Hl. apply Hn. by constructor.
Qed.

(** The leader's commit with brokers and re-partitioning.  When the leader commits a block
    that its chain accepts, it reports if and only if every transaction of the body belongs to the
    shard: then every transaction is in exactly one of the three lists of the report, which
    carries the round of the last account transfer, and every other shard gets the sequence
    number; otherwise it panics. *)
Theorem broker_commit_checks (p : cnode) (now : Time) (cmsg : Commit) (r : Request) (b : Block) (bc : BlockChain) :
  requestPool p !! CDigest cmsg = Some r → RequestType r ≠ PartitionReq → DecodeB (Content r) = Ok b →
  AddBlock b (CurChain (App p)) = Ok bc → PNodeID p = u64 (view p) →
  (Forall (passes (PShardID p) bc) (Body b) →
     ∃ rep, cb_HandleinCommit p now cmsg =
         Ok ((App p) <| CurChain := bc |>,
             ((λ sid, (ip_of p sid 0, MSeqIDinfo (mkSeqIDinfo (PShardID p) (sequenceID p)))) <$> other_shards p)
             ++ [(ip_of p SupervisorShard 0, MBlockInfo rep)], true) ∧
       InnerShardTxs rep ++ Broker1Txs rep ++ Broker2Txs rep ≡ₚ Body b ∧
       BlockBodyLength rep = len (Body b) ∧ Epoch rep = i64 (AccountTransferRound (cdm (App p)))) ∧
  (¬ Forall (passes (PShardID p) bc) (Body b) → ∃ msg, cb_HandleinCommit p now cmsg = Panic msg).
Proof.
  intros Hr Ht Hd Ha Hl. unfold cb_HandleinCommit. rewrite Hr, bool_decide_eq_false_2, Hd by done.
  cbn [mbind go_bind]. rewrite Ha. cbn [mbind go_bind]. rewrite Hl, Z.eqb_refl. unfold cb_report_block. split.
  - intros Hall. rewrite classify_fold by done. cbn [mbind go_bind]. eexists. split; [reflexivity|].
    cbn. split; [apply split_three|done].
  - intros [msg E]%(classify_panics _ _ _ ([], [], [])). rewrite E. by exists msg.
Qed.
End facts.

(** ** Witnesses: account [addrA] moves from shard 3 to shard 1; pending are a first half and an
    inner-shard transaction of this account and an inner-shard transaction that stays *)
Module ClpaBrokerExample.
Import ConcreteLibs ConcreteCore ChainExample RelayExample BrokerExample ClpaExample.
#[local] Existing Instance default_params.
#[local] Existing Instance OverheadExample.req_codec.

Definition waiting : list Transaction := [half1; sample_tx addrA addrB 5; sample_tx addrB addrB 7].

Lemma waiting_passes (bc : BlockChain) : PartitionMap bc = ∅ →
  Forall (λ tx, tx_formed tx = true ∧ passes 3 bc tx) waiting.
Proof.
  intros E. repeat constructor; unfold passes, check_tx, Get_PartitionMap; rewrite ?E, ?lookup_empty;
    vm_compute; reflexivity.
Qed.

Lemma newMap_ok (bc : BlockChain) : PartitionMap bc = ∅ → ∀ k v, newMap !! k = Some v → placed bc k ∧ 0 ≤ v < 4.
Proof.
  intros E k v Hv. split; [by eapply map_placed_A|].
  unfold newMap in Hv. apply lookup_singleton_Some in Hv as [_ <-]. lia.
Qed.

Lemma broker_repartition_witness :
  ∃ (p : PbftConsensusNode ClpaApp) x accts sent cross,
    cb_sendAccounts_and_Txs p = Ok (x, zip_with (cb_message_for p newMap accts) (other_shards p) sent ++
                                       [(ip_of p SupervisorShard 0, MInner2Cross cross)]) ∧
    TxQueue (Txpool (CurChain x)) ++ cross ++ concat sent ≡ₚ waiting.
Proof.
  destruct (genesis_of cfg) as (bc & _ & Hck & _ & Hp & Hm & _).
  set (p := leader 3 cfg (bc <| Txpool ::= λ t, t <| TxQueue := waiting |> |>) ∅).
  destruct (broker_repartition p ∅ newMap) as (x & accts & sent & cross & E & _ & Hperm & _).
  - apply Hck.
  - done.
  - by apply newMap_ok.
  - by apply waiting_passes.
  - exists p, x, accts, sent, cross. split; [exact E|exact Hperm].
Defined.

Lemma broker_commit_checks_witness :
  ∃ (p : PbftConsensusNode ClpaApp) cmsg x out rep,
    cb_HandleinCommit p 20 cmsg = Ok (x, out ++ [(ip_of p SupervisorShard 0, MBlockInfo rep)], true) ∧
    InnerShardTxs rep ++ Broker1Txs rep ++ Broker2Txs rep ≡ₚ [half1].
Proof.
  destruct (genesis_of cfg) as (bc & _ & Hck & Hc & Hp & Hm & _).
  destruct (one_block bc half1 Hck Hc Hp Hm) as (b & l1 & bc1 & _ & Hb & Ha & Hm1);
    [vm_compute; reflexivity|apply half_placed; [done|vm_compute; reflexivity]|].
  set (r := mkRequest BlockRequest (Encode b) 10).
  set (p := (leader 3 cfg bc ∅) <| requestPool := {[ "d" := r ]} |>).
  destruct (broker_commit_checks p 20 (mkCommit "d" 1 (mkNode 0 3 "")) r b bc1) as [Hrep _];
    [apply lookup_singleton_eq|done|apply must_decode_encode|exact Ha|done|].
  destruct Hrep as (rep & E & Hperm & _).
  { rewrite Hb. pose proof (waiting_passes bc1 Hm1) as HF. apply Forall_cons in HF as [[_ ?] _]. by constructor. }
  rewrite Hb in Hperm. eexists p, _, _, _, rep. split; [exact E|exact Hperm].
Defined.
End ClpaBrokerExample.
