(* ===== verification/Measure.v ===== *)
(** * The measures of the supervisor ([supervisor/measure/])

    Every block report updates all measures.  A measure has a row per epoch: the slices grow to
    the epoch of the report, and the row of the epoch is changed; a negative epoch is an index out
    of range.  The relay and the broker version of a measure differ in the lists they read and in
    the order of the [float64] operations.  Results are returned; [Output] writes them to
    CSV files.  Counters of transactions are not wrapped, sums of latencies are [int64]. *)
From Stdlib Require Import SpecFloat.
From S2P Require Import Prelude Utils Libs Core Messages Partition Float64.

Inductive Method := ByRelay | ByBroker.

(** The two halves of cross-shard transactions in a report. *)
Definition firsts (m : Method) (b : BlockInfoMsg) : list Transaction :=
  match m with ByRelay => Relay1Txs b | ByBroker => Broker1Txs b end.
Definition seconds (m : Method) (b : BlockInfoMsg) : list Transaction :=
  match m with ByRelay => Relay2Txs b | ByBroker => Broker2Txs b end.

(** ** Slices with a row per epoch *)
Definition add_at {A} (f : A → A) (i : Z) (l : list A) : go (list A) :=
  if (0 <=? i) && (i <? len l) then Ok (alter f (Z.to_nat i) l) else Panic "index out of range".
Definition row {A} (l : list A) (i : nat) : go A :=
  match l !! i with Some x => Ok x | None => Panic "index out of range" end.

(** The loop [for epochID < epochid] appends this many rows. *)
Definition missing (epochID epochid : Z) : nat := Z.to_nat (epochid - epochID).
Definition extend {A} (zero : A) (n : nat) (l : list A) : list A := l ++ replicate n zero.

(** The fields all measures with epochs share. *)
Record counts := mkCounts {
  epochID : Z;
  normalTxNum : list Z;
  firstTxNum : list Z;
  secondTxNum : list Z;
}.
Definition no_counts : counts := mkCounts (-1) [] [] [].

Definition extend_counts (n : nat) (c : counts) : counts :=
  mkCounts (epochID c + Z.of_nat n) (extend 0 n (normalTxNum c)) (extend 0 n (firstTxNum c)) (extend 0 n (secondTxNum c)).

Definition count_report (m : Method) (b : BlockInfoMsg) (c : counts) : go counts :=
  a ← add_at (Z.add (len (InnerShardTxs b))) (Epoch b) (normalTxNum c);
  f ← add_at (Z.add (len (firsts m b))) (Epoch b) (firstTxNum c);
  s ← add_at (Z.add (len (seconds m b))) (Epoch b) (secondTxNum c);
  Ok (mkCounts (epochID c) a f s).

(** [float64(first + second) / 2] *)
Definition half_pairs (m : Method) (b : BlockInfoMsg) : float :=
  fdiv (fl_of (len (firsts m b) + len (seconds m b))) (fl_of 2).
Definition inner_num (b : BlockInfoMsg) : float := fl_of (len (InnerShardTxs b)).

(** ** Number of transactions *)
Record TestTxNumCount := mkTxNum { nCounts : counts; txNum : list float }.
Definition NewTestTxNumCount : TestTxNumCount := mkTxNum no_counts [].

Definition txNum_of (m : Method) (b : BlockInfoMsg) : float :=
  match m with
  | ByRelay => fadd (inner_num b) (half_pairs m b)
  | ByBroker => fadd (inner_num b) (fdiv (fadd (fl_of (len (Broker1Txs b))) (fl_of (len (Broker2Txs b)))) (fl_of 2))
  end.

Definition update_txnum (m : Method) (b : BlockInfoMsg) (t : TestTxNumCount) : go TestTxNumCount :=
  if BlockBodyLength b =? 0 then Ok t
  else
    let n := missing (epochID (nCounts t)) (Epoch b) in
    c ← count_report m b (extend_counts n (nCounts t));
    x ← add_at (λ x, fadd x (txNum_of m b)) (Epoch b) (extend (fl_of 0) n (txNum t));
    Ok (mkTxNum c x).

Definition fsum (l : list float) : float := foldl fadd (fl_of 0) l.
Definition output_txnum (t : TestTxNumCount) : list float * float := (txNum t, fsum (txNum t)).

Definition TestTxNumCount_Relay_Update := update_txnum ByRelay.
Definition TestTxNumCount_Relay_Output := output_txnum.
Definition TestTxNumCount_Broker : Type := TestTxNumCount.
Definition NewTestTxNumCount_Broker : TestTxNumCount_Broker := NewTestTxNumCount.
Definition TestTxNumCount_Broker_Update := update_txnum ByBroker.
Definition TestTxNumCount_Broker_Output := output_txnum.

(** ** Ratio of cross-shard transactions *)
Record TestCrossTxRate := mkCrossRate { rCounts : counts; totTxNum : list float; totCrossTxNum : list float }.
Definition NewTestCrossTxRate : TestCrossTxRate := mkCrossRate no_counts [] [].

Definition update_crossrate (m : Method) (b : BlockInfoMsg) (t : TestCrossTxRate) : go TestCrossTxRate :=
  if BlockBodyLength b =? 0 then Ok t
  else
    let n := missing (epochID (rCounts t)) (Epoch b) in
    c ← count_report m b (extend_counts n (rCounts t));
    x ← add_at (λ x, fadd x (half_pairs m b)) (Epoch b) (extend (fl_of 0) n (totCrossTxNum t));
    y ← add_at (λ y, fadd y (match m with
                             | ByRelay => fadd (half_pairs m b) (inner_num b)
                             | ByBroker => fadd (inner_num b) (half_pairs m b)
                             end)) (Epoch b) (extend (fl_of 0) n (totTxNum t));
    Ok (mkCrossRate c y x).

(** The ratio of every epoch, then both totals; and the ratio of the totals. *)
Definition output_crossrate (t : TestCrossTxRate) : go (list float * float) :=
  r ← go_fold (λ (acc : list float * float * float) (et : nat * float),
        x ← row (totCrossTxNum t) et.1;
        let '(l, tot, cross) := acc in
        Ok (l ++ [fdiv x et.2], fadd tot et.2, fadd cross x))
      ([], fl_of 0, fl_of 0) (imap pair (totTxNum t));
  let '(l, tot, cross) := r in
  Ok (l ++ [tot; cross], fdiv cross tot).

Definition TestCrossTxRate_Relay_Update := update_crossrate ByRelay.
Definition TestCrossTxRate_Relay_Output := output_crossrate.
Definition TestCrossTxRate_Broker : Type := TestCrossTxRate.
Definition NewTestCrossTxRate_Broker : TestCrossTxRate_Broker := NewTestCrossTxRate.
Definition TestCrossTxRate_Broker_Update := update_crossrate ByBroker.
Definition TestCrossTxRate_Broker_Output := output_crossrate.

(** ** Transactions per second *)

(** [Duration.Seconds] and [Duration.Milliseconds]. *)
Definition Seconds (d : Z) : float :=
  fadd (fl_of (Z.quot d 1000000000)) (fdiv (fl_of (Z.rem d 1000000000)) (fl_of 1000000000)).
Definition Milliseconds (d : Z) : Z := Z.quot d 1000000.

Record TestModule_avgTPS := mkTPS {
  tCounts : counts; excutedTxNum : list float; startTime : list Time; endTime : list Time }.
Definition NewTestModule_avgTPS : TestModule_avgTPS := mkTPS no_counts [] [] [].

Definition earlier (t : Time) (s : Time) : Time := if IsZero s || (t <? s) then t else s.
Definition later (t : Time) (e : Time) : Time := if IsZero e || (e <? t) then t else e.

Definition update_tps (m : Method) (b : BlockInfoMsg) (t : TestModule_avgTPS) : go TestModule_avgTPS :=
  if BlockBodyLength b =? 0 then Ok t
  else
    let n := missing (epochID (tCounts t)) (Epoch b) in
    x ← add_at (λ x, match m with
                     | ByRelay => fadd (fadd x (half_pairs m b)) (inner_num b)
                     | ByBroker => fadd x (fadd (inner_num b) (half_pairs m b))
                     end) (Epoch b) (extend (fl_of 0) n (excutedTxNum t));
    c ← count_report m b (extend_counts n (tCounts t));
    s ← add_at (earlier (ProposeTime b)) (Epoch b) (extend 0 n (startTime t));
    e ← add_at (later (CommitTime b)) (Epoch b) (extend 0 n (endTime t));
    Ok (mkTPS c x s e).

Definition output_tps (now : Time) (t : TestModule_avgTPS) : go (list float * float) :=
  r ← go_fold (λ (acc : list float * float * Time * Time) (ex : nat * float),
        s ← row (startTime t) ex.1;
        e ← row (endTime t) ex.1;
        let '(l, tot, eTime, lTime) := acc in
        Ok (l ++ [fdiv ex.2 (Seconds (time_Sub e s))], fadd tot ex.2,
            if s <? eTime then s else eTime, if lTime <? e then e else lTime))
      ([], fl_of 0, now, 0) (imap pair (excutedTxNum t));
  let '(l, tot, eTime, lTime) := r in
  Ok (l, fdiv tot (Seconds (time_Sub lTime eTime))).

Definition TestModule_avgTPS_Relay_Update := update_tps ByRelay.
Definition TestModule_avgTPS_Relay_Output := output_tps.
Definition TestModule_avgTPS_Broker : Type := TestModule_avgTPS.
Definition NewTestModule_avgTPS_Broker : TestModule_avgTPS_Broker := NewTestModule_avgTPS.
Definition TestModule_avgTPS_Broker_Update := update_tps ByBroker.
Definition TestModule_avgTPS_Broker_Output := output_tps.

(** ** Confirmation latency *)

(** [relay1CommitTS] holds the commit time of a first half by transaction hash, [brokerTxMap] the
    time a first half was proposed by the hash of the whole transaction. *)
Record TestModule_TCL := mkTCL {
  lCounts : counts;
  lTxNum : list float;
  totTxLatencyEpoch : list float;
  firstCommitLatency : list Z;
  secondCommitLatency : list Z;
  ctxCommitLatency : list Z;
  normalTxCommitLatency : list Z;
  firstTime : gmap string Time;
}.
Definition NewTestModule_TCL : TestModule_TCL := mkTCL no_counts [] [] [] [] [] [] ∅.

Definition latency (b : BlockInfoMsg) (t : Time) : Z := time_Sub (CommitTime b) t.
Definition add_ms (b : BlockInfoMsg) (t : Time) (x : Z) : Z := i64 (x + Milliseconds (latency b t)).
Definition add_sec (b : BlockInfoMsg) (t : Time) (x : float) : float := fadd x (Seconds (latency b t)).

(** Sums over a list of transactions; [at_] is the time the latency of one starts, if known. *)
Definition sum_ms (b : BlockInfoMsg) (at_ : Transaction → option Time) (txs : list Transaction) (x : Z) : Z :=
  foldl (λ x tx, match at_ tx with Some t => add_ms b t x | None => x end) x txs.
Definition sum_sec (b : BlockInfoMsg) (at_ : Transaction → option Time) (txs : list Transaction) (x : float) : float :=
  foldl (λ x tx, match at_ tx with Some t => add_sec b t x | None => x end) x txs.
Definition own_time (tx : Transaction) : option Time := Some (TxTime tx).

Definition update_tcl (m : Method) (b : BlockInfoMsg) (t : TestModule_TCL) : go TestModule_TCL :=
  if BlockBodyLength b =? 0 then Ok t
  else
    let n := missing (epochID (lCounts t)) (Epoch b) in
    let times := match m with
                 | ByRelay => foldl (λ ts tx, <[TxHash tx := CommitTime b]> ts) (firstTime t) (Relay1Txs b)
                 | ByBroker => foldl (λ ts tx, <[RawTxHash tx := TxTime tx]> ts) (firstTime t) (Broker1Txs b)
                 end in
    c ← count_report m b (extend_counts n (lCounts t));
    x ← add_at (λ x, fadd x (fadd (inner_num b) (half_pairs m b))) (Epoch b) (extend (fl_of 0) n (lTxNum t));
    n1 ← add_at (sum_ms b own_time (InnerShardTxs b)) (Epoch b) (extend 0 n (normalTxCommitLatency t));
    l1 ← add_at (sum_ms b own_time (firsts m b)) (Epoch b) (extend 0 n (firstCommitLatency t));
    l2 ← add_at (match m with
                 | ByRelay => sum_ms b (λ tx, times !! TxHash tx) (Relay2Txs b)
                 | ByBroker => sum_ms b own_time (Broker2Txs b)
                 end) (Epoch b) (extend 0 n (secondCommitLatency t));
    lc ← add_at (match m with
                 | ByRelay => sum_ms b (λ tx, _ ← times !! TxHash tx; own_time tx) (Relay2Txs b)
                 | ByBroker => sum_ms b (λ tx, times !! RawTxHash tx) (Broker2Txs b)
                 end) (Epoch b) (extend 0 n (ctxCommitLatency t));
    tot ← add_at (match m with
                  | ByRelay => sum_sec b own_time (InnerShardTxs b) ∘ sum_sec b own_time (Relay2Txs b)
                  | ByBroker => sum_sec b (λ tx, times !! RawTxHash tx) (Broker2Txs b)
                                ∘ sum_sec b own_time (InnerShardTxs b)
                  end) (Epoch b) (extend (fl_of 0) n (totTxLatencyEpoch t));
    Ok (mkTCL c x tot l1 l2 lc n1 times).

Definition output_tcl (t : TestModule_TCL) : go (list float * float) :=
  r ← go_fold (λ (acc : list float * float * float) (et : nat * float),
        x ← row (lTxNum t) et.1;
        let '(l, lat, tot) := acc in
        Ok (l ++ [fdiv et.2 x], fadd lat et.2, fadd tot x))
      ([], fl_of 0, fl_of 0) (imap pair (totTxLatencyEpoch t));
  let '(l, lat, tot) := r in
  Ok (l, fdiv lat tot).

Definition TestModule_TCL_Relay_Update := update_tcl ByRelay.
Definition TestModule_TCL_Relay_Output := output_tcl.
Definition TestModule_TCL_Broker : Type := TestModule_TCL.
Definition NewTestModule_TCL_Broker : TestModule_TCL_Broker := NewTestModule_TCL.
Definition TestModule_TCL_Broker_Update := update_tcl ByBroker.
Definition TestModule_TCL_Broker_Output := output_tcl.

(** ** Details of every transaction *)
Record txMetricDetailTime := mkDetail {
  TxProposeTimestamp : Time; BlockProposeTimestamp : Time; TxCommitTimestamp : Time;
  Relay1CommitTimestamp : Time; Relay2CommitTimestamp : Time;
  Broker1CommitTimestamp : Time; Broker2CommitTimestamp : Time;
}.
#[export] Instance detail_eta : Eta txMetricDetailTime := λ d,
  mkDetail (TxProposeTimestamp d) (BlockProposeTimestamp d) (TxCommitTimestamp d) (Relay1CommitTimestamp d)
    (Relay2CommitTimestamp d) (Broker1CommitTimestamp d) (Broker2CommitTimestamp d).
Definition no_detail : txMetricDetailTime := mkDetail 0 0 0 0 0 0 0.

Definition TestTxDetail := gmap string txMetricDetailTime.
Definition NewTestTxDetail : TestTxDetail := ∅.

(** The object of the key, created when it is missing, is changed in place. *)
Definition change_detail (key : string) (f : txMetricDetailTime → txMetricDetailTime) (d : TestTxDetail) : TestTxDetail :=
  <[key := f (default no_detail (d !! key))]> d.

Definition detail_inner (b : BlockInfoMsg) (tx : Transaction) (d : txMetricDetailTime) : txMetricDetailTime :=
  d <| TxProposeTimestamp := TxTime tx |> <| BlockProposeTimestamp := ProposeTime b |> <| TxCommitTimestamp := CommitTime b |>.
Definition detail_relay1 (b : BlockInfoMsg) (tx : Transaction) (d : txMetricDetailTime) : txMetricDetailTime :=
  d <| TxProposeTimestamp := TxTime tx |> <| BlockProposeTimestamp := ProposeTime b |> <| Relay1CommitTimestamp := CommitTime b |>.
Definition detail_relay2 (b : BlockInfoMsg) (d : txMetricDetailTime) : txMetricDetailTime :=
  d <| Relay2CommitTimestamp := CommitTime b |> <| TxCommitTimestamp := CommitTime b |>.
Definition detail_broker1 (b : BlockInfoMsg) (tx : Transaction) (d : txMetricDetailTime) : txMetricDetailTime :=
  d <| TxProposeTimestamp := TxTime tx |> <| BlockProposeTimestamp := ProposeTime b |> <| Broker1CommitTimestamp := CommitTime b |>.
Definition detail_broker2 (b : BlockInfoMsg) (d : txMetricDetailTime) : txMetricDetailTime :=
  d <| Broker2CommitTimestamp := CommitTime b |> <| TxCommitTimestamp := CommitTime b |>.

(** What a report tells: a key and a change for every transaction, in the order of the loops. *)
Definition detail_changes (b : BlockInfoMsg) : list (string * (txMetricDetailTime → txMetricDetailTime)) :=
  ((λ tx, (TxHash tx, detail_inner b tx)) <$> InnerShardTxs b) ++
  ((λ tx, (TxHash tx, detail_relay1 b tx)) <$> Relay1Txs b) ++
  ((λ tx, (TxHash tx, detail_relay2 b)) <$> Relay2Txs b) ++
  ((λ tx, (RawTxHash tx, detail_broker1 b tx)) <$> Broker1Txs b) ++
  ((λ tx, (RawTxHash tx, detail_broker2 b)) <$> Broker2Txs b).

Definition update_detail (b : BlockInfoMsg) (d : TestTxDetail) : TestTxDetail :=
  if BlockBodyLength b =? 0 then d
  else foldl (λ d kf, change_detail kf.1 kf.2 d) d (detail_changes b).

(** The last column of the file: the latency of a transaction in milliseconds. *)
Definition confirmed_latency (d : txMetricDetailTime) : Z :=
  Milliseconds (time_Sub (TxCommitTimestamp d) (TxProposeTimestamp d)).

(** ** The interface [MeasureModule] and its implementations *)
Class MeasureModule (M : Type) := {
  UpdateMeasureRecord : BlockInfoMsg → M → go M;
  OutputMetricName : M → string;
  OutputRecord : Time → M → go (list float * float);
}.

Inductive measure_module :=
| TPS (m : Method) (t : TestModule_avgTPS)
| TCL (m : Method) (t : TestModule_TCL)
| CrossTxRate (m : Method) (t : TestCrossTxRate)
| TxNumberCount (m : Method) (t : TestTxNumCount)
| Tx_Details (t : TestTxDetail).

#[export] Instance AnyMeasure : MeasureModule measure_module := {|
  UpdateMeasureRecord b mm :=
    match mm with
    | TPS m t => t ← update_tps m b t; Ok (TPS m t)
    | TCL m t => t ← update_tcl m b t; Ok (TCL m t)
    | CrossTxRate m t => t ← update_crossrate m b t; Ok (CrossTxRate m t)
    | TxNumberCount m t => t ← update_txnum m b t; Ok (TxNumberCount m t)
    | Tx_Details t => Ok (Tx_Details (update_detail b t))
    end;
  OutputMetricName mm :=
    match mm with
    | TPS _ _ => "Average_TPS"
    | TCL _ _ => "Transaction_Confirm_Latency"
    | CrossTxRate _ _ => "CrossTransaction_ratio"
    | TxNumberCount _ _ => "Tx_number"
    | Tx_Details _ => "Tx_Details"
    end;
  OutputRecord now mm :=
    match mm with
    | TPS _ t => output_tps now t
    | TCL _ t => output_tcl t
    | CrossTxRate _ t => output_crossrate t
    | TxNumberCount _ t => Ok (output_txnum t)
    | Tx_Details _ => Ok ([], fl_of 0)
    end |}.

(** The measures of [NewSupervisor]: unknown names are skipped. *)
Definition new_measure (name : string) : option measure_module :=
  if bool_decide (name = "TPS_Relay") then Some (TPS ByRelay NewTestModule_avgTPS)
  else if bool_decide (name = "TPS_Broker") then Some (TPS ByBroker NewTestModule_avgTPS)
  else if bool_decide (name = "TCL_Relay") then Some (TCL ByRelay NewTestModule_TCL)
  else if bool_decide (name = "TCL_Broker") then Some (TCL ByBroker NewTestModule_TCL)
  else if bool_decide (name = "CrossTxRate_Relay") then Some (CrossTxRate ByRelay NewTestCrossTxRate)
  else if bool_decide (name = "CrossTxRate_Broker") then Some (CrossTxRate ByBroker NewTestCrossTxRate)
  else if bool_decide (name = "TxNumberCount_Relay") then Some (TxNumberCount ByRelay NewTestTxNumCount)
  else if bool_decide (name = "TxNumberCount_Broker") then Some (TxNumberCount ByBroker NewTestTxNumCount)
  else if bool_decide (name = "Tx_Details") then Some (Tx_Details NewTestTxDetail)
  else None.
Definition new_measures (names : list string) : list measure_module := omap new_measure names.
