(* ===== verification/MeasureFacts.v ===== *)
(** * Properties of the measures

    The rows of the measures are functions of the reports: exact sums per epoch, in spite of
    [float64], whatever the order in which the reports of the shards arrive. *)
From Stdlib Require Import SpecFloat.
From S2P Require Import Prelude Utils Libs Core Messages Partition Float64 Measure.

(** ** Columns *)
Definition column {A} (n : nat) (v : Z → A) : list A := (λ i : nat, v (Z.of_nat i)) <$> seq 0 n.

Lemma column_lookup {A} n (v : Z → A) i : (i < n)%nat → column n v !! i = Some (v (Z.of_nat i)).
Proof. intros Hi. unfold column. by rewrite list_lookup_fmap, lookup_seq_lt. Qed.

Lemma column_length {A} n (v : Z → A) : length (column n v) = n.
Proof. unfold column. by rewrite length_fmap, length_seq. Qed.

Lemma column_ext {A} n (v w : Z → A) : (∀ e, 0 ≤ e → v e = w e) → column n v = column n w.
Proof. intros Hv. unfold column. apply list_fmap_ext. intros ???. apply Hv. lia. Qed.

(** Growing the slices and changing the row of one epoch. *)
Lemma column_step {A} (zero : A) (f : A → A) (n k : nat) (e : Z) (v w : Z → A) :
  0 ≤ e < Z.of_nat (n + k) → (∀ i, Z.of_nat n ≤ i → v i = zero) →
  w e = f (v e) → (∀ i, i ≠ e → w i = v i) →
  add_at f e (extend zero k (column n v)) = Ok (column (n + k) w).
Proof.
  intros He Hz Hwe Hw.
  assert (extend zero k (column n v) = column (n + k) v) as ->.
  { unfold extend, column. rewrite seq_app, fmap_app. f_equal. symmetry.
    apply list_eq. intros i. rewrite list_lookup_fmap.
    destruct (decide (i < k)%nat) as [Hi|Hi].
    - rewrite lookup_seq_lt, lookup_replicate_2 by done. cbn. f_equal. apply Hz. lia.
    - rewrite !lookup_ge_None_2; [done|rewrite length_replicate; lia|rewrite length_seq; lia]. }
  unfold add_at, len. rewrite column_length, (proj2 (Z.leb_le 0 e)), (proj2 (Z.ltb_lt _ _)) by lia. cbn [andb].
  f_equal. apply list_eq. intros i. destruct (decide (i < n + k)%nat) as [Hi|Hi].
  - destruct (decide (i = Z.to_nat e)) as [->|Hne].
    + rewrite list_lookup_alter_eq, !column_lookup by lia. cbn. by rewrite Z2Nat.id, Hwe by lia.
    + rewrite list_lookup_alter_ne by congruence. rewrite !column_lookup, Hw by lia. done.
  - rewrite !lookup_ge_None_2; [done|rewrite column_length; lia|rewrite length_alter, column_length; lia].
Qed.

(** ** What the reports say *)
Definition live (b : BlockInfoMsg) : bool := negb (BlockBodyLength b =? 0).
Definition of_epoch (e : Z) (bs : list BlockInfoMsg) : list BlockInfoMsg :=
  List.filter (λ b, live b && (Epoch b =? e)) bs.
Definition total (f : BlockInfoMsg → Z) (e : Z) (bs : list BlockInfoMsg) : Z := sumZ f (of_epoch e bs).
Definition last_epoch (bs : list BlockInfoMsg) : Z :=
  foldr (λ b z, if live b then Z.max (Epoch b) z else z) (-1) bs.
Definition rows (bs : list BlockInfoMsg) : nat := Z.to_nat (last_epoch bs + 1).

Definition pairs (m : Method) (b : BlockInfoMsg) : Z := len (firsts m b) + len (seconds m b).
(** Twice the number of transactions, a half counting as half a transaction. *)
Definition halves (m : Method) (b : BlockInfoMsg) : Z := 2 * len (InnerShardTxs b) + pairs m b.

Lemma last_epoch_ge bs : -1 ≤ last_epoch bs.
Proof. unfold last_epoch. induction bs as [|b bs IH]; cbn [foldr]; [done|]. destruct (live b); lia. Qed.

Lemma last_epoch_app bs b :
  last_epoch (bs ++ [b]) = if live b then Z.max (last_epoch bs) (Epoch b) else last_epoch bs.
Proof.
  unfold last_epoch. induction bs as [|x bs IH]; cbn [app foldr]; [destruct (live b); lia|].
  rewrite IH. destruct (live x), (live b); lia.
Qed.

Lemma total_app f e bs b : total f e (bs ++ [b]) = total f e bs + (if live b && (Epoch b =? e) then f b else 0).
Proof.
  unfold total, of_epoch. rewrite List.filter_app, sumZ_app. f_equal. cbn. destruct (live b && (Epoch b =? e)); cbn; lia.
Qed.

Lemma total_late f e bs : last_epoch bs < e → total f e bs = 0.
Proof.
  unfold total, of_epoch, last_epoch. induction bs as [|b bs IH]; [done|]. cbn [foldr List.filter]. intros He.
  destruct (live b); cbn [andb]; [|by apply IH]. destruct (Z.eqb_spec (Epoch b) e); [lia|]. apply IH. lia.
Qed.

Lemma total_nonneg f e bs : (∀ b, 0 ≤ f b) → 0 ≤ total f e bs.
Proof. intros Hf. apply sumZ_nonneg. intros; apply Hf. Qed.

Lemma total_le f e bs : (∀ b, 0 ≤ f b) → total f e bs ≤ sumZ f bs.
Proof.
  intros Hf. unfold total, of_epoch. induction bs as [|b bs IH]; [done|]. cbn [List.filter].
  pose proof (Hf b). destruct (live b && (Epoch b =? e)); rewrite ?sumZ_cons; lia.
Qed.

(** The measure of one column: a report adds its value to the row of its epoch. *)
Definition num_column (f : BlockInfoMsg → Z) (bs : list BlockInfoMsg) : list Z := column (rows bs) (λ e, total f e bs).
Definition half_column (f : BlockInfoMsg → Z) (bs : list BlockInfoMsg) : list float :=
  column (rows bs) (λ e, f_half (total f e bs)).

(** One report on the state after [bs]. *)
Section report.
Context (bs : list BlockInfoMsg) (b : BlockInfoMsg).
Hypothesis b_live : live b = true.
Hypothesis b_epoch : 0 ≤ Epoch b.
Let k := missing (last_epoch bs) (Epoch b).

Lemma rows_app : rows (bs ++ [b]) = (rows bs + k)%nat.
Proof.
  unfold rows, k, missing. pose proof (last_epoch_ge bs). rewrite last_epoch_app, b_live. lia.
Qed.

Lemma row_in : 0 ≤ Epoch b < Z.of_nat (rows bs + k).
Proof. unfold rows, k, missing. pose proof (last_epoch_ge bs). lia. Qed.

Lemma rows_late i : Z.of_nat (rows bs) ≤ i → last_epoch bs < i.
Proof. unfold rows. pose proof (last_epoch_ge bs). lia. Qed.

Lemma total_here f : total f (Epoch b) (bs ++ [b]) = total f (Epoch b) bs + f b.
Proof. by rewrite total_app, b_live, Z.eqb_refl. Qed.

Lemma total_elsewhere f e : e ≠ Epoch b → total f e (bs ++ [b]) = total f e bs.
Proof. intros He. rewrite total_app, (proj2 (Z.eqb_neq (Epoch b) e)) by done. rewrite andb_false_r. lia. Qed.

Lemma num_step (f : BlockInfoMsg → Z) :
  add_at (Z.add (f b)) (Epoch b) (extend 0 k (num_column f bs)) = Ok (num_column f (bs ++ [b])).
Proof.
  unfold num_column. rewrite rows_app. apply column_step; [apply row_in|..].
  - intros i Hi. apply total_late, rows_late, Hi.
  - rewrite total_here. lia.
  - intros i Hi. by apply total_elsewhere.
Qed.

Lemma half_step (f : BlockInfoMsg → Z) (g : float → float) : (∀ b, 0 ≤ f b) → sumZ f (bs ++ [b]) < 2 ^ 53 →
  (∀ z, 0 ≤ z → z + f b < 2 ^ 53 → g (f_half z) = f_half (z + f b)) →
  add_at g (Epoch b) (extend (fl_of 0) k (half_column f bs)) = Ok (half_column f (bs ++ [b])).
Proof.
  intros Hf Hs Hg. unfold half_column. rewrite rows_app. apply column_step; [apply row_in|..].
  - intros i Hi. by rewrite total_late by by apply rows_late.
  - rewrite total_here, Hg; [done|by apply total_nonneg|].
    rewrite <-total_here. pose proof (total_le f (Epoch b) (bs ++ [b]) Hf). lia.
  - intros i Hi. by rewrite total_elsewhere.
Qed.
End report.

(** ** The counting measures *)
Definition counts_of (m : Method) (bs : list BlockInfoMsg) : counts :=
  mkCounts (last_epoch bs) (num_column (λ b, len (InnerShardTxs b)) bs)
    (num_column (λ b, len (firsts m b)) bs) (num_column (λ b, len (seconds m b)) bs).

Lemma counts_step m bs b : live b = true → 0 ≤ Epoch b →
  count_report m b (extend_counts (missing (last_epoch bs) (Epoch b)) (counts_of m bs)) = Ok (counts_of m (bs ++ [b])).
Proof.
  intros Hl He. unfold count_report, extend_counts. cbn [epochID normalTxNum firstTxNum secondTxNum counts_of].
  rewrite (num_step bs b Hl He (λ b, len (InnerShardTxs b))). cbn [mbind go_bind].
  rewrite (num_step bs b Hl He (λ b, len (firsts m b))). cbn [mbind go_bind].
  rewrite (num_step bs b Hl He (λ b, len (seconds m b))). cbn [mbind go_bind].
  unfold counts_of. do 2 f_equal. rewrite last_epoch_app, Hl. unfold missing. lia.
Qed.

Lemma pairs_nonneg m b : 0 ≤ pairs m b.
Proof. unfold pairs, len. lia. Qed.
Lemma halves_nonneg m b : 0 ≤ halves m b.
Proof. unfold halves, pairs, len. lia. Qed.

(** The float expressions of the code are exact. *)
Lemma half_pairs_exact m b : pairs m b < 2 ^ 53 → half_pairs m b = f_half (pairs m b).
Proof. intros Hp. pose proof (pairs_nonneg m b). unfold half_pairs. by rewrite fl_of_div2 by (unfold pairs in *; lia). Qed.

Lemma inner_exact m b : halves m b < 2 ^ 53 → inner_num b = f_half (2 * len (InnerShardTxs b)).
Proof.
  intros Hh. pose proof (pairs_nonneg m b). unfold inner_num. unfold halves, len in *. apply f_half_even; lia.
Qed.

Lemma txNum_exact m b : halves m b < 2 ^ 53 → txNum_of m b = f_half (halves m b).
Proof.
  intros Hh. pose proof (pairs_nonneg m b). assert (pairs m b < 2 ^ 53) by (unfold halves, len in *; lia).
  unfold txNum_of. rewrite (inner_exact m) by done. destruct m.
  - rewrite half_pairs_exact, f_half_add by (unfold halves, len in *; lia). done.
  - rewrite fl_of_add by (unfold pairs, len in *; cbn in *; lia).
    change (fadd (f_half (2 * len (InnerShardTxs b))) (half_pairs ByBroker b) = f_half (halves ByBroker b)).
    rewrite half_pairs_exact, f_half_add by (unfold halves, len in *; lia). done.
Qed.

(** Reports that can be measured: no negative epochs, and few enough transactions. *)
Record measurable (m : Method) (bs : list BlockInfoMsg) : Prop := {
  ms_epochs : Forall (λ b, live b = true → 0 ≤ Epoch b) bs;
  ms_bound : sumZ (halves m) bs < 2 ^ 53;
}.

Lemma measurable_app m bs b : measurable m (bs ++ [b]) →
  measurable m bs ∧ (live b = true → 0 ≤ Epoch b) ∧ halves m b < 2 ^ 53 ∧ pairs m b < 2 ^ 53 ∧
  sumZ (pairs m) (bs ++ [b]) < 2 ^ 53.
Proof.
  intros [[He Hb]%Forall_app Hs]. rewrite Forall_singleton in Hb. pose proof (halves_nonneg m b).
  assert (0 ≤ sumZ (halves m) bs) by (apply sumZ_nonneg; intros; apply halves_nonneg).
  assert (sumZ (pairs m) (bs ++ [b]) ≤ sumZ (halves m) (bs ++ [b])).
  { apply sumZ_mono. intros x _. unfold halves, len. lia. }
  assert (sumZ (halves m) bs + halves m b < 2 ^ 53) as Hs' by (rewrite sumZ_app in Hs; cbn [sumZ foldr] in Hs; lia).
  assert (pairs m b ≤ halves m b) by (unfold halves, len; lia).
  split; [split; [done|lia]|]. split; [exact Hb|]. lia.
Qed.

Lemma not_live b : live b = false → (BlockBodyLength b =? 0) = true.
Proof. unfold live. by destruct (BlockBodyLength b =? 0). Qed.
Lemma is_live b : live b = true → (BlockBodyLength b =? 0) = false.
Proof. unfold live. by destruct (BlockBodyLength b =? 0). Qed.

(** An empty block changes no row. *)
Lemma column_idle {A} (v w : Z → A) bs b : live b = false → (∀ e, v e = w e) → column (rows bs) v = column (rows (bs ++ [b])) w.
Proof. intros Hl Hv. unfold rows. rewrite last_epoch_app, Hl. by apply column_ext. Qed.

Lemma total_idle f e bs b : live b = false → total f e (bs ++ [b]) = total f e bs.
Proof. intros Hl. rewrite total_app, Hl. cbn. lia. Qed.

Lemma num_idle f bs b : live b = false → num_column f bs = num_column f (bs ++ [b]).
Proof. intros Hl. apply column_idle; [done|]. intros e. by rewrite total_idle. Qed.
Lemma half_idle f bs b : live b = false → half_column f bs = half_column f (bs ++ [b]).
Proof. intros Hl. apply column_idle; [done|]. intros e. by rewrite total_idle. Qed.
Lemma counts_idle m bs b : live b = false → counts_of m bs = counts_of m (bs ++ [b]).
Proof.
  intros Hl. unfold counts_of. by rewrite <-!(num_idle _ bs b Hl), last_epoch_app, Hl.
Qed.

(** A column of [float64] to which every report adds [g b]. *)
Lemma half_step_add m bs b f (g : float) : measurable m (bs ++ [b]) → live b = true → (∀ b, 0 ≤ f b ≤ halves m b) →
  g = f_half (f b) →
  add_at (λ x, fadd x g) (Epoch b) (extend (fl_of 0) (missing (last_epoch bs) (Epoch b)) (half_column f bs)) =
    Ok (half_column f (bs ++ [b])).
Proof.
  intros Hm Hl Hf ->. pose proof (measurable_app m bs b Hm) as (_ & He & _). apply half_step; [done|by apply He|apply Hf|..].
  - eapply Z.le_lt_trans; [apply sumZ_mono; intros; apply Hf|apply Hm].
  - intros z Hz Hb. destruct (Hf b). by apply f_half_add.
Qed.

Lemma run_snoc {A} (upd : BlockInfoMsg → A → go A) s bs b s1 :
  go_fold (λ t b, upd b t) s bs = Ok s1 → go_fold (λ t b, upd b t) s (bs ++ [b]) = upd b s1.
Proof. intros E. rewrite go_fold_app, E. cbn. by destruct (upd b s1). Qed.

Lemma txnum_run m bs : measurable m bs →
  go_fold (λ t b, update_txnum m b t) NewTestTxNumCount bs = Ok (mkTxNum (counts_of m bs) (half_column (halves m) bs)).
Proof.
  induction bs as [|b bs IH] using rev_ind; intros Hm; [done|].
  pose proof (measurable_app m bs b Hm) as (Hm' & He & Hh & _). rewrite (run_snoc _ _ _ _ _ (IH Hm')).
  unfold update_txnum. destruct (live b) eqn:Hl.
  - rewrite is_live by done. cbn [nCounts txNum]. change (epochID (counts_of m bs)) with (last_epoch bs).
    rewrite counts_step by auto. cbn [mbind go_bind].
    rewrite (half_step_add m bs b (halves m)); [done|done|done|intros; split; [apply halves_nonneg|done]|by apply txNum_exact].
  - rewrite not_live by done. by rewrite <-counts_idle, <-half_idle.
Qed.

Lemma crossrate_run m bs : measurable m bs →
  go_fold (λ t b, update_crossrate m b t) NewTestCrossTxRate bs =
    Ok (mkCrossRate (counts_of m bs) (half_column (halves m) bs) (half_column (pairs m) bs)).
Proof.
  induction bs as [|b bs IH] using rev_ind; intros Hm; [done|].
  pose proof (measurable_app m bs b Hm) as (Hm' & He & Hh & Hp & _). rewrite (run_snoc _ _ _ _ _ (IH Hm')).
  pose proof (pairs_nonneg m b).
  unfold update_crossrate. destruct (live b) eqn:Hl.
  - rewrite is_live by done. cbn [rCounts totTxNum totCrossTxNum]. change (epochID (counts_of m bs)) with (last_epoch bs).
    rewrite counts_step by auto. cbn [mbind go_bind].
    rewrite (half_step_add m bs b (pairs m));
      [|done|done|intros x; pose proof (pairs_nonneg m x); unfold halves, len in *; lia|by apply half_pairs_exact].
    cbn [mbind go_bind].
    rewrite (half_step_add m bs b (halves m)); [done|done|done|intros; split; [apply halves_nonneg|done]|].
    rewrite (inner_exact m), half_pairs_exact by done.
    destruct m; rewrite f_half_add by (unfold halves, len in *; lia); f_equal; unfold halves; lia.
  - rewrite not_live by done. by rewrite <-counts_idle, <-!half_idle.
Qed.

(** A column in which every report of an epoch changes the row by [g b]. *)
Definition fold_column {A} (zero : A) (g : BlockInfoMsg → A → A) (bs : list BlockInfoMsg) : list A :=
  column (rows bs) (λ e, foldl (λ x b, g b x) zero (of_epoch e bs)).

Lemma of_epoch_app e bs b : of_epoch e (bs ++ [b]) = of_epoch e bs ++ (if live b && (Epoch b =? e) then [b] else []).
Proof. unfold of_epoch. by rewrite List.filter_app. Qed.

Lemma of_epoch_late e bs : last_epoch bs < e → of_epoch e bs = [].
Proof.
  unfold of_epoch, last_epoch. induction bs as [|b bs IH]; [done|]. cbn [foldr List.filter]. intros He.
  destruct (live b); cbn [andb]; [|by apply IH]. destruct (Z.eqb_spec (Epoch b) e); [lia|]. apply IH. lia.
Qed.

Lemma fold_step {A} (zero : A) g bs b : live b = true → 0 ≤ Epoch b →
  add_at (g b) (Epoch b) (extend zero (missing (last_epoch bs) (Epoch b)) (fold_column zero g bs)) =
    Ok (fold_column zero g (bs ++ [b])).
Proof.
  intros Hl He. unfold fold_column. rewrite rows_app by done. apply column_step; [by apply row_in|..].
  - intros i Hi. by rewrite of_epoch_late by by apply rows_late.
  - by rewrite of_epoch_app, Hl, Z.eqb_refl, foldl_app.
  - intros i Hi. rewrite of_epoch_app, (proj2 (Z.eqb_neq (Epoch b) i)), andb_false_r by done. by rewrite app_nil_r.
Qed.

Lemma fold_idle {A} (zero : A) g bs b : live b = false → fold_column zero g bs = fold_column zero g (bs ++ [b]).
Proof. intros Hl. apply column_idle; [done|]. intros e. by rewrite of_epoch_app, Hl, app_nil_r. Qed.

Lemma tps_run m bs : measurable m bs →
  go_fold (λ t b, update_tps m b t) NewTestModule_avgTPS bs =
    Ok (mkTPS (counts_of m bs) (half_column (halves m) bs)
          (fold_column 0 (λ b, earlier (ProposeTime b)) bs) (fold_column 0 (λ b, later (CommitTime b)) bs)).
Proof.
  induction bs as [|b bs IH] using rev_ind; intros Hm; [done|].
  pose proof (measurable_app m bs b Hm) as (Hm' & He & Hh & Hp & _). rewrite (run_snoc _ _ _ _ _ (IH Hm')).
  pose proof (pairs_nonneg m b).
  unfold update_tps. destruct (live b) eqn:Hl.
  - rewrite is_live by done. cbn [tCounts excutedTxNum startTime endTime]. change (epochID (counts_of m bs)) with (last_epoch bs).
    rewrite (half_step bs b Hl (He eq_refl) (halves m)); [|apply halves_nonneg|apply Hm|].
    2: { intros z Hz Hb. rewrite (inner_exact m), half_pairs_exact by done.
         destruct m; rewrite !f_half_add by (unfold halves, len in *; lia); f_equal; unfold halves; lia. }
    cbn [mbind go_bind]. rewrite counts_step by auto. cbn [mbind go_bind].
    rewrite (fold_step 0 (λ b, earlier (ProposeTime b)) bs b Hl (He eq_refl)). cbn [mbind go_bind].
    by rewrite (fold_step 0 (λ b, later (CommitTime b)) bs b Hl (He eq_refl)).
  - rewrite not_live by done. by rewrite <-counts_idle, <-half_idle, <-!fold_idle.
Qed.

(** ** Totals *)
Lemma total_sum f bs n : Forall (λ b, live b = true → 0 ≤ Epoch b) bs → (rows bs ≤ n)%nat →
  sumZ (λ i : nat, total f (Z.of_nat i) bs) (seq 0 n) = sumZ f (List.filter live bs).
Proof.
  induction bs as [|b bs IH] using rev_ind; intros He Hn.
  { apply sumZ_zero. done. }
  apply Forall_app in He as [He Hb]. rewrite Forall_singleton in Hb. rewrite (sumZ_ext _ (λ i : nat, total f (Z.of_nat i) bs +
    (if live b && (Epoch b =? Z.of_nat i) then f b else 0))) by (intros; apply total_app).
  rewrite sumZ_add, IH, List.filter_app, sumZ_app; [|done|].
  2: { unfold rows in *. rewrite last_epoch_app in Hn. destruct (live b); lia. }
  f_equal. cbn [List.filter]. destruct (live b) eqn:Hl; [|by apply sumZ_zero].
  rewrite (sumZ_ext _ (λ i : nat, if decide (i = Z.to_nat (Epoch b)) then f b else 0)).
  - rewrite sumZ_single; [cbn; lia|apply NoDup_seq|]. apply elem_of_seq.
    unfold rows in Hn. rewrite last_epoch_app, Hl in Hn. specialize (Hb eq_refl). lia.
  - intros i _. specialize (Hb eq_refl). cbn [andb].
    destruct (Z.eqb_spec (Epoch b) (Z.of_nat i)), (decide (i = Z.to_nat (Epoch b))); [done|lia|lia|done].
Qed.

Lemma fold_halves (zs : list nat) (v : Z → Z) a : (∀ i, 0 ≤ v i) → 0 ≤ a → a + sumZ (λ i : nat, v (Z.of_nat i)) zs < 2 ^ 53 →
  foldl fadd (f_half a) ((λ i : nat, f_half (v (Z.of_nat i))) <$> zs) = f_half (a + sumZ (λ i : nat, v (Z.of_nat i)) zs).
Proof.
  intros Hv. revert a. induction zs as [|i zs IH]; intros a Ha Hs; [cbn; by rewrite Z.add_0_r|].
  rewrite sumZ_cons in Hs |- *. pose proof (Hv (Z.of_nat i)).
  assert (0 ≤ sumZ (λ i : nat, v (Z.of_nat i)) zs) by (apply sumZ_nonneg; intros; apply Hv).
  cbn [fmap list_fmap foldl]. rewrite f_half_add, IH by lia. f_equal. lia.
Qed.

Lemma live_sum_le f bs : (∀ b, 0 ≤ f b) → sumZ f (List.filter live bs) ≤ sumZ f bs.
Proof.
  intros Hf. induction bs as [|b bs IH]; [done|]. cbn [List.filter]. pose proof (Hf b).
  destruct (live b); rewrite ?sumZ_cons; lia.
Qed.

Lemma fsum_half f bs : Forall (λ b, live b = true → 0 ≤ Epoch b) bs → (∀ b, 0 ≤ f b) → sumZ f bs < 2 ^ 53 →
  fsum (half_column f bs) = f_half (sumZ f (List.filter live bs)).
Proof.
  intros He Hf Hs. unfold fsum, half_column, column. change (fl_of 0) with (f_half 0).
  rewrite (fold_halves _ (λ e, total f e bs)), total_sum; try done.
  - intros i. by apply total_nonneg.
  - rewrite total_sum by done. pose proof (live_sum_le f bs Hf). lia.
Qed.

(** ** Results *)

(** The loop over the rows of two columns of the same length. *)
Lemma rows_loop {A B S} (body : S → B → A → S) (ys : list A) (pre : list B) (xs : list B) (s : S) :
  length xs = length ys →
  go_fold (λ s (iy : nat * A), x ← row (pre ++ xs) iy.1; Ok (body s x iy.2)) s
      (imap (λ i y, (length pre + i, y)%nat) ys) =
    Ok (foldl (λ s xy, body s xy.1 xy.2) s (zip xs ys)).
Proof.
  revert pre xs s. induction ys as [|y ys IH]; intros pre [|x xs] s Hl; try done. cbn [imap go_fold zip zip_with foldl].
  assert (row (pre ++ x :: xs) (length pre + 0) = Ok x) as E.
  { unfold row. rewrite Nat.add_0_r, lookup_app_r, Nat.sub_diag by done. done. }
  cbn [fst snd]. rewrite E. cbn [mbind go_bind].
  specialize (IH (pre ++ [x]) xs (body s x y) ltac:(by injection Hl)). rewrite <-IH, <-app_assoc. cbn [app].
  f_equal. apply imap_ext. intros i z _. cbn. rewrite length_app. cbn. f_equal. lia.
Qed.

Lemma rows_loop_all {A B S} (body : S → B → A → S) (ys : list A) (xs : list B) (s : S) : length xs = length ys →
  go_fold (λ s (iy : nat * A), x ← row xs iy.1; Ok (body s x iy.2)) s (imap pair ys) =
    Ok (foldl (λ s xy, body s xy.1 xy.2) s (zip xs ys)).
Proof. intros Hl. by rewrite <-(rows_loop body ys [] xs s Hl). Qed.

Lemma half_column_length f g bs : length (half_column f bs) = length (half_column g bs).
Proof. unfold half_column. by rewrite !column_length. Qed.

Definition ratio_step (s : list float * float * float) (x y : float) : list float * float * float :=
  let '(l, tot, cross) := s in (l ++ [fdiv x y], fadd tot y, fadd cross x).

Lemma ratio_loop xs ys l a c : length xs = length ys →
  ∃ l', foldl (λ s xy, ratio_step s xy.1 xy.2) (l, a, c) (zip xs ys) = (l', foldl fadd a ys, foldl fadd c xs).
Proof.
  revert ys l a c. induction xs as [|x xs IH]; intros [|y ys] l a c Hxy; try done; [by exists l|].
  cbn. apply IH. by injection Hxy.
Qed.

Lemma crossrate_output t : length (totCrossTxNum t) = length (totTxNum t) →
  ∃ l, output_crossrate t = Ok (l ++ [fsum (totTxNum t); fsum (totCrossTxNum t)],
                                fdiv (fsum (totCrossTxNum t)) (fsum (totTxNum t))).
Proof.
  intros Hl. destruct (ratio_loop (totCrossTxNum t) (totTxNum t) [] (fl_of 0) (fl_of 0) Hl) as [l' E]. exists l'.
  unfold output_crossrate.
  rewrite (go_fold_ext _ (λ s iy, x ← row (totCrossTxNum t) iy.1; Ok (ratio_step s x iy.2)))
    by (intros [[l a] c] et; by destruct (row _ _)).
  by rewrite (rows_loop_all ratio_step _ _ _ Hl), E.
Qed.

(** The order in which the reports arrive does not matter. *)
Lemma last_epoch_perm bs bs' : bs ≡ₚ bs' → last_epoch bs = last_epoch bs'.
Proof.
  unfold last_epoch. induction 1 as [|b l l' _ IH|b c l|l1 l2 l3 _ IH1 _ IH2]; cbn [foldr]; [done|by rewrite IH| |congruence].
  destruct (live b), (live c); lia.
Qed.

Lemma half_column_perm f bs bs' : bs ≡ₚ bs' → half_column f bs = half_column f bs'.
Proof.
  intros Hp. unfold half_column, rows. rewrite (last_epoch_perm _ _ Hp). apply column_ext. intros e _.
  unfold total, of_epoch. by rewrite Hp.
Qed.

Lemma measurable_perm m bs bs' : bs ≡ₚ bs' → measurable m bs → measurable m bs'.
Proof. intros Hp [He Hs]. split; [by rewrite <-Hp|by rewrite <-Hp]. Qed.

(** The measures count exactly.  From reports without negative epochs and with fewer than 2^52
    transactions in all, the three counting measures of each method never panic; their [float64]
    columns hold, for every epoch up to the last one reported, exactly the number of transactions
    (a half counting one half) of the non-empty blocks of the epoch; the totals and the ratio of
    cross-shard transactions returned at the end are those of all non-empty blocks; and nothing
    depends on the order in which the reports arrive. *)
Theorem measures_exact (m : Method) (bs bs' : list BlockInfoMsg) : measurable m bs → bs' ≡ₚ bs →
  let counted := List.filter live bs in
  ∃ t r x l, go_fold (λ t b, update_txnum m b t) NewTestTxNumCount bs' = Ok t ∧
    go_fold (λ t b, update_crossrate m b t) NewTestCrossTxRate bs' = Ok r ∧
    go_fold (λ t b, update_tps m b t) NewTestModule_avgTPS bs' = Ok x ∧
    output_txnum t = (half_column (halves m) bs, f_half (sumZ (halves m) counted)) ∧
    excutedTxNum x = half_column (halves m) bs ∧ totTxNum r = half_column (halves m) bs ∧
    totCrossTxNum r = half_column (pairs m) bs ∧
    output_crossrate r = Ok (l ++ [f_half (sumZ (halves m) counted); f_half (sumZ (pairs m) counted)],
                             fdiv (f_half (sumZ (pairs m) counted)) (f_half (sumZ (halves m) counted))).
Proof.
  intros Hm Hp counted. pose proof (measurable_perm _ _ _ (symmetry Hp) Hm) as Hm'. destruct Hm as [He Hs].
  assert (sumZ (pairs m) bs < 2 ^ 53).
  { eapply Z.le_lt_trans; [|exact Hs]. apply sumZ_mono. intros b _. unfold halves, len. lia. }
  set (r := mkCrossRate (counts_of m bs') (half_column (halves m) bs') (half_column (pairs m) bs')).
  destruct (crossrate_output r (half_column_length _ _ bs')) as [l Ho].
  eexists _, r, _, l. split; [by apply txnum_run|]. split; [by apply crossrate_run|]. split; [by apply tps_run|].
  unfold output_txnum. unfold r in *. cbn [txNum excutedTxNum totTxNum totCrossTxNum] in *.
  rewrite !(half_column_perm _ bs' bs Hp), !fsum_half in Ho |- * by (done || apply halves_nonneg || apply pairs_nonneg).
  split_and!; [done..|]. by rewrite (fsum_half (pairs m)) in Ho by (done || apply pairs_nonneg).
Qed.

(** ** Throughput when an epoch has no block *)
Definition tps_step (s : list float * float * Time * Time) (se : Time * Time) (x : float)
    : list float * float * Time * Time :=
  let '(l, tot, eTime, lTime) := s in
  (l ++ [fdiv x (Seconds (time_Sub se.2 se.1))], fadd tot x,
   if se.1 <? eTime then se.1 else eTime, if lTime <? se.2 then se.2 else lTime).

Lemma tps_loop ses xs l a e0 l0 : length ses = length xs →
  ∃ l', foldl (λ s sx, tps_step s sx.1 sx.2) (l, a, e0, l0) (zip ses xs) =
    (l', foldl fadd a xs, foldl Z.min e0 ses.*1, foldl Z.max l0 ses.*2).
Proof.
  revert xs l a e0 l0. induction ses as [|[s e] ses IH]; intros [|x xs] l a e0 l0 Hl; try done; [by exists l|].
  cbn [zip zip_with foldl fmap list_fmap fst snd tps_step].
  replace (if s <? e0 then s else e0) with (Z.min e0 s) by (destruct (Z.ltb_spec s e0); lia).
  replace (if l0 <? e then e else l0) with (Z.max l0 e) by (destruct (Z.ltb_spec l0 e); lia).
  apply IH. by injection Hl.
Qed.

Lemma row_zip {A B} (xs : list A) (ys : list B) i : length xs = length ys →
  row (zip xs ys) i = (x ← row xs i; y ← row ys i; Ok (x, y)).
Proof.
  intros Hl. unfold row. destruct (xs !! i) as [x|] eqn:Ex.
  - assert (is_Some (ys !! i)) as [y Ey] by (apply lookup_lt_is_Some; rewrite <-Hl; by eapply lookup_lt_Some).
    rewrite Ey. cbn. by rewrite (proj2 (lookup_zip_Some xs ys i x y) (conj Ex Ey)).
  - cbn. destruct (zip xs ys !! i) as [[x y]|] eqn:E; [|done]. apply lookup_zip_Some in E as [? _]. congruence.
Qed.

Lemma tps_output now t : length (startTime t) = length (excutedTxNum t) → length (endTime t) = length (excutedTxNum t) →
  ∃ l, output_tps now t = Ok (l, fdiv (fsum (excutedTxNum t))
    (Seconds (time_Sub (foldl Z.max 0 (endTime t)) (foldl Z.min now (startTime t))))).
Proof.
  intros Hs He. assert (length (zip (startTime t) (endTime t)) = length (excutedTxNum t)) as Hz.
  { rewrite length_zip. lia. }
  destruct (tps_loop _ _ [] (fl_of 0) now 0 Hz) as [l E]. rewrite fst_zip, snd_zip in E by lia. exists l.
  unfold output_tps. rewrite (go_fold_ext _ (λ s ix, se ← row (zip (startTime t) (endTime t)) ix.1; Ok (tps_step s se ix.2))).
  - by rewrite (rows_loop_all tps_step _ _ _ Hz), E.
  - intros [[[l' a] e0] l0] ix. rewrite row_zip by lia. destruct (row (startTime t) ix.1); cbn; [|done].
    by destruct (row (endTime t) ix.1).
Qed.

Lemma foldl_min_le (z : Z) l x : x ∈ l → foldl Z.min z l ≤ x.
Proof.
  assert (∀ l z, foldl Z.min z l ≤ z) as Hle.
  { clear. induction l as [|y l IH]; intros z; cbn; [lia|]. specialize (IH (Z.min z y)). lia. }
  revert z. induction l as [|y l IH]; intros z; [by intros ?%elem_of_nil|]. cbn.
  intros [->|Hx]%elem_of_cons; [pose proof (Hle l (Z.min z y)); lia|by apply IH].
Qed.

Lemma foldl_min_ge (z b : Z) l : b ≤ z → Forall (λ x, b ≤ x) l → b ≤ foldl Z.min z l.
Proof. intros Hb Hl. revert z Hb. induction Hl as [|x l Hx _ IH]; intros z Hb; cbn; [done|]. apply IH. lia. Qed.

Lemma foldl_max_ge (z : Z) l x : x ∈ l → x ≤ foldl Z.max z l.
Proof.
  assert (∀ l z, z ≤ foldl Z.max z l) as Hle.
  { clear. induction l as [|y l IH]; intros z; cbn; [lia|]. specialize (IH (Z.max z y)). lia. }
  revert z. induction l as [|y l IH]; intros z; [by intros ?%elem_of_nil|]. cbn.
  intros [->|Hx]%elem_of_cons; [pose proof (Hle l (Z.max z y)); lia|by apply IH].
Qed.

(** Times after the year 293, as nanoseconds since the zero time. *)
Definition real_time (t : Time) : Prop := 2 ^ 63 ≤ t.

Lemma start_nonneg bs e : Forall (λ b, real_time (ProposeTime b)) bs →
  0 ≤ foldl (λ x b, earlier (ProposeTime b) x) 0 (of_epoch e bs).
Proof.
  intros Hb. assert (Forall (λ b, real_time (ProposeTime b)) (of_epoch e bs)) as Hf.
  { unfold of_epoch. apply Forall_forall. intros b [Hin _]%list_elem_of_In%filter_In.
    rewrite <-list_elem_of_In in Hin. by eapply Forall_forall in Hb. }
  assert (∀ z, 0 ≤ z → 0 ≤ foldl (λ x b, earlier (ProposeTime b) x) z (of_epoch e bs)) as Hz; [|by apply Hz].
  induction Hf as [|b l Ht _ IH]; intros z Hz; cbn [foldl]; [done|]. apply IH. unfold earlier, real_time in *.
  destruct (IsZero z || _); lia.
Qed.

Lemma end_real bs b : Forall (λ b, real_time (CommitTime b)) bs → b ∈ of_epoch (Epoch b) bs →
  2 ^ 63 ≤ foldl (λ x b, later (CommitTime b) x) 0 (of_epoch (Epoch b) bs).
Proof.
  intros Hb Hin. assert (Forall (λ b, real_time (CommitTime b)) (of_epoch (Epoch b) bs)) as Hf.
  { unfold of_epoch. apply Forall_forall. intros c [Hc _]%list_elem_of_In%filter_In.
    rewrite <-list_elem_of_In in Hc. by eapply Forall_forall in Hb. }
  assert (∀ l z, Forall (λ b, real_time (CommitTime b)) l → (l ≠ [] ∨ 2 ^ 63 ≤ z) →
    2 ^ 63 ≤ foldl (λ x b, later (CommitTime b) x) z l) as Hz.
  { clear. intros l z Hl. revert z. induction Hl as [|b l Ht _ IH]; intros z [Hn|Hz]; cbn [foldl]; try done;
      apply IH; right; unfold later, real_time in *; destruct (IsZero z); cbn; try lia; destruct (Z.ltb_spec z (CommitTime b)); lia. }
  apply Hz; [done|]. left. intros E. rewrite E in Hin. by apply elem_of_nil in Hin.
Qed.

Lemma last_epoch_reported bs : 0 ≤ last_epoch bs → ∃ b, Epoch b = last_epoch bs ∧ b ∈ of_epoch (Epoch b) bs.
Proof.
  unfold last_epoch, of_epoch. induction bs as [|b bs IH]; cbn [foldr]; [lia|]. intros Hl.
  destruct (live b) eqn:Eb.
  - destruct (Z.max_spec (Epoch b) (foldr (λ b z, if live b then Z.max (Epoch b) z else z) (-1) bs)) as [[Hlt Hm]|[Hge Hm]];
      rewrite Hm in Hl |- *.
    + destruct IH as (c & Hc & Hin); [lia|]. exists c. split; [done|]. cbn. rewrite Eb. cbn.
      destruct (Epoch b =? Epoch c); [by apply list_elem_of_further|done].
    + exists b. split; [done|]. cbn. rewrite Eb, Z.eqb_refl. apply list_elem_of_here.
  - destruct IH as (c & Hc & Hin); [done|]. exists c. split; [done|]. cbn. by rewrite Eb.
Qed.

(** An epoch without a block spoils the throughput.  If the reports skip an epoch, its row
    keeps the zero time as its start, which is before every real time: whenever the blocks were
    made, the total is divided by the largest duration (about 292 years). *)
Theorem tps_gap_epoch (m : Method) (bs : list BlockInfoMsg) (now : Time) (e : Z) : measurable m bs →
  Forall (λ b, real_time (ProposeTime b) ∧ real_time (CommitTime b)) bs → real_time now →
  0 ≤ e < last_epoch bs → of_epoch e bs = [] →
  ∃ t l, go_fold (λ t b, update_tps m b t) NewTestModule_avgTPS bs = Ok t ∧
    output_tps now t = Ok (l, fdiv (f_half (sumZ (halves m) (List.filter live bs))) (Seconds MaxInt)).
Proof.
  intros Hm Ht Hnow He Hgap. rewrite (tps_run m bs Hm). set (t := mkTPS _ _ _ _). exists t.
  destruct (tps_output now t) as [l E]; [cbn; unfold fold_column, half_column; by rewrite !column_length..|]. exists l. split; [done|]. rewrite E.
  cbn [excutedTxNum endTime startTime t]. rewrite fsum_half; [|apply Hm|apply halves_nonneg|apply Hm].
  assert (foldl Z.min now (fold_column 0 (λ b, earlier (ProposeTime b)) bs) = 0) as ->.
  { apply Z.le_antisymm.
    - apply foldl_min_le. apply list_elem_of_lookup. exists (Z.to_nat e).
      unfold fold_column. rewrite column_lookup by (unfold rows; lia). rewrite Z2Nat.id by lia. by rewrite Hgap.
    - apply foldl_min_ge; [unfold real_time in *; lia|]. apply Forall_fmap, Forall_forall. intros i _. cbn.
      apply start_nonneg. eapply Forall_impl; [exact Ht|]. by intros ? []. }
  assert (2 ^ 63 ≤ foldl Z.max 0 (fold_column 0 (λ b, later (CommitTime b)) bs)) as Hlast.
  { destruct (last_epoch_reported bs) as (b & Hb & Hin); [lia|]. etrans; [apply (end_real bs b)|apply foldl_max_ge].
    - eapply Forall_impl; [exact Ht|]. by intros ? [].
    - done.
    - apply list_elem_of_lookup. exists (Z.to_nat (Epoch b)). unfold fold_column.
      rewrite column_lookup by (unfold rows; lia). rewrite Z2Nat.id by lia. done. }
  unfold time_Sub, MaxInt in *. rewrite Z.sub_0_r, Z.min_l, Z.max_r by lia. done.
Qed.

(** ** Details of a transaction *)
Definition changes (h : string) (cs : list (string * (txMetricDetailTime → txMetricDetailTime)))
    : list (txMetricDetailTime → txMetricDetailTime) :=
  (List.filter (λ kf, bool_decide (kf.1 = h)) cs).*2.
Definition all_changes (bs : list BlockInfoMsg) : list (string * (txMetricDetailTime → txMetricDetailTime)) :=
  concat (detail_changes <$> List.filter live bs).

Lemma change_lookup k f (d : TestTxDetail) h :
  change_detail k f d !! h = if bool_decide (k = h) then Some (f (default no_detail (d !! h))) else d !! h.
Proof.
  unfold change_detail. case_bool_decide as Hk; [subst; apply lookup_insert_eq|by apply lookup_insert_ne].
Qed.

Lemma change_fold cs (d : TestTxDetail) h :
  foldl (λ d kf, change_detail kf.1 kf.2 d) d cs !! h =
    match changes h cs with
    | [] => d !! h
    | l => Some (foldl (λ x f, f x) (default no_detail (d !! h)) l)
    end.
Proof.
  unfold changes. revert d. induction cs as [|[k f] cs IH]; intros d; [done|]. cbn [foldl List.filter fst snd].
  rewrite IH, change_lookup. case_bool_decide; [|done]. cbn [fmap list_fmap snd foldl].
  by destruct ((List.filter (λ kf, bool_decide (kf.1 = h)) cs).*2).
Qed.

Lemma detail_run bs d : foldl (λ d b, update_detail b d) d bs = foldl (λ d kf, change_detail kf.1 kf.2 d) d (all_changes bs).
Proof.
  unfold all_changes. revert d. induction bs as [|b bs IH]; intros d; [done|]. cbn [foldl List.filter].
  rewrite IH. unfold update_detail. destruct (live b) eqn:Hl.
  - rewrite is_live by done. cbn [fmap list_fmap concat]. by rewrite foldl_app.
  - by rewrite not_live.
Qed.

(** The life of a transaction: committed in its shard, relayed, or split by a broker. *)
Inductive life :=
| LInner (b : BlockInfoMsg) (tx : Transaction)
| LRelay (b1 : BlockInfoMsg) (tx : Transaction) (b2 : BlockInfoMsg)
| LBroker (b1 : BlockInfoMsg) (tx : Transaction) (b2 : BlockInfoMsg).

Definition life_changes (s : life) : list (txMetricDetailTime → txMetricDetailTime) :=
  match s with
  | LInner b tx => [detail_inner b tx]
  | LRelay b1 tx b2 => [detail_relay1 b1 tx; detail_relay2 b2]
  | LBroker b1 tx b2 => [detail_broker1 b1 tx; detail_broker2 b2]
  end.
Definition life_detail (s : life) : txMetricDetailTime :=
  match s with
  | LInner b tx => mkDetail (TxTime tx) (ProposeTime b) (CommitTime b) 0 0 0 0
  | LRelay b1 tx b2 => mkDetail (TxTime tx) (ProposeTime b1) (CommitTime b2) (CommitTime b1) (CommitTime b2) 0 0
  | LBroker b1 tx b2 => mkDetail (TxTime tx) (ProposeTime b1) (CommitTime b2) 0 0 (CommitTime b1) (CommitTime b2)
  end.

(** The details of a transaction.  If the non-empty reports tell about a transaction hash
    exactly what one life of a transaction tells, in any order and among any other reports,
    then the times recorded are those of that life: the second half may be reported before
    the first, and the latency is from the time the transaction was proposed to the commit of
    its last half. *)
Theorem details_any_order (bs : list BlockInfoMsg) (h : string) (s : life) :
  changes h (all_changes bs) ≡ₚ life_changes s →
  foldl (λ d b, update_detail b d) NewTestTxDetail bs !! h = Some (life_detail s).
Proof.
  intros Hp. rewrite detail_run, change_fold.
  destruct s as [b tx|b1 tx b2|b1 tx b2]; cbn [life_changes] in Hp.
  - apply symmetry, Permutation_length_1_inv in Hp as ->. done.
  - apply symmetry, Permutation_length_2_inv in Hp as [->| ->]; done.
  - apply symmetry, Permutation_length_2_inv in Hp as [->| ->]; done.
Qed.

(** ** Witnesses: three reports of two shards, in epochs 0 and 2 *)
Module MeasureExample.
Import ConcreteCore.
#[local] Existing Instance default_params.

Definition year2024 : Time := 63839664000000000000.
Definition txA : Transaction := (sample_tx "a1" "b2" 5) <| TxTime := year2024 |>.
Definition txC : Transaction := (sample_tx "c3" "d4" 5) <| TxTime := year2024 |>.
Definition rep (epoch t : Z) (inner r1 r2 : list Transaction) : BlockInfoMsg :=
  mkBlockInfoMsg (len inner + len r1 + len r2) inner epoch (year2024 + t) (year2024 + t + 5000000000) 0 r1 r2 [] [].
Definition reports : list BlockInfoMsg := [rep 0 1 [txC] [txA] []; rep 2 3 [] [] [txA]; rep 0 2 [] [] []].

Lemma reports_measurable : measurable ByRelay reports.
Proof. split; [repeat constructor; cbn; lia|vm_compute; reflexivity]. Qed.

Lemma measures_exact_witness :
  ∃ t, go_fold (λ t b, update_txnum ByRelay b t) NewTestTxNumCount (rev reports) = Ok t ∧
    output_txnum t = ([f_half 3; f_half 0; f_half 1], fl_of 2).
Proof.
  destruct (measures_exact ByRelay reports (rev reports) reports_measurable) as (t & r & x & l & Et & _ & _ & Eo & _);
    [symmetry; apply Permutation_rev|].
  exists t. split; [exact Et|]. rewrite Eo. vm_compute. reflexivity.
Defined.

Lemma tps_gap_epoch_witness :
  ∃ t l, go_fold (λ t b, update_tps ByRelay b t) NewTestModule_avgTPS reports = Ok t ∧
    output_tps (year2024 + 10) t = Ok (l, fdiv (fl_of 2) (Seconds MaxInt)).
Proof.
  destruct (tps_gap_epoch ByRelay reports (year2024 + 10) 1) as (t & l & Et & Eo).
  - exact reports_measurable.
  - repeat constructor; vm_compute; discriminate.
  - vm_compute. discriminate.
  - vm_compute. split; [discriminate|reflexivity].
  - reflexivity.
  - exists t, l. split; [exact Et|]. rewrite Eo. vm_compute. reflexivity.
Defined.

Lemma details_any_order_witness :
  ∃ d, foldl (λ d b, update_detail b d) NewTestTxDetail (rev reports) !! TxHash txA = Some d ∧ confirmed_latency d = 5000.
Proof.
  eexists. split.
  - apply (details_any_order (rev reports) (TxHash txA) (LRelay (rep 0 1 [txC] [txA] []) txA (rep 2 3 [] [] [txA]))).
    apply perm_swap.
  - vm_compute. reflexivity.
Defined.
End MeasureExample.
