(* ===== verification/OverheadCommittee.v ===== *)
(** * The committee of the overhead experiment ([supervisor/committee/committee_overhead.go])

    A controlled migration: rows are injected in batches at their scheduled times; once, after
    some seconds, the busiest senders seen so far are moved to the next shard, and injection waits
    until every replica of every shard has acknowledged the transfer.  The loops of
    [MsgSendingControl] and [migrate] are states of a machine whose steps are interleaved with
    the reports and acknowledgements; each step is one iteration, with the times it reads.
    A packet stands for a dial that succeeds (an error of [TcpDial] is a panic in the code); the
    keys of [acks] and [completed] are the pairs and hashes that the code prints as strings. *)
From Stdlib Require Import SpecFloat.
From S2P Require Import Prelude Utils Libs Core Messages Storage Chain MerkleProof Overhead Pbft Supervisor.
From S2P Require Import Partition Committee PLouvain PLouvainCommittee.

Record OverheadCommittee := mkOverheadCommittee {
  completed : gset string;
  acks : gset (Z * Z);
  placement : gmap string Z;
  frequency : gmap string Z;
}.
#[export] Instance OverheadCommittee_eta : Eta OverheadCommittee := λ c,
  mkOverheadCommittee (completed c) (acks c) (placement c) (frequency c).
Definition NewOverheadCommittee : OverheadCommittee := mkOverheadCommittee ∅ ∅ ∅ ∅.

(** ** The dataset *)
Record overheadRow := mkRow { rowSender : string; rowRecipient : string; rowValue : Z }.

Definition lower_ascii (c : Ascii.ascii) : Ascii.ascii :=
  let n := byte_of c in if (65 <=? n) && (n <=? 90) then Ascii.ascii_of_N (Z.to_N (n + 32)) else c.
(** [strings.ToLower], on the ASCII strings it is used for. *)
Definition ToLower (s : string) : string := unchars (lower_ascii <$> chars s).

Definition bad_address (addr : string) : bool := negb (len (chars addr) =? 40) || negb (is_hex addr).

(** A record of the file, or the error value [Read] returns in its place. *)
Definition load_row (v : list string) : overheadRow + string :=
  match v with
  | _ :: _ :: s :: r :: val :: _ =>
      if bad_address s || bad_address r then inr "invalid address"
      else match SetString10 val with
           | None => inr "invalid integer value"
           | Some value => if value <? 0 then inr "invalid integer value" else inl (mkRow (ToLower s) (ToLower r) value)
           end
  | _ => inr "need at least five columns"
  end.

Fixpoint load_rows (limit : Z) (rows : list overheadRow) (records : list (list string + string)) : list overheadRow + string :=
  if limit <=? len rows then inl rows
  else match records with
       | [] => inl rows
       | inr e :: _ => inr e
       | inl v :: records' =>
           match load_row v with
           | inr e => inr e
           | inl r => load_rows limit (rows ++ [r]) records'
           end
       end.

(** The records after the header. *)
Definition loadOverheadCSV (limit : Z) (records : list (list string + string)) : list overheadRow + string :=
  match load_rows limit [] records with
  | inr e => inr e
  | inl rows => if len rows =? limit then inl rows else inr "dataset too short"
  end.

(** Where [MsgSendingControl] is: before an iteration at a row, waiting in [migrate] for the
    acknowledgements of a map, waiting for the confirmations, or returned. *)
Inductive oh_control :=
| OInject (pos : Z) (migrated : bool)
| OMigrating (pos : Z) (mapping : gmap string Z)
| OWaiting
| ODone.

Section overhead.
Context `{Params, CryptoLib, !Codec Transaction}.
Context (ips : gmap Z (gmap Z string)).
Context (TimeoutSeconds MigrationAfterSeconds : Z).

Definition shard (c : OverheadCommittee) (addr : string) : go Z :=
  match placement c !! addr with
  | Some s => Ok s
  | None => s ← Addr2Shard addr; Ok (u64 s)
  end.

(** ** [migrate] *)
Definition busier (freq : gmap string Z) (a b : string) : bool :=
  let fa := default 0 (freq !! a) in
  let fb := default 0 (freq !! b) in
  if fa =? fb then String.ltb a b else fb <? fa.

Definition busiest (c : OverheadCommittee) : go (list string) :=
  let accounts := sort_slice (busier (frequency c)) (map_to_list (frequency c)).*1 in
  if Overhead_MigrationAccounts <? len accounts then
    if Overhead_MigrationAccounts <? 0 then Panic "slice bounds out of range"
    else Ok (take (Z.to_nat Overhead_MigrationAccounts) accounts)
  else Ok accounts.

Definition plan_one (c : OverheadCommittee) (mapping : gmap string Z) (a : string) : go (gmap string Z) :=
  s ← shard c a;
  Ok (<[a := u64 (s + 1) mod u64 ShardNum]> mapping).

Definition migration_plan (c : OverheadCommittee) : go (gmap string Z) :=
  if ShardNum <? 2 then Panic "migration requires at least two shards"
  else
    accounts ← busiest c;
    match accounts with
    | [] => Panic "no accounts available for controlled migration"
    | _ => go_fold (plan_one c) ∅ accounts
    end.

(** ** One batch *)
Section workload.
Context (rows : list overheadRow) (start : Time).
Definition deadline : Time := start + TimeoutSeconds * 1000000000.

(** [start.Add(time.Duration(float64(i) / float64(InjectSpeed) * float64(time.Second)))] *)
Definition arrival (i : Z) : Time :=
  start + int64_of (fmul (fdiv (fl_of i) (fl_of InjectSpeed)) (fl_of 1000000000)).

Definition row_tx (i : Z) (row : overheadRow) : Transaction :=
  NewTransaction (rowSender row) (rowRecipient row) (rowValue row) (u64 i) (arrival i).

Definition add_row (acc : gmap Z (list Transaction) * OverheadCommittee) (ir : Z * overheadRow)
    : go (gmap Z (list Transaction) * OverheadCommittee) :=
  let '(byShard, c) := acc in
  s ← shard c (rowSender ir.2);
  Ok (<[s := default [] (byShard !! s) ++ [row_tx ir.1 ir.2]]> byShard,
      c <| frequency ::= λ f, <[rowSender ir.2 := default 0 (f !! rowSender ir.2) + 1]> f |>).

(** The rows from position [pos] to [end_]. *)
Definition batch_rows (pos end_ : Z) : list (Z * overheadRow) :=
  (λ ir : nat * overheadRow, (Z.of_nat ir.1, ir.2)) <$>
    take (Z.to_nat (end_ - pos)) (drop (Z.to_nat pos) (imap pair rows)).

Definition inject_nonempty (byShard : gmap Z (list Transaction)) : list packet :=
  sid ← heights 0 (ShardNum - 1);
  match default [] (byShard !! sid) with
  | [] => []
  | txs => [(default "" (t ← ips !! sid; t !! 0), MInject (mkInjectTxs txs sid))]
  end.

Definition send_rows (pos : Z) (migrated : bool) (c : OverheadCommittee) : go (OverheadCommittee * oh_control * list packet) :=
  let end_ := Z.min (pos + TxBatchSize) (len rows) in
  r ← go_fold add_row (∅, c) (batch_rows pos end_);
  Ok (r.2, OInject end_ migrated, inject_nonempty r.1).

(** ** One iteration of a loop; [clock] has the times it reads *)
Definition oh_iterate (clock : nat → Time) (c : OverheadCommittee) (ctl : oh_control)
    : go (OverheadCommittee * oh_control * list packet) :=
  match ctl with
  | OInject pos migrated =>
      if len rows <=? pos then
        if Overhead_Migration && negb migrated then Panic "migration was not triggered"
        else Ok (c, OWaiting, [])
      else if deadline <? clock 0%nat then Panic "workload timeout"
      else if Overhead_Migration && negb migrated && (MigrationAfterSeconds * 1000000000 <=? clock 1%nat - start) then
        mapping ← migration_plan c;
        Ok (c, OMigrating pos mapping, clpaMapSend ips mapping)
      else send_rows pos migrated c
  | OMigrating pos mapping =>
      if Z.of_nat (size (acks c)) =? ShardNum * NodesInShard then
        send_rows pos true (c <| placement ::= λ pl, mapping ∪ pl |>)
      else if deadline <? clock 0%nat then Panic "migration timed out before all replicas applied state"
      else Ok (c, ctl, [])
  | OWaiting =>
      if Z.of_nat (size (completed c)) =? len rows then Ok (c, ODone, [])
      else if deadline <? clock 0%nat then Panic "incomplete run"
      else Ok (c, ctl, [])
  | ODone => Ok (c, ctl, [])
  end.

(** ** Messages *)
Definition oh_HandleBlockInfo (b : BlockInfoMsg) (c : OverheadCommittee) : OverheadCommittee :=
  c <| completed ::= λ s, list_to_set (TxHash <$> InnerShardTxs b ++ Relay2Txs b) ∪ s |>.

Definition oh_HandleOtherMessage (m : Msg) (c : OverheadCommittee) : go OverheadCommittee :=
  match m with
  | MOHMigrationDone sid nid epoch =>
      if negb (epoch =? 1) || (u64 ShardNum <=? sid) || (u64 NodesInShard <=? nid) then Panic "invalid migration acknowledgment"
      else Ok (c <| acks ::= λ s, {[(sid, nid)]} ∪ s |>)
  | _ => Ok c
  end.

(** ** Runs *)
Inductive oh_event :=
| OIter (clock : nat → Time)
| OReport (b : BlockInfoMsg)
| OOther (m : Msg).

Definition oh_state : Type := OverheadCommittee * oh_control.

Definition oh_step (s : oh_state) (e : oh_event) : go (oh_state * list packet) :=
  match e with
  | OIter clock => r ← oh_iterate clock s.1 s.2; Ok (r.1, r.2)
  | OReport b => Ok ((oh_HandleBlockInfo b s.1, s.2), [])
  | OOther m => c ← oh_HandleOtherMessage m s.1; Ok ((c, s.2), [])
  end.

Definition oh_run (es : list oh_event) : go (oh_state * list packet) :=
  go_fold (λ (acc : oh_state * list packet) e, r ← oh_step acc.1 e; Ok (r.1, acc.2 ++ r.2))
    ((NewOverheadCommittee, OInject 0 false), []) es.
End workload.
End overhead.
