(* ===== verification/OverheadCommitteeFacts.v ===== *)
(** * Properties of the committee of the overhead experiment

    The migration is a barrier: rows are injected once each and in order, by the old placement up
    to the row where the migration was requested and by the new one from there, and between the
    two every replica of every shard has acknowledged the transfer. *)
From Stdlib Require Import SpecFloat.
From S2P Require Import Prelude Utils Libs Core Messages Storage Chain MerkleProof Overhead Pbft Supervisor SupervisorFacts.
From S2P Require Import Partition Committee CommitteeFacts PLouvain PLouvainCommittee OverheadCommittee.

(** ** The dataset *)
Definition row_ok (r : overheadRow) : Prop :=
  is_hex (rowSender r) = true ∧ rowSender r ≠ "" ∧ is_hex (rowRecipient r) = true ∧ rowRecipient r ≠ "" ∧ 0 ≤ rowValue r.

Lemma lower_hex c : hex_digit (lower_ascii c) = hex_digit c.
Proof. destruct c as [[] [] [] [] [] [] [] []]; reflexivity. Qed.

Lemma ToLower_hex s : is_hex s = true → is_hex (ToLower s) = true.
Proof.
  unfold is_hex, ToLower. rewrite chars_unchars. induction (chars s) as [|c l IH]; [done|]. cbn.
  rewrite lower_hex. intros [? ?]%andb_true_iff. apply andb_true_iff. auto.
Qed.

Lemma good_address s : bad_address s = false → is_hex (ToLower s) = true ∧ ToLower s ≠ "".
Proof.
  unfold bad_address. intros [Hl Hh]%orb_false_iff. apply negb_false_iff in Hl, Hh. zbool. split; [by apply ToLower_hex|].
  intros E. apply (f_equal chars) in E. unfold ToLower in E. rewrite chars_unchars in E.
  apply (f_equal length) in E. rewrite length_fmap in E. unfold len in Hl. cbn in E. lia.
Qed.

Lemma load_row_ok v r : load_row v = inl r → row_ok r.
Proof.
  unfold load_row. destruct v as [|? [|? [|s [|r' [|val ?]]]]]; try done.
  destruct (bad_address s) eqn:Es; [done|]. destruct (bad_address r') eqn:Er; [done|]. cbn [orb].
  destruct (SetString10 val) as [z|]; [|done]. destruct (Z.ltb_spec z 0); [done|]. intros [= <-].
  destruct (good_address s Es), (good_address r' Er). done.
Qed.

Lemma load_ok limit records rows : loadOverheadCSV limit records = inl rows → len rows = limit ∧ Forall row_ok rows.
Proof.
  assert (∀ records rows0 rows, Forall row_ok rows0 → load_rows limit rows0 records = inl rows → Forall row_ok rows) as Hl.
  { clear. induction records as [|rec records IH]; intros rows0 rows Hr; cbn [load_rows]; destruct (limit <=? len rows0);
      try (by intros [= <-]). destruct rec as [v|e]; [|done]. destruct (load_row v) as [r|e] eqn:E; [|done].
    apply IH, Forall_app. split; [done|]. apply Forall_singleton. by eapply load_row_ok. }
  unfold loadOverheadCSV. destruct (load_rows limit [] records) as [rows'|] eqn:E; [|done].
  destruct (Z.eqb_spec (len rows') limit); [|done]. intros [= <-]. split; [done|]. by eapply Hl; [|exact E].
Qed.

(** ** The order of the accounts *)
Lemma str_lt_trans a b c : String.ltb a b = true → String.ltb b c = true → String.ltb a c = true.
Proof.
  assert (∀ a b c, String.compare a b = Lt → String.compare b c = Lt → String.compare a c = Lt) as Ht.
  { clear. induction a as [|x a IH]; intros [|y b] [|z c]; try done. cbn. unfold Ascii.compare.
    destruct (N.compare_spec (Ascii.N_of_ascii x) (Ascii.N_of_ascii y)) as [E1|E1|E1],
      (N.compare_spec (Ascii.N_of_ascii y) (Ascii.N_of_ascii z)) as [E2|E2|E2],
      (N.compare_spec (Ascii.N_of_ascii x) (Ascii.N_of_ascii z)) as [E3|E3|E3]; try done; try lia. apply IH. }
  unfold String.ltb. destruct (String.compare a b) eqn:E1; try done. destruct (String.compare b c) eqn:E2; try done.
  by rewrite (Ht a b c E1 E2).
Qed.

Lemma str_lt_irrefl a : String.ltb a a = false.
Proof. unfold String.ltb. pose proof (String.compare_antisym a a) as E. by destruct (String.compare a a). Qed.

Lemma str_trichotomy a b : String.ltb a b = false → a = b ∨ String.ltb b a = true.
Proof.
  unfold String.ltb. rewrite (String.compare_antisym b a). destruct (String.compare a b) eqn:E; [|done|by right].
  intros _. left. by apply String.compare_eq_iff.
Qed.

#[export] Instance busier_strict freq : StrictWeak (busier freq).
Proof.
  assert (∀ x y, String.ltb x y = true → String.ltb y x = false) as Hasym.
  { intros x y Hxy. destruct (String.ltb y x) eqn:E; [|done]. by rewrite <-(str_lt_irrefl x), (str_lt_trans x y x). }
  unfold busier. split.
  - intros x. by rewrite Z.eqb_refl, str_lt_irrefl.
  - intros x y. rewrite (Z.eqb_sym (default 0 (freq !! y))). destruct (Z.eqb_spec (default 0 (freq !! x)) (default 0 (freq !! y))); [apply Hasym|].
    intros ?%Z.ltb_lt. apply Z.ltb_ge. lia.
  - intros x y z.
    destruct (Z.eqb_spec (default 0 (freq !! y)) (default 0 (freq !! x))) as [E1|E1],
      (Z.eqb_spec (default 0 (freq !! z)) (default 0 (freq !! y))) as [E2|E2],
      (Z.eqb_spec (default 0 (freq !! z)) (default 0 (freq !! x))) as [E3|E3]; rewrite ?Z.ltb_ge; try lia.
    intros [->|H1]%str_trichotomy [->|H2]%str_trichotomy; [apply str_lt_irrefl|by apply Hasym..|].
    apply Hasym. by eapply str_lt_trans.
Qed.

Section facts.
Context `{Params, CryptoLib, !Codec Transaction}.
Context (ips : gmap Z (gmap Z string)) (TimeoutSeconds MigrationAfterSeconds : Z).

(** The placement of an address by the map [pl] of moved accounts. *)
Definition home (pl : gmap string Z) (a : string) : Z :=
  match pl !! a with Some s => s | None => match Addr2Shard a with Ok s => u64 s | Panic _ => 0 end end.

Lemma shard_home c a : 0 < ShardNum < 2 ^ 63 → valid_map (placement c) → is_hex a = true → a ≠ "" →
  shard c a = Ok (home (placement c) a) ∧ 0 ≤ home (placement c) a < ShardNum.
Proof.
  intros Hn Hp Hh Hne. unfold shard, home. destruct (placement c !! a) as [s|] eqn:E.
  - split; [done|]. by apply Hp in E.
  - destruct (addr2shard_ok a) as (s & -> & Hs); [lia|done|done|]. cbn. rewrite u64_small by (unfold two64; lia). done.
Qed.

(** ** The plan of the migration *)
Definition freq_ok (c : OverheadCommittee) : Prop := map_Forall (λ a _, is_hex a = true ∧ a ≠ "") (frequency c).
Definition freq_of (c : OverheadCommittee) (a : string) : Z := default 0 (frequency c !! a).

Lemma sorted_split {A} (R : A → A → Prop) l1 l2 x y : StronglySorted R (l1 ++ l2) → x ∈ l1 → y ∈ l2 → R x y.
Proof.
  induction l1 as [|z l1 IH]; cbn; [by intros _ ?%elem_of_nil|]. intros [Hs Hz]%StronglySorted_inv [->|Hx]%elem_of_cons Hy.
  - eapply Forall_forall in Hz; [exact Hz|]. apply elem_of_app. by right.
  - by apply IH.
Qed.

Lemma busiest_spec c : 0 ≤ Overhead_MigrationAccounts → ∃ l, busiest c = Ok l ∧ NoDup l ∧
  len l = Z.min Overhead_MigrationAccounts (Z.of_nat (size (frequency c))) ∧ (∀ a, a ∈ l → is_Some (frequency c !! a)) ∧
  ∀ a b, a ∈ l → is_Some (frequency c !! b) → b ∉ l → freq_of c b ≤ freq_of c a.
Proof.
  intros Hk. unfold busiest. set (accounts := sort_slice _ _).
  assert (accounts ≡ₚ (map_to_list (frequency c)).*1) as Hp by apply sort_slice_perm.
  assert (NoDup accounts) as Hnd by (rewrite Hp; apply NoDup_fst_map_to_list).
  assert (∀ a, a ∈ accounts ↔ is_Some (frequency c !! a)) as Hin.
  { intros a. rewrite Hp, list_elem_of_fmap. split.
    - intros ([k v] & -> & Hkv). apply elem_of_map_to_list in Hkv. by exists v.
    - intros [v Hv]. exists (a, v). split; [done|]. by apply elem_of_map_to_list. }
  assert (len accounts = Z.of_nat (size (frequency c))) as Hlen.
  { unfold len. by rewrite Hp, length_fmap, length_map_to_list. }
  set (k := Z.to_nat Overhead_MigrationAccounts). exists (take k accounts).
  assert (len (take k accounts) = Z.min Overhead_MigrationAccounts (Z.of_nat (size (frequency c)))) as Ht.
  { rewrite <-Hlen. unfold len. rewrite length_take. lia. }
  split; [|split; [|split; [exact Ht|split]]].
  - destruct (Z.ltb_spec Overhead_MigrationAccounts (len accounts)).
    + by rewrite (proj2 (Z.ltb_ge _ _)) by lia.
    + by rewrite take_ge by (unfold len in *; lia).
  - rewrite <-(take_drop k accounts) in Hnd. by apply NoDup_app in Hnd as (? & _ & _).
  - intros a Ha. apply Hin. rewrite <-(take_drop k accounts). apply elem_of_app. by left.
  - intros a b Ha Hb Hn. apply Hin in Hb. rewrite <-(take_drop k accounts), elem_of_app in Hb. destruct Hb as [|Hb]; [done|].
    pose proof (sort_slice_sorted (busier (frequency c)) (map_to_list (frequency c)).*1) as Hs. fold accounts in Hs.
    rewrite <-(take_drop k accounts) in Hs. pose proof (sorted_split _ _ _ a b Hs Ha Hb) as Hx. cbn in Hx.
    unfold busier in Hx. fold (freq_of c a) (freq_of c b) in Hx.
    destruct (Z.eqb_spec (freq_of c b) (freq_of c a)); [lia|]. apply Z.ltb_ge in Hx. lia.
Qed.

Lemma plan_fold c l m0 : 0 < ShardNum < 2 ^ 63 → valid_map (placement c) → Forall (λ a, is_hex a = true ∧ a ≠ "") l →
  ∃ m, go_fold (plan_one c) m0 l = Ok m ∧
    ∀ a, m !! a = if decide (a ∈ l) then Some ((home (placement c) a + 1) mod ShardNum) else m0 !! a.
Proof.
  intros Hn Hp Hl. revert m0. induction Hl as [|a l [Hh Hne] _ IH]; intros m0; cbn [go_fold].
  { exists m0. split; [done|]. intros a. by rewrite decide_False by by intros ?%elem_of_nil. }
  destruct (shard_home c a Hn Hp Hh Hne) as [Es Hs].
  assert (plan_one c m0 a = Ok (<[a := (home (placement c) a + 1) mod ShardNum]> m0)) as ->.
  { unfold plan_one. rewrite Es. cbn. rewrite !u64_small by (unfold two64; lia). done. }
  cbn [mbind go_bind]. destruct (IH (<[a := (home (placement c) a + 1) mod ShardNum]> m0)) as (m & -> & Hm).
  exists m. split; [done|]. intros b. rewrite Hm. destruct (decide (b ∈ l)) as [Hb|Hb].
  - rewrite decide_True; [done|]. by apply list_elem_of_further.
  - destruct (decide (b = a)) as [->|Hd].
    + rewrite lookup_insert_eq, decide_True; [done|]. apply list_elem_of_here.
    + rewrite lookup_insert_ne, decide_False by (rewrite ?elem_of_cons; intuition congruence). done.
Qed.

(** The plan of the migration.  With at least two shards, at least one account to move and
    one sender seen, the plan moves as many senders as configured (or all), each to the shard
    after its current one, which is another existing shard; and no sender that stays has been
    seen more often than one that moves. *)
Theorem migration_plan_spec (c : OverheadCommittee) :
  2 ≤ ShardNum < 2 ^ 63 → 0 < Overhead_MigrationAccounts → valid_map (placement c) → freq_ok c → frequency c ≠ ∅ →
  ∃ m, migration_plan c = Ok m ∧ m ≠ ∅ ∧
    Z.of_nat (size m) = Z.min Overhead_MigrationAccounts (Z.of_nat (size (frequency c))) ∧
    (∀ a s, m !! a = Some s → is_Some (frequency c !! a) ∧ 0 ≤ s < ShardNum ∧
       shard c a = Ok (home (placement c) a) ∧ s ≠ home (placement c) a ∧ s = (home (placement c) a + 1) mod ShardNum) ∧
    ∀ a b, is_Some (m !! a) → is_Some (frequency c !! b) → m !! b = None → freq_of c b ≤ freq_of c a.
Proof.
  intros Hn Hk Hp Hf Hne. assert (0 < ShardNum < 2 ^ 63) as Hn' by lia.
  destruct (busiest_spec c) as (l & El & Hnd & Hlen & Hin & Htop); [lia|].
  assert (Forall (λ a, is_hex a = true ∧ a ≠ "") l) as Hl.
  { apply Forall_forall. intros a Ha. destruct (Hin a Ha) as [v Hv]. by apply Hf in Hv. }
  destruct (plan_fold c l ∅ Hn' Hp Hl) as (m & Em & Hm).
  assert (size (frequency c) ≠ 0%nat) as Hsz by by rewrite map_size_empty_iff.
  assert (dom m = list_to_set l) as Hdom.
  { apply set_eq. intros a. rewrite elem_of_dom, elem_of_list_to_set, Hm.
    destruct (decide (a ∈ l)); [split; [done|by eexists]|]. rewrite lookup_empty. split; [by intros []|done]. }
  assert (Z.of_nat (size m) = len l) as Hsm.
  { rewrite <-size_dom, Hdom. unfold len. by rewrite size_list_to_set. }
  exists m. split; [|split; [|split; [lia|split]]].
  - unfold migration_plan. rewrite (proj2 (Z.ltb_ge _ _)), El by lia. cbn [mbind go_bind].
    destruct l as [|a l]; [unfold len in *; cbn in *; lia|exact Em].
  - intros ->. rewrite map_size_empty in Hsm. lia.
  - intros a s Ha. rewrite Hm in Ha. destruct (decide (a ∈ l)) as [Hd|]; [|by rewrite lookup_empty in Ha].
    injection Ha as <-. destruct (Hin a Hd) as [v Hv]. destruct (Hf a v Hv) as [Hh Hna].
    destruct (shard_home c a Hn' Hp Hh Hna) as [Es Hs]. split; [by exists v|].
    pose proof (Z.mod_pos_bound (home (placement c) a + 1) ShardNum (proj1 Hn')). split; [lia|]. split; [done|]. split; [|done].
    destruct (decide (home (placement c) a + 1 = ShardNum)) as [E|E].
    + rewrite E, Z_mod_same_full. lia.
    + rewrite Z.mod_small by lia. lia.
  - intros a b Ha Hb Hbn. rewrite Hm in Ha, Hbn. destruct (decide (a ∈ l)) as [Hd|]; [|by destruct Ha].
    destruct (decide (b ∈ l)); [done|]. by apply Htop.
Qed.

Lemma plan_valid c m : 0 < ShardNum < 2 ^ 63 → valid_map (placement c) → freq_ok c → migration_plan c = Ok m → valid_map m.
Proof.
  intros Hn Hp Hf E. unfold migration_plan in E. destruct (ShardNum <? 2); [done|]. apply go_bind_inv in E as (l & El & E).
  assert (Forall (λ a, is_hex a = true ∧ a ≠ "") l) as Hl.
  { assert (∀ a, a ∈ l → a ∈ (map_to_list (frequency c)).*1) as Hin.
    { intros a Ha. rewrite <-(sort_slice_perm (busier (frequency c))). unfold busiest in El. destruct (_ <? len _).
      - destruct (_ <? 0); [done|]. injection El as <-. eapply elem_of_take in Ha as (i & Hi & _). by eapply list_elem_of_lookup_2.
      - by injection El as <-. }
    apply Forall_forall. intros a ([k v] & -> & Hkv)%Hin%list_elem_of_fmap. apply elem_of_map_to_list in Hkv. by apply Hf in Hkv. }
  destruct (plan_fold c l ∅ Hn Hp Hl) as (m' & E' & Hm). destruct l as [|a0 l]; [done|]. rewrite E' in E. injection E as <-.
  intros a s Ha. rewrite Hm in Ha. destruct (decide _); [|by rewrite lookup_empty in Ha]. injection Ha as <-.
  apply Z.mod_pos_bound. lia.
Qed.

Section workload.
Context (rows : list overheadRow) (start : Time).
Abbreviation batch_rows := (batch_rows rows).

(** The transactions of a list of rows that go to shard [sid]. *)
Definition routed (pl : gmap string Z) (sid : Z) (irs : list (Z * overheadRow)) : list Transaction :=
  (λ ir : Z * overheadRow, row_tx start ir.1 ir.2) <$> List.filter (λ ir, home pl (rowSender ir.2) =? sid) irs.

Lemma routed_app pl sid l1 l2 : routed pl sid (l1 ++ l2) = routed pl sid l1 ++ routed pl sid l2.
Proof. unfold routed. by rewrite List.filter_app, fmap_app. Qed.

(** ** One batch *)
Lemma batch_fold irs by0 c : 0 < ShardNum < 2 ^ 63 → valid_map (placement c) → freq_ok c → Forall (λ ir, row_ok ir.2) irs →
  ∃ by_ f, go_fold (add_row start) (by0, c) irs = Ok (by_, c <| frequency := f |>) ∧ freq_ok (c <| frequency := f |>) ∧
    (∀ sid, default [] (by_ !! sid) = default [] (by0 !! sid) ++ routed (placement c) sid irs).
Proof.
  intros Hn Hp Hf Hr. revert by0 c Hp Hf. induction Hr as [|[i row] irs (Hh & Hne & _) _ IH]; intros by0 c Hp Hf.
  - exists by0, (frequency c). split; [by destruct c|]. split; [done|]. intros sid. by rewrite app_nil_r.
  - cbn [go_fold]. cbn [snd] in *.
    destruct (shard_home c (rowSender row) Hn Hp Hh Hne) as [Es Hs].
    assert (∃ g, add_row start (by0, c) (i, row) =
      Ok (<[home (placement c) (rowSender row) := default [] (by0 !! home (placement c) (rowSender row)) ++ [row_tx start i row]]> by0,
          c <| frequency := g |>) ∧ map_Forall (λ a _, is_hex a = true ∧ a ≠ "") g) as (g & -> & Hg).
    { eexists. split; [unfold add_row; cbn [fst snd]; rewrite Es; cbn [mbind go_bind]; by destruct c|].
      by apply map_Forall_insert_2. }
    cbn [mbind go_bind]. set (s := home (placement c) (rowSender row)) in *.
    pose (c1 := c <| frequency := g |>).
    destruct (IH (<[s := default [] (by0 !! s) ++ [row_tx start i row]]> by0) c1 Hp Hg) as (by_ & f & E & Hf' & Hb).
    exists by_, f. split; [etrans; [exact E|by destruct c]|]. split; [exact Hf'|]. intros sid. rewrite Hb. change (placement c1) with (placement c).
    unfold routed at 2. cbn [List.filter fst snd]. fold s. destruct (Z.eqb_spec s sid) as [->|Hd].
    + rewrite lookup_insert_eq. cbn. by rewrite <-app_assoc.
    + by rewrite lookup_insert_ne.
Qed.

Lemma injected_nonempty sid by_ :
  injected sid (inject_nonempty ips by_) = if (0 <=? sid) && (sid <? ShardNum) then default [] (by_ !! sid) else [].
Proof.
  unfold inject_nonempty, heights. replace (Z.to_nat (ShardNum - 1 - 0 + 1)) with (Z.to_nat ShardNum) by lia.
  assert (∀ n k, injected sid (((λ i : nat, 0 + Z.of_nat i) <$> seq k n) ≫= λ sid0,
      match default [] (by_ !! sid0) with
      | [] => []
      | t :: txs => [(default "" (t ← ips !! sid0; t !! 0), MInject (mkInjectTxs (t :: txs) sid0))]
      end) = if (Z.of_nat k <=? sid) && (sid <? Z.of_nat (k + n)) then default [] (by_ !! sid) else []) as Hk.
  { induction n as [|n IH]; intros k.
    - cbn. destruct (Z.leb_spec (Z.of_nat k) sid), (Z.ltb_spec sid (Z.of_nat (k + 0))); cbn; try done; lia.
    - cbn [seq fmap list_fmap mbind list_bind]. rewrite injected_app, IH. change (0 + Z.of_nat k) with (Z.of_nat k).
      destruct (Z.eqb_spec (Z.of_nat k) sid) as [<-|Hd].
      + rewrite (proj2 (Z.leb_gt (Z.of_nat (S k)) (Z.of_nat k))), (proj2 (Z.leb_le (Z.of_nat k) (Z.of_nat k))) by lia. cbn [andb].
        rewrite (proj2 (Z.ltb_lt (Z.of_nat k) (Z.of_nat (k + S n)))), app_nil_r by lia.
        destruct (default [] (by_ !! Z.of_nat k)) as [|t l]; [done|]. unfold injected. cbn. rewrite Z.eqb_refl. by rewrite app_nil_r.
      + replace (injected sid _) with (@nil Transaction).
        2: { destruct (default [] (by_ !! Z.of_nat k)); [done|]. unfold injected. cbn. by rewrite (proj2 (Z.eqb_neq _ _)). }
        cbn [app]. destruct (Z.leb_spec (Z.of_nat (S k)) sid), (Z.leb_spec (Z.of_nat k) sid),
          (Z.ltb_spec sid (Z.of_nat (S k + n))), (Z.ltb_spec sid (Z.of_nat (k + S n))); cbn; try done; lia. }
  specialize (Hk (Z.to_nat ShardNum) 0%nat). destruct (Z.le_gt_cases 0 ShardNum).
  - replace (Z.of_nat (0 + Z.to_nat ShardNum)) with ShardNum in Hk by lia. exact Hk.
  - replace (Z.to_nat ShardNum) with 0%nat in * by lia. cbn in *. destruct (Z.leb_spec 0 sid), (Z.ltb_spec sid ShardNum); cbn; try done; lia.
Qed.

Lemma batch_rows_app a b c : 0 ≤ a ≤ b → b ≤ c → c ≤ len rows → batch_rows a b ++ batch_rows b c = batch_rows a c.
Proof.
  intros Hab Hbc Hc. unfold OverheadCommittee.batch_rows. rewrite <-fmap_app. f_equal.
  set (l := imap pair rows).
  replace (drop (Z.to_nat b) l) with (drop (Z.to_nat (b - a)) (drop (Z.to_nat a) l)) by (rewrite drop_drop; f_equal; lia).
  replace (Z.to_nat (c - a)) with (Z.to_nat (b - a) + Z.to_nat (c - b))%nat by lia.
  apply take_take_drop.
Qed.

Lemma batch_rows_ok a b : Forall row_ok rows → Forall (λ ir, row_ok ir.2) (batch_rows a b).
Proof.
  intros Hr. unfold OverheadCommittee.batch_rows. apply Forall_fmap, Forall_take, Forall_drop, Forall_forall.
  intros [i r] (k & r' & [= -> ->] & Hk)%elem_of_lookup_imap. cbn. eapply Forall_lookup_1; eauto.
Qed.

Lemma routed_out pl sid irs : 0 < ShardNum < 2 ^ 63 → valid_map pl → Forall (λ ir, row_ok ir.2) irs →
  ¬ (0 ≤ sid < ShardNum) → routed pl sid irs = [].
Proof.
  intros Hn Hp Hr Hs. unfold routed. induction Hr as [|[i row] irs (Hh & Hne & _) _ IH]; [done|]. cbn.
  destruct (shard_home (mkOverheadCommittee ∅ ∅ pl ∅) (rowSender row) Hn Hp Hh Hne) as [_ Hr]. cbn in Hr.
  by rewrite (proj2 (Z.eqb_neq _ _)) by lia.
Qed.

(** Packets of one kind. *)
Lemma no_maps outs : Forall (λ p : packet, ∃ it, p.2 = MInject it) outs → maps_of outs = [].
Proof. induction 1 as [|[a m] outs [it E] _ IH]; [done|]. cbn in *. by rewrite E. Qed.

Lemma only_injects by_ : Forall (λ p : packet, ∃ it, p.2 = MInject it) (inject_nonempty ips by_).
Proof.
  unfold inject_nonempty. induction (heights 0 (ShardNum - 1)) as [|sid l IH]; [done|]. cbn [mbind list_bind].
  apply Forall_app. split; [|exact IH]. destruct (default [] (by_ !! sid)); [done|]. apply Forall_singleton. by eexists.
Qed.

Lemma map_injects sid m : injected sid (clpaMapSend ips m) = [].
Proof. unfold clpaMapSend, injected. induction (heights 0 (ShardNum - 1)); [done|]. by cbn. Qed.

Lemma send_rows_spec pos mig c : 0 < ShardNum < 2 ^ 63 → valid_map (placement c) → freq_ok c → Forall row_ok rows →
  ∃ f out, send_rows ips rows start pos mig c =
      Ok (c <| frequency := f |>, OInject (Z.min (pos + TxBatchSize) (len rows)) mig, out) ∧
    freq_ok (c <| frequency := f |>) ∧ maps_of out = [] ∧
    ∀ sid, injected sid out = routed (placement c) sid (batch_rows pos (Z.min (pos + TxBatchSize) (len rows))).
Proof.
  intros Hn Hp Hf Hr. unfold send_rows. set (e := Z.min _ _).
  pose proof (batch_rows_ok pos e Hr) as Hb.
  destruct (batch_fold (batch_rows pos e) ∅ c Hn Hp Hf Hb) as (by_ & f & E & Hf' & Hby). rewrite E. cbn [mbind go_bind fst snd].
  exists f, (inject_nonempty ips by_). split; [done|]. split; [done|]. split; [apply no_maps, only_injects|].
  intros sid. rewrite injected_nonempty, Hby, lookup_empty. cbn [default from_option app].
  destruct (Z.leb_spec 0 sid), (Z.ltb_spec sid ShardNum); cbn [andb]; try done; symmetry; apply routed_out; try done; lia.
Qed.

(** ** The acknowledgements *)
Definition all_acked (c : OverheadCommittee) : Prop :=
  ∀ sid nid, 0 ≤ sid < ShardNum → 0 ≤ nid < NodesInShard → (sid, nid) ∈ acks c.
Definition replicas : gset (Z * Z) := list_to_set (cprod (heights 0 (ShardNum - 1)) (heights 0 (NodesInShard - 1))).

Lemma elem_of_heights n i : i ∈ heights 0 (n - 1) ↔ 0 ≤ i < n.
Proof.
  unfold heights. rewrite list_elem_of_fmap. setoid_rewrite elem_of_seq. split.
  - intros (k & -> & ?). lia.
  - intros Hi. exists (Z.to_nat i). lia.
Qed.

Lemma elem_of_replicas sid nid : (sid, nid) ∈ replicas ↔ 0 ≤ sid < ShardNum ∧ 0 ≤ nid < NodesInShard.
Proof. unfold replicas. by rewrite elem_of_list_to_set, list_elem_of_cprod, !elem_of_heights. Qed.

Lemma size_le_length {A} `{Countable A} (l : list A) : (size (list_to_set l : gset A) ≤ length l)%nat.
Proof.
  induction l as [|x l IH]; [apply Nat.eq_le_incl, size_empty|]. cbn. rewrite size_union_alt, size_singleton.
  assert (size ((list_to_set l : gset A) ∖ {[x]}) ≤ size (list_to_set l : gset A))%nat by (apply subseteq_size; set_solver). lia.
Qed.

Lemma replicas_size : 0 ≤ ShardNum → 0 ≤ NodesInShard → Z.of_nat (size replicas) ≤ ShardNum * NodesInShard.
Proof.
  intros Hs Hn. pose proof (size_le_length (cprod (heights 0 (ShardNum - 1)) (heights 0 (NodesInShard - 1)))) as Hl.
  assert (∀ (l1 l2 : list Z), length (cprod l1 l2) = (length l1 * length l2)%nat) as Hc.
  { clear. intros l1 l2. unfold cprod, list_cprod. induction l1 as [|x l1 IH]; [done|]. cbn. by rewrite length_app, length_fmap, IH. }
  assert (∀ n, length (heights 0 (n - 1)) = Z.to_nat n) as Hh.
  { intros n. unfold heights. rewrite length_fmap, length_seq. lia. }
  rewrite Hc, !Hh in Hl. unfold replicas. nia.
Qed.

Lemma acks_full c : 0 ≤ ShardNum → 0 ≤ NodesInShard → acks c ⊆ replicas →
  Z.of_nat (size (acks c)) = ShardNum * NodesInShard → all_acked c.
Proof.
  intros Hs Hn Hsub Hsz. pose proof (replicas_size Hs Hn).
  assert (acks c = replicas) as E by (apply set_subseteq_size_eq; [done|lia]).
  intros sid nid ??. rewrite E. by apply elem_of_replicas.
Qed.

(** ** Runs *)
Definition oh_event_ok (e : oh_event) : Prop :=
  match e with OOther (MOHMigrationDone sid nid _) => 0 ≤ sid ∧ 0 ≤ nid | _ => True end.

(** The accounts moved so far, if any, and the acknowledgements, by the place in the program. *)
Definition moved (c : OverheadCommittee) (m : option (gmap string Z)) : Prop :=
  m = None ∧ placement c = ∅ ∨ m = Some (placement c) ∧ all_acked c.
Definition control_ok (c : OverheadCommittee) (ctl : oh_control) (pos : Z) (m : option (gmap string Z)) : Prop :=
  match ctl with
  | OInject q migrated => q = pos ∧ moved c m ∧ (migrated = false → m = None)
  | OMigrating q mm => q = pos ∧ m = Some mm ∧ placement c = ∅
  | OWaiting => pos = len rows ∧ moved c m
  | ODone => pos = len rows ∧ moved c m ∧ len rows ≤ Z.of_nat (size (completed c))
  end.

Record oh_ok (s : oh_state) (outs : list packet) (p1 pos : Z) (m : option (gmap string Z)) : Prop := {
  ok_pos : 0 ≤ p1 ≤ pos ∧ pos ≤ len rows;
  ok_injected : ∀ sid, injected sid outs =
    routed ∅ sid (batch_rows 0 p1) ++ routed (placement s.1) sid (batch_rows p1 pos);
  ok_maps : maps_of outs = to_all (option_list m);
  ok_valid : valid_map (default ∅ m);
  ok_acks : acks s.1 ⊆ replicas;
  ok_freq : freq_ok s.1;
  ok_control : control_ok s.1 s.2 pos m;
}.

Lemma moved_valid c m : moved c m → valid_map (default ∅ m) → valid_map (placement c).
Proof. by intros [[-> ->]|[-> _]]. Qed.

(** The rows sent so far under an empty placement can be split anywhere. *)
Lemma restart_split s outs p1 pos m : oh_ok s outs p1 pos m → placement s.1 = ∅ → oh_ok s outs pos pos m.
Proof.
  intros [[Hp1 Hpos] Hi Hm Hv Ha Hf Hc] Hpl. split; try done; [lia|]. intros sid. rewrite Hi, Hpl, <-!routed_app.
  by rewrite !batch_rows_app by lia.
Qed.

(** Sending a batch. *)
Lemma send_phase_ok c outs p1 pos m mig ctl : 0 < ShardNum < 2 ^ 63 → 0 ≤ TxBatchSize → Forall row_ok rows →
  oh_ok (c, ctl) outs p1 pos m → moved c m → (mig = false → m = None) →
  ∃ c' out q, send_rows ips rows start pos mig c = Ok (c', OInject q mig, out) ∧
    oh_ok (c', OInject q mig) (outs ++ out) p1 q m.
Proof.
  intros Hn Hb Hr [[Hp1 Hpos] Hi Hm Hv Ha Hf _] Hmv Hmig. cbn [fst] in *.
  destruct (send_rows_spec pos mig c Hn (moved_valid c m Hmv Hv) Hf Hr) as (f & out & E & Hf' & Hmaps & Hinj).
  eexists _, out, _. split; [exact E|]. split; cbn [fst snd]; try done.
  - lia.
  - intros sid. rewrite injected_app, Hi, Hinj. change (placement (c <| frequency := f |>)) with (placement c).
    rewrite <-app_assoc, <-routed_app, batch_rows_app by lia. done.
  - by rewrite maps_of_app, Hm, Hmaps, app_nil_r.
Qed.

Lemma iterate_ok clock c ctl outs p1 pos m c' ctl' out :
  0 < ShardNum < 2 ^ 63 → 0 ≤ NodesInShard → 0 ≤ TxBatchSize → Forall row_ok rows →
  oh_ok (c, ctl) outs p1 pos m →
  oh_iterate ips TimeoutSeconds MigrationAfterSeconds rows start clock c ctl = Ok (c', ctl', out) →
  ∃ p1' pos' m', oh_ok (c', ctl') (outs ++ out) p1' pos' m'.
Proof.
  intros Hn Hnodes Hb Hr Hok. pose proof (ok_control _ _ _ _ _ Hok) as Hc. cbn [fst snd] in Hc.
  pose proof Hok as [[Hp1 Hpos] Hi Hm Hv Ha Hf _]. cbn [fst] in *.
  destruct ctl as [q mig|q mm| |]; cbn [oh_iterate control_ok] in *.
  - destruct Hc as (-> & Hmv & Hmig). destruct (Z.leb_spec (len rows) pos).
    { destruct (Overhead_Migration && negb mig); [done|]. intros [= <- <- <-]. exists p1, pos, m. rewrite app_nil_r.
      split; try done. split; [cbn; lia|done]. }
    destruct (deadline _ _ <? _); [done|]. destruct (_ && _ && _) eqn:Ed.
    + apply andb_true_iff in Ed as [Ed _]. apply andb_true_iff in Ed as [_ Ed]. apply negb_true_iff in Ed. subst mig.
      specialize (Hmig eq_refl). subst m. destruct Hmv as [[_ Hpl]|[? _]]; [|done].
      intros (mm & Em & [= <- <- <-])%go_bind_inv.
      pose proof (restart_split _ _ _ _ _ Hok Hpl) as [_ Hi' _ _ _ _ _]. exists pos, pos, (Some mm). split; try done; cbn [fst snd] in *.
      * lia.
      * intros sid. by rewrite injected_app, map_injects, app_nil_r.
      * by rewrite maps_of_app, Hm, map_send_maps.
      * apply (plan_valid c mm Hn); [rewrite Hpl; apply map_Forall_empty|done|exact Em].
    + destruct (send_phase_ok c outs p1 pos m mig _ Hn Hb Hr Hok Hmv Hmig) as (c1 & o1 & q1 & -> & Hok'). intros [= <- <- <-]. eauto.
  - destruct Hc as (-> & -> & Hpl). destruct (Z.eqb_spec (Z.of_nat (size (acks c))) (ShardNum * NodesInShard)) as [Hsz|].
    + pose (c1 := c <| placement ::= λ pl, mm ∪ pl |>).
      assert (placement c1 = mm) as Hp1' by (cbn; by rewrite Hpl, map_union_empty).
      assert (moved c1 (Some mm)) as Hmv.
      { right. rewrite Hp1'. split; [done|]. apply acks_full; [lia|done|exact Ha|exact Hsz]. }
      assert (oh_ok (c1, OInject pos true) outs pos pos (Some mm)) as Hok1.
      { pose proof (restart_split _ _ _ _ _ Hok Hpl) as [? Hi' ? ? ? ? _]. split; try done. cbn [fst] in *. intros sid.
        rewrite Hi', Hpl, Hp1'. unfold OverheadCommittee.batch_rows. by rewrite Z.sub_diag. }
      destruct (send_phase_ok c1 outs pos pos (Some mm) true _ Hn Hb Hr Hok1 Hmv) as (c2 & o2 & q2 & E & Hok'); [done|].
      fold c1. rewrite E. intros [= <- <- <-]. eauto.
    + destruct (deadline _ _ <? _); [done|]. intros [= <- <- <-]. rewrite app_nil_r. eauto.
  - destruct Hc as (-> & Hmv). destruct (Z.eqb_spec (Z.of_nat (size (completed c))) (len rows)) as [Hsz|].
    + intros [= <- <- <-]. exists p1, (len rows), m. rewrite app_nil_r. split; try done. split; [done|]. split; [done|cbn; lia].
    + destruct (deadline _ _ <? _); [done|]. intros [= <- <- <-]. rewrite app_nil_r. eauto.
  - intros [= <- <- <-]. rewrite app_nil_r. eauto.
Qed.

Lemma ostep_ok s e outs p1 pos m s' out :
  0 < ShardNum < 2 ^ 63 → 0 ≤ NodesInShard < 2 ^ 63 → 0 ≤ TxBatchSize → Forall row_ok rows → oh_event_ok e →
  oh_ok s outs p1 pos m → oh_step ips TimeoutSeconds MigrationAfterSeconds rows start s e = Ok (s', out) →
  ∃ p1' pos' m', oh_ok s' (outs ++ out) p1' pos' m'.
Proof.
  intros Hn Hnodes Hb Hr He Hok. destruct s as [c ctl]. destruct e as [clock|b|msg]; cbn [oh_step fst snd].
  - intros ([[c1 ctl1] o] & E & [= <- <-])%go_bind_inv. eapply iterate_ok; [done|apply Hnodes|done|done|exact Hok|exact E].
  - intros [= <- <-]. rewrite app_nil_r. exists p1, pos, m. destruct Hok as [? ? ? ? ? ? Hc]. split; try done.
    cbn [fst snd] in *. destruct ctl; try exact Hc. destruct Hc as (? & ? & ?). split; [done|]. split; [done|].
    etrans; [done|]. apply inj_le, subseteq_size. cbn. set_solver.
  - intros (c' & E & [= <- <-])%go_bind_inv. rewrite app_nil_r. exists p1, pos, m.
    destruct msg; cbn [oh_HandleOtherMessage] in E; try (by injection E as <-).
    destruct (negb (epoch =? 1) || (u64 ShardNum <=? shard) || (u64 NodesInShard <=? node)) eqn:Eg; [done|].
    injection E as <-. apply orb_false_iff in Eg as [Eg Hnd]. apply orb_false_iff in Eg as [_ Hsd].
    rewrite u64_small in Hnd, Hsd by (unfold two64; lia). zbool. destruct He as [? ?].
    destruct Hok as [? ? ? ? Hacks ? Hc]. split; try done; cbn [fst snd] in *.
    + apply union_subseteq. split; [|done]. apply singleton_subseteq_l, elem_of_replicas. done.
    + assert (∀ m, moved c m → moved (c <| acks ::= λ s, {[(shard, node)]} ∪ s |>) m) as Hmv.
      { intros m' [?|[? Hall]]; [by left|right]. split; [done|]. intros sid nid ??. cbn. apply elem_of_union_r. by apply Hall. }
      destruct ctl; cbn [control_ok] in *; intuition.
Qed.

(** C33: the migration is a barrier.  In every run over a loaded dataset, with any interleaving of
    iterations, reports and acknowledgements: the rows are injected in order, each once, the first
    [p1] by the addresses alone and the others by the new placement, into the shard of the sender;
    accounts are placed anew only when every replica of every shard has acknowledged the transfer
    of exactly the map the shards were sent; and the run ends only after every row was injected
    and as many transactions were confirmed. *)
Theorem overhead_barrier (records : list (list string + string)) (es : list oh_event) s outs :
  0 < ShardNum < 2 ^ 63 → 0 ≤ NodesInShard < 2 ^ 63 → 0 ≤ TxBatchSize →
  loadOverheadCSV TotalDataSize records = inl rows → Forall oh_event_ok es →
  oh_run ips TimeoutSeconds MigrationAfterSeconds rows start es = Ok (s, outs) →
  ∃ p1 pos, 0 ≤ p1 ≤ pos ∧ pos ≤ TotalDataSize ∧
    (∀ sid, injected sid outs = routed ∅ sid (batch_rows 0 p1) ++ routed (placement s.1) sid (batch_rows p1 pos)) ∧
    (placement s.1 ≠ ∅ → all_acked s.1 ∧ maps_of outs = to_all [placement s.1]) ∧
    (s.2 = ODone → pos = TotalDataSize ∧ TotalDataSize ≤ Z.of_nat (size (completed s.1))).
Proof.
  intros Hn Hnodes Hb Hload He Hrun. apply load_ok in Hload as [Hlen Hr].
  assert (∃ p1 pos m, oh_ok s outs p1 pos m) as (p1 & pos & m & Hok).
  { assert (oh_ok (NewOverheadCommittee, OInject 0 false) [] 0 0 None) as H0ok.
    { split; cbn; try done; [unfold len; lia|split; [done|]; split; [by left|done]]. }
    change (∃ p1 pos m, oh_ok (s, outs).1 (s, outs).2 p1 pos m).
    eapply (go_fold_inv _ (λ acc : oh_state * list packet, ∃ p1 pos m, oh_ok acc.1 acc.2 p1 pos m)); [| |exact Hrun].
    - cbn [fst snd]. eauto.
    - intros [s1 o1] acc e Hin (p1 & pos & m & Hok) ([s2 o2] & E & [= <-])%go_bind_inv. cbn [fst snd] in *.
      eapply ostep_ok; [done|done|done|done| |exact Hok|exact E]. by eapply Forall_forall in He. }
  destruct Hok as [[Hp1 Hpos] Hi Hm _ _ _ Hc]. exists p1, pos. split; [done|]. split; [lia|]. split; [done|].
  assert (s.2 = ODone → pos = TotalDataSize ∧ TotalDataSize ≤ Z.of_nat (size (completed s.1))) as Hdone.
  { intros E. rewrite E in Hc. destruct Hc as (-> & _ & ?). by rewrite <-Hlen. }
  split; [|exact Hdone]. intros Hne. assert (moved s.1 m) as [[_ ?]|[-> Hall]]; [|done|done].
  destruct s as [c ctl]. destruct ctl; cbn in *; intuition.
Qed.
End workload.
End facts.

(** ** Witnesses: two shards with one replica each, two rows, one account to move *)
Module OverheadExample.
Import ConcreteLibs.

(** A small codec: transactions of this workload differ in their nonces. *)
Definition nonce_codec : Codec Transaction := {| Encode tx := pretty (TxNonce tx); Decode _ := None |}.
#[local] Existing Instance nonce_codec.

Definition oh_params : Params := {|
  NodesInShard := 1; ShardNum := 2; MaxBlockSize_global := 2000; BlocksizeInBytes := 20000; UseBlocksizeInBytes := 0;
  InjectSpeed := 300; TotalDataSize := 2; TxBatchSize := 1; RelayWithMerkleProof := 0; PbftViewChangeTimeOut := 10000;
  SupervisorAddr := ""; Overhead_Enabled := true; Overhead_Lightweight := false; Overhead_Migration := true;
  Overhead_MigrationAccounts := 1; Overhead_StreamSkipNode := -1 |}.
#[local] Existing Instance oh_params.

Definition addr1 : string := "32be343b94f860124dc4fee278fdcbd38c102d8a".
Definition addr2 : string := "32be343b94f860124dc4fee278fdcbd38c102d8b".
Definition records : list (list string + string) :=
  [inl ["1"; "h"; addr1; addr2; "5"]; inl ["2"; "h"; addr1; addr2; "6"]].
Definition rows : list overheadRow := [mkRow addr1 addr2 5; mkRow addr1 addr2 6].
Definition report : BlockInfoMsg :=
  mkBlockInfoMsg 2 [row_tx 0 0 (mkRow addr1 addr2 5); row_tx 0 1 (mkRow addr1 addr2 6)] 1 0 0 0 [] [] [] [].
Definition events : list oh_event :=
  [OIter (λ _, 1); OIter (λ _, 2000000000); OIter (λ _, 2000000001); OOther (MOHMigrationDone 0 0 1); OOther (MOHMigrationDone 1 0 1);
   OIter (λ _, 2000000002); OIter (λ _, 2000000003); OReport report; OIter (λ _, 2000000004)].

Definition result : oh_state * list packet :=
  match oh_run ∅ 100 1 rows 0 events with Ok r => r | Panic _ => ((NewOverheadCommittee, OWaiting), []) end.

Lemma overhead_barrier_witness :
  oh_run ∅ 100 1 rows 0 events = Ok result ∧ result.1.2 = ODone ∧ all_acked result.1.1 ∧
  maps_of result.2 = to_all [{[ addr1 := 1 ]}] ∧ injected 0 result.2 = routed 0 ∅ 0 (batch_rows rows 0 1).
Proof.
  assert (oh_run ∅ 100 1 rows 0 events = Ok result) as E.
  { unfold result. destruct (oh_run ∅ 100 1 rows 0 events) eqn:E; [done|]. vm_compute in E. discriminate. }
  assert (placement result.1.1 = {[ addr1 := 1 ]}) as Hp by (vm_compute; reflexivity).
  destruct (overhead_barrier ∅ 100 1 rows 0 records events result.1 result.2) as (p1 & pos & _ & _ & _ & Hm & _).
  - vm_compute. by split.
  - vm_compute. by split.
  - vm_compute. discriminate.
  - vm_compute. reflexivity.
  - repeat constructor; vm_compute; discriminate.
  - rewrite E. by destruct result.
  - split; [exact E|]. split; [vm_compute; reflexivity|].
    destruct Hm as [Hall Hmaps]; [rewrite Hp; apply map_non_empty_singleton|]. rewrite Hp in Hmaps.
    split; [exact Hall|]. split; [exact Hmaps|]. vm_compute. reflexivity.
Defined.

Lemma migration_plan_spec_witness :
  ∃ m, migration_plan (mkOverheadCommittee ∅ ∅ ∅ {[ addr1 := 2; addr2 := 1 ]}) = Ok m ∧ Z.of_nat (size m) = 1.
Proof.
  destruct (migration_plan_spec (mkOverheadCommittee ∅ ∅ ∅ {[ addr1 := 2; addr2 := 1 ]})) as (m & E & _ & Hs & _).
  - vm_compute. by split.
  - vm_compute. reflexivity.
  - apply map_Forall_empty.
  - apply map_Forall_insert_2; [split; [reflexivity|discriminate]|]. apply map_Forall_singleton. split; [reflexivity|discriminate].
  - apply insert_non_empty.
  - exists m. split; [exact E|]. rewrite Hs. vm_compute. reflexivity.
Defined.
End OverheadExample.
