(* ===== verification/SupervisorProcess.v ===== *)
(** * The supervisor ([supervisor/supervisor.go])

    The supervisor passes every block report to the stop signal, to its committee and to its
    measures, and every other message to its committee.  [CommitteeModule] is the interface of
    [committeeInterface.go]; the stop signal is one object that the supervisor and most
    committees share.  Here the handlers; what the committees do by themselves is in their files.
    Listening, logging and closing connections are I/O. *)
From Stdlib Require Import SpecFloat.
From S2P Require Import Prelude Utils Libs Core Messages Storage Chain MerkleProof Overhead Pbft Supervisor.
From S2P Require Import Partition Contribution Committee Broker PLouvain PLouvainCommittee EpochControl OverheadCommittee Measure.

Class CommitteeModule (X : Type) := {
  Ss_of : X → StopSignal;
  on_Ss : (StopSignal → StopSignal) → X → X;
  com_HandleBlockInfo : (nat → Time) → BlockInfoMsg → X → go (X * list packet);
  com_HandleOtherMessage : (nat → Time) → Msg → X → go (X * list packet);
}.

(** ** The committees *)
Section committees.
Context `{Params, CryptoLib, !Codec Transaction, !Codec BrokerRawMeg}.
Context (IpNodeTable : gmap Z (gmap Z string)).

(** ContribChain and CLPA with brokers. *)
#[export] Instance epoch_module {X} `{!EpochCommittee X} : CommitteeModule (epoch_state X) := {|
  Ss_of s := ebSs (eb s);
  on_Ss f s := s <| eb ::= λ b, b <| ebSs ::= f |> |>;
  com_HandleBlockInfo := e_HandleBlockInfo;
  com_HandleOtherMessage clock m s := r ← on_other clock m (eb s) (ex s); Ok (s <| ex := r.1 |>, r.2) |}.

#[export] Instance clpa_module : CommitteeModule committee := {|
  Ss_of s := ccSs (ccm s);
  on_Ss f s := mkCommittee ((ccm s) <| ccSs ::= f |>) (ctl s);
  com_HandleBlockInfo _ b s := c ← clpa_HandleBlockInfo b (ccm s); Ok (mkCommittee c (ctl s), []);
  com_HandleOtherMessage _ _ s := Ok (s, []) |}.

#[export] Instance broker_module : CommitteeModule (broker_feed * BrokerCommitteeMod) := {|
  Ss_of s := bfSs s.1;
  on_Ss f s := (s.1 <| bfSs ::= f |>, s.2);
  com_HandleBlockInfo clock b s := r ← broker_HandleBlockInfo IpNodeTable fetchModifiedMap clock b s.2; Ok ((s.1, r.1), r.2);
  com_HandleOtherMessage _ _ s := Ok (s, []) |}.

#[export] Instance plouvain_module : CommitteeModule PLouvainCommittee := {|
  Ss_of := pSs;
  on_Ss f p := p <| pSs ::= f |>;
  com_HandleBlockInfo _ b p := Ok (plouvain_HandleBlockInfo b p, []);
  com_HandleOtherMessage _ _ p := Ok (p, []) |}.

(** This committee does not use the stop signal. *)
#[export] Instance overhead_module : CommitteeModule (StopSignal * oh_state) := {|
  Ss_of := fst;
  on_Ss f s := (f s.1, s.2);
  com_HandleBlockInfo _ b s := Ok ((s.1, (oh_HandleBlockInfo b s.2.1, s.2.2)), []);
  com_HandleOtherMessage _ m s := c ← oh_HandleOtherMessage m s.2.1; Ok ((s.1, (c, s.2.2)), []) |}.
End committees.

(** ** The supervisor *)

(** The committee that a name selects: every other name, [Relay] included, selects PLouvain. *)
Inductive committee_method := MOverhead | MCLPA_Broker | MCLPA | MBroker | MContrib | MPLouvain.
Definition select_committee (committeeMethod : string) : committee_method :=
  if bool_decide (committeeMethod = "Overhead") then MOverhead
  else if bool_decide (committeeMethod = "CLPA_Broker") then MCLPA_Broker
  else if bool_decide (committeeMethod = "CLPA") then MCLPA
  else if bool_decide (committeeMethod = "Broker") then MBroker
  else if bool_decide (committeeMethod = "Contrib") then MContrib
  else MPLouvain.

(** The stop signal, which is passed to the committee. *)
Definition supervisor_Ss (pcc : ChainConfig) : StopSignal := NewStopSignal (3 * ShardNums pcc).

Example relay_selects_plouvain : select_committee "Relay" = MPLouvain.
Proof. reflexivity. Qed.

Section supervisor.
Context {X : Type} `{!CommitteeModule X}.

Record SupervisorState := mkSupervisor { comMod : X; testMeasureMods : list measure_module }.

Definition NewSupervisor (com : X) (measureModNames : list string) : SupervisorState :=
  mkSupervisor com (new_measures measureModNames).

Definition update_measures (bim : BlockInfoMsg) (ms : list measure_module) : go (list measure_module) :=
  go_fold (λ acc mm, mm ← UpdateMeasureRecord bim mm; Ok (acc ++ [mm])) [] ms.

Definition handleBlockInfos (clock : nat → Time) (bim : BlockInfoMsg) (d : SupervisorState)
    : go (SupervisorState * list packet) :=
  r ← com_HandleBlockInfo clock bim (on_Ss (λ ss, observe_block ss bim) (comMod d));
  ms ← update_measures bim (testMeasureMods d);
  Ok (mkSupervisor r.1 ms, r.2).

(** The measures ignore other messages. *)
Definition supervisor_handleMessage (clock : nat → Time) (m : Msg) (d : SupervisorState)
    : go (SupervisorState * list packet) :=
  match m with
  | MBlockInfo bim => handleBlockInfos clock bim d
  | _ => r ← com_HandleOtherMessage clock m (comMod d); Ok (mkSupervisor r.1 (testMeasureMods d), r.2)
  end.

(** The results that [CloseSupervisor] logs. *)
Definition CloseSupervisor (now : Time) (d : SupervisorState) : go (list (string * (list float * float))) :=
  go_fold (λ acc mm, r ← OutputRecord now mm; Ok (acc ++ [(OutputMetricName mm, r)])) [] (testMeasureMods d).

(** The messages handled one after the other ([tcpLock]). *)
Definition supervisor_run (d : SupervisorState) (ms : list ((nat → Time) * Msg)) : go (SupervisorState * list packet) :=
  go_fold (λ (acc : SupervisorState * list packet) (cm : (nat → Time) * Msg),
    r ← supervisor_handleMessage cm.1 cm.2 acc.1; Ok (r.1, acc.2 ++ r.2)) (d, []) ms.
End supervisor.
Arguments SupervisorState X : clear implicits.
