(* ===== verification/SupervisorProcessFacts.v ===== *)
(** * Properties of the supervisor

    Every measure keeps one row per epoch in all its slices, so reports never make it panic;
    whatever committee is plugged in, the stop signal and the measures see exactly the reports. *)
From Stdlib Require Import SpecFloat.
From S2P Require Import Prelude Utils Libs Core Messages Storage Chain MerkleProof Overhead Pbft Supervisor SupervisorFacts.
From S2P Require Import Partition Contribution Committee Broker PLouvain PLouvainCommittee EpochControl OverheadCommittee Measure MeasureFacts SupervisorProcess.

(** ** Measures are well-formed *)
Definition counts_wf (n : nat) (c : counts) : Prop :=
  epochID c = Z.of_nat n - 1 ∧ length (normalTxNum c) = n ∧ length (firstTxNum c) = n ∧ length (secondTxNum c) = n.

Definition tcl_wf (n : nat) (t : TestModule_TCL) : Prop :=
  counts_wf n (lCounts t) ∧ length (lTxNum t) = n ∧ length (totTxLatencyEpoch t) = n ∧ length (firstCommitLatency t) = n ∧
  length (secondCommitLatency t) = n ∧ length (ctxCommitLatency t) = n ∧ length (normalTxCommitLatency t) = n.

Definition measure_wf (mm : measure_module) : Prop :=
  match mm with
  | TPS _ t => ∃ n, counts_wf n (tCounts t) ∧ length (excutedTxNum t) = n ∧ length (startTime t) = n ∧ length (endTime t) = n
  | TCL _ t => ∃ n, tcl_wf n t
  | CrossTxRate _ t => ∃ n, counts_wf n (rCounts t) ∧ length (totTxNum t) = n ∧ length (totCrossTxNum t) = n
  | TxNumberCount _ t => ∃ n, counts_wf n (nCounts t) ∧ length (txNum t) = n
  | Tx_Details _ => True
  end.

Section rows.
Context (n : nat) (e : Z).
Hypothesis e_nonneg : 0 ≤ e.
Let k := missing (Z.of_nat n - 1) e.

Lemma add_at_ok {A} (f : A → A) (zero : A) (l : list A) : length l = n →
  ∃ l', add_at f e (extend zero k l) = Ok l' ∧ length l' = (n + k)%nat.
Proof.
  intros Hl. exists (alter f (Z.to_nat e) (extend zero k l)).
  assert (length (extend zero k l) = (n + k)%nat) as He by (unfold extend; rewrite length_app, length_replicate; lia).
  rewrite length_alter. split; [|done]. unfold add_at, len. rewrite He. unfold k, missing in *.
  by rewrite (proj2 (Z.leb_le 0 e)), (proj2 (Z.ltb_lt _ _)) by lia.
Qed.
End rows.

(** Go through the columns of an update. *)
Ltac next_column He :=
  match goal with
  | |- context [add_at ?f ?e (extend ?z (missing (Z.of_nat ?n - 1) ?e) ?l)] =>
      let l' := fresh "l" in let E := fresh "E" in let Hl := fresh "Hl" in
      destruct (add_at_ok n e He f z l) as (l' & E & Hl); [done|]; rewrite E; cbn [mbind go_bind]; clear E
  end.

Lemma count_report_ok m b n c : 0 ≤ Epoch b → counts_wf n c →
  ∃ c', count_report m b (extend_counts (missing (Z.of_nat n - 1) (Epoch b)) c) = Ok c' ∧
    counts_wf (n + missing (Z.of_nat n - 1) (Epoch b)) c'.
Proof.
  intros He (Hid & H1 & H2 & H3). unfold count_report, extend_counts. cbn [epochID normalTxNum firstTxNum secondTxNum].
  do 3 next_column He. eexists. split; [done|]. split; [cbn; lia|done].
Qed.

(** Changing a well-formed measure. *)
Lemma update_total mm b : measure_wf mm → (live b = true → 0 ≤ Epoch b) →
  ∃ mm', UpdateMeasureRecord b mm = Ok mm' ∧ measure_wf mm'.
Proof.
  intros Hwf He. destruct mm as [m t|m t|m t|m t|t]; cbn [UpdateMeasureRecord AnyMeasure measure_wf] in *; [..|by eexists].
  all: unfold update_tps, update_tcl, update_crossrate, update_txnum; destruct (BlockBodyLength b =? 0) eqn:El;
    [by eexists|]; specialize (He (f_equal negb El)); destruct Hwf as (n & Hwf).
  - destruct Hwf as (Hc & H1 & H2 & H3). rewrite (proj1 Hc). next_column He.
    destruct (count_report_ok m b n (tCounts t) He Hc) as (c' & -> & Hc'). cbn [mbind go_bind]. do 2 next_column He.
    eexists. split; [done|]. by eexists.
  - destruct Hwf as (Hc & H1 & H2 & H3 & H4 & H5 & H6). rewrite (proj1 Hc).
    destruct (count_report_ok m b n (lCounts t) He Hc) as (c' & -> & Hc'). cbn [mbind go_bind]. do 6 next_column He.
    eexists. split; [done|]. eexists. by split_and!; cbn.
  - destruct Hwf as (Hc & H1 & H2). rewrite (proj1 Hc).
    destruct (count_report_ok m b n (rCounts t) He Hc) as (c' & -> & Hc'). cbn [mbind go_bind]. do 2 next_column He.
    eexists. split; [done|]. by eexists.
  - destruct Hwf as (Hc & H1). rewrite (proj1 Hc).
    destruct (count_report_ok m b n (nCounts t) He Hc) as (c' & -> & Hc'). cbn [mbind go_bind]. next_column He.
    eexists. split; [done|]. by eexists.
Qed.

(** Every measure can be read. *)
Lemma output_total now mm : measure_wf mm → ∃ r, OutputRecord now mm = Ok r.
Proof.
  destruct mm as [m t|m t|m t|m t|t]; cbn [OutputRecord AnyMeasure measure_wf]; [..|by eexists].
  - intros (n & _ & H1 & H2 & H3). destruct (tps_output now t) as [l E]; [congruence..|]. eauto.
  - intros (n & _ & H1 & H2 & _). unfold output_tcl.
    rewrite (go_fold_ext _ (λ s iy, x ← row (lTxNum t) iy.1;
      Ok ((λ s x y, let '(l, lat, tot) := s in (l ++ [fdiv y x], fadd lat y, fadd tot x)) s x iy.2)))
      by (intros [[l a] c] et; by destruct (row _ _)).
    rewrite (rows_loop_all (λ s x y, let '(l, lat, tot) := s in (l ++ [fdiv y x], fadd lat y, fadd tot x))) by congruence.
    cbn [mbind go_bind]. destruct (foldl _ _ _) as [[l a] c]. by eexists.
  - intros (n & _ & H1 & H2). destruct (crossrate_output t) as [l E]; [congruence|]. eauto.
  - intros _. by eexists.
Qed.

Lemma new_measures_wf names : Forall measure_wf (new_measures names).
Proof.
  unfold new_measures. apply Forall_forall. intros mm (name & _ & Hn)%list_elem_of_omap. unfold new_measure in Hn.
  repeat case_bool_decide; simplify_eq; try done; exists 0%nat; done.
Qed.

(** ** What a committee does to the shared stop signal: nothing, in its handlers *)
Class CommitteeLaws (X : Type) `{!CommitteeModule X} : Prop := {
  ss_on (f : StopSignal → StopSignal) (x : X) : Ss_of (on_Ss f x) = f (Ss_of x);
  ss_report clock b (x x' : X) out : com_HandleBlockInfo clock b x = Ok (x', out) → Ss_of x' = Ss_of x;
  ss_other clock m (x x' : X) out : com_HandleOtherMessage clock m x = Ok (x', out) → Ss_of x' = Ss_of x;
}.

Section laws.
Context `{Params, CryptoLib, !Codec Transaction, !Codec BrokerRawMeg}.
Context (IpNodeTable : gmap Z (gmap Z string)).

#[export] Instance epoch_laws {X} `{!EpochCommittee X} : CommitteeLaws (epoch_state X).
Proof.
  split; [by intros f [[] ? ?]| |].
  - intros clock b x x' out. cbn. unfold e_HandleBlockInfo. destruct (BlockBodyLength b =? 0).
    + intros [= <- <-]. cbn. by destruct (_ =? _).
    + intros (r & _ & [= <- <-])%go_bind_inv. cbn. by destruct (_ =? _).
  - intros clock m x x' out. cbn. by intros (r & _ & [= <- <-])%go_bind_inv.
Qed.

#[export] Instance clpa_laws : CommitteeLaws committee.
Proof.
  split; [done| |by intros ????? [= <- <-]].
  intros clock b x x' out. cbn. intros (c & E & [= <- <-])%go_bind_inv. cbn. unfold clpa_HandleBlockInfo in E.
  destruct (BlockBodyLength b =? 0); [|apply go_bind_inv in E as (g1 & _ & E); apply go_bind_inv in E as (g2 & _ & E)];
    injection E as <-; by destruct (_ =? _).
Qed.

#[export] Instance broker_laws : @CommitteeLaws _ (broker_module IpNodeTable).
Proof.
  split; [done| |by intros ????? [= <- <-]]. intros clock b x x' out. cbn. by intros (r & _ & [= <- <-])%go_bind_inv.
Qed.

#[export] Instance plouvain_laws : CommitteeLaws PLouvainCommittee.
Proof. split; [done|by intros ????? [= <- <-]..]. Qed.

#[export] Instance overhead_laws : CommitteeLaws (StopSignal * oh_state).
Proof.
  split; [done|by intros ????? [= <- <-]|]. intros clock m x x' out. cbn. by intros (c & _ & [= <- <-])%go_bind_inv.
Qed.
End laws.

(** ** Runs of the supervisor *)
Section run.
Context {X : Type} `{!CommitteeModule X, !CommitteeLaws X}.

Definition reports_of (ms : list ((nat → Time) * Msg)) : list BlockInfoMsg :=
  omap (λ cm, match cm.2 with MBlockInfo b => Some b | _ => None end) ms.

(** A committee that returns on every message that satisfies [ok]. *)
Definition com_total (ok : Msg → Prop) (inv : X → Prop) : Prop :=
  (∀ f x, inv x → inv (on_Ss f x)) ∧
  (∀ clock b x, ok (MBlockInfo b) → inv x → ∃ x' out, com_HandleBlockInfo clock b x = Ok (x', out) ∧ inv x') ∧
  (∀ clock m x, ok m → inv x → ∃ x' out, com_HandleOtherMessage clock m x = Ok (x', out) ∧ inv x').

Lemma update_measures_ok b ms : Forall measure_wf ms → (live b = true → 0 ≤ Epoch b) →
  ∃ ms', update_measures b ms = Ok ms' ∧ Forall measure_wf ms' ∧ Forall2 (λ m m', UpdateMeasureRecord b m = Ok m') ms ms'.
Proof.
  intros Hwf He. unfold update_measures.
  assert (∀ acc, Forall measure_wf acc → ∃ ms', go_fold (λ acc mm, mm ← UpdateMeasureRecord b mm; Ok (acc ++ [mm])) acc ms =
      Ok (acc ++ ms') ∧ Forall measure_wf (acc ++ ms') ∧ Forall2 (λ m m', UpdateMeasureRecord b m = Ok m') ms ms') as Hg;
    [|by apply (Hg [])].
  induction Hwf as [|m ms Hm _ IH]; intros acc Hacc; cbn [go_fold].
  - exists []. rewrite app_nil_r. done.
  - destruct (update_total m b Hm He) as (m' & E & Hm'). rewrite E. cbn [mbind go_bind].
    destruct (IH (acc ++ [m'])) as (ms' & -> & Hw & HF); [by apply Forall_app; split; [|apply Forall_singleton]|].
    exists (m' :: ms'). rewrite <-app_assoc in Hw |- *. split; [done|]. split; [done|by constructor].
Qed.

Definition measured (bs : list BlockInfoMsg) (m m' : measure_module) : Prop :=
  go_fold (λ m b, UpdateMeasureRecord b m) m bs = Ok m'.

Lemma measured_step b bs ms1 ms2 ms3 :
  Forall2 (λ m m', UpdateMeasureRecord b m = Ok m') ms1 ms2 → Forall2 (measured bs) ms2 ms3 → Forall2 (measured (b :: bs)) ms1 ms3.
Proof.
  intros H12. revert ms3. induction H12 as [|m1 m2 ms1 ms2 E _ IH]; intros ms3 H23; inversion H23; subst; constructor; [|by apply IH].
  unfold measured in *. cbn [go_fold]. by rewrite E.
Qed.

Lemma close_ok now (d : SupervisorState X) : Forall measure_wf (testMeasureMods d) →
  ∃ res, CloseSupervisor now d = Ok res ∧ res.*1 = OutputMetricName <$> testMeasureMods d.
Proof.
  unfold CloseSupervisor. intros Hwf.
  assert (∀ acc, ∃ res, go_fold (λ acc mm, r ← OutputRecord now mm; Ok (acc ++ [(OutputMetricName mm, r)])) acc (testMeasureMods d) =
      Ok (acc ++ res) ∧ res.*1 = OutputMetricName <$> testMeasureMods d) as Hg; [|by apply (Hg [])].
  induction Hwf as [|m ms Hm _ IH]; intros acc; cbn [go_fold].
  - exists []. by rewrite app_nil_r.
  - destruct (output_total now m Hm) as [r ->]. cbn [mbind go_bind].
    destruct (IH (acc ++ [(OutputMetricName m, r)])) as (res & -> & Hres). exists ((OutputMetricName m, r) :: res).
    rewrite <-app_assoc. split; [done|]. cbn. by rewrite Hres.
Qed.

(** One message. *)
Lemma message_ok ok inv clock m (d : SupervisorState X) : com_total ok inv → ok m → inv (comMod d) → Forall measure_wf (testMeasureMods d) →
  Forall (λ b, live b = true → 0 ≤ Epoch b) (reports_of [(clock, m)]) →
  ∃ d' out, supervisor_handleMessage clock m d = Ok (d', out) ∧ inv (comMod d') ∧ Forall measure_wf (testMeasureMods d') ∧
    Ss_of (comMod d') = foldl observe_block (Ss_of (comMod d)) (reports_of [(clock, m)]) ∧
    (∀ bs ms3, Forall2 (measured bs) (testMeasureMods d') ms3 →
       Forall2 (measured (reports_of [(clock, m)] ++ bs)) (testMeasureMods d) ms3).
Proof.
  intros (Hss & Hrep & Hoth) Hok Hinv Hwf He.
  assert (∀ m', reports_of [(clock, m')] = [] → supervisor_handleMessage clock m' d =
      (r ← com_HandleOtherMessage clock m' (comMod d); Ok (mkSupervisor r.1 (testMeasureMods d), r.2))) as Hother by (by intros []).
  destruct (reports_of [(clock, m)]) as [|b bs0] eqn:Er.
  - rewrite (Hother m Er). destruct (Hoth clock m (comMod d) Hok Hinv) as (x' & out & E & Hinv'). rewrite E. cbn [mbind go_bind].
    eexists _, _. split; [done|]. cbn. split; [done|]. split; [done|]. split; [by eapply ss_other|done].
  - destruct m; try done. cbn in Er. injection Er as <- <-. rewrite Forall_singleton in He.
    cbn [supervisor_handleMessage]. unfold handleBlockInfos.
    destruct (Hrep clock m _ Hok (Hss (λ ss, observe_block ss m) _ Hinv)) as (x' & out & E & Hinv'). rewrite E. cbn [mbind go_bind].
    destruct (update_measures_ok m (testMeasureMods d) Hwf He) as (ms' & -> & Hwf' & HF). cbn [mbind go_bind].
    eexists _, _. split; [done|]. cbn. split; [done|]. split; [done|]. split.
    + by rewrite (ss_report _ _ _ _ _ E), ss_on.
    + intros bs ms3 H3. by eapply measured_step.
Qed.

Lemma run_ok ok inv ms (d : SupervisorState X) outs0 : com_total ok inv → Forall (λ cm, ok cm.2) ms →
  inv (comMod d) → Forall measure_wf (testMeasureMods d) → Forall (λ b, live b = true → 0 ≤ Epoch b) (reports_of ms) →
  ∃ d' outs, go_fold (λ (acc : SupervisorState X * list packet) (cm : (nat → Time) * Msg),
      r ← supervisor_handleMessage cm.1 cm.2 acc.1; Ok (r.1, acc.2 ++ r.2)) (d, outs0) ms = Ok (d', outs) ∧
    inv (comMod d') ∧ Forall measure_wf (testMeasureMods d') ∧
    Ss_of (comMod d') = foldl observe_block (Ss_of (comMod d)) (reports_of ms) ∧
    Forall2 (measured (reports_of ms)) (testMeasureMods d) (testMeasureMods d').
Proof.
  intros Hc Hok. revert d outs0. induction Hok as [|[clock m] ms Hm _ IH]; intros d outs0 Hinv Hwf He.
  - exists d, outs0. split_and!; try done. clear. induction (testMeasureMods d); by constructor.
  - assert (reports_of ((clock, m) :: ms) = reports_of [(clock, m)] ++ reports_of ms) as Hr by (unfold reports_of; by destruct m).
    rewrite Hr in He |- *. apply Forall_app in He as [He1 He2]. cbn [go_fold fst snd].
    destruct (message_ok ok inv clock m d Hc Hm Hinv Hwf He1) as (d1 & out & E & Hinv1 & Hwf1 & Hs1 & HF1). cbn [fst snd].
    rewrite E. cbn [mbind go_bind fst snd].
    destruct (IH d1 (outs0 ++ out) Hinv1 Hwf1 He2) as (d2 & outs & E2 & Hinv2 & Hwf2 & Hs2 & HF2).
    exists d2, outs. split; [exact E2|]. split_and!; [done|done| |by apply HF1]. by rewrite Hs2, Hs1, foldl_app.
Qed.

(** The supervisor handles every message.  With any committee that keeps to its interface and
    returns on the messages at hand, and reports without negative epochs (of non-empty blocks),
    the supervisor handles any sequence of messages without a panic.  The stop signal has then
    seen exactly the reports, in order; each measure is the one it was after exactly the reports;
    all its slices have one row per epoch; and its results can be read. *)
Theorem supervisor_handles (ok : Msg → Prop) (inv : X → Prop) (com : X) (names : list string)
    (ms : list ((nat → Time) * Msg)) (now : Time) :
  com_total ok inv → inv com → Forall (λ cm, ok cm.2) ms →
  Forall (λ b, live b = true → 0 ≤ Epoch b) (reports_of ms) →
  ∃ d outs res, supervisor_run (NewSupervisor com names) ms = Ok (d, outs) ∧ inv (comMod d) ∧
    Ss_of (comMod d) = foldl observe_block (Ss_of com) (reports_of ms) ∧
    Forall2 (measured (reports_of ms)) (new_measures names) (testMeasureMods d) ∧
    Forall measure_wf (testMeasureMods d) ∧
    CloseSupervisor now d = Ok res ∧ res.*1 = OutputMetricName <$> testMeasureMods d.
Proof.
  intros Hc Hinv Hok He. unfold supervisor_run.
  destruct (run_ok ok inv ms (NewSupervisor com names) [] Hc Hok Hinv (new_measures_wf names) He)
    as (d & outs & E & Hinv' & Hwf & Hs & HF).
  destruct (close_ok now d Hwf) as (res & Hres & Hn). by exists d, outs, res.
Qed.
End run.

(** ** Witness: the supervisor with the default committee and two measures *)
Module ProcessExample.
Import MeasureExample.
#[local] Existing Instance default_params.

Definition com : PLouvainCommittee := NewPLouvainCommitteeModule ∅ (NewStopSignal 3) 10 5 0.
Definition messages : list ((nat → Time) * Msg) := (λ b, (λ _, 0, MBlockInfo b)) <$> reports ++ [rep 2 9 [] [] []].

Lemma supervisor_handles_witness :
  ∃ d outs res, supervisor_run (NewSupervisor com ["TPS_Relay"; "no such measure"; "Tx_Details"]) messages = Ok (d, outs) ∧
    stopGap (Ss_of (comMod d)) = 2 ∧ CloseSupervisor (year2024 + 10) d = Ok res ∧ res.*1 = ["Average_TPS"; "Tx_Details"].
Proof.
  destruct (supervisor_handles (X := PLouvainCommittee) (λ _, True) (λ _, True) com
    ["TPS_Relay"; "no such measure"; "Tx_Details"] messages (year2024 + 10)) as (d & outs & res & E & _ & Hs & HF & _ & Hc & Hn).
  - split_and!; [done|intros; by eexists _, _|intros; by eexists _, _].
  - done.
  - apply Forall_forall. done.
  - repeat constructor; cbn; lia.
  - exists d, outs, res. split; [exact E|]. split; [rewrite Hs; reflexivity|]. split; [exact Hc|]. rewrite Hn.
    inversion HF as [|? m1 ? l1 Hm1 HF1]; subst. inversion HF1 as [|? m2 ? l2 Hm2 HF2]; subst. inversion HF2; subst.
    unfold measured in Hm1, Hm2. vm_compute in Hm1, Hm2. by injection Hm1 as <-; injection Hm2 as <-.
Defined.
End ProcessExample.
