(* ===== verification/Setup.v ===== *)
(** * Configuration and start-up ([params/], [build/], [main.go])

    The package variables of [params] are a record; [ReadConfigFile], [initConfig] and [main] are
    functions on it.  [params_of] makes the configuration that the other files take as the class
    [Params] from it.  Reading a file gives its bytes or [None]; [encoding/json] is a [Codec].
    [log.Fatal] and [log.Panic] are panics.  The generator of start scripts works on a small file
    system: contents by path, and the set of the paths that this process has written. *)
From Stdlib Require Import Ascii.
From stdpp Require Import pretty.
From S2P Require Import Prelude Utils Libs Core Storage Chain SupervisorProcess.

(** ** [params/] *)
Record OverheadConfig := mkOverheadConfig {
  oEnabled : bool;
  oLightweight : bool;
  oMigration : bool;
  oMigrationAfterSeconds : Z;
  oMigrationAccounts : Z;
  oTimeoutSeconds : Z;
  oStreamSkipNode : Z;
}.

Record globalConfig := mkGlobalConfig {
  cOverhead : OverheadConfig;
  cConsensusMethod : Z;
  cPbftViewChangeTimeOut : Z;
  cExpDataRootDir : string;
  cBlockInterval : Z;
  cBlocksizeInBytes : Z;
  cMaxBlockSizeGlobal : Z;
  cUseBlocksizeInBytes : Z;
  cInjectSpeed : Z;
  cTotalDataSize : Z;
  cTxBatchSize : Z;
  cBrokerNum : Z;
  cRelayWithMerkleProof : Z;
  cDatasetFile : string;
  cReconfigTimeGap : Z;
  cDelay : Z;
  cJitterRange : Z;
  cBandwidth : Z;
}.

(** The package variables. *)
Record Globals := mkGlobals {
  gNodesInShard : Z;
  gShardNum : Z;
  gConsensusMethod : Z;
  gPbftViewChangeTimeOut : Z;
  gBlock_Interval : Z;
  gMaxBlockSize_global : Z;
  gBlocksizeInBytes : Z;
  gUseBlocksizeInBytes : Z;
  gInjectSpeed : Z;
  gTotalDataSize : Z;
  gTxBatchSize : Z;
  gBrokerNum : Z;
  gRelayWithMerkleProof : Z;
  gExpDataRootDir : string;
  gDataWrite_path : string;
  gLogWrite_path : string;
  gDatabaseWrite_path : string;
  gSupervisorAddr : string;
  gDatasetFile : string;
  gReconfigTimeGap : Z;
  gDelay : Z;
  gJitterRange : Z;
  gBandwidth : Z;
  gOverhead : OverheadConfig;
  gIPmap_nodeTable : gmap Z (gmap Z string);
}.
#[export] Instance Globals_eta : Eta Globals := λ g,
  mkGlobals (gNodesInShard g) (gShardNum g) (gConsensusMethod g) (gPbftViewChangeTimeOut g)
    (gBlock_Interval g) (gMaxBlockSize_global g) (gBlocksizeInBytes g) (gUseBlocksizeInBytes g)
    (gInjectSpeed g) (gTotalDataSize g) (gTxBatchSize g) (gBrokerNum g) (gRelayWithMerkleProof g)
    (gExpDataRootDir g) (gDataWrite_path g) (gLogWrite_path g) (gDatabaseWrite_path g)
    (gSupervisorAddr g) (gDatasetFile g) (gReconfigTimeGap g) (gDelay g) (gJitterRange g)
    (gBandwidth g) (gOverhead g) (gIPmap_nodeTable g).

Definition no_overhead : OverheadConfig := mkOverheadConfig false false false 0 0 0 0.

Definition default_globals : Globals :=
  mkGlobals 4 4 0 10000 5000 2000 20000 0 300 50000 16000 10 0 "expTest" "expTest/result/"
    "expTest/log" "expTest/database/" "127.0.0.1:18800" "./selectedTxs_300K.csv" 5 0 0 0
    no_overhead ∅.

Definition params_of (g : Globals) : Params := {|
  NodesInShard := gNodesInShard g; ShardNum := gShardNum g;
  MaxBlockSize_global := gMaxBlockSize_global g; BlocksizeInBytes := gBlocksizeInBytes g;
  UseBlocksizeInBytes := gUseBlocksizeInBytes g; InjectSpeed := gInjectSpeed g;
  TotalDataSize := gTotalDataSize g; TxBatchSize := gTxBatchSize g;
  RelayWithMerkleProof := gRelayWithMerkleProof g;
  PbftViewChangeTimeOut := gPbftViewChangeTimeOut g; SupervisorAddr := gSupervisorAddr g;
  Overhead_Enabled := oEnabled (gOverhead g); Overhead_Lightweight := oLightweight (gOverhead g);
  Overhead_Migration := oMigration (gOverhead g);
  Overhead_MigrationAccounts := oMigrationAccounts (gOverhead g);
  Overhead_StreamSkipNode := oStreamSkipNode (gOverhead g) |}.

(** The check of the overhead configuration. *)
Definition bad_overhead (c : globalConfig) : bool :=
  let o := cOverhead c in
  oEnabled o &&
  ((oTimeoutSeconds o <=? 0) || (cBandwidth c =? 0) || (cInjectSpeed c <=? 0) || (cTxBatchSize c <=? 0)
   || (cTotalDataSize c <=? 0)
   || (oMigration o && ((oMigrationAfterSeconds o <=? 0) || (oMigrationAccounts o <=? 0)))).

Definition set_config (c : globalConfig) (g : Globals) : Globals :=
  g <| gConsensusMethod := cConsensusMethod c |>
    <| gPbftViewChangeTimeOut := cPbftViewChangeTimeOut c |>
    <| gExpDataRootDir := cExpDataRootDir c |>
    <| gDataWrite_path := cExpDataRootDir c +:+ "/result/" |>
    <| gLogWrite_path := cExpDataRootDir c +:+ "/log" |>
    <| gDatabaseWrite_path := cExpDataRootDir c +:+ "/database/" |>
    <| gBlock_Interval := cBlockInterval c |>
    <| gMaxBlockSize_global := cMaxBlockSizeGlobal c |>
    <| gBlocksizeInBytes := cBlocksizeInBytes c |>
    <| gUseBlocksizeInBytes := cUseBlocksizeInBytes c |>
    <| gInjectSpeed := cInjectSpeed c |>
    <| gTotalDataSize := cTotalDataSize c |>
    <| gTxBatchSize := cTxBatchSize c |>
    <| gBrokerNum := cBrokerNum c |>
    <| gRelayWithMerkleProof := cRelayWithMerkleProof c |>
    <| gDatasetFile := cDatasetFile c |>
    <| gReconfigTimeGap := cReconfigTimeGap c |>
    <| gDelay := cDelay c |>
    <| gJitterRange := cJitterRange c |>
    <| gBandwidth := cBandwidth c |>.

(** [data] is what [os.ReadFile] gives for [paramsConfig.json]. *)
Definition ReadConfigFile `{!Codec globalConfig} (data : option bytes) (g : Globals) : go Globals :=
  match data with
  | None => Panic "Error reading file"
  | Some b =>
      match Decode b with
      | None => Panic "Error unmarshalling JSON"
      | Some c =>
          if bad_overhead c then Panic "invalid overhead experiment configuration"
          else Ok (set_config c (g <| gOverhead := cOverhead c |>))
      end
  end.

(** [networks.InitNetworkTools]: the values that make no sense are replaced; the bandwidth is
    the rate and the burst of both limiters. *)
Definition InitNetworkTools (g : Globals) : Globals :=
  g <| gDelay := if gDelay g <? 0 then 0 else gDelay g |>
    <| gJitterRange := if gJitterRange g <? 0 then 0 else gJitterRange g |>
    <| gBandwidth := if gBandwidth g <? 0 then 2147483647 else gBandwidth g |>.

(** The delay that [TcpDial] simulates, in milliseconds; [rnd] is [Intn(JitterRange)], which
    panics for a range that is not positive. *)
Definition thisDelay (rnd : Z → Z) (g : Globals) : go Z :=
  if gJitterRange g =? 0 then Ok (gDelay g)
  else if gJitterRange g <? 0 then Panic "invalid argument to Intn"
  else Ok (rnd (gJitterRange g) - Z.quot (gJitterRange g) 2 + gDelay g).

(** ** [build/] *)

(** [readIpTable]: an error is printed and the table stays nil. *)
Definition readIpTable `{!Codec (gmap Z (gmap Z string))} (file : option bytes) : gmap Z (gmap Z string) :=
  default ∅ (b ← file; Decode b).

(** The loop of [initConfig] over the shards. *)
Definition enough_nodes (ipMap : gmap Z (gmap Z string)) (nnm : Z) (shardID : nat) : bool :=
  i64 nnm <=? Z.of_nat (size (default ∅ (ipMap !! Z.of_nat shardID))).

(** [experiment.Init] starts a sampler of resources: I/O. *)
Definition initConfig (ipMap : gmap Z (gmap Z string)) (nid nnm sid snm : Z) (g : Globals)
    : go (Globals * ChainConfig) :=
  let g := g <| gIPmap_nodeTable := ipMap |>
             <| gSupervisorAddr := default "" (t ← ipMap !! SupervisorShard; t !! 0) |> in
  let shards := Z.of_nat (size ipMap) - 1 in
  if shards <? i64 snm then Panic "Input ShardNumber"
  else if negb (forallb (enough_nodes ipMap nnm) (seq 0 (Z.to_nat shards))) then Panic "Input NodeNumber"
  else
    let g := g <| gNodesInShard := i64 nnm |> <| gShardNum := i64 snm |> in
    let g := InitNetworkTools g in
    Ok (g, mkChainConfig sid nid sid (u64 (gNodesInShard g)) snm (u64 (gMaxBlockSize_global g))
             (u64 (gBlock_Interval g)) (u64 (gInjectSpeed g)) 0).

Definition MeasureBrokerMod : list string := ["TPS_Broker"; "TCL_Broker"; "CrossTxRate_Broker"; "TxNumberCount_Broker"].
Definition MeasureRelayMod : list string := ["TPS_Relay"; "TCL_Relay"; "CrossTxRate_Relay"; "TxNumberCount_Relay"].

(** What a process runs as. *)
Inductive role :=
| RSupervisor (addr : string) (pcc : ChainConfig) (method : string) (measures : list string)
| RPbftNode (sid nid : Z) (pcc : ChainConfig) (method : string)
| RExCliqueNode (sid nid : Z) (pcc : ChainConfig)
| RScripts (error : option string).

Definition BuildSupervisor (ipMap : gmap Z (gmap Z string)) (nnm snm : Z) (g : Globals) : go (Globals * role) :=
  let methodID := gConsensusMethod g in
  let measureMod :=
    if (methodID =? 0) || (methodID =? 2) then MeasureBrokerMod
    else if methodID =? 4 then ["BlockInfo"; "TPS"; "Latency"]
    else MeasureRelayMod in
  let measureMod := measureMod ++ ["Tx_Details"] in
  r ← initConfig ipMap 123 nnm 123 snm g;
  let '(g, pcc) := r in
  let on := oEnabled (gOverhead g) in
  Ok (g, RSupervisor (gSupervisorAddr g) pcc (if on then "Overhead" else "PLouvain")
           (if on then [] else measureMod)).

Definition BuildNewPbftNode (ipMap : gmap Z (gmap Z string)) (nid nnm sid snm : Z) (g : Globals)
    : go (Globals * role) :=
  let method := if oEnabled (gOverhead g) then "CLPA" else "PLouvain" in
  r ← initConfig ipMap nid nnm sid snm g;
  Ok (r.1, RPbftNode sid nid r.2 method).

Definition BuildNewExCliqueNode (ipMap : gmap Z (gmap Z string)) (nid nnm sid snm : Z) (g : Globals)
    : go (Globals * role) :=
  r ← initConfig ipMap nid nnm sid snm g;
  Ok (r.1, RExCliqueNode sid nid r.2).

(** The modules that [NewPbftNode] plugs in for a method. *)
Inductive node_modules := NCLPA_Broker | NCLPA | NBroker | NContrib | NRelay.
Definition select_modules (messageHandleType : string) : node_modules :=
  if bool_decide (messageHandleType = "CLPA_Broker") then NCLPA_Broker
  else if bool_decide (messageHandleType = "CLPA") then NCLPA
  else if bool_decide (messageHandleType = "Broker") then NBroker
  else if bool_decide (messageHandleType = "Contrib") then NContrib
  else NRelay.

(** ** Start scripts ([build/tool.go], [build/io_file_helper.go]) *)
Record Files := mkFiles {
  contents : gmap string string;
  fileUpToDataSet : gset string;
}.

(** A line feed. *)
Definition nl : string := String.String "010" "".

Section scripts.
Context (openable : string → bool).

(** The file is removed the first time this process writes to it (the removal of a file that is
    there succeeds). *)
Definition attachLineToFile (filePath line : string) (fs : Files) : Files * option string :=
  let fs := if bool_decide (filePath ∈ fileUpToDataSet fs) then fs
            else mkFiles (delete filePath (contents fs)) ({[filePath]} ∪ fileUpToDataSet fs) in
  if negb (openable filePath) then (fs, Some "open")
  else (mkFiles (<[filePath := default "" (contents fs !! filePath) +:+ line +:+ nl]> (contents fs))
          (fileUpToDataSet fs), None).

(** A loop that returns at the first error. *)
Fixpoint until_error {A} (f : A → Files → Files * option string) (l : list A) (fs : Files)
    : Files * option string :=
  match l with
  | [] => (fs, None)
  | x :: l => match f x fs with (fs, None) => until_error f l fs | r => r end
  end.

(** [strings.Split(nodeIp, ":")[0]] *)
Fixpoint host_chars (l : list ascii) : list ascii :=
  match l with
  | [] => []
  | c :: l => if Ascii.eqb c ":" then [] else c :: host_chars l
  end.

(** [strings.ReplaceAll(_, ".", "_")] *)
Definition underscores (s : string) : string :=
  unchars ((λ c, if Ascii.eqb c "." then "_"%char else c) <$> chars s).

(** The prefix and suffix of the file names, and the command. *)
Record script_format := mkFormat { fPrefix : string; fSuffix : string; fCommand : string }.

Definition format_go (os : string) : script_format :=
  if bool_decide (os = "windows") then mkFormat "complie_run_IpAddr=" ".bat" "start cmd /k go run main.go"
  else mkFormat "complie_run_IpAddr=" ".sh" "go run main.go".

Definition format_exe (os : string) : script_format :=
  if bool_decide (os = "windows")
  then mkFormat (os +:+ "_exe_run_IpAddr=") ".bat" "start cmd /k blockEmulator_Windows_Precompile.exe"
  else mkFormat (os +:+ "_exe_run_IpAddr=") ".sh" ("./blockEmulator_" +:+ os +:+ "_Precompile").

Definition batFilePath (f : script_format) (nodeIp : string) : string :=
  fPrefix f +:+ underscores (unchars (host_chars (chars nodeIp))) +:+ fSuffix f.

Definition node_command (f : script_format) (nodenum shardnum i j : Z) : string :=
  fCommand f +:+ " -n " +:+ pretty j +:+ " -N " +:+ pretty nodenum +:+ " -s " +:+ pretty i
    +:+ " -S " +:+ pretty shardnum +:+ " & " +:+ nl.

Definition supervisor_command (f : script_format) (nodenum shardnum : Z) : string :=
  fCommand f +:+ " -c -N " +:+ pretty nodenum +:+ " -S " +:+ pretty shardnum +:+ " & " +:+ nl.

Definition upto (n : Z) : list Z := Z.of_nat <$> seq 0 (Z.to_nat n).

(** Every node, shard by shard. *)
Definition nodes_of (nnm snm : Z) : list (Z * Z) :=
  flat_map (λ i, (λ j, (i, j)) <$> upto nnm) (upto snm).

Definition gen_node (f : script_format) (nodes : gmap Z string) (nodenum shardnum i j : Z) (fs : Files)
    : Files * option string :=
  match nodes !! j with
  | Some nodeIp => attachLineToFile (batFilePath f nodeIp) (node_command f nodenum shardnum i j) fs
  | None => (fs, Some "the node is not existed in the IP Table file")
  end.

Definition gen_shard (f : script_format) (ipMap : gmap Z (gmap Z string)) (nodenum shardnum i : Z) (fs : Files)
    : Files * option string :=
  match ipMap !! i with
  | Some nodes => until_error (gen_node f nodes nodenum shardnum i) (upto nodenum) fs
  | None => (fs, Some "the shard is not existed in the IP Table file")
  end.

Definition gen_supervisor (f : script_format) (ipMap : gmap Z (gmap Z string)) (nodenum shardnum : Z) (fs : Files)
    : Files * option string :=
  match t ← ipMap !! 2147483647; t !! 0 with
  | Some nodeIp => attachLineToFile (batFilePath f nodeIp) (supervisor_command f nodenum shardnum) fs
  | None => (fs, Some "the supervisor is not existed in the IP Table file")
  end.

Definition gen_scripts (f : script_format) (ipMap : gmap Z (gmap Z string)) (nodenum shardnum : Z) (fs : Files)
    : Files * option string :=
  match until_error (gen_shard f ipMap nodenum shardnum) (upto shardnum) fs with
  | (fs, None) => gen_supervisor f ipMap nodenum shardnum fs
  | r => r
  end.

Definition GenerateBatchByIpTable (os : string) := gen_scripts (format_go os).
Definition GenerateExeBatchByIpTable (os : string) := gen_scripts (format_exe os).

(** ** [main.go]

    [pflag] has parsed the command line. *)
Record flags := mkFlags {
  isGen : bool;
  isGenerateForExeFile : bool;
  shardNum : Z;
  nodeNum : Z;
  shardID : Z;
  nodeID : Z;
  isSupervisor : bool;
  useExClique : bool;
}.

Definition main (os : string) (ipMap : gmap Z (gmap Z string)) (fl : flags) (g : Globals) (fs : Files)
    : go (Globals * Files * role) :=
  let g := g <| gShardNum := shardNum fl |> <| gNodesInShard := nodeNum fl |> in
  if isGen fl then
    let r := (if isGenerateForExeFile fl then GenerateExeBatchByIpTable else GenerateBatchByIpTable)
               os ipMap (nodeNum fl) (shardNum fl) fs in
    Ok (g, r.1, RScripts r.2)
  else
    r ← (if isSupervisor fl then BuildSupervisor ipMap (u64 (nodeNum fl)) (u64 (shardNum fl)) g
         else if (shardNum fl <=? shardID fl) || (shardID fl <? 0) then Panic "Wrong ShardID"
         else if (nodeNum fl <=? nodeID fl) || (nodeID fl <? 0) then Panic "Wrong NodeID"
         else (if useExClique fl then BuildNewExCliqueNode else BuildNewPbftNode)
                ipMap (u64 (nodeID fl)) (u64 (nodeNum fl)) (u64 (shardID fl)) (u64 (shardNum fl)) g);
    Ok (r.1, fs, r.2).
End scripts.
