(* ===== verification/SetupFacts.v ===== *)
(** * Properties of configuration and start-up

    What the checks of [initConfig] guarantee and what they do not, which methods a process can
    run, and that the start scripts start every node of the table exactly once. *)
From Stdlib Require Import Ascii.
From stdpp Require Import pretty.
From S2P Require Import Prelude Utils Libs Core Storage Chain SupervisorProcess Setup.

(** ** Network parameters *)
Lemma network_tools_ok g : let g' := InitNetworkTools g in
  0 ≤ gDelay g' ∧ 0 ≤ gJitterRange g' ∧ 0 ≤ gBandwidth g' ∧
  gNodesInShard g' = gNodesInShard g ∧ gShardNum g' = gShardNum g ∧ gOverhead g' = gOverhead g ∧
  gIPmap_nodeTable g' = gIPmap_nodeTable g ∧ gSupervisorAddr g' = gSupervisorAddr g ∧
  gMaxBlockSize_global g' = gMaxBlockSize_global g.
Proof.
  cbv zeta. unfold InitNetworkTools. cbn [upd gDelay gJitterRange gBandwidth].
  destruct (gDelay g <? 0) eqn:E1, (gJitterRange g <? 0) eqn:E2, (gBandwidth g <? 0) eqn:E3; zbool;
    repeat split; cbn; lia.
Qed.

(** The simulated delay.  After [InitNetworkTools] the delay never panics and stays within half
    the jitter range of the configured one, so it can be negative when the range is large. *)
Theorem delay_bounds (rnd : Z → Z) (g : Globals) :
  (∀ n, 0 < n → 0 ≤ rnd n < n) →
  ∃ d, thisDelay rnd (InitNetworkTools g) = Ok d ∧
    let g' := InitNetworkTools g in
    gDelay g' - gJitterRange g' / 2 ≤ d ≤ gDelay g' + gJitterRange g' / 2.
Proof.
  intros Hr. destruct (network_tools_ok g) as (_ & Hj & _). cbv zeta. set (g' := InitNetworkTools g) in *.
  unfold thisDelay. destruct (gJitterRange g' =? 0) eqn:E0; zbool.
  - eexists. split; [done|]. rewrite E0. change (0 / 2) with 0. lia.
  - destruct (gJitterRange g' <? 0) eqn:E1; zbool; [lia|]. eexists. split; [done|].
    rewrite Z.quot_div_nonneg by lia. specialize (Hr (gJitterRange g')).
    pose proof (Z.div_mod (gJitterRange g') 2). pose proof (Z.mod_pos_bound (gJitterRange g') 2). lia.
Qed.

(** ** [initConfig] *)

(** What [initConfig] has checked when it returns: there are as many shards as asked for, each
    with as many nodes as asked for, counted but not looked at; the configuration has the numbers
    of the command line. *)
Theorem init_config_spec (ipMap : gmap Z (gmap Z string)) (nid nnm sid snm : Z) (g g' : Globals) (pcc : ChainConfig) :
  0 < nnm < 2 ^ 63 → 0 ≤ snm < 2 ^ 63 → initConfig ipMap nid nnm sid snm g = Ok (g', pcc) →
  (∀ i, 0 ≤ i < snm → ∃ nodes, ipMap !! i = Some nodes ∧ nnm ≤ Z.of_nat (size nodes)) ∧
  gIPmap_nodeTable g' = ipMap ∧ gNodesInShard g' = nnm ∧ gShardNum g' = snm ∧
  ShardID pcc = sid ∧ CfgNodeID pcc = nid ∧ Nodes_perShard pcc = nnm ∧ ShardNums pcc = snm ∧
  0 ≤ gDelay g' ∧ 0 ≤ gJitterRange g' ∧ 0 ≤ gBandwidth g'.
Proof.
  intros Hn Hs. unfold initConfig. rewrite !i64_small by lia. cbv zeta.
  destruct (_ <? snm) eqn:E1; [done|]. zbool. destruct (negb _) eqn:E2; [done|].
  apply negb_false_iff in E2. rewrite forallb_forall in E2. intros [= <- <-].
  match goal with |- context [InitNetworkTools ?g1] => pose proof (network_tools_ok g1) as Hnt end.
  cbv zeta in Hnt. destruct Hnt as (H1 & H2 & H3 & H4 & H5 & _ & H7 & _ & _).
  cbn [gNodesInShard gShardNum gIPmap_nodeTable upd] in H4, H5, H7. rewrite H4, H5, H7.
  split; [|repeat split; try done; cbn; apply u64_small; unfold two64; lia].
  intros i Hi. specialize (E2 (Z.to_nat i)).
  assert (In (Z.to_nat i) (seq 0 (Z.to_nat (Z.of_nat (size ipMap) - 1)))) as Hin by (apply in_seq; lia).
  apply E2 in Hin. unfold enough_nodes in Hin. rewrite i64_small, Z2Nat.id in Hin by lia.
  destruct (ipMap !! i) as [nodes|]; cbn in Hin; zbool; [by exists nodes|].
  rewrite map_size_empty in Hin. lia.
Qed.

(** ** The method of a process *)

Lemma init_config_method ipMap nid nnm sid snm g m :
  initConfig ipMap nid nnm sid snm (g <| gConsensusMethod := m |>) =
    (r ← initConfig ipMap nid nnm sid snm g; Ok (r.1 <| gConsensusMethod := m |>, r.2)).
Proof.
  unfold initConfig. cbv zeta. destruct (_ <? i64 snm); [done|]. destruct (negb _); [done|].
  done.
Qed.

Lemma init_config_overhead ipMap nid nnm sid snm g r :
  initConfig ipMap nid nnm sid snm g = Ok r → gOverhead r.1 = gOverhead g.
Proof.
  unfold initConfig. cbv zeta. destruct (_ <? i64 snm); [done|]. destruct (negb _); [done|]. intros [= <-].
  cbn [fst]. match goal with |- context [InitNetworkTools ?g1] => pose proof (network_tools_ok g1) as Hnt end.
  cbv zeta in Hnt. by destruct Hnt as (_ & _ & _ & _ & _ & -> & _).
Qed.

(** Equal but for the names of the measures. *)
Definition same_role (r r2 : role) : Prop :=
  match r, r2 with
  | RSupervisor a pcc method _, RSupervisor a2 pcc2 method2 _ => a2 = a ∧ pcc2 = pcc ∧ method2 = method
  | _, _ => r2 = r
  end.

(** The configured method is ignored.  Whatever [ConsensusMethod] is, a node that does not run
    the overhead experiment gets the relay modules and the supervisor the PLouvain committee; the
    setting only chooses the names of the measures. *)
Theorem method_ignored (openable : string → bool) (os : string) (ipMap : gmap Z (gmap Z string)) (fl : flags)
    (g g' : Globals) (fs fs' : Files) (r : role) :
  main openable os ipMap fl g fs = Ok (g', fs', r) → oEnabled (gOverhead g) = false →
  match r with
  | RPbftNode _ _ _ method => select_modules method = NRelay
  | RSupervisor _ _ method _ => select_committee method = MPLouvain
  | _ => True
  end ∧
  ∀ m, ∃ g2 r2, main openable os ipMap fl (g <| gConsensusMethod := m |>) fs = Ok (g2, fs', r2) ∧ same_role r r2.
Proof.
  unfold main. intros Hm Ho.
  destruct (isGen fl); [injection Hm as <- <- <-; split; [done|]; intros m; eexists _, _; done|].
  apply go_bind_inv in Hm as ([g1 r1] & Hm & [= <- <- <-]). cbn [fst snd].
  pose (g0 := g <| gShardNum := shardNum fl |> <| gNodesInShard := nodeNum fl |>). fold g0 in Hm.
  assert (∀ m, (g <| gConsensusMethod := m |>) <| gShardNum := shardNum fl |> <| gNodesInShard := nodeNum fl |> =
    g0 <| gConsensusMethod := m |>) as Hg0 by done.
  assert (oEnabled (gOverhead g0) = false) as Ho0 by exact Ho.
  destruct (isSupervisor fl).
  - unfold BuildSupervisor in *. apply go_bind_inv in Hm as ([h pcc] & Hc & [= <- <-]).
    pose proof (init_config_overhead _ _ _ _ _ _ _ Hc) as Hh. cbn [fst] in Hh. rewrite Hh, Ho0.
    split; [done|]. intros m. rewrite Hg0, init_config_method, Hc. cbn [mbind go_bind fst snd].
    change (gOverhead (h <| gConsensusMethod := m |>)) with (gOverhead h). rewrite Hh, Ho0. eexists _, _. done.
  - destruct (_ || _); [done|]. destruct (_ || _); [done|].
    destruct (useExClique fl); [unfold BuildNewExCliqueNode in *|unfold BuildNewPbftNode in *; rewrite Ho0 in Hm];
      apply go_bind_inv in Hm as ([h pcc] & Hc & [= <- <-]).
    + split; [done|]. intros m. rewrite Hg0, init_config_method, Hc. eexists _, _. done.
    + split; [done|]. intros m. rewrite Hg0, init_config_method, Hc.
      change (gOverhead (g0 <| gConsensusMethod := m |>)) with (gOverhead g0). rewrite Ho0. eexists _, _. done.
Qed.

(** ** The start scripts *)
Section scripts.
Context (openable : string → bool) (f : script_format) (ipMap : gmap Z (gmap Z string)) (nodenum shardnum : Z).

(** The commands of all nodes, shard by shard, and of the supervisor, each with its file. *)
Definition ip_at (i j : Z) : string := default "" (t ← ipMap !! i; t !! j).
Definition all_nodes : list (Z * Z) := nodes_of nodenum shardnum.
Definition commands : list (string * string) :=
  ((λ ij : Z * Z, (batFilePath f (ip_at ij.1 ij.2), node_command f nodenum shardnum ij.1 ij.2)) <$> all_nodes)
  ++ [(batFilePath f (ip_at 2147483647 0), supervisor_command f nodenum shardnum)].

(** The lines for one file. *)
Definition lines_for (path : string) (cs : list (string * string)) : string :=
  foldr (λ c s, c.2 +:+ nl +:+ s) "" (List.filter (λ c, bool_decide (c.1 = path)) cs).

(** The table has every node and the supervisor. *)
Definition complete : Prop :=
  (∀ i j, 0 ≤ i < shardnum → 0 ≤ j < nodenum → is_Some (t ← ipMap !! i; t !! j)) ∧
  (∀ i, 0 ≤ i < shardnum → is_Some (ipMap !! i)) ∧ is_Some (t ← ipMap !! 2147483647; t !! 0).

Definition attach (c : string * string) : Files → Files * option string := attachLineToFile openable c.1 c.2.

Lemma until_error_app {A} (h : A → Files → Files * option string) l1 l2 fs :
  until_error h (l1 ++ l2) fs =
    match until_error h l1 fs with (fs, None) => until_error h l2 fs | r => r end.
Proof.
  revert fs. induction l1 as [|x l1 IH]; intros fs; [done|]. cbn.
  destruct (h x fs) as [fs1 [e|]]; [done|apply IH].
Qed.

Lemma until_error_map {A B} (h : B → Files → Files * option string) (k : A → B) l fs :
  until_error h (k <$> l) fs = until_error (λ x, h (k x)) l fs.
Proof. revert fs. induction l as [|x l IH]; intros fs; [done|]. cbn. by destruct (h (k x) fs) as [fs1 [e|]]. Qed.

Lemma until_error_ext {A} (h k : A → Files → Files * option string) l fs :
  (∀ x fs, x ∈ l → h x fs = k x fs) → until_error h l fs = until_error k l fs.
Proof.
  revert fs. induction l as [|x l IH]; intros fs Hx; [done|]. cbn. rewrite Hx by apply list_elem_of_here.
  destruct (k x fs) as [fs1 [e|]]; [done|]. apply IH. intros y fs2 Hy. apply Hx. by apply list_elem_of_further.
Qed.

Lemma elem_of_upto n i : i ∈ upto n ↔ 0 ≤ i < n.
Proof.
  unfold upto. rewrite list_elem_of_fmap. split.
  - intros (k & -> & Hk%elem_of_seq). lia.
  - intros Hi. exists (Z.to_nat i). rewrite elem_of_seq. lia.
Qed.

(** On a complete table the generator writes the commands one after the other. *)
Lemma gen_scripts_commands fs : complete →
  gen_scripts openable f ipMap nodenum shardnum fs = until_error attach commands fs.
Proof.
  intros (Hn & Hs & Hsup). unfold gen_scripts, commands. rewrite until_error_app, until_error_map.
  assert (∀ fs, until_error (gen_shard openable f ipMap nodenum shardnum) (upto shardnum) fs =
    until_error (λ ij : Z * Z, attach (batFilePath f (ip_at ij.1 ij.2), node_command f nodenum shardnum ij.1 ij.2))
      all_nodes fs) as ->.
  { unfold all_nodes, nodes_of. assert (∀ i, i ∈ upto shardnum → 0 ≤ i < shardnum) as Hin by (intros i; by rewrite elem_of_upto).
    revert Hin. generalize (upto shardnum). intros l Hin. induction l as [|i l IH]; intros fs1; [done|].
    cbn [until_error flat_map]. rewrite until_error_app, until_error_map.
    assert (gen_shard openable f ipMap nodenum shardnum i fs1 =
      until_error (λ j, attach (batFilePath f (ip_at i j), node_command f nodenum shardnum i j)) (upto nodenum) fs1) as ->.
    { unfold gen_shard. destruct (Hs i (Hin i (list_elem_of_here _ _))) as [nodes Hno]. rewrite Hno.
      apply until_error_ext. intros j fs2 Hj%elem_of_upto. unfold gen_node, attach, ip_at. cbn [fst snd].
      destruct (Hn i j (Hin i (list_elem_of_here _ _)) Hj) as [ip Hip]. rewrite Hno in Hip |- *. cbn in Hip |- *. by rewrite Hip. }
    cbn [fst snd]. destruct (until_error _ (upto nodenum) fs1) as [fs2 [e|]]; [done|].
    apply IH. intros k Hk. apply Hin. by apply list_elem_of_further. }
  destruct (until_error _ all_nodes fs) as [fs1 [e|]]; [done|]. cbn [until_error].
  unfold gen_supervisor, attach, ip_at. cbn [fst snd]. destruct Hsup as [ip ->]. cbn [default from_option id].
  by destruct (attachLineToFile _ _ _ fs1) as [fs2 [e|]].
Qed.

(** Writing commands to files that can be opened. *)
Lemma attach_all cs : Forall (λ c : string * string, openable c.1 = true) cs → ∀ fs,
  ∃ fs', until_error attach cs fs = (fs', None) ∧
    fileUpToDataSet fs' = fileUpToDataSet fs ∪ list_to_set cs.*1 ∧
    ∀ path, contents fs' !! path =
      if decide (path ∈ cs.*1)
      then Some ((if decide (path ∈ fileUpToDataSet fs) then default "" (contents fs !! path) else "") +:+ lines_for path cs)
      else contents fs !! path.
Proof.
  induction 1 as [|[q line] cs Hq _ IH]; intros fs.
  - exists fs. split; [done|]. split; [cbn; set_solver|]. intros path. rewrite decide_False; [done|]. apply not_elem_of_nil.
  - cbn [until_error]. unfold attach at 1, attachLineToFile. cbn [fst snd] in *. rewrite Hq. cbn [negb].
    set (fs0 := if bool_decide (q ∈ fileUpToDataSet fs) then fs else _).
    assert (q ∈ fileUpToDataSet fs0 ∧ fileUpToDataSet fs0 = {[q]} ∪ fileUpToDataSet fs ∧
      (∀ path, path ≠ q → contents fs0 !! path = contents fs !! path) ∧
      default "" (contents fs0 !! q) = if decide (q ∈ fileUpToDataSet fs) then default "" (contents fs !! q) else "")
      as (H1 & H2 & H3 & H4).
    { unfold fs0. destruct (decide (q ∈ fileUpToDataSet fs)).
      - rewrite bool_decide_eq_true_2 by done. split; [done|]. split; [set_solver|]. done.
      - rewrite bool_decide_eq_false_2 by done. cbn. split; [set_solver|]. split; [done|]. split.
        + intros path Hne. by rewrite lookup_delete_ne.
        + by rewrite lookup_delete_eq. }
    destruct (IH (mkFiles (<[q:=default "" (contents fs0 !! q) +:+ line +:+ nl]> (contents fs0)) (fileUpToDataSet fs0)))
      as (fs' & E & Hu & Hc). exists fs'. split; [exact E|]. cbn [contents fileUpToDataSet] in Hu, Hc.
    split; [rewrite Hu, H2; cbn; set_solver|]. intros path. rewrite Hc. cbn [fmap list_fmap fst].
    unfold lines_for. cbn [List.filter fst snd].
    destruct (decide (path = q)) as [->|Hne].
    + rewrite bool_decide_eq_true_2, lookup_insert_eq by done. rewrite (decide_True (P := q ∈ q :: _)) by apply list_elem_of_here.
      rewrite (decide_True (P := q ∈ fileUpToDataSet fs0)) by done. cbn [default from_option id foldr snd]. rewrite H4.
      assert (∀ a b c d : string, (a +:+ b +:+ c) +:+ d = a +:+ b +:+ c +:+ d) as Hass.
      { intros. apply chars_inj. rewrite !chars_app. by rewrite <-!app_assoc. }
      destruct (decide (q ∈ cs.*1)) as [Hin|Hin]; [f_equal; apply Hass|]. f_equal.
      assert (List.filter (λ c : string * string, bool_decide (c.1 = q)) cs = []) as ->.
      { clear -Hin. induction cs as [|c cs IH]; [done|]. cbn in *. apply not_elem_of_cons in Hin as [Hne Hin].
        rewrite bool_decide_eq_false_2 by done. by apply IH. }
      apply chars_inj. rewrite !chars_app. cbn [foldr chars]. by rewrite app_nil_r.
    + rewrite bool_decide_eq_false_2 by done. rewrite lookup_insert_ne by done. rewrite H3 by done.
      assert (path ∈ q :: cs.*1 ↔ path ∈ cs.*1) as Hiff by (rewrite elem_of_cons; naive_solver).
      assert (path ∈ fileUpToDataSet fs0 ↔ path ∈ fileUpToDataSet fs) as Hiff2 by (rewrite H2; set_solver).
      destruct (decide (path ∈ cs.*1)), (decide (path ∈ q :: cs.*1)); try tauto.
      destruct (decide (path ∈ fileUpToDataSet fs0)), (decide (path ∈ fileUpToDataSet fs)); tauto.
Qed.

Lemma elem_of_all_nodes i j : (i, j) ∈ all_nodes ↔ 0 ≤ i < shardnum ∧ 0 ≤ j < nodenum.
Proof.
  unfold all_nodes, nodes_of. rewrite list_elem_of_In, in_flat_map. setoid_rewrite <-list_elem_of_In.
  split.
  - intros (x & Hx%elem_of_upto & (y & [= -> ->] & Hy%elem_of_upto)%list_elem_of_fmap). done.
  - intros [Hi Hj]. exists i. split; [by apply elem_of_upto|]. apply list_elem_of_fmap. exists j. split; [done|].
    by apply elem_of_upto.
Qed.

Lemma upto_nodup n : NoDup (upto n).
Proof. unfold upto. apply NoDup_fmap_2; [intros x y; lia|apply NoDup_seq]. Qed.

Lemma all_nodes_nodup : NoDup all_nodes.
Proof.
  unfold all_nodes, nodes_of. generalize (upto_nodup shardnum). generalize (upto shardnum). intros l Hl.
  induction Hl as [|i l Hi Hl IH]; [apply NoDup_nil_2|]. cbn [flat_map]. apply NoDup_app. split; [|split; [|exact IH]].
  - apply NoDup_fmap_2; [congruence|apply upto_nodup].
  - intros x (j & -> & _)%list_elem_of_fmap Hx. apply Hi.
    rewrite list_elem_of_In, in_flat_map in Hx. destruct Hx as (k & Hk & Hx).
    apply list_elem_of_In in Hx, Hk. apply list_elem_of_fmap in Hx as (? & [= -> ->] & _). done.
Qed.

(** The start scripts. For an address table that has every node and the supervisor, and files that
    can be opened, the generator reports no error, whatever the files held before; every file that
    it writes holds exactly the commands of the machine it is for, in the order of the shards and
    nodes, and no other file is touched.  Every node of every shard is started exactly once. *)
Theorem scripts_spec (fs : Files) :
  complete → (∀ path, openable path = true) → fileUpToDataSet fs = ∅ →
  (∃ fs', gen_scripts openable f ipMap nodenum shardnum fs = (fs', None) ∧
    ∀ path, contents fs' !! path =
      if decide (path ∈ commands.*1) then Some (lines_for path commands) else contents fs !! path) ∧
  NoDup all_nodes ∧ ∀ i j, (i, j) ∈ all_nodes ↔ 0 ≤ i < shardnum ∧ 0 ≤ j < nodenum.
Proof.
  intros Hc Ho Hf. split; [|split; [apply all_nodes_nodup|apply elem_of_all_nodes]].
  destruct (attach_all commands) with (fs := fs) as (fs' & E & _ & Hp).
  { apply list.Forall_forall. intros c _. apply Ho. }
  exists fs'. rewrite gen_scripts_commands by done. split; [exact E|]. intros path. rewrite Hp.
  destruct (decide (path ∈ commands.*1)); [|done]. f_equal. rewrite decide_False by set_solver. done.
Qed.
End scripts.

(** A table of two shards of one node, all on one machine, and one with a hole. *)
Definition table2 : gmap Z (gmap Z string) :=
  {[0 := {[0 := "10.0.0.1:1"]}; 1 := {[0 := "10.0.0.1:2"]}; 2147483647 := {[0 := "10.0.0.2:1"]}]}.
Definition table_hole : gmap Z (gmap Z string) := {[0 := {[7 := "10.0.0.1:1"]}; 2147483647 := {[0 := "10.0.0.2:1"]}]}.

Lemma table2_complete : complete table2 1 2.
Proof.
  split; [|split].
  - intros i j Hi Hj. assert (j = 0) as -> by lia. assert (i = 0 ∨ i = 1) as [-> | ->] by lia; eexists; vm_compute; reflexivity.
  - intros i Hi. assert (i = 0 ∨ i = 1) as [-> | ->] by lia; eexists; vm_compute; reflexivity.
  - eexists; vm_compute; reflexivity.
Qed.

Lemma scripts_spec_witness :
  ∃ fs', gen_scripts (λ _, true) (format_go "linux") table2 1 2 (mkFiles {["complie_run_IpAddr=10_0_0_1.sh" := "old"]} ∅) = (fs', None) ∧
    contents fs' !! "complie_run_IpAddr=10_0_0_1.sh" =
      Some ("go run main.go -n 0 -N 1 -s 0 -S 2 & " +:+ nl +:+ nl +:+ "go run main.go -n 0 -N 1 -s 1 -S 2 & " +:+ nl +:+ nl).
Proof.
  destruct (scripts_spec (λ _, true) (format_go "linux") table2 1 2 (mkFiles {["complie_run_IpAddr=10_0_0_1.sh" := "old"]} ∅)
    table2_complete (λ _, eq_refl) eq_refl) as ((fs' & E & Hp) & _). exists fs'. split; [exact E|]. rewrite Hp.
  vm_compute. reflexivity.
Defined.

(** The check of [initConfig] counts the nodes of a shard but does not look for them: with
    [table_hole] node 0 of shard 0 starts although it has no address. *)
Example init_config_hole :
  ∃ g' pcc, initConfig table_hole 0 1 0 1 default_globals = Ok (g', pcc) ∧
    (t ← gIPmap_nodeTable g' !! 0; t !! 0) = None.
Proof. vm_compute. eexists _, _. split; reflexivity. Qed.

Lemma init_config_spec_witness :
  ∃ g' pcc, initConfig table2 0 1 1 2 default_globals = Ok (g', pcc) ∧ ShardID pcc = 1 ∧ gShardNum g' = 2.
Proof.
  destruct (initConfig table2 0 1 1 2 default_globals) as [[g' pcc]|] eqn:E; [|vm_compute in E; discriminate E].
  destruct (init_config_spec table2 0 1 1 2 default_globals g' pcc ltac:(lia) ltac:(lia) E) as (_ & _ & _ & H1 & H2 & _).
  exists g', pcc. split; [reflexivity|]. split; assumption.
Defined.

Lemma method_ignored_witness :
  ∃ g' r, main (λ _, true) "linux" table2 (mkFlags false false 2 1 0 0 false false) default_globals (mkFiles ∅ ∅)
    = Ok (g', mkFiles ∅ ∅, r) ∧ match r with RPbftNode _ _ _ m => select_modules m = NRelay | _ => False end.
Proof.
  destruct (main (λ _, true) "linux" table2 (mkFlags false false 2 1 0 0 false false) default_globals (mkFiles ∅ ∅))
    as [[[g' fs'] r]|] eqn:E; [|vm_compute in E; discriminate E].
  destruct (method_ignored (λ _, true) "linux" table2 (mkFlags false false 2 1 0 0 false false) default_globals g' (mkFiles ∅ ∅) fs' r
    E eq_refl) as [Hm _].
  vm_compute in E. injection E as <- <- <-. eexists _, _. split; [reflexivity|exact Hm].
Defined.
