(* ===== verification/Csv.v ===== *)
(** * CSV files

    The rows the program writes and reads go through Go's [encoding/csv], with its default
    settings (comma, no comment character, strict quotes).  Modelled here: [Writer.Write] and the
    reader, on characters; a disk as a map from paths to contents; and the two routines of the
    program that append to a file and write its header when the file is new,
    [WriteMetricsToCSV] ([supervisor/measure/measureTool.go]) and [writeCSVline]
    ([consensus_shard/pbft_all/toolFuncs.go]).  What is written is read back ([csv_roundtrip]). *)
From Stdlib Require Import Ascii.
From S2P Require Import Prelude Utils.

(** ** Characters *)
Definition cComma : ascii := ",".
Definition cQuote : ascii := "034".
Definition cLF : ascii := "010".
Definition cCR : ascii := "013".

(** ** [csv.Writer] *)

(** A byte that forces quotes wherever it is. *)
Definition special (c : ascii) : bool :=
  Ascii.eqb c cLF || Ascii.eqb c cCR || Ascii.eqb c cQuote || Ascii.eqb c cComma.

(** [unicode.IsSpace] of the first rune, by the bytes of its UTF-8 encoding. *)
Definition leading_space (l : list ascii) : bool :=
  match byte_of <$> l with
  | 194 :: b :: _ => (b =? 133) || (b =? 160)
  | 225 :: 154 :: 128 :: _ => true
  | 226 :: 128 :: b :: _ => ((128 <=? b) && (b <=? 138)) || (b =? 168) || (b =? 169) || (b =? 175)
  | 226 :: 129 :: 159 :: _ => true
  | 227 :: 128 :: 128 :: _ => true
  | b :: _ => ((9 <=? b) && (b <=? 13)) || (b =? 32)
  | [] => false
  end.

Definition fieldNeedsQuotes (field : list ascii) : bool :=
  match field with
  | [] => false
  | _ => bool_decide (field = ["092"%char; "."%char]) || existsb special field || leading_space field
  end.

(** In quotes, a quote is written twice. *)
Definition escape (field : list ascii) : list ascii :=
  concat ((λ c, if Ascii.eqb c cQuote then [cQuote; cQuote] else [c]) <$> field).

Definition write_field (field : string) : list ascii :=
  let f := chars field in
  if fieldNeedsQuotes f then cQuote :: escape f ++ [cQuote] else f.

Fixpoint write_fields (record : list string) : list ascii :=
  match record with
  | [] => []
  | [field] => write_field field
  | field :: record => write_field field ++ cComma :: write_fields record
  end.

Definition csv_write (record : list string) : list ascii := write_fields record ++ [cLF].
Definition csv_text (records : list (list string)) : list ascii := concat (csv_write <$> records).

(** ** [csv.Reader] *)
Inductive csv_error := ErrBareQuote | ErrQuote | ErrFieldCount.

(** Lines end in CR LF or LF, and a CR before the end of the file is dropped. *)
Fixpoint normal_lines (t : list ascii) : list ascii :=
  match t with
  | [] => []
  | c :: t' => if Ascii.eqb c cCR then
                 match t' with
                 | [] => []
                 | d :: _ => if Ascii.eqb d cLF then normal_lines t' else c :: normal_lines t'
                 end
               else c :: normal_lines t'
  end.

(** Where the reader is: before a record, before a field, in a field without and with quotes, and
    after a quote inside quotes. *)
Inductive csv_state := AtRecord | AtField | Bare | Quoted | QuoteSeen.

(** The records up to the first error.  [n] is [FieldsPerRecord], unknown before the first record;
    [buf] and [done_] are the field and the fields read so far. *)
Definition end_record (n : option nat) (fields : list string) (k : option nat → list (list string) * option csv_error)
    : list (list string) * option csv_error :=
  match n with
  | Some m => if bool_decide (length fields = m) then let '(rs, e) := k n in (fields :: rs, e)
              else ([], Some ErrFieldCount)
  | None => let '(rs, e) := k (Some (length fields)) in (fields :: rs, e)
  end.

Fixpoint read_records (n : option nat) (st : csv_state) (done_ : list string) (buf : list ascii) (t : list ascii)
    : list (list string) * option csv_error :=
  match t with
  | [] =>
      match st with
      | AtRecord => ([], None)
      | Quoted => ([], Some ErrQuote)
      | _ => end_record n (done_ ++ [unchars buf]) (λ _, ([], None))
      end
  | c :: t =>
      match st with
      | Quoted => if Ascii.eqb c cQuote then read_records n QuoteSeen done_ buf t
                  else read_records n Quoted done_ (buf ++ [c]) t
      | QuoteSeen =>
          if Ascii.eqb c cQuote then read_records n Quoted done_ (buf ++ [c]) t
          else if Ascii.eqb c cComma then read_records n AtField (done_ ++ [unchars buf]) [] t
          else if Ascii.eqb c cLF then end_record n (done_ ++ [unchars buf]) (λ n, read_records n AtRecord [] [] t)
          else ([], Some ErrQuote)
      | _ =>
          if Ascii.eqb c cQuote then
            match st with Bare => ([], Some ErrBareQuote) | _ => read_records n Quoted done_ [] t end
          else if Ascii.eqb c cComma then read_records n AtField (done_ ++ [unchars buf]) [] t
          else if Ascii.eqb c cLF then
            match st with
            | AtRecord => read_records n AtRecord [] [] t
            | _ => end_record n (done_ ++ [unchars buf]) (λ n, read_records n AtRecord [] [] t)
            end
          else read_records n Bare done_ (buf ++ [c]) t
      end
  end.

Definition csv_read (t : list ascii) : list (list string) * option csv_error :=
  read_records None AtRecord [] [] (normal_lines t).

(** ** Files that start with a header *)
Abbreviation Disk := (gmap string string) (only parsing).

Definition file_text (path : string) (d : Disk) : list ascii := chars (default "" (d !! path)).

(** [os.OpenFile(_, O_APPEND|O_CREATE|O_RDWR, _)] and one [Write] and [Flush]. *)
Definition append_text (path : string) (t : list ascii) (d : Disk) : Disk :=
  <[path := unchars (file_text path d ++ t)]> d.
Definition create_file (path : string) (d : Disk) : Disk := append_text path [] d.

(** The header is written when the file is empty, then the rows. *)
Definition append_rows (path : string) (colName : list string) (colVals : list (list string)) (d : Disk) : Disk :=
  let d := create_file path d in
  let d := match file_text path d with [] => append_text path (csv_write colName) d | _ => d end in
  foldl (λ d metricVal, append_text path (csv_write metricVal) d) d colVals.

Definition metrics_path (DataWrite_path fileName : string) : string :=
  DataWrite_path +:+ "supervisor_measureOutput/" +:+ fileName +:+ ".csv".

Definition WriteMetricsToCSV (DataWrite_path fileName : string) (colName : list string) (colVals : list (list string))
    (d : Disk) : Disk :=
  append_rows (metrics_path DataWrite_path fileName) colName colVals d.

(** The file of a shard; its name ends with the shard and the number of shards. *)
Definition shard_path (DataWrite_path : string) (ShardNums ShardID : Z) : string :=
  DataWrite_path +:+ "pbft_shardNum=" +:+ pretty ShardNums +:+ "/Shard" +:+ pretty ShardID +:+ pretty ShardNums +:+ ".csv".

Definition writeCSVline (DataWrite_path : string) (ShardNums ShardID : Z) (metricName metricVal : list string)
    (d : Disk) : Disk :=
  append_rows (shard_path DataWrite_path ShardNums ShardID) metricName [metricVal] d.

(** ** What is written is read back *)

(** Fields without CR. *)
Definition no_cr (field : string) : Prop := cCR ∉ chars field.
(** A record that is not written as an empty line, with [k] fields. *)
Definition writable (k : nat) (record : list string) : Prop :=
  length record = k ∧ record ≠ [] ∧ record ≠ [""] ∧ Forall no_cr record.

Lemma normal_lines_id t : cCR ∉ t → normal_lines t = t.
Proof.
  induction t as [|c t IH]; [done|]. rewrite not_elem_of_cons. intros [Hc Ht]. cbn [normal_lines].
  destruct (Ascii.eqb_spec c cCR); [congruence|]. by rewrite IH.
Qed.

Lemma no_cr_escape f : cCR ∉ f → cCR ∉ escape f.
Proof.
  induction f as [|c f IH]; [done|]. rewrite not_elem_of_cons. intros [Hc Hf]. unfold escape. cbn [fmap list_fmap concat].
  rewrite elem_of_app. intros [Hi|Hi]; [|by apply IH].
  destruct (Ascii.eqb_spec c cQuote) as [->|]; apply list_elem_of_In in Hi; cbn in Hi; naive_solver.
Qed.

Lemma no_cr_field f : no_cr f → cCR ∉ write_field f.
Proof.
  unfold no_cr, write_field. intros Hf. destruct (fieldNeedsQuotes _); [|done].
  rewrite elem_of_cons, elem_of_app, list_elem_of_singleton. intros [Hq|[Hq|Hq]]; [done| |done]. by apply no_cr_escape in Hq.
Qed.

Lemma no_cr_fields r : Forall no_cr r → cCR ∉ write_fields r.
Proof.
  induction 1 as [|f r Hf Hr IH]; [by intros ?%elem_of_nil|]. cbn [write_fields].
  destruct r as [|g r]; [by apply no_cr_field|]. rewrite elem_of_app, elem_of_cons.
  intros [Hq|[Hq|Hq]]; [by apply no_cr_field in Hq|done|done].
Qed.

Lemma no_cr_text k rs : Forall (writable k) rs → cCR ∉ csv_text rs.
Proof.
  induction 1 as [|r rs (_ & _ & _ & Hr) Hrs IH]; [by intros ?%elem_of_nil|]. unfold csv_text in *. cbn [fmap list_fmap concat].
  unfold csv_write at 1. rewrite !elem_of_app, list_elem_of_singleton.
  intros [[Hq|Hq]|Hq]; [by apply no_cr_fields in Hq|done|done].
Qed.

(** *** Reading one field *)
Section read_field.
Context (n : option nat) (done_ : list string).

Lemma read_quoted f : ∀ buf t, read_records n Quoted done_ buf (escape f ++ cQuote :: t) = read_records n QuoteSeen done_ (buf ++ f) t.
Proof.
  induction f as [|c f IH]; intros buf t; [by rewrite app_nil_r|].
  unfold escape in *. cbn [fmap list_fmap concat]. replace (buf ++ c :: f) with ((buf ++ [c]) ++ f) by (by rewrite <-(assoc_L (++))).
  destruct (Ascii.eqb_spec c cQuote) as [->|Hc]; cbn [app read_records]; [by rewrite IH|].
  destruct (Ascii.eqb_spec c cQuote); [done|]. by rewrite IH.
Qed.

Definition plain (f : list ascii) : Prop := existsb special f = false.

Lemma plain_cons c f : plain (c :: f) → c ≠ cQuote ∧ c ≠ cComma ∧ c ≠ cLF ∧ plain f.
Proof.
  unfold plain. cbn [existsb]. rewrite orb_false_iff. unfold special. rewrite !orb_false_iff, !Ascii.eqb_neq. tauto.
Qed.

Lemma read_bare f : plain f → ∀ buf t, read_records n Bare done_ buf (f ++ t) = read_records n Bare done_ (buf ++ f) t.
Proof.
  induction f as [|c f IH]; intros Hf buf t; [by rewrite app_nil_r|].
  apply plain_cons in Hf as (Hq & Hc & Hl & Hf). cbn [app read_records].
  rewrite !(proj2 (Ascii.eqb_neq _ _)) by done. rewrite IH by done. by rewrite <-(assoc_L (++)).
Qed.

(** What follows a field: a comma, or the end of the line. *)
Definition ends (st : csv_state) (t : list ascii) : Prop :=
  ∃ c t', t = c :: t' ∧ (c = cComma ∨ c = cLF ∧ st ≠ AtRecord).

Lemma ends_any st st' buf t : ends AtField t → st' = Bare ∨ st' = QuoteSeen ∨ st' = AtField → st = Bare ∨ st = QuoteSeen ∨ st = AtField →
  read_records n st done_ buf t = read_records n st' done_ buf t.
Proof.
  intros (c & t' & -> & [->|[-> _]]) [->|[->| ->]] [->|[->| ->]]; done.
Qed.

Lemma field_at_start st c f t : st = AtField ∨ st = AtRecord → plain (c :: f) →
  read_records n st done_ [] ((c :: f) ++ t) = read_records n Bare done_ (c :: f) t.
Proof.
  intros Hst Hf. pose proof (plain_cons _ _ Hf) as (Hq & Hc & Hl & Hf'). cbn [app read_records].
  destruct Hst as [->| ->]; rewrite !(proj2 (Ascii.eqb_neq _ _)) by done; by rewrite read_bare.
Qed.

(** Reading a written field: at the start of a record it is not an empty field before the end
    of the line. *)
Lemma read_field st f t : st = AtField ∨ st = AtRecord → ends AtField t →
  (st = AtRecord → f ≠ "" ∨ ends AtRecord t) →
  read_records n st done_ [] (write_field f ++ t) = read_records n AtField done_ (chars f) t.
Proof.
  intros Hst Ht He. unfold write_field. destruct (fieldNeedsQuotes (chars f)) eqn:Eq.
  - rewrite <-app_comm_cons. transitivity (read_records n Quoted done_ [] ((escape (chars f) ++ [cQuote]) ++ t)).
    { destruct Hst as [->| ->]; done. }
    rewrite <-(assoc_L (++)). cbn [app]. rewrite read_quoted. apply ends_any; auto.
  - destruct (chars f) as [|c l] eqn:Ef.
    + assert (f = "") as -> by (by apply chars_inj). destruct Hst as [->| ->]; [done|].
      destruct (He eq_refl) as [|(c & t' & -> & [->|[_ ?]])]; done.
    + assert (plain (c :: l)) as Hp.
      { unfold fieldNeedsQuotes in Eq. rewrite !orb_false_iff in Eq. unfold plain. tauto. }
      rewrite field_at_start by done. apply ends_any; auto.
Qed.
End read_field.

(** *** Reading a record *)
Lemma read_fields n r : r ≠ [] → Forall no_cr r → ∀ st done_ t,
  st = AtField ∨ st = AtRecord → (st = AtRecord → r ≠ [""]) →
  read_records n st done_ [] (write_fields r ++ cLF :: t)
  = end_record n (done_ ++ r) (λ n, read_records n AtRecord [] [] t).
Proof.
  intros Hr HF. induction HF as [|f r Hf HF IH]; [done|]. intros st done_ t Hst Hne. cbn [write_fields].
  destruct r as [|g r].
  - rewrite read_field; [cbn [read_records]; cbn; by rewrite unchars_chars|done| |].
    + exists cLF, t. split; [done|]. by right.
    + intros ->. left. intros ->. by apply Hne.
  - rewrite <-(assoc_L (++)), <-app_comm_cons. rewrite read_field; [|done| |].
    + change (read_records n AtField done_ (chars f) (cComma :: (write_fields (g :: r) ++ cLF :: t)))
        with (read_records n AtField (done_ ++ [unchars (chars f)]) [] (write_fields (g :: r) ++ cLF :: t)).
      rewrite unchars_chars, IH by auto. by rewrite <-(assoc_L (++)).
    + eexists _, _. split; [done|]. by left.
    + intros ->. right. eexists _, _. split; [done|]. by left.
Qed.

Lemma read_text k rs : Forall (writable k) rs → ∀ n, n = None ∨ n = Some k →
  read_records n AtRecord [] [] (csv_text rs) = (rs, None).
Proof.
  induction 1 as [|r rs (Hk & Hr & Hr' & Hc) Hrs IH]; intros n Hn; [done|].
  unfold csv_text in *. cbn [fmap list_fmap concat]. unfold csv_write at 1. rewrite <-(assoc_L (++)). cbn [app].
  rewrite read_fields by auto. unfold end_record. rewrite app_nil_l. destruct Hn as [->| ->].
  - rewrite Hk, IH by auto. done.
  - rewrite bool_decide_eq_true_2, IH by auto. done.
Qed.

Theorem csv_roundtrip k rs : Forall (writable k) rs → csv_read (csv_text rs) = (rs, None).
Proof. intros H. unfold csv_read. rewrite normal_lines_id by (by eapply no_cr_text). eapply read_text; eauto. Qed.

(** ** Files that start with a header *)

(** A path as a string of its own: other paths are untouched. *)
Lemma append_text_same path t d : file_text path (append_text path t d) = file_text path d ++ t.
Proof. unfold append_text. unfold file_text at 1. rewrite lookup_insert_eq. cbn [default]. apply chars_unchars. Qed.

Lemma append_text_other path path' t d : path' ≠ path → append_text path t d !! path' = d !! path'.
Proof. intros Hp. unfold append_text. by rewrite lookup_insert_ne. Qed.

Lemma csv_write_nonempty r : csv_write r ≠ [].
Proof. unfold csv_write. by destruct (write_fields r). Qed.

Lemma append_rows_same path h rows d :
  file_text path (append_rows path h rows d)
  = match file_text path d with [] => csv_write h | t => t end ++ csv_text rows.
Proof.
  unfold append_rows. set (d1 := create_file path d).
  assert (file_text path d1 = file_text path d) as E1 by (unfold d1, create_file; by rewrite append_text_same, app_nil_r).
  rewrite E1. set (d2 := match file_text path d with [] => _ | _ => _ end).
  assert (file_text path d2 = match file_text path d with [] => csv_write h | t => t end) as <-.
  { unfold d2. destruct (file_text path d) eqn:E; [|done]. by rewrite append_text_same, E1. }
  clearbody d2. clear. revert d2. induction rows as [|r rows IH]; intros d2; [by rewrite app_nil_r|].
  cbn [foldl]. rewrite IH, append_text_same, <-(assoc_L (++)). done.
Qed.

Lemma append_rows_other path path' h rows d : path' ≠ path → append_rows path h rows d !! path' = d !! path'.
Proof.
  intros Hp. unfold append_rows, create_file. set (d1 := append_text path [] d).
  set (d2 := match file_text path d1 with [] => _ | _ => _ end).
  assert (d2 !! path' = d !! path') as <-.
  { unfold d2. destruct (file_text path d1); rewrite ?append_text_other by done; unfold d1; by rewrite append_text_other. }
  clearbody d2. clear -Hp. revert d2. induction rows as [|r rows IH]; intros d2; [done|]. cbn [foldl].
  by rewrite IH, append_text_other.
Qed.

(** The file of [path] holds a header and rows; a file that is missing or empty holds neither. *)
Definition holds (path : string) (h : list string) (rows : list (list string)) (d : gmap string string) : Prop :=
  file_text path d = csv_text (h :: rows).
Definition fresh_or_holds (path : string) (h : list string) (rows : list (list string)) (d : gmap string string) : Prop :=
  (file_text path d = [] ∧ rows = []) ∨ holds path h rows d.

Lemma csv_text_app rs rs' : csv_text (rs ++ rs') = csv_text rs ++ csv_text rs'.
Proof. unfold csv_text. by rewrite fmap_app, concat_app. Qed.

Lemma append_rows_holds path h old rows d : fresh_or_holds path h old d →
  holds path h (old ++ rows) (append_rows path h rows d).
Proof.
  unfold holds. intros [[E ->]|E]; rewrite append_rows_same, E.
  - unfold csv_text. cbn [app fmap list_fmap concat]. done.
  - destruct (csv_text (h :: old)) eqn:Et.
    + unfold csv_text in Et. cbn [fmap list_fmap concat] in Et. apply app_nil in Et as [Et _]. by apply csv_write_nonempty in Et.
    + rewrite <-Et, <-csv_text_app. done.
Qed.

Lemma holds_reads path h rows d : holds path h rows d → Forall (writable (length h)) (h :: rows) →
  csv_read (file_text path d) = (h :: rows, None).
Proof. unfold holds. intros -> H. by eapply csv_roundtrip. Qed.

Lemma append_rows_keeps path path' h h' old rows d : path' ≠ path → fresh_or_holds path' h' old d →
  fresh_or_holds path' h' old (append_rows path h rows d).
Proof. intros Hp. unfold fresh_or_holds, holds, file_text. by rewrite append_rows_other. Qed.

(** *** Paths *)
Lemma str_app_inj_l (a b c : string) : a +:+ b = a +:+ c → b = c.
Proof. intros E. apply (f_equal chars) in E. rewrite !chars_app in E. apply app_inv_head in E. by apply chars_inj. Qed.
Lemma str_app_inj_r (a b c : string) : b +:+ a = c +:+ a → b = c.
Proof. intros E. apply (f_equal chars) in E. rewrite !chars_app in E. apply app_inv_tail in E. by apply chars_inj. Qed.

Lemma metrics_path_inj w a b : metrics_path w a = metrics_path w b → a = b.
Proof. unfold metrics_path. intros E. do 2 apply str_app_inj_l in E. by apply str_app_inj_r in E. Qed.

(** The shards of a run write to files of their own. *)
Lemma shard_path_inj w n a b : shard_path w n a = shard_path w n b → a = b.
Proof.
  unfold shard_path. intros E. do 4 apply str_app_inj_l in E. apply str_app_inj_r in E. by apply (inj pretty) in E.
Qed.
