(* ===== verification/Output.v ===== *)
(** * The rows written to CSV files

    Number formats ([strconv.Itoa], [strconv.FormatInt], [strconv.FormatFloat(_, 'f', '8', 64)]),
    the [writeToCSV] of every measure ([supervisor/measure/]), and the line of metrics the leader
    of a shard appends when it commits a block ([pbftInside_*.go]).  Integers are printed with
    [pretty]; the precision argument of [FormatFloat] is the character '8', that is 56 digits. *)
From Stdlib Require Import Ascii SpecFloat.
From S2P Require Import Prelude Utils Libs Core Messages Partition Float64 Storage Chain MerkleProof Overhead Pbft Measure Csv.

(** ** Formats *)
Definition Itoa (z : Z) : string := pretty z.

(** [a / b] rounded to the nearest integer, ties to even. *)
Definition quo_even (a b : Z) : Z :=
  let q := a / b in
  let r := a mod b in
  if 2 * r <? b then q else if b <? 2 * r then q + 1 else if Z.even q then q else q + 1.

(** [m * 2^e], in units of [10^-prec]. *)
Definition scaled (prec : nat) (m e : Z) : Z :=
  if 0 <=? e then m * 2 ^ e * 10 ^ Z.of_nat prec else quo_even (m * 10 ^ Z.of_nat prec) (2 ^ (- e)).

(** The last [n] decimal digits of a number. *)
Fixpoint last_digits (n : nat) (z : Z) (acc : list ascii) : list ascii :=
  match n with
  | O => acc
  | S n => last_digits n (z / 10) (pretty_N_char (Z.to_N (z mod 10)) :: acc)
  end.

Definition fixed_point (prec : nat) (n : Z) : string :=
  pretty (n / 10 ^ Z.of_nat prec) +:+ "." +:+ unchars (last_digits prec n []).
Definition sign_str (s : bool) : string := if s then "-" else "".

(** [strconv.FormatFloat(x, 'f', prec, 64)], for a positive precision. *)
Definition FormatFloat (x : float) (prec : nat) : string :=
  match x with
  | S754_nan => "NaN"
  | S754_infinity s => if s then "-Inf" else "+Inf"
  | S754_zero s => sign_str s +:+ fixed_point prec 0
  | S754_finite s m e => sign_str s +:+ fixed_point prec (scaled prec (Z.pos m) e)
  end.
(** The precision of the source: the rune ['8']. *)
Definition fmt_prec : nat := 56.
Definition fmt_float (x : float) : string := FormatFloat x fmt_prec.

(** ** Measures *)
Definition method_name (m : Method) : string := match m with ByRelay => "Relay" | ByBroker => "Broker" end.

(** A row for every element of a slice; [f] reads the other slices at its index. *)
Definition csv_lines {A} (f : nat → A → go (list string)) (l : list A) : go (list (list string)) :=
  go_fold (λ vals ex, line ← f ex.1 ex.2; Ok (vals ++ [line])) [] (imap pair l).

Definition count_fields (c : counts) (eid : nat) : go (list string) :=
  a ← row (normalTxNum c) eid; f ← row (firstTxNum c) eid; s ← row (secondTxNum c) eid;
  Ok [Itoa a; Itoa f; Itoa s].
Definition count_names (m : Method) : list string :=
  ["Normal tx # in this epoch"; method_name m +:+ "1 tx # in this epoch"; method_name m +:+ "2 tx # in this epoch"].

(** *** Number of transactions *)
Definition txnum_names (m : Method) : list string := ["EpochID"; "Total tx # in this epoch"] ++ count_names m.
Definition txnum_line (t : TestTxNumCount) (eid : nat) (totTxInE : float) : go (list string) :=
  c ← count_fields (nCounts t) eid;
  Ok ([Itoa (Z.of_nat eid); fmt_float totTxInE] ++ c).
Definition txnum_rows (t : TestTxNumCount) : go (list (list string)) := csv_lines (txnum_line t) (txNum t).

(** *** Ratio of cross-shard transactions *)
Definition crossrate_names (m : Method) : list string :=
  ["EpochID"; "Total tx # in this epoch"; "CTX # in this epoch"] ++ count_names m ++ ["CTX ratio of this epoch"].
Definition crossrate_line (t : TestCrossTxRate) (eid : nat) (totTxInE : float) : go (list string) :=
  x ← row (totCrossTxNum t) eid;
  c ← count_fields (rCounts t) eid;
  Ok ([Itoa (Z.of_nat eid); fmt_float totTxInE; fmt_float x] ++ c ++ [fmt_float (fdiv x totTxInE)]).
Definition crossrate_rows (t : TestCrossTxRate) : go (list (list string)) := csv_lines (crossrate_line t) (totTxNum t).

(** *** Transactions per second *)
Definition tps_names (m : Method) : list string :=
  ["EpochID"; "Total tx # in this epoch"] ++ count_names m
    ++ ["Epoch start time"; "Epoch end time"; "Avg. TPS of this epoch"].
Definition tps_line (t : TestModule_avgTPS) (eid : nat) (exTxNum : float) : go (list string) :=
  e ← row (endTime t) eid;
  s ← row (startTime t) eid;
  let timeGap := Seconds (time_Sub e s) in
  c ← count_fields (tCounts t) eid;
  Ok ([Itoa (Z.of_nat eid); fmt_float exTxNum] ++ c ++ [Itoa (UnixMilli s); Itoa (UnixMilli e); fmt_float (fdiv exTxNum timeGap)]).
Definition tps_rows (t : TestModule_avgTPS) : go (list (list string)) := csv_lines (tps_line t) (excutedTxNum t).

(** *** Confirmation latency *)
Definition tcl_names (m : Method) : list string :=
  let n := method_name m in
  ["EpochID"; "Total tx # in this epoch"] ++ count_names m ++
  ["Sum of " +:+ n +:+ "1 TCL (ms) (Duration: " +:+ n +:+ "1 Tx Propose -> " +:+ n +:+ "1 Tx Commit)";
   "Sum of " +:+ n +:+ "2 TCL (ms) (Duration: " +:+ n +:+ "2 Tx Propose -> " +:+ n +:+ "2 Tx Commit)";
   "Sum of innerShardTx TCL (ms)";
   "Sum of CTX TCL (ms) (Duration: " +:+ n +:+ "1 Tx Propose -> " +:+ n +:+ "2 Tx Commit)";
   "Sum of All Tx TCL (sec.)"].
Definition tcl_line (t : TestModule_TCL) (eid : nat) (totTxInE : float) : go (list string) :=
  c ← count_fields (lCounts t) eid;
  l1 ← row (firstCommitLatency t) eid;
  l2 ← row (secondCommitLatency t) eid;
  n ← row (normalTxCommitLatency t) eid;
  lc ← row (ctxCommitLatency t) eid;
  tot ← row (totTxLatencyEpoch t) eid;
  Ok ([Itoa (Z.of_nat eid); fmt_float totTxInE] ++ c ++ [Itoa l1; Itoa l2; Itoa n; Itoa lc; fmt_float tot]).
Definition tcl_rows (t : TestModule_TCL) : go (list (list string)) := csv_lines (tcl_line t) (lTxNum t).

(** *** Details of every transaction *)
Definition timestampToString (thisTime : Time) : string := if IsZero thisTime then "" else Itoa (UnixMilli thisTime).
(** [big.Int.SetBytes] *)
Definition SetBytes (key : string) : Z := foldl (λ z c, z * 256 + byte_of c) 0 (chars key).
Definition detail_names : list string :=
  ["TxHash (Byte -> Big Int)"; "Tx propose timestamp"; "Block propose timestamp"; "Tx finally commit timestamp";
   "Relay1 Tx commit timestamp (not a relay tx -> nil)"; "Relay2 Tx commit timestamp (not a relay tx -> nil)";
   "Broker1 Tx commit timestamp (not a broker tx -> nil)"; "Broker2 Tx commit timestamp (not a broker tx -> nil)";
   "Confirmed latency of this tx (ms)"].
Definition detail_line (kv : string * txMetricDetailTime) : list string :=
  let val := kv.2 in
  [pretty (SetBytes kv.1);
   timestampToString (TxProposeTimestamp val); timestampToString (BlockProposeTimestamp val);
   timestampToString (TxCommitTimestamp val); timestampToString (Relay1CommitTimestamp val);
   timestampToString (Relay2CommitTimestamp val); timestampToString (Broker1CommitTimestamp val);
   timestampToString (Broker2CommitTimestamp val); Itoa (confirmed_latency val)].

(** *** [OutputRecord], with its file *)

(** [order] is the order in which the loop over the map of the details visits its entries. *)
Definition measure_csv (order : TestTxDetail → list (string * txMetricDetailTime)) (mm : measure_module)
    : go (list string * list (list string)) :=
  match mm with
  | TPS m t => r ← tps_rows t; Ok (tps_names m, r)
  | TCL m t => r ← tcl_rows t; Ok (tcl_names m, r)
  | CrossTxRate m t => r ← crossrate_rows t; Ok (crossrate_names m, r)
  | TxNumberCount m t => r ← txnum_rows t; Ok (txnum_names m, r)
  | Tx_Details t => Ok (detail_names, detail_line <$> order t)
  end.

Definition writeToCSV (DataWrite_path : string) (order : TestTxDetail → list (string * txMetricDetailTime))
    (mm : measure_module) (d : gmap string string) : go (gmap string string) :=
  c ← measure_csv order mm;
  Ok (WriteMetricsToCSV DataWrite_path (OutputMetricName mm) c.1 c.2 d).

Definition TestTxNumCount_Relay_writeToCSV w order t := writeToCSV w order (TxNumberCount ByRelay t).
Definition TestTxNumCount_Broker_writeToCSV w order t := writeToCSV w order (TxNumberCount ByBroker t).
Definition TestCrossTxRate_Relay_writeToCSV w order t := writeToCSV w order (CrossTxRate ByRelay t).
Definition TestCrossTxRate_Broker_writeToCSV w order t := writeToCSV w order (CrossTxRate ByBroker t).
Definition TestModule_avgTPS_Relay_writeToCSV w order t := writeToCSV w order (TPS ByRelay t).
Definition TestModule_avgTPS_Broker_writeToCSV w order t := writeToCSV w order (TPS ByBroker t).
Definition TestModule_TCL_Relay_writeToCSV w order t := writeToCSV w order (TCL ByRelay t).
Definition TestModule_TCL_Broker_writeToCSV w order t := writeToCSV w order (TCL ByBroker t).
Definition TestTxDetail_writeToCSV w order t := writeToCSV w order (Tx_Details t).

(** The loop of [CloseSupervisor]: every measure writes its file and prints its results. *)
Definition output_all (DataWrite_path : string) (order : TestTxDetail → list (string * txMetricDetailTime)) (now : Time)
    (ms : list measure_module) (d : gmap string string) : go (gmap string string * list (list float * float)) :=
  go_fold (λ acc mm, d ← writeToCSV DataWrite_path order mm acc.1;
                     r ← OutputRecord now mm;
                     Ok (d, acc.2 ++ [r])) (d, []) ms.

(** ** The metrics of a committed block *)
Inductive metric_style := LongNames (m : Method) | ContribNames.

Definition metric_names (s : metric_style) : list string :=
  match s with
  | LongNames m =>
      let n := method_name m in
      ["Block Height"; "EpochID of this block"; "TxPool Size"; "# of all Txs in this block";
       "# of " +:+ n +:+ "1 Txs in this block"; "# of " +:+ n +:+ "2 Txs in this block";
       "TimeStamp - Propose (unixMill)"; "TimeStamp - Commit (unixMill)";
       "SUM of confirm latency (ms, All Txs)";
       "SUM of confirm latency (ms, " +:+ n +:+ "1 Txs) (Duration: " +:+ n +:+ "1 proposed -> " +:+ n +:+ "1 Commit)";
       "SUM of confirm latency (ms, " +:+ n +:+ "2 Txs) (Duration: "
         +:+ match m with ByRelay => "Relay1" | ByBroker => "Broker2" end +:+ " proposed -> " +:+ n +:+ "2 Commit)"]
  | ContribNames =>
      ["Block Height"; "EpochID"; "TxPool Size"; "# of all Txs"; "# of Relay1 Txs"; "# of Relay2 Txs";
       "TimeStamp - Propose (unixMill)"; "TimeStamp - Commit (unixMill)";
       "SUM of confirm latency (ms, All Txs)"; "SUM of confirm latency (ms, Relay1 Txs)";
       "SUM of confirm latency (ms, Relay2 Txs)"]
  end.

Section metrics.
Context `{BitSetLib}.

(** The line for a block, from the report of the leader and its pool at that moment. *)
Definition metric_val (m : Method) (block : Block) (pool : TxPool) (bim : BlockInfoMsg) : list string :=
  [Itoa (i64 (Number (Header block))); Itoa (Epoch bim); Itoa (len (TxQueue pool)); Itoa (len (Body block));
   Itoa (len (firsts m bim)); Itoa (len (seconds m bim));
   Itoa (UnixMilli (ProposeTime bim)); Itoa (UnixMilli (CommitTime bim));
   Itoa (computeTCL (Body block) (CommitTime bim)); Itoa (computeTCL (firsts m bim) (CommitTime bim));
   Itoa (computeTCL (seconds m bim) (CommitTime bim))].

(** The line each module writes. *)
Context {X : Type} (DataWrite_path : string) (p : PbftConsensusNode X).

Definition metric_line (s : metric_style) (m : Method) (block : Block) (pool : TxPool) (bim : BlockInfoMsg)
    (d : gmap string string) : gmap string string :=
  writeCSVline DataWrite_path (ShardNums (pbftChainConfig p)) (PShardID p) (metric_names s) (metric_val m block pool bim) d.

Definition relay_metric_line := metric_line (LongNames ByRelay) ByRelay.
Definition clpa_metric_line := metric_line (LongNames ByRelay) ByRelay.
Definition contrib_metric_line := metric_line ContribNames ByRelay.
Definition broker_metric_line := metric_line (LongNames ByBroker) ByBroker.
Definition clpa_broker_metric_line := metric_line (LongNames ByBroker) ByBroker.
End metrics.

(** ** A commit, with its line of metrics *)
Section commit.
Context `{Params, BitSetLib, CryptoLib, !Codec AccountState, !Codec Request, !Codec Transaction,
          !Codec BlockHeader, !Codec Block, BoltLib, TrieLib}.
Context {X : Type} `{!ExtraOpInConsensus X} (chain_of : X → BlockChain).
Context (DataWrite_path : string) (s : metric_style) (m : Method).

(** The report of a committed block, which only its leader sends. *)
Definition report_of (out : list packet) : option BlockInfoMsg :=
  head (omap (λ pk, match pk.2 with MBlockInfo bim => Some bim | _ => None end) out).

(** [HandleinCommit] writes the line after the report, with the pool as it is then. *)
Definition HandleinCommit_io (p : PbftConsensusNode X) (now : Time) (cmsg : Commit) (d : gmap string string)
    : go (X * list packet * bool * gmap string string) :=
  c ← HandleinCommit p now cmsg;
  match requestPool p !! CDigest cmsg, report_of c.1.2 with
  | Some r, Some bim =>
      block ← DecodeB (Content r);
      Ok (c, metric_line DataWrite_path p s m block (Txpool (chain_of c.1.1)) bim d)
  | _, _ => Ok (c, d)
  end.
End commit.
