(* ===== verification/OutputFacts.v ===== *)
(** * Properties of the files

    No field the program writes contains a carriage return, the rows have as many fields as their
    header, and counts are printed exactly; so every file is read back as its header, once,
    followed by the rows in the order they were written. *)
From Stdlib Require Import Ascii SpecFloat.
From S2P Require Import Prelude Utils Libs Core Messages Partition Float64 Storage Chain MerkleProof Overhead Pbft.
From S2P Require Import Measure MeasureFacts Supervisor SupervisorFacts Contribution Committee Broker PLouvain PLouvainCommittee.
From S2P Require Import EpochControl OverheadCommittee SupervisorProcess SupervisorProcessFacts PbftFacts RelayModule RelayFacts Csv Output.

(** ** Fields without carriage returns *)
Lemma no_cr_app a b : no_cr a → no_cr b → no_cr (a +:+ b).
Proof. unfold no_cr. rewrite chars_app. set_solver. Qed.

Lemma digit_not_cr n : pretty_N_char n ≠ cCR.
Proof. unfold pretty_N_char. by repeat case_match. Qed.

Lemma pretty_N_go_no_cr n : ∀ s, no_cr s → no_cr (pretty_N_go n s).
Proof.
  induction (N.lt_wf_0 n) as [n _ IH]; intros s Hs. assert (n = 0 ∨ 0 < n)%N as [->|Hn] by lia; [by rewrite pretty_N_go_0|].
  rewrite pretty_N_go_step by done. apply IH; [by apply N.div_lt|]. unfold no_cr, chars. cbn.
  rewrite not_elem_of_cons. split; [|exact Hs]. intros E. by apply (digit_not_cr (n mod 10)).
Qed.

Lemma no_cr_check s : existsb (Ascii.eqb cCR) (chars s) = false → no_cr s.
Proof.
  unfold no_cr. induction (chars s) as [|c l IH]; [by intros _ ?%elem_of_nil|]. cbn [existsb]. rewrite orb_false_iff, Ascii.eqb_neq.
  intros [Hc Hl]. rewrite not_elem_of_cons. auto.
Qed.

Lemma pretty_N_no_cr (n : N) : no_cr (pretty n).
Proof. unfold pretty, pretty_N. case_decide; [by apply no_cr_check|]. apply pretty_N_go_no_cr. by apply no_cr_check. Qed.

Lemma itoa_no_cr z : no_cr (Itoa z).
Proof.
  unfold Itoa. destruct z as [|p|p]; [by apply no_cr_check|apply pretty_N_no_cr|].
  change (pretty (Z.neg p)) with ("-" +:+ pretty (Npos p)). apply no_cr_app; [by apply no_cr_check|apply pretty_N_no_cr].
Qed.

Lemma last_digits_no_cr n : ∀ z acc, cCR ∉ acc → cCR ∉ last_digits n z acc.
Proof.
  induction n as [|n IH]; intros z acc Ha; [done|]. cbn [last_digits]. apply IH. rewrite not_elem_of_cons.
  split; [|done]. intros E. by apply (digit_not_cr (Z.to_N (z mod 10))).
Qed.

Lemma fixed_no_cr prec n : no_cr (fixed_point prec n).
Proof.
  unfold fixed_point. apply no_cr_app; [apply itoa_no_cr|]. apply no_cr_app; [by apply no_cr_check|].
  unfold no_cr. rewrite chars_unchars. apply last_digits_no_cr. by intros ?%elem_of_nil.
Qed.

Lemma float_no_cr x : no_cr (fmt_float x).
Proof.
  unfold fmt_float, FormatFloat. destruct x as [s|s| |s m e].
  - apply no_cr_app; [destruct s; by apply no_cr_check|apply fixed_no_cr].
  - destruct s; by apply no_cr_check.
  - by apply no_cr_check.
  - apply no_cr_app; [destruct s; by apply no_cr_check|apply fixed_no_cr].
Qed.

Lemma timestamp_no_cr t : no_cr (timestampToString t).
Proof. unfold timestampToString. destruct (IsZero t); [by apply no_cr_check|apply itoa_no_cr]. Qed.

Create HintDb csv.
#[export] Hint Resolve itoa_no_cr float_no_cr timestamp_no_cr Forall_nil_2 Forall_cons_2 Forall_app_2 : csv.

(** A row with [k] fields, at least two, none with a carriage return. *)
Lemma writable_row k r : length r = S (S k) → Forall no_cr r → writable (S (S k)) r.
Proof. intros Hl Hr. split_and!; [done|by intros ->|by intros ->|done]. Qed.

(** ** Rows *)
Lemma csv_lines_ok {A} (f : nat → A → go (list string)) (g : nat → A → list string) l :
  (∀ i x, l !! i = Some x → f i x = Ok (g i x)) → csv_lines f l = Ok (imap g l).
Proof.
  unfold csv_lines. induction l as [|x l IH] using rev_ind; intros Hf; [done|].
  rewrite !imap_app, go_fold_app, IH.
  2: { intros i y Hi. apply Hf. rewrite lookup_app_l; [done|]. by eapply lookup_lt_Some. }
  cbn [mbind go_bind]. change (imap ?h [x]) with [h 0%nat x]. cbn [go_fold fst snd].
  rewrite Nat.add_0_r, Hf by (rewrite lookup_app_r, Nat.sub_diag by lia; done). done.
Qed.

Lemma csv_lines_total {A} (f : nat → A → go (list string)) (P : list string → Prop) l :
  (∀ i x, l !! i = Some x → ∃ line, f i x = Ok line ∧ P line) → ∃ rows, csv_lines f l = Ok rows ∧ Forall P rows ∧ length rows = length l.
Proof.
  intros Hf. exists (imap (λ i x, match f i x with Ok line => line | Panic _ => [] end) l). split_and!.
  - apply csv_lines_ok. intros i x Hi. destruct (Hf i x Hi) as (line & -> & _). done.
  - apply Forall_lookup. intros i r Hr. rewrite list_lookup_imap in Hr. destruct (l !! i) as [x|] eqn:E; [|done].
    cbn in Hr. injection Hr as <-. by destruct (Hf i x E) as (line & -> & ?).
  - apply length_imap.
Qed.

Lemma row_ok {A} (l : list A) i n : length l = n → (i < n)%nat → ∃ x, row l i = Ok x.
Proof. intros Hl Hi. unfold row. destruct (lookup_lt_is_Some_2 l i) as [x ->]; [lia|]. by eexists. Qed.

Lemma count_fields_ok c i n : counts_wf n c → (i < n)%nat → ∃ l, count_fields c i = Ok l ∧ length l = 3%nat ∧ Forall no_cr l.
Proof.
  intros (_ & H1 & H2 & H3) Hi. unfold count_fields.
  destruct (row_ok _ i n H1 Hi) as [a ->], (row_ok _ i n H2 Hi) as [f ->], (row_ok _ i n H3 Hi) as [s ->].
  eexists. split; [done|]. auto with csv.
Qed.

(** Read the next slice of a measure at an index in range. *)
Ltac next_field n :=
  match goal with
  | Hi : (?i < n)%nat |- context [row ?l ?i] =>
      let x := fresh "x" in
      destruct (row_ok l i n ltac:(done) Hi) as [x ->]; cbn [mbind go_bind]
  | Hi : (?i < n)%nat |- context [count_fields ?c ?i] =>
      let l := fresh "l" in let Hl := fresh "Hl" in let Hc := fresh "Hc" in
      destruct (count_fields_ok c i n ltac:(done) Hi) as (l & -> & Hl & Hc); cbn [mbind go_bind]
  end.

(** A header of [k + 2] fields with rows of as many. *)
Lemma writable_table k h rs : length h = S (S k) → existsb (existsb (Ascii.eqb cCR)) (chars <$> h) = false →
  Forall (λ r, length r = S (S k) ∧ Forall no_cr r) rs → Forall (writable (length h)) (h :: rs).
Proof.
  intros Hh Hc Hrs. rewrite Hh. constructor.
  - apply writable_row; [done|]. clear -Hc. induction h as [|f h IH]; [done|]. cbn [fmap list_fmap existsb] in Hc.
    apply orb_false_iff in Hc as [Hf Hc]. constructor; [by apply no_cr_check|auto].
  - eapply Forall_impl; [exact Hrs|]. intros r [Hl Hr]. by apply writable_row.
Qed.

Lemma csv_table {A} (f : nat → A → go (list string)) (l : list A) n k h : length l = n → length h = S (S k) →
  existsb (existsb (Ascii.eqb cCR)) (chars <$> h) = false →
  (∀ i x, (i < n)%nat → ∃ r, f i x = Ok r ∧ length r = S (S k) ∧ Forall no_cr r) →
  ∃ rs, csv_lines f l = Ok rs ∧ Forall (writable (length h)) (h :: rs).
Proof.
  intros Hn Hh Hc Hf. destruct (csv_lines_total f (λ r, length r = S (S k) ∧ Forall no_cr r) l) as (rs & E & Hrs & _).
  { intros i x Hi%lookup_lt_Some. apply Hf. lia. }
  exists rs. split; [done|]. by eapply writable_table.
Qed.

(** The header of a measure and its rows have the same number of fields. *)
Lemma measure_csv_ok order mm : measure_wf mm →
  ∃ h rs, measure_csv order mm = Ok (h, rs) ∧ Forall (writable (length h)) (h :: rs).
Proof.
  destruct mm as [m t|m t|m t|m t|t]; cbn [measure_wf measure_csv]; intros Hwf.
  - destruct Hwf as (n & Hc & H1 & H2 & H3).
    destruct (csv_table (tps_line t) _ n 6 (tps_names m) H1) as (rs & E & Hrs); [by destruct m..| |].
    { intros i x Hi. unfold tps_line. repeat next_field n. eexists. split; [done|]. rewrite !length_app, Hl. auto 10 with csv. }
    unfold tps_rows. rewrite E. by eexists _, _.
  - destruct Hwf as (n & Hc & H1 & H2 & H3 & H4 & H5 & H6).
    destruct (csv_table (tcl_line t) _ n 8 (tcl_names m) H1) as (rs & E & Hrs); [by destruct m..| |].
    { intros i x Hi. unfold tcl_line. repeat next_field n. eexists. split; [done|]. rewrite !length_app, Hl. auto 12 with csv. }
    unfold tcl_rows. rewrite E. by eexists _, _.
  - destruct Hwf as (n & Hc & H1 & H2).
    destruct (csv_table (crossrate_line t) _ n 5 (crossrate_names m) H1) as (rs & E & Hrs); [by destruct m..| |].
    { intros i x Hi. unfold crossrate_line. repeat next_field n. eexists. split; [done|]. rewrite !length_app, Hl. auto 10 with csv. }
    unfold crossrate_rows. rewrite E. by eexists _, _.
  - destruct Hwf as (n & Hc & H1).
    destruct (csv_table (txnum_line t) _ n 3 (txnum_names m) H1) as (rs & E & Hrs); [by destruct m..| |].
    { intros i x Hi. unfold txnum_line. repeat next_field n. eexists. split; [done|]. rewrite !length_app, Hl. auto 10 with csv. }
    unfold txnum_rows. rewrite E. by eexists _, _.
  - eexists _, _. split; [done|]. apply (writable_table 7); [done..|]. apply Forall_fmap, Forall_true. intros [k v].
    split; [done|]. unfold detail_line, compose. fold (Itoa (SetBytes k)). auto 15 with csv.
Qed.

(** ** The files of the supervisor *)
Section files.
Context (w : string) (order : TestTxDetail → list (string * txMetricDetailTime)).

Definition measure_path (mm : measure_module) : string := metrics_path w (OutputMetricName mm).

(** Before a measure is written: its file is new, or holds its header and the rows [old]. *)
Definition file_before (d : gmap string string) (old : measure_module → list (list string)) (mm : measure_module) : Prop :=
  ∀ h rs, measure_csv order mm = Ok (h, rs) →
    fresh_or_holds (measure_path mm) h (old mm) d ∧ Forall (writable (length h)) (old mm).
(** After it: the file is read as the header, the old rows and the rows of the measure. *)
Definition file_after (d : gmap string string) (old : measure_module → list (list string)) (mm : measure_module) : Prop :=
  ∃ h rs, measure_csv order mm = Ok (h, rs) ∧ csv_read (file_text (measure_path mm) d) = (h :: old mm ++ rs, None).

Lemma write_measure mm old d : measure_wf mm → file_before d old mm →
  ∃ d', writeToCSV w order mm d = Ok d' ∧ file_after d' old mm ∧ ∀ path, path ≠ measure_path mm → d' !! path = d !! path.
Proof.
  intros Hm Hb. destruct (measure_csv_ok order mm Hm) as (h & rs & E & Hw). destruct (Hb h rs E) as [Hf Ho].
  unfold writeToCSV. rewrite E. cbn [mbind go_bind fst snd]. eexists. split; [done|]. split.
  - exists h, rs. split; [done|]. apply holds_reads; [by apply append_rows_holds|].
    apply Forall_cons in Hw as [Hh Hrs]. constructor; [done|]. by apply Forall_app.
  - intros path Hp. by apply append_rows_other.
Qed.

Lemma output_all_files now ms old : ∀ d acc, Forall measure_wf ms → NoDup (measure_path <$> ms) → Forall (file_before d old) ms →
  ∃ d' out, go_fold (λ acc mm, d0 ← writeToCSV w order mm acc.1; r ← OutputRecord now mm; Ok (d0, acc.2 ++ [r])) (d, acc) ms = Ok (d', out) ∧
    length out = (length acc + length ms)%nat ∧ Forall (file_after d' old) ms ∧
    ∀ path, path ∉ measure_path <$> ms → d' !! path = d !! path.
Proof.
  induction ms as [|mm ms IH]; intros d acc Hwf Hnd Hb; [by exists d, acc|].
  apply Forall_cons in Hwf as [Hm Hwf], Hb as [Hbm Hb]. apply NoDup_cons in Hnd as [Hn Hnd].
  destruct (write_measure mm old d Hm Hbm) as (d1 & E1 & Ha & Ho). destruct (output_total now mm Hm) as [r Er].
  cbn [go_fold fst snd]. rewrite E1. cbn [mbind go_bind]. rewrite Er. cbn [mbind go_bind].
  destruct (IH d1 (acc ++ [r]) Hwf Hnd) as (d' & out & E & Hl & Hf & Hx).
  { apply Forall_forall. intros m Hi h rs Em. rewrite Forall_forall in Hb. destruct (Hb m Hi h rs Em) as [Hfr ?]. split; [|done].
    unfold fresh_or_holds, holds, file_text in *. rewrite Ho; [done|]. intros Ep. apply Hn. rewrite <-Ep. by apply list_elem_of_fmap_2. }
  exists d', out. split; [done|]. rewrite length_app in Hl. cbn in *. split; [lia|]. split.
  - constructor; [|done]. destruct Ha as (h & rs & Em & Hr). exists h, rs. split; [done|]. rewrite <-Hr. unfold file_text. by rewrite Hx.
  - intros path [Hp1 Hp2]%not_elem_of_cons. rewrite Hx by done. by apply Ho.
Qed.

Lemma measure_paths_nodup ms : NoDup (OutputMetricName <$> ms) → NoDup (measure_path <$> ms).
Proof.
  intros Hnd. change (NoDup ((metrics_path w ∘ OutputMetricName) <$> ms)). rewrite list_fmap_compose.
  apply NoDup_fmap_2; [|done]. intros a b. apply metrics_path_inj.
Qed.

(** C36: closing the supervisor writes every measure to a file of its own that can be read back.
    For measures with distinct names whose slices have a row per epoch (which every sequence of
    reports keeps), on a disk where the file of each measure is missing, empty, or holds the
    measure's header with the rows [old] of earlier runs: the loop of [CloseSupervisor] does not
    panic, and reading each file gives the header once, then the old rows, then the rows of this
    run; all other files are unchanged. *)
Theorem close_files now (ms : list measure_module) (old : measure_module → list (list string)) (d : gmap string string) :
  Forall measure_wf ms → NoDup (OutputMetricName <$> ms) → Forall (file_before d old) ms →
  ∃ d' out, output_all w order now ms d = Ok (d', out) ∧ length out = length ms ∧ Forall (file_after d' old) ms ∧
    ∀ path, path ∉ measure_path <$> ms → d' !! path = d !! path.
Proof.
  intros Hwf Hnd Hb. apply (output_all_files now ms old d []); [done|by apply measure_paths_nodup|done].
Qed.
End files.

(** ** Counts are printed exactly *)
Lemma quo_even_exact a b : 0 < b → quo_even (a * b) b = a.
Proof.
  intros Hb. unfold quo_even. rewrite Z.mod_mul, Z.div_mul by lia. by rewrite (proj2 (Z.ltb_lt _ _)) by lia.
Qed.

Lemma last_digits_zeros k : ∀ n z acc, last_digits (k + n) (z * 10 ^ Z.of_nat k) acc = last_digits n z (replicate k "0"%char ++ acc).
Proof.
  induction k as [|k IH]; intros n z acc; [by rewrite Z.mul_1_r|].
  replace (z * 10 ^ Z.of_nat (S k)) with (z * 10 ^ Z.of_nat k * 10) by (rewrite Nat2Z.inj_succ, Z.pow_succ_r by lia; lia).
  cbn [Nat.add last_digits]. rewrite Z.mod_mul, Z.div_mul by lia. rewrite IH. f_equal.
  change (pretty_N_char (Z.to_N 0)) with "0"%char. by rewrite replicate_S_end, <-(assoc_L (++)).
Qed.

(** The number [z / 2] as the files print it. *)
Definition half_str (z : Z) : string :=
  pretty (z / 2) +:+ "." +:+ unchars ((if Z.odd z then "5" else "0")%char :: replicate 55 "0"%char).

Lemma fixed_half z : 0 ≤ z → fixed_point fmt_prec (z * 5 * 10 ^ 55) = half_str z.
Proof.
  intros Hz. unfold fixed_point, half_str, fmt_prec.
  replace (10 ^ Z.of_nat 56) with (2 * (5 * 10 ^ 55)) by (vm_compute; reflexivity).
  rewrite <-(Z.mul_assoc z), Z.div_mul_cancel_r by (vm_compute; discriminate). do 2 f_equal. f_equal.
  change 56%nat with (55 + 1)%nat. change (10 ^ 55) with (10 ^ Z.of_nat 55). rewrite Z.mul_assoc, last_digits_zeros. cbn [last_digits].
  rewrite app_nil_r. f_equal. replace ((z * 5) mod 10) with (5 * (z mod 2)).
  2: { change 10 with (2 * 5). rewrite Z.mul_mod_distr_r by lia. lia. }
  rewrite Zmod_odd. by destruct (Z.odd z).
Qed.

Lemma format_half z : 0 ≤ z < 2 ^ 53 → fmt_float (f_half z) = half_str z.
Proof.
  intros Hz. unfold fmt_float, f_half. destruct (Z.eqb_spec z 0) as [->|Hz0]; [vm_compute; reflexivity|].
  unfold dyadic, FormatFloat. change (sign_str false) with "". rewrite <-fixed_half by lia. change ("" +:+ ?s) with s. f_equal.
  pose proof (log2_53 z ltac:(lia)) as Hl. pose proof (mant_range z ltac:(lia)) as Hm. rewrite Z2Pos.id by lia.
  unfold scaled. rewrite (proj2 (Z.leb_gt _ _)) by lia.
  replace (mant z * 10 ^ Z.of_nat fmt_prec) with (z * 5 * 10 ^ 55 * 2 ^ (- (Z.log2 z - 52 + -1))).
  - apply quo_even_exact. apply Z.pow_pos_nonneg; lia.
  - unfold mant. replace (- (Z.log2 z - 52 + -1)) with (1 + (52 - Z.log2 z)) by lia. rewrite Z.pow_add_r by lia.
    replace (10 ^ Z.of_nat fmt_prec) with (5 * 10 ^ 55 * 2 ^ 1) by (vm_compute; reflexivity). lia.
Qed.

(** ** The files of the counting measures *)
Definition count_strs (m : Method) (bs : list BlockInfoMsg) (e : Z) : list string :=
  [Itoa (total (λ b, len (InnerShardTxs b)) e bs); Itoa (total (λ b, len (firsts m b)) e bs); Itoa (total (λ b, len (seconds m b)) e bs)].

(** The rows of the two files for an epoch. *)
Definition count_row (m : Method) (bs : list BlockInfoMsg) (e : Z) : list string :=
  [Itoa e; half_str (total (halves m) e bs)] ++ count_strs m bs e.
Definition ratio_row (m : Method) (bs : list BlockInfoMsg) (e : Z) : list string :=
  [Itoa e; half_str (total (halves m) e bs); half_str (total (pairs m) e bs)] ++ count_strs m bs e
    ++ [fmt_float (fdiv (f_half (total (pairs m) e bs)) (f_half (total (halves m) e bs)))].

(** A row for every epoch. *)
Lemma column_lines f g line bs :
  (∀ i, (i < rows bs)%nat → f i (f_half (total g (Z.of_nat i) bs)) = Ok (line (Z.of_nat i))) →
  csv_lines f (half_column g bs) = Ok (column (rows bs) line).
Proof.
  intros Hf. rewrite (csv_lines_ok _ (λ i _, line (Z.of_nat i))).
  - f_equal. apply list_eq. intros i. rewrite list_lookup_imap. unfold half_column. destruct (decide (i < rows bs)%nat) as [Hi|Hi].
    + by rewrite !column_lookup.
    + rewrite !lookup_ge_None_2 by (rewrite column_length; lia). done.
  - intros i x Hi. assert (i < rows bs)%nat as Hr.
    { apply lookup_lt_Some in Hi. unfold half_column in Hi. by rewrite column_length in Hi. }
    unfold half_column in Hi. rewrite column_lookup in Hi by done. injection Hi as <-. by apply Hf.
Qed.

Lemma count_fields_exact m bs i : (i < rows bs)%nat → count_fields (counts_of m bs) i = Ok (count_strs m bs (Z.of_nat i)).
Proof.
  intros Hi. unfold count_fields, row, counts_of, num_column. cbn [normalTxNum firstTxNum secondTxNum]. by rewrite !column_lookup.
Qed.

(** The totals of an epoch are printed exactly. *)
Lemma total_str m bs f e : measurable m bs → (∀ b, 0 ≤ f b ≤ halves m b) → fmt_float (f_half (total f e bs)) = half_str (total f e bs).
Proof.
  intros [_ Hs] Hf. assert (∀ b, 0 ≤ f b) as Hf0 by (intros b; apply Hf). apply format_half. split; [by apply total_nonneg|].
  eapply Z.le_lt_trans; [by apply total_le|]. eapply Z.le_lt_trans; [|exact Hs]. apply sumZ_mono. intros b _. apply Hf.
Qed.

Lemma pairs_halves m b : 0 ≤ pairs m b ≤ halves m b.
Proof. pose proof (pairs_nonneg m b). unfold halves, len. lia. Qed.

Lemma txnum_rows_exact m bs : measurable m bs →
  txnum_rows (mkTxNum (counts_of m bs) (half_column (halves m) bs)) = Ok (column (rows bs) (count_row m bs)).
Proof.
  intros Hm. apply column_lines. intros i Hi. unfold txnum_line. cbn [nCounts]. rewrite count_fields_exact by done. cbn [mbind go_bind].
  rewrite (total_str m); [done|done|]. intros b. split; [apply halves_nonneg|done].
Qed.

Lemma ratio_rows_exact m bs : measurable m bs →
  crossrate_rows (mkCrossRate (counts_of m bs) (half_column (halves m) bs) (half_column (pairs m) bs)) = Ok (column (rows bs) (ratio_row m bs)).
Proof.
  intros Hm. apply column_lines. intros i Hi. unfold crossrate_line. cbn [rCounts totCrossTxNum].
  unfold row at 1, half_column at 1. rewrite column_lookup by done. cbn [mbind go_bind]. rewrite count_fields_exact by done. cbn [mbind go_bind].
  rewrite !(total_str m); [done|done|apply pairs_halves|done|]. intros b. split; [apply halves_nonneg|done].
Qed.

(** The rows are those of the reports in another order. *)
Lemma column_perm {A} (row : list BlockInfoMsg → Z → A) bs bs' : (∀ e, row bs' e = row bs e) → bs' ≡ₚ bs →
  column (rows bs') (row bs') = column (rows bs) (row bs).
Proof. intros Hr Hp. unfold rows. rewrite (last_epoch_perm _ _ Hp). apply column_ext. intros e _. apply Hr. Qed.

Lemma total_perm f e bs bs' : bs ≡ₚ bs' → total f e bs = total f e bs'.
Proof. intros Hp. unfold total, of_epoch. by rewrite Hp. Qed.

Lemma new_file path h rs d : d !! path = None → Forall (writable (length h)) (h :: rs) →
  csv_read (file_text path (append_rows path h rs d)) = (h :: rs, None).
Proof.
  intros Hd Hw. apply holds_reads; [|done]. apply (append_rows_holds _ _ []). left. split; [|done]. unfold file_text. by rewrite Hd.
Qed.

Lemma half_no_cr z : no_cr (half_str z).
Proof. unfold half_str. repeat apply no_cr_app; [apply itoa_no_cr|by apply no_cr_check|]. destruct (Z.odd z); by apply no_cr_check. Qed.

(** C35: the files of the counting measures are exact.  When the reports of a run have no negative
    epochs and fewer than 2^52 transactions in all, then in whatever order they reach the
    supervisor, the measures never panic, and the files of the number of transactions and of the
    ratio of cross-shard transactions are read back as their headers and, for every epoch from 0
    to the last one reported, a row with the exact numbers of the non-empty blocks of the epoch:
    all transactions and cross-shard transactions (a half is printed as [.5]), inner
    transactions, first and second halves, and the [float64] ratio of the two totals. *)
Theorem count_files w order m (bs bs' : list BlockInfoMsg) (d : gmap string string) : measurable m bs → bs' ≡ₚ bs →
  d !! metrics_path w "Tx_number" = None → d !! metrics_path w "CrossTransaction_ratio" = None →
  ∃ t r d1 d2, go_fold (λ t b, update_txnum m b t) NewTestTxNumCount bs' = Ok t ∧
    go_fold (λ r b, update_crossrate m b r) NewTestCrossTxRate bs' = Ok r ∧
    writeToCSV w order (TxNumberCount m t) d = Ok d1 ∧ writeToCSV w order (CrossTxRate m r) d = Ok d2 ∧
    csv_read (file_text (metrics_path w "Tx_number") d1) = (txnum_names m :: column (rows bs) (count_row m bs), None) ∧
    csv_read (file_text (metrics_path w "CrossTransaction_ratio") d2) =
      (crossrate_names m :: column (rows bs) (ratio_row m bs), None).
Proof.
  intros Hm Hp Hd1 Hd2. pose proof (measurable_perm _ _ _ (symmetry Hp) Hm) as Hm'. eexists _, _, _, _.
  split; [by apply txnum_run|]. split; [by apply crossrate_run|]. unfold writeToCSV, measure_csv.
  rewrite txnum_rows_exact, ratio_rows_exact by done. cbn [mbind go_bind fst snd]. split; [done|]. split; [done|].
  assert (∀ e, count_row m bs' e = count_row m bs e ∧ ratio_row m bs' e = ratio_row m bs e) as Hr.
  { intros e. unfold count_row, ratio_row, count_strs. by rewrite !(total_perm _ e bs' bs Hp). }
  rewrite (column_perm (count_row m) bs bs'), (column_perm (ratio_row m) bs bs') by (done || apply Hr).
  pose proof half_no_cr as Hh. split; apply new_file; try done.
  - apply (writable_table 3); [by destruct m..|]. apply Forall_fmap, Forall_true. intros i. split; [reflexivity|].
    unfold count_row, count_strs, compose. auto 10 with csv.
  - apply (writable_table 5); [by destruct m..|]. apply Forall_fmap, Forall_true. intros i. split; [reflexivity|].
    unfold ratio_row, count_strs, compose. auto 12 with csv.
Qed.

(** ** The file of a shard *)
Section shard_file.
Context `{Params, BitSetLib, CryptoLib, !Codec AccountState, !Codec Request, !Codec Transaction,
          !Codec BlockHeader, !Codec Block, BoltLib, TrieLib}.
Context {X : Type} `{!ExtraOpInConsensus X} (chain_of : X → BlockChain).
Context (w : string) (s : metric_style) (m : Method) (n sid : Z).

(** A commit handled by a node: the node before it, the time and the message. *)
Definition call : Type := PbftConsensusNode X * Time * Commit.

(** The line that a commit reports, if its node leads the shard. *)
Definition line_of (c : call) : option (list string) :=
  match HandleinCommit c.1.1 c.1.2 c.2 with
  | Ok r => q ← requestPool c.1.1 !! CDigest c.2; bim ← report_of r.1.2;
            match DecodeB (Content q) with
            | Ok block => Some (metric_val m block (Txpool (chain_of r.1.1)) bim)
            | Panic _ => None
            end
  | Panic _ => None
  end.

(** The commit is handled, by a node of the shard. *)
Definition handled (c : call) : Prop :=
  ShardNums (pbftChainConfig c.1.1) = n ∧ PShardID c.1.1 = sid ∧
  (∃ r, HandleinCommit c.1.1 c.1.2 c.2 = Ok r) ∧
  ∀ q, requestPool c.1.1 !! CDigest c.2 = Some q → ∃ block, DecodeB (Content q) = Ok block.

Definition handle_io (d : gmap string string) (c : call) : go (gmap string string) :=
  r ← HandleinCommit_io chain_of w s m c.1.1 c.1.2 c.2 d; Ok r.2.

Lemma handle_line d c : handled c → handle_io d c =
  Ok (match line_of c with Some l => append_rows (shard_path w n sid) (metric_names s) [l] d | None => d end).
Proof.
  intros (Hn & Hs & (r & Er) & Hq). unfold handle_io, HandleinCommit_io, line_of. rewrite Er. cbn [mbind go_bind].
  destruct (requestPool c.1.1 !! CDigest c.2) as [q|]; [|done]. destruct (Hq q eq_refl) as [block Eb].
  cbn [mbind option_bind]. destruct (report_of r.1.2) as [bim|]; [|done]. rewrite Eb. cbn [mbind go_bind].
  unfold metric_line, writeCSVline. by rewrite Hn, Hs.
Qed.

Lemma metric_writable block pool bim : writable 11 (metric_val m block pool bim).
Proof. apply (writable_row 9); [done|]. unfold metric_val. auto 15 with csv. Qed.
Lemma metric_header : length (metric_names s) = 11%nat ∧ existsb (existsb (Ascii.eqb cCR)) (chars <$> metric_names s) = false.
Proof. by destruct s as [[]|]. Qed.

Lemma lines_writable calls : Forall (writable 11) (omap line_of calls).
Proof.
  apply Forall_forall. intros l (c & _ & Hl)%list_elem_of_omap. unfold line_of in Hl.
  destruct (HandleinCommit _ _ _); [|done]. destruct (requestPool _ !! _); [|done]. cbn in Hl.
  destruct (report_of _); [|done]. cbn in Hl. destruct (DecodeB _); [|done]. injection Hl as <-. apply metric_writable.
Qed.

(** The metrics of a shard.  Whatever commits the nodes of a shard handle, in whatever order
    (the leader writes; on a shared disk, also a new leader after a view change), the file of the
    shard is read back as the header once, followed by one line per reported block in the order
    of the commits, and the files of all other shards are unchanged; commits that report nothing
    (followers, partition requests) write nothing. *)
Theorem metrics_file (calls : list call) (d : gmap string string) :
  Forall handled calls → d !! shard_path w n sid = None →
  ∃ d', go_fold handle_io d calls = Ok d' ∧
    match omap line_of calls with
    | [] => d' = d
    | lines => csv_read (file_text (shard_path w n sid) d') = (metric_names s :: lines, None)
    end ∧
    ∀ sid', sid' ≠ sid → d' !! shard_path w n sid' = d !! shard_path w n sid'.
Proof.
  intros Hc Hd. exists (foldl (λ d l, append_rows (shard_path w n sid) (metric_names s) [l] d) d (omap line_of calls)).
  pose proof (lines_writable calls) as Hw. split; [|split].
  - clear Hd Hw. revert d. induction Hc as [|c calls Hc _ IH]; intros d; [done|]. cbn [go_fold omap list_omap].
    rewrite handle_line by done. cbn [mbind go_bind]. rewrite IH. by destruct (line_of c).
  - destruct (omap line_of calls) as [|l ls] eqn:El; [done|]. rewrite <-El in *.
    assert (holds (shard_path w n sid) (metric_names s) (omap line_of calls)
      (foldl (λ d l, append_rows (shard_path w n sid) (metric_names s) [l] d) d (omap line_of calls))) as Hh.
    { assert (omap line_of calls ≠ []) as Hne by (by rewrite El). clear El Hw Hc. revert Hne.
      induction (omap line_of calls) as [|x xs IH] using rev_ind; [done|]. intros _. rewrite foldl_app. cbn [foldl].
      apply append_rows_holds. destruct xs as [|y ys]; [left|right; by apply IH]. cbn. unfold file_text. by rewrite Hd. }
    apply holds_reads; [done|]. destruct metric_header as [Hl Hcr]. apply (writable_table 9); [done..|].
    eapply Forall_impl; [exact Hw|]. by intros r (? & _ & _ & ?).
  - intros sid' Hs. generalize (omap line_of calls). intros ls. clear -Hs. revert d. induction ls as [|l ls IH]; intros d; [done|].
    cbn [foldl]. rewrite IH, append_rows_other; [done|]. by intros ->%shard_path_inj.
Qed.
End shard_file.

(** ** Examples *)
Module OutputExample.
Import ConcreteLibs ConcreteCore ChainExample MeasureExample RelayExample.
#[local] Existing Instance default_params.
#[local] Existing Instance OverheadExample.req_codec.

Definition w : string := "expTest/result/".
Definition names : list string := ["TPS_Relay"; "TCL_Relay"; "CrossTxRate_Relay"; "TxNumberCount_Relay"; "Tx_Details"].

Lemma close_files_witness :
  ∃ d' out, output_all w map_to_list 7 (new_measures names) ∅ = Ok (d', out) ∧ length out = 5%nat ∧
    Forall (file_after w map_to_list d' (λ _, [])) (new_measures names).
Proof.
  destruct (close_files w map_to_list 7 (new_measures names) (λ _, []) ∅) as (d' & out & E & Hl & Hf & _).
  - apply new_measures_wf.
  - apply (bool_decide_eq_true_1 (NoDup _)). vm_compute. reflexivity.
  - apply Forall_forall. intros mm _ h rs _. split; [|constructor]. left. split; [|done]. unfold file_text. by rewrite lookup_empty.
  - exists d', out. split_and!; [exact E|exact Hl|exact Hf].
Defined.

Lemma count_files_witness :
  ∃ t d', go_fold (λ t b, update_txnum ByRelay b t) NewTestTxNumCount (rev reports) = Ok t ∧
    writeToCSV w map_to_list (TxNumberCount ByRelay t) ∅ = Ok d' ∧
    csv_read (file_text "expTest/result/supervisor_measureOutput/Tx_number.csv" d') =
      ([["EpochID"; "Total tx # in this epoch"; "Normal tx # in this epoch"; "Relay1 tx # in this epoch"; "Relay2 tx # in this epoch"];
        ["0"; half_str 3; "1"; "1"; "0"]; ["1"; half_str 0; "0"; "0"; "0"]; ["2"; half_str 1; "0"; "0"; "1"]], None).
Proof.
  destruct (count_files w map_to_list ByRelay reports (rev reports) ∅ reports_measurable) as (t & r & d1 & d2 & Et & _ & Ed & _ & Er & _).
  - symmetry. apply Permutation_rev.
  - apply lookup_empty.
  - apply lookup_empty.
  - exists t, d1. split; [exact Et|]. split; [exact Ed|]. etransitivity; [exact Er|]. vm_compute. reflexivity.
Defined.

Lemma metrics_file_witness :
  ∃ (p : PbftConsensusNode BlockChain) cmsg line d',
    handle_io id w (LongNames ByRelay) ByRelay ∅ (p, 20, cmsg) = Ok d' ∧
    csv_read (file_text (shard_path w 4 3) d') = ([metric_names (LongNames ByRelay); line], None).
Proof.
  destruct (genesis_of cfg) as (bc & Hn & Hck & Hc & Hp & Hm & _).
  destruct (big_block bc Hck Hc Hp Hm) as (b & l1 & bc1 & _ & Hb & Ha & Hm1).
  set (r := mkRequest BlockRequest (Encode b) 10). set (cmsg := mkCommit "dg" 1 (mkNode 0 3 "")).
  set (p := (NewPbftNode 3 0 cfg ∅ 0 0 bc) <| requestPool := {["dg" := r]} |>).
  destruct (big_placed bc1 Hm1) as (Hpl & HsA & HsC).
  destruct (leader_relays p bc bc1 0 20 r b) as (bc' & relays & info & E & Hr & _);
    try done; rewrite ?Hb; try done.
  { apply must_decode_encode. }
  { apply Forall_singleton. split; [done|]. by intros Hx. }
  assert (HandleinCommit p 20 cmsg = Ok (bc', relays ++ [(ip_of p SupervisorShard 0, MBlockInfo info)], true)) as Eh.
  { cbn. unfold raw_HandleinCommit. cbn [requestPool p upd CDigest cmsg]. rewrite lookup_singleton_eq. change (App p) with bc. by rewrite E. }
  assert (handled 4 3 (p, 20, cmsg)) as Hh.
  { split_and!; [done|done|by eexists|]. intros q. cbn. rewrite lookup_singleton_eq. intros [= <-]. eexists. apply must_decode_encode. }
  destruct (metrics_file id w (LongNames ByRelay) ByRelay 4 3 [(p, 20, cmsg)] ∅) as (d' & Ed & Er & _).
  - by apply Forall_singleton.
  - apply lookup_empty.
  - assert (∃ line, line_of id ByRelay (p, 20, cmsg) = Some line) as [line El].
    { unfold line_of. cbn [fst snd]. rewrite Eh. cbn -[report_of DecodeB]. rewrite lookup_singleton_eq. cbn -[report_of DecodeB].
      assert (∃ i, report_of (relays ++ [(ip_of p SupervisorShard 0, MBlockInfo info)]) = Some i) as [i ->].
      { rewrite Hr. unfold report_of. rewrite omap_app. by eexists. }
      cbn -[DecodeB]. change (DecodeB _) with (MustDecode (A := Block) (Encode b)). rewrite (must_decode_encode b). by eexists. }
    exists p, cmsg, line, d'. cbn [go_fold] in Ed. cbn [omap list_omap] in Er. rewrite El in Er. split; [|exact Er].
    destruct (handle_io id w (LongNames ByRelay) ByRelay ∅ (p, 20, cmsg)) as [d1|] eqn:E1; [|discriminate Ed].
    cbn in Ed. by injection Ed as <-.
Defined.
End OutputExample.
