(* ===== verification/Shutdown.v ===== *)
(** * The end of a run ([Supervisor.SupervisorTxHandling])

    The supervisor's main goroutine lets its committee send everything, waits until the stop
    signal has seen enough empty blocks, sends a stop message to every node, and writes the
    measures one after the other.  Meanwhile messages are handled as they come.  The goroutine is a machine whose
    steps interleave with the messages; [SWork] is a step of the committee's sending loop, which
    may reset the stop signal but does not change it otherwise. *)
From Stdlib Require Import SpecFloat.
From S2P Require Import Prelude Utils Libs Core Messages Storage Chain MerkleProof Overhead Pbft Supervisor.
From S2P Require Import Measure SupervisorProcess Csv Output.

#[export] Instance StopSignal_eq : EqDecision StopSignal.
Proof. solve_decision. Defined.

(** Where [SupervisorTxHandling] is: in [MsgSendingControl], before a look at [GapEnough], after the
    stop messages with [k] measures written, or at its end. *)
Inductive sup_phase := SSending | SWaiting | SStopping (k : nat) | SClosed.
#[export] Instance sup_phase_eq : EqDecision sup_phase.
Proof. solve_decision. Defined.

Section shutdown.
Context {X : Type} `{!CommitteeModule X}.
Context (table : gmap Z (gmap Z string)) (pcc : ChainConfig) (DataWrite_path : string).
Context (order : TestTxDetail → list (string * txMetricDetailTime)).

Record sup := mkSup {
  sup_state : SupervisorState X;
  sup_at : sup_phase;
  sup_stops : list string;
  sup_disk : gmap string string;
}.

Inductive sup_event :=
| SWork (x : X)
| SSent
| SMsg (clock : nat → Time) (m : Msg)
| SPoll
| SWrite (now : Time).

(** A step of the committee by itself. *)
Definition work_ok (x x' : X) : bool :=
  bool_decide (Ss_of x' = Ss_of x ∨ Ss_of x' = StopGap_Reset (Ss_of x)).

(** An event that is not enabled changes nothing.  [SWrite] is one iteration of the loop of
    [CloseSupervisor], which takes no lock: messages are handled between its iterations, and on open
    connections after it, until the process ends. *)
Definition sup_step (e : sup_event) (s : sup) : go (sup * list packet) :=
  match e, sup_at s with
  | SWork x, SSending =>
      if work_ok (comMod (sup_state s)) x
      then Ok (mkSup (mkSupervisor x (testMeasureMods (sup_state s))) SSending (sup_stops s) (sup_disk s), [])
      else Ok (s, [])
  | SSent, SSending => Ok (mkSup (sup_state s) SWaiting (sup_stops s) (sup_disk s), [])
  | SPoll, SWaiting =>
      if GapEnough (Ss_of (comMod (sup_state s)))
      then Ok (mkSup (sup_state s) (SStopping 0) (sup_stops s ++ stop_packets table pcc) (sup_disk s),
               (λ ip, (ip, MStop)) <$> stop_packets table pcc)
      else Ok (s, [])
  | SWrite now, SStopping k =>
      match testMeasureMods (sup_state s) !! k with
      | Some mm =>
          d ← writeToCSV DataWrite_path order mm (sup_disk s);
          _ ← OutputRecord now mm;
          Ok (mkSup (sup_state s) (SStopping (S k)) (sup_stops s) d, [])
      | None => Ok (mkSup (sup_state s) SClosed (sup_stops s) (sup_disk s), [])
      end
  | SMsg clock m, _ =>
      r ← supervisor_handleMessage clock m (sup_state s);
      Ok (mkSup r.1 (sup_at s) (sup_stops s) (sup_disk s), r.2)
  | _, _ => Ok (s, [])
  end.

Definition sup_run (es : list sup_event) (s : sup) : go sup := go_fold (λ s e, r ← sup_step e s; Ok r.1) s es.

Definition sup_start (com : X) (names : list string) (d : gmap string string) : sup :=
  mkSup (NewSupervisor com names) SSending [] d.
End shutdown.
Arguments sup X : clear implicits.
Arguments sup_event X : clear implicits.
