(* ===== verification/ShutdownFacts.v ===== *)
(** * Properties of the end of a run

    Nodes are stopped once, and only after [3 * ShardNums] empty blocks in a row have been reported;
    each file holds exactly what was reported before it was written. *)
From Stdlib Require Import SpecFloat.
From S2P Require Import Prelude Utils Libs Core Messages Storage Chain MerkleProof Overhead Pbft Supervisor SupervisorFacts.
From S2P Require Import Partition Contribution Committee Broker PLouvain PLouvainCommittee EpochControl OverheadCommittee.
From S2P Require Import Measure MeasureFacts SupervisorProcess SupervisorProcessFacts Csv Output OutputFacts Shutdown.

(** Updates keep the name of a measure. *)
Lemma update_name b mm mm' : UpdateMeasureRecord b mm = Ok mm' → OutputMetricName mm' = OutputMetricName mm.
Proof.
  destruct mm as [m t|m t|m t|m t|t]; cbn [UpdateMeasureRecord AnyMeasure]; [intros (t' & _ & [= <-])%go_bind_inv; done..|].
  by intros [= <-].
Qed.

Lemma measured_name bs : ∀ mm mm', measured bs mm mm' → OutputMetricName mm' = OutputMetricName mm.
Proof.
  induction bs as [|b bs IH]; intros mm mm'; [by intros [= ->]|]. unfold measured. cbn [go_fold].
  intros (m1 & E & Hm)%go_bind_inv. rewrite (IH m1 mm' Hm). by apply (update_name b).
Qed.

Lemma measured_names bs ms ms' : Forall2 (measured bs) ms ms' → OutputMetricName <$> ms' = OutputMetricName <$> ms.
Proof. induction 1 as [|m m' ms ms' Hm _ IH]; [done|]. by rewrite !fmap_cons, (measured_name bs m m' Hm), IH. Qed.

Lemma measured_app bs bs' ms1 ms2 ms3 : Forall2 (measured bs) ms1 ms2 → Forall2 (measured bs') ms2 ms3 → Forall2 (measured (bs ++ bs')) ms1 ms3.
Proof.
  intros H12. revert ms3. induction H12 as [|m1 m2 ms1 ms2 E _ IH]; intros ms3 H23; inversion H23; subst; constructor; [|by apply IH].
  unfold measured in *. by rewrite go_fold_app, E.
Qed.

Lemma measured_refl ms : Forall2 (measured []) ms ms.
Proof. induction ms; by constructor. Qed.

Lemma Forall2_weaken_in {A B} (P Q : A → B → Prop) l k : Forall2 P l k → (∀ x y, x ∈ l → P x y → Q x y) → Forall2 Q l k.
Proof.
  induction 1 as [|x y l k Hxy _ IH]; intros HQ; constructor; [by apply HQ; [apply list_elem_of_here|]|].
  apply IH. intros x' y' Hin. apply HQ. by apply list_elem_of_further.
Qed.

Section shutdown.
Context {X : Type} `{!CommitteeModule X, !CommitteeLaws X}.
Context (table : gmap Z (gmap Z string)) (pcc : ChainConfig) (w : string).
Context (order : TestTxDetail → list (string * txMetricDetailTime)).
Context (names : list string) (d0 : gmap string string).

Abbreviation step := (sup_step table pcc w order).
Abbreviation run := (sup_run table pcc w order).

Definition reported (es : list (sup_event X)) : list BlockInfoMsg :=
  omap (λ e, match e with SMsg _ (MBlockInfo b) => Some b | _ => None end) es.

(** The last [k] reports are of empty blocks. *)
Definition ends_empty (k : Z) (rs : list BlockInfoMsg) : Prop :=
  ∃ pre suf, rs = pre ++ suf ∧ len suf = k ∧ Forall (λ b, BlockBodyLength b = 0) suf.

(** Reports of blocks with transactions have an epoch. *)
Definition event_ok (e : sup_event X) : Prop :=
  match e with SMsg _ (MBlockInfo b) => live b = true → 0 ≤ Epoch b | _ => True end.

(** What the committee does with a message. *)
Definition com_handles (clock : nat → Time) (m : Msg) (x : X) : go (X * list packet) :=
  match m with
  | MBlockInfo b => com_HandleBlockInfo clock b (on_Ss (λ ss, observe_block ss b) x)
  | _ => com_HandleOtherMessage clock m x
  end.

(** The measures and the stop signal have seen the reports. *)
Record counting (es : list (sup_event X)) (s : sup X) : Prop := {
  co_wf : Forall measure_wf (testMeasureMods (sup_state s));
  co_measured : Forall2 (measured (reported es)) (new_measures names) (testMeasureMods (sup_state s));
  co_threshold : stopThreshold (Ss_of (comMod (sup_state s))) = 3 * ShardNums pcc;
  co_gap : ends_empty (stopGap (Ss_of (comMod (sup_state s)))) (reported es);
}.

(** A measure was written after the events [pm.1], at which it was [pm.2]: its file is read as the
    header and the rows of that. *)
Record snapshot (es1 es : list (sup_event X)) (d : gmap string string) (m0 : measure_module)
    (pm : list (sup_event X) * measure_module) : Prop := {
  sn_after : es1 `prefix_of` pm.1;
  sn_before : pm.1 `prefix_of` es;
  sn_measured : measured (reported pm.1) m0 pm.2;
  sn_file : file_after w order d (λ _, []) pm.2;
}.

Definition files_written (s : sup X) : nat :=
  match sup_at s with SStopping k => k | SClosed => length (new_measures names) | _ => 0%nat end.

(** After the stop messages. *)
Definition stopped (es : list (sup_event X)) (s : sup X) : Prop :=
  sup_stops s = stop_packets table pcc ∧
  ∃ es1 snaps, es1 `prefix_of` es ∧ ends_empty (3 * ShardNums pcc) (reported es1) ∧
    Forall2 (snapshot es1 es (sup_disk s)) (take (files_written s) (new_measures names)) snaps ∧
    ∀ path, path ∉ measure_path w <$> take (files_written s) (new_measures names) → sup_disk s !! path = d0 !! path.

Definition phase_ok (es : list (sup_event X)) (s : sup X) : Prop :=
  match sup_at s with
  | SSending | SWaiting => sup_stops s = [] ∧ sup_disk s = d0
  | SStopping _ | SClosed => stopped es s
  end.

Lemma reported_app es es' : reported (es ++ es') = reported es ++ reported es'.
Proof. apply omap_app. Qed.

Lemma ends_report b ss rs : ends_empty (stopGap ss) rs → ends_empty (stopGap (observe_block ss b)) (rs ++ [b]).
Proof.
  intros (pre & suf & -> & Hl & He). unfold observe_block. destruct (Z.eqb_spec (BlockBodyLength b) 0) as [E|E].
  - exists pre, (suf ++ [b]). rewrite (assoc_L (++)). split; [done|]. split; [|by apply Forall_app; split; [|apply Forall_singleton]].
    rewrite len_app, Hl. cbn. unfold len. cbn. lia.
  - exists ((pre ++ suf) ++ [b]), []. by rewrite app_nil_r.
Qed.

(** A message is seen by the stop signal and the measures, unless the committee panics. *)
Lemma counting_msg es s clock m : counting es s → event_ok (SMsg clock m) →
  match supervisor_handleMessage clock m (sup_state s) with
  | Panic e => com_handles clock m (comMod (sup_state s)) = Panic e
  | Ok (d', _) => ∀ at_ stops disk, counting (es ++ [SMsg clock m]) (mkSup d' at_ stops disk)
  end.
Proof.
  intros [Hw Hm Ht Hg] He.
  assert (∀ m', reported [SMsg clock m'] = [] → supervisor_handleMessage clock m' (sup_state s) =
      (r ← com_HandleOtherMessage clock m' (comMod (sup_state s)); Ok (mkSupervisor r.1 (testMeasureMods (sup_state s)), r.2)) →
    com_handles clock m' (comMod (sup_state s)) = com_HandleOtherMessage clock m' (comMod (sup_state s)) →
    match supervisor_handleMessage clock m' (sup_state s) with
    | Panic e => com_handles clock m' (comMod (sup_state s)) = Panic e
    | Ok (d', _) => ∀ at_ stops disk, counting (es ++ [SMsg clock m']) (mkSup d' at_ stops disk)
    end) as Hother.
  { intros m' Hr -> ->. destruct (com_HandleOtherMessage clock m' _) as [[x out]|] eqn:E; cbn [mbind go_bind]; [|done].
    intros at_ stops disk. apply ss_other in E. split; cbn [sup_state testMeasureMods comMod fst]; rewrite ?reported_app, ?Hr, ?app_nil_r, ?E; done. }
  destruct m; try by apply Hother.
  match goal with |- context [MBlockInfo ?b] => rename b into bim end.
  cbn [supervisor_handleMessage com_handles event_ok] in *. unfold handleBlockInfos.
  destruct (com_HandleBlockInfo _ _ _) as [[x out]|] eqn:E; cbn [mbind go_bind]; [|done]. apply ss_report in E. rewrite ss_on in E.
  destruct (update_measures_ok bim _ Hw He) as (ms & -> & Hw' & HF). cbn [mbind go_bind]. intros at_ stops disk.
  split; cbn [sup_state testMeasureMods comMod fst]; [done| | |].
  - rewrite reported_app. eapply measured_app; [exact Hm|]. eapply Forall2_impl; [exact HF|].
    intros m1 m2 E2. change (measured [bim] m1 m2). unfold measured. cbn [go_fold]. by rewrite E2.
  - rewrite E, <-Ht. unfold observe_block. by destruct (_ =? _).
  - rewrite E, reported_app. by apply ends_report.
Qed.

Lemma counting_same es e s s' : counting es s → reported [e] = [] → sup_state s' = sup_state s → counting (es ++ [e]) s'.
Proof. intros [] Hr Hs. split; rewrite ?Hs, ?reported_app, ?Hr, ?app_nil_r; done. Qed.

(** What a look at the stop signal means. *)
Lemma gap_enough es s : 0 < ShardNums pcc → counting es s → GapEnough (Ss_of (comMod (sup_state s))) = true →
  ends_empty (3 * ShardNums pcc) (reported es).
Proof.
  intros Hp [_ _ Ht (pre & suf & Hr & Hl & He)] Hg. unfold GapEnough in Hg. rewrite Ht, <-Hl in Hg. apply Z.leb_le in Hg.
  set (k := Z.to_nat (len suf - 3 * ShardNums pcc)). exists (pre ++ take k suf), (drop k suf).
  rewrite <-app_assoc, take_drop. split; [done|]. split; [|by apply Forall_drop].
  unfold len in *. rewrite length_drop. unfold k. lia.
Qed.

Hypothesis shards : 0 < ShardNums pcc.
Hypothesis files_differ : NoDup (OutputMetricName <$> new_measures names).
Hypothesis no_files : Forall (λ mm, d0 !! measure_path w mm = None) (new_measures names).

(** Later events keep the snapshots. *)
Lemma stopped_later es e s s' : stopped es s → sup_at s' = sup_at s → sup_stops s' = sup_stops s → sup_disk s' = sup_disk s →
  stopped (es ++ [e]) s'.
Proof.
  intros (Hs & es1 & snaps & Hp & He & HF & Ho) Ea Es Ed. unfold stopped, files_written in *. rewrite Ea, Es, Ed. split; [done|].
  exists es1, snaps. split; [by apply prefix_app_r|]. split; [done|]. split; [|done]. eapply Forall2_impl; [exact HF|].
  intros m0 pm [n1 n2 n3 n4]. split; try done. by apply prefix_app_r.
Qed.

Lemma phase_later es e s s' : phase_ok es s → sup_at s' = sup_at s → sup_stops s' = sup_stops s → sup_disk s' = sup_disk s →
  phase_ok (es ++ [e]) s'.
Proof.
  unfold phase_ok. intros Hp Ea Es Ed. rewrite Ea. destruct (sup_at s) eqn:E; rewrite ?Es, ?Ed; try done;
    eapply stopped_later; try done; by rewrite Ea, E.
Qed.

(** Writing the next measure. *)
Lemma write_step now es s k mm : counting es s → sup_at s = SStopping k → stopped es s → testMeasureMods (sup_state s) !! k = Some mm →
  ∃ d r, writeToCSV w order mm (sup_disk s) = Ok d ∧ OutputRecord now mm = Ok r ∧
    stopped es (mkSup (sup_state s) (SStopping (S k)) (sup_stops s) d).
Proof.
  intros [Hw Hm _ _] Ea (Hs & es1 & snaps & Hp & He & HF & Ho) Hk. unfold files_written in HF, Ho. rewrite Ea in HF, Ho.
  destruct (Forall2_lookup_r _ _ _ _ _ Hm Hk) as (m0 & Hk0 & Hmm). pose proof (measured_name _ _ _ Hmm) as Hname.
  assert (measure_wf mm) as Hwf by (rewrite Forall_forall in Hw; by eapply Hw, list_elem_of_lookup_2).
  assert (measure_path w mm = measure_path w m0) as Hpath by (unfold measure_path; by rewrite Hname).
  assert (measure_path w mm ∉ measure_path w <$> take k (new_measures names)) as Hnew.
  { rewrite Hpath. pose proof (measure_paths_nodup w _ files_differ) as Hnd. intros Hin.
    apply list_elem_of_fmap in Hin as (m1 & E1 & Hin). apply list_elem_of_lookup in Hin as [i Hi].
    apply lookup_take_Some in Hi as [Hi Hlt].
    assert (i = k); [|lia]. eapply (NoDup_lookup (measure_path w <$> new_measures names) i k (measure_path w m0) Hnd);
      rewrite list_lookup_fmap, ?Hi, ?Hk0; cbn; by rewrite ?E1. }
  destruct (write_measure w order mm (λ _, []) (sup_disk s) Hwf) as (d & E & Hf & Hx).
  { intros h rs _. split; [left; split; [|done]|constructor]. unfold file_text. rewrite (Ho _ Hnew), Hpath.
    rewrite Forall_forall in no_files. by rewrite (no_files m0) by (by eapply list_elem_of_lookup_2). }
  destruct (output_total now mm Hwf) as [r Hr]. exists d, r. split; [done|]. split; [done|]. unfold stopped, files_written.
  cbn [sup_at sup_stops sup_disk]. split; [done|]. exists es1, (snaps ++ [(es, mm)]). rewrite (take_S_r _ _ _ Hk0). split; [done|]. split; [done|].
  split.
  - apply Forall2_app; [|apply Forall2_cons; split; [by split|constructor]]. eapply Forall2_weaken_in; [exact HF|].
    intros m1 [pre m2] Hin [n1 n2 n3 n4]. split; try done. cbn [fst snd] in *. destruct n4 as (h & rs & Ec & Er). exists h, rs. split; [done|].
    rewrite <-Er. unfold file_text. rewrite Hx; [done|]. intros E2. apply Hnew. rewrite <-E2. unfold measure_path. rewrite (measured_name _ _ _ n3).
    by apply (list_elem_of_fmap_2 (measure_path w)).
  - intros path. rewrite fmap_app, not_elem_of_app. intros [H1 H2]. rewrite Hx; [by apply Ho|]. rewrite Hpath. intros ->. apply H2. apply list_elem_of_here.
Qed.

Lemma step_phase es e s : counting es s → phase_ok es s → event_ok e →
  match step e s with
  | Panic er => ∃ clock m, e = SMsg clock m ∧ com_handles clock m (comMod (sup_state s)) = Panic er
  | Ok (s', _) => counting (es ++ [e]) s' ∧ phase_ok (es ++ [e]) s'
  end.
Proof.
  intros Hc Hp He.
  assert (reported [e] = [] → counting (es ++ [e]) s ∧ phase_ok (es ++ [e]) s) as Hidle.
  { intros Hr. split; [by apply counting_same with (s := s)|by apply (phase_later es e s)]. }
  destruct e as [x| |clock m| |now]; cbn [sup_step].
  - destruct (sup_at s) eqn:Ea; try by apply Hidle. destruct (work_ok _ x) eqn:Ew; [|by apply Hidle].
    split; [|by eapply phase_later; [exact Hp|..]; rewrite ?Ea].
    apply bool_decide_eq_true_1 in Ew. destruct Hc as [Hw Hm Ht Hg]. split; rewrite ?reported_app; cbn [sup_state comMod testMeasureMods];
      rewrite ?app_nil_r; [done|done| |]; destruct Ew as [->| ->]; try done. by exists (reported es), []; rewrite app_nil_r.
  - destruct (sup_at s) eqn:Ea; try by apply Hidle. unfold phase_ok in *. rewrite Ea in Hp. split; [by apply counting_same with (s := s)|done].
  - pose proof (counting_msg es s clock m Hc He) as Hm.
    destruct (supervisor_handleMessage clock m (sup_state s)) as [[d' out]|er]; cbn [mbind go_bind].
    + split; [apply Hm|]. by eapply phase_later.
    + by exists clock, m.
  - destruct (sup_at s) eqn:Ea; try by apply Hidle. destruct (GapEnough _) eqn:Eg; [|by apply Hidle].
    split; [by apply counting_same with (s := s)|]. unfold phase_ok in *. rewrite Ea in Hp. destruct Hp as [Hs Hd]. cbn. split; cbn; [by rewrite Hs|].
    exists es, []. split; [by apply prefix_app_r|]. split; [by apply gap_enough with (s := s)|]. split; [constructor|by rewrite Hd].
  - destruct (sup_at s) eqn:Ea; try by apply Hidle. unfold phase_ok in Hp. rewrite Ea in Hp.
    destruct (testMeasureMods (sup_state s) !! k) as [mm|] eqn:Ek.
    + destruct (write_step now es s k mm Hc Ea Hp Ek) as (d & r & -> & Er & Hs). cbn [mbind go_bind]. rewrite Er. cbn [mbind go_bind].
      split; [by apply counting_same with (s := s)|]. unfold phase_ok. cbn [sup_at]. by eapply stopped_later.
    + split; [by apply counting_same with (s := s)|]. unfold phase_ok. cbn [sup_at].
      apply lookup_ge_None in Ek. pose proof (Forall2_length _ _ _ (co_measured _ _ Hc)) as Hl.
      apply (stopped_later es _ (mkSup (sup_state s) SClosed (sup_stops s) (sup_disk s))); [|done..].
      unfold stopped, files_written in *. rewrite Ea in Hp. cbn [sup_at sup_stops sup_disk].
      rewrite (take_ge _ k) in Hp by lia. by rewrite (take_ge _ (length _)).
Qed.

End shutdown.

(** ** Witness: the default committee in one shard, with a report after the stop messages *)
Module ShutdownExample.
Import ConcreteLibs ConcreteCore MeasureExample.
#[local] Existing Instance default_params.

Definition pcc1 : ChainConfig := mkChainConfig 0 0 0 4 1 2000 5000 300 2000.
Definition com : PLouvainCommittee := NewPLouvainCommitteeModule ∅ (NewStopSignal 3) 10 5 0.
Definition table1 : gmap Z (gmap Z string) := {[0 := list_to_map [(0, "n0"); (1, "n1"); (2, "n2"); (3, "n3")]]}.
Definition msg (b : BlockInfoMsg) : sup_event PLouvainCommittee := SMsg (λ _, 0) (MBlockInfo b).
Definition idle : BlockInfoMsg := rep 0 9 [] [] [].
Definition events : list (sup_event PLouvainCommittee) :=
  [msg (rep 0 1 [txC] [txA] []); SSent; SPoll; msg idle; msg idle; SPoll; msg idle; SPoll; msg (rep 1 3 [txC] [] []);
   SWrite 7; msg (rep 1 4 [txA] [] []); SWrite 8; SWrite 9; msg idle].
Definition two_names : list string := ["TxNumberCount_Relay"; "CrossTxRate_Relay"].

End ShutdownExample.
