(* ===== verification/Trace.v ===== *)
(** * The trace of an experiment ([experiment/trace.go])

    With the overhead experiment enabled, a process writes CSV files of events: a file per kind of
    record, created at the first record of its kind (a file that is already there is a panic) and
    flushed after every row.  The lock of the package makes the records of a process a sequence.
    Modelled as well: the records the program writes, and [auditOverheadState]
    ([consensus_shard/pbft_all/overhead.go]), which at the end writes the state of the accounts a
    node owns. *)
From Stdlib Require Import Ascii SpecFloat.
From S2P Require Import Prelude Utils Libs Core Messages Storage Chain MerkleProof Overhead Pbft Partition Csv.

(** The dynamic values that are printed. *)
Inductive value := VInt (z : Z) | VStr (s : string) | VBool (b : bool) | VFloat (x : float).

(** A record: the name of its file, the header and the values. *)
Record trace_call := mkCall { tc_name : string; tc_header : list string; tc_values : list value }.

(** [time.Time.UnixNano] *)
Definition UnixNano (t : Time) : Z := i64 (t - 62135596800 * 10 ^ 9).
(** [float64(d.Nanoseconds()) / 1e6] *)
Definition ms_float (d : Z) : float := fdiv (fl_of d) (fl_of 1000000).

(** ** The records of the program *)
Definition Event (now : Time) (kind : string) (shard node epoch count : Z) : trace_call :=
  mkCall "events" ["unix_ns"; "event"; "shard"; "node"; "epoch"; "accounts"]
    [VInt (UnixNano now); VStr kind; VInt shard; VInt node; VInt epoch; VInt count].

(** One tick of the goroutine that [Init] starts; the figures come from the runtime. *)
Definition resources (now : Time) (HeapAlloc Sys NumGoroutine : Z) : trace_call :=
  mkCall "resources" ["unix_ns"; "go_heap_bytes"; "go_sys_bytes"; "goroutines"]
    [VInt (UnixNano now); VInt HeapAlloc; VInt Sys; VInt NumGoroutine].

Definition recordTraffic (now : Time) (category addr : string) (n : Z) (success : bool) (since : Z) : trace_call :=
  mkCall "network" ["unix_ns"; "category"; "destination"; "bytes"; "write_ms"; "success"]
    [VInt (UnixNano now); VStr category; VStr addr; VInt n; VFloat (ms_float since); VBool success].

Definition plan_record (a : string) (source destination observed : Z) : trace_call :=
  mkCall "migration_plan" ["account"; "source"; "destination"; "observed_transactions"]
    [VStr a; VInt source; VInt destination; VInt observed].

Definition transaction_record (b : BlockInfoMsg) (tx : Transaction) : trace_call :=
  mkCall "transactions" ["hash"; "nonce"; "arrival_ns"; "commit_ns"; "latency_ms"; "shard"; "epoch"]
    [VStr (hex_EncodeToString (TxHash tx)); VInt (TxNonce tx); VInt (UnixNano (TxTime tx)); VInt (UnixNano (CommitTime b));
     VFloat (ms_float (time_Sub (CommitTime b) (TxTime tx))); VInt (SenderShardID b); VInt (Epoch b)].

Definition audit_record (shard node : Z) (a : string) (balance : Z) : trace_call :=
  mkCall "account_audit" ["account"; "balance"; "initial_balance"; "shard"; "node"]
    [VStr a; VStr (pretty balance); VStr (pretty Init_Balance); VInt shard; VInt node].

(** ** [Record] *)
Record trace := mkTrace {
  identity : string;
  files : gset string;
  disk : gmap string string;
}.
#[export] Instance trace_eta : Eta trace := λ t, mkTrace (identity t) (files t) (disk t).

(** [Init]: [files] is empty when the process starts. *)
Definition trace_Init (id : string) (d : gmap string string) : trace := mkTrace id ∅ d.

Section record.
Context `{Params}.
(** [filepath.Join(params.ExpDataRootDir, "overhead")], and [fmt.Sprint] of a [float64] (its shortest
    decimal form). *)
Context (dir : string) (Sprint_float : float → string).

Definition Sprint (v : value) : string :=
  match v with
  | VInt z => pretty z
  | VStr s => s
  | VBool b => if b then "true" else "false"
  | VFloat x => Sprint_float x
  end.

Definition trace_path (t : trace) (name : string) : string := dir +:+ "/" +:+ identity t +:+ "_" +:+ name +:+ ".csv".

(** The file of a name, created with its header at the first record. *)
Definition open_trace (name : string) (header : list string) (t : trace) : go trace :=
  if bool_decide (name ∈ files t) then Ok t
  else match disk t !! trace_path t name with
       | Some _ => Panic "file exists"
       | None => Ok (t <| files ::= union {[name]} |> <| disk ::= append_text (trace_path t name) (csv_write header) |>)
       end.

Definition trace_Record (c : trace_call) (t : trace) : go trace :=
  if negb Overhead_Enabled then Ok t
  else
    t ← open_trace (tc_name c) (tc_header c) t;
    Ok (t <| disk ::= append_text (trace_path t (tc_name c)) (csv_write (Sprint <$> tc_values c)) |>).

Definition trace_run (cs : list trace_call) (t : trace) : go trace := go_fold (λ t c, trace_Record c t) t cs.
End record.

(** ** The audit of the account states *)
Section audit.
Context `{Params, BitSetLib, CryptoLib, !Codec AccountState, !Codec Request, !Codec Transaction,
          !Codec BlockHeader, !Codec Block, BoltLib, TrieLib}.
Context (dir : string) (Sprint_float : float → string).
Context {X : Type} (p : PbftConsensusNode X) (bc : BlockChain).

(** An account of a row is kept when the node's shard owns it. *)
Definition add_owned (set : gset string) (a : string) : go (gset string) :=
  s ← Get_PartitionMap bc a;
  Ok (if s =? PShardID p then {[a]} ∪ set else set).

(** At most [n] records: the end of the file ends the loop, an error of the reader is a panic. *)
Fixpoint audit_rows (n : nat) (records : list (list string)) (err : option csv_error) (set : gset string) : go (gset string) :=
  match n with
  | O => Ok set
  | S n =>
      match records with
      | [] => match err with None => Ok set | Some _ => Panic "csv" end
      | row :: records =>
          match row with
          | _ :: _ :: s :: r :: _ => set ← go_fold add_owned set [s; r]; audit_rows n records err set
          | _ => Panic "slice bounds out of range"
          end
      end
  end.

(** The dataset: its first record is the header, which must be there. *)
Definition auditOverheadState (dataset : option (list ascii)) (t : trace) : go trace :=
  if negb Overhead_Enabled then Ok t
  else match dataset with
       | None => Panic "open"
       | Some text =>
           match csv_read text with
           | ([], _) => Panic "csv"
           | (_ :: records, err) =>
               set ← audit_rows (Z.to_nat TotalDataSize) records err ∅;
               let addresses := sort_slice String.ltb (elements set) in
               states ← FetchAccounts bc addresses;
               trace_run dir Sprint_float
                 (zip_with (λ a st, audit_record (PShardID p) (PNodeID p) a (Balance st)) addresses states) t
           end
       end.

(** [WaitToStop]: the audit, then the node stops (closing its connections and databases is I/O). *)
Definition WaitToStop (dataset : option (list ascii)) (t : trace) : go (PbftConsensusNode X * trace) :=
  t ← auditOverheadState dataset t;
  Ok (p <| stopSignal := true |>, t).
End audit.
