(* ===== verification/TraceFacts.v ===== *)
(** * Properties of the trace

    The files of a process are read back as their header and the records in the order they were
    made; a process never adds to a file of an earlier run; the audit lists exactly the accounts
    of the dataset that the shard owns, with their balances. *)
From Stdlib Require Import Ascii SpecFloat.
From S2P Require Import Prelude Utils Libs Core Messages Storage Chain MerkleProof Overhead Pbft Partition.
From S2P Require Import Supervisor Committee PLouvain PLouvainCommittee OverheadCommittee OverheadCommitteeFacts.
From S2P Require Import Measure Csv Output OutputFacts Trace.

Section trace.
Context `{Params}.
Context (dir : string) (Sprint_float : float → string).
Hypothesis enabled : Overhead_Enabled = true.

Abbreviation sprint := (Sprint Sprint_float).
Abbreviation record := (trace_Record dir Sprint_float).
Abbreviation run := (trace_run dir Sprint_float).

Definition path (id name : string) : string := dir +:+ "/" +:+ id +:+ "_" +:+ name +:+ ".csv".

Lemma path_inj id a b : path id a = path id b → a = b.
Proof. unfold path. intros E. do 4 apply str_app_inj_l in E. by apply str_app_inj_r in E. Qed.

(** The rows of a file, among the records made. *)
Definition rows_of (name : string) (cs : list trace_call) : list (list string) :=
  (λ c, sprint <$> tc_values c) <$> List.filter (λ c, bool_decide (tc_name c = name)) cs.

Lemma rows_of_app name cs c :
  rows_of name (cs ++ [c]) = rows_of name cs ++ (if bool_decide (tc_name c = name) then [sprint <$> tc_values c] else []).
Proof. unfold rows_of. rewrite List.filter_app, fmap_app. cbn. by destruct (bool_decide _). Qed.

Lemma rows_of_nil name cs : rows_of name cs = [] ↔ name ∉ tc_name <$> cs.
Proof.
  unfold rows_of. induction cs as [|c cs IH]; cbn; [split; [intros _ ?%elem_of_nil|]; done|].
  rewrite not_elem_of_cons. case_bool_decide; cbn; [naive_solver|]. rewrite IH. naive_solver.
Qed.

Lemma names_app name cs c : name ∈ tc_name <$> (cs ++ [c]) ↔ name ∈ tc_name <$> cs ∨ name = tc_name c.
Proof. by rewrite fmap_app, elem_of_app, (list_elem_of_singleton name (tc_name c)). Qed.

(** After the records [cs] of process [id], from disk [d]. *)
Record traced (id : string) (d : gmap string string) (hd : string → list string) (cs : list trace_call) (t : trace) : Prop := {
  tr_id : identity t = id;
  tr_files : ∀ name, name ∈ files t ↔ name ∈ tc_name <$> cs;
  tr_new : ∀ name, name ∉ tc_name <$> cs → disk t !! path id name = d !! path id name;
  tr_holds : ∀ name, name ∈ tc_name <$> cs → holds (path id name) (hd name) (rows_of name cs) (disk t);
  tr_other : ∀ f, (∀ name, f ≠ path id name) → disk t !! f = d !! f;
}.

Lemma traced_init id d hd : traced id d hd [] (trace_Init id d).
Proof. split; [done| |done|by intros name ?%elem_of_nil|done]. intros name. cbn. by rewrite elem_of_empty, elem_of_nil. Qed.

(** Adding a row to one file keeps the others. *)
Lemma append_other id name name' l d : name' ≠ name → append_text (path id name) l d !! path id name' = d !! path id name'.
Proof. intros Hn. apply append_text_other. by intros ?%path_inj. Qed.

Lemma holds_row id name h rows row d : holds (path id name) h rows d →
  holds (path id name) h (rows ++ [row]) (append_text (path id name) (csv_write row) d).
Proof.
  unfold holds. intros E. rewrite append_text_same, E, app_comm_cons, csv_text_app. f_equal. unfold csv_text. cbn. by rewrite app_nil_r.
Qed.

Lemma open_traced id d hd cs t name h : traced id d hd cs t → h = hd name → name ∉ tc_name <$> cs → d !! path id name = None →
  ∃ t', open_trace dir name h t = Ok t' ∧ identity t' = id ∧ files t' = {[name]} ∪ files t ∧
    holds (path id name) (hd name) [] (disk t') ∧ ∀ f, f ≠ path id name → disk t' !! f = disk t !! f.
Proof.
  intros [Hid Hf Hn Hh Ho] -> Hnew Hd. unfold open_trace. rewrite bool_decide_eq_false_2 by (by rewrite Hf).
  change (trace_path dir t name) with (path (identity t) name). rewrite Hid, Hn, Hd by done. eexists. split; [done|]. cbn.
  split_and!; [done|done| |].
  - unfold holds. rewrite append_text_same. unfold file_text. rewrite Hn, Hd by done. unfold csv_text. cbn. by rewrite app_nil_r.
  - intros f Hfn. by apply append_text_other.
Qed.

Lemma record_traced id d hd cs c t : traced id d hd cs t → tc_header c = hd (tc_name c) → d !! path id (tc_name c) = None →
  ∃ t', record c t = Ok t' ∧ traced id d hd (cs ++ [c]) t'.
Proof.
  intros Ht Hh Hd. unfold trace_Record. rewrite enabled. cbn [negb].
  assert (∃ t1, open_trace dir (tc_name c) (tc_header c) t = Ok t1 ∧ identity t1 = id ∧ files t1 = {[tc_name c]} ∪ files t ∧
    holds (path id (tc_name c)) (hd (tc_name c)) (rows_of (tc_name c) cs) (disk t1) ∧
    ∀ f, f ≠ path id (tc_name c) → disk t1 !! f = disk t !! f) as (t1 & -> & Hid & Hf & Hc & Ho).
  { destruct (decide (tc_name c ∈ tc_name <$> cs)) as [Hi|Hi].
    - exists t. unfold open_trace. rewrite bool_decide_eq_true_2 by (by apply (tr_files _ _ _ _ _ Ht)).
      split_and!; [done|apply Ht| |by apply (tr_holds _ _ _ _ _ Ht)|done].
      apply leibniz_equiv. intros x. rewrite elem_of_union, elem_of_singleton.
      split; [tauto|]. intros [->|?]; [by apply (tr_files _ _ _ _ _ Ht)|done].
    - rewrite (proj2 (rows_of_nil _ _) Hi). by eapply open_traced. }
  cbn [mbind go_bind]. eexists. split; [done|]. change (trace_path dir t1 (tc_name c)) with (path (identity t1) (tc_name c)).
  rewrite Hid. destruct Ht as [Hid0 Hf0 Hn0 Hh0 Ho0]. split; cbn [identity files disk upd].
  - done.
  - intros name. rewrite names_app, Hf, elem_of_union, elem_of_singleton, Hf0. tauto.
  - intros name. rewrite names_app. intros Hn. rewrite append_other by tauto.
    rewrite Ho by (intros ?%path_inj; tauto). apply Hn0. tauto.
  - intros name Hi. rewrite rows_of_app. case_bool_decide as En.
    + subst name. by apply holds_row.
    + rewrite app_nil_r. unfold holds, file_text. rewrite append_other, Ho by (done || by intros ?%path_inj).
      apply Hh0. rewrite names_app in Hi. destruct Hi; [done|congruence].
  - intros f Hp. cbn. rewrite append_text_other by apply Hp. rewrite Ho by apply Hp. by apply Ho0.
Qed.

Lemma run_traced id d hd cs : Forall (λ c, tc_header c = hd (tc_name c) ∧ d !! path id (tc_name c) = None) cs →
  ∃ t, run cs (trace_Init id d) = Ok t ∧ traced id d hd cs t.
Proof.
  induction cs as [|c cs IH] using rev_ind; intros Hc; [eexists; split; [done|apply traced_init]|].
  apply Forall_app in Hc as [Hcs [[Hh Hd] _]%Forall_cons]. destruct (IH Hcs) as (t & E & Ht).
  destruct (record_traced id d hd cs c t Ht Hh Hd) as (t' & E' & Ht'). exists t'. split; [|done].
  unfold trace_run in *. rewrite go_fold_app, E. cbn [mbind go_bind go_fold]. by rewrite E'.
Qed.

(** The files of the records are not on the disk. *)
Definition absent (id : string) (d : gmap string string) (cs : list trace_call) : bool :=
  forallb (λ c, bool_decide (d !! path id (tc_name c) = None)) cs.

Lemma absent_Forall id d cs : absent id d cs = true ↔ Forall (λ c, d !! path id (tc_name c) = None) cs.
Proof.
  unfold absent. induction cs as [|c cs IH]; [done|]. cbn. by rewrite andb_true_iff, IH, Forall_cons, bool_decide_eq_true.
Qed.

(** The first record of a file that is already there. *)
Lemma record_exists id d hd cs c t : traced id d hd cs t → tc_name c ∉ tc_name <$> cs → d !! path id (tc_name c) ≠ None →
  record c t = Panic "file exists".
Proof.
  intros Ht Hn Hd. unfold trace_Record, open_trace. rewrite enabled. cbn [negb].
  rewrite bool_decide_eq_false_2 by (by rewrite (tr_files _ _ _ _ _ Ht)).
  change (trace_path dir t (tc_name c)) with (path (identity t) (tc_name c)).
  rewrite (tr_id _ _ _ _ _ Ht), (tr_new _ _ _ _ _ Ht) by done. by destruct (d !! path id (tc_name c)).
Qed.

Lemma run_exists id d hd cs : Forall (λ c, tc_header c = hd (tc_name c)) cs → absent id d cs = false →
  run cs (trace_Init id d) = Panic "file exists".
Proof.
  induction cs as [|c cs IH] using rev_ind; [done|]. intros [Hcs Hc]%Forall_app Ef.
  unfold absent in *. rewrite forallb_app in Ef. unfold trace_run in *. rewrite go_fold_app.
  destruct (forallb _ cs) eqn:Ecs; [|by rewrite IH]. apply (absent_Forall id d cs) in Ecs.
  destruct (run_traced id d hd cs) as (t & E & Ht); [by apply Forall_and|].
  unfold trace_run in E. rewrite E. cbn [mbind go_bind go_fold]. cbn in Ef. rewrite andb_true_r in Ef. apply bool_decide_eq_false_1 in Ef.
  erewrite record_exists; [done|done| |done].
  intros (x & En & Hi)%list_elem_of_fmap. apply Ef. rewrite En. rewrite Forall_forall in Ecs. by apply Ecs.
Qed.

(** The records of a name have the same header, and as many values as columns. *)
Definition well_formed (hd : string → list string) (c : trace_call) : Prop :=
  tc_header c = hd (tc_name c) ∧ writable (length (hd (tc_name c))) (hd (tc_name c)) ∧
  writable (length (hd (tc_name c))) (sprint <$> tc_values c).

Lemma traced_reads id d hd cs t name : traced id d hd cs t → Forall (well_formed hd) cs → name ∈ tc_name <$> cs →
  csv_read (file_text (path id name) (disk t)) = (hd name :: rows_of name cs, None).
Proof.
  intros Ht Hc Hi. apply holds_reads; [by apply (tr_holds _ _ _ _ _ Ht)|]. rewrite Forall_forall in Hc. constructor.
  - apply list_elem_of_fmap in Hi as (c & -> & Hi). by apply Hc.
  - apply Forall_forall. intros r (c & -> & Hr)%list_elem_of_fmap. apply list_elem_of_In, filter_In in Hr as [Hr En].
    apply bool_decide_eq_true_1 in En as <-. apply Hc. by apply list_elem_of_In.
Qed.

Lemma run_files (id : string) (d : gmap string string) (hd : string → list string) (cs : list trace_call) :
  Forall (well_formed hd) cs →
  if absent id d cs
  then ∃ t, run cs (trace_Init id d) = Ok t ∧
    ∀ name, name ∈ tc_name <$> cs → csv_read (file_text (path id name) (disk t)) = (hd name :: rows_of name cs, None)
  else run cs (trace_Init id d) = Panic "file exists".
Proof.
  intros Hc. assert (Forall (λ c, tc_header c = hd (tc_name c)) cs) as Hh by (eapply Forall_impl; [exact Hc|by intros c [? _]]).
  destruct (absent id d cs) eqn:Ef; [|by eapply run_exists].
  destruct (run_traced id d hd cs) as (t & E & Ht); [apply Forall_and; split; [done|by apply absent_Forall]|].
  exists t. split; [done|]. intros name Hi. by apply traced_reads with (d := d).
Qed.

(** ** The records of the program *)
Hypothesis float_plain : ∀ x, no_cr (Sprint_float x).

(** The records made anywhere in the program, with strings that have no carriage return. *)
Inductive program_call : trace_call → Prop :=
| pc_event now kind shard node epoch count : no_cr kind → program_call (Event now kind shard node epoch count)
| pc_resources now heap sys n : program_call (resources now heap sys n)
| pc_traffic now category addr n ok since : no_cr category → no_cr addr → program_call (recordTraffic now category addr n ok since)
| pc_plan a src dst observed : no_cr a → program_call (plan_record a src dst observed)
| pc_transaction b tx : program_call (transaction_record b tx)
| pc_audit shard node a balance : no_cr a → program_call (audit_record shard node a balance).

Definition header_of (name : string) : list string :=
  if bool_decide (name = "events") then ["unix_ns"; "event"; "shard"; "node"; "epoch"; "accounts"]
  else if bool_decide (name = "resources") then ["unix_ns"; "go_heap_bytes"; "go_sys_bytes"; "goroutines"]
  else if bool_decide (name = "network") then ["unix_ns"; "category"; "destination"; "bytes"; "write_ms"; "success"]
  else if bool_decide (name = "migration_plan") then ["account"; "source"; "destination"; "observed_transactions"]
  else if bool_decide (name = "transactions") then ["hash"; "nonce"; "arrival_ns"; "commit_ns"; "latency_ms"; "shard"; "epoch"]
  else ["account"; "balance"; "initial_balance"; "shard"; "node"].

Lemma hex_char_not_cr n : 0 ≤ n < 16 → hex_char n ≠ cCR.
Proof.
  intros Hn E%(f_equal N_of_ascii). unfold hex_char in E. rewrite N_ascii_embedding in E by (destruct (n <? 10); lia).
  change (N_of_ascii cCR) with 13%N in E. destruct (n <? 10); lia.
Qed.

Lemma hex_no_cr b : no_cr (hex_EncodeToString b).
Proof.
  unfold no_cr, hex_EncodeToString. rewrite chars_unchars. induction (chars b) as [|c l IH]; [by intros ?%elem_of_nil|].
  pose proof (byte_of_range c). cbn [fmap list_fmap concat]. rewrite elem_of_app, !elem_of_cons, elem_of_nil.
  intros [[E|[E|[]]]|Hi]; [| |by apply IH]; symmetry in E; apply hex_char_not_cr in E; try done.
  - split; [apply Z.div_pos; lia|apply Z.div_lt_upper_bound; lia].
  - apply Z.mod_pos_bound. lia.
Qed.

Lemma audit_well_formed shard node a balance : no_cr a → well_formed header_of (audit_record shard node a balance).
Proof.
  intros Ha. split; [done|]. split; [apply writable_row; [done|repeat constructor; by apply no_cr_check]|].
  apply writable_row; [done|]. repeat (apply Forall_cons_2; [by (exact Ha || apply itoa_no_cr)|]). apply Forall_nil_2.
Qed.

Lemma program_well_formed c : program_call c → well_formed header_of c.
Proof.
  assert (∀ k r, length r = S (S k) → Forall no_cr r → writable (S (S k)) r) as Hw by apply writable_row.
  assert (∀ z : Z, no_cr (pretty z)) as Hz by apply itoa_no_cr. assert (∀ b, no_cr (hex_EncodeToString b)) as Hx by apply hex_no_cr.
  assert (∀ b : bool, no_cr (if b then "true" else "false")) as Hb by (intros []; by apply no_cr_check).
  assert (∀ h : list string, existsb (existsb (Ascii.eqb cCR)) (chars <$> h) = false → Forall no_cr h) as Hh.
  { induction h as [|f h IH]; cbn [fmap list_fmap existsb]; [done|]. intros [? ?]%orb_false_iff.
    constructor; [by apply no_cr_check|auto]. }
  destruct 1; (split; [done|]); (split; [apply Hw; [done|by apply Hh]|]); apply Hw; try done;
    repeat (apply Forall_cons_2; [cbn [Sprint]; auto|]); apply Forall_nil_2.
Qed.

(** C37: the files of a process.  Whatever records of the program a process makes, in whatever
    order, with strings that have no carriage return: if it starts on a disk without its files it
    never panics, and each of its files is read back as the header of its kind followed by the
    values of its records, in the order they were made; if the file of one of the records is
    already on the disk, left by an earlier run, the process panics at the first record of that
    kind. *)
Theorem trace_files (id : string) (d : gmap string string) (cs : list trace_call) : Forall program_call cs →
  if absent id d cs
  then ∃ t, run cs (trace_Init id d) = Ok t ∧
    ∀ name, name ∈ tc_name <$> cs → csv_read (file_text (path id name) (disk t)) = (header_of name :: rows_of name cs, None)
  else run cs (trace_Init id d) = Panic "file exists".
Proof. intros Hc. apply run_files. eapply Forall_impl; [exact Hc|]. apply program_well_formed. Qed.
End trace.

(** ** The audit *)
#[export] Instance ltb_weak : StrictWeak String.ltb.
Proof.
  split.
  - apply str_lt_irrefl.
  - intros x y Hxy. destruct (String.ltb y x) eqn:E; [|done]. by rewrite <-(str_lt_irrefl x), (str_lt_trans x y x).
  - intros x y z H1 H2. apply str_trichotomy in H1 as [->|H1]; [done|]. apply str_trichotomy in H2 as [->|H2];
      (destruct (String.ltb _ x) eqn:E; [|done]); rewrite <-(str_lt_irrefl x).
    + symmetry. by eapply str_lt_trans.
    + symmetry. eapply str_lt_trans; [exact H1|]. by eapply str_lt_trans.
Qed.

Section audit.
Context `{Params, BitSetLib, CryptoLib, !Codec AccountState, !Codec Request, !Codec Transaction,
          !Codec BlockHeader, !Codec Block, BoltLib, TrieLib}.
Context `{!CodecLaws AccountState, !TrieLaws}.
Context {X : Type} (p : PbftConsensusNode X) (bc : BlockChain).

(** The two accounts of a row, which has both. *)
Definition accounts (row : list string) : list string := take 2 (drop 2 row).
Definition row_ok (row : list string) : Prop := length (accounts row) = 2%nat ∧ Forall (placed bc) (accounts row).
Definition owned (a : string) : Prop := shard_of bc a = PShardID p.

Lemma add_owned_fold l : ∀ set, Forall (placed bc) l →
  ∃ set', go_fold (add_owned p bc) set l = Ok set' ∧ ∀ a, a ∈ set' ↔ a ∈ set ∨ (a ∈ l ∧ owned a).
Proof.
  induction l as [|x l IH]; intros set Hl; [exists set; split; [done|]; set_solver|].
  apply Forall_cons in Hl as [Hx Hl]. cbn [go_fold]. replace (add_owned p bc set x) with (Ok (if shard_of bc x =? PShardID p then {[x]} ∪ set else set : gset string)) by (unfold add_owned; by rewrite placed_shard). cbn [mbind go_bind].
  destruct (IH (if shard_of bc x =? PShardID p then {[x]} ∪ set else set) Hl) as (set' & E & Hs). exists set'. split; [done|].
  intros a. rewrite Hs, elem_of_cons. unfold owned. destruct (Z.eqb_spec (shard_of bc x) (PShardID p)); set_solver.
Qed.

Lemma audit_rows_spec n : ∀ records set, Forall row_ok records →
  ∃ set', audit_rows p bc n records None set = Ok set' ∧
    ∀ a, a ∈ set' ↔ a ∈ set ∨ (a ∈ concat (accounts <$> take n records) ∧ owned a).
Proof.
  induction n as [|n IH]; intros records set Hr; [exists set; split; [done|]; set_solver|].
  destruct records as [|row records]; [exists set; split; [done|]; set_solver|]. apply Forall_cons in Hr as [[Hl Hp] Hr].
  destruct row as [|c0 [|c1 [|s [|r row]]]]; try discriminate Hl. cbn [audit_rows].
  destruct (add_owned_fold [s; r] set Hp) as (s1 & -> & Hs1). cbn [mbind go_bind].
  destruct (IH records s1 Hr) as (s2 & E & Hs2). exists s2. split; [done|]. intros a. rewrite Hs2, Hs1.
  cbn [take fmap list_fmap concat]. rewrite elem_of_app. cbn. tauto.
Qed.

Lemma ltb_sorted_strict l : NoDup l → StronglySorted (λ a b, String.ltb b a = false) l → StronglySorted (λ a b, String.ltb a b = true) l.
Proof.
  intros Hn Hs. induction Hs as [|x l Hs IH Hx]; [constructor|]. apply NoDup_cons in Hn as [Hi Hn]. constructor; [auto|].
  rewrite Forall_forall in Hx |- *. intros y Hy. destruct (str_trichotomy y x (Hx y Hy)) as [->|]; done.
Qed.

(** The row of an account. *)
Definition audit_row (m : ledger) (a : string) : list string :=
  [a; pretty (bal m a); pretty Init_Balance; pretty (PShardID p); pretty (PNodeID p)].

Lemma zip_states {A B C} (f : A → B → C) (g : A → B) l : zip_with f l (g <$> l) = (λ a, f a (g a)) <$> l.
Proof. induction l as [|x l IH]; [done|]. cbn. by f_equal. Qed.

(** The accounts of a dataset have no carriage return. *)
Lemma dataset_no_cr k header records n a : Forall (writable k) (header :: records) →
  a ∈ concat (accounts <$> take n records) → no_cr a.
Proof.
  intros Hw (l & Hl & Ha)%list_elem_of_In%in_concat. apply list_elem_of_In, list_elem_of_fmap in Hl as (row & -> & Hrow).
  apply Forall_cons in Hw as [_ Hw]. rewrite Forall_forall in Hw.
  destruct (Hw row) as (_ & _ & _ & Hcr); [by apply (subseteq_take n)|]. rewrite Forall_forall in Hcr. apply Hcr.
  unfold accounts in Ha. apply list_elem_of_In in Ha. apply (subseteq_drop 2), (subseteq_take 2). done.
Qed.

(** The audit.  On a node whose chain holds the ledger [m], with the experiment enabled, a
    well-formed dataset (a header, then rows with both accounts, all of which have a shard) and no
    audit file yet: the audit does not panic; there is a strictly sorted list of exactly the
    accounts that occur in the first [TotalDataSize] rows and belong to the node's shard; and the
    file is read back as its header and a row per account of the list with its balance in [m],
    the initial balance, the shard and the node (with no such account there is no file). *)
Theorem audit_spec (dir id : string) (Sprint_float : float → string) (m : ledger) (k : nat)
    (header : list string) (records : list (list string)) (d : gmap string string) :
  Overhead_Enabled = true → state_ok bc m →
  Forall (writable k) (header :: records) → Forall row_ok records → d !! path dir id "account_audit" = None →
  ∃ t addresses, auditOverheadState dir Sprint_float p bc (Some (csv_text (header :: records))) (trace_Init id d) = Ok t ∧
    StronglySorted (λ a b, String.ltb a b = true) addresses ∧
    (∀ a, a ∈ addresses ↔ a ∈ concat (accounts <$> take (Z.to_nat TotalDataSize) records) ∧ owned a) ∧
    match addresses with
    | [] => disk t = d
    | _ => csv_read (file_text (path dir id "account_audit") (disk t)) =
             (["account"; "balance"; "initial_balance"; "shard"; "node"] :: (audit_row m <$> addresses), None)
    end.
Proof.
  intros He Hm Hw Hr Hd. unfold auditOverheadState. rewrite He, (csv_roundtrip k) by done. cbn [negb].
  destruct (audit_rows_spec (Z.to_nat TotalDataSize) records ∅ Hr) as (set & -> & Hset). cbn [mbind go_bind].
  set (addresses := sort_slice String.ltb (elements set)). rewrite (fetch_accounts_spec bc m) by done. cbn [mbind go_bind].
  rewrite zip_states.
  assert (∀ a, a ∈ addresses ↔ a ∈ concat (accounts <$> take (Z.to_nat TotalDataSize) records) ∧ owned a) as Hin.
  { intros a. unfold addresses. rewrite sort_slice_perm, elem_of_elements, Hset. set_solver. }
  set (calls := (λ a, audit_record (PShardID p) (PNodeID p) a (Balance (acct m a 0))) <$> addresses).
  assert (Forall (well_formed Sprint_float header_of) calls) as Hc.
  { apply Forall_fmap, Forall_forall. intros a [Ha _]%Hin. apply audit_well_formed. by eapply dataset_no_cr. }
  pose proof (run_files dir Sprint_float He id d header_of calls Hc) as Hrun.
  assert (absent dir id d calls = true) as Ha.
  { apply absent_Forall, Forall_fmap, Forall_true. intros a. exact Hd. }
  rewrite Ha in Hrun. destruct Hrun as (t & E & Hf). exists t, addresses. split; [done|]. split_and!; [|done|].
  - apply ltb_sorted_strict; [|apply sort_slice_sorted, _]. unfold addresses. rewrite sort_slice_perm. apply NoDup_elements.
  - subst calls. destruct addresses as [|a l]; [by injection E as <-|].
    rewrite Hf by (cbn; by left). unfold rows_of. rewrite filter_all by (apply forallb_forall; intros c (b & <- & _)%in_map_iff; done).
    by rewrite <-list_fmap_compose.
Qed.
End audit.

(** The committee injects the accounts of a row in lower case, and the audit reads the account as
    the row spells it: an account spelled otherwise is reported with the initial balance, whatever
    the balance of the account the transactions used. *)
Theorem audit_case `{BitSetLib, CryptoLib, !Codec AccountState} {X} (p : PbftConsensusNode X) (m : ledger)
    c0 c1 a r v rest row : load_row (c0 :: c1 :: a :: r :: v :: rest) = inl row → m !! a = None →
  rowSender row = ToLower a ∧
  audit_row p m a = [a; pretty Init_Balance; pretty Init_Balance; pretty (PShardID p); pretty (PNodeID p)].
Proof.
  intros Hl Hm. split.
  - cbn in Hl. destruct (_ || _); [done|]. destruct (SetString10 v) as [z|]; [|done]. destruct (z <? 0); [done|].
    by injection Hl as <-.
  - unfold audit_row, bal, acct. by rewrite Hm.
Qed.

(** ** Examples *)
Module TraceExample.
Import ConcreteLibs ConcreteCore ChainExample.
#[local] Existing Instance OverheadExample.light_params.

Definition no_floats : float → string := λ _, "0.5".
Definition calls : list trace_call :=
  [Event 62135596800000000007 "migration_applied" 1 2 1 5; resources 62135596800000000008 100 200 3;
   Event 62135596800000000009 "workload_complete" 0 0 0 1].

Lemma trace_files_witness :
  ∃ t, trace_run "exp/overhead" no_floats calls (trace_Init "s1n2" ∅) = Ok t ∧
    csv_read (file_text "exp/overhead/s1n2_events.csv" (disk t)) =
      ([["unix_ns"; "event"; "shard"; "node"; "epoch"; "accounts"]; ["7"; "migration_applied"; "1"; "2"; "1"; "5"];
        ["9"; "workload_complete"; "0"; "0"; "0"; "1"]], None).
Proof.
  assert (∀ x, no_cr (no_floats x)) as Hfloat by (intros x; by apply no_cr_check).
  assert (Forall program_call calls) as Hc by (repeat constructor; by apply no_cr_check).
  destruct (@trace_files OverheadExample.light_params "exp/overhead" no_floats eq_refl Hfloat "s1n2" ∅ calls Hc) as (t & E & Hf).
  exists t. split; [exact E|]. etransitivity; [apply (Hf "events"); by left|]. vm_compute. reflexivity.
Defined.

(** Two rows; the second account of the first row belongs to shard 1, the others to shard 3. *)
Definition dataset : list (list string) :=
  [["h"; "0"; "00000007"; "00000001"; "5"]; ["h"; "1"; "00000003"; "00000007"; "6"]].
Definition dataset_names : list string := ["blockNumber"; "hash"; "from"; "to"; "value"].

Lemma dataset_placed (bc : BlockChain) : Chain.PartitionMap bc = ∅ → Forall (row_ok bc) dataset.
Proof.
  intros E. repeat constructor; cbn; (eapply placed_here; [exact E|vm_compute; reflexivity]).
Qed.

Lemma audit_spec_witness :
  ∃ bc t addresses, NewBlockChain cfg trie_NewDatabase (∅ : BoltDB) = Ok bc ∧
    auditOverheadState "exp/overhead" no_floats (NewPbftNode 3 0 cfg ∅ 0 0 ()) bc (Some (csv_text (dataset_names :: dataset)))
      (trace_Init "s3n0" ∅) = Ok t ∧
    (∀ a, a ∈ addresses ↔ a = "00000003" ∨ a = "00000007") ∧
    csv_read (file_text "exp/overhead/s3n0_account_audit.csv" (disk t)) =
      (["account"; "balance"; "initial_balance"; "shard"; "node"] ::
       ((λ a, [a; pretty Init_Balance; pretty Init_Balance; "3"; "0"]) <$> addresses), None).
Proof.
  destruct (genesis_of cfg) as (bc & Hn & Hck & Hc & Hp & Hm & _).
  assert (Forall (writable 5) (dataset_names :: dataset)) as Hw.
  { repeat (apply Forall_cons_2; [apply (writable_row 3); [done|repeat constructor; by apply no_cr_check]|]). apply Forall_nil_2. }
  destruct (audit_spec (NewPbftNode 3 0 cfg ∅ 0 0 ()) bc "exp/overhead" "s3n0" no_floats ∅ 5 dataset_names dataset ∅)
    as (t & l & E & _ & Hin & Hf); [done|apply Hck|done|by apply dataset_placed|apply lookup_empty|].
  assert (∀ a, a ∈ l ↔ a = "00000003" ∨ a = "00000007") as Hl.
  { intros a. rewrite Hin. change (a ∈ concat _) with (a ∈ ["00000007"; "00000001"; "00000003"; "00000007"]).
    rewrite !elem_of_cons, elem_of_nil. unfold owned.
    assert (∀ x s, Addr2Shard x = Ok s → shard_of bc x = u64 s) as Hsh.
    { intros x s Hx. unfold shard_of, Get_PartitionMap. by rewrite Hm, lookup_empty, Hx. }
    pose proof (Hsh "00000003" 3 eq_refl) as H3. pose proof (Hsh "00000007" 3 eq_refl) as H7.
    pose proof (Hsh "00000001" 1 eq_refl) as H1.
    split.
    - intros [[->|[->|[->|[->|[]]]]] Ho]; auto. rewrite H1 in Ho. discriminate Ho.
    - intros [->| ->]; rewrite ?H3, ?H7; auto. }
  exists bc, t, l. split; [exact Hn|]. split; [exact E|]. split; [exact Hl|].
  destruct l as [|x l]; [|exact Hf]. exfalso.
  by apply (not_elem_of_nil "00000003"), Hl; left.
Defined.
End TraceExample.
