(* ===== verification/System.v ===== *)
(** * The whole system ([build/build.go], [pbft_all/pbft.go], [messageHandle.go])

    The processes of all shards, started as [BuildNewPbftNode] starts them and composed with the
    network: a state is a process per node and the packets under way.  Every goroutine of every
    process takes its steps in any order with those of the others, and packets arrive in any
    order.  The model covers the running phase without view changes (the time-outs are long
    enough; [SystemView] adds them) and with full proposals, which is the method that [BuildNewPbftNode] configures: the
    relay modules. *)
From S2P Require Import Prelude Utils Libs Core Messages Storage Chain MerkleProof Overhead.
From S2P Require Import Pbft PbftFacts RelayModule RelayFacts SupervisorProcess Setup.

Section system.
Context `{Params, BitSetLib, CryptoLib, !Codec AccountState, !Codec Request, !Codec Transaction,
          !Codec BlockHeader, !Codec Block, BoltLib, TrieLib}.

(** A process: its node, whether a goroutine of [Propose] holds [sequenceLock] and has not yet
    sent its proposal, and how many such goroutines have sent theirs and still have to end. *)
Record Proc := mkProc {
  node : PbftConsensusNode BlockChain;
  holding : bool;
  ending : nat;
}.

Record System := mkSystem {
  procs : gmap (Z * Z) Proc;
  wire : list packet;
}.

(** ** Start *)

(** One process per node: [initConfig], [NewBlockChain] on the node's own databases and
    [NewPbftNode].  A node is named by its shard and its number in it. *)
Definition boot_node (table : gmap Z (gmap Z string)) (g : Globals) (nnm snm : Z)
    (dbs : Z * Z → TrieDB) (stores : Z * Z → BoltDB) (now : Time) (m : gmap (Z * Z) Proc) (n : Z * Z)
    : go (gmap (Z * Z) Proc) :=
  r ← initConfig table n.2 nnm n.1 snm g;
  bc ← NewBlockChain r.2 (dbs n) (stores n);
  Ok (<[n := mkProc (NewPbftNode n.1 n.2 r.2 (gIPmap_nodeTable r.1) now
                       (Number (Header (CurrentBlock bc))) bc) false 0]> m).

Definition boot (table : gmap Z (gmap Z string)) (g : Globals) (nnm snm : Z)
    (dbs : Z * Z → TrieDB) (stores : Z * Z → BoltDB) (now : Time) : go System :=
  m ← go_fold (boot_node table g nnm snm dbs stores now) ∅ (nodes_of nnm snm);
  Ok (mkSystem m []).

(** ** Steps

    [SResume]: a commit handler that waits for [askForLock] goes on. *)
Inductive sys_event :=
| SBegin (n : Z * Z)
| SSend (n : Z * Z) (now : Time)
| SEnd (n : Z * Z)
| SDeliver (n : Z * Z) (i : nat) (now : Time) (clock : nat → Time)
| SInject (n : Z * Z) (txs : list Transaction)
| SResume (n : Z * Z) (now : Time).

(** Process [n] becomes [q] and sends [out]. *)
Definition after (S : System) (n : Z * Z) (q : Proc) (out : list packet) : System :=
  mkSystem (<[n := q]> (procs S)) (wire S ++ out).

(** [None]: the event cannot happen now (there is no such process or packet, or it waits). *)
Definition sys_step (S : System) (e : sys_event) : go (option System) :=
  match e with
  | SBegin n =>
      match procs S !! n with
      | None => Ok None
      | Some q =>
          r ← Propose_begin (node q);
          Ok (r ≫= λ po, let '(p, out) := po in
              Some (after S n (mkProc p (holding q || (u64 (view p) =? PNodeID p)) (ending q)) out))
      end
  | SSend n now =>
      match procs S !! n with
      | None => Ok None
      | Some q =>
          if holding q then
            r ← Propose_send now (node q);
            Ok (r ≫= λ po, let '(p, out) := po in
                Some (after S n (mkProc p false (Datatypes.S (ending q))) out))
          else Ok None
      end
  | SEnd n =>
      match procs S !! n with
      | None => Ok None
      | Some q =>
          match ending q with
          | O => Ok None
          | Datatypes.S k =>
              r ← Propose_end (node q);
              Ok (r ≫= λ po, let '(p, out) := po in Some (after S n (mkProc p (holding q) k) out))
          end
      end
  | SDeliver n i now clock =>
      match procs S !! n, wire S !! i with
      | Some q, Some (a, m) =>
          if bool_decide (a = IPaddr (RunningNode (node q))) then
            r ← handleMessage (view (node q)) now clock m (node q);
            Ok (r ≫= λ po, let '(p, out) := po in
                Some (after (mkSystem (procs S) (delete i (wire S))) n
                        (mkProc p (holding q) (ending q)) out))
          else Ok None
      | _, _ => Ok None
      end
  | SInject n txs =>
      match procs S !! n with
      | None => Ok None
      | Some q => Ok (Some (mkSystem (procs S)
                              (wire S ++ [(IPaddr (RunningNode (node q)), MInject (mkInjectTxs txs n.1))])))
      end
  | SResume n now =>
      match procs S !! n with
      | None => Ok None
      | Some q =>
          r ← handleCommit_resume now (node q);
          Ok (r ≫= λ po, let '(p, out) := po in Some (after S n (mkProc p (holding q) (ending q)) out))
      end
  end.

(** A sequence of events, all of which can happen. *)
Fixpoint sys_run (S : System) (es : list sys_event) : go (option System) :=
  match es with
  | [] => Ok (Some S)
  | e :: es =>
      r ← sys_step S e;
      match r with
      | None => Ok None
      | Some S' => sys_run S' es
      end
  end.
End system.
