(* ===== verification/SystemSeq.v ===== *)
(** * The sequence numbers of the system

    Sequence numbers are [uint64] and grow by at most one with every event, so that none of them wraps
    in a run of fewer than [2 ^ 62] events: a bound on all sequence numbers that nodes hold and that
    messages carry, which every step raises by one. *)
From S2P Require Import Prelude Utils Libs Core Messages Storage Chain MerkleProof Overhead.
From S2P Require Import Pbft PbftFacts RelayModule RelayFacts SupervisorProcess Setup System.

Section seqs.
Context `{Params, BitSetLib, CryptoLib, !Codec AccountState, !Codec Request, !Codec Transaction,
          !Codec BlockHeader, !Codec Block, BoltLib, TrieLib}.
Abbreviation rnode := (PbftConsensusNode BlockChain).

(** The number of events of a run for which this file is meant. *)
Definition run_bound : Z := 2 ^ 62.

Definition seq_msg (k : Z) (m : Msg) : Prop :=
  match m with
  | MPrePrepare pp => 0 ≤ PPSeqID pp ≤ k
  | MPrepare pm => 0 ≤ PSeqID pm ≤ k
  | MCommit cm => 0 ≤ CSeqID cm ≤ k
  | MRequestOld rom => 0 ≤ ROSeqStartHeight rom ≤ k ∧ 0 ≤ ROSeqEndHeight rom ≤ k
  | MSendOld som => 0 ≤ SOSeqStartHeight som ≤ k ∧ 0 ≤ SOSeqEndHeight som ≤ k
  | MNewView nv => 0 ≤ NewSeqID nv ≤ k
  | _ => True
  end.
Definition seq_out (k : Z) (out : list packet) : Prop := Forall (λ pk : packet, seq_msg k pk.2) out.

Record seq_node (k : Z) (p : rnode) : Prop := {
  sq_id : 0 ≤ sequenceID p ≤ k;
  sq_blocked : match blockedCommit p with Some c => 0 ≤ CSeqID c ≤ k | None => True end;
}.

Definition seq_result (k : Z) (r : go (option (rnode * list packet))) : Prop :=
  ∀ p out, r = Ok (Some (p, out)) → seq_node k p ∧ seq_out k out.

Lemma seq_msg_mono k k' m : k ≤ k' → seq_msg k m → seq_msg k' m.
Proof. intros Hk. destruct m; cbn; lia. Qed.

Lemma seq_out_mono k k' out : k ≤ k' → seq_out k out → seq_out k' out.
Proof. intros Hk Ho. eapply Forall_impl; [exact Ho|]. intros pk. by apply seq_msg_mono. Qed.

Lemma seq_node_mono k k' p : k ≤ k' → seq_node k p → seq_node k' p.
Proof. intros Hk [s1 s2]. split; [lia|]. destruct (blockedCommit p); [lia|done]. Qed.

Lemma seq_send_all k (p : rnode) m : seq_msg k m → seq_out k (send_all p m).
Proof.
  intros Hm. apply Forall_app. split; [|by apply Forall_singleton]. apply Forall_fmap, list.Forall_forall. done.
Qed.

Lemma seq_broadcast k a ips m : seq_msg k m → seq_out k (Broadcast a ips m).
Proof. intros Hm. apply Forall_fmap, list.Forall_forall. done. Qed.

Lemma seq_nil k : seq_out k [].
Proof. constructor. Qed.

Ltac seq_done := first [apply seq_nil | by apply Forall_singleton | apply seq_send_all; cbn; lia | apply seq_broadcast; cbn; lia].

(** What the relay module sends has no sequence number that counts. *)
Lemma commit_block_seq k (p : rnode) bc epoch now r bc' out : commit_block p bc epoch now r = Ok (bc', out) → seq_out k out.
Proof.
  unfold commit_block. intros Hc. apply go_bind_inv in Hc as (blk & _ & Hc). apply go_bind_inv in Hc as (bc1 & _ & Hc).
  destruct (_ =? _); [|injection Hc as _ <-; apply seq_nil].
  apply go_bind_inv in Hc as (sb & _ & Hc). apply go_bind_inv in Hc as ([pool o1] & Hs & [= _ <-]).
  apply Forall_app. split; [|by apply Forall_singleton]. unfold RelayWithProofSend, RelayMsgSend in Hs.
  destruct (RelayWithMerkleProof =? 1), (RelayWithMerkleProof =? 0); cbn [negb] in Hs; try done;
    injection Hs as _ <-; apply Forall_fmap, list.Forall_forall; done.
Qed.

Context (k : Z) (Hk : 0 ≤ k < 2 ^ 63 - 1).

(** ** The steps of a node *)
Lemma seq_round_end now (p p' : rnode) j : seq_node j p → round_end now p = Ok p' → seq_node j p'.
Proof. intros [s1 s2] Hr. unfold round_end in Hr. handler; by split. Qed.

Lemma seq_ask now c (p : rnode) : 0 ≤ CSeqID c ≤ k → 0 ≤ sequenceID p ≤ k → blockedCommit p = None →
  seq_result (k + 1) (ask_old now c p).
Proof.
  intros Hc Hp Hb p' out (q & Hr & [= <- <-])%go_bind_inv. split.
  - eapply (seq_round_end _ _ _ (k + 1)); [|exact Hr]. split; cbn; [lia|by rewrite Hb].
  - apply Forall_singleton. cbn. rewrite u64_small by (unfold two64; lia). lia.
Qed.

Lemma seq_begin (p : rnode) : seq_node k p → seq_result (k + 1) (Propose_begin p).
Proof. intros [s1 s2] p' out Hs. unfold Propose_begin in Hs. handler; (split; [|seq_done]); apply (seq_node_mono k); try lia; by split. Qed.

Lemma seq_end (p : rnode) : seq_node k p → seq_result (k + 1) (Propose_end p).
Proof.
  intros [s1 s2] p' out [= <- <-]. split; [|seq_done]. apply (seq_node_mono k); [lia|]. destruct (_ =? 1); by split.
Qed.

Lemma seq_send now (p : rnode) : Overhead_Enabled = false → seq_node k p → seq_result (k + 1) (Propose_send now p).
Proof.
  intros Ho [s1 s2] p' out Hs. unfold Propose_send in Hs. cbn [HandleinPropose RawRelayPbftExtraHandleMod] in Hs.
  unfold raw_HandleinPropose, encodeProposal in Hs. rewrite Ho in Hs. cbn [andb] in Hs.
  apply go_bind_inv in Hs as ([[x o] r] & Hp & Hs). apply go_bind_inv in Hp as (g & _ & [= <- <- <-]).
  cbn [mbind go_bind] in Hs. injection Hs as <- <-. split; [apply (seq_node_mono k); [lia|by split]|].
  cbn [app]. apply Forall_app. split; [apply seq_broadcast; cbn; lia|apply Forall_singleton; cbn; lia].
Qed.

Lemma seq_resume now (p : rnode) : seq_node k p → seq_result (k + 1) (handleCommit_resume now p).
Proof.
  intros [s1 s2] p' out. unfold handleCommit_resume. destruct (blockedCommit p) as [c|]; [|done].
  destruct (askForLock p); [done|]. by apply seq_ask.
Qed.

Lemma seq_timer now (p : rnode) : seq_node k p → seq_result (k + 1) (view_change_check now p).
Proof.
  intros [s1 s2] p' out Hs. unfold view_change_check, viewChangePropose in Hs.
  handler; (split; [apply (seq_node_mono k); [lia|by split]|]); seq_done.
Qed.

(** ** The messages *)
Lemma seq_preprepare cv pp (p : rnode) : seq_node k p → 0 ≤ PPSeqID pp ≤ k → seq_result (k + 1) (handlePrePrepare cv pp p).
Proof.
  intros [s1 s2] Hm p' out Hs. unfold handlePrePrepare in Hs.
  handler; (split; [apply (seq_node_mono k); [lia|by split]|]); seq_done.
Qed.

Lemma seq_prepare cv pm (p : rnode) : seq_node k p → 0 ≤ PSeqID pm ≤ k → seq_result (k + 1) (handlePrepare cv pm p).
Proof.
  intros [s1 s2] Hm p' out Hs. unfold handlePrepare in Hs.
  handler; (split; [apply (seq_node_mono k); [lia|by split]|]); seq_done.
Qed.

Lemma seq_commit cv now cm (p : rnode) : seq_node k p → 0 ≤ CSeqID cm ≤ k → seq_result (k + 1) (handleCommit cv now cm p).
Proof.
  intros [s1 s2] Hm p' out. unfold handleCommit. destruct (waits _ _ _ _) eqn:Ew; [done|].
  assert (blockedCommit p = None) as Hb.
  { unfold waits, pbft_locked in Ew. by destruct (blockedCommit p). }
  destruct (stale _ _ _); [intros [= <- <-]; split; [apply (seq_node_mono k); [lia|by split]|apply seq_nil]|].
  assert (0 ≤ sequenceID (set2DMap false (CDigest cm) (CSenderNode cm) p) ≤ k ∧
    blockedCommit (set2DMap false (CDigest cm) (CSenderNode cm) p) = None) as [Hs1 Hb1] by done.
  revert Hs1 Hb1. generalize (set2DMap false (CDigest cm) (CSenderNode cm) p). clear s1 s2 Ew Hb p. intros p Hs Hb.
  destruct (_ && _); [|intros [= <- <-]; split; [split; [lia|by rewrite Hb]|apply seq_nil]].
  destruct (requestPool p !! CDigest cm).
  - intros ([[x o] f] & Hc & (p2 & Hr & [= <- <-])%go_bind_inv)%go_bind_inv. split.
    + eapply seq_round_end; [|exact Hr]. split; cbn; [|by rewrite Hb]. rewrite u64_small by (unfold two64; lia). lia.
    + cbn [HandleinCommit RawRelayPbftExtraHandleMod] in Hc. unfold raw_HandleinCommit in Hc.
      destruct (requestPool p !! _); [|injection Hc as _ <- _; apply seq_nil].
      apply go_bind_inv in Hc as ([bc o'] & Hc & [= _ <- _]). by eapply commit_block_seq.
  - destruct (askForLock _); [|by apply seq_ask].
    intros [= <- <-]. split; [split; cbn; lia|apply seq_nil].
Qed.

Lemma seq_learn b rs (p : rnode) : sequenceID (foldl (learn_old b) p rs) = sequenceID p ∧ blockedCommit (foldl (learn_old b) p rs) = blockedCommit p.
Proof. revert p. induction rs as [|ir rs IH]; intros p; [done|]. cbn [foldl]. by destruct (IH (learn_old b p ir)) as [-> ->]. Qed.

Lemma seq_send_old som (p : rnode) : seq_node k p → 0 ≤ SOSeqEndHeight som ≤ k → seq_result (k + 1) (handleSendOldSeq som p).
Proof.
  intros [s1 s2] Hm p' out. unfold handleSendOldSeq. intros ([[x o] f] & Ho & Hs)%go_bind_inv. cbv zeta in Hs.
  set (p1 := (foldl _ _ _) <| sequenceID := _ |>) in Hs.
  assert (seq_node (k + 1) p1) as Hp1.
  { split; cbn; [rewrite u64_small by (unfold two64; lia); lia|]. rewrite (proj2 (seq_learn _ _ _)). cbn.
    destruct (blockedCommit p); [lia|done]. }
  assert (o = []) as ->.
  { cbn [HandleforSequentialRequest RawRelayPbftExtraHandleMod] in Ho. unfold raw_HandleforSequentialRequest in Ho.
    destruct (negb _); [by injection Ho as _ <- _|]. by apply go_bind_inv in Ho as (bc & _ & [= _ <- _]). }
  revert Hp1 Hs. generalize p1. clear -Hk. intros p1 [t1 t2] Hs. handler; (split; [by split|]); seq_done.
Qed.

Lemma seq_message cv now clock m (p : rnode) : Overhead_Enabled = false → seq_node k p → seq_msg k m →
  seq_result (k + 1) (handleMessage cv now clock m p).
Proof.
  intros Ho Hp Hm. unfold handleMessage, handleOverhead. rewrite Ho. cbn [negb].
  assert (∀ m, seq_result (k + 1) (r ← HandleMessageOutsidePBFT p clock m; Ok (Some r))) as Hout.
  { intros m' p' out ([p2 o2] & Ht & [= <- <-])%go_bind_inv. pose proof (outside_frame _ _ _ _ _ Ht) as Hf.
    cbn [HandleMessageOutsidePBFT RawRelayOutsideModule] in Ht. assert (o2 = []) as ->.
    { unfold raw_HandleMessageOutsidePBFT in Ht. destruct m'; try (by injection Ht as _ <-). by apply go_bind_inv in Ht as (? & _ & [= _ <-]). }
    split; [|apply seq_nil]. rewrite Hf. destruct Hp as [s1 s2]. apply (seq_node_mono k); [lia|by split]. }
  destruct m; try apply Hout; cbn in Hm.
  - by apply seq_preprepare.
  - by apply seq_prepare.
  - by apply seq_commit.
  - intros p' out Hs. destruct Hp as [s1 s2]. unfold handleRequestOldSeq in Hs.
    handler; (split; [apply (seq_node_mono k); [lia|by split]|]); [apply seq_nil|]. apply Forall_singleton. cbn. lia.
  - apply seq_send_old; [done|lia].
  - intros p' out Hs. destruct Hp as [s1 s2]. unfold handleViewChangeMsg in Hs.
    handler; (split; [apply (seq_node_mono k); [lia|by split]|]); [|apply seq_nil].
    apply seq_send_all. cbn. rewrite i64_small by lia. lia.
  - intros p' out Hs. destruct Hp as [s1 s2]. unfold handleNewViewMsg in Hs.
    handler; (split; [|apply seq_nil]); split; cbn; try done; try lia; try (destruct (blockedCommit p); [lia|done]).
    rewrite u64_small by (unfold two64; lia). lia.
  - intros p' out [= <- <-]. split; [|apply seq_nil]. destruct Hp as [s1 s2]. apply (seq_node_mono k); [lia|by split].
Qed.
End seqs.

(** ** The system *)
Section system.
Context `{Params, BitSetLib, CryptoLib, !Codec AccountState, !Codec Request, !Codec Transaction,
          !Codec BlockHeader, !Codec Block, BoltLib, TrieLib}.

Record seq_sys (k : Z) (S : System) : Prop := {
  ss_nodes : ∀ n q, procs S !! n = Some q → seq_node k (node q);
  ss_wire : seq_out k (wire S);
}.

Lemma seq_sys_mono k k' S : k ≤ k' → seq_sys k S → seq_sys k' S.
Proof.
  intros Hk [s1 s2]. split; [|by apply (seq_out_mono k)]. intros n q Hq. by apply (seq_node_mono k), (s1 n).
Qed.

Lemma seq_after k S n p hd nd out : seq_sys k S → seq_node k p → seq_out k out → seq_sys k (after S n (mkProc p hd nd) out).
Proof.
  intros [s1 s2] Hp Ho. split; cbn [procs wire after].
  - intros n' q. rewrite lookup_insert. case_decide; [by intros [= <-]|apply s1].
  - by apply Forall_app.
Qed.

Lemma seq_delete k S i : seq_sys k S → seq_sys k (mkSystem (procs S) (delete i (wire S))).
Proof.
  intros [s1 s2]. split; [done|]. cbn [wire]. unfold seq_out in *. rewrite list.Forall_forall in *. intros pk Hin.
  apply s2. rewrite delete_take_drop in Hin. apply elem_of_app in Hin as [Hin|Hin];
    [by eapply subseteq_take|by eapply subseteq_drop].
Qed.

Context (k : Z) (Hk : 0 ≤ k < 2 ^ 63 - 1) (Ho : Overhead_Enabled = false).

(** The last part of a step of a node: its result becomes the state. *)
Lemma seq_finish (S S' : System) n hd nd (r : go (option (PbftConsensusNode BlockChain * list packet))) :
  seq_sys (k + 1) S → seq_result (k + 1) r →
  (r ≫= λ o, Ok (o ≫= λ po : PbftConsensusNode BlockChain * list packet, let '(p, out) := po in Some (after S n (mkProc p (hd p) nd) out))) = Ok (Some S') →
  seq_sys (k + 1) S'.
Proof.
  intros Hs Hr E. apply go_bind_inv in E as (o & -> & [= E]). apply bind_Some in E as ([p out] & -> & [= <-]).
  destruct (Hr p out eq_refl). by apply seq_after.
Qed.

Lemma seq_step S e S' : seq_sys k S → sys_step S e = Ok (Some S') → seq_sys (k + 1) S'.
Proof.
  intros Hs. assert (seq_sys (k + 1) S) as Hs1 by (apply (seq_sys_mono k); [lia|done]).
  destruct e as [n|n now|n|n i now clock|n txs|n now]; cbn [sys_step]; (destruct (procs S !! n) as [q|] eqn:Hq; [|done]);
    pose proof (ss_nodes _ _ Hs n q Hq) as Hp.
  - apply (seq_finish S S' n (λ p, holding q || (u64 (view p) =? PNodeID p)) (ending q)); [done|by apply seq_begin].
  - destruct (holding q); [|done]. apply (seq_finish S S' n (λ _, false)); [done|by apply seq_send].
  - destruct (ending q) as [|j]; [done|]. apply (seq_finish S S' n (λ _, holding q)); [done|by apply seq_end].
  - destruct (wire S !! i) as [[a m]|] eqn:Ew; [|done]. case_bool_decide; [|done].
    apply (seq_finish _ S' n (λ _, holding q)); [by apply seq_delete|]. apply seq_message; try done.
    pose proof (ss_wire _ _ Hs) as Hw. unfold seq_out in Hw. rewrite list.Forall_forall in Hw.
    apply (Hw (a, m)). by eapply list_elem_of_lookup_2.
  - intros [= <-]. destruct Hs1 as [s1 s2]. split; [done|]. apply Forall_app. split; [done|by apply Forall_singleton].
  - apply (seq_finish S S' n (λ _, holding q)); [done|by apply seq_resume].
Qed.
End system.
