(* ===== verification/SystemLog.v ===== *)
(** * The log of a shard

    The blocks that the leader of a shard has proposed, in order: a sequence of blocks each of
    which extends the one before it, the ledger that executing a prefix of it gives, and what it
    means for a node to have executed a prefix.  A block of the log, offered to such a node,
    extends its chain when it is the next one and changes nothing otherwise. *)
From S2P Require Import Prelude Utils Libs Core Messages Storage Chain MerkleProof Overhead.
From S2P Require Import Pbft PbftFacts RelayModule RelayFacts.

Section log.
Context `{Params, BitSetLib, CryptoLib, !Codec AccountState, !Codec Request, !Codec Transaction,
          !Codec BlockHeader, !Codec Block, BoltLib, TrieLib}.

(** The shard of an account on a node whose partition map is empty. *)
Definition place (m : gmap string Z) (a : Address) : go Z :=
  match m !! a with
  | None => s ← Addr2Shard a; Ok (u64 s)
  | Some s => Ok s
  end.
Definition home (a : Address) : Z := match place ∅ a with Ok s => s | Panic _ => 0 end.
Definition has_home (a : Address) : Prop := is_ok (place ∅ a) = true.
Definition tx_homes (tx : Transaction) : Prop := has_home (Sender tx) ∧ has_home (Recipient tx).

Lemma home_shard bc : PartitionMap bc = ∅ → shard_of bc = home.
Proof. intros Hm. unfold shard_of, Get_PartitionMap. rewrite Hm. reflexivity. Qed.

Lemma home_placed bc txs : PartitionMap bc = ∅ → Forall tx_homes txs → txs_placed bc txs.
Proof.
  intros Hm Hl. unfold txs_placed, placed, Get_PartitionMap. rewrite Hm. exact Hl.
Qed.

(** ** Logs *)
Definition genesis_header : BlockHeader := Header (NewGenisisBlock trie_NewDatabase).

Definition header_after (bs : list Block) : BlockHeader :=
  match last bs with Some b => Header b | None => genesis_header end.

Definition ledger_after (s : Z) (bs : list Block) : ledger :=
  foldl (λ m b, ledger_exec home s m (Body b)) ∅ bs.

(** The block [b] extends the log [bs] of shard [s]. *)
Record extends (s : Z) (bs : list Block) (b : Block) : Prop := {
  ex_number : Number (Header b) = u64 (Number (header_after bs) + 1);
  ex_parent : ParentBlockHash (Header b) = HeaderHash (header_after bs);
  ex_hash : Hash b = HeaderHash (Header b);
  ex_txroot : GetTxTreeRoot (Body b) = TxRoot (Header b);
  ex_root : ∃ db, triedb_ok db ∧ root_is db (StateRoot (Header b)) (ledger_after s (bs ++ [b]));
  ex_homes : Forall tx_homes (Body b);
}.

Inductive log_ok (s : Z) : list Block → Prop :=
| log_nil : log_ok s []
| log_snoc bs b : log_ok s bs → extends s bs b → log_ok s (bs ++ [b]).

Lemma log_take s bs j : log_ok s bs → log_ok s (take j bs).
Proof.
  induction 1 as [|bs b Hl IH Hb]; [rewrite take_nil; constructor|].
  destruct (decide (j ≤ length bs)%nat).
  - by rewrite take_app_le.
  - rewrite take_ge by (rewrite length_app; cbn; lia). by constructor.
Qed.

Lemma log_extends s bs j b : log_ok s bs → bs !! j = Some b → extends s (take j bs) b.
Proof.
  intros Hl Hj. pose proof (log_take s bs (S j) Hl) as Ht. rewrite (take_S_r _ _ _ Hj) in Ht.
  inversion Ht as [E|bs' b' _ Hb E]; [by destruct (take j bs)|].
  apply app_inj_tail in E as [-> ->]. done.
Qed.

Lemma header_snoc bs b : header_after (bs ++ [b]) = Header b.
Proof. unfold header_after. by rewrite last_snoc. Qed.

Lemma header_take_S (bs : list Block) j b : bs !! j = Some b → header_after (take (S j) bs) = Header b.
Proof. intros Hj. by rewrite (take_S_r _ _ _ Hj), header_snoc. Qed.

Lemma ledger_snoc s bs b : ledger_after s (bs ++ [b]) = ledger_exec home s (ledger_after s bs) (Body b).
Proof. unfold ledger_after. by rewrite foldl_app. Qed.

(** ** A node that has executed a prefix of the log *)
Record at_height (s : Z) (bs : list Block) (h : nat) (bc : BlockChain) : Prop := {
  ah_bound : (h ≤ length bs)%nat;
  ah_chain : chain_ok bc (ledger_after s (take h bs));
  ah_header : Header (CurrentBlock bc) = header_after (take h bs);
  ah_stored : ∀ j b, (j < h)%nat → bs !! j = Some b → GetBlock (Storage bc) (Hash b) = Ok (inr b);
  ah_shard : ShardID (Config bc) = s;
  ah_map : PartitionMap bc = ∅;
}.

Lemma at_height_app s bs b h bc : at_height s bs h bc → at_height s (bs ++ [b]) h bc.
Proof.
  intros [Hb Hc Hh Hs Hsh Hm]. split; try done; rewrite ?take_app_le by done; try done.
  - rewrite length_app. lia.
  - intros j b' Hj. rewrite lookup_app_l by lia. by apply Hs.
Qed.

(** The pool is not part of it. *)
Lemma at_height_pool s bs h bc pool : at_height s bs h bc → at_height s bs h (bc <| Txpool := pool |>).
Proof. intros [Hb [[]] Hh Hs Hsh Hm]. by do 2 (split; try done). Qed.

Context `{!BitSetLaws, !CryptoLaws, !CollisionFree, !CodecLaws AccountState, !CodecLaws Request,
          !CodecLaws BlockHeader, !CodecLaws Block, !BoltLaws, !TrieLaws}.

Lemma header_hash_inj h1 h2 : HeaderHash h1 = HeaderHash h2 → h1 = h2.
Proof. intros E%sha256_inj. by apply codec_inj in E. Qed.

(** All headers of a log are different: equal headers have equal parents, and the genesis block
    has none. *)
Lemma headers_inj s bs i j : log_ok s bs → (i ≤ length bs)%nat → (j ≤ length bs)%nat →
  header_after (take i bs) = header_after (take j bs) → i = j.
Proof.
  intros Hl. revert j.
  assert (∀ j, (S j ≤ length bs)%nat → ∃ b, bs !! j = Some b ∧ header_after (take (S j) bs) = Header b ∧
    ParentBlockHash (Header b) = HeaderHash (header_after (take j bs))) as Hsucc.
  { intros j Hj. destruct (lookup_lt_is_Some_2 bs j) as [b Hb]; [lia|]. exists b. split; [done|].
    split; [by apply header_take_S|]. apply (ex_parent s), log_extends; done. }
  assert (∀ j, (S j ≤ length bs)%nat → header_after (take (S j) bs) ≠ genesis_header) as Hgen.
  { intros j Hj E. destruct (Hsucc j Hj) as (b & _ & Hh & Hp). rewrite <-Hh, E in Hp.
    cbn in Hp. by eapply sha256_nonempty. }
  induction i as [|i IH]; intros [|j] Hi Hj E; [done|..].
  - by destruct (Hgen j Hj).
  - by destruct (Hgen i Hi).
  - destruct (Hsucc i Hi) as (b & _ & Hb & Hpb), (Hsucc j Hj) as (b' & _ & Hb' & Hpb').
    f_equal. apply IH; [lia|lia|]. apply header_hash_inj. rewrite <-Hpb, <-Hpb'. by rewrite <-Hb, <-Hb', E.
Qed.

Lemma log_inj s bs i j b b' : log_ok s bs → bs !! i = Some b → bs !! j = Some b' → Header b = Header b' → i = j.
Proof.
  intros Hl Hi Hj E. apply (f_equal pred) with (x := S i) (y := S j), (headers_inj s bs); [done|..].
  - by apply lookup_lt_Some in Hi.
  - by apply lookup_lt_Some in Hj.
  - by rewrite (header_take_S _ _ _ Hi), (header_take_S _ _ _ Hj).
Qed.

Lemma at_height_hash s bs h bc : at_height s bs h bc → Hash (CurrentBlock bc) = HeaderHash (header_after (take h bs)).
Proof. intros Ha. rewrite (ck_sealed _ _ (ah_chain _ _ _ _ Ha)). by rewrite (ah_header _ _ _ _ Ha). Qed.

(** Adding the next block of the log. *)
Lemma add_next s bs h bc b : log_ok s bs → at_height s bs h bc → bs !! h = Some b →
  accepts b bc = true ∧ IsValidBlock bc b = None ∧
  ∃ bc', AddBlock b bc = Ok bc' ∧ at_height s bs (S h) bc' ∧ CurrentBlock bc' = b ∧ Txpool bc' = Txpool bc.
Proof.
  intros Hl Ha Hb. destruct (log_extends s bs h b Hl Hb) as [Hn Hp Hh Ht (db & Hdb & Hr) Hpl].
  pose proof (at_height_hash _ _ _ _ Ha) as Hhash. pose proof Ha as [Hbd Hc Hhd Hst Hsh Hm].
  rewrite <-Hhd in Hn. rewrite <-Hhash in Hp.
  split; [unfold accepts; by rewrite Hn, Z.eqb_refl, Hp, bool_decide_eq_true_2|].
  split; [unfold IsValidBlock; by rewrite Hp, Ht, !bool_decide_eq_true_2|].
  pose proof (home_placed bc _ Hm Hpl) as Hpl'. rewrite ledger_snoc in Hr.
  destruct (add_block_accept bc _ b (ledger_exec home s (ledger_after s (take h bs)) (Body b)) Hc Hn Hp Hh)
    as (bc' & E & Hc' & Hcur & Htp & Hpm & Hcf & Ho).
  - intros [t Hnew]. eapply root_same; [exact Hdb|apply Hc|exact Hr|exact Hnew].
  - intros _. destruct (update_status_spec bc _ (Body b) (ck_state _ _ Hc) Hpl') as (db' & rt' & E & Hok' & Hr' & _).
    exists db', rt'. split; [done|]. split; [done|]. rewrite home_shard, Hsh in Hr' by done.
    by rewrite (root_unique db db' _ rt' _ Hdb Hok' Hr Hr').
  - exists bc'. split; [done|]. split; [|by rewrite Htp]. split.
    + by apply lookup_lt_Some in Hb.
    + by rewrite (take_S_r _ _ _ Hb), ledger_snoc.
    + by rewrite Hcur, (header_take_S _ _ _ Hb).
    + intros j b' Hj Hb'. destruct (decide (j = h)) as [->|Hne].
      * rewrite Hb in Hb'. injection Hb' as <-. destruct (ck_stored _ _ Hc') as (b1 & E1 & E2 & E3).
        assert (GetBlock (Storage bc') (Hash b) = Ok (inr b)) as Hgb; [|exact Hgb].
        unfold AddBlock in E. rewrite Hn, Z.eqb_refl, Hp, bool_decide_eq_true_2 in E by done. cbn [negb] in E.
        apply go_bind_inv in E as (db1 & _ & E). apply go_bind_inv in E as (st & Est & [= <-]).
        destruct (store_block_gets (Storage bc) b) as (st' & Est' & _ & Hg & _); [rewrite Hh; apply sha256_nonempty|].
        rewrite Est in Est'. injection Est' as <-. exact Hg.
      * rewrite Ho; [apply (Hst j); [lia|done]|]. intros E2. rewrite Hh in E2.
        rewrite (ex_hash _ _ _ (log_extends s bs j b' Hl Hb')) in E2. apply header_hash_inj in E2.
        apply Hne. by apply (log_inj s bs j h b' b).
    + by rewrite Hcf.
    + by rewrite Hpm.
Qed.

(** Any other block of the log is refused. *)
Lemma add_other s bs h bc j b : log_ok s bs → at_height s bs h bc → bs !! j = Some b → j ≠ h →
  accepts b bc = false ∧ AddBlock b bc = Ok bc.
Proof.
  intros Hl Ha Hb Hne.
  assert (ParentBlockHash (Header b) ≠ Hash (CurrentBlock bc)) as Hp.
  { rewrite (ex_parent _ _ _ (log_extends s bs j b Hl Hb)), (at_height_hash _ _ _ _ Ha).
    intros E%header_hash_inj. apply Hne, (headers_inj s bs); [done|..|done].
    - apply lookup_lt_Some in Hb. lia.
    - apply Ha. }
  split; [|apply add_block_guard; by right].
  unfold accepts. rewrite (bool_decide_eq_false_2 _ Hp). by destruct (_ =? _).
Qed.

(** Whatever block of the log a node adds, it stays on the log and never goes back. *)
Lemma add_log_block s bs h bc j b : log_ok s bs → at_height s bs h bc → bs !! j = Some b →
  ∃ bc' h', AddBlock b bc = Ok bc' ∧ at_height s bs h' bc' ∧ Txpool bc' = Txpool bc ∧ (h ≤ h')%nat.
Proof.
  intros Hl Ha Hb. destruct (decide (j = h)) as [->|Hne].
  - destruct (add_next s bs h bc b Hl Ha Hb) as (_ & _ & bc' & ? & ? & _ & ?). exists bc', (S h). auto.
  - destruct (add_other s bs h bc j b Hl Ha Hb Hne) as [_ ?]. exists bc, h. auto.
Qed.

(** The block that a node at the end of the log generates extends the log. *)
Lemma generate_extends s bs bc miner now : at_height s bs (length bs) bc → Forall tx_homes (TxQueue (Txpool bc)) →
  ∃ b bc', GenerateBlock bc miner now = Ok (b, bc') ∧ extends s bs b ∧
    at_height s bs (length bs) bc' ∧ Body b ++ TxQueue (Txpool bc') = TxQueue (Txpool bc).
Proof.
  intros Ha Hq. pose proof Ha as [Hbd Hc Hhd Hst Hsh Hm]. rewrite firstn_all in Hc, Hhd.
  destruct (generate_block_spec bc _ miner now (ck_state _ _ Hc) (home_placed _ _ Hm Hq)) as (db & rt & Hg & Hok & Hr & Hk).
  cbv zeta in Hg. eexists _, _. split; [exact Hg|].
  pose proof (pack_block_split bc) as Hsp.
  split; [|split; [|exact Hsp]].
  - split; cbn; try done.
    + by rewrite Hhd.
    + by rewrite (at_height_hash _ _ _ _ Ha), firstn_all.
    + exists db. split; [done|]. rewrite ledger_snoc. cbn. by rewrite home_shard, Hsh in Hr.
    + rewrite <-Hsp in Hq. by apply Forall_app in Hq as [? _].
  - split; try done; rewrite firstn_all; [|done].
    destruct Hc as [[_ Hroot] ? ? ?]. split; try done. split; [exact Hok|]. exact (keeps_root _ _ _ _ Hk Hroot).
Qed.

(** The chain of a new node is at height 0 of every log, whichever databases it has. *)
Lemma new_chain_height cc db st e bs : triedb_ok db → GetNewestBlockHash st = inl e →
  ∃ bc, NewBlockChain cc db st = Ok bc ∧ at_height (ShardID cc) bs 0 bc ∧ Txpool bc = NewTxPool ∧
    Number (Header (CurrentBlock bc)) = 0.
Proof.
  intros Hok He. destruct (new_chain_ok cc db st e Hok He) as (bc & E & Hc & Hcc & Hn & Hp & Hm & Hcur & Hdb).
  exists bc. split; [done|]. split; [|done]. split; try done; [lia|..].
  - rewrite Hcur. change (take 0 bs) with (@nil Block). unfold header_after, genesis_header. cbn.
    f_equal.
    destruct (trie_new_empty db db Hok) as (t1 & Ht1 & Hg1).
    destruct (trie_new_empty db trie_NewDatabase Hok) as (t2 & Ht2 & Hg2).
    rewrite <-(trie_open_root db _ t1 Hok (trie_hash_nonzero _) Ht1), <-(trie_open_root db _ t2 Hok (trie_hash_nonzero _) Ht2).
    apply trie_root_content. intros k. by rewrite Hg1, Hg2.
  - by intros j b Hj; lia.
  - by rewrite Hcc.
Qed.
End log.
