(* ===== verification/SystemNode.v ===== *)
(** * One node of the system

    The invariant of a node with respect to the log of its shard, what the messages under way may
    say, and that every handler keeps both and never panics. *)
From S2P Require Import Prelude Utils Libs Core Messages Storage Chain MerkleProof Overhead.
From S2P Require Import Pbft PbftFacts RelayModule RelayFacts SupervisorProcess Setup System SystemSeq SystemLog.

Section node.
Context `{Params, BitSetLib, CryptoLib, !Codec AccountState, !Codec Request, !Codec Transaction,
          !Codec BlockHeader, !Codec Block, BoltLib, TrieLib}.

(** The log of a shard with the times of the requests. *)
Abbreviation glog := (list (Block * Time)).
Definition req (e : Block * Time) : Request := mkRequest BlockRequest (Encode e.1) e.2.
Definition dig (e : Block * Time) : bytes := getDigest (req e).

(** ** The deployment: [nnm] nodes in each of [snm] shards, with an address each *)
Context (table : gmap Z (gmap Z string)) (nnm snm : Z).
Definition entry (n : Z * Z) : option string := t ← table !! n.1; t !! n.2.
Definition addr (n : Z * Z) : string := default "" (entry n).
Definition member (n : Z * Z) : Prop := 0 ≤ n.1 < snm ∧ 0 ≤ n.2 < nnm.
Definition self (n : Z * Z) : Node := mkNode n.2 n.1 (addr n).

Record deployment : Prop := {
  dp_entry : ∀ n, member n → is_Some (entry n);
  dp_inj : ∀ n n' a, entry n = Some a → entry n' = Some a → n = n';
  dp_shards : ShardNum = snm ∧ 0 < snm < 2 ^ 63;
  dp_nodes : 0 < nnm < 2 ^ 63;
  dp_plain : Overhead_Enabled = false ∧ RelayWithMerkleProof = 0;
}.

(** What is known of the transactions that are injected into a shard, and what follows for those
    that are in it. *)
Context (Q : Z → Transaction → Prop).
Class injected_ok : Prop := {
  inj_homes s tx : Q s tx → tx_homes tx ∧ Relayed tx = false;
  inj_stamp s t tx : Q s tx → Q s (stamp t tx);
}.
Definition relay_in (s : Z) (tx : Transaction) : Prop :=
  ∃ s' tx', s' ≠ s ∧ Q s' tx' ∧ home (Sender tx') = s' ∧ home (Recipient tx') = s ∧ tx = mark tx'.
Definition tx_in (s : Z) (tx : Transaction) : Prop := Q s tx ∨ relay_in s tx.

(** ** The invariant of a node *)
Definition glog_ok (s : Z) (g : glog) : Prop :=
  log_ok s g.*1 ∧ Forall (λ e, Forall (tx_in s) (Body e.1)) g.

Record leader_ok (g : glog) (h : nat) (q : Proc) : Prop := {
  l_pool : ∀ e, e ∈ g → requestPool (node q) !! dig e = Some (req e);
  l_reply : ∀ d, d ∈ isReply (node q) ↔ ∃ j e, (j < h)%nat ∧ g !! j = Some e ∧ d = dig e;
  l_lock : if sequenceLock (node q)
           then if holding q then h = length g else S h = length g
           else holding q = false ∧ h = length g;
  l_free : blockedCommit (node q) = None;
}.

Record node_ok (g : glog) (n : Z * Z) (h : nat) (q : Proc) : Prop := {
  n_running : RunningNode (node q) = self n;
  n_shard : PShardID (node q) = n.1;
  n_id : PNodeID (node q) = n.2;
  n_table : ip_nodeTable (node q) = table;
  n_shards : ShardNums (pbftChainConfig (node q)) = snm;
  n_view : view (node q) = 0;
  n_pool : ∀ d r, requestPool (node q) !! d = Some r → d = getDigest r ∧ r ∈ req <$> g;
  n_height : at_height n.1 g.*1 h (App (node q));
  n_queue : Forall (tx_in n.1) (TxQueue (Txpool (App (node q))));
  n_follower : n.2 ≠ 0 → sequenceLock (node q) = false ∧ holding q = false;
  n_leader : n.2 = 0 → leader_ok g h q;
}.

(** What a message under way to node [n] may be. *)
Definition msg_ok (g : glog) (n : Z * Z) (m : Msg) : Prop :=
  match m with
  | MPrePrepare pp => RequestMsg pp ∈ req <$> g
  | MPrepare pm => PDigest pm ∈ dig <$> g
  | MCommit cm => CDigest cm ∈ dig <$> g
  | MRequestOld rom => n.2 = 0 ∧ ∃ i, i ≠ 0 ∧ member (n.1, i) ∧ ROSenderNode rom = self (n.1, i)
  | MSendOld som => n.2 ≠ 0 ∧ Forall (λ r, r ∈ req <$> g) (OldRequest som)
  | MRelay r => n.2 = 0 ∧ Forall (relay_in n.1) (RTxs r)
  | MInject it => Forall (Q n.1) (ITxs it)
  | MBlockInfo _ => True
  | _ => False
  end.

(** All packets say what they may to the member that has their address. *)
Definition packets_ok (G : Z → glog) (l : list packet) : Prop :=
  ∀ a m, (a, m) ∈ l → ∀ n, member n → addr n = a → msg_ok (G n.1) n m.

(** The transactions a message carries. *)
Definition carried (m : Msg) : list Transaction :=
  match m with MRelay r => RTxs r | MInject it => ITxs it | _ => [] end.

(** A request for old blocks of node [n], or its answer, under way. *)
Definition asks (n : Z * Z) (pk : packet) : Z :=
  match pk.2 with
  | MRequestOld rom => if decide (ROSenderNode rom = self n) then 1 else 0
  | MSendOld _ => if decide (pk.1 = addr n) then 1 else 0
  | _ => 0
  end.

(** The relays of a block. *)
Definition relays_of (n : Z * Z) (seq : Z) (b : Block) : list packet :=
  (λ sid, (addr (sid, 0), MRelay (mkRelay
     (mark <$> List.filter (λ tx, negb (Relayed tx) && (home (Sender tx) =? n.1) && negb (home (Recipient tx) =? n.1)
                                  && (home (Recipient tx) =? sid)) (Body b)) n.1 seq)))
    <$> List.filter (λ sid, negb (sid =? n.1)) (heights 0 (snm - 1)).

(** What a step of node [n] did: it received transactions (or nothing), the leader proposed a
    block, or the leader executed the next block of the log and relayed. *)
Inductive effect (g : glog) (n : Z * Z) (h : nat) (q : Proc) (m : list Transaction)
    : glog → nat → Proc → list packet → Prop :=
| eff_receive h' q' out clock :
    TxQueue (Txpool (App (node q'))) = TxQueue (Txpool (App (node q))) ++ imap (λ i tx, stamp (clock i) tx) m →
    (n.2 = 0 → h' = h) → Forall (λ pk, carried pk.2 = []) out → effect g n h q m g h' q' out
| eff_propose q' e out :
    n.2 = 0 → m = [] → TxQueue (Txpool (App (node q))) = Body e.1 ++ TxQueue (Txpool (App (node q'))) →
    Forall (λ pk, carried pk.2 = []) out → effect g n h q m (g ++ [e]) h q' out
| eff_execute q' e seq pk :
    n.2 = 0 → m = [] → g !! h = Some e → carried pk.2 = [] →
    TxQueue (Txpool (App (node q'))) = TxQueue (Txpool (App (node q))) →
    effect g n h q m g (S h) q' (relays_of n seq e.1 ++ [pk]).

(** ** Basic facts *)
Context `{!BitSetLaws, !CryptoLaws, !CollisionFree, !CodecLaws AccountState, !CodecLaws Request,
          !CodecLaws BlockHeader, !CodecLaws Block, !BoltLaws, !TrieLaws}.
Context `{!injected_ok} (HD : deployment).

Lemma stamp_mark t tx : stamp t (mark tx) = mark (stamp t tx).
Proof. unfold stamp, mark, IsZero. cbn. by destruct (TxTime tx =? 0). Qed.

Lemma relay_in_homes s tx : relay_in s tx → tx_homes tx.
Proof. intros (s' & tx' & _ & Hq & _ & _ & ->). by apply inj_homes in Hq as [? _]. Qed.

Lemma tx_in_homes s tx : tx_in s tx → tx_homes tx.
Proof. intros [Hq|Hr]; [by apply inj_homes in Hq as [? _]|by eapply relay_in_homes]. Qed.

Lemma relay_in_stamp s t tx : relay_in s tx → relay_in s (stamp t tx).
Proof.
  intros (s' & tx' & Hne & Hq & Hs & Hr & ->). exists s', (stamp t tx'). rewrite stamp_mark.
  destruct (stamp_fields t tx') as (-> & -> & _). split; [done|]. split; [by apply inj_stamp|]. done.
Qed.

Lemma tx_in_stamp s t tx : tx_in s tx → tx_in s (stamp t tx).
Proof. intros [Hq|Hr]; [left; by apply inj_stamp|right; by apply relay_in_stamp]. Qed.

Lemma tx_in_fresh s tx : tx_in s tx → Relayed tx = false → Q s tx.
Proof. intros [Hq|(s' & tx' & _ & _ & _ & _ & ->)]; [done|]. done. Qed.

Lemma queue_stamped s (clock : nat → Time) txs : Forall (tx_in s) txs → Forall (tx_in s) (imap (λ i tx, stamp (clock i) tx) txs).
Proof.
  intros Hl. apply list.Forall_forall. intros x Hx.
  apply elem_of_lookup_imap in Hx as (i & y & -> & Hy). apply tx_in_stamp.
  rewrite list.Forall_forall in Hl. by eapply Hl, list_elem_of_lookup_2.
Qed.

(** The digest names the entry of the log. *)
Lemma req_inj e e' : req e = req e' → e = e'.
Proof. destruct e as [b t], e' as [b' t']. unfold req. cbn. intros [= E ->]. by apply codec_inj in E as ->. Qed.

Lemma digest_inj r r' : getDigest r = getDigest r' → r = r'.
Proof. intros E%sha256_inj. by apply codec_inj in E. Qed.

Lemma dig_inj e e' : dig e = dig e' → e = e'.
Proof. intros E%digest_inj. by apply req_inj. Qed.

Lemma glog_lookup s (g : glog) i j e : glog_ok s g → g !! i = Some e → g !! j = Some e → i = j.
Proof.
  intros [Hl _] Hi Hj. apply (log_inj s g.*1 i j e.1 e.1 Hl); [| |done]; by rewrite list_lookup_fmap, ?Hi, ?Hj.
Qed.

(** Addresses. *)
Lemma entry_addr n : member n → entry n = Some (addr n).
Proof. intros Hn. unfold addr. by destruct (dp_entry HD n Hn) as [a ->]. Qed.

Lemma addr_inj n n' : member n → member n' → addr n = addr n' → n = n'.
Proof.
  intros Hn Hn' E. apply (dp_inj HD n n' (addr n)); [by apply entry_addr|]. rewrite E. by apply entry_addr.
Qed.

Lemma row_member s i n : member n → entry (s, i) = Some (addr n) → n = (s, i).
Proof. intros Hn E. symmetry. apply (dp_inj HD _ _ _ E). by apply entry_addr. Qed.

Lemma self_inj n n' : self n = self n' → n = n'.
Proof. destruct n, n'. by intros [= -> ->]. Qed.

(** ** What a node sends *)
Lemma ip_of_entry (g : glog) n h q s i : node_ok g n h q → ip_of (node q) s i = addr (s, i).
Proof. intros Hn. unfold ip_of. by rewrite (n_table _ _ _ _ Hn). Qed.

(** A message to all nodes of the shard arrives only there. *)
Lemma neighbours_ok (g : glog) n h q m : node_ok g n h q → member n →
  ∀ a m' n', (a, m') ∈ send_all (node q) m → member n' → addr n' = a → m' = m ∧ n'.1 = n.1.
Proof.
  intros Hn Hm a m' n' Hin Hm' Ha. unfold send_all, Broadcast, getNeighborNodes, getNodeIpsWithinShard in Hin.
  rewrite (n_running _ _ _ _ Hn), (n_table _ _ _ _ Hn), (n_shard _ _ _ _ Hn) in Hin.
  apply elem_of_app in Hin as [Hin|Hin].
  - apply list_elem_of_fmap in Hin as (ip & [= <- <-] & Hip). split; [done|].
    apply list_elem_of_In, filter_In in Hip as [Hip _]. apply list_elem_of_In in Hip.
    apply list_elem_of_fmap in Hip as ([i ip'] & -> & Hip%elem_of_map_to_list). cbn in *.
    destruct (table !! n.1) as [row|] eqn:Er; cbn in Hip; [|by rewrite lookup_empty in Hip].
    rewrite (row_member n.1 i n' Hm'); [done|]. unfold entry. cbn. rewrite Er. cbn. by rewrite Ha.
  - apply list_elem_of_singleton in Hin. injection Hin as -> ->. split; [done|]. cbn in Ha.
    by rewrite (addr_inj n' n).
Qed.

Lemma send_all_ok (G : Z → glog) n h q m : node_ok (G n.1) n h q → member n →
  (∀ n', member n' → n'.1 = n.1 → msg_ok (G n.1) n' m) → packets_ok G (send_all (node q) m).
Proof.
  intros Hn Hm Hok a m' Hin n' Hm' Ha. destruct (neighbours_ok _ n h q m Hn Hm a m' n' Hin Hm' Ha) as [-> E].
  rewrite E. by apply Hok.
Qed.

Lemma packets_app G l1 l2 : packets_ok G l1 → packets_ok G l2 → packets_ok G (l1 ++ l2).
Proof. intros P1 P2 a m Hin. apply elem_of_app in Hin as [?|?]; [by apply P1|by apply P2]. Qed.

Lemma packets_nil G : packets_ok G [].
Proof. intros a m Hin. by apply not_elem_of_nil in Hin. Qed.

(** Consensus messages carry no transactions and ask for nothing. *)
Lemma send_all_forall {P : packet → Prop} (p : PbftConsensusNode BlockChain) m :
  (∀ a, P (a, m)) → Forall P (send_all p m).
Proof.
  intros HP. unfold send_all, Broadcast. apply Forall_app. split; [|by apply Forall_singleton].
  apply Forall_fmap, list.Forall_forall. intros x _. apply HP.
Qed.

Lemma asks_none n l : Forall (λ pk, asks n pk = 0) l → sumZ (asks n) l = 0.
Proof. intros Hl. apply sumZ_zero. by rewrite list.Forall_forall in Hl. Qed.

(** ** The result of a step *)
Definition put (s : Z) (g : glog) (G : Z → glog) : Z → glog := λ s', if decide (s' = s) then g else G s'.

Definition asking (q : Proc) : Z := if askForLock (node q) then 1 else 0.

(** Node [n] has made a step from [q] to [q'], sending [out]; it has consumed a message with the
    transactions [m], or none; [ask] tells whose request for old blocks that message was. *)
Definition result (G : Z → glog) (n : Z * Z) (h : nat) (q : Proc) (m : list Transaction) (ask : Z * Z → Z)
    (q' : Proc) (out : list packet) : Prop :=
  ∃ g' h', glog_ok n.1 g' ∧ node_ok g' n h' q' ∧ packets_ok (put n.1 g' G) out ∧
    effect (G n.1) n h q m g' h' q' out ∧
    ∀ n', member n' → sumZ (asks n') out = ask n' + (if decide (n' = n) then asking q' - asking q else 0).

Lemma put_same s G s' : put s (G s) G s' = G s'.
Proof. unfold put. by destruct (decide (s' = s)) as [->|]. Qed.

Lemma packets_put s G l : packets_ok G l → packets_ok (put s (G s) G) l.
Proof. intros Hp a m Hin n Hm Ha. rewrite put_same. by apply (Hp a m Hin n). Qed.

(** Nothing changed but the bookkeeping of the consensus, and requests of the log were learnt. *)
Record same (g : glog) (q q' : Proc) : Prop := {
  sm_running : RunningNode (node q') = RunningNode (node q);
  sm_shard : PShardID (node q') = PShardID (node q);
  sm_id : PNodeID (node q') = PNodeID (node q);
  sm_table : ip_nodeTable (node q') = ip_nodeTable (node q);
  sm_config : pbftChainConfig (node q') = pbftChainConfig (node q);
  sm_view : view (node q') = view (node q);
  sm_pool : ∀ d, requestPool (node q') !! d = requestPool (node q) !! d ∨
    ∃ r, d = getDigest r ∧ r ∈ req <$> g ∧ requestPool (node q') !! d = Some r;
}.

Lemma same_pool g q q' n h : same g q q' → node_ok g n h q →
  (∀ d r, requestPool (node q') !! d = Some r → d = getDigest r ∧ r ∈ req <$> g) ∧
  (∀ e, requestPool (node q) !! dig e = Some (req e) → requestPool (node q') !! dig e = Some (req e)).
Proof.
  intros Hs Hn. split.
  - intros d r Hr. destruct (sm_pool _ _ _ Hs d) as [E|(r' & -> & Hr' & E)].
    + apply (n_pool _ _ _ _ Hn). by rewrite <-E.
    + rewrite E in Hr. by injection Hr as <-.
  - intros e He. destruct (sm_pool _ _ _ Hs (dig e)) as [E|(r' & Hd & Hr' & E)]; [by rewrite E|].
    apply digest_inj in Hd. by rewrite E, Hd.
Qed.

(** The invariant, when the chain, the replies and the lock are as before too. *)
Lemma node_ok_same g q q' n h : same g q q' → node_ok g n h q →
  App (node q') = App (node q) → isReply (node q') = isReply (node q) →
  sequenceLock (node q') = sequenceLock (node q) → holding q' = holding q → blockedCommit (node q') = blockedCommit (node q) →
  node_ok g n h q'.
Proof.
  intros Hs Hn Ea Er El Eh Eb. destruct (same_pool _ _ _ _ _ Hs Hn) as [Hp1 Hp2].
  destruct Hs as [s1 s2 s3 s4 s5 s6 _], Hn as [n1 n2 n3 n4 n5 n6 n7 n8 n9 n10 n11].
  split; rewrite ?s1, ?s2, ?s3, ?s4, ?s5, ?s6, ?Ea, ?El, ?Eh; try done.
  intros Hl. destruct (n11 Hl) as [l1 l2 l3 l4]. split; rewrite ?Er, ?El, ?Eh, ?Eb; try done.
  intros e He. by apply Hp2, l1.
Qed.

(** A step that sends consensus messages only. *)
Lemma quiet_result (G : Z → glog) n h q q' out : glog_ok n.1 (G n.1) → node_ok (G n.1) n h q' →
  TxQueue (Txpool (App (node q'))) = TxQueue (Txpool (App (node q))) →
  askForLock (node q') = askForLock (node q) → packets_ok G out →
  Forall (λ pk, carried pk.2 = [] ∧ ∀ n', asks n' pk = 0) out →
  result G n h q [] (λ _, 0) q' out.
Proof.
  intros Hg Hn Hq Ha Hp Hf. exists (G n.1), h. split; [done|]. split; [done|]. split; [by apply packets_put|]. split.
  - apply eff_receive with (clock := λ _, 0); [by rewrite Hq, app_nil_r|done|].
    eapply Forall_impl; [exact Hf|]. by intros pk [? _].
  - intros n' _. rewrite asks_none by (eapply Forall_impl; [exact Hf|]; by intros pk [_ ?]).
    unfold asking. rewrite Ha. case_decide; lia.
Qed.

(** ** Proposing *)
Lemma leads n h q g : node_ok g n h q → (u64 (view (node q)) =? PNodeID (node q)) = (n.2 =? 0).
Proof. intros Hn. rewrite (n_view _ _ _ _ Hn), (n_id _ _ _ _ Hn). change (u64 0) with 0. apply Z.eqb_sym. Qed.

Lemma begin_ok (G : Z → glog) n h q : member n → glog_ok n.1 (G n.1) → node_ok (G n.1) n h q →
  ∃ o, Propose_begin (node q) = Ok o ∧ ∀ p out, o = Some (p, out) →
    result G n h q [] (λ _, 0) (mkProc p (holding q || (u64 (view p) =? PNodeID p)) (ending q)) out.
Proof.
  intros Hm Hg Hn. unfold Propose_begin. rewrite (leads _ _ _ _ Hn). destruct (n.2 =? 0) eqn:E0; cbn [negb].
  - destruct (sequenceLock (node q)) eqn:El; eexists; (split; [done|]); [done|]. intros p out [= <- <-]. zbool.
    apply quiet_result; try done; [|apply packets_nil].
    pose proof (leads _ _ _ _ Hn) as Hle. destruct Hn as [n1 n2 n3 n4 n5 n6 n7 n8 n9 n10 n11]. split; try done.
    intros _. destruct (n11 E0) as [l1 l2 l3 l4]. rewrite El in l3. destruct l3 as [_ l3]. split; try done.
    change (if holding q || (u64 (view (node q)) =? PNodeID (node q))
            then h = length (G n.1) else S h = length (G n.1)).
    by rewrite Hle, E0, orb_true_r.
  - eexists. split; [done|]. intros p out [= <- <-]. apply quiet_result; try done; [|apply packets_nil].
    rewrite (leads _ _ _ _ Hn), E0, orb_false_r. by destruct q.
Qed.

Lemma end_ok (G : Z → glog) n h q k : member n → glog_ok n.1 (G n.1) → node_ok (G n.1) n h q →
  ∃ o, Propose_end (node q) = Ok o ∧ ∀ p out, o = Some (p, out) →
    result G n h q [] (λ _, 0) (mkProc p (holding q) k) out.
Proof.
  intros Hm Hg Hn. eexists. split; [done|]. intros p out [= <- <-].
  apply quiet_result; try done; [|by destruct (_ =? 1)|by destruct (_ =? 1)|apply packets_nil].
  eapply node_ok_same; [|exact Hn|..]; try (by destruct (_ =? 1)).
  split; try (by destruct (_ =? 1)). intros d. left. by destruct (_ =? 1).
Qed.

Lemma glog_push s (g : glog) e : glog_ok s g → extends s g.*1 e.1 → Forall (tx_in s) (Body e.1) → glog_ok s (g ++ [e]).
Proof.
  intros [Hl Hb] He Ht. split.
  - rewrite fmap_app. cbn. by constructor.
  - apply Forall_app. split; [done|]. by apply Forall_singleton.
Qed.

(** A new entry has a new digest. *)
Lemma fresh_digest s (g : glog) e j e' : glog_ok s (g ++ [e]) → g !! j = Some e' → dig e' ≠ dig e.
Proof.
  intros Hg Hj E%dig_inj. subst e'. pose proof (lookup_lt_Some _ _ _ Hj) as Hlt.
  assert (j = length g) as ->; [|lia]. apply (glog_lookup s (g ++ [e]) j (length g) e Hg).
  - by rewrite lookup_app_l.
  - by rewrite lookup_app_r, Nat.sub_diag.
Qed.

Lemma node_send_ok (G : Z → glog) n h q now : member n → glog_ok n.1 (G n.1) → node_ok (G n.1) n h q → holding q = true →
  ∃ o, Propose_send now (node q) = Ok o ∧ ∀ p out, o = Some (p, out) →
    result G n h q [] (λ _, 0) (mkProc p false (S (ending q))) out.
Proof.
  intros Hm Hg Hn Hh.
  assert (n.2 = 0) as Hz. { destruct (decide (n.2 = 0)); [done|]. destruct (n_follower _ _ _ _ Hn) as [_ E]; congruence. }
  destruct (n_leader _ _ _ _ Hn Hz) as [l1 l2 l3 l4]. rewrite Hh in l3.
  assert (sequenceLock (node q) = true ∧ h = length (G n.1)) as [El ->] by (destruct (sequenceLock (node q)); naive_solver).
  set (g := G n.1) in *. pose proof (n_height _ _ _ _ Hn) as Ha.
  assert (length g = length g.*1) as El1 by (by rewrite length_fmap). rewrite El1 in Ha.
  destruct (generate_extends n.1 g.*1 (App (node q)) (i32 (PNodeID (node q))) now Ha) as (b & bc' & Eg & Hx & Ha' & Hb).
  { eapply Forall_impl; [apply (n_queue _ _ _ _ Hn)|]. intros tx. apply tx_in_homes. }
  rewrite <-El1 in Ha'. pose (e := (b, now)).
  pose proof (n_queue _ _ _ _ Hn) as Hq. rewrite <-Hb in Hq. apply Forall_app in Hq as [Hq1 Hq2].
  assert (glog_ok n.1 (g ++ [e])) as Hg' by (by apply glog_push).
  unfold Propose_send. cbn [HandleinPropose RawRelayPbftExtraHandleMod]. unfold raw_HandleinPropose, propose_block.
  rewrite Eg. cbn [mbind go_bind fst snd]. unfold encodeProposal. destruct (dp_plain HD) as [-> _]. cbn [andb mbind go_bind].
  eexists. split; [done|]. intros p out [= <- <-]. exists (g ++ [e]), (length g). split; [done|].
  change (mkRequest BlockRequest (Encode b) now) with (req e). change (getDigest (req e)) with (dig e).
  split; [|split; [|split]].
  - destruct Hn as [n1 n2 n3 n4 n5 n6 n7 n8 n9 n10 n11]. split; try done.
    + intros d r. cbn. rewrite fmap_app, elem_of_app, lookup_insert. case_decide as Hd.
      * intros [= <-]. subst d. split; [done|]. right. by apply list_elem_of_singleton.
      * intros Hr. destruct (n7 d r Hr). auto.
    + cbn [node App upd]. rewrite fmap_app. by apply at_height_app.
    + intros _. split.
      * intros e' [He|He%list_elem_of_singleton]%elem_of_app; cbn; [|subst e'; by rewrite lookup_insert_eq].
        rewrite lookup_insert. case_decide as Hd; [apply dig_inj in Hd as ->; done|]. by apply l1.
      * intros d. cbn [node isReply upd]. rewrite l2. split; intros (j & e' & Hj & He & ->); exists j, e'.
        -- rewrite lookup_app_l by done. done.
        -- rewrite lookup_app_l in He by done. done.
      * cbn. rewrite El, length_app. cbn. lia.
      * exact l4.
  - intros a m Hin n' Hm' Ea. unfold put.
    destruct (neighbours_ok g n (length g) q (MPrePrepare (mkPrePrepare (req e) (dig e) (sequenceID (node q)))) Hn Hm a m n' Hin Hm' Ea) as [-> E1].
    rewrite E1, decide_True by done. cbn. rewrite fmap_app, elem_of_app. right. by apply list_elem_of_singleton.
  - apply eff_propose; try done.
    apply (send_all_forall (P := λ pk, carried pk.2 = []) (node q) (MPrePrepare (mkPrePrepare (req e) (dig e) (sequenceID (node q))))). done.
  - intros n' _. rewrite asks_none; [unfold asking; cbn; case_decide; lia|].
    apply (send_all_forall (P := λ pk, asks n' pk = 0) (node q) (MPrePrepare (mkPrePrepare (req e) (dig e) (sequenceID (node q))))). done.
Qed.

(** ** Consensus messages *)
Lemma learn_same g q q' r : r ∈ req <$> g →
  requestPool (node q') = <[getDigest r := r]> (requestPool (node q)) →
  RunningNode (node q') = RunningNode (node q) → PShardID (node q') = PShardID (node q) →
  PNodeID (node q') = PNodeID (node q) → ip_nodeTable (node q') = ip_nodeTable (node q) →
  pbftChainConfig (node q') = pbftChainConfig (node q) → view (node q') = view (node q) → same g q q'.
Proof.
  intros Hr Hp. intros. split; try done. intros d. rewrite Hp, lookup_insert. case_decide; [|by left].
  right. exists r. done.
Qed.

Lemma preprepare_ok (G : Z → glog) n h q pp : member n → glog_ok n.1 (G n.1) → node_ok (G n.1) n h q →
  RequestMsg pp ∈ req <$> G n.1 →
  ∃ o, handlePrePrepare (view (node q)) pp (node q) = Ok o ∧ ∀ p out, o = Some (p, out) →
    result G n h q [] (λ _, 0) (mkProc p (holding q) (ending q)) out.
Proof.
  intros Hm Hg Hn Hr. unfold handlePrePrepare.
  destruct (waits _ _ _ _); [by eexists|]. destruct (stale _ _ _).
  { eexists. split; [done|]. intros p out [= <- <-]. apply quiet_result; try done; [by destruct q|apply packets_nil]. }
  destruct (negb _) eqn:Ed.
  { eexists. split; [done|]. intros p out [= <- <-]. apply quiet_result; try done; [by destruct q|apply packets_nil]. }
  apply negb_false_iff, bool_decide_eq_true in Ed.
  destruct (_ <? _).
  { eexists. split; [done|]. intros p out [= <- <-]. apply quiet_result; try done; [|apply packets_nil].
    eapply node_ok_same; [|exact Hn|..]; try done. by eapply learn_same. }
  cbn [HandleinPrePrepare RawRelayPbftExtraHandleMod]. unfold raw_HandleinPrePrepare, valid_proposal.
  pose proof Hr as (e & He & _)%list_elem_of_fmap. assert (DecodeB (Content (RequestMsg pp)) = Ok e.1) as -> by (rewrite He; apply must_decode_encode).
  cbn [mbind go_bind].
  assert (∀ k : Z → Z, node_ok (G n.1) n h (mkProc ((node q) <| App := App (node q) |>
    <| requestPool ::= <[getDigest (RequestMsg pp) := RequestMsg pp]> |>
    <| height2Digest ::= <[PPSeqID pp := getDigest (RequestMsg pp)]> |> <| pbftStage ::= k |>) (holding q) (ending q))) as Hn'.
  { intros k. eapply node_ok_same; [|exact Hn|..]; try done. by eapply learn_same. }
  destruct (match IsValidBlock (App (node q)) e.1 with None => true | Some _ => false end).
  - eexists. split; [done|]. intros p out [= <- <-]. apply quiet_result; [done|apply (Hn' (λ s, i32 (s + 1)))|done|done|..].
    + eapply (send_all_ok G n h (mkProc _ _ _)); [apply (Hn' (λ s, s))|done|]. intros n' _ E. cbn.
      rewrite <-Ed. by apply (list_elem_of_fmap_2 getDigest (req <$> G n.1)) in Hr; rewrite <-list_fmap_compose in Hr.
    + by apply send_all_forall.
  - eexists. split; [done|]. intros p out [= <- <-]. apply quiet_result; [done|apply (Hn' (λ s, s))|done|done|apply packets_nil|done].
Qed.

Lemma prepare_ok (G : Z → glog) n h q pm : member n → glog_ok n.1 (G n.1) → node_ok (G n.1) n h q →
  PDigest pm ∈ dig <$> G n.1 →
  ∃ o, handlePrepare (view (node q)) pm (node q) = Ok o ∧ ∀ p out, o = Some (p, out) →
    result G n h q [] (λ _, 0) (mkProc p (holding q) (ending q)) out.
Proof.
  intros Hm Hg Hn Hd. unfold handlePrepare.
  assert (result G n h q [] (λ _, 0) (mkProc (node q) (holding q) (ending q)) []) as Hid.
  { apply quiet_result; try done; [by destruct q|apply packets_nil]. }
  destruct (waits _ _ _ _); [by eexists|]. destruct (stale _ _ _); [eexists; split; [done|]; by intros p out [= <- <-]|].
  destruct (requestPool (node q) !! PDigest pm); [|eexists; split; [done|]; by intros p out [= <- <-]].
  destruct (_ <? _); [eexists; split; [done|]; by intros p out [= <- <-]|].
  cbn [HandleinPrepare RawRelayPbftExtraHandleMod mbind go_bind fst]. unfold set2DMap.
  match goal with |- context [if ?c then _ else _] => destruct c end.
  - eexists. split; [done|]. intros p out [= <- <-]. apply quiet_result; try done.
    + eapply node_ok_same; [|exact Hn|..]; try done. split; try done. by left.
    + eapply (send_all_ok G n h (mkProc _ (holding q) 0)); [|done|by intros].
      eapply node_ok_same; [|exact Hn|..]; try done. split; try done. by left.
    + by apply send_all_forall.
  - eexists. split; [done|]. intros p out [= <- <-]. apply quiet_result; try done; [|apply packets_nil].
    eapply node_ok_same; [|exact Hn|..]; try done. split; try done. by left.
Qed.

(** ** Commits *)

(** A chain that differs in its pool and in the marks of its current body. *)
Lemma at_height_marked s bs h bc bc' : at_height s bs h bc →
  triedb bc' = triedb bc → Storage bc' = Storage bc → Config bc' = Config bc → PartitionMap bc' = PartitionMap bc →
  Header (CurrentBlock bc') = Header (CurrentBlock bc) → Hash (CurrentBlock bc') = Hash (CurrentBlock bc) →
  at_height s bs h bc'.
Proof.
  intros [b1 [[c1 c2] c3 c4 c5] b3 b4 b5 b6] Et Es Ec Em Eh Ex.
  split; rewrite ?Eh, ?Es, ?Ec, ?Em; try done.
  split; [split|..]; rewrite ?Et, ?Es, ?Eh, ?Ex; try done.
Qed.

Lemma node_ok_follower g q q' n h h' : same g q q' → node_ok g n h q → n.2 ≠ 0 →
  at_height n.1 g.*1 h' (App (node q')) → TxQueue (Txpool (App (node q'))) = TxQueue (Txpool (App (node q))) →
  sequenceLock (node q') = sequenceLock (node q) → holding q' = holding q → node_ok g n h' q'.
Proof.
  intros Hs Hn Hz Ha Ht El Eh. destruct (same_pool _ _ _ _ _ Hs Hn) as [Hp _].
  destruct Hs as [s1 s2 s3 s4 s5 s6 _], Hn as [n1 n2 n3 n4 n5 n6 n7 n8 n9 n10 n11].
  split; rewrite ?s1, ?s2, ?s3, ?s4, ?s5, ?s6, ?El, ?Eh, ?Ht; try done.
Qed.

(** A follower executes a request of the log: its chain stays on the log. *)
Lemma follower_commit g n h q now (p : PbftConsensusNode BlockChain) e : glog_ok n.1 g → node_ok g n h q → n.2 ≠ 0 → e ∈ g →
  PNodeID p = n.2 → view p = 0 →
  ∃ bc' h', commit_block p (App (node q)) 0 now (req e) = Ok (bc', []) ∧ at_height n.1 g.*1 h' bc' ∧
    Txpool bc' = Txpool (App (node q)).
Proof.
  intros [Hl _] Hn Hz He Ei Ev. apply list_elem_of_lookup in He as [j Hj].
  destruct (add_log_block n.1 g.*1 h (App (node q)) j e.1 Hl (n_height _ _ _ _ Hn)) as (bc' & h' & E & Ha & Ht & _).
  { by rewrite list_lookup_fmap, Hj. }
  exists bc', h'. split; [|done]. unfold commit_block. unfold DecodeB, req. cbn [Content]. rewrite must_decode_encode.
  cbn [mbind go_bind]. rewrite E. cbn [mbind go_bind]. rewrite Ei, Ev. change (u64 0) with 0.
  by rewrite (proj2 (Z.eqb_neq _ _) Hz).
Qed.

(** The leader executes the next request of the log and relays. *)
Lemma leader_commit g n h q now (p : PbftConsensusNode BlockChain) e : member n → glog_ok n.1 g → node_ok g n h q →
  n.2 = 0 → g !! h = Some e →
  PNodeID p = n.2 → view p = 0 → PShardID p = n.1 → ip_nodeTable p = table → ShardNums (pbftChainConfig p) = snm →
  ∃ bc' info, commit_block p (App (node q)) 0 now (req e) =
      Ok (bc', relays_of n (sequenceID p) e.1 ++ [(addr (SupervisorShard, 0), MBlockInfo info)]) ∧
    at_height n.1 g.*1 (S h) bc' ∧ TxQueue (Txpool bc') = TxQueue (Txpool (App (node q))).
Proof.
  intros Hm [Hl Hb] Hn Hz He Ei Ev Es Et Ec.
  assert (g.*1 !! h = Some e.1) as He1 by (by rewrite list_lookup_fmap, He).
  destruct (add_next n.1 g.*1 h (App (node q)) e.1 Hl (n_height _ _ _ _ Hn) He1) as (Hacc & _ & bc1 & E & Ha & Hcur & Ht).
  pose proof (ah_map _ _ _ _ Ha) as Hm1.
  destruct (commit_leader p (App (node q)) bc1 0 now (req e) e.1) as (bc' & Ec' & _ & Hq & E1 & E2 & E3 & E4 & _ & E5).
  - by rewrite Ei, Ev, Hz.
  - apply (dp_plain HD).
  - apply must_decode_encode.
  - exact E.
  - apply home_placed; [done|]. rewrite list.Forall_forall in Hb. eapply Forall_impl; [apply Hb; by eapply list_elem_of_lookup_2|].
    intros tx. apply tx_in_homes.
  - destruct (E5 Hacc) as [E6 E7]. eexists bc', _. split; [|split].
    + rewrite Ec'. unfold relays_of, other_shards, relayed_to, is_relay1, ip_of. rewrite Es, Et, Ec, !(home_shard bc1 Hm1). reflexivity.
    + apply (at_height_marked _ _ _ _ _ Ha); rewrite ?E6, ?E7, ?Hcur; done.
    + by rewrite Hq, Ht.
Qed.

Lemma heights_range a b x : x ∈ heights a b ↔ a ≤ x ≤ b.
Proof.
  unfold heights. rewrite list_elem_of_fmap. split.
  - intros (i & -> & Hi%elem_of_seq). lia.
  - intros Hx. exists (Z.to_nat (x - a)). rewrite elem_of_seq. lia.
Qed.

Lemma relays_ok (G : Z → glog) n seq e info : member n → glog_ok n.1 (G n.1) → e ∈ G n.1 →
  packets_ok G (relays_of n seq e.1 ++ [(addr (SupervisorShard, 0), MBlockInfo info)]).
Proof.
  intros Hm [_ Hb] He. apply packets_app.
  - intros a m Hin n' Hm' Ha. unfold relays_of in Hin. apply list_elem_of_fmap in Hin as (sid & [= -> ->] & Hs).
    apply list_elem_of_In, filter_In in Hs as [Hs Hne]. apply list_elem_of_In, heights_range in Hs.
    apply negb_true_iff, Z.eqb_neq in Hne.
    assert (n' = (sid, 0)) as ->.
    { apply addr_inj; try done. split; cbn; [lia|]. pose proof (dp_nodes HD). lia. }
    cbn. split; [done|]. apply Forall_fmap, list.Forall_forall. intros tx Htx.
    apply list_elem_of_In, filter_In in Htx as [Htx Hc]. apply list_elem_of_In in Htx.
    rewrite !andb_true_iff in Hc. destruct Hc as [[[Hc1 Hc2] Hc3] Hc4]. zbool.
    exists n.1, tx. cbn in *. split; [congruence|]. split; [|done]. apply tx_in_fresh; [|done].
    rewrite list.Forall_forall in Hb. specialize (Hb e He). rewrite list.Forall_forall in Hb. by apply Hb.
  - intros a m Hin n' _ _. apply list_elem_of_singleton in Hin. by injection Hin as -> ->.
Qed.

Lemma relays_asks n seq e n' pk : asks n' pk = 0 → sumZ (asks n') (relays_of n seq e ++ [pk]) = 0.
Proof.
  intros Hp. apply asks_none, Forall_app. split; [|by apply Forall_singleton].
  by apply Forall_fmap, list.Forall_forall.
Qed.

(** The end of a round: the leader gives back the lock, which it holds. *)
Lemma round_end_ok now (p : PbftConsensusNode BlockChain) i : PNodeID p = i → view p = 0 →
  (i = 0 → sequenceLock p = true) →
  ∃ p', round_end now p = Ok p' ∧ p' = p <| pbftStage := 1 |> <| lastCommitTime := UnixMilli now |>
                                        <| sequenceLock := if i =? 0 then false else sequenceLock p |>.
Proof.
  intros Ei Ev Hl. unfold round_end. pose (p1 := p <| pbftStage := 1 |> <| lastCommitTime := UnixMilli now |>).
  change (PNodeID (p <| pbftStage := 1 |> <| lastCommitTime := UnixMilli now |>)) with (PNodeID p).
  change (view (p <| pbftStage := 1 |> <| lastCommitTime := UnixMilli now |>)) with (view p).
  change (sequenceLock (p <| pbftStage := 1 |> <| lastCommitTime := UnixMilli now |>)) with (sequenceLock p).
  rewrite Ei, Ev. change (u64 0) with 0. destruct (i =? 0) eqn:E; zbool.
  - rewrite Hl by done. eexists. split; done.
  - eexists. split; [done|]. by destruct p.
Qed.

(** A follower asks the leader for the requests it missed. *)
Lemma ask_ok (G : Z → glog) n h q p rom : member n → glog_ok n.1 (G n.1) → node_ok (G n.1) n h q → n.2 ≠ 0 →
  node_ok (G n.1) n h (mkProc p (holding q) (ending q)) → App p = App (node q) →
  askForLock (node q) = false → askForLock p = true → ROSenderNode rom = self n →
  result G n h q [] (λ _, 0) (mkProc p (holding q) (ending q)) [(addr (n.1, 0), MRequestOld rom)].
Proof.
  intros Hm Hg Hn Hz Hn' Ea Ef Et Es. exists (G n.1), h. split; [done|]. split; [done|]. split; [apply packets_put|split].
  - intros a m Hin n' Hm' Ha. apply list_elem_of_singleton in Hin. injection Hin as -> ->.
    assert (n' = (n.1, 0)) as ->.
    { apply addr_inj; try done. split; [apply Hm|]. pose proof (dp_nodes HD). cbn. lia. }
    cbn. split; [done|]. exists n.2. split; [done|]. by destruct n.
  - apply eff_receive with (clock := λ _, 0); [cbn; by rewrite Ea, app_nil_r|done|by apply Forall_singleton].
  - intros n' _. unfold sumZ, asks, asking. cbn. rewrite Es, Ef, Et.
    destruct (decide (n' = n)) as [->|Hne]; [by rewrite decide_True|]. rewrite decide_False; [done|].
    intros E%self_inj. congruence.
Qed.

(** The digest of a commit that the leader has not executed is that of the last entry. *)
Lemma leader_next (g : glog) (n : Z * Z) h q d : glog_ok n.1 g → leader_ok g h q → d ∈ dig <$> g → d ∉ isReply (node q) → (h ≤ length g)%nat →
  ∃ e, d = dig e ∧ g !! h = Some e ∧ length g = S h ∧ sequenceLock (node q) = true ∧ holding q = false.
Proof.
  intros Hg [l1 l2 l3 l4] Hd Hr Hh. apply list_elem_of_fmap in Hd as (e & -> & He). apply list_elem_of_lookup in He as [j Hj].
  assert (h ≤ j)%nat as Hj1. { apply Nat.le_ngt. intros Hlt. apply Hr, l2. eauto. }
  pose proof (lookup_lt_Some _ _ _ Hj). exists e. split; [done|].
  destruct (sequenceLock (node q)); [|lia]. destruct (holding q); [lia|]. assert (j = h) as -> by lia. auto.
Qed.

(** The branch of [handleCommit] that executes the request. *)
Definition after_execute (x : BlockChain) (d : bytes) (p : PbftConsensusNode BlockChain) : PbftConsensusNode BlockChain :=
  p <| App := x |> <| isReply ::= λ s, {[d]} ∪ s |> <| sequenceID ::= λ s, u64 (s + 1) |>.

Definition execute (now : Time) (cm : Commit) (p : PbftConsensusNode BlockChain) : go (option (PbftConsensusNode BlockChain * list packet)) :=
  r ← HandleinCommit p now cm;
  let '(x, out, _) := r in
  p ← round_end now (after_execute x (CDigest cm) p);
  Ok (Some (p, out)).

Lemma after_execute_fields (g : glog) q hd nd x d : let p := after_execute x d (node q) in
  same g q (mkProc p hd nd) ∧ App p = x ∧ isReply p = {[d]} ∪ isReply (node q) ∧ requestPool p = requestPool (node q) ∧
  sequenceLock p = sequenceLock (node q) ∧ askForLock p = askForLock (node q) ∧ blockedCommit p = blockedCommit (node q).
Proof. split; [|done]. split; try done. by left. Qed.

(** The end of a round: the leader gives back the lock, which it holds. *)
Lemma round_end_fields (g : glog) now q hd nd p i : same g q (mkProc p hd nd) → PNodeID p = i → view p = 0 →
  (i = 0 → sequenceLock p = true) →
  ∃ p', round_end now p = Ok p' ∧ same g q (mkProc p' hd nd) ∧ App p' = App p ∧ isReply p' = isReply p ∧
    requestPool p' = requestPool p ∧ sequenceLock p' = (if i =? 0 then false else sequenceLock p) ∧ askForLock p' = askForLock p ∧ blockedCommit p' = blockedCommit p.
Proof.
  intros Hs Ei Ev Hl. destruct (round_end_ok now p i Ei Ev Hl) as (p' & E & ->). eexists. split; [exact E|].
  split; [destruct Hs; by split|done].
Qed.

Lemma execute_shape (g : glog) now cm q hd nd x out (f : bool) i :
  HandleinCommit (node q) now cm = Ok (x, out, f) → PNodeID (node q) = i → view (node q) = 0 →
  (i = 0 → sequenceLock (node q) = true) →
  ∃ p, execute now cm (node q) = Ok (Some (p, out)) ∧ same g q (mkProc p hd nd) ∧ App p = x ∧
    isReply p = {[CDigest cm]} ∪ isReply (node q) ∧ requestPool p = requestPool (node q) ∧
    sequenceLock p = (if i =? 0 then false else sequenceLock (node q)) ∧ askForLock p = askForLock (node q) ∧ blockedCommit p = blockedCommit (node q).
Proof.
  intros Eh Ei Ev Hl. unfold execute. rewrite Eh, go_bind_ok.
  pose proof (after_execute_fields g q hd nd x (CDigest cm)) as Hf. cbv zeta in Hf. revert Hf.
  generalize (after_execute x (CDigest cm) (node q)). intros p1 (Hs & E1 & E2 & E3 & E4 & E5 & E6). rewrite <-E2, <-E3, <-E4, <-E5, <-E6.
  destruct (round_end_fields g now q hd nd p1 i Hs) as (p2 & -> & R).
  - rewrite <-Ei. apply Hs.
  - rewrite <-Ev. apply Hs.
  - by rewrite E4.
  - exists p2. rewrite E1 in R. split; [done|exact R].
Qed.

Lemma execute_leader (G : Z → glog) n h q now cm e : member n → glog_ok n.1 (G n.1) → node_ok (G n.1) n h q → n.2 = 0 →
  requestPool (node q) !! CDigest cm = Some (req e) → G n.1 !! h = Some e → length (G n.1) = S h →
  sequenceLock (node q) = true → holding q = false →
  ∃ o, execute now cm (node q) = Ok o ∧ ∀ p out, o = Some (p, out) →
    result G n h q [] (λ _, 0) (mkProc p (holding q) (ending q)) out.
Proof.
  intros Hm Hg Hn Hz Er Hnext Hlen Hlock Hhold. destruct (n_pool _ _ _ _ Hn _ _ Er) as [Ed _].
  destruct (leader_commit (G n.1) n h q now (node q) e Hm Hg Hn Hz Hnext) as (bc' & info & Ec & Ha & Hq); try apply Hn.
  destruct (execute_shape (G n.1) now cm q (holding q) (ending q) bc' (relays_of n (sequenceID (node q)) e.1 ++ [(addr (SupervisorShard, 0), MBlockInfo info)])
    true n.2) as (p & -> & Hs & Eap & Erp & Epl & Elk & Eak & Ebk); [|apply Hn|apply Hn|done|].
  { cbn [HandleinCommit RawRelayPbftExtraHandleMod]. unfold raw_HandleinCommit. rewrite Er, Ec. done. }
  eexists. split; [done|]. intros p' out [= <- <-].
  exists (G n.1), (S h). split; [done|]. split; [|split; [|split]].
  - destruct (same_pool _ _ _ _ _ Hs Hn) as [Hp1 Hp2].
    destruct Hs as [s1 s2 s3 s4 s5 s6 _], Hn as [n1 n2 n3 n4 n5 n6 n7 n8 n9 n10 n11]. cbn [node] in *.
    split; cbn [node holding]; rewrite ?s1, ?s2, ?s3, ?s4, ?s5, ?s6, ?Eap, ?Hq; try done.
    intros _. destruct (n11 Hz) as [l1 l2 l3 l4]. split; cbn [node holding]; [rewrite Epl; done| |rewrite Elk, Hz; done|by rewrite Ebk].
    intros d. rewrite Erp, elem_of_union, elem_of_singleton, Ed. split.
    + intros [->|(j & e' & Hj & He' & ->)%l2]; [exists h, e; auto|exists j, e'; auto].
    + intros (j & e' & Hj & He' & ->). destruct (decide (j = h)) as [->|Hne].
      * left. rewrite Hnext in He'. by injection He' as <-.
      * right. apply l2. exists j, e'. split; [lia|done].
  - apply packets_put. apply relays_ok; try done. by eapply list_elem_of_lookup_2.
  - apply eff_execute; try done. cbn [node]. by rewrite Eap.
  - intros n' _. rewrite relays_asks by done. unfold asking. cbn [node]. rewrite Eak. case_decide; lia.
Qed.

Lemma execute_follower (G : Z → glog) n h q now cm e : member n → glog_ok n.1 (G n.1) → node_ok (G n.1) n h q → n.2 ≠ 0 →
  requestPool (node q) !! CDigest cm = Some (req e) → e ∈ G n.1 →
  ∃ o, execute now cm (node q) = Ok o ∧ ∀ p out, o = Some (p, out) →
    result G n h q [] (λ _, 0) (mkProc p (holding q) (ending q)) out.
Proof.
  intros Hm Hg Hn Hz Er He.
  destruct (follower_commit (G n.1) n h q now (node q) e Hg Hn Hz He) as (bc' & h' & Ec & Ha & Hq); try apply Hn.
  destruct (execute_shape (G n.1) now cm q (holding q) (ending q) bc' [] true n.2) as (p & -> & Hs & Eap & _ & _ & Elk & Eak & _);
    [|apply Hn|apply Hn|done|].
  { cbn [HandleinCommit RawRelayPbftExtraHandleMod]. unfold raw_HandleinCommit. rewrite Er, Ec. done. }
  rewrite (proj2 (Z.eqb_neq _ _) Hz) in Elk. eexists. split; [done|]. intros p' out [= <- <-].
  exists (G n.1), h'. split; [done|]. split; [|split; [apply packets_put, packets_nil|split]].
  - eapply node_ok_follower; [exact Hs|exact Hn|done|..]; cbn [node]; rewrite ?Eap, ?Hq; done.
  - apply eff_receive with (clock := λ _, 0); [cbn [node flat_map]; by rewrite Eap, Hq, app_nil_r|done|done].
  - intros n' _. unfold asking. cbn [node]. rewrite Eak. case_decide; unfold sumZ; cbn; lia.
Qed.

(** The state that the consensus sees of [q]. *)
Lemma result_votes (G : Z → glog) n h q q1 m ask q' out : App (node q1) = App (node q) →
  askForLock (node q1) = askForLock (node q) → result G n h q1 m ask q' out → result G n h q m ask q' out.
Proof.
  intros Ea El (g' & h' & Hg & Hn & Hp & He & Hk). exists g', h'. split; [done|]. split; [done|]. split; [done|]. split.
  - destruct He; [eapply eff_receive|eapply eff_propose|eapply eff_execute]; rewrite <-?Ea; done.
  - intros n' Hm'. rewrite (Hk n' Hm'). unfold asking. by rewrite El.
Qed.

Lemma ask_old_ok (G : Z → glog) n h q now cm : member n → glog_ok n.1 (G n.1) → node_ok (G n.1) n h q → n.2 ≠ 0 →
  askForLock (node q) = false →
  ∃ o, ask_old now cm (node q) = Ok o ∧ ∀ p out, o = Some (p, out) →
    result G n h q [] (λ _, 0) (mkProc p (holding q) (ending q)) out.
Proof.
  intros Hm Hg Hn Hz Ea. unfold ask_old.
  match goal with |- context [round_end now ?p2] =>
    destruct (round_end_ok now p2 n.2 (n_id _ _ _ _ Hn) (n_view _ _ _ _ Hn)) as (p3 & -> & E3); [done|] end.
  cbn [mbind go_bind]. rewrite (proj2 (Z.eqb_neq _ _) Hz) in E3. eexists. split; [done|]. intros p out [= <- <-].
  match goal with |- context [ip_of ?p ?s ?v] => assert (ip_of p s v = addr (n.1, 0)) as -> end.
  { rewrite <-(n_shard _ _ _ _ Hn). change (addr (?s, 0)) with (addr (s, u64 0)). rewrite <-(n_view _ _ _ _ Hn).
    by eapply ip_of_entry. }
  subst p3. apply (ask_ok G n h q); try done; [|by apply Hn].
  eapply node_ok_follower; [|exact Hn|done|..]; try done; [split; try done; by left|by apply Hn].
Qed.

Lemma commit_ok (G : Z → glog) n h q now cm : member n → glog_ok n.1 (G n.1) → node_ok (G n.1) n h q →
  CDigest cm ∈ dig <$> G n.1 →
  ∃ o, handleCommit (view (node q)) now cm (node q) = Ok o ∧ ∀ p out, o = Some (p, out) →
    result G n h q [] (λ _, 0) (mkProc p (holding q) (ending q)) out.
Proof.
  intros Hm Hg Hn Hd. unfold handleCommit.
  assert (result G n h q [] (λ _, 0) (mkProc (node q) (holding q) (ending q)) []) as Hid.
  { apply quiet_result; try done; [by destruct q|apply packets_nil]. }
  destruct (waits _ _ _ _); [by eexists|]. destruct (stale _ _ _); [eexists; split; [done|]; by intros p out [= <- <-]|].
  pose (q1 := mkProc (set2DMap false (CDigest cm) (CSenderNode cm) (node q)) (holding q) (ending q)).
  change (set2DMap false (CDigest cm) (CSenderNode cm) (node q)) with (node q1).
  assert (node_ok (G n.1) n h q1) as Hn1 by (eapply node_ok_same; [|exact Hn|..]; try done; split; try done; by left).
  assert (∀ q' out, result G n h q1 [] (λ _, 0) q' out → result G n h q [] (λ _, 0) q' out) as Hv
    by (intros q' out; by apply result_votes).
  match goal with |- context [if ?c then _ else _] => destruct c eqn:Ec end.
  2: { eexists. split; [done|]. intros p out [= <- <-]. apply Hv, quiet_result; try done. apply packets_nil. }
  apply andb_true_iff in Ec as [_ Ec%negb_true_iff%bool_decide_eq_false].
  pose proof (ah_bound _ _ _ _ (n_height _ _ _ _ Hn)) as Hh. rewrite length_fmap in Hh.
  destruct (requestPool (node q1) !! CDigest cm) as [r|] eqn:Er.
  - destruct (n_pool _ _ _ _ Hn1 _ _ Er) as [Ed Hr]. apply list_elem_of_fmap in Hr as (e & -> & He).
    assert (∃ o, execute now cm (node q1) = Ok o ∧ ∀ p out, o = Some (p, out) →
      result G n h q1 [] (λ _, 0) (mkProc p (holding q) (ending q)) out) as (o & Eo & Ho).
    { destruct (decide (n.2 = 0)) as [Hz|Hz]; [|by apply (execute_follower G n h q1 now cm e)].
      destruct (leader_next _ n _ _ _ Hg (n_leader _ _ _ _ Hn1 Hz) Hd Ec Hh) as (e' & Ed' & Hnext & Hlen & Hlock & Hhold).
      rewrite Ed in Ed'. apply dig_inj in Ed' as <-. by apply (execute_leader G n h q1 now cm e). }
    exists o. split; [exact Eo|]. intros p out E. by apply Hv, Ho.
  - destruct (decide (n.2 = 0)) as [Hz|Hz].
    { apply list_elem_of_fmap in Hd as (e & E & He). rewrite E, (l_pool _ _ _ (n_leader _ _ _ _ Hn1 Hz) e He) in Er. done. }
    pose (q2 := mkProc ((node q1) <| isReply ::= λ s, {[CDigest cm]} ∪ s |>) (holding q) (ending q)).
    assert (node_ok (G n.1) n h q2) as Hn2.
    { eapply node_ok_follower; [|exact Hn1|done|..]; try done; [split; try done; by left|by apply Hn1]. }
    change (askForLock ((node q1) <| isReply ::= λ s, {[CDigest cm]} ∪ s |>)) with (askForLock (node q1)).
    destruct (askForLock (node q1)) eqn:Ea.
    + eexists. split; [done|]. intros p out [= <- <-]. apply Hv, quiet_result; try done; [|apply packets_nil].
      eapply node_ok_follower; [|exact Hn2|done|..]; try done; [split; try done; by left|by apply Hn2].
    + destruct (ask_old_ok G n h q2 now cm Hm Hg Hn2 Hz Ea) as (o & Eo & Ho). exists o. split; [exact Eo|].
      intros p out E. apply Hv, (result_votes G n h q1 q2); try done. by apply Ho.
Qed.

(** A commit handler that goes on. *)
Lemma resume_ok (G : Z → glog) n h q now : member n → glog_ok n.1 (G n.1) → node_ok (G n.1) n h q →
  ∃ o, handleCommit_resume now (node q) = Ok o ∧ ∀ p out, o = Some (p, out) →
    result G n h q [] (λ _, 0) (mkProc p (holding q) (ending q)) out.
Proof.
  intros Hm Hg Hn. unfold handleCommit_resume. destruct (blockedCommit (node q)) as [cm|] eqn:Eb; [|by eexists].
  destruct (askForLock (node q)) eqn:Ea; [by eexists|].
  assert (n.2 ≠ 0) as Hz by (intros Hz; by rewrite (l_free _ _ _ (n_leader _ _ _ _ Hn Hz)) in Eb).
  pose (q1 := mkProc ((node q) <| blockedCommit := None |>) (holding q) (ending q)).
  assert (node_ok (G n.1) n h q1) as Hn1.
  { eapply node_ok_follower; [|exact Hn|done|..]; try done; [split; try done; by left|by apply Hn]. }
  destruct (ask_old_ok G n h q1 now cm Hm Hg Hn1 Hz Ea) as (o & Eo & Ho). exists o. split; [exact Eo|].
  intros p out E. apply (result_votes G n h q q1); try done. by apply Ho.
Qed.

(** ** Catching up *)
Lemma old_requests_in (g : glog) n h q hs : node_ok g n h q → Forall (λ r, r ∈ req <$> g) (old_requests (node q) hs).
Proof.
  intros Hn. induction hs as [|x hs IH]; cbn [old_requests]; [done|].
  destruct (d ← height2Digest (node q) !! x; requestPool (node q) !! d) as [r|] eqn:E; [|done].
  apply bind_Some in E as (d & _ & E). constructor; [|done]. by apply (n_pool _ _ _ _ Hn d r).
Qed.

Lemma request_old_ok (G : Z → glog) n h q a rom : member n → glog_ok n.1 (G n.1) → node_ok (G n.1) n h q →
  msg_ok (G n.1) n (MRequestOld rom) →
  ∃ o, handleRequestOldSeq rom (node q) = Ok o ∧ ∀ p out, o = Some (p, out) →
    result G n h q [] (λ n', asks n' (a, MRequestOld rom)) (mkProc p (holding q) (ending q)) out.
Proof.
  intros Hm Hg Hn (Hz & i & Hi & Hmi & Es). unfold handleRequestOldSeq.
  rewrite (leads _ _ _ _ Hn), Hz. cbn [Z.eqb negb HandleReqestforOldSeq RawRelayPbftExtraHandleMod mbind go_bind].
  eexists. split; [done|]. intros p out [= <- <-]. rewrite Es. cbn [IPaddr self].
  exists (G n.1), h. split; [done|]. split; [|split; [apply packets_put|split]].
  - eapply node_ok_same; [|exact Hn|..]; try done. split; try done. by left.
  - intros a' m Hin n' Hm' Ha. apply list_elem_of_singleton in Hin. injection Hin as -> ->.
    rewrite (addr_inj n' (n.1, i)) by done. cbn. split; [done|]. by eapply old_requests_in.
  - apply eff_receive with (clock := λ _, 0); [cbn; by rewrite app_nil_r|done|by apply Forall_singleton].
  - intros n' Hm'. unfold sumZ, asks, asking. cbn -[addr self]. rewrite Es.
    assert (self (n.1, i) = self n' ↔ addr (n.1, i) = addr n') as Hiff.
    { split; [intros E%self_inj; by subst n'|]. intros E. by rewrite (addr_inj (n.1, i) n'). }
    destruct (decide (self (n.1, i) = self n')) as [E1|E1], (decide (addr (n.1, i) = addr n')) as [E2|E2];
      try tauto; case_decide; lia.
Qed.

(** The chain of a follower after the blocks it was sent. *)
Lemma sequential_ok (g : glog) n h q som : glog_ok n.1 g → node_ok g n h q → Forall (λ r, r ∈ req <$> g) (OldRequest som) →
  seq_msg (two64 - 2) (MSendOld som) →
  ∃ bc' h' f, raw_HandleforSequentialRequest (node q) som = Ok (bc', [], f) ∧ at_height n.1 g.*1 h' bc' ∧
    Txpool bc' = Txpool (App (node q)).
Proof.
  intros Hg Hn Hr [Hst Hen]. unfold raw_HandleforSequentialRequest. destruct (negb _) eqn:El.
  { exists (App (node q)), h, true. split; [done|]. split; [apply Hn|done]. }
  zbool. match goal with |- context [old_loop ?f som ?a] => destruct (old_loop_list f som a) as (rs & Hrs & ->); [lia|lia|done|] end.
  destruct (go_fold_total (λ bc r, if bool_decide (RequestType r = BlockRequest) then b ← DecodeB (Content r); AddBlock b bc else Ok bc)
    (λ bc, ∃ h', at_height n.1 g.*1 h' bc ∧ Txpool bc = Txpool (App (node q))) (App (node q)) rs)
    as (bc' & E & h' & Ha & Ht).
  - exists h. split; [apply Hn|done].
  - intros bc r Hin (h1 & Ha & Ht). destruct Hrs as [->| ->]; [|by apply not_elem_of_nil in Hin]. rewrite list.Forall_forall in Hr.
    apply Hr, list_elem_of_fmap in Hin as (e & -> & He). apply list_elem_of_lookup in He as [j Hj].
    cbn [RequestType req]. rewrite bool_decide_eq_true_2 by done. unfold DecodeB. cbn [Content req]. rewrite must_decode_encode.
    cbn [mbind go_bind]. destruct (add_log_block n.1 g.*1 h1 bc j e.1 (proj1 Hg) Ha) as (bc2 & h2 & E2 & Ha2 & Ht2 & _).
    { by rewrite list_lookup_fmap, Hj. }
    exists bc2. split; [done|]. exists h2. split; [done|]. by rewrite Ht2.
  - rewrite E. cbn [mbind go_bind]. exists bc', h', true. done.
Qed.

(** Learning the requests changes the request pool, the heights and the replies only. *)
Lemma learn_all_same (g : glog) b (rs : list (nat * Request)) q hd nd : Forall (λ ir, ir.2 ∈ req <$> g) rs →
  let p' := foldl (learn_old b) (node q) rs in
  same g q (mkProc p' hd nd) ∧ App p' = App (node q) ∧ sequenceLock p' = sequenceLock (node q) ∧
  askForLock p' = askForLock (node q).
Proof.
  intros Hr. revert q. induction Hr as [|ir rs Hi _ IH]; intros q; cbn [foldl].
  { split; [|done]. split; try done. by left. }
  pose proof (IH (mkProc (learn_old b (node q) ir) hd nd)) as IH1. cbv zeta in IH1 |- *. cbn [node] in IH1.
  destruct IH1 as (Hs & -> & -> & ->). split; [|done].
  destruct Hs as [s1 s2 s3 s4 s5 s6 s7]. split; try done. intros d.
  destruct (s7 d) as [E|?]; [|by right]. cbn [node] in E |- *. rewrite E. cbn. rewrite lookup_insert.
  case_decide; [|by left]. right. exists ir.2. done.
Qed.

(** A follower that has added the blocks and learnt the requests. *)
Lemma caught_up (g : glog) n h h' q b (rs : list Request) bc' : node_ok g n h q → n.2 ≠ 0 → Forall (λ r, r ∈ req <$> g) rs →
  at_height n.1 g.*1 h' bc' → Txpool bc' = Txpool (App (node q)) →
  let p2 := foldl (learn_old b) ((node q) <| App := bc' |>) (imap pair rs) in
  node_ok g n h' (mkProc p2 (holding q) (ending q)) ∧ App p2 = bc' ∧ askForLock p2 = askForLock (node q).
Proof.
  intros Hn Hz Hr Ha Ht. pose (q1 := mkProc ((node q) <| App := bc' |>) (holding q) (ending q)).
  destruct (learn_all_same g b (imap pair rs) q1 (holding q) (ending q)) as (Hs & Ea & El & Eas).
  { by apply (imap_pair_Forall (λ r, r ∈ req <$> g)). }
  cbn [node q1] in *. cbv zeta. split; [|done].
  eapply node_ok_follower; [|exact Hn|done|..]; cbn [node holding]; rewrite ?Ea, ?El; try done; [|by cbn; rewrite Ht].
  destruct Hs as [s1 s2 s3 s4 s5 s6 s7]. by split.
Qed.

(** The answer was handled: the lock is given back. *)
Lemma answered (G : Z → glog) n h h' q p som out : member n → glog_ok n.1 (G n.1) → n.2 ≠ 0 →
  node_ok (G n.1) n h' (mkProc p (holding q) (ending q)) → askForLock (node q) = true →
  Txpool (App p) = Txpool (App (node q)) → packets_ok G out →
  Forall (λ pk, carried pk.2 = [] ∧ ∀ n', asks n' pk = 0) out →
  result G n h q [] (λ n', asks n' (addr n, MSendOld som)) (mkProc (p <| askForLock := false |>) (holding q) (ending q)) out.
Proof.
  intros Hm Hg Hz Hn Hask Ht Hp Hf. exists (G n.1), h'. split; [done|]. split; [|split; [by apply packets_put|split]].
  - eapply node_ok_same; [|exact Hn|..]; try done. split; try done. by left.
  - apply eff_receive with (clock := λ _, 0); [|done|eapply Forall_impl; [exact Hf|]; by intros pk [? _]].
    cbn. by rewrite Ht, app_nil_r.
  - intros n' Hm'. rewrite asks_none by (eapply Forall_impl; [exact Hf|]; by intros pk [_ ?]).
    unfold asking, asks. cbn -[addr]. rewrite Hask. destruct (decide (n' = n)) as [->|Hne]; [by rewrite decide_True|].
    rewrite decide_False; [done|]. intros E. by apply Hne, addr_inj.
Qed.

Lemma send_old_ok (G : Z → glog) n h q a som : member n → glog_ok n.1 (G n.1) → node_ok (G n.1) n h q →
  msg_ok (G n.1) n (MSendOld som) → seq_msg (two64 - 2) (MSendOld som) → a = addr n → askForLock (node q) = true →
  ∃ o, handleSendOldSeq som (node q) = Ok o ∧ ∀ p out, o = Some (p, out) →
    result G n h q [] (λ n', asks n' (a, MSendOld som)) (mkProc p (holding q) (ending q)) out.
Proof.
  intros Hm Hg Hn [Hz Hr] Hsq -> Hask. unfold handleSendOldSeq. cbn [HandleforSequentialRequest RawRelayPbftExtraHandleMod].
  destruct (sequential_ok (G n.1) n h q som Hg Hn Hr Hsq) as (bc' & h' & f & -> & Ha & Ht). cbn [mbind go_bind].
  destruct (caught_up (G n.1) n h h' q (SOSeqStartHeight som) (OldRequest som) bc' Hn Hz Hr Ha Ht) as (Hn2 & Ea & Eas).
  set (p2 := foldl _ _ _) in *. pose (p3 := p2 <| sequenceID := u64 (SOSeqEndHeight som + 1) |>).
  assert (node_ok (G n.1) n h' (mkProc p3 (holding q) (ending q))) as Hn3.
  { eapply node_ok_same; [|exact Hn2|..]; try done. split; try done. by left. }
  assert (Txpool (App p3) = Txpool (App (node q))) as Ht3 by (cbn; by rewrite Ea).
  assert (askForLock p3 = true) as Hask3 by (cbn; by rewrite Eas).
  change (p2 <| sequenceID := u64 (SOSeqEndHeight som + 1) |>) with p3.
  match goal with |- context [match ?o with Some _ => _ | None => _ end] => destruct o as [r|] eqn:Er end.
  - apply bind_Some in Er as (d & _ & Er). destruct (n_pool _ _ _ _ Hn3 d r Er) as [_ Hrr].
    pose proof Hrr as (e & -> & He)%list_elem_of_fmap.
    cbn [HandleinPrePrepare RawRelayPbftExtraHandleMod]. unfold raw_HandleinPrePrepare, valid_proposal. cbn [RequestMsg].
    assert (DecodeB (Content (req e)) = Ok e.1) as -> by apply must_decode_encode. cbn [mbind go_bind].
    assert (node_ok (G n.1) n h' (mkProc (p3 <| App := App p3 |>) (holding q) (ending q))) as Hn4.
    { eapply node_ok_same; [|exact Hn3|..]; try done. split; try done. by left. }
    destruct (IsValidBlock (App p3) e.1); cbn [mbind go_bind];
      change (askForLock (p3 <| App := App p3 |>)) with (askForLock p3); rewrite Hask3;
      eexists; (split; [done|]); intros p out [= <- <-]; apply (answered G n h h'); try done; [apply packets_nil|..].
    + intros a m Hin. eapply (send_all_ok G n h' (mkProc _ _ _) (MPrepare _) Hn4 Hm);
        [|apply elem_of_app; left; exact Hin]. intros n' _ _. cbn. apply list_elem_of_fmap. by exists e.
    + unfold Broadcast. apply Forall_fmap, list.Forall_forall. done.
  - cbn [mbind go_bind]. rewrite Hask3. eexists. split; [done|]. intros p out [= <- <-].
    apply (answered G n h h'); try done. apply packets_nil.
Qed.

(** ** Transactions, and the dispatch *)
Lemma receive_ok (G : Z → glog) n h q clock txs p : member n → glog_ok n.1 (G n.1) → node_ok (G n.1) n h q →
  Forall (tx_in n.1) txs → same (G n.1) q (mkProc p (holding q) (ending q)) → isReply p = isReply (node q) →
  sequenceLock p = sequenceLock (node q) → askForLock p = askForLock (node q) → blockedCommit p = blockedCommit (node q) →
  App p = SendTx2Pool clock txs (App (node q)) → result G n h q txs (λ _, 0) (mkProc p (holding q) (ending q)) [].
Proof.
  intros Hm Hg Hn Ht Hs Er El Ea Eb Eap. exists (G n.1), h. split; [done|].
  split; [|split; [apply packets_nil|split]].
  - destruct (same_pool _ _ _ _ _ Hs Hn) as [Hp1 Hp2].
    destruct Hs as [s1 s2 s3 s4 s5 s6 _], Hn as [n1 n2 n3 n4 n5 n6 n7 n8 n9 n10 n11]. cbn [node] in *.
    split; cbn [node holding]; rewrite ?s1, ?s2, ?s3, ?s4, ?s5, ?s6, ?El, ?Eap; try done.
    + by apply at_height_pool.
    + cbn. apply Forall_app. split; [done|]. by apply queue_stamped.
    + intros Hl. destruct (n11 Hl) as [l1 l2 l3 l4]. split; cbn [node holding]; rewrite ?Er, ?El, ?Eb; try done.
      intros e He. by apply Hp2, l1.
  - apply eff_receive with (clock := clock); [cbn; by rewrite Eap|done|done].
  - intros n' _. unfold asking. cbn. rewrite Ea. case_decide; lia.
Qed.

(** Every message that may be under way to a node is handled without a panic, and keeps the
    invariant. *)
Lemma node_message_ok (G : Z → glog) n h q now clock m : member n → glog_ok n.1 (G n.1) → node_ok (G n.1) n h q →
  msg_ok (G n.1) n m → seq_msg (two64 - 2) m → (0 < asks n (addr n, m) → askForLock (node q) = true) →
  ∃ o, handleMessage (view (node q)) now clock m (node q) = Ok o ∧ ∀ p out, o = Some (p, out) →
    result G n h q (carried m) (λ n', asks n' (addr n, m)) (mkProc p (holding q) (ending q)) out.
Proof.
  intros Hm Hg Hn Hok Hsq Hask. unfold handleMessage, handleOverhead. destruct (dp_plain HD) as [-> _]. cbn [negb].
  destruct m; try done.
  - by apply preprepare_ok.
  - by apply prepare_ok.
  - by apply commit_ok.
  - by apply request_old_ok.
  - apply (send_old_ok G n h q (addr n)); try done. apply Hask. unfold asks. cbn -[addr]. by rewrite decide_True.
  - cbn [HandleMessageOutsidePBFT RawRelayOutsideModule raw_HandleMessageOutsidePBFT mbind go_bind].
    eexists. split; [done|]. intros p out [= <- <-]. destruct Hok as [_ Hok].
    apply (receive_ok G n h q clock); try done; [|split; try done; by left].
    eapply Forall_impl; [exact Hok|]. intros tx. by right.
  - cbn [HandleMessageOutsidePBFT RawRelayOutsideModule raw_HandleMessageOutsidePBFT mbind go_bind].
    eexists. split; [done|]. intros p out [= <- <-].
    apply (receive_ok G n h q clock); try done; [|split; try done; by left].
    eapply Forall_impl; [exact Hok|]. intros tx. by left.
  - cbn [HandleMessageOutsidePBFT RawRelayOutsideModule raw_HandleMessageOutsidePBFT mbind go_bind].
    eexists. split; [done|]. intros p out [= <- <-]. apply quiet_result; try done; [by destruct q|apply packets_nil].
Qed.
End node.
