(* ===== verification/SystemInv.v ===== *)
(** * The invariant of the system

    All nodes of a shard are on one log, the messages under way speak of it, and no transaction is
    lost or duplicated on its way from the supervisor through the pools, the logs and the relays.
    Every step keeps this, and no step panics. *)
From S2P Require Import Prelude Utils Libs Core Messages Storage Chain MerkleProof Overhead.
From S2P Require Import Pbft PbftFacts RelayModule RelayFacts SupervisorProcess Setup SetupFacts System SystemSeq SystemLog SystemNode.

(** ** Sums *)

(** A sum in which one term changes. *)
Lemma sumZ_update {A} (f f' : A → Z) (l : list A) (x : A) : NoDup l → x ∈ l →
  (∀ y, y ∈ l → y ≠ x → f' y = f y) → sumZ f' l = sumZ f l + (f' x - f x).
Proof.
  intros Hnd. induction Hnd as [|y l Hy Hnd IH]; intros Hx Hf; [by apply not_elem_of_nil in Hx|].
  rewrite !sumZ_cons. apply elem_of_cons in Hx as [->|Hx].
  - rewrite (sumZ_ext f' f l); [lia|]. intros z Hz. apply Hf; [by apply list_elem_of_further|]. by intros ->.
  - rewrite (IH Hx), (Hf y); [lia|apply list_elem_of_here|by intros ->|].
    intros z Hz. apply Hf. by apply list_elem_of_further.
Qed.

Lemma sumZ_delete {A} (f : A → Z) (l : list A) i x : l !! i = Some x → sumZ f l = f x + sumZ f (delete i l).
Proof. intros Hi. by rewrite (sumZ_Permutation f _ _ (delete_Permutation l i x Hi)), sumZ_cons. Qed.

Section inv.
Context `{Params, BitSetLib, CryptoLib, !Codec AccountState, !Codec Request, !Codec Transaction,
          !Codec BlockHeader, !Codec Block, BoltLib, TrieLib}.
Context (table : gmap Z (gmap Z string)) (nnm snm : Z) (Q : Z → Transaction → Prop).

Record sys_ok (G : Z → list (Block * Time)) (hs : Z → nat) (S : System) : Prop := {
  so_logs : ∀ s, 0 ≤ s < snm → glog_ok Q s (G s);
  so_procs : ∀ n, is_Some (procs S !! n) ↔ member nnm snm n;
  so_nodes : ∀ n q, procs S !! n = Some q → ∃ h, node_ok table snm Q (G n.1) n h q ∧ (n.2 = 0 → h = hs n.1);
  so_wire : packets_ok table nnm snm Q G (wire S);
  so_asks : ∀ n q, procs S !! n = Some q → sumZ (asks table n) (wire S) = asking q;
}.

(** ** Accounts of the transactions

    [w] is any measure of a transaction that does not look at its time stamp or its relay mark:
    1 to count them, their value, or whether they are a given one. *)
Section weight.
Context (w : Transaction → Z).
Class timeless : Prop := {
  w_stamp t tx : w (stamp t tx) = w tx;
  w_mark tx : w (mark tx) = w tx;
}.

Definition fresh (tx : Transaction) : Z := if Relayed tx then 0 else w tx.
Definition relayed (tx : Transaction) : Z := if Relayed tx then w tx else 0.

Definition queue (S : System) (n : Z * Z) : list Transaction :=
  match procs S !! n with Some q => TxQueue (Txpool (App (node q))) | None => [] end.

Definition log_txs (g : list (Block * Time)) : list Transaction := flat_map (λ e, Body e.1) g.

(** A transaction that shard [s] relays to shard [t]. *)
Definition goes (s t : Z) (tx : Transaction) : bool :=
  negb (Relayed tx) && (home (Sender tx) =? s) && negb (home (Recipient tx) =? s) && (home (Recipient tx) =? t).

(** The first halves: under way from the supervisor, in a pool, in a log. *)
Definition fresh_total (G : Z → list (Block * Time)) (S : System) : Z :=
  sumZ (λ pk : packet, sumZ fresh (carried pk.2)) (wire S) +
  sumZ (λ n, sumZ fresh (queue S n)) (nodes_of nnm snm) +
  sumZ (λ s, sumZ fresh (log_txs (G s))) (upto snm).

(** The second halves for shard [t]: under way from the other shards, in a pool, in its log. *)
Definition relayed_total (t : Z) (G : Z → list (Block * Time)) (S : System) : Z :=
  sumZ (λ pk : packet, if decide (pk.1 = addr table (t, 0)) then sumZ relayed (carried pk.2) else 0) (wire S) +
  sumZ (λ n, if decide (n.1 = t) then sumZ relayed (queue S n) else 0) (nodes_of nnm snm) +
  sumZ relayed (log_txs (G t)).

(** What the other shards have executed for shard [t]. *)
Definition sent_total (t : Z) (G : Z → list (Block * Time)) (hs : Z → nat) : Z :=
  sumZ (λ s, sumZ (λ tx, if goes s t tx then w tx else 0) (log_txs (take (hs s) (G s)))) (upto snm).

(** What an event injects. *)
Definition injects (e : sys_event) : list Transaction := match e with SInject _ txs => txs | _ => [] end.

Lemma log_txs_app g1 g2 : log_txs (g1 ++ g2) = log_txs g1 ++ log_txs g2.
Proof. apply flat_map_app. Qed.

Context `{!timeless}.

Lemma sum_stamped (f : Transaction → Z) (clock : nat → Time) txs : (∀ t tx, f (stamp t tx) = f tx) →
  sumZ f (imap (λ i tx, stamp (clock i) tx) txs) = sumZ f txs.
Proof.
  intros Hf. revert clock. induction txs as [|tx txs IH]; intros clock; [done|].
  rewrite imap_cons, !sumZ_cons, Hf. f_equal. apply (IH (clock ∘ Datatypes.S)).
Qed.

Lemma fresh_stamp t tx : fresh (stamp t tx) = fresh tx.
Proof. unfold fresh. destruct (stamp_fields t tx) as (_ & _ & -> & _). by rewrite w_stamp. Qed.

Lemma relayed_stamp t tx : relayed (stamp t tx) = relayed tx.
Proof. unfold relayed. destruct (stamp_fields t tx) as (_ & _ & -> & _). by rewrite w_stamp. Qed.

Lemma sum_marked (P : Transaction → bool) txs :
  sumZ relayed (mark <$> List.filter P txs) = sumZ (λ tx, if P tx then w tx else 0) txs ∧
  sumZ fresh (mark <$> List.filter P txs) = 0.
Proof.
  induction txs as [|tx txs [IH1 IH2]]; [done|]. cbn [List.filter]. rewrite sumZ_cons.
  destruct (P tx); [|by rewrite IH1]. rewrite fmap_cons, !sumZ_cons, IH1, IH2.
  unfold relayed at 1, fresh at 1. rewrite w_mark. done.
Qed.
End weight.

(** ** One step *)
Context `{!BitSetLaws, !CryptoLaws, !CollisionFree, !CodecLaws AccountState, !CodecLaws Request,
          !CodecLaws BlockHeader, !CodecLaws Block, !BoltLaws, !TrieLaws}.
Context `{!injected_ok Q} (HD : deployment table nnm snm).

Lemma msg_ok_app g e n m : msg_ok table nnm snm Q g n m → msg_ok table nnm snm Q (g ++ [e]) n m.
Proof.
  destruct m; cbn; try done; rewrite ?fmap_app, ?elem_of_app; auto.
  intros [Hz Hr]. split; [done|]. eapply Forall_impl; [exact Hr|]. intros r Hin. apply elem_of_app. by left.
Qed.

Lemma node_ok_app g e n h q : n.2 ≠ 0 → node_ok table snm Q g n h q → node_ok table snm Q (g ++ [e]) n h q.
Proof.
  intros Hz [n1 n2 n3 n4 n5 n6 n7 n8 n9 n10 n11]. split; try done.
  - intros d r Hr. destruct (n7 d r Hr) as [? ?]. split; [done|]. rewrite fmap_app, elem_of_app. by left.
  - rewrite fmap_app. by apply at_height_app.
Qed.

Lemma effect_log g n h q m g' h' q' out : effect table snm g n h q m g' h' q' out → g' = g ∨ (n.2 = 0 ∧ ∃ e, g' = g ++ [e]).
Proof. destruct 1; eauto. Qed.

Lemma packets_grow (G : Z → list (Block * Time)) s g' l : (g' = G s ∨ ∃ e, g' = G s ++ [e]) →
  packets_ok table nnm snm Q G l → packets_ok table nnm snm Q (put s g' G) l.
Proof.
  intros Hg Hp a m Hin n Hm Ha. specialize (Hp a m Hin n Hm Ha). unfold put. case_decide as E; [|done].
  rewrite E in Hp. destruct Hg as [->|[e ->]]; [done|]. by apply msg_ok_app.
Qed.

(** The leader heights after node [n] has come to [h']. *)
Definition raise (n : Z * Z) (h' : nat) (hs : Z → nat) : Z → nat := λ s, if decide (n = (s, 0)) then h' else hs s.

(** A node has consumed the packets [cs] (at most one) and sent [out]. *)
Lemma step_kept (G : Z → list (Block * Time)) hs S n q h q' g' h' out cs rest :
  sys_ok G hs S → procs S !! n = Some q → wire S ≡ₚ cs ++ rest →
  glog_ok Q n.1 g' → node_ok table snm Q g' n h' q' → packets_ok table nnm snm Q (put n.1 g' G) out →
  effect table snm (G n.1) n h q (flat_map (carried ∘ snd) cs) g' h' q' out →
  (∀ n', member nnm snm n' → sumZ (asks table n') out = sumZ (asks table n') cs + (if decide (n' = n) then asking q' - asking q else 0)) →
  sys_ok (put n.1 g' G) (raise n h' hs) (mkSystem (<[n := q']> (procs S)) (rest ++ out)).
Proof.
  intros [s1 s2 s3 s4 s5] Hq Hw Hg' Hn' Hp' He Ha. pose proof (effect_log _ _ _ _ _ _ _ _ _ He) as Hgrow.
  assert (member nnm snm n) as Hm by (apply s2; eauto). split; cbn [procs wire].
  - intros s Hs. unfold put. case_decide; [by subst|by apply s1].
  - intros n'. rewrite lookup_insert_is_Some, <-s2. split; [intros [->|[_ ?]]; eauto|].
    intros Hn1. destruct (decide (n = n')); auto.
  - intros n' q1. rewrite lookup_insert. case_decide as E.
    + intros [= <-]. subst n'. exists h'. unfold put. rewrite decide_True by done. split; [done|].
      intros Hz. unfold raise. rewrite decide_True; [done|]. destruct n; cbn in *; by subst.
    + intros Hq1. destruct (s3 n' q1 Hq1) as (h1 & Hn1 & Hh1). exists h1.
      assert (n'.2 = 0 → h1 = raise n h' hs n'.1) as Hr.
      { intros Hz. unfold raise. rewrite decide_False; [by apply Hh1|]. intros ->. apply E. destruct n'; cbn in *; by subst. }
      split; [|done]. unfold put. case_decide as E1; [|done].
      destruct Hgrow as [->|[Hz [e ->]]]; [by rewrite <-E1|]. apply node_ok_app; [|by rewrite <-E1].
      intros Hz'. apply E. destruct n, n'; cbn in *; by subst.
  - apply packets_app; [|done]. apply packets_grow; [naive_solver|]. intros a m Hin. apply s4. rewrite Hw.
    apply elem_of_app. by right.
  - intros n' q1. rewrite lookup_insert, sumZ_app. intros Hq1.
    assert (member nnm snm n') as Hm'. { case_decide; [by subst|]. apply s2. eauto. }
    rewrite (Ha n' Hm').
    assert (∀ q2, procs S !! n' = Some q2 → sumZ (asks table n') cs + sumZ (asks table n') rest = asking q2) as Hs.
    { intros q2 Hq2. by rewrite <-sumZ_app, <-(sumZ_Permutation _ _ _ Hw), <-(s5 n' q2 Hq2). }
    destruct (decide (n = n')) as [<-|Hne].
    + rewrite decide_True by done. injection Hq1 as <-. specialize (Hs q Hq). lia.
    + rewrite decide_False by congruence. specialize (Hs q1 Hq1). lia.
Qed.

(** ** The accounts after a step *)
Lemma sum_carried (f : Transaction → Z) (l : list packet) :
  sumZ (λ pk : packet, sumZ f (carried pk.2)) l = sumZ f (flat_map (carried ∘ snd) l).
Proof. induction l as [|pk l IH]; [done|]. rewrite sumZ_cons. cbn [flat_map]. by rewrite sumZ_app, IH. Qed.

Section moved.
Context (w : Transaction → Z) `{!timeless w}.
Context (G : Z → list (Block * Time)) (hs : Z → nat) (S : System) (n : Z * Z) (q q' : Proc) (g' : list (Block * Time)) (h' : nat).
Context (out cs rest : list packet).
Context (Hq : procs S !! n = Some q) (Hm : member nnm snm n) (Hw : wire S ≡ₚ cs ++ rest).
Let S' := mkSystem (<[n := q']> (procs S)) (rest ++ out).
Abbreviation q_txs q := (TxQueue (Txpool (App (node q)))).

Lemma sum_wire (f : packet → Z) : sumZ f (wire S') = sumZ f (wire S) - sumZ f cs + sumZ f out.
Proof. unfold S'. cbn [wire]. rewrite (sumZ_Permutation f _ _ Hw), !sumZ_app. lia. Qed.

Lemma sum_queues (f : Z * Z → list Transaction → Z) :
  sumZ (λ n', f n' (queue S' n')) (nodes_of nnm snm) =
    sumZ (λ n', f n' (queue S n')) (nodes_of nnm snm) + (f n (q_txs q') - f n (q_txs q)).
Proof.
  rewrite (sumZ_update (λ n', f n' (queue S n')) (λ n', f n' (queue S' n')) (nodes_of nnm snm) n).
  - unfold queue, S'. cbn [procs]. by rewrite lookup_insert_eq, Hq.
  - apply all_nodes_nodup.
  - destruct n as [i j]. apply elem_of_all_nodes. exact Hm.
  - intros n' _ Hne. unfold queue, S'. cbn [procs]. by rewrite lookup_insert_ne.
Qed.

Lemma sum_logs (f : list (Block * Time) → Z) :
  sumZ (λ s, f (put n.1 g' G s)) (upto snm) = sumZ (λ s, f (G s)) (upto snm) + (f g' - f (G n.1)).
Proof.
  rewrite (sumZ_update (λ s, f (G s)) (λ s, f (put n.1 g' G s)) (upto snm) n.1).
  - unfold put. by rewrite decide_True.
  - apply upto_nodup.
  - apply elem_of_upto, Hm.
  - intros s _ Hne. unfold put. by rewrite decide_False.
Qed.

Lemma none_carried (f : Transaction → Z) l : Forall (λ pk : packet, carried pk.2 = []) l →
  sumZ (λ pk : packet, sumZ f (carried pk.2)) l = 0 ∧
  ∀ a : string, sumZ (λ pk : packet, if decide (pk.1 = a) then sumZ f (carried pk.2) else 0) l = 0.
Proof.
  rewrite list.Forall_forall. intros Hl. split.
  - apply sumZ_zero. intros pk Hin. by rewrite (Hl pk Hin).
  - intros a. apply sumZ_zero. intros pk Hin. rewrite (Hl pk Hin). by case_decide.
Qed.

Context (h : nat) (Hn : node_ok table snm Q (G n.1) n h q) (Hh : n.2 = 0 → h = hs n.1).
Context (He : effect table snm (G n.1) n h q (flat_map (carried ∘ snd) cs) g' h' q' out).

(** The relays of a block hold no first halves. *)
Lemma relays_fresh seq b pk : carried pk.2 = [] →
  sumZ (λ pk : packet, sumZ (fresh w) (carried pk.2)) (relays_of table snm n seq b ++ [pk]) = 0.
Proof.
  intros Hp. rewrite sumZ_app. rewrite (proj1 (none_carried (fresh w) [pk] ltac:(by apply Forall_singleton))).
  rewrite (sumZ_zero _ (relays_of table snm n seq b)); [done|]. intros pk' Hin. unfold relays_of in Hin.
  apply list_elem_of_fmap in Hin as (sid & -> & _). cbn. by apply sum_marked.
Qed.

(** First halves move and are neither lost nor made. *)
Lemma fresh_moved : fresh_total w (put n.1 g' G) S' = fresh_total w G S.
Proof.
  unfold fresh_total. rewrite sum_wire, (sum_queues (λ _, sumZ (fresh w))), (sum_logs (λ g, sumZ (fresh w) (log_txs g))).
  rewrite (sum_carried _ cs). destruct He as [h1 q1 out1 clock Eq _ Ho|q1 e out1 Hz Ec Eq Ho|q1 e seq pk Hz Ec Hg Hp Eq].
  - rewrite Eq, sumZ_app, (sum_stamped (fresh w)) by (intros; apply fresh_stamp; done). rewrite (proj1 (none_carried (fresh w) _ Ho)). lia.
  - rewrite Ec, Eq, log_txs_app, !sumZ_app, (proj1 (none_carried (fresh w) _ Ho)). cbn [log_txs flat_map]. rewrite app_nil_r.
    change (sumZ _ []) with 0. lia.
  - rewrite Ec, Eq, relays_fresh by done. change (sumZ _ []) with 0. lia.
Qed.

(** A message to a follower has no second halves, nor has an injection. *)
Context (Hc : Forall (λ pk : packet, pk.1 = addr table n ∧ msg_ok table nnm snm Q (G n.1) n pk.2) cs).

Lemma carried_relayed pk : pk.1 = addr table n → msg_ok table nnm snm Q (G n.1) n pk.2 → n.2 ≠ 0 →
  sumZ (relayed w) (carried pk.2) = 0.
Proof.
  intros Ea Hok Hz. destruct pk as [a m]. destruct m; try done; cbn in *; [by destruct Hok|].
  apply sumZ_zero. intros tx Hin. rewrite list.Forall_forall in Hok. apply Hok, inj_homes in Hin as [_ Er]; [|done..].
  unfold relayed. by rewrite Er.
Qed.

Lemma consumed_relayed t : member nnm snm (t, 0) →
  sumZ (λ pk : packet, if decide (pk.1 = addr table (t, 0)) then sumZ (relayed w) (carried pk.2) else 0) cs =
    if decide (n.1 = t) then sumZ (relayed w) (flat_map (carried ∘ snd) cs) else 0.
Proof.
  intros Hmt. rewrite <-sum_carried.
  transitivity (sumZ (λ pk : packet, if decide (n.1 = t) then sumZ (relayed w) (carried pk.2) else 0) cs);
    [|case_decide; [done|by apply sumZ_zero]].
  apply sumZ_ext. intros pk Hin. rewrite list.Forall_forall in Hc. destruct (Hc pk Hin) as [Ea Hok].
  destruct (decide (n.2 = 0)) as [Hz|Hz].
  - rewrite Ea. assert (addr table n = addr table (t, 0) ↔ n.1 = t) as Hiff.
    { split; [intros E%(addr_inj table nnm snm HD)|intros <-; by destruct n; cbn in *; subst]; try done. by rewrite E. }
    destruct (decide (addr table n = addr table (t, 0))), (decide (n.1 = t)); tauto.
  - rewrite (carried_relayed pk Ea Hok Hz). by do 2 case_decide.
Qed.

(** What the relays of a block bring to shard [t]. *)
Lemma relays_relayed t seq b pk : member nnm snm (t, 0) → carried pk.2 = [] →
  sumZ (λ pk : packet, if decide (pk.1 = addr table (t, 0)) then sumZ (relayed w) (carried pk.2) else 0)
    (relays_of table snm n seq b ++ [pk]) =
  sumZ (λ tx, if goes n.1 t tx then w tx else 0) (Body b).
Proof.
  intros Hmt Hp. rewrite sumZ_app.
  assert (sumZ (λ pk : packet, if decide (pk.1 = addr table (t, 0)) then sumZ (relayed w) (carried pk.2) else 0) [pk] = 0) as ->.
  { apply sumZ_zero. intros pk' ->%list_elem_of_singleton. rewrite Hp. by case_decide. }
  unfold relays_of. rewrite sumZ_fmap. cbn [fst snd carried RTxs]. rewrite Z.add_0_r.
  set (val := λ sid, sumZ (λ tx, if goes n.1 sid tx then w tx else 0) (Body b)).
  transitivity (sumZ (λ sid, if decide (sid = t) then val t else 0) (List.filter (λ sid, negb (sid =? n.1)) (heights 0 (snm - 1)))).
  - apply sumZ_ext. intros sid Hin. apply list_elem_of_In, filter_In in Hin as [Hin%list_elem_of_In%heights_range _].
    assert (addr table (sid, 0) = addr table (t, 0) ↔ sid = t) as Hiff.
    { split; [intros E%(addr_inj table nnm snm HD)|by intros ->]; [by injection E| |done].
      split; cbn; [lia|]. by destruct Hmt. }
    destruct (decide (addr table (sid, 0) = addr table (t, 0))) as [E1|E1], (decide (sid = t)) as [E2|E2]; try tauto.
    subst sid. unfold val, goes. by apply sum_marked.
  - destruct (decide (t = n.1)) as [->|Hne].
    + rewrite sumZ_zero; [symmetry; apply sumZ_zero|].
      * intros tx _. unfold goes. destruct (home (Recipient tx) =? n.1); cbn; by rewrite ?andb_false_r.
      * intros sid Hin. apply list_elem_of_In, filter_In in Hin as [_ Hin]. zbool. by rewrite decide_False.
    + apply (sumZ_single t (val t)).
      * apply NoDup_ListNoDup, List.NoDup_filter, NoDup_ListNoDup. unfold heights. apply NoDup_fmap_2; [intros x y; lia|apply NoDup_seq].
      * apply list_elem_of_In, filter_In. split; [apply list_elem_of_In, heights_range; destruct Hmt; cbn in *; lia|].
        apply negb_true_iff. by apply Z.eqb_neq.
Qed.

(** What the shards have executed for shard [t]. *)
Lemma sent_moved t : (h ≤ length (G n.1))%nat →
  sent_total w t (put n.1 g' G) (raise n h' hs) - sent_total w t G hs =
    if decide (n.2 = 0)
    then sumZ (λ tx, if goes n.1 t tx then w tx else 0) (log_txs (take h' g')) -
         sumZ (λ tx, if goes n.1 t tx then w tx else 0) (log_txs (take h (G n.1)))
    else 0.
Proof.
  intros Hb. unfold sent_total. set (f := λ s, sumZ (λ tx, if goes s t tx then w tx else 0) (log_txs (take (hs s) (G s)))).
  rewrite (sumZ_update f _ (upto snm) n.1); [|apply upto_nodup|apply elem_of_upto, Hm|].
  - unfold f, put, raise. rewrite (decide_True (P := n.1 = n.1)) by done. case_decide as E1; case_decide as E2.
    + rewrite <-Hh by done. lia.
    + destruct n; cbn in *; congruence.
    + destruct n; cbn in *; congruence.
    + destruct (effect_log _ _ _ _ _ _ _ _ _ He) as [->|[? _]]; [lia|done].
  - intros s _ Hne. unfold f, put, raise. rewrite (decide_False (P := s = n.1)), decide_False; [done|by intros ->|done].
Qed.

(** Second halves: what the other shards have executed for a shard, it has received or will. *)
Lemma relayed_moved t : member nnm snm (t, 0) →
  relayed_total w t (put n.1 g' G) S' - relayed_total w t G S =
    sent_total w t (put n.1 g' G) (raise n h' hs) - sent_total w t G hs.
Proof.
  intros Hmt. pose proof (ah_bound _ _ _ _ (n_height _ _ _ _ _ _ _ Hn)) as Hb. rewrite length_fmap in Hb.
  rewrite sent_moved by done. unfold relayed_total.
  rewrite sum_wire, (sum_queues (λ n' l, if decide (n'.1 = t) then sumZ (relayed w) l else 0)), consumed_relayed by done.
  assert (sumZ (relayed w) (log_txs (put n.1 g' G t)) - sumZ (relayed w) (log_txs (G t)) =
    if decide (n.1 = t) then sumZ (relayed w) (log_txs g') - sumZ (relayed w) (log_txs (G n.1)) else 0) as Hlog.
  { unfold put. destruct (decide (t = n.1)) as [->|Hne]; [by rewrite decide_True|]. rewrite decide_False by congruence. lia. }
  destruct He as [h1 q1 out1 clock Eq Eh Ho|q1 e out1 Hz Ec Eq Ho|q1 e seq pk Hz Ec Hg Hp Eq].
  - rewrite (proj2 (none_carried (relayed w) _ Ho)), Eq, sumZ_app, (sum_stamped (relayed w)) by (intros; by apply relayed_stamp).
    destruct (decide (n.2 = 0)) as [Hz|Hz]; [rewrite Eh by done|]; case_decide; lia.
  - rewrite (proj2 (none_carried (relayed w) _ Ho)), Ec, Eq, sumZ_app in *. rewrite log_txs_app, sumZ_app in Hlog. cbn [log_txs flat_map] in Hlog.
    rewrite app_nil_r in Hlog. rewrite (decide_True (P := n.2 = 0)), take_app_le by done. change (sumZ _ []) with 0. case_decide; lia.
  - rewrite Ec, Eq, relays_relayed, (decide_True (P := n.2 = 0)) by done. rewrite (take_S_r _ _ _ Hg), log_txs_app, sumZ_app.
    cbn [log_txs flat_map]. rewrite app_nil_r. change (sumZ _ []) with 0. case_decide; lia.
Qed.
End moved.

(** ** Every event *)
Definition accounts (G : Z → list (Block * Time)) (hs : Z → nat) (S : System) (txs : list Transaction)
    (G' : Z → list (Block * Time)) (hs' : Z → nat) (S' : System) : Prop :=
  ∀ w, timeless w →
    fresh_total w G' S' = fresh_total w G S + sumZ (fresh w) txs ∧
    ∀ t, 0 ≤ t < snm → relayed_total w t G' S' - relayed_total w t G S = sent_total w t G' hs' - sent_total w t G hs.

Lemma advance (G : Z → list (Block * Time)) hs S n q h q' out cs rest : sys_ok G hs S → procs S !! n = Some q →
  node_ok table snm Q (G n.1) n h q → (n.2 = 0 → h = hs n.1) → wire S ≡ₚ cs ++ rest →
  Forall (λ pk : packet, pk.1 = addr table n ∧ msg_ok table nnm snm Q (G n.1) n pk.2) cs →
  result table nnm snm Q G n h q (flat_map (carried ∘ snd) cs) (λ n', sumZ (asks table n') cs) q' out →
  ∃ G' hs', let S' := mkSystem (<[n := q']> (procs S)) (rest ++ out) in sys_ok G' hs' S' ∧ accounts G hs S [] G' hs' S'.
Proof.
  intros Hok Hq Hn Hh Hw Hc (g' & h' & Hg' & Hn' & Hp & He & Ha).
  assert (member nnm snm n) as Hm by (apply (so_procs _ _ _ Hok); eauto).
  exists (put n.1 g' G), (raise n h' hs). split; [by eapply step_kept|].
  intros w Hw'. split.
  - change (sumZ _ []) with 0. rewrite Z.add_0_r. by eapply fresh_moved.
  - intros t Ht. eapply relayed_moved; try done. split; [done|]. pose proof (dp_nodes _ _ _ HD). cbn. lia.
Qed.

Definition inject_ok (e : sys_event) : Prop := match e with SInject n txs => Forall (Q n.1) txs | _ => True end.

(** Injected transactions are under way. *)
Lemma inject_step (G : Z → list (Block * Time)) hs S n q txs : sys_ok G hs S → procs S !! n = Some q → Forall (Q n.1) txs →
  let S' := mkSystem (procs S) (wire S ++ [(IPaddr (RunningNode (node q)), MInject (mkInjectTxs txs n.1))]) in
  sys_ok G hs S' ∧ accounts G hs S txs G hs S'.
Proof.
  intros [s1 s2 s3 s4 s5] Hq Ht S'. destruct (s3 n q Hq) as (h & Hn & _). pose proof (n_running _ _ _ _ _ _ _ Hn) as Er.
  assert (member nnm snm n) as Hm by (apply s2; eauto). split.
  - split; try done; cbn [procs wire S'].
    + apply packets_app; [done|]. intros a m Hin n' Hm' Ha. apply list_elem_of_singleton in Hin. injection Hin as -> ->.
      rewrite Er in Ha. cbn in Ha. by rewrite (addr_inj table nnm snm HD n' n).
    + intros n' q' Hq'. rewrite sumZ_app. change (sumZ (asks table n') [_]) with 0. rewrite Z.add_0_r. by apply s5.
  - intros w Hw. split.
    + unfold fresh_total. cbn [wire S']. rewrite sumZ_app, sumZ_cons. change (sumZ _ []) with 0. cbn [carried ITxs snd].
      change (queue S') with (queue S). lia.
    + intros t _. unfold relayed_total. cbn [wire S']. rewrite sumZ_app, sumZ_cons. change (sumZ _ []) with 0. cbn [carried ITxs snd fst].
      change (queue S') with (queue S).
      rewrite (sumZ_zero (relayed w) txs); [case_decide; lia|]. intros tx Hin. rewrite list.Forall_forall in Ht.
      apply Ht, inj_homes in Hin as [_ E]; [|done..]. unfold relayed. by rewrite E.
Qed.

Lemma event_ok (G : Z → list (Block * Time)) hs S e : sys_ok G hs S → seq_out (two64 - 2) (wire S) → inject_ok e →
  ∃ o, sys_step S e = Ok o ∧ ∀ S', o = Some S' → ∃ G' hs', sys_ok G' hs' S' ∧ accounts G hs S (injects e) G' hs' S'.
Proof.
  intros Hok Hsq Hi. destruct e as [n|n now|n|n i now clock|n txs|n now]; cbn [sys_step];
    (destruct (procs S !! n) as [q|] eqn:Hq; [|by eexists]);
    destruct (so_nodes _ _ _ Hok n q Hq) as (h & Hn & Hh);
    (assert (member nnm snm n) as Hm by (apply (so_procs _ _ _ Hok); eauto));
    pose proof (so_logs _ _ _ Hok n.1 (proj1 Hm)) as Hg.
  - destruct (begin_ok table nnm snm Q G n h q Hm Hg Hn) as (o & -> & Ho). cbn [mbind go_bind]. eexists. split; [done|].
    intros S' ([p out] & -> & [= <-])%bind_Some. eapply (advance G hs S n q h _ out []); try done. by apply Ho.
  - destruct (holding q) eqn:Eh; [|by eexists].
    destruct (node_send_ok table nnm snm Q HD G n h q now Hm Hg Hn Eh) as (o & -> & Ho). cbn [mbind go_bind]. eexists. split; [done|].
    intros S' ([p out] & -> & [= <-])%bind_Some. eapply (advance G hs S n q h _ out []); try done. by apply Ho.
  - destruct (ending q) as [|k]; [by eexists|].
    destruct (end_ok table nnm snm Q G n h q k Hm Hg Hn) as (o & -> & Ho). cbn [mbind go_bind]. eexists. split; [done|].
    intros S' ([p out] & -> & [= <-])%bind_Some. eapply (advance G hs S n q h _ out []); try done. by apply Ho.
  - destruct (wire S !! i) as [[a m]|] eqn:Ew; [|by eexists]. case_bool_decide as Ea; [|by eexists].
    rewrite (n_running _ _ _ _ _ _ _ Hn) in Ea. cbn [self IPaddr] in Ea. subst a.
    assert (msg_ok table nnm snm Q (G n.1) n m) as Hmsg.
    { apply (so_wire _ _ _ Hok (addr table n) m); [by eapply list_elem_of_lookup_2|done|done]. }
    assert (seq_msg (two64 - 2) m) as Hms.
    { unfold seq_out in Hsq. rewrite list.Forall_forall in Hsq. apply (Hsq (addr table n, m)). by eapply list_elem_of_lookup_2. }
    destruct (node_message_ok table nnm snm Q HD G n h q now clock m Hm Hg Hn Hmsg Hms) as (o & -> & Ho).
    { intros Hpos. pose proof (so_asks _ _ _ Hok n q Hq) as Hs. rewrite (sumZ_delete _ _ _ _ Ew) in Hs.
      assert (0 ≤ sumZ (asks table n) (delete i (wire S))).
      { apply sumZ_nonneg. intros [a' m'] _. unfold asks. cbn. destruct m'; try lia; case_decide; lia. }
      unfold asking in Hs. destruct (askForLock (node q)); [done|lia]. }
    cbn [mbind go_bind]. eexists. split; [done|]. intros S' ([p out] & -> & [= <-])%bind_Some.
    eapply (advance G hs S n q h _ out [(addr table n, m)] (delete i (wire S))); try done.
    + by apply delete_Permutation.
    + by apply Forall_singleton.
    + cbn [flat_map compose snd]. rewrite app_nil_r. destruct (Ho p out eq_refl) as (g' & h' & R1 & R2 & R3 & R4 & R5).
      exists g', h'. split; [done|]. split; [done|]. split; [done|]. split; [done|]. intros n' Hm'. rewrite (R5 n' Hm').
      rewrite sumZ_cons. change (sumZ _ []) with 0. lia.
  - eexists. split; [done|]. intros S' [= <-]. exists G, hs. by apply inject_step.
  - destruct (resume_ok table nnm snm Q HD G n h q now Hm Hg Hn) as (o & -> & Ho). cbn [mbind go_bind]. eexists. split; [done|].
    intros S' ([p out] & -> & [= <-])%bind_Some. eapply (advance G hs S n q h _ out []); try done. by apply Ho.
Qed.
End inv.
