(* ===== verification/SystemState.v ===== *)
(** * What a state of the system holds

    The blocks that the leader of a shard has executed, read back from its database from the current
    block to the genesis block; the blocks it has proposed and not executed, in its request pool; and
    the transactions that are in them, in the pools and under way.  All of it is a function of the
    state alone.  In a state of the invariant it is what the logs of the invariant say. *)
From S2P Require Import Prelude Utils Libs Core Messages Storage Chain MerkleProof Overhead.
From S2P Require Import Pbft PbftFacts RelayModule RelayFacts SupervisorProcess Setup SetupFacts System SystemSeq SystemLog SystemNode SystemInv.

Section state.
Context `{Params, BitSetLib, CryptoLib, !Codec AccountState, !Codec Request, !Codec Transaction,
          !Codec BlockHeader, !Codec Block, BoltLib, TrieLib}.

(** ** Chains and proposals *)

(** The blocks from the genesis block, which is not one of them, to the block with hash [h]. *)
Fixpoint read_chain (st : BoltDB) (fuel : nat) (h : bytes) : option (list Block) :=
  if decide (h = HeaderHash genesis_header) then Some []
  else match fuel with
       | O => None
       | S fuel =>
           match GetBlock st h with
           | Ok (inr b) => bs ← read_chain st fuel (ParentBlockHash (Header b)); Some (bs ++ [b])
           | _ => None
           end
       end.

(** What the leader of shard [s] has executed. *)
Definition leader_chain (S : System) (s : Z) (bs : list Block) : Prop :=
  ∃ q fuel, procs S !! (s, 0) = Some q ∧
    read_chain (Storage (App (node q))) fuel (Hash (CurrentBlock (App (node q)))) = Some bs.

(** The blocks of the requests that have not been replied to. *)
Definition pending (p : PbftConsensusNode BlockChain) : list Block :=
  omap (λ dr : bytes * Request, if decide (dr.1 ∈ isReply p) then None else Decode (Content dr.2))
    (map_to_list (requestPool p)).

Definition proposed (S : System) (s : Z) : list Block :=
  match procs S !! (s, 0) with Some q => pending (node q) | None => [] end.

Definition block_txs (bs : list Block) : list Transaction := flat_map Body bs.

(** ** The transactions, with the executed blocks [C s] of each shard [s] *)
Section totals.
Context (table : gmap Z (gmap Z string)) (nnm snm : Z) (w : Transaction → Z) (C : Z → list Block) (S : System).

(** First halves: under way from the supervisor, in a pool, proposed, or executed. *)
Definition first_total : Z :=
  sumZ (λ pk : packet, sumZ (fresh w) (carried pk.2)) (wire S) +
  sumZ (λ n, sumZ (fresh w) (queue S n)) (nodes_of nnm snm) +
  sumZ (λ s, sumZ (fresh w) (block_txs (proposed S s))) (upto snm) +
  sumZ (λ s, sumZ (fresh w) (block_txs (C s))) (upto snm).

(** Second halves that shard [t] has not executed: under way to it, in a pool, or proposed. *)
Definition in_transit (t : Z) : Z :=
  sumZ (λ pk : packet, if decide (pk.1 = addr table (t, 0)) then sumZ (relayed w) (carried pk.2) else 0) (wire S) +
  sumZ (λ n, if decide (n.1 = t) then sumZ (relayed w) (queue S n) else 0) (nodes_of nnm snm) +
  sumZ (relayed w) (block_txs (proposed S t)).

Definition second_total (t : Z) : Z := in_transit t + sumZ (relayed w) (block_txs (C t)).

(** What the shards have executed of transactions to accounts of shard [t]. *)
Definition sent_to (t : Z) : Z :=
  sumZ (λ s, sumZ (λ tx, if goes s t tx then w tx else 0) (block_txs (C s))) (upto snm).
End totals.

(** More fuel does not change what is read. *)
Lemma read_chain_mono st fuel fuel' h bs : (fuel ≤ fuel')%nat → read_chain st fuel h = Some bs → read_chain st fuel' h = Some bs.
Proof.
  revert fuel' h bs. induction fuel as [|fuel IH]; intros fuel' h bs Hf; cbn [read_chain].
  - destruct fuel'; cbn [read_chain]; by case_decide.
  - destruct fuel' as [|fuel']; [lia|]. cbn [read_chain]. case_decide; [done|]. destruct (GetBlock st h) as [[?|b]|]; [done| |done].
    intros (bs0 & E & [= <-])%bind_Some. rewrite (IH fuel' _ _ ltac:(lia) E). done.
Qed.

(** A state has at most one chain of a shard. *)
Lemma leader_chain_unique S s bs bs' : leader_chain S s bs → leader_chain S s bs' → bs = bs'.
Proof.
  intros (q & f & Hq & E) (q' & f' & Hq' & E'). rewrite Hq in Hq'. injection Hq' as <-.
  apply (read_chain_mono _ f (f `max` f')) in E; [|lia]. apply (read_chain_mono _ f' (f `max` f')) in E'; [|lia]. congruence.
Qed.

Context `{!BitSetLaws, !CryptoLaws, !CollisionFree, !CodecLaws AccountState, !CodecLaws Request,
          !CodecLaws BlockHeader, !CodecLaws Block, !BoltLaws, !TrieLaws}.

(** A node that has executed [h] blocks of a log reads these. *)
Lemma read_log s bs h bc j : log_ok s bs → at_height s bs h bc → (j ≤ h)%nat →
  read_chain (Storage bc) j (HeaderHash (header_after (take j bs))) = Some (take j bs).
Proof.
  intros Hl Ha. pose proof (ah_bound _ _ _ _ Ha) as Hb. induction j as [|j IH]; intros Hj; cbn [read_chain].
  { by rewrite decide_True. }
  destruct (lookup_lt_is_Some_2 bs j) as [b Eb]; [lia|]. pose proof (log_extends s bs j b Hl Eb) as Hx.
  rewrite decide_False.
  - rewrite (header_take_S _ _ _ Eb), <-(ex_hash _ _ _ Hx), (ah_stored _ _ _ _ Ha j b) by (done || lia).
    rewrite (ex_parent _ _ _ Hx), IH by lia. cbn [mbind option_bind]. by rewrite (take_S_r _ _ _ Eb).
  - intros E%header_hash_inj. change genesis_header with (header_after (take 0 bs)) in E.
    apply (headers_inj s bs) in E; lia || done.
Qed.

(** Of the requests of a log, those that are not among the first [h] remain when these are dropped. *)
Lemma unreplied_drop (R : gset bytes) (g : list (Block * Time)) h : (∀ i e, g !! i = Some e → dig e ∈ R ↔ (i < h)%nat) →
  omap (λ dr : bytes * Request, if decide (dr.1 ∈ R) then None else Decode (Content dr.2)) ((λ e, (dig e, req e)) <$> g) = (drop h g).*1.
Proof.
  revert h. induction g as [|e g IH]; intros h Hin; [by destruct h|].
  cbn [fmap list_fmap omap list_omap fst snd]. destruct h as [|h].
  - rewrite decide_False by (rewrite (Hin 0%nat e eq_refl); lia). cbn [drop req Content]. rewrite codec_roundtrip.
    cbn [fmap list_fmap]. f_equal. apply (IH 0%nat). intros i e' Hi. rewrite (Hin (S i) e' Hi). lia.
  - rewrite decide_True by (rewrite (Hin 0%nat e eq_refl); lia). cbn [drop]. apply (IH h). intros i e' Hi.
    rewrite (Hin (S i) e' Hi). lia.
Qed.

Section invariant.
Context (table : gmap Z (gmap Z string)) (nnm snm : Z) (Q : Z → Transaction → Prop) (HD : deployment table nnm snm).
Context (G : Z → list (Block * Time)) (hs : Z → nat) (S : System) (Hok : sys_ok table nnm snm Q G hs S).

Lemma leader_at s : 0 ≤ s < snm → ∃ q, procs S !! (s, 0) = Some q ∧ node_ok table snm Q (G s) (s, 0) (hs s) q.
Proof.
  intros Hs. pose proof (dp_nodes _ _ _ HD). destruct (proj2 (so_procs _ _ _ _ _ _ _ Hok (s, 0))) as [q Hq]; [split; cbn; lia|].
  destruct (so_nodes _ _ _ _ _ _ _ Hok _ q Hq) as (h & Hn & Hh). exists q. split; [done|]. specialize (Hh eq_refl). cbn [fst] in *. by subst h.
Qed.

Lemma leader_reads_log s : 0 ≤ s < snm → leader_chain S s (take (hs s) (G s)).*1.
Proof.
  intros Hs. destruct (leader_at s Hs) as (q & Hq & Hn). exists q, (hs s). split; [done|].
  pose proof (n_height _ _ _ _ _ _ _ Hn) as Ha. rewrite (at_height_hash _ _ _ _ Ha), fmap_take.
  by apply (read_log s _ (hs s)); [apply (so_logs _ _ _ _ _ _ _ Hok s Hs)|..].
Qed.

(** The request pool of the leader holds the log. *)
Lemma pool_is_log s q : 0 ≤ s < snm → node_ok table snm Q (G s) (s, 0) (hs s) q →
  map_to_list (requestPool (node q)) ≡ₚ (λ e, (dig e, req e)) <$> G s.
Proof.
  intros Hs Hn. pose proof (n_leader _ _ _ _ _ _ _ Hn eq_refl) as Hl. apply NoDup_Permutation.
  - apply NoDup_map_to_list.
  - apply NoDup_fmap_2; [intros e e' [= E _]; by apply dig_inj|]. apply NoDup_alt. intros i j e Hi Hj.
    by apply (glog_lookup Q s (G s) i j e); [apply (so_logs _ _ _ _ _ _ _ Hok)|..].
  - intros [d r]. rewrite elem_of_map_to_list, list_elem_of_fmap. split.
    + intros Hr. destruct (n_pool _ _ _ _ _ _ _ Hn d r Hr) as [-> (e & -> & He)%list_elem_of_fmap]. by exists e.
    + intros (e & [= -> ->] & He). by apply (l_pool _ _ _ Hl).
Qed.

Lemma proposed_is_log s : 0 ≤ s < snm → proposed S s ≡ₚ (drop (hs s) (G s)).*1.
Proof.
  intros Hs. destruct (leader_at s Hs) as (q & Hq & Hn). unfold proposed. rewrite Hq. unfold pending.
  rewrite (pool_is_log s q Hs Hn). pose proof (l_reply _ _ _ (n_leader _ _ _ _ _ _ _ Hn eq_refl)) as Hr.
  pose proof (so_logs _ _ _ _ _ _ _ Hok s Hs) as Hg. revert Hr. generalize (isReply (node q)). intros R Hr.
  assert (∀ i e, G s !! i = Some e → dig e ∈ R ↔ (i < hs s)%nat) as Hin.
  { intros i e Hi. rewrite Hr. split; [|naive_solver]. intros (j & e' & Hj & He' & ->%dig_inj).
    by rewrite (glog_lookup Q s (G s) i j e' Hg Hi He'). }
  by rewrite (unreplied_drop R (G s) (hs s) Hin).
Qed.

Lemma block_txs_log (g : list (Block * Time)) : block_txs g.*1 = log_txs g.
Proof. unfold block_txs, log_txs. induction g as [|e g IH]; [done|]. cbn. by rewrite IH. Qed.

Lemma sum_proposed (f : Transaction → Z) s : 0 ≤ s < snm →
  sumZ f (block_txs (proposed S s)) = sumZ f (log_txs (drop (hs s) (G s))).
Proof.
  intros Hs. rewrite <-block_txs_log. apply sumZ_Permutation. unfold block_txs. by rewrite (proposed_is_log s Hs).
Qed.

(** The totals of the state are those of the logs. *)
Context (C : Z → list Block) (HC : ∀ s, 0 ≤ s < snm → leader_chain S s (C s)).

Lemma chain_is_log s : 0 ≤ s < snm → block_txs (C s) = log_txs (take (hs s) (G s)).
Proof. intros Hs. rewrite <-block_txs_log. f_equal. eapply leader_chain_unique; [by apply HC|by apply leader_reads_log]. Qed.

Lemma sum_log (f : Transaction → Z) s : 0 ≤ s < snm →
  sumZ f (log_txs (G s)) = sumZ f (block_txs (proposed S s)) + sumZ f (block_txs (C s)).
Proof.
  intros Hs. rewrite (sum_proposed f s Hs), (chain_is_log s Hs). rewrite <-(take_drop (hs s) (G s)) at 1.
  rewrite log_txs_app, sumZ_app. lia.
Qed.

Lemma first_total_log w : first_total nnm snm w C S = fresh_total nnm snm w G S.
Proof.
  unfold first_total, fresh_total. rewrite (sumZ_ext (λ s, sumZ (fresh w) (log_txs (G s))) _ (upto snm)
    (λ s Hs, sum_log (fresh w) s (proj1 (elem_of_upto _ _) Hs))), sumZ_add. lia.
Qed.

Lemma second_total_log w t : 0 ≤ t < snm → second_total table nnm snm w C S t = relayed_total table nnm snm w t G S.
Proof. intros Ht. unfold second_total, in_transit, relayed_total. rewrite (sum_log (relayed w) t Ht). lia. Qed.

Lemma sent_to_log w t : sent_to snm w C t = sent_total snm w t G hs.
Proof. unfold sent_to, sent_total. apply sumZ_ext. intros s Hs%elem_of_upto. by rewrite chain_is_log. Qed.
End invariant.
End state.
