(* ===== verification/SystemFacts.v ===== *)
(** * What the system guarantees

    From a start with [boot], for every sequence of fewer than [run_bound] events: no process panics,
    all nodes of a shard execute one log of blocks, and every transaction is in one place: once as
    first half and, when it has been executed for another shard, once as second half there. *)
From S2P Require Import Prelude Utils Libs Core Messages Storage Chain MerkleProof Overhead.
From S2P Require Import Pbft PbftFacts RelayModule RelayFacts SupervisorProcess Setup SetupFacts System SystemSeq SystemLog SystemNode SystemInv SystemState.

Section facts.
Context `{Params, BitSetLib, CryptoLib, !Codec AccountState, !Codec Request, !Codec Transaction,
          !Codec BlockHeader, !Codec Block, BoltLib, TrieLib}.

(** The start: a table with an address for every node, fresh databases. *)
Record launch (table : gmap Z (gmap Z string)) (g : Globals) (nnm snm : Z) (dbs : Z * Z → TrieDB)
    (stores : Z * Z → BoltDB) (now : Time) (S0 : System) : Prop := {
  la_dep : deployment table nnm snm;
  la_db : ∀ n, triedb_ok (dbs n);
  la_store : ∀ n, GetNewestBlockHash (stores n) = inl "cannot find the newest block hash";
  la_boot : boot table g nnm snm dbs stores now = Ok S0;
}.

Context `{!BitSetLaws, !CryptoLaws, !CollisionFree, !CodecLaws AccountState, !CodecLaws Request,
          !CodecLaws BlockHeader, !CodecLaws Block, !BoltLaws, !TrieLaws}.

Section runs.
Context (table : gmap Z (gmap Z string)) (g : Globals) (nnm snm : Z) (dbs : Z * Z → TrieDB)
  (stores : Z * Z → BoltDB) (now : Time) (S0 : System) (HL : launch table g nnm snm dbs stores now S0).
Context (Q : Z → Transaction → Prop) `{!injected_ok Q}.

(** A process that has just started. *)
Definition started (n : Z * Z) (q : Proc) : Prop :=
  node_ok table snm Q [] n 0 q ∧ TxQueue (Txpool (App (node q))) = [] ∧ askForLock (node q) = false ∧ node_nums (node q) = nnm ∧ seq_node 1 (node q).

Lemma boot_node_ok m m' n : boot_node table g nnm snm dbs stores now m n = Ok m' → ∃ q, m' = <[n := q]> m ∧ started n q.
Proof.
  unfold boot_node. destruct (la_dep _ _ _ _ _ _ _ _ HL) as [_ _ [_ Hsn] Hnn _].
  intros ([g1 pcc] & Hi & (bc & Hb & [= <-])%go_bind_inv)%go_bind_inv. cbn [fst snd] in *.
  assert (0 ≤ snm < 2 ^ 63) as Hsn' by lia.
  destruct (init_config_spec _ _ _ _ _ _ _ _ Hnn Hsn' Hi) as (_ & Et & _ & _ & Es & _ & Epn & Ess & _).
  destruct (new_chain_height pcc (dbs n) (stores n) _ [] (la_db _ _ _ _ _ _ _ _ HL n) (la_store _ _ _ _ _ _ _ _ HL n))
    as (bc' & Hb' & Ha & Hp & Hnum).
  rewrite Hb in Hb'. injection Hb' as <-. rewrite Es in Ha. eexists. split; [done|]. rewrite Et.
  split; [|split; [by cbn; rewrite Hp|split; [done|split; [done|]]]].
  2: { split; cbn; [|done]. rewrite Hnum. vm_compute. split; discriminate. }
  split; try done; cbn.
  - by rewrite Hp.
  - intros _. split; cbn; [|intros d; split; [set_solver|intros (j & e & Hj & _); lia]|done..].
    intros e He. by apply not_elem_of_nil in He.
Qed.

Lemma boot_fold l m m' : go_fold (boot_node table g nnm snm dbs stores now) m l = Ok m' →
  (∀ n q, m !! n = Some q → started n q) →
  (∀ n q, m' !! n = Some q → started n q) ∧ ∀ n, is_Some (m' !! n) ↔ is_Some (m !! n) ∨ n ∈ l.
Proof.
  revert m. induction l as [|n l IH]; intros m E Hm; cbn [go_fold] in E.
  - injection E as <-. split; [done|]. intros n. rewrite elem_of_nil. tauto.
  - apply go_bind_inv in E as (m1 & E1 & E). apply boot_node_ok in E1 as (q & -> & Hq).
    apply IH in E as [Hs Hd].
    + split; [done|]. intros n'. rewrite Hd, lookup_insert_is_Some', elem_of_cons. naive_solver.
    + intros n' q'. rewrite lookup_insert. case_decide; [intros [= <-]; by subst|by apply Hm].
Qed.

Lemma boot_started : (∀ n q, procs S0 !! n = Some q → started n q) ∧ (∀ n, is_Some (procs S0 !! n) ↔ member nnm snm n) ∧ wire S0 = [].
Proof.
  pose proof (la_boot _ _ _ _ _ _ _ _ HL) as Hb. unfold boot in Hb. apply go_bind_inv in Hb as (m & E & Hb).
  apply boot_fold in E as [Hs Hd]; [|intros n q; by rewrite lookup_empty]. injection Hb as <-. cbn [procs wire].
  split; [done|]. split; [|done]. intros [i j]. rewrite Hd, lookup_empty, (elem_of_all_nodes nnm snm i j). unfold member. cbn.
  split; [|tauto]. intros [[? ?]|?]; done.
Qed.

(** The system starts in the invariant, with empty logs and no transaction. *)
Lemma boot_ok : sys_ok table nnm snm Q (λ _, []) (λ _, 0%nat) S0 ∧
  ∀ w, fresh_total nnm snm w (λ _, []) S0 = 0 ∧ ∀ t, relayed_total table nnm snm w t (λ _, []) S0 = 0 ∧ sent_total snm w t (λ _, []) (λ _, 0%nat) = 0.
Proof.
  destruct boot_started as (Hs & Hd & Hw). split.
  - split; [..|by rewrite Hw; apply packets_nil|].
    + intros s _. split; [constructor|constructor].
    + exact Hd.
    + intros n q Hq. destruct (Hs n q Hq) as [? _]. by exists 0%nat.
    + intros n q Hq. destruct (Hs n q Hq) as (_ & _ & E & _). rewrite Hw. unfold asking. by rewrite E.
  - assert (∀ n, queue S0 n = []) as Hq.
    { intros n. unfold queue. destruct (procs S0 !! n) as [q|] eqn:Hn; [|done]. by destruct (Hs n q Hn) as (_ & ? & _). }
    intros w. split; [|intros t; split].
    + unfold fresh_total. rewrite Hw, (sumZ_zero _ (nodes_of nnm snm)), (sumZ_zero _ (upto snm)); [done|..]; intros n _; by rewrite ?Hq.
    + unfold relayed_total. rewrite Hw, (sumZ_zero _ (nodes_of nnm snm)); [done|]. intros n _. rewrite Hq. by case_decide.
    + unfold sent_total. apply sumZ_zero. done.
Qed.

Lemma boot_seq : seq_sys 1 S0.
Proof.
  destruct boot_started as (Hs & _ & Hw). split; [|rewrite Hw; apply seq_nil]. intros n q Hq. by destruct (Hs n q Hq) as (_ & _ & _ & _ & ?).
Qed.

(** Every run keeps the invariant and the accounts. *)
Lemma sys_run_kept es : ∀ k G hs S, 0 ≤ k → k + len es < 2 ^ 63 - 1 → seq_sys k S → sys_ok table nnm snm Q G hs S → Forall (inject_ok Q) es →
  ∃ o, sys_run S es = Ok o ∧ ∀ S', o = Some S' →
    ∃ G' hs', sys_ok table nnm snm Q G' hs' S' ∧ accounts table nnm snm G hs S (flat_map injects es) G' hs' S'.
Proof.
  induction es as [|e es IH]; intros k G hs S Hk Hl Hsq Hok Hi; cbn [sys_run].
  { eexists. split; [done|]. intros S' [= <-]. exists G, hs. split; [done|]. intros w Hw. change (sumZ _ _) with 0. split; [lia|]. intros; lia. }
  apply Forall_cons in Hi as [Hi1 Hi2]. pose proof (la_dep _ _ _ _ _ _ _ _ HL) as HD. unfold len in *. cbn [length] in Hl.
  assert (seq_out (two64 - 2) (wire S)) as Hso by (eapply seq_out_mono; [|apply Hsq]; unfold two64; lia).
  destruct (event_ok table nnm snm Q HD G hs S e Hok Hso Hi1) as (o & Es & Ho). rewrite Es. cbn [mbind go_bind].
  destruct o as [S1|]; [|by eexists]. destruct (Ho S1 eq_refl) as (G1 & hs1 & Hok1 & Ha1).
  pose proof (seq_step k ltac:(lia) (proj1 (dp_plain _ _ _ HD)) S e S1 Hsq Es) as Hsq1.
  destruct (IH (k + 1) G1 hs1 S1 ltac:(lia) ltac:(lia) Hsq1 Hok1 Hi2) as (o2 & -> & Ho2). eexists. split; [done|]. intros S' HS'.
  destruct (Ho2 S' HS') as (G2 & hs2 & Hok2 & Ha2). exists G2, hs2. split; [done|]. intros w Hw.
  destruct (Ha1 w Hw) as [F1 R1], (Ha2 w Hw) as [F2 R2]. cbn [flat_map]. rewrite sumZ_app. split; [lia|].
  intros t Ht. specialize (R1 t Ht). specialize (R2 t Ht). lia.
Qed.

Lemma reach_ok es : len es < run_bound → Forall (inject_ok Q) es →
  ∃ o, sys_run S0 es = Ok o ∧ ∀ S, o = Some S → ∃ G hs, sys_ok table nnm snm Q G hs S ∧
    ∀ w, timeless w → fresh_total nnm snm w G S = sumZ (fresh w) (flat_map injects es) ∧
      ∀ t, 0 ≤ t < snm → relayed_total table nnm snm w t G S = sent_total snm w t G hs.
Proof.
  intros Hb Hi. destruct boot_ok as [Hok Hz]. unfold run_bound in Hb. destruct (sys_run_kept es 1 _ _ _ ltac:(lia) ltac:(lia) boot_seq Hok Hi) as (o & E & Ho). exists o. split; [done|].
  intros S HS. destruct (Ho S HS) as (G & hs & Hok' & Ha). exists G, hs. split; [done|]. intros w Hw.
  destruct (Ha w Hw) as [F R], (Hz w) as [F0 R0]. split; [lia|]. intros t Ht. specialize (R t Ht). destruct (R0 t). lia.
Qed.
End runs.

(** The leader is at most one block behind the end of the log. *)
Lemma leader_near table snm Q (g : list (Block * Time)) n h q : node_ok table snm Q g n h q → n.2 = 0 →
  (length g.*1 ≤ Datatypes.S h)%nat.
Proof.
  intros Hn Hz. rewrite length_fmap. pose proof (l_lock _ _ _ (n_leader _ _ _ _ _ _ _ Hn Hz)) as Hl.
  destruct (sequenceLock (node q)); [destruct (holding q)|]; lia.
Qed.

(** ** Agreement *)

(** What may be injected: transactions between accounts that have a shard, not marked. *)
Definition plain (s : Z) (tx : Transaction) : Prop := tx_homes tx ∧ Relayed tx = false.

#[export] Instance plain_ok : injected_ok plain.
Proof.
  split; [done|]. intros s t tx. unfold plain, tx_homes. destruct (stamp_fields t tx) as (-> & -> & -> & _). done.
Qed.

(** The system of all shards is safe.  However the goroutines of all processes interleave and
    however the packets are delayed and reordered, no process panics (no lock is released that is
    not held, no block fails to decode, no state is missing); and at every moment each shard has one
    log of blocks, each extending the one before it, such that every node of the shard has executed
    and stored a prefix of it and reads from its status trie exactly the accounts that executing
    this prefix gives.  The leader is at most one block behind the end of the log. *)
Theorem system_agreement (table : gmap Z (gmap Z string)) (g : Globals) (nnm snm : Z) (dbs : Z * Z → TrieDB)
    (stores : Z * Z → BoltDB) (now : Time) (S0 : System) (es : list sys_event) :
  launch table g nnm snm dbs stores now S0 → len es < run_bound → Forall (inject_ok plain) es →
  ∃ o, sys_run S0 es = Ok o ∧ ∀ S, o = Some S →
    ∃ logs : Z → list Block, ∀ n, member nnm snm n → log_ok n.1 (logs n.1) ∧
      ∃ q h, procs S !! n = Some q ∧ at_height n.1 (logs n.1) h (App (node q)) ∧
        (n.2 = 0 → (length (logs n.1) ≤ Datatypes.S h)%nat) ∧
        ∀ addrs, FetchAccounts (App (node q)) addrs =
          Ok ((λ a, acct (ledger_after n.1 (take h (logs n.1))) a 0) <$> addrs).
Proof.
  intros HL Hb Hi. destruct (reach_ok table g nnm snm dbs stores now S0 HL plain es Hb Hi) as (o & E & Ho). exists o. split; [done|].
  intros S HS. destruct (Ho S HS) as (G & hs & Hok & _). exists (λ s, (G s).*1). intros n Hm.
  split; [apply (so_logs _ _ _ _ _ _ _ Hok n.1 (proj1 Hm))|].
  destruct (proj2 (so_procs _ _ _ _ _ _ _ Hok n) Hm) as [q Hq]. destruct (so_nodes _ _ _ _ _ _ _ Hok n q Hq) as (h & Hn & _).
  exists q, h. split; [done|]. split; [apply Hn|]. split.
  - by apply (leader_near _ _ _ _ _ _ _ Hn).
  - intros addrs. apply fetch_accounts_spec, (ah_chain _ _ _ _ (n_height _ _ _ _ _ _ _ Hn)).
Qed.

(** ** Every transaction once *)

(** The totals of a state that is reached. *)
Lemma reach_totals table g nnm snm dbs stores now S0 Q `{!injected_ok Q} es S : launch table g nnm snm dbs stores now S0 →
  len es < run_bound → Forall (inject_ok Q) es → sys_run S0 es = Ok (Some S) →
  ∃ G hs, sys_ok table nnm snm Q G hs S ∧ (∀ s, 0 ≤ s < snm → ∃ bs, leader_chain S s bs) ∧
    ∀ C, (∀ s, 0 ≤ s < snm → leader_chain S s (C s)) →
      (∀ s, 0 ≤ s < snm → block_txs (C s) = log_txs (take (hs s) (G s))) ∧
      ∀ w, timeless w → first_total nnm snm w C S = sumZ (fresh w) (flat_map injects es) ∧
        ∀ t, 0 ≤ t < snm → second_total table nnm snm w C S t = sent_to snm w C t.
Proof.
  intros HL Hb Hi E. pose proof (la_dep _ _ _ _ _ _ _ _ HL) as HD.
  destruct (reach_ok table g nnm snm dbs stores now S0 HL Q es Hb Hi) as (o & E' & Ho).
  rewrite E in E'. injection E' as <-. destruct (Ho S eq_refl) as (G & hs & Hok & Ha). exists G, hs. split; [done|]. split.
  { intros s Hs. eexists. by eapply leader_reads_log. }
  intros C HC. split; [by eapply chain_is_log|]. intros w Hw. destruct (Ha w Hw) as [Hf Hr].
  rewrite (first_total_log _ _ _ _ HD _ _ _ Hok C HC). split; [done|]. intros t Ht.
  rewrite (second_total_log _ _ _ _ HD _ _ _ Hok C HC w t Ht), (sent_to_log _ _ _ _ HD _ _ _ Hok C HC). by apply Hr.
Qed.

(** C2: transactions are neither lost nor executed twice.  After every run of fewer than 2^62 events
    the database of each leader holds, from its current block back to the genesis block, one chain of
    blocks: these it has executed.  [w] measures transactions and does not look at time stamps and
    relay marks, for instance it counts those with a given hash.  What was injected is what is on its
    way from the supervisor, waits in a pool, is in a block that a leader has proposed and not
    executed, or is in the chain of a leader, as first half; and for every shard [t] what the leaders
    have executed of transactions to accounts of [t] is what is on its way to [t], waits in a pool of
    [t], is proposed in [t], or is in the chain of the leader of [t], as second half.  All these are
    read off the state, none is chosen. *)
Theorem exactly_once (table : gmap Z (gmap Z string)) (g : Globals) (nnm snm : Z) (dbs : Z * Z → TrieDB)
    (stores : Z * Z → BoltDB) (now : Time) (S0 S : System) (es : list sys_event) :
  launch table g nnm snm dbs stores now S0 → len es < run_bound → Forall (inject_ok plain) es → sys_run S0 es = Ok (Some S) →
  (∀ s, 0 ≤ s < snm → ∃ bs, leader_chain S s bs) ∧
  ∀ C : Z → list Block, (∀ s, 0 ≤ s < snm → leader_chain S s (C s)) →
  ∀ w, timeless w →
    first_total nnm snm w C S = sumZ (fresh w) (flat_map injects es) ∧
    ∀ t, 0 ≤ t < snm → second_total table nnm snm w C S t = sent_to snm w C t.
Proof.
  intros HL Hb Hi E. destruct (reach_totals table g nnm snm dbs stores now S0 plain es S HL Hb Hi E) as (G & hs & _ & Hex & HC).
  split; [done|]. intros C Hall. by apply HC.
Qed.
End facts.
