(* ===== verification/SystemMoney.v ===== *)
(** * The money of the system

    The balances of all accounts, each read in its home shard, add up to the initial balances, less
    the value under way between shards, plus the value of the cross-shard transactions whose sender
    could not pay: the first shard rejects them and relays them all the same. *)
From S2P Require Import Prelude Utils Libs Core Messages Storage Chain MerkleProof Overhead.
From S2P Require Import Pbft PbftFacts RelayModule RelayFacts SupervisorProcess Setup SetupFacts System SystemSeq SystemLog SystemNode SystemInv SystemState SystemFacts.

(** ** Sums over two indices *)
Lemma sumZ_swap {A B} (f : A → B → Z) l k : sumZ (λ x, sumZ (λ y, f x y) k) l = sumZ (λ y, sumZ (λ x, f x y) l) k.
Proof.
  induction l as [|x l IH]; [by symmetry; apply sumZ_zero|]. rewrite sumZ_cons, IH, <-sumZ_add. by apply sumZ_ext.
Qed.

Lemma sumZ_const {A} (c : Z) (l : list A) : sumZ (λ _, c) l = len l * c.
Proof. induction l as [|x l IH]; [done|]. rewrite sumZ_cons, IH. unfold len. cbn [length]. lia. Qed.

Section money.
Context `{Params, BitSetLib, CryptoLib, !Codec AccountState, !Codec Request, !Codec Transaction,
          !Codec BlockHeader, !Codec Block, BoltLib, TrieLib}.

(** ** Shards of accounts *)
Lemma parse_hex_range acc l v : 0 ≤ acc → parse_hex acc l = Some v → 0 ≤ v < (acc + 1) * 16 ^ len l.
Proof.
  revert acc. induction l as [|c l IH]; intros acc Ha; cbn [parse_hex].
  - intros [= <-]. change (16 ^ len []) with 1. lia.
  - destruct (hex_digit c) as [d|] eqn:Ed; [|done]. apply hex_digit_range in Ed. destruct (_ <=? _); [done|].
    intros Hv. apply IH in Hv; [|lia]. unfold len in *. cbn [length]. rewrite Nat2Z.inj_succ, Z.pow_succ_r by lia. nia.
Qed.

Lemma home_range a : 0 < ShardNum → ShardNum < 2 ^ 63 → has_home a → 0 ≤ home a < ShardNum.
Proof.
  intros Hs Hb. unfold has_home, home, place. rewrite lookup_empty. unfold Addr2Shard.
  destruct (ParseUint16 (last8 a)) as [v|] eqn:E; [|done]. unfold ParseUint16 in E.
  assert (0 ≤ v < 2 ^ 32) as Hv.
  { pose proof (last8_length a) as Hl. destruct (chars (last8 a)) as [|c l] eqn:Ec; [done|]. apply parse_hex_range in E; [|lia].
    assert (16 ^ len (c :: l) ≤ 16 ^ 8) by (apply Z.pow_le_mono_r; lia). lia. }
  rewrite i64_small by lia. destruct (go_rem_range v ShardNum) as (r & -> & _ & Hr); [lia|done|]. intros _. cbn [mbind go_bind].
  rewrite u64_small; [lia|]. unfold two64. lia.
Qed.

(** ** Balances along a log *)
Lemma ledger_fold_blocks s (bs : list Block) m a :
  bal (foldl (λ m b, ledger_exec home s m (Body b)) m bs) a = balance_exec home s (bal m) (flat_map Body bs) a.
Proof.
  revert m. induction bs as [|b bs IH]; intros m; [done|]. cbn [foldl flat_map]. rewrite IH.
  unfold balance_exec. rewrite foldl_app. apply balance_exec_ext. intros a'. apply ledger_exec_bal.
Qed.

Lemma ledger_after_bal s (bs : list Block) a :
  bal (ledger_after s bs) a = balance_exec home s (λ _, Init_Balance) (flat_map Body bs) a.
Proof.
  unfold ledger_after. rewrite ledger_fold_blocks. apply balance_exec_ext. intros a'. unfold bal, acct. by rewrite lookup_empty.
Qed.

(** A cross-shard transaction of shard [s], and the value of those that [s] rejects. *)
Definition crosses (s : Z) (tx : Transaction) : bool := negb (Relayed tx) && negb (home (Recipient tx) =? s).

Fixpoint overdrafts (s : Z) (b : Address → Z) (txs : list Transaction) : Z :=
  match txs with
  | [] => 0
  | tx :: txs => (if crosses s tx && rejected home s b tx then Value tx else 0) + overdrafts s (balance_tx home s b tx) txs
  end.

(** What a shard executes: transactions of its own senders, and relayed ones to its own
    recipients; no broker. *)
Definition routed_here (s : Z) (tx : Transaction) : Prop :=
  HasBroker tx = false ∧ (if Relayed tx then home (Recipient tx) = s else home (Sender tx) = s).

Lemma net_tx_routed s b tx : routed_here s tx →
  net_tx home s b tx = relayed Value tx - (if crosses s tx then Value tx else 0)
    + (if crosses s tx && rejected home s b tx then Value tx else 0).
Proof.
  intros [Hb Hr]. unfold net_tx, rejected, debits, credits, crosses, relayed. rewrite Hb. destruct (Relayed tx); cbn [negb andb].
  - rewrite Hr, Z.eqb_refl. cbn. lia.
  - rewrite Hr, Z.eqb_refl. cbn [orb andb]. rewrite orb_false_r.
    destruct (home (Recipient tx) =? s), (bool_decide _); cbn [negb andb]; lia.
Qed.

Lemma net_flow_routed s txs : Forall (routed_here s) txs → ∀ b,
  net_flow home s b txs = sumZ (relayed Value) txs - sumZ (λ tx, if crosses s tx then Value tx else 0) txs + overdrafts s b txs.
Proof.
  induction 1 as [|tx txs Htx _ IH]; intros b; [done|]. cbn [net_flow overdrafts]. rewrite !sumZ_cons, IH, net_tx_routed by done. lia.
Qed.

(** The accounts of other shards do not change. *)
Lemma balance_elsewhere s txs a : Forall (routed_here s) txs → home a ≠ s → ∀ b, balance_exec home s b txs a = b a.
Proof.
  intros Hf Ha. induction Hf as [|tx txs [Hb Hr] _ IH]; intros b; [done|]. change (balance_exec home s (balance_tx home s b tx) txs a = b a).
  rewrite IH. unfold balance_tx. destruct (rejected home s b tx); [done|]. unfold delta, debits, credits. rewrite Hb, !orb_false_r.
  assert (∀ x, (home x =? s) && bool_decide (a = x) = false) as Hx.
  { intros x. destruct (home x =? s) eqn:E; [|done]. zbool. cbn. apply bool_decide_eq_false_2. by intros ->. }
  rewrite <-andb_assoc, !Hx, andb_false_r. lia.
Qed.

(** What shard [s] has gained is its flow. *)
Lemma gain s txs addrs : NoDup addrs → Forall (routed_here s) txs →
  Forall (λ tx, Sender tx ∈ addrs ∧ Recipient tx ∈ addrs) txs →
  sumZ (λ a, balance_exec home s (λ _, Init_Balance) txs a - Init_Balance) addrs = net_flow home s (λ _, Init_Balance) txs.
Proof.
  intros Hnd Hr Hp. pose proof (balance_exec_sum home s (λ _, Init_Balance) txs addrs Hnd Hp) as E.
  transitivity (sumZ (balance_exec home s (λ _, Init_Balance) txs) addrs + sumZ (λ _, - Init_Balance) addrs); [by rewrite <-sumZ_add|].
  rewrite E, (sumZ_opp (λ _, Init_Balance)). lia.
Qed.

(** All shards together. *)
Lemma total_gain (snm : Z) (txs : Z → list Transaction) addrs : NoDup addrs → Forall (λ a, 0 ≤ home a < snm) addrs →
  (∀ s, 0 ≤ s < snm → Forall (routed_here s) (txs s) ∧ Forall (λ tx, Sender tx ∈ addrs ∧ Recipient tx ∈ addrs) (txs s)) →
  sumZ (λ a, balance_exec home (home a) (λ _, Init_Balance) (txs (home a)) a) addrs =
    len addrs * Init_Balance + sumZ (λ s, net_flow home s (λ _, Init_Balance) (txs s)) (upto snm).
Proof.
  intros Hnd Hh Ht. rewrite list.Forall_forall in Hh.
  assert (sumZ (λ s, net_flow home s (λ _, Init_Balance) (txs s)) (upto snm) =
    sumZ (λ a, balance_exec home (home a) (λ _, Init_Balance) (txs (home a)) a - Init_Balance) addrs) as ->.
  { transitivity (sumZ (λ s, sumZ (λ a, balance_exec home s (λ _, Init_Balance) (txs s) a - Init_Balance) addrs) (upto snm)).
    - apply sumZ_ext. intros s Hs%elem_of_upto. destruct (Ht s Hs). symmetry. by apply gain.
    - rewrite sumZ_swap. apply sumZ_ext. intros a Ha.
      transitivity (sumZ (λ s, if decide (s = home a) then balance_exec home (home a) (λ _, Init_Balance) (txs (home a)) a - Init_Balance else 0) (upto snm)).
      + apply sumZ_ext. intros s Hs%elem_of_upto. destruct (Ht s Hs) as [Hr _]. case_decide as E; [by subst s|].
        rewrite balance_elsewhere by (done || congruence). lia.
      + apply sumZ_single; [apply upto_nodup|by apply elem_of_upto, Hh]. }
  rewrite <-sumZ_const, <-sumZ_add. apply sumZ_ext. intros a _. lia.
Qed.

(** ** The system *)

(** What may be injected: transactions between the accounts [addrs], to the shard of the sender. *)
Definition routed (addrs : list Address) (s : Z) (tx : Transaction) : Prop :=
  tx_homes tx ∧ Relayed tx = false ∧ home (Sender tx) = s ∧ HasBroker tx = false ∧ Sender tx ∈ addrs ∧ Recipient tx ∈ addrs.

#[export] Instance routed_ok addrs : injected_ok (routed addrs).
Proof.
  split; [by intros s tx (? & ? & _)|]. intros s t tx. unfold routed, tx_homes.
  assert (HasBroker (stamp t tx) = HasBroker tx) as -> by (unfold stamp; by case_match).
  destruct (stamp_fields t tx) as (-> & -> & -> & _). done.
Qed.

Lemma value_timeless : timeless Value.
Proof. split; [|done]. intros t tx. unfold stamp. by case_match. Qed.

Lemma tx_in_routed addrs s tx : tx_in (routed addrs) s tx →
  routed_here s tx ∧ Sender tx ∈ addrs ∧ Recipient tx ∈ addrs ∧ tx_homes tx.
Proof.
  intros [(? & Er & Es & Eb & ? & ?)|(s' & tx' & _ & (? & Er & Es & Eb & ? & ?) & _ & Hr & ->)]; unfold routed_here; cbn.
  - by rewrite Er.
  - split_and!; done.
Qed.

(** Where the cross-shard transactions of a shard go. *)
Lemma crosses_goes snm s tx : 0 < snm → routed_here s tx → 0 ≤ home (Recipient tx) < snm →
  (if crosses s tx then Value tx else 0) = sumZ (λ t, if goes s t tx then Value tx else 0) (upto snm).
Proof.
  intros Hs [_ Hr] Hh. unfold crosses, goes. destruct (Relayed tx); cbn [negb andb]; [by symmetry; apply sumZ_zero|].
  rewrite Hr, Z.eqb_refl. cbn [andb]. destruct (home (Recipient tx) =? s); cbn [negb andb]; [by symmetry; apply sumZ_zero|].
  transitivity (sumZ (λ t, if decide (t = home (Recipient tx)) then Value tx else 0) (upto snm)).
  { symmetry. apply sumZ_single; [apply upto_nodup|by apply elem_of_upto]. }
  apply sumZ_ext. intros t _. destruct (Z.eqb_spec (home (Recipient tx)) t), (decide (t = home (Recipient tx))); congruence.
Qed.

Lemma crosses_sent snm (C : Z → list Block) : 0 < snm →
  (∀ s, 0 ≤ s < snm → Forall (λ tx, routed_here s tx ∧ 0 ≤ home (Recipient tx) < snm) (block_txs (C s))) →
  sumZ (λ s, sumZ (λ tx, if crosses s tx then Value tx else 0) (block_txs (C s))) (upto snm) =
    sumZ (sent_to snm Value C) (upto snm).
Proof.
  intros Hs Ht. unfold sent_to. rewrite (sumZ_swap (λ t s, _) (upto snm) (upto snm)). apply sumZ_ext.
  intros s Hin%elem_of_upto. rewrite (sumZ_swap (λ t tx, _) (upto snm) _). apply sumZ_ext. intros tx Htx.
  specialize (Ht s Hin). rewrite list.Forall_forall in Ht. destruct (Ht tx Htx). by apply crosses_goes.
Qed.

(** The balance of an account, read by the leader of its home shard. *)
Definition leader_balance (S : System) (a : Address) : option Z :=
  match procs S !! (home a, 0) with
  | None => None
  | Some q => match FetchAccounts (App (node q)) [a] with Ok [st] => Some (Balance st) | _ => None end
  end.

Context `{!BitSetLaws, !CryptoLaws, !CollisionFree, !CodecLaws AccountState, !CodecLaws Request,
          !CodecLaws BlockHeader, !CodecLaws Block, !BoltLaws, !TrieLaws}.

(** What the leader of the home shard of an account reads for it. *)
Lemma leader_reads table nnm snm Q G hs S a : deployment table nnm snm → sys_ok table nnm snm Q G hs S → 0 ≤ home a < snm →
  leader_balance S a = Some (balance_exec home (home a) (λ _, Init_Balance) (log_txs (take (hs (home a)) (G (home a)))) a).
Proof.
  intros HD Hok Ha. destruct (leader_at _ _ _ _ HD _ _ _ Hok (home a) Ha) as (q & Hq & Hn).
  pose proof (ah_chain _ _ _ _ (n_height _ _ _ _ _ _ _ Hn)) as Hc. unfold leader_balance. rewrite Hq.
  rewrite (fetch_accounts_spec _ _ [a] (ck_state _ _ Hc)). cbn [fmap list_fmap]. f_equal. change (Balance (acct ?m a 0)) with (bal m a).
  cbn [fst]. rewrite ledger_after_bal, <-fmap_take. change (flat_map Body ?l) with (block_txs l). by rewrite block_txs_log.
Qed.

Lemma executed_in table nnm snm addrs G hs S s : sys_ok table nnm snm (routed addrs) G hs S → 0 ≤ s < snm →
  Forall (tx_in (routed addrs) s) (log_txs (take (hs s) (G s))).
Proof.
  intros Hok Hs. destruct (so_logs _ _ _ _ _ _ _ Hok s Hs) as [_ Hb]. unfold log_txs.
  apply (Forall_take _ (hs s)) in Hb. induction Hb as [|e l He _ IH]; [done|]. cbn [flat_map]. by apply Forall_app.
Qed.

(** The balances that executing the chains gives, and what is in transit. *)
Lemma chains_money table nnm snm addrs (C : Z → list Block) S : 0 < snm → NoDup addrs → Forall (λ a, 0 ≤ home a < snm) addrs →
  (∀ s, 0 ≤ s < snm → Forall (λ tx, routed_here s tx ∧ Sender tx ∈ addrs ∧ Recipient tx ∈ addrs ∧ 0 ≤ home (Recipient tx) < snm) (block_txs (C s))) →
  (∀ t, 0 ≤ t < snm → second_total table nnm snm Value C S t = sent_to snm Value C t) →
  sumZ (λ a, balance_exec home (home a) (λ _, Init_Balance) (block_txs (C (home a))) a) addrs
    + sumZ (in_transit table nnm snm Value S) (upto snm) =
    len addrs * Init_Balance + sumZ (λ s, overdrafts s (λ _, Init_Balance) (block_txs (C s))) (upto snm).
Proof.
  intros Hs Hnd Hh Hex Hst. rewrite (total_gain snm (λ s, block_txs (C s)) addrs Hnd Hh).
  - rewrite (sumZ_ext _ (λ s, (sumZ (relayed Value) (block_txs (C s)) + - sumZ (λ tx, if crosses s tx then Value tx else 0) (block_txs (C s)))
      + overdrafts s (λ _, Init_Balance) (block_txs (C s)))).
    + rewrite !sumZ_add, sumZ_opp, crosses_sent; [|lia|].
      * rewrite <-(sumZ_ext (second_total table nnm snm Value C S) (sent_to snm Value C)).
        -- unfold second_total. rewrite sumZ_add. lia.
        -- intros t Ht%elem_of_upto. by apply Hst.
      * intros s Hx. eapply Forall_impl; [by apply Hex|]. by intros tx (? & _ & _ & ?).
    + intros s Hx%elem_of_upto. rewrite net_flow_routed; [lia|]. eapply Forall_impl; [by apply Hex|]. by intros tx [? _].
  - intros s Hx. split; (eapply Forall_impl; [by apply Hex|]); [by intros tx [? _]|by intros tx (_ & ? & ? & _)].
Qed.

(** C3: the money of the system.  After every run of fewer than 2^62 events, every leader reads a
    chain of blocks back from its database and a balance for each account of its shard.  With these
    chains and balances, the balances of all accounts, each read by the leader of its home shard, and
    the value on its way between the shards (relayed, in a pool, or in a proposed block) add up to
    the initial balances plus the overdrafts: the cross-shard transactions whose sender could not
    pay, which the first shard skips and relays nevertheless. *)
Theorem system_money (table : gmap Z (gmap Z string)) (g : Globals) (nnm snm : Z) (dbs : Z * Z → TrieDB)
    (stores : Z * Z → BoltDB) (now : Time) (S0 S : System) (es : list sys_event) (addrs : list Address) :
  launch table g nnm snm dbs stores now S0 → NoDup addrs → Forall has_home addrs → len es < run_bound →
  Forall (inject_ok (routed addrs)) es → sys_run S0 es = Ok (Some S) →
  (∀ s, 0 ≤ s < snm → ∃ bs, leader_chain S s bs) ∧ (∀ a, a ∈ addrs → is_Some (leader_balance S a)) ∧
  ∀ (C : Z → list Block) (b : Address → Z),
    (∀ s, 0 ≤ s < snm → leader_chain S s (C s)) → (∀ a, a ∈ addrs → leader_balance S a = Some (b a)) →
    sumZ b addrs + sumZ (in_transit table nnm snm Value S) (upto snm) =
      len addrs * Init_Balance + sumZ (λ s, overdrafts s (λ _, Init_Balance) (block_txs (C s))) (upto snm).
Proof.
  intros HL Hnd Hh Hb Hi E. pose proof (la_dep _ _ _ _ _ _ _ _ HL) as HD. destruct (dp_shards _ _ _ HD) as [Hsn Hsb].
  destruct (reach_totals table g nnm snm dbs stores now S0 (routed addrs) es S HL Hb Hi E) as (G & hs & Hok & Hex & HC).
  assert (∀ a, has_home a → 0 ≤ home a < snm) as Hrange by (intros a Hx; rewrite <-Hsn; apply home_range; lia || done).
  rewrite list.Forall_forall in Hh. split; [done|]. split.
  { intros a Ha. eexists. eapply leader_reads; [done|done|]. by apply Hrange, Hh. }
  intros C b HCs Hbs. destruct (HC C HCs) as [Hlog Htot]. destruct (Htot Value value_timeless) as [_ Hst].
  rewrite <-(chains_money table nnm snm addrs C S); try done; try lia.
  - f_equal. apply sumZ_ext. intros a Ha. specialize (Hbs a Ha). pose proof (Hrange a (Hh a Ha)) as Hr.
    rewrite (leader_reads table nnm snm _ G hs S a HD Hok Hr) in Hbs. injection Hbs as <-. by rewrite Hlog.
  - apply list.Forall_forall. intros a Ha. by apply Hrange, Hh.
  - intros s Hs. rewrite Hlog by done. eapply Forall_impl; [by eapply executed_in|].
    intros tx (? & ? & ? & [_ Hr])%tx_in_routed. split_and!; try done; by apply Hrange.
Qed.
End money.
