(* ===== verification/SystemExample.v ===== *)
(** * A run of the whole system

    Two shards of one node each: a transaction from an account of shard 0 to one of shard 1 is
    injected, proposed, agreed on and executed in shard 0, relayed, and executed in shard 1.  The run
    is evaluated, on encoders whose output is about as long as the data, and the theorems on the
    system are applied to it. *)
From Stdlib Require Import Ascii.
From S2P Require Import Prelude Utils Libs Core Messages Storage Chain MerkleProof Overhead.
From S2P Require Import Pbft PbftFacts RelayModule RelayFacts SupervisorProcess Setup SetupFacts System SystemSeq SystemLog SystemNode SystemInv SystemState SystemFacts SystemMoney.

(** ** Compact encoders *)
Module CompactCodec.

(** A field is its length, in binary digits, a full stop and its characters. *)
Definition put_field (l : list ascii) : list ascii :=
  chars (ConcreteLibs.bits (Pos.of_succ_nat (length l))) ++ "."%char :: l.

Fixpoint split_dot (l : list ascii) : list ascii * list ascii :=
  match l with
  | [] => ([], [])
  | c :: l => if Ascii.eqb c "." then ([], l) else let '(a, b) := split_dot l in (c :: a, b)
  end.

Fixpoint get_fields (fuel : nat) (l : list ascii) : option (list (list ascii)) :=
  match l with
  | [] => Some []
  | _ =>
      match fuel with
      | O => None
      | S fuel =>
          let '(n, l) := split_dot l in
          p ← ConcreteLibs.unbits (unchars n);
          let k := pred (Pos.to_nat p) in
          r ← get_fields fuel (drop k l); Some (take k l :: r)
      end
  end.

Lemma split_bits p rest : split_dot (chars (ConcreteLibs.bits p) ++ "."%char :: rest) = (chars (ConcreteLibs.bits p), rest).
Proof.
  induction p as [p IH|p IH|]; [..|done]; cbn [ConcreteLibs.bits]; change (chars (String.String ?c ?s)) with (c :: chars s);
    cbn [app split_dot]; by rewrite IH.
Qed.

Definition ser (fields : list string) : string := unchars (flat_map (λ s, put_field (chars s)) fields).
Definition deser (s : string) : option (list string) :=
  l ← get_fields (String.length s) (chars s); Some (List.map unchars l).

Lemma get_put fuel f rest :
  get_fields (S fuel) (put_field f ++ rest) = (r ← get_fields fuel rest; Some (f :: r)).
Proof.
  unfold put_field. rewrite <-app_assoc. cbn [app]. pose proof (split_bits (Pos.of_succ_nat (length f)) (f ++ rest)) as E.
  destruct (chars (ConcreteLibs.bits (Pos.of_succ_nat (length f))) ++ "."%char :: f ++ rest) as [|c l] eqn:El; [by destruct (chars _)|].
  cbn [get_fields]. rewrite E, unchars_chars, ConcreteLibs.unbits_bits. cbn [mbind option_bind].
  rewrite SuccNat2Pos.id_succ. cbn [pred]. by rewrite drop_app_length, take_app_length.
Qed.

Lemma get_all fuel (fields : list string) : (length fields ≤ fuel)%nat →
  get_fields fuel (flat_map (λ s, put_field (chars s)) fields) = Some (chars <$> fields).
Proof.
  revert fuel. induction fields as [|s fields IH]; intros fuel Hf; [by destruct fuel|]. destruct fuel as [|fuel]; cbn in Hf; [lia|].
  cbn [flat_map]. rewrite get_put, IH by lia. done.
Qed.

Lemma ser_length fields : (length fields ≤ String.length (ser fields))%nat.
Proof.
  assert (∀ l, String.length (unchars l) = length l) as Hl by (induction l as [|c l IH]; cbn; [done|by f_equal]).
  unfold ser. rewrite Hl. induction fields as [|s fields IH]; cbn [flat_map length]; [lia|]. rewrite length_app.
  assert (1 ≤ length (put_field (chars s)))%nat by (unfold put_field; rewrite length_app; cbn [length]; lia). lia.
Qed.

Lemma deser_ser fields : deser (ser fields) = Some fields.
Proof.
  unfold deser. pose proof (ser_length fields) as Hl. revert Hl. generalize (String.length (ser fields)). intros n Hl.
  unfold ser. rewrite chars_unchars, get_all by done. cbn. f_equal. induction fields as [|s fields IH]; [done|]. cbn.
  rewrite unchars_chars. f_equal. apply IH. cbn in Hl. lia.
Qed.

Lemma ser_nonempty s fields : ser (s :: fields) ≠ "".
Proof. unfold ser, put_field. cbn [flat_map]. by destruct (chars (ConcreteLibs.bits _)). Qed.

Definition sZ (z : Z) : string :=
  match z with Z0 => "0" | Zpos p => String.String "p"%char (ConcreteLibs.bits p) | Zneg p => String.String "n"%char (ConcreteLibs.bits p) end.
Definition dZ (s : string) : option Z :=
  match s with
  | String.String c s => if Ascii.eqb c "p" then Zpos <$> ConcreteLibs.unbits s
                         else if Ascii.eqb c "n" then Zneg <$> ConcreteLibs.unbits s else Some 0
  | String.EmptyString => None
  end.
Lemma dZ_sZ z : dZ (sZ z) = Some z.
Proof. destruct z; cbn; by rewrite ?ConcreteLibs.unbits_bits. Qed.

Definition sB (b : bool) : string := if b then "1" else "0".
Definition dB (s : string) : bool := bool_decide (s = "1").

(** A type as a non-empty list of fields. *)
Class Fields (A : Type) := { to_fields : A → list string; of_fields : list string → option A }.
Class FieldsLaws (A : Type) `{Fields A} : Prop := {
  fields_roundtrip (a : A) : of_fields (to_fields a) = Some a;
  fields_nonempty (a : A) : to_fields a ≠ [];
}.

#[export] Instance fields_codec A `{Fields A} : Codec A := {| Encode a := ser (to_fields a); Decode s := f ← deser s; of_fields f |}.
#[export] Instance fields_codec_laws A `{FieldsLaws A} : CodecLaws A.
Proof.
  split; intros a; cbn [Encode Decode fields_codec].
  - rewrite deser_ser. apply fields_roundtrip.
  - pose proof (fields_nonempty a). destruct (to_fields a); [done|]. apply ser_nonempty.
Qed.

#[export] Instance account_fields : Fields AccountState := {|
  to_fields a := [AcAddress a; sZ (Nonce a); sZ (Balance a); StorageRoot a; CodeHash a];
  of_fields l := match l with
    | [a; n; b; s; c] => n ← dZ n; b ← dZ b; Some (mkAccountState a n b s c)
    | _ => None end |}.
#[export] Instance account_laws : FieldsLaws AccountState.
Proof. split; [|done]. intros []. cbn. by rewrite !dZ_sZ. Qed.

#[export] Instance request_fields : Fields Request := {|
  to_fields r := [RequestType r; Content r; sZ (ReqTime r)];
  of_fields l := match l with [a; b; c] => c ← dZ c; Some (mkRequest a b c) | _ => None end |}.
#[export] Instance request_laws : FieldsLaws Request.
Proof. split; [|done]. intros []. cbn. by rewrite dZ_sZ. Qed.

#[export] Instance tx_fields : Fields Transaction := {|
  to_fields t := [Sender t; Recipient t; sZ (TxNonce t); Signature t; sZ (Value t); TxHash t; sZ (TxTime t); sB (Relayed t);
                  sB (HasBroker t); sB (SenderIsBroker t); OriginalSender t; FinalRecipient t; RawTxHash t];
  of_fields l := match l with
    | [s; r; n; g; v; h; t; b1; b2; b3; o; f; w] =>
        n ← dZ n; v ← dZ v; t ← dZ t; Some (mkTransaction s r n g v h t (dB b1) (dB b2) (dB b3) o f w)
    | _ => None end |}.
#[export] Instance tx_laws : FieldsLaws Transaction.
Proof. split; [|done]. intros [? ? ? ? ? ? ? [] [] [] ? ? ?]; cbn; by rewrite !dZ_sZ. Qed.

(** Bit sets as lists. *)
#[export] Instance bitlist : BitSetLib := {|
  BitSet := list Z; bitset_New _ := []; bitset_Set b i := i :: b; bitset_Test b i := existsb (Z.eqb i) b |}.
#[export] Instance bitlist_laws : BitSetLaws.
Proof.
  split; [done|]. intros b i j. cbn. f_equal. destruct (Z.eqb_spec j i); symmetry; [by apply bool_decide_eq_true_2|].
  apply bool_decide_eq_false_2. congruence.
Qed.

Lemma mapM_dZ l : mapM dZ (sZ <$> l) = Some l.
Proof. induction l as [|z l IH]; [done|]. cbn. by rewrite dZ_sZ, IH. Qed.

#[export] Instance header_fields : Fields BlockHeader := {|
  to_fields h := [ParentBlockHash h; StateRoot h; TxRoot h; ser (sZ <$> (Bloom h : list Z)); sZ (Number h); sZ (HTime h); sZ (Miner h)];
  of_fields l := match l with
    | [p; s; t; b; n; ti; m] =>
        b ← (deser b ≫= mapM dZ); n ← dZ n; ti ← dZ ti; m ← dZ m; Some (mkBlockHeader bitlist p s t b n ti m)
    | _ => None end |}.
#[export] Instance header_laws : FieldsLaws BlockHeader.
Proof. split; [|done]. intros []. cbn -[ser deser]. rewrite deser_ser. cbn -[ser deser]. rewrite mapM_dZ. cbn. by rewrite !dZ_sZ. Qed.

Lemma mapM_decode {A} `{CodecLaws A} (l : list A) : mapM Decode (Encode <$> l) = Some l.
Proof. induction l as [|x l IH]; [done|]. cbn. by rewrite codec_roundtrip, IH. Qed.

#[export] Instance block_fields : Fields Block := {|
  to_fields b := [Encode (Header b); ser (Encode <$> Body b); Hash b];
  of_fields l := match l with
    | [h; t; x] => h ← Decode h; t ← (deser t ≫= mapM Decode); Some (mkBlock bitlist h t x)
    | _ => None end |}.
#[export] Instance block_laws : FieldsLaws Block.
Proof.
  split; [|done]. intros [h t x]. cbn -[ser deser Encode Decode]. rewrite codec_roundtrip. cbn -[ser deser Encode Decode].
  rewrite deser_ser. cbn -[ser deser Encode Decode]. by rewrite mapM_decode.
Qed.

(** The root of a trie: its content, written out. *)
Definition croot (m : gmap bytes bytes) : bytes := ser ("" :: flat_map (λ kv : bytes * bytes, [kv.1; kv.2]) (map_to_list m)).

Lemma croot_inj m m' : croot m = croot m' → m = m'.
Proof.
  unfold croot. intros E%(f_equal deser). rewrite !deser_ser in E. injection E as E. apply map_to_list_inj.
  revert E. generalize (map_to_list m), (map_to_list m'). intros l. induction l as [|[k v] l IH]; intros [|[k' v'] l'] E; try done.
  injection E as -> -> E. by rewrite (IH l' E).
Qed.

#[export] Instance compact_trie : TrieLib := ConcreteLibs.mtrie_lib croot.
#[export] Instance compact_trie_laws : TrieLaws.
Proof. apply ConcreteLibs.mtrie_laws; [exact croot_inj|]. intros m. apply ser_nonempty. Qed.
End CompactCodec.

(** ** The run *)
Module TwoShards.
Import CompactCodec.
#[local] Existing Instances ConcreteLibs.crypto ConcreteLibs.bolt ConcreteLibs.crypto_laws ConcreteLibs.crypto_inj ConcreteLibs.bolt_laws.

Definition globals2 : Globals := default_globals <| gShardNum := 2 |> <| gNodesInShard := 1 |>.
#[local] Instance params2 : Params := params_of globals2.

Definition boot2 : go System := boot table2 globals2 1 2 (λ _, trie_NewDatabase) (λ _, ∅) 0.

(** An account of each shard. *)
Definition payer := "00000000".
Definition payee := "00000001".
Definition payment : Transaction := sample_tx payer payee 5.

(** A round of a shard of one node; its packets are at position [i] of the wire. *)
Definition round (n : Z * Z) (i : nat) (t : Time) : list sys_event :=
  [SBegin n; SSend n t; SDeliver n i t (λ _, 1); SDeliver n i t (λ _, 1); SDeliver n i t (λ _, 1); SEnd n].

Definition events2 : list sys_event :=
  [SInject (0, 0) [payment]; SDeliver (0, 0) 0 1 (λ _, 1)] ++ round (0, 0) 0 10 ++
  [SDeliver (1, 0) 0 20 (λ _, 1)] ++ round (1, 0) 1 30.

(** The balance of an account at the leader of a shard. *)
Definition balance_at (S : System) (s : Z) (a : Address) : go Z :=
  match procs S !! (s, 0) with
  | None => Panic "no such process"
  | Some q => l ← FetchAccounts (App (node q)) [a]; Ok (match l with st :: _ => Balance st | [] => 0 end)
  end.

(** The payer has paid in shard 0, the payee has been paid in shard 1; the two reports to the
    supervisor and an empty relay of shard 1 are under way. *)
Example payment_arrives :
  (S0 ← boot2; r ← sys_run S0 events2;
   match r with
   | None => Panic "stuck"
   | Some S1 => b ← balance_at S1 0 payer; c ← balance_at S1 1 payee;
               Ok (b, c, flat_map (λ pk, carried pk.2) (wire S1), length (wire S1))
   end) = Ok (Init_Balance - 5, Init_Balance + 5, [], 3%nat).
Proof. vm_compute. reflexivity. Qed.

Lemma table2_entries n a : entry table2 n = Some a → (n, a) ∈ [((0, 0), "10.0.0.1:1"); ((1, 0), "10.0.0.1:2"); ((2147483647, 0), "10.0.0.2:1")].
Proof.
  destruct n as [i j]. unfold entry, table2. cbn [fst snd]. intros (t & Ht & Ha)%bind_Some.
  apply lookup_insert_Some in Ht as [[<- <-]|[_ Ht]]; [apply lookup_singleton_Some in Ha as [<- <-]; set_solver|].
  apply lookup_insert_Some in Ht as [[<- <-]|[_ Ht]]; [apply lookup_singleton_Some in Ha as [<- <-]; set_solver|].
  apply lookup_singleton_Some in Ht as [<- <-]. apply lookup_singleton_Some in Ha as [<- <-]. set_solver.
Qed.

Lemma deployment2 : deployment table2 1 2.
Proof.
  split.
  - intros [i j] [Hi Hj]. cbn in Hi, Hj. assert (j = 0) as -> by lia. assert (i = 0 ∨ i = 1) as [-> | ->] by lia; eexists; vm_compute; reflexivity.
  - intros n n' a E1%table2_entries E2%table2_entries. rewrite !elem_of_cons, elem_of_nil in E1, E2. naive_solver.
  - split; [reflexivity|lia].
  - lia.
  - done.
Qed.

Lemma launch2 S0 : boot2 = Ok S0 → launch table2 globals2 1 2 (λ _, trie_NewDatabase) (λ _, ∅) 0 S0.
Proof. intros E. split; [exact deployment2|intros; apply trie_new_db_ok|done|exact E]. Qed.

Lemma payment_routed : routed [payer; payee] 0 payment.
Proof.
  unfold routed. split; [split; vm_compute; reflexivity|]. split; [done|]. split; [vm_compute; reflexivity|]. split; [done|].
  cbn. set_solver.
Qed.

Lemma events2_routed : Forall (inject_ok (routed [payer; payee])) events2.
Proof. repeat (apply Forall_cons_2; [first [exact I | apply Forall_singleton, payment_routed]|]). apply Forall_nil_2. Qed.

Lemma events2_plain : Forall (inject_ok plain) events2.
Proof.
  eapply Forall_impl; [exact events2_routed|]. intros [] Hi; try done. eapply Forall_impl; [exact Hi|].
  by intros tx (? & ? & _).
Qed.

Lemma events2_run : ∃ S0 S, boot2 = Ok S0 ∧ sys_run S0 events2 = Ok (Some S) ∧ length (wire S) = 3%nat.
Proof.
  pose proof payment_arrives as P0. destruct boot2 as [S0|] eqn:E0; [clear P0|done].
  destruct (sys_run S0 events2) as [[S1|]|] eqn:E1.
  - exists S0, S1. split; [done|]. split; [done|]. pose proof payment_arrives as P. rewrite E0 in P. cbn [mbind go_bind] in P.
    rewrite E1 in P. cbn [mbind go_bind] in P. apply go_bind_inv in P as (? & _ & P). apply go_bind_inv in P as (? & _ & P).
    by injection P.
  - pose proof payment_arrives as P. rewrite E0 in P. cbn [mbind go_bind] in P. rewrite E1 in P. done.
  - pose proof payment_arrives as P. rewrite E0 in P. cbn [mbind go_bind] in P. rewrite E1 in P. done.
Qed.

Lemma events2_short : len events2 < run_bound.
Proof. vm_compute. reflexivity. Qed.

(** The chains that the leaders read back hold the payment, once in each shard, and nothing is proposed. *)
Example payment_chains :
  (S0 ← boot2; r ← sys_run S0 events2;
   match r with
   | None => Panic "stuck"
   | Some S1 =>
       let chain s := match procs S1 !! (s, 0) with
                      | Some q => read_chain (Storage (App (node q))) 5 (Hash (CurrentBlock (App (node q))))
                      | None => None end in
       Ok ((fmap Value ∘ block_txs) <$> chain 0, (fmap Value ∘ block_txs) <$> chain 1, proposed S1 0 ++ proposed S1 1)
   end) = Ok (Some [5], Some [5], []).
Proof. vm_compute. reflexivity. Qed.

(** A choice of the two chains. *)
Lemma two_chains S : (∀ s, 0 ≤ s < 2 → ∃ bs, leader_chain S s bs) → ∃ C : Z → list Block, ∀ s, 0 ≤ s < 2 → leader_chain S s (C s).
Proof.
  intros Hex. destruct (Hex 0) as [b0 Hb0]; [lia|]. destruct (Hex 1) as [b1 Hb1]; [lia|]. exists (λ s, if s =? 0 then b0 else b1).
  intros s Hs. destruct (Z.eqb_spec s 0) as [->|]; [done|]. by assert (s = 1) as -> by lia.
Qed.

Lemma system_agreement_witness : ∃ S0 S (logs : Z → list Block), boot2 = Ok S0 ∧ sys_run S0 events2 = Ok (Some S) ∧
  ∃ q h, procs S !! (1, 0) = Some q ∧ at_height 1 (logs 1) h (App (node q)).
Proof.
  destruct events2_run as (S0 & S1 & E0 & E1 & _).
  destruct (system_agreement table2 globals2 1 2 (λ _, trie_NewDatabase) (λ _, ∅) 0 S0 events2 (launch2 S0 E0) events2_short events2_plain) as (o & E & Ho).
  rewrite E1 in E. injection E as <-. destruct (Ho S1 eq_refl) as (logs & Hl). destruct (Hl (1, 0)) as (_ & q & h & Hq & Ha & _); [split; cbn; lia|].
  exists S0, S1, logs. split; [exact E0|]. split; [exact E1|]. exists q, h. split; assumption.
Defined.

Lemma exactly_once_witness : ∃ S0 S (C : Z → list Block), boot2 = Ok S0 ∧ sys_run S0 events2 = Ok (Some S) ∧
  (∀ s, 0 ≤ s < 2 → leader_chain S s (C s)) ∧
  first_total 1 2 Value C S = 5 ∧ second_total table2 1 2 Value C S 1 = sent_to 2 Value C 1.
Proof.
  destruct events2_run as (S0 & S1 & E0 & E1 & _).
  destruct (exactly_once table2 globals2 1 2 (λ _, trie_NewDatabase) (λ _, ∅) 0 S0 S1 events2 (launch2 S0 E0) events2_short events2_plain E1) as (Hex & Hw).
  destruct (two_chains S1 Hex) as [C HC]. destruct (Hw C HC Value value_timeless) as [Hf Hr].
  exists S0, S1, C. split; [exact E0|]. split; [exact E1|]. split; [exact HC|]. split; [rewrite Hf; reflexivity|]. apply Hr. lia.
Defined.

Lemma system_money_witness : ∃ S0 S (C : Z → list Block) b, boot2 = Ok S0 ∧ sys_run S0 events2 = Ok (Some S) ∧
  (∀ s, 0 ≤ s < 2 → leader_chain S s (C s)) ∧ (∀ a, a ∈ [payer; payee] → leader_balance S a = Some (b a)) ∧
  sumZ b [payer; payee] + sumZ (in_transit table2 1 2 Value S) (upto 2) =
    2 * Init_Balance + sumZ (λ s, overdrafts s (λ _, Init_Balance) (block_txs (C s))) (upto 2).
Proof.
  destruct events2_run as (S0 & S1 & E0 & E1 & _).
  destruct (system_money table2 globals2 1 2 (λ _, trie_NewDatabase) (λ _, ∅) 0 S0 S1 events2 [payer; payee] (launch2 S0 E0))
    as (Hex & Hbal & Hs).
  - apply (bool_decide_eq_true_1 (NoDup [payer; payee])). vm_compute. reflexivity.
  - repeat (apply Forall_cons_2; [vm_compute; reflexivity|]). apply Forall_nil_2.
  - exact events2_short.
  - exact events2_routed.
  - exact E1.
  - destruct (two_chains S1 Hex) as [C HC].
    assert (∀ a, a ∈ [payer; payee] → leader_balance S1 a = Some (default 0 (leader_balance S1 a))) as Hb.
    { intros a Ha. destruct (Hbal a Ha) as [z Hz]. rewrite Hz. reflexivity. }
    exists S0, S1, C, (λ a, default 0 (leader_balance S1 a)). split; [exact E0|]. split; [exact E1|]. split; [exact HC|].
    split; [exact Hb|]. exact (Hs C _ HC Hb).
Defined.
End TwoShards.
