(* ===== verification/SystemSupervisor.v ===== *)
(** * The system with its supervisor

    The shards of [System] and the relay committee of the supervisor ([committee_relay.go]), which
    reads the dataset and sends batches to the leaders.  What the committee sends does not depend on
    what the shards do: it is the list of packets that [MsgSendingControl] makes of the rows, and the
    composition interleaves sending them, one after the other, with the steps of the shards.  The
    goroutines that dial may overtake each other; packets under way are not ordered, which covers it. *)
From S2P Require Import Prelude Utils Libs Core Messages Storage Chain MerkleProof Overhead.
From S2P Require Import Pbft PbftFacts RelayModule RelayFacts Supervisor SupervisorFacts SupervisorProcess Setup SetupFacts System SystemSeq SystemLog SystemNode SystemInv SystemState SystemFacts SystemMoney SystemExample.

Section full.
Context `{Params, BitSetLib, CryptoLib, !Codec AccountState, !Codec Request, !Codec Transaction,
          !Codec BlockHeader, !Codec Block, BoltLib, TrieLib}.

Record FullSystem := mkFull { shards : System; to_send : list packet }.

Inductive full_event := FSend | FShard (e : sys_event).

(** Nobody but the supervisor injects. *)
Definition full_step (F : FullSystem) (e : full_event) : go (option FullSystem) :=
  match e with
  | FSend =>
      match to_send F with
      | [] => Ok None
      | pk :: rest => Ok (Some (mkFull (mkSystem (procs (shards F)) (wire (shards F) ++ [pk])) rest))
      end
  | FShard (SInject _ _) => Ok None
  | FShard e => r ← sys_step (shards F) e; Ok (r ≫= λ B, Some (mkFull B (to_send F)))
  end.

Fixpoint full_run (F : FullSystem) (es : list full_event) : go (option FullSystem) :=
  match es with
  | [] => Ok (Some F)
  | e :: es =>
      r ← full_step F e;
      match r with
      | None => Ok None
      | Some F' => full_run F' es
      end
  end.

(** The supervisor starts on the rows of the dataset. *)
Definition full_boot (table : gmap Z (gmap Z string)) (ss : StopSignal) (total batch : Z)
    (rows : list (Time * list string)) (B : System) : go FullSystem :=
  r ← MsgSendingControl table (NewRelayCommitteeModule ss total batch) rows;
  Ok (mkFull B r.2).

(** ** What the supervisor sends *)
Definition inject_packet (table : gmap Z (gmap Z string)) (snm : Z) (pk : packet) : Prop :=
  ∃ it, pk = (addr table (ToShardID it, 0), MInject it) ∧ 0 ≤ ToShardID it < snm ∧ Forall (plain (ToShardID it)) (ITxs it).

Definition all_txs (l : list packet) : list Transaction := flat_map (carried ∘ snd) l.

Lemma all_txs_app l1 l2 : all_txs (l1 ++ l2) = all_txs l1 ++ all_txs l2.
Proof. apply flat_map_app. Qed.

(** A sum over all transactions of injections, shard by shard. *)
Lemma sum_injected table snm (w : Transaction → Z) l :
  Forall (λ pk, ∃ it, pk = (addr table (ToShardID it, 0), MInject it) ∧ 0 ≤ ToShardID it < snm) l →
  sumZ w (all_txs l) = sumZ (λ s, sumZ w (injected s l)) (upto snm).
Proof.
  induction 1 as [|pk l (it & -> & Hs) _ IH]; [by symmetry; apply sumZ_zero|].
  change (all_txs (?x :: l)) with (carried x.2 ++ all_txs l). rewrite sumZ_app, IH. cbn [carried snd].
  rewrite <-(sumZ_single (ToShardID it) (sumZ w (ITxs it)) (upto snm)); [|apply upto_nodup|by apply elem_of_upto].
  rewrite <-sumZ_add. apply sumZ_ext. intros s _.
  change (?x :: l) with ([x] ++ l). rewrite injected_app, sumZ_app. f_equal.
  unfold injected. cbn [fmap list_fmap concat snd]. rewrite app_nil_r.
  destruct (Z.eqb_spec (ToShardID it) s) as [->|Hne]; [by rewrite decide_True|by rewrite decide_False].
Qed.

Lemma sum_routed snm (w : Transaction → Z) (txs : list Transaction) (route : Transaction → go Z) :
  Forall (λ tx, ∃ s, route tx = Ok s ∧ 0 ≤ s < snm) txs →
  sumZ (λ s, sumZ w (List.filter (routed_to route s) txs)) (upto snm) = sumZ w txs.
Proof.
  induction 1 as [|tx txs (s & Hr & Hs) _ IH]; [by apply sumZ_zero|]. rewrite sumZ_cons, <-IH.
  rewrite <-(sumZ_single s (w tx) (upto snm)); [|apply upto_nodup|by apply elem_of_upto].
  rewrite <-sumZ_add. apply sumZ_ext. intros s' _. cbn [List.filter]. unfold routed_to at 1. rewrite Hr.
  destruct (Z.eqb_spec s s') as [->|Hne]; [rewrite sumZ_cons, decide_True by done; lia|rewrite decide_False by done; lia].
Qed.

(** The routing is the placement of the shards. *)
Lemma route_home tx : has_home (Sender tx) → relay_route tx = Ok (home (Sender tx)).
Proof.
  unfold has_home, home, place, relay_route. rewrite lookup_empty. destruct (Addr2Shard (Sender tx)); cbn; [done|discriminate].
Qed.

(** A row makes a transaction that is not marked. *)
Lemma row_fresh now data nonce tx : data2tx now data nonce = Ok (Some tx) → Relayed tx = false.
Proof. unfold data2tx. intros Hs. handler; done. Qed.

Lemma rows_fresh k rows : Forall (λ tx, Relayed tx = false) (rows_txs k rows).
Proof.
  revert k. induction rows as [|row rows IH]; intros k; cbn [rows_txs]; [done|].
  destruct (data2tx _ _ _) as [[tx|]|] eqn:E; [|apply IH|apply IH]. constructor; [by eapply row_fresh|apply IH].
Qed.

(** All batches together. *)
Lemma batches_sent table (bs : list (list Transaction)) out0 : 0 < InjectSpeed →
  Forall (Forall (λ tx, has_home (Sender tx))) bs → Forall (good_inject table) out0 →
  ∃ out, go_fold (λ out b, o ← txSending table relay_route b; Ok (out ++ o)) out0 bs = Ok out ∧ Forall (good_inject table) out ∧
    ∀ s, 0 ≤ s < ShardNum → injected s out = injected s out0 ++ List.filter (routed_to relay_route s) (concat bs).
Proof.
  intros Hsp Hbs. revert out0. induction Hbs as [|b bs Hb _ IH]; intros out0 Hg0; cbn [go_fold concat].
  { exists out0. split; [done|]. split; [done|]. intros s _. cbn. by rewrite app_nil_r. }
  destruct (tx_sending_spec table relay_route b 0 ∅ Hsp) as (o & E & Hg & Ho); [lia|done|..].
  { intros s. rewrite lookup_empty. pose proof (Z.mod_pos_bound (0 - 1) InjectSpeed Hsp). unfold len. cbn. lia. }
  { eapply Forall_impl; [exact Hb|]. intros tx Hx. exists (home (Sender tx)). by apply route_home. }
  change (txSending table relay_route b) with (tx_sending table relay_route 0 ∅ b). rewrite E. cbn [mbind go_bind].
  destruct (IH (out0 ++ o)) as (out & -> & Hgo & Hout); [by apply Forall_app|]. exists out. split; [done|]. split; [done|].
  intros s Hs. rewrite Hout, injected_app, Ho, lookup_empty by done. cbn [default]. by rewrite List.filter_app, <-!app_assoc.
Qed.

(** What the supervisor sends for the first [total] rows: injections, to the leaders, of exactly
    their transactions. *)
Lemma boot_sends table snm ss total batch rows B : ShardNum = snm → 0 < snm < 2 ^ 63 → 0 < InjectSpeed → 0 < batch →
  0 < total ≤ len (rows_txs 0 rows) → Forall row_ok rows → Forall tx_homes (rows_txs 0 rows) →
  ∃ F, full_boot table ss total batch rows B = Ok F ∧ shards F = B ∧ Forall (inject_packet table snm) (to_send F) ∧
    ∀ w, sumZ w (all_txs (to_send F)) = sumZ w (take (Z.to_nat total) (rows_txs 0 rows)).
Proof.
  intros Hsn Hs Hsp Hb [Ht Hl] Hok Hh. pose proof (rows_fresh 0 rows) as Hf.
  destruct (sending_control_spec rows (NewRelayCommitteeModule ss total batch) []) as (m & bs & E & Hc & _); [done..|].
  cbn [NewRelayCommitteeModule batchDataNum dataTotalNum nowDataNum] in Hc. unfold sent_txs in Hc.
  rewrite !Z.add_0_l, Z.sub_0_r, app_nil_l, (proj2 (Z.leb_le _ _) Hl) in Hc. set (txs := take _ _) in *.
  assert (Forall (λ tx, tx_homes tx ∧ Relayed tx = false) txs) as Htx.
  { apply Forall_take, Forall_and. by split. }
  assert (Forall (Forall (λ tx, has_home (Sender tx))) bs) as Hbs.
  { rewrite <-Hc in Htx. clear -Htx. induction bs as [|b bs IH]; [done|]. cbn [concat] in Htx. apply Forall_app in Htx as [H1' H2'].
    constructor; [|by apply IH]. eapply Forall_impl; [exact H1'|]. by intros tx [[? _] _]. }
  destruct (batches_sent table bs [] Hsp Hbs) as (out & Eo & Hg & Hi); [done|].
  unfold full_boot, MsgSendingControl. rewrite E. cbn [mbind go_bind fst snd]. rewrite Eo. cbn [mbind go_bind fst snd].
  eexists. split; [done|]. cbn [shards to_send]. rewrite Hc in Hi.
  assert (∀ s, 0 ≤ s < snm → injected s out = List.filter (routed_to relay_route s) txs) as Hi' by (intros s; rewrite <-Hsn; apply Hi).
  split; [done|]. split.
  - apply list.Forall_forall. intros pk Hin. rewrite list.Forall_forall in Hg. destruct (Hg pk Hin) as (it & -> & Hit & _).
    rewrite Hsn in Hit. exists it. split; [done|]. split; [done|]. apply list.Forall_forall. intros tx Hx.
    rewrite list.Forall_forall in Htx. apply Htx. assert (tx ∈ injected (ToShardID it) out) as Hin'.
    { unfold injected. apply list_elem_of_In, in_concat. exists (ITxs it). split; [|by apply list_elem_of_In].
      apply list_elem_of_In, list_elem_of_fmap. eexists. split; [|exact Hin]. cbn. by rewrite Z.eqb_refl. }
    rewrite Hi' in Hin' by done. apply list_elem_of_In, filter_In in Hin' as [? _]. by apply list_elem_of_In.
  - intros w. rewrite (sum_injected table snm w out).
    + rewrite (sumZ_ext _ (λ s, sumZ w (List.filter (routed_to relay_route s) txs))); [|intros s Hx%elem_of_upto; by rewrite Hi'].
      apply sum_routed. eapply Forall_impl; [exact Htx|]. intros tx [[Hx _] _]. exists (home (Sender tx)).
      split; [by apply route_home|]. rewrite <-Hsn. by apply home_range; [lia..|].
    + eapply Forall_impl; [exact Hg|]. intros pk (it & -> & Hit & _). exists it. by rewrite <-Hsn.
Qed.

(** ** Runs *)
Context `{!BitSetLaws, !CryptoLaws, !CollisionFree, !CodecLaws AccountState, !CodecLaws Request,
          !CodecLaws BlockHeader, !CodecLaws Block, !BoltLaws, !TrieLaws}.
Context (table : gmap Z (gmap Z string)) (nnm snm : Z) (HD : deployment table nnm snm).
Abbreviation sok := (sys_ok table nnm snm plain).
Abbreviation acc := (accounts table nnm snm).

(** Sending a packet is an injection of the system. *)
Lemma send_injects G hs B it : sok G hs B → 0 ≤ ToShardID it < snm → Forall (plain (ToShardID it)) (ITxs it) →
  let B' := mkSystem (procs B) (wire B ++ [(addr table (ToShardID it, 0), MInject it)]) in
  sok G hs B' ∧ acc G hs B (ITxs it) G hs B'.
Proof.
  intros Hok Hs Hi. pose proof (dp_nodes _ _ _ HD) as Hnn.
  destruct (proj2 (so_procs _ _ _ _ _ _ _ Hok (ToShardID it, 0))) as [q Hq]; [split; cbn; lia|].
  destruct (so_nodes _ _ _ _ _ _ _ Hok _ q Hq) as (h & Hn & _).
  pose proof (inject_step table nnm snm plain HD G hs B (ToShardID it, 0) q (ITxs it) Hok Hq Hi) as Hst.
  rewrite (n_running _ _ _ _ _ _ _ Hn) in Hst. cbn [self IPaddr fst] in Hst. destruct it as [txs sid]. exact Hst.
Qed.

Lemma accounts_trans G hs B txs G1 hs1 B1 txs1 G2 hs2 B2 : acc G hs B txs G1 hs1 B1 → acc G1 hs1 B1 txs1 G2 hs2 B2 →
  acc G hs B (txs ++ txs1) G2 hs2 B2.
Proof.
  intros A1 A2 w Hw. destruct (A1 w Hw) as [F1 R1], (A2 w Hw) as [F2 R2]. rewrite sumZ_app. split; [lia|].
  intros t Ht. specialize (R1 t Ht). specialize (R2 t Ht). lia.
Qed.

Lemma accounts_refl G hs B : acc G hs B [] G hs B.
Proof. intros w Hw. change (sumZ _ []) with 0. split; [lia|]. intros; lia. Qed.

(** A step of a shard. *)
Lemma shard_step_kept k G hs F e : 0 ≤ k < 2 ^ 63 - 1 → seq_sys k (shards F) → sok G hs (shards F) →
  ∃ o, full_step F (FShard e) = Ok o ∧ ∀ F1, o = Some F1 → to_send F1 = to_send F ∧ seq_sys (k + 1) (shards F1) ∧
    ∃ G1 hs1, sok G1 hs1 (shards F1) ∧ acc G hs (shards F) [] G1 hs1 (shards F1).
Proof.
  intros Hk Hsq Hok. assert ((∃ n txs, e = SInject n txs) ∨ (inject_ok plain e ∧ injects e = [] ∧ full_step F (FShard e) =
    (r ← sys_step (shards F) e; Ok (r ≫= λ B, Some (mkFull B (to_send F)))))) as Hcase.
  { destruct e; first [left; by eexists _, _|right; done]. }
  destruct Hcase as [(n & txs & ->)|(Hi & Ej & ->)]; [by eexists|].
  assert (seq_out (two64 - 2) (wire (shards F))) as Hso by (eapply seq_out_mono; [|apply Hsq]; unfold two64; lia).
  destruct (event_ok table nnm snm plain HD G hs (shards F) e Hok Hso Hi) as (o & Es & Ho). rewrite Es. cbn [mbind go_bind].
  eexists. split; [done|]. intros F1 (B & -> & [= <-])%bind_Some. split; [done|].
  split; [exact (seq_step k Hk (proj1 (dp_plain _ _ _ HD)) _ _ _ Hsq Es)|].
  destruct (Ho B eq_refl) as (G1 & hs1 & Hok1 & Ha1). rewrite Ej in Ha1. by exists G1, hs1.
Qed.

Lemma full_run_kept es : ∀ k G hs F, 0 ≤ k → k + len es < 2 ^ 63 - 1 → seq_sys k (shards F) → sok G hs (shards F) → Forall (inject_packet table snm) (to_send F) →
  ∃ o, full_run F es = Ok o ∧ ∀ F', o = Some F' → ∃ sent G' hs', to_send F = sent ++ to_send F' ∧
    sok G' hs' (shards F') ∧ acc G hs (shards F) (all_txs sent) G' hs' (shards F').
Proof.
  induction es as [|e es IH]; intros k G hs F Hk Hl Hsq Hok Hp; cbn [full_run].
  { eexists. split; [done|]. intros F' [= <-]. exists [], G, hs. split; [done|]. split; [done|]. apply accounts_refl. }
  unfold len in *. cbn [length] in Hl. destruct e as [|e].
  - cbn [full_step]. destruct (to_send F) as [|pk rest] eqn:Et; [by eexists|]. cbn [mbind go_bind].
    apply Forall_cons in Hp as [(it & -> & Hit & Hpl) Hp]. destruct (send_injects G hs (shards F) it Hok Hit Hpl) as [Hok1 Ha1].
    assert (seq_sys (k + 1) (mkSystem (procs (shards F)) (wire (shards F) ++ [(addr table (ToShardID it, 0), MInject it)]))) as Hsq1.
    { apply (seq_sys_mono k); [lia|]. destruct Hsq as [s1 s2]. split; [done|]. apply Forall_app. split; [done|by apply Forall_singleton]. }
    destruct (IH (k + 1) G hs (mkFull (mkSystem (procs (shards F)) (wire (shards F) ++ [(addr table (ToShardID it, 0), MInject it)])) rest) ltac:(lia) ltac:(lia) Hsq1 Hok1 Hp)
      as (o & -> & Ho). eexists. split; [done|]. intros F' HF.
    destruct (Ho F' HF) as (sent & G' & hs' & Es & Hok2 & Ha2). cbn [to_send shards] in *.
    exists ((addr table (ToShardID it, 0), MInject it) :: sent), G', hs'. split; [by rewrite Es|]. split; [done|].
    exact (accounts_trans _ _ _ _ _ _ _ _ _ _ _ Ha1 Ha2).
  - destruct (shard_step_kept k G hs F e ltac:(lia) Hsq Hok) as (o & -> & Ho). cbn [mbind go_bind]. destruct o as [F1|]; [|by eexists].
    destruct (Ho F1 eq_refl) as (Et & Hsq1 & G1 & hs1 & Hok1 & Ha1).
    rewrite <-Et in Hp. destruct (IH (k + 1) G1 hs1 F1 ltac:(lia) ltac:(lia) Hsq1 Hok1 Hp) as (o & -> & Ho2). eexists. split; [done|]. intros F' HF.
    destruct (Ho2 F' HF) as (sent & G' & hs' & Es & Hok2 & Ha2). exists sent, G', hs'. split; [by rewrite <-Et|]. split; [done|].
    exact (accounts_trans _ _ _ [] _ _ _ _ _ _ _ Ha1 Ha2).
Qed.
End full.

(** ** From the dataset to the blocks *)
Section dataset.
Context `{Params, BitSetLib, CryptoLib, !Codec AccountState, !Codec Request, !Codec Transaction,
          !Codec BlockHeader, !Codec Block, BoltLib, TrieLib}.

(** Nothing is left to send, under way, in a pool or proposed. *)
Definition idle (F : FullSystem) : Prop :=
  to_send F = [] ∧ Forall (λ pk : packet, carried pk.2 = []) (wire (shards F)) ∧ (∀ n, queue (shards F) n = []) ∧
  ∀ s, proposed (shards F) s = [].

Lemma sum_fresh (w : Transaction → Z) l : Forall (λ tx, Relayed tx = false) l → sumZ (fresh w) l = sumZ w l.
Proof.
  intros Hl. apply sumZ_ext. intros tx Hx. rewrite list.Forall_forall in Hl. unfold fresh. by rewrite (Hl tx Hx).
Qed.

Lemma packets_fresh table snm l : Forall (inject_packet table snm) l → Forall (λ tx, Relayed tx = false) (all_txs l).
Proof.
  induction 1 as [|pk l (it & -> & _ & Hi) _ IH]; [done|]. apply Forall_app. split; [|done].
  eapply Forall_impl; [exact Hi|]. by intros tx [_ ?].
Qed.

(** At rest everything is in the chains. *)
Lemma idle_total table nnm snm w C F : idle F →
  first_total nnm snm w C (shards F) = sumZ (λ s, sumZ (fresh w) (block_txs (C s))) (upto snm) ∧
  ∀ t, second_total table nnm snm w C (shards F) t = sumZ (relayed w) (block_txs (C t)).
Proof.
  intros (_ & Hw & Hq & Hp). rewrite list.Forall_forall in Hw. split.
  - unfold first_total. rewrite (sumZ_zero _ (wire (shards F))), (sumZ_zero _ (nodes_of nnm snm)).
    + rewrite (sumZ_zero (λ s, sumZ (fresh w) (block_txs (proposed _ s)))); [lia|]. intros s _. by rewrite Hp.
    + intros n _. by rewrite Hq.
    + intros pk Hin. by rewrite (Hw pk Hin).
  - intros t. unfold second_total, in_transit. rewrite (sumZ_zero _ (wire (shards F))), (sumZ_zero _ (nodes_of nnm snm)), Hp; [done|..].
    + intros n _. rewrite Hq. by case_decide.
    + intros pk Hin. rewrite (Hw pk Hin). by case_decide.
Qed.

Context `{!BitSetLaws, !CryptoLaws, !CollisionFree, !CodecLaws AccountState, !CodecLaws Request,
          !CodecLaws BlockHeader, !CodecLaws Block, !BoltLaws, !TrieLaws}.

(** C4: from the dataset to the blocks.  The supervisor reads the first [total] valid rows of the
    dataset and sends their transactions to the shards, which propose, agree, execute and relay, all
    interleaved in any way (fewer than 2^62 events) with packets in any order.  Nothing ever panics;
    at every moment each leader reads one chain of executed blocks back from its database, and each
    transaction of the rows is still to be sent, under way, in a pool, in a proposed block or in one
    of these chains, in one of these places once; what the leaders have executed for a shard is under
    way to it, in its pools, proposed there or in its chain.  So when the system has come to rest,
    every transaction of the rows is in exactly one chain, once, as first half, and every one that
    was executed for another shard is in the chain of that shard, once, as second half.  The measure
    [w] may count the transactions with a given hash. *)
Theorem dataset_executed (table : gmap Z (gmap Z string)) (g : Globals) (nnm snm : Z) (dbs : Z * Z → TrieDB)
    (stores : Z * Z → BoltDB) (now : Time) (S0 : System) (ss : StopSignal) (total batch : Z)
    (rows : list (Time * list string)) (es : list full_event) :
  launch table g nnm snm dbs stores now S0 → 0 < InjectSpeed → 0 < batch → 0 < total ≤ len (rows_txs 0 rows) →
  Forall row_ok rows → Forall tx_homes (rows_txs 0 rows) → len es < run_bound →
  ∃ F0 o, full_boot table ss total batch rows S0 = Ok F0 ∧ full_run F0 es = Ok o ∧ ∀ F, o = Some F →
    (∀ s, 0 ≤ s < snm → ∃ bs, leader_chain (shards F) s bs) ∧
    ∀ C : Z → list Block, (∀ s, 0 ≤ s < snm → leader_chain (shards F) s (C s)) →
    ∀ w, timeless w →
      sumZ w (all_txs (to_send F)) + first_total nnm snm w C (shards F) = sumZ w (take (Z.to_nat total) (rows_txs 0 rows)) ∧
      (∀ t, 0 ≤ t < snm → second_total table nnm snm w C (shards F) t = sent_to snm w C t) ∧
      (idle F → sumZ (λ s, sumZ (fresh w) (block_txs (C s))) (upto snm) = sumZ w (take (Z.to_nat total) (rows_txs 0 rows)) ∧
        ∀ t, 0 ≤ t < snm → sumZ (relayed w) (block_txs (C t)) = sent_to snm w C t).
Proof.
  intros HL Hsp Hb Ht Hok Hh Hl. pose proof (la_dep _ _ _ _ _ _ _ _ HL) as HD. destruct (dp_shards _ _ _ HD) as [Hsn Hsb].
  destruct (boot_sends table snm ss total batch rows S0 Hsn Hsb Hsp Hb Ht Hok Hh) as (F0 & E0 & ES & Hp & Hsum).
  destruct (boot_ok table g nnm snm dbs stores now S0 HL plain) as [Hok0 Hz].
  pose proof (boot_seq table g nnm snm dbs stores now S0 HL plain) as Hsq. rewrite <-ES in Hok0, Hz, Hsq. unfold run_bound in Hl.
  destruct (full_run_kept table nnm snm HD es 1 _ _ F0 ltac:(lia) ltac:(lia) Hsq Hok0 Hp) as (o & E & Ho).
  exists F0, o. split; [done|]. split; [done|].
  intros F HF. destruct (Ho F HF) as (sent & G & hs & Es & HokF & Ha). split.
  { intros s Hs. eexists. by eapply leader_reads_log. }
  intros C HC w Hw. pose proof (Hsum w) as Hs1. rewrite Es, all_txs_app, sumZ_app in Hs1.
  rewrite Es in Hp. apply Forall_app in Hp as [Hp1 _]. destruct (Ha w Hw) as [Hf Hr], (Hz w) as [Hz1 Hz2].
  rewrite (sum_fresh w _ (packets_fresh table snm sent Hp1)) in Hf.
  assert (sumZ w (all_txs (to_send F)) + first_total nnm snm w C (shards F) = sumZ w (take (Z.to_nat total) (rows_txs 0 rows))) as Hmain.
  { rewrite (first_total_log _ _ _ _ HD _ _ _ HokF C HC). lia. }
  assert (∀ t, 0 ≤ t < snm → second_total table nnm snm w C (shards F) t = sent_to snm w C t) as Hsec.
  { intros t Htt. rewrite (second_total_log _ _ _ _ HD _ _ _ HokF C HC w t Htt), (sent_to_log _ _ _ _ HD _ _ _ HokF C HC).
    specialize (Hr t Htt). destruct (Hz2 t). lia. }
  split; [done|]. split; [done|]. intros Hi. destruct (idle_total table nnm snm w C F Hi) as [I1 I2]. split.
  - rewrite <-Hmain, I1, (proj1 Hi). done.
  - intros t Htt. by rewrite <-I2, Hsec.
Qed.
End dataset.

(** ** Witness: one row, two shards *)
Module DatasetExample.
Import CompactCodec TwoShards.
#[local] Existing Instances ConcreteLibs.crypto ConcreteLibs.bolt ConcreteLibs.crypto_laws ConcreteLibs.crypto_inj ConcreteLibs.bolt_laws params2.

(** A transfer of 5 from an account of shard 0 to one of shard 1. *)
Definition row1 : Time * list string :=
  (1, [""; ""; ""; "0x0000000000000000"; "0x0000000000000001"; ""; "0"; "0"; "5"]).

Definition full_events : list full_event :=
  [FSend; FSend; FShard (SDeliver (0, 0) 0 1 (λ _, 1)); FShard (SDeliver (1, 0) 0 1 (λ _, 1))] ++
  (FShard <$> round (0, 0) 0 10) ++ [FShard (SDeliver (1, 0) 0 20 (λ _, 1))] ++ (FShard <$> round (1, 0) 1 30).

Definition is_idle (F : FullSystem) : bool :=
  match to_send F with [] => true | _ => false end &&
  forallb (λ pk : packet, match carried pk.2 with [] => true | _ => false end) (wire (shards F)) &&
  bool_decide (map_Forall (λ _ q, TxQueue (Txpool (App (node q))) = [] ∧ length (pending (node q)) = 0%nat) (procs (shards F))).

Lemma is_idle_ok F : is_idle F = true → idle F.
Proof.
  unfold is_idle. intros [[H1 H2]%andb_true_iff H3]%andb_true_iff. apply bool_decide_eq_true in H3.
  split; [by destruct (to_send F)|]. split; [|split].
  - apply list.Forall_forall. intros pk Hin. rewrite forallb_forall in H2. apply list_elem_of_In in Hin. specialize (H2 pk Hin).
    by destruct (carried pk.2).
  - intros n. unfold queue. destruct (procs (shards F) !! n) as [q|] eqn:E; [|done]. by apply (H3 n q).
  - intros n. unfold proposed. destruct (procs (shards F) !! (n, 0)) as [q|] eqn:E; [|done]. apply nil_length_inv. by apply (H3 (n, 0) q).
Qed.

Example dataset_run :
  match boot2 with
  | Ok S0 => match full_boot table2 (NewStopSignal 2) 1 1 [row1] S0 with
             | Ok F0 => match full_run F0 full_events with Ok (Some F) => is_idle F | _ => false end
             | _ => false end
  | _ => false end = true.
Proof. vm_compute. reflexivity. Qed.

Lemma dataset_executed_witness : ∃ S0 F0 F (C : Z → list Block), boot2 = Ok S0 ∧
  full_boot table2 (NewStopSignal 2) 1 1 [row1] S0 = Ok F0 ∧ full_run F0 full_events = Ok (Some F) ∧ idle F ∧
  (∀ s, 0 ≤ s < 2 → leader_chain (shards F) s (C s)) ∧ sumZ (λ s, sumZ (fresh Value) (block_txs (C s))) (upto 2) = 5.
Proof.
  destruct events2_run as (S0 & _ & E0 & _).
  assert (∀ n, ∃ r, data2tx (row1).1 (row1).2 n = Ok r) as Hrow by (intros n; eexists; vm_compute; reflexivity).
  destruct (dataset_executed table2 globals2 1 2 (λ _, trie_NewDatabase) (λ _, ∅) 0 S0 (NewStopSignal 2) 1 1 [row1] full_events
    (launch2 S0 E0)) as (F0 & o & EF & Er & Ho).
  - vm_compute. reflexivity.
  - lia.
  - split; [lia|]. vm_compute. congruence.
  - apply Forall_cons_2; [exact Hrow|apply Forall_nil_2].
  - apply Forall_cons_2; [split; vm_compute; reflexivity|apply Forall_nil_2].
  - vm_compute. reflexivity.
  - pose proof dataset_run as P. rewrite E0, EF, Er in P. destruct o as [F|]; [|discriminate P].
    destruct (Ho F eq_refl) as (Hex & Hw). destruct (two_chains (shards F) Hex) as [C HC].
    exists S0, F0, F, C. split; [exact E0|]. split; [exact EF|]. split; [exact Er|]. split; [exact (is_idle_ok F P)|].
    split; [exact HC|]. destruct (Hw C HC Value value_timeless) as (_ & _ & Hi). destruct (Hi (is_idle_ok F P)) as [-> _].
    vm_compute. reflexivity.
Defined.
End DatasetExample.
