(* ===== verification/SystemView.v ===== *)
(** * The whole system with time-outs and view changes

    The steps of [System], and in addition: the goroutine of [Propose] that checks the time since
    the last commit and proposes a view change ([messageHandle.go], [view_change.go]), and handlers
    that have started, that is, have read the view, and still wait under [pbftLock].  A view change
    can overtake such a handler, which then finds its view stale.  Nothing is assumed of time: a
    time-out may come at any moment that the clock of the event allows. *)
From S2P Require Import Prelude Utils Libs Core Messages Storage Chain MerkleProof Overhead.
From S2P Require Import Pbft PbftFacts RelayModule RelayFacts SupervisorProcess Setup System SystemSeq SystemLog SystemNode.

Section view.
Context `{Params, BitSetLib, CryptoLib, !Codec AccountState, !Codec Request, !Codec Transaction,
          !Codec BlockHeader, !Codec Block, BoltLib, TrieLib}.

(** A handler that has started: its node, the view it has read, its message. *)
Record handler := mkHandler { h_node : Z * Z; h_view : Z; h_msg : Msg }.

Record VSystem := mkVSystem { base : System; handlers : list handler }.

Inductive view_event :=
| VRun (e : sys_event)
| VArrive (n : Z * Z) (i : nat)
| VHandle (j : nat) (now : Time) (clock : nat → Time)
| VTimer (n : Z * Z) (now : Time).

(** A step of the node of process [q], which is process [n]. *)
Definition node_result (S : VSystem) (hs : list handler) (n : Z * Z) (q : Proc)
    (r : option (PbftConsensusNode BlockChain * list packet)) : option VSystem :=
  r ≫= λ po, Some (mkVSystem (after (base S) n (mkProc po.1 (holding q) (ending q)) po.2) hs).

Definition view_step (S : VSystem) (e : view_event) : go (option VSystem) :=
  match e with
  | VRun e => r ← sys_step (base S) e; Ok (r ≫= λ B, Some (mkVSystem B (handlers S)))
  | VArrive n i =>
      match procs (base S) !! n, wire (base S) !! i with
      | Some q, Some (a, m) =>
          if bool_decide (a = IPaddr (RunningNode (node q))) then
            Ok (Some (mkVSystem (mkSystem (procs (base S)) (delete i (wire (base S))))
                        (handlers S ++ [mkHandler n (view (node q)) m])))
          else Ok None
      | _, _ => Ok None
      end
  | VHandle j now clock =>
      match handlers S !! j with
      | None => Ok None
      | Some hd =>
          match procs (base S) !! h_node hd with
          | None => Ok None
          | Some q =>
              r ← handleMessage (h_view hd) now clock (h_msg hd) (node q);
              Ok (node_result S (delete j (handlers S)) (h_node hd) q r)
          end
      end
  | VTimer n now =>
      match procs (base S) !! n with
      | None => Ok None
      | Some q => r ← view_change_check now (node q); Ok (node_result S (handlers S) n q r)
      end
  end.

Fixpoint view_run (S : VSystem) (es : list view_event) : go (option VSystem) :=
  match es with
  | [] => Ok (Some S)
  | e :: es =>
      r ← view_step S e;
      match r with
      | None => Ok None
      | Some S' => view_run S' es
      end
  end.

Definition view_boot (B : System) : VSystem := mkVSystem B [].

(** ** The sequence numbers, with those of the handlers that wait *)
Record seq_vsys (k : Z) (S : VSystem) : Prop := {
  sv_base : seq_sys k (base S);
  sv_handlers : Forall (λ h, seq_msg k (h_msg h)) (handlers S);
}.

Lemma seq_vsys_mono k k' S : k ≤ k' → seq_vsys k S → seq_vsys k' S.
Proof.
  intros Hk [s1 s2]. split; [by apply (seq_sys_mono k)|]. eapply Forall_impl; [exact s2|]. intros h. by apply seq_msg_mono.
Qed.

Lemma seq_node_result k S hs n q r S' : seq_sys k (base S) → Forall (λ h, seq_msg k (h_msg h)) hs → seq_result k r →
  (r ≫= λ o, Ok (node_result S hs n q o)) = Ok (Some S') → seq_vsys k S'.
Proof.
  intros Hs Hh Hr E. apply go_bind_inv in E as (o & -> & [= E]). apply bind_Some in E as ([p out] & -> & [= <-]).
  destruct (Hr p out eq_refl). split; [by apply seq_after|done].
Qed.

Lemma seq_view_step k S e S' : 0 ≤ k < 2 ^ 63 - 1 → Overhead_Enabled = false →
  seq_vsys k S → view_step S e = Ok (Some S') → seq_vsys (k + 1) S'.
Proof.
  intros Hk Ho [Hb Hh]. assert (Forall (λ h, seq_msg (k + 1) (h_msg h)) (handlers S)) as Hh1.
  { eapply Forall_impl; [exact Hh|]. intros h. apply seq_msg_mono. lia. }
  assert (seq_sys (k + 1) (base S)) as Hb1 by (apply (seq_sys_mono k); [lia|done]).
  destruct e as [e|n i|j now clock|n now]; cbn [view_step].
  - intros (o & Es & [= E])%go_bind_inv. apply bind_Some in E as (B & -> & [= <-]). split; [|done]. by apply (seq_step k Hk Ho (base S) e).
  - destruct (procs (base S) !! n) as [q|] eqn:Hq; [|done]. destruct (wire (base S) !! i) as [[a m]|] eqn:Ew; [|done].
    case_bool_decide; [|done]. intros [= <-]. split; [by apply seq_delete|]. apply Forall_app. split; [done|]. apply Forall_singleton.
    pose proof (ss_wire _ _ Hb1) as Hw. unfold seq_out in Hw. rewrite list.Forall_forall in Hw.
    apply (Hw (a, m)). by eapply list_elem_of_lookup_2.
  - destruct (handlers S !! j) as [hd|] eqn:Ej; [|done]. destruct (procs (base S) !! h_node hd) as [q|] eqn:Hq; [|done].
    apply seq_node_result; [done|apply Forall_delete; exact Hh1|]. apply seq_message; [done|done|by apply (ss_nodes _ _ Hb (h_node hd))|].
    rewrite list.Forall_forall in Hh. by eapply Hh, list_elem_of_lookup_2.
  - destruct (procs (base S) !! n) as [q|] eqn:Hq; [|done]. apply seq_node_result; [done|done|].
    apply seq_timer. by apply (ss_nodes _ _ Hb n).
Qed.

(** ** The invariant

    A request is honest when its block extends some chain of blocks from the genesis block.  A
    node has executed a chain of its own; other nodes may have executed other chains. *)
Definition honest (s : Z) (r : Request) : Prop :=
  ∃ bs b t, log_ok s (bs ++ [b]) ∧ r = req (b, t).

Definition executed_chain (s : Z) (bs : list Block) (bc : BlockChain) : Prop :=
  log_ok s bs ∧ at_height s bs (length bs) bc.

Record vchain_ok (s : Z) (bc : BlockChain) : Prop := {
  vc_chain : ∃ bs, executed_chain s bs bc;
  vc_queue : Forall tx_homes (TxQueue (Txpool bc));
}.

Context (table : gmap Z (gmap Z string)) (nnm snm : Z).
Abbreviation addr := (SystemNode.addr table).
Abbreviation self := (SystemNode.self table).
Abbreviation member := (SystemNode.member nnm snm).

Record vnode_ok (n : Z * Z) (p : PbftConsensusNode BlockChain) : Prop := {
  v_running : RunningNode p = self n;
  v_shard : PShardID p = n.1;
  v_id : PNodeID p = n.2;
  v_table : ip_nodeTable p = table;
  v_shards : ShardNums (pbftChainConfig p) = snm;
  v_nodes : node_nums p = nnm;
  v_view : 0 ≤ view p < nnm;
  v_pool : map_Forall (λ _ r, honest n.1 r) (requestPool p);
  v_app : vchain_ok n.1 (App p);
}.

Definition vmsg_ok (n : Z * Z) (m : Msg) : Prop :=
  match m with
  | MPrePrepare pp => honest n.1 (RequestMsg pp)
  | MRequestOld rom => ∃ i, member (n.1, i) ∧ ROSenderNode rom = self (n.1, i)
  | MSendOld som => Forall (honest n.1) (OldRequest som)
  | MNewView nv => 0 ≤ NVNextView nv < nnm
  | MRelay r => Forall tx_homes (RTxs r)
  | MInject it => Forall tx_homes (ITxs it)
  | MRelayWithProof _ => False
  | _ => True
  end.

Definition vpackets_ok (l : list packet) : Prop :=
  ∀ a m, (a, m) ∈ l → ∀ n, member n → addr n = a → vmsg_ok n m.

(** A computation that panics at most because a lock is released that is not held. *)
Definition unlock_of_unlocked : string := "sync: unlock of unlocked mutex".
Definition locks {A} (P : A → Prop) (m : go A) : Prop :=
  match m with Ok a => P a | Panic w => w = unlock_of_unlocked end.

Definition vresult (n : Z * Z) (r : option (PbftConsensusNode BlockChain * list packet)) : Prop :=
  ∀ p out, r = Some (p, out) → vnode_ok n p ∧ vpackets_ok out.

Lemma locks_bind {A B} (P : A → Prop) (Q : B → Prop) m (k : A → go B) :
  locks P m → (∀ a, P a → locks Q (k a)) → locks Q (m ≫= k).
Proof. destruct m; cbn; auto. Qed.

Lemma locks_impl {A} (P Q : A → Prop) m : locks P m → (∀ a, P a → Q a) → locks Q m.
Proof. destruct m; cbn; auto. Qed.

Lemma vpackets_nil : vpackets_ok [].
Proof. intros a m Hin. by apply not_elem_of_nil in Hin. Qed.

Lemma vpackets_app l1 l2 : vpackets_ok l1 → vpackets_ok l2 → vpackets_ok (l1 ++ l2).
Proof. intros P1 P2 a m Hin. apply elem_of_app in Hin as [?|?]; [by apply P1|by apply P2]. Qed.

Lemma vresult_none n : vresult n None.
Proof. done. Qed.

Lemma vresult_some n p out : vnode_ok n p → vpackets_ok out → vresult n (Some (p, out)).
Proof. by intros ? ? ? ? [= <- <-]. Qed.

(** ** Chains *)
Context `{!BitSetLaws, !CryptoLaws, !CollisionFree, !CodecLaws AccountState, !CodecLaws Request,
          !CodecLaws BlockHeader, !CodecLaws Block, !BoltLaws, !TrieLaws}.

Lemma root_ledger db db' r m m' : triedb_ok db → triedb_ok db' → root_is db r m → root_is db' r m' → m = m'.
Proof.
  intros Hok Hok' Hr Hr'. pose proof Hr' as (Hz & t & Ht & Hm').
  destruct (root_same db db' r m t Hok Hok' Hr Ht) as (_ & t' & Ht' & Hm). rewrite Ht in Ht'. injection Ht' as <-.
  apply map_eq. intros k. specialize (Hm k). rewrite Hm' in Hm.
  destruct (m !! k) as [a|], (m' !! k) as [a'|]; cbn in Hm; try done. injection Hm as E. by apply codec_inj in E as ->.
Qed.

(** Two chains that end in the same header have the same ledger. *)
Lemma same_header s bs bs' : log_ok s bs → log_ok s bs' → header_after bs = header_after bs' →
  ledger_after s bs = ledger_after s bs'.
Proof.
  assert (∀ bs b, extends s bs b → Header b ≠ genesis_header) as Hg.
  { intros l b Hx E. pose proof (ex_parent _ _ _ Hx) as Hp. rewrite E in Hp. cbn in Hp. by eapply sha256_nonempty. }
  intros Hl Hl' E. destruct Hl as [|bs b _ Hx], Hl' as [|bs' b' _ Hx']; [done|..].
  - rewrite header_snoc in E. by destruct (Hg _ _ Hx').
  - rewrite header_snoc in E. by destruct (Hg _ _ Hx).
  - rewrite !header_snoc in E. destruct (ex_root _ _ _ Hx) as (db & Hdb & Hr), (ex_root _ _ _ Hx') as (db' & Hdb' & Hr').
    rewrite E in Hr. exact (root_ledger db db' _ _ _ Hdb Hdb' Hr Hr').
Qed.

(** Any block that extends some chain, offered to a node: it extends the node's chain, or the node
    refuses it. *)
Lemma add_honest s bs bs' b bc : log_ok s (bs' ++ [b]) → executed_chain s bs bc →
  Forall tx_homes (Body b) ∧
  ((accepts b bc = false ∧ AddBlock b bc = Ok bc) ∨
   ∃ bc', accepts b bc = true ∧ AddBlock b bc = Ok bc' ∧ executed_chain s (bs ++ [b]) bc' ∧ CurrentBlock bc' = b ∧
     Txpool bc' = Txpool bc).
Proof.
  intros Hl' [Hl Ha]. inversion Hl' as [E|l x Hl0 Hx E]; [by destruct bs'|]. apply app_inj_tail in E as [-> ->].
  split; [apply Hx|].
  destruct (decide (Number (Header b) = u64 (Number (Header (CurrentBlock bc)) + 1) ∧
                    ParentBlockHash (Header b) = Hash (CurrentBlock bc))) as [[Hn Hp]|Hne].
  - right. assert (extends s bs b) as Hb.
    { pose proof (at_height_hash _ _ _ _ Ha) as Hh. rewrite firstn_all in Hh.
      assert (header_after bs' = header_after bs) as Eh.
      { apply header_hash_inj. by rewrite <-(ex_parent _ _ _ Hx), Hp, Hh. }
      pose proof (same_header s bs' bs Hl0 Hl Eh) as El. destruct Hx as [x1 x2 x3 x4 x5 x6].
      split; rewrite <-?Eh; try done. destruct x5 as (db & Hdb & Hr). exists db. split; [done|].
      rewrite ledger_snoc in Hr |- *. by rewrite <-El. }
    assert (log_ok s (bs ++ [b])) as Hlb by (by constructor).
    destruct (add_next s (bs ++ [b]) (length bs) bc b Hlb) as (Hacc & _ & bc' & E & Ha' & Hc & Ht).
    { by apply at_height_app. }
    { by rewrite lookup_app_r, Nat.sub_diag. }
    exists bc'. split; [done|]. split; [done|]. split; [|done]. split; [done|]. rewrite length_app, Nat.add_1_r. exact Ha'.
  - left. unfold accepts. split.
    + destruct (_ =? _) eqn:En; [|done]. apply bool_decide_eq_false_2. intros Hp. apply Hne. zbool. done.
    + apply add_block_guard. destruct (decide (Number (Header b) = u64 (Number (Header (CurrentBlock bc)) + 1))); [|by left].
      right. intros Hp. by apply Hne.
Qed.

Lemma vchain_add s bc r : vchain_ok s bc → honest s r →
  ∃ b bc', DecodeB (Content r) = Ok b ∧ AddBlock b bc = Ok bc' ∧ vchain_ok s bc' ∧ Txpool bc' = Txpool bc ∧
    Forall tx_homes (Body b) ∧ PartitionMap bc' = ∅ ∧ (accepts b bc = true → CurrentBlock bc' = b).
Proof.
  intros [[bs Hbs] Hq] (bs' & b & t & Hl & ->). exists b.
  destruct (add_honest s bs bs' b bc Hl Hbs) as [Hh [(Hacc & E)|(bc' & Hacc & E & Hx & Hc & Ht)]].
  - exists bc. split; [apply must_decode_encode|]. split; [done|]. split; [by split; [exists bs|]|].
    split; [done|]. split; [done|]. split; [apply (ah_map _ _ _ _ (proj2 Hbs))|]. by rewrite Hacc.
  - exists bc'. split; [apply must_decode_encode|]. split; [done|]. split; [split; [by exists (bs ++ [b])|by rewrite Ht]|].
    split; [done|]. split; [done|]. split; [apply (ah_map _ _ _ _ (proj2 Hx))|done].
Qed.
End view.
