(* ===== verification/SystemViewFacts.v ===== *)
(** * What the system guarantees with time-outs and view changes

    Every node always has a chain of its own whose blocks extend each other and whose accounts
    are what executing them gives; the only panic is the release of a lock that is not held. *)
From S2P Require Import Prelude Utils Libs Core Messages Storage Chain MerkleProof Overhead.
From S2P Require Import Pbft PbftFacts RelayModule RelayFacts SupervisorProcess Setup SetupFacts System SystemSeq SystemLog SystemNode SystemInv SystemFacts SystemView.

Section node.
Context `{Params, BitSetLib, CryptoLib, !Codec AccountState, !Codec Request, !Codec Transaction,
          !Codec BlockHeader, !Codec Block, BoltLib, TrieLib}.
Context (table : gmap Z (gmap Z string)) (nnm snm : Z).
Abbreviation addr := (SystemNode.addr table).
Abbreviation self := (SystemNode.self table).
Abbreviation member := (SystemNode.member nnm snm).
Abbreviation vnode_ok := (SystemView.vnode_ok table nnm snm).
Abbreviation vmsg_ok := (SystemView.vmsg_ok table nnm snm).
Abbreviation vpackets_ok := (SystemView.vpackets_ok table nnm snm).
Abbreviation vresult := (SystemView.vresult table nnm snm).
Abbreviation pnode := (PbftConsensusNode BlockChain).

Context `{!BitSetLaws, !CryptoLaws, !CollisionFree, !CodecLaws AccountState, !CodecLaws Request,
          !CodecLaws BlockHeader, !CodecLaws Block, !BoltLaws, !TrieLaws}.
Context (HD : deployment table nnm snm) (Hwidth : nnm < 2 ^ 31).

(** ** What a node sends *)

(** A message to the nodes of the shard arrives only there. *)
Lemma vneighbours n p m : vnode_ok n p → member n → (∀ n', member n' → n'.1 = n.1 → vmsg_ok n' m) →
  vpackets_ok (send_all p m).
Proof.
  intros Hn Hm Hok a m' Hin n' Hm' Ha. unfold send_all, Broadcast, getNeighborNodes, getNodeIpsWithinShard in Hin.
  rewrite (v_running _ _ _ _ _ Hn), (v_table _ _ _ _ _ Hn), (v_shard _ _ _ _ _ Hn) in Hin.
  apply elem_of_app in Hin as [Hin|Hin].
  - apply list_elem_of_fmap in Hin as (ip & [= <- <-] & Hip). apply Hok; [done|].
    apply list_elem_of_In, filter_In in Hip as [Hip _]. apply list_elem_of_In in Hip.
    apply list_elem_of_fmap in Hip as ([i ip'] & -> & Hip%elem_of_map_to_list). cbn in *.
    destruct (table !! n.1) as [row|] eqn:Er; cbn in Hip; [|by rewrite lookup_empty in Hip].
    rewrite (row_member table nnm snm HD n.1 i n' Hm'); [done|]. unfold entry. cbn. rewrite Er. cbn. by rewrite Ha.
  - apply list_elem_of_singleton in Hin. injection Hin as -> ->. apply Hok; [done|]. cbn in Ha.
    by rewrite (addr_inj table nnm snm HD n' n).
Qed.

Lemma vpackets_single n m : member n → vmsg_ok n m → vpackets_ok [(addr n, m)].
Proof.
  intros Hm Hok a m' Hin n' Hm' Ha. apply list_elem_of_singleton in Hin. injection Hin as -> ->.
  by rewrite (addr_inj table nnm snm HD n' n).
Qed.

Lemma next_view_ok n p : vnode_ok n p → ∃ v, next_view p = Ok v ∧ 0 ≤ v < nnm.
Proof.
  intros Hn. pose proof (v_view _ _ _ _ _ Hn) as Hv. unfold next_view. rewrite (v_nodes _ _ _ _ _ Hn).
  rewrite i64_small, i32_small by lia. destruct (go_rem_range (view p + 1) nnm) as (r & -> & _ & Hr); [lia|lia|].
  by exists r.
Qed.

(** ** Proposals *)
Lemma vpropose_begin n p : member n → vnode_ok n p → locks (vresult n) (Propose_begin p).
Proof.
  intros Hm Hn. unfold Propose_begin. destruct (negb _); [|destruct (sequenceLock p)]; cbn; try done;
    apply vresult_some, vpackets_nil; by destruct Hn.
Qed.

Lemma vpropose_end n p : member n → vnode_ok n p → locks (vresult n) (Propose_end p).
Proof.
  intros Hm Hn. unfold Propose_end. destruct (_ =? 1); cbn; apply vresult_some, vpackets_nil; by destruct Hn.
Qed.

Lemma honest_insert n (m : gmap bytes Request) d r : honest n r → map_Forall (λ _ r, honest n r) m →
  map_Forall (λ _ r, honest n r) (<[d := r]> m).
Proof. intros Hr Hm. by apply map_Forall_insert_2. Qed.

(** A step that changes neither the identity of the node nor its chain, and learns at most an
    honest request. *)
Ltac keep Hn := destruct Hn as [? ? ? ? ? ? ? ? ?]; split; try done; try by apply honest_insert.

Lemma vpropose_send n p now : member n → vnode_ok n p → locks (vresult n) (Propose_send now p).
Proof.
  intros Hm Hn. pose proof (v_app _ _ _ _ _ Hn) as [[bs [Hl Ha]] Hq].
  destruct (generate_extends n.1 bs (App p) (i32 (PNodeID p)) now Ha Hq) as (b & bc' & Eg & Hx & Ha' & Hb).
  unfold Propose_send. cbn [HandleinPropose RawRelayPbftExtraHandleMod]. unfold raw_HandleinPropose, propose_block.
  rewrite Eg. cbn [mbind go_bind fst snd]. unfold encodeProposal. destruct (dp_plain _ _ _ HD) as [-> _]. cbn [andb mbind go_bind locks].
  assert (honest n.1 (mkRequest BlockRequest (Encode b) now)) as Hr.
  { exists bs, b, now. split; [by constructor|done]. }
  assert (vchain_ok n.1 bc') as Hc.
  { split; [by exists bs|]. rewrite <-Hb in Hq. by apply Forall_app in Hq as [_ ?]. }
  apply vresult_some.
  - by keep Hn.
  - apply (vneighbours n p (MPrePrepare (mkPrePrepare (mkRequest BlockRequest (Encode b) now)
      (getDigest (mkRequest BlockRequest (Encode b) now)) (sequenceID p)))); try done.
    intros n' _ E. cbn. by rewrite E.
Qed.

(** ** Consensus messages *)
Lemma vpreprepare n p cv pp : member n → vnode_ok n p → honest n.1 (RequestMsg pp) →
  locks (vresult n) (handlePrePrepare cv pp p).
Proof.
  intros Hm Hn Hr. unfold handlePrePrepare. destruct (waits _ _ _ _); [done|].
  destruct (stale _ _ _); [by apply vresult_some, vpackets_nil|]. destruct (negb _); [by apply vresult_some, vpackets_nil|].
  destruct (_ <? _); [apply vresult_some, vpackets_nil; by keep Hn|].
  cbn [HandleinPrePrepare RawRelayPbftExtraHandleMod]. unfold raw_HandleinPrePrepare, valid_proposal.
  destruct (vchain_add n.1 (App p) (RequestMsg pp) (v_app _ _ _ _ _ Hn) Hr) as (b & _ & -> & _). cbn [mbind go_bind].
  destruct (IsValidBlock _ _); apply vresult_some; try apply vpackets_nil; [by keep Hn..|].
  eapply (vneighbours n); [by keep Hn|done|done].
Qed.

Lemma vprepare n p cv pm : member n → vnode_ok n p → locks (vresult n) (handlePrepare cv pm p).
Proof.
  intros Hm Hn. unfold handlePrepare. destruct (waits _ _ _ _); [done|].
  destruct (stale _ _ _); [by apply vresult_some, vpackets_nil|].
  destruct (requestPool p !! _); [|by apply vresult_some, vpackets_nil]. destruct (_ <? _); [by apply vresult_some, vpackets_nil|].
  cbn [HandleinPrepare RawRelayPbftExtraHandleMod mbind go_bind fst]. unfold set2DMap.
  destruct (_ && _); apply vresult_some; try apply vpackets_nil; [by keep Hn| |by keep Hn].
  eapply (vneighbours n); [by keep Hn|done|done].
Qed.

(** ** Commits *)

(** The commit of an honest request, on leader and follower, whether the chain takes it or not. *)
Lemma vcommit_block (n : Z * Z) (q : pnode) now r : vchain_ok n.1 (App q) → honest n.1 r →
  ∃ bc' out, commit_block q (App q) 0 now r = Ok (bc', out) ∧ vchain_ok n.1 bc' ∧ vpackets_ok out.
Proof.
  intros Hc Hr. destruct (vchain_add n.1 (App q) r Hc Hr) as (b & bc1 & Hd & E & [[bs [Hl Ha]] Hq] & Ht & Hh & Hm & Hcur).
  destruct (decide (PNodeID q = u64 (view q))) as [Hlead|Hlead].
  - destruct (commit_leader q (App q) bc1 0 now r b Hlead) as (bc' & -> & _ & Eq & E1 & E2 & E3 & E4 & E5 & E6); try done.
    { apply (dp_plain _ _ _ HD). }
    { by apply home_placed. }
    eexists bc', _. split; [done|]. split; [split; [exists bs; split; [done|]|by rewrite Eq]|].
    + apply (at_height_marked _ _ _ _ _ Ha); try done.
      * destruct (accepts b (App q)); [by rewrite Hcur, (proj1 (E6 eq_refl))|by rewrite E5].
      * destruct (accepts b (App q)); [by rewrite Hcur, (proj2 (E6 eq_refl))|by rewrite E5].
    + intros a m [Hin|Hin]%elem_of_app n' _ _; [|apply list_elem_of_singleton in Hin; by injection Hin as -> ->].
      apply list_elem_of_fmap in Hin as (sid & [= -> ->] & _). cbn.
      unfold relayed_to. apply Forall_fmap, list.Forall_forall. intros tx Htx%list_elem_of_In.
      apply filter_In in Htx as [Htx%list_elem_of_In _]. rewrite list.Forall_forall in Hh. exact (Hh tx Htx).
  - exists bc1, []. unfold commit_block. rewrite Hd. cbn [mbind go_bind]. rewrite E. cbn [mbind go_bind].
    rewrite (proj2 (Z.eqb_neq _ _) Hlead). split; [done|]. split; [|apply vpackets_nil]. split; [by exists bs|done].
Qed.

Lemma vround_end n p now : vnode_ok n p → locks (vnode_ok n) (round_end now p).
Proof.
  intros Hn. unfold round_end. destruct (_ =? _); [destruct (sequenceLock _)|]; cbn; try done; by keep Hn.
Qed.

(** Asking the leader for old blocks. *)
Lemma vask_old n p now c : member n → vnode_ok n p → locks (vresult n) (ask_old now c p).
Proof.
  intros Hm Hn. unfold ask_old.
  eapply locks_bind; [apply (vround_end n); by keep Hn|]. intros p' Hp'. apply vresult_some; [done|].
  assert (0 ≤ u64 (view p) < nnm) as Hv.
  { pose proof (v_view _ _ _ _ _ Hn). rewrite u64_small; [done|]. unfold two64. lia. }
  cbn [IPaddr]. unfold ip_of.
  rewrite (v_table _ _ _ _ _ Hn), (v_shard _ _ _ _ _ Hn), (v_running _ _ _ _ _ Hn).
  apply (vpackets_single (n.1, u64 (view p))); [by split; [apply Hm|]|]. exists n.2. by destruct n.
Qed.

Lemma vresume n p now : member n → vnode_ok n p → locks (vresult n) (handleCommit_resume now p).
Proof.
  intros Hm Hn. unfold handleCommit_resume. destruct (blockedCommit p); [|done]. destruct (askForLock p); [done|].
  apply vask_old; [done|]. by keep Hn.
Qed.

Lemma vcommit n p cv now cm : member n → vnode_ok n p → locks (vresult n) (handleCommit cv now cm p).
Proof.
  intros Hm Hn. unfold handleCommit. destruct (waits _ _ _ _); [done|].
  destruct (stale _ _ _); [by apply vresult_some, vpackets_nil|].
  assert (vnode_ok n (set2DMap false (CDigest cm) (CSenderNode cm) p)) as H1' by (by keep Hn).
  revert H1'. generalize (set2DMap false (CDigest cm) (CSenderNode cm) p). clear p Hn. intros p Hn.
  destruct (_ && _); [|by apply vresult_some, vpackets_nil].
  destruct (requestPool p !! CDigest cm) as [r|] eqn:Er.
  - cbn [HandleinCommit RawRelayPbftExtraHandleMod]. unfold raw_HandleinCommit. rewrite Er.
    destruct (vcommit_block n p now r (v_app _ _ _ _ _ Hn) (v_pool _ _ _ _ _ Hn (CDigest cm) r Er)) as (bc' & out & -> & Hc & Ho).
    cbn [mbind go_bind fst snd]. eapply locks_bind; [apply (vround_end n); by keep Hn|].
    intros p' Hp'. by apply vresult_some.
  - destruct (askForLock _); [apply vresult_some; [by keep Hn|apply vpackets_nil]|]. apply vask_old; [done|]. by keep Hn.
Qed.

(** ** Catching up *)
Lemma vold_requests n p hs : vnode_ok n p → Forall (honest n.1) (old_requests p hs).
Proof.
  intros Hn. induction hs as [|x hs IH]; cbn [old_requests]; [done|].
  destruct (d ← height2Digest p !! x; requestPool p !! d) as [r|] eqn:E; [|done].
  apply bind_Some in E as (d & _ & E). constructor; [|done]. by apply (v_pool _ _ _ _ _ Hn d r).
Qed.

Lemma vrequest_old n p rom : member n → vnode_ok n p → vmsg_ok n (MRequestOld rom) →
  locks (vresult n) (handleRequestOldSeq rom p).
Proof.
  intros Hm Hn (i & Hi & Es). unfold handleRequestOldSeq. destruct (negb _); [by apply vresult_some, vpackets_nil|].
  cbn [HandleReqestforOldSeq RawRelayPbftExtraHandleMod mbind go_bind]. apply vresult_some; [by keep Hn|].
  rewrite Es. apply (vpackets_single (n.1, i)); [done|]. exact (vold_requests n p _ Hn).
Qed.

Lemma vsequential n p som : vnode_ok n p → Forall (honest n.1) (OldRequest som) → seq_msg (two64 - 2) (MSendOld som) →
  ∃ bc' f, raw_HandleforSequentialRequest p som = Ok (bc', [], f) ∧ vchain_ok n.1 bc'.
Proof.
  intros Hn Hr [Hst Hen]. unfold raw_HandleforSequentialRequest. destruct (negb _) eqn:El; [exists (App p), true; split; [done|apply Hn]|].
  zbool. match goal with |- context [old_loop ?f som ?a] => destruct (old_loop_list f som a) as (rs & Hrs & ->); [lia|lia|done|] end.
  destruct (go_fold_total (λ bc r, if bool_decide (RequestType r = BlockRequest) then b ← DecodeB (Content r); AddBlock b bc else Ok bc)
    (vchain_ok n.1) (App p) rs) as (bc' & E & Hc); [apply Hn|..].
  - intros bc r Hin Hc. destruct Hrs as [->| ->]; [|by apply not_elem_of_nil in Hin]. rewrite list.Forall_forall in Hr. specialize (Hr r Hin).
    case_bool_decide; [|by exists bc]. destruct (vchain_add n.1 bc r Hc Hr) as (b & bc1 & -> & E & Hc1 & _).
    cbn [mbind go_bind]. by exists bc1.
  - rewrite E. cbn [mbind go_bind]. by exists bc', true.
Qed.

Lemma vlearn n b (rs : list (nat * Request)) p : vnode_ok n p → Forall (λ ir, honest n.1 ir.2) rs →
  vnode_ok n (foldl (learn_old b) p rs).
Proof.
  intros Hn Hr. revert p Hn. induction Hr as [|ir rs Hi _ IH]; intros p Hn; [done|]. cbn [foldl]. apply IH. by keep Hn.
Qed.

Lemma vsend_old n p som : member n → vnode_ok n p → Forall (honest n.1) (OldRequest som) → seq_msg (two64 - 2) (MSendOld som) →
  locks (vresult n) (handleSendOldSeq som p).
Proof.
  intros Hm Hn Hr Hsq. unfold handleSendOldSeq. cbn [HandleforSequentialRequest RawRelayPbftExtraHandleMod].
  destruct (vsequential n p som Hn Hr Hsq) as (bc' & f & -> & Hc). cbn [mbind go_bind].
  assert (vnode_ok n ((foldl (learn_old (SOSeqStartHeight som)) (p <| App := bc' |>) (imap pair (OldRequest som)))
    <| sequenceID := u64 (SOSeqEndHeight som + 1) |>)) as Hn2.
  { assert (vnode_ok n (p <| App := bc' |>)) as Hn1 by (by keep Hn).
    apply (vlearn n (SOSeqStartHeight som) (imap pair (OldRequest som))) in Hn1; [by keep Hn1|].
    by apply (imap_pair_Forall (honest n.1)). }
  set (p2 := _ <| sequenceID := _ |>) in *.
  eapply (locks_bind (λ po, vnode_ok n po.1 ∧ vpackets_ok po.2)).
  - match goal with |- context [match ?o with Some _ => _ | None => _ end] => destruct o as [r|] eqn:Er end;
      [|split; [done|apply vpackets_nil]].
    apply bind_Some in Er as (d & _ & Er). pose proof (v_pool _ _ _ _ _ Hn2 d r Er) as Hh.
    cbn [HandleinPrePrepare RawRelayPbftExtraHandleMod]. unfold raw_HandleinPrePrepare, valid_proposal. cbn [RequestMsg].
    destruct (vchain_add n.1 (App p2) r (v_app _ _ _ _ _ Hn2) Hh) as (b & _ & -> & _). cbn [mbind go_bind].
    assert (vnode_ok n (p2 <| App := App p2 |>)) as Hn3 by (by keep Hn2).
    destruct (IsValidBlock _ _); (split; [exact Hn3|]); [apply vpackets_nil|].
    intros a m Hin. eapply (vneighbours n _ (MPrepare _) Hn3 Hm); [done|]. apply elem_of_app. left. exact Hin.
  - intros [p3 out] [Hp Ho]. cbn in Hp, Ho. destruct (askForLock p3); [|done]. apply vresult_some; [by keep Hp|done].
Qed.

(** ** View changes *)
Lemma vtimer n p now : member n → vnode_ok n p → locks (vresult n) (view_change_check now p).
Proof.
  intros Hm Hn. unfold view_change_check. destruct (_ <? _); [|by apply vresult_some, vpackets_nil].
  unfold viewChangePropose. set (p1 := p <| lastCommitTime := UnixMilli now |> <| pbftStage := 5 |>).
  assert (vnode_ok n p1) as H1' by (by keep Hn).
  destruct (next_view_ok n p1 H1') as (v & -> & Hv). cbn [mbind go_bind]. apply vresult_some; [done|].
  by apply (vneighbours n).
Qed.

Lemma vview_change n p vc : member n → vnode_ok n p → locks (vresult n) (handleViewChangeMsg vc p).
Proof.
  intros Hm Hn. unfold handleViewChangeMsg.
  set (p1 := p <| viewChangeMap ::= _ |>). assert (vnode_ok n p1) as H1' by (by keep Hn).
  destruct (_ =? _); [|by apply vresult_some, vpackets_nil].
  destruct (next_view_ok n p1 H1') as (v & -> & Hv). cbn [mbind go_bind]. apply vresult_some; [done|].
  by apply (vneighbours n).
Qed.

Lemma vnew_view n p now nv : member n → vnode_ok n p → 0 ≤ NVNextView nv < nnm → locks (vresult n) (handleNewViewMsg now nv p).
Proof.
  intros Hm Hn Hv. unfold handleNewViewMsg. destruct (_ =? _); apply vresult_some; try apply vpackets_nil; [|by keep Hn].
  keep Hn. cbn. rewrite i32_small by lia. done.
Qed.

(** ** The dispatch *)
Lemma homes_stamped (clock : nat → Time) txs : Forall tx_homes txs → Forall tx_homes (imap (λ i tx, stamp (clock i) tx) txs).
Proof.
  intros Hl. apply list.Forall_forall. intros x Hx. apply elem_of_lookup_imap in Hx as (i & y & -> & Hy).
  rewrite list.Forall_forall in Hl. unfold tx_homes. destruct (stamp_fields (clock i) y) as (-> & -> & _).
  by apply Hl, list_elem_of_lookup_2 with i.
Qed.

Lemma vreceive s bc clock txs : vchain_ok s bc → Forall tx_homes txs → vchain_ok s (SendTx2Pool clock txs bc).
Proof.
  intros [[bs [Hl Ha]] Hq] Ht. split; [exists bs; split; [done|by apply at_height_pool]|].
  cbn. apply Forall_app. split; [done|]. by apply homes_stamped.
Qed.

Lemma vmessage n p cv now clock m : member n → vnode_ok n p → vmsg_ok n m → seq_msg (two64 - 2) m →
  locks (vresult n) (handleMessage cv now clock m p).
Proof.
  intros Hm Hn Hok Hsq. unfold handleMessage, handleOverhead. destruct (dp_plain _ _ _ HD) as [-> _]. cbn [negb].
  destruct m; try done; try (by apply vresult_some, vpackets_nil).
  all: try (by first [apply vpreprepare | apply vprepare | apply vcommit | apply vview_change | apply vnew_view
                      | apply vrequest_old | apply vsend_old]).
  all: apply vresult_some, vpackets_nil; keep Hn; by apply vreceive.
Qed.
End node.

(** ** The system *)
Section system.
Context `{Params, BitSetLib, CryptoLib, !Codec AccountState, !Codec Request, !Codec Transaction,
          !Codec BlockHeader, !Codec Block, BoltLib, TrieLib}.

Record vsys_ok (table : gmap Z (gmap Z string)) (nnm snm : Z) (S : VSystem) : Prop := {
  vs_procs : ∀ n, is_Some (procs (base S) !! n) ↔ member nnm snm n;
  vs_nodes : ∀ n q, procs (base S) !! n = Some q → vnode_ok table nnm snm n (node q);
  vs_wire : vpackets_ok table nnm snm (wire (base S));
  vs_handlers : Forall (λ h, vmsg_ok table nnm snm (h_node h) (h_msg h)) (handlers S);
}.

(** Injected transactions are between accounts that have a shard. *)
Definition vinject_ok (e : view_event) : Prop :=
  match e with VRun (SInject _ txs) => Forall tx_homes txs | _ => True end.

Context `{!BitSetLaws, !CryptoLaws, !CollisionFree, !CodecLaws AccountState, !CodecLaws Request,
          !CodecLaws BlockHeader, !CodecLaws Block, !BoltLaws, !TrieLaws}.

Section steps.
Context (table : gmap Z (gmap Z string)) (nnm snm : Z) (HD : deployment table nnm snm) (Hwidth : nnm < 2 ^ 31).
Abbreviation sok := (vsys_ok table nnm snm).
Abbreviation safe := (locks (λ o : option VSystem, ∀ S', o = Some S' → sok S')).

(** A step of process [n] after which its node is well. *)
Lemma vadvance S n q p hold end_ out rest hs : sok S → procs (base S) !! n = Some q →
  vnode_ok table nnm snm n p → vpackets_ok table nnm snm out → vpackets_ok table nnm snm rest →
  Forall (λ h, vmsg_ok table nnm snm (h_node h) (h_msg h)) hs →
  sok (mkVSystem (after (mkSystem (procs (base S)) rest) n (mkProc p hold end_) out) hs).
Proof.
  intros Hok Hq Hp Ho Hr Hh. split; cbn [base handlers after procs wire]; [..|by apply vpackets_app|done].
  - intros n'. rewrite lookup_insert_is_Some', (vs_procs _ _ _ _ Hok). split; [|tauto]. intros [<-|?]; [|done].
    apply (vs_procs _ _ _ _ Hok). eauto.
  - intros n' q'. rewrite lookup_insert. case_decide; [intros [= <-]; by subst|by apply (vs_nodes _ _ _ _ Hok)].
Qed.

Lemma vpackets_delete l i : vpackets_ok table nnm snm l → vpackets_ok table nnm snm (delete i l).
Proof.
  intros Hl a m Hin. apply Hl. eapply elem_of_submseteq; [exact Hin|]. apply sublist_submseteq, sublist_delete.
Qed.

Lemma base_step S e : sok S → seq_vsys (two64 - 2) S → vinject_ok (VRun e) →
  locks (λ o, ∀ B, o = Some B → sok (mkVSystem B (handlers S))) (sys_step (base S) e).
Proof.
  intros Hok Hsq Hi. pose proof (vs_wire _ _ _ _ Hok) as Hw. pose proof (vs_handlers _ _ _ _ Hok) as Hh.
  destruct e as [n|n now|n|n i now clock|n txs|n now]; cbn [sys_step];
    (destruct (procs (base S) !! n) as [q|] eqn:Hq; [|done]);
    pose proof (vs_nodes _ _ _ _ Hok n q Hq) as Hn;
    (assert (member nnm snm n) as Hm by (apply (vs_procs _ _ _ _ Hok); eauto)).
  - eapply locks_bind; [by apply (vpropose_begin table nnm snm n)|]. intros r Hr B ([p out] & -> & [= <-])%bind_Some.
    destruct (Hr p out eq_refl). by apply (vadvance S n q).
  - destruct (holding q); [|done]. eapply locks_bind; [by apply (vpropose_send table nnm snm HD n)|].
    intros r Hr B ([p out] & -> & [= <-])%bind_Some. destruct (Hr p out eq_refl). by apply (vadvance S n q).
  - destruct (ending q); [done|]. eapply locks_bind; [by apply (vpropose_end table nnm snm n)|].
    intros r Hr B ([p out] & -> & [= <-])%bind_Some. destruct (Hr p out eq_refl). by apply (vadvance S n q).
  - destruct (wire (base S) !! i) as [[a m]|] eqn:Ew; [|done]. case_bool_decide as Ea; [|done].
    rewrite (v_running _ _ _ _ _ Hn) in Ea. eapply locks_bind.
    { apply (vmessage table nnm snm HD Hwidth n); try done; [apply (Hw a m); try done; by eapply list_elem_of_lookup_2|].
      pose proof (ss_wire _ _ (sv_base _ _ Hsq)) as Hws. unfold seq_out in Hws. rewrite list.Forall_forall in Hws.
      apply (Hws (a, m)). by eapply list_elem_of_lookup_2. }
    intros r Hr B ([p out] & -> & [= <-])%bind_Some. destruct (Hr p out eq_refl).
    apply (vadvance S n q); try done. by apply vpackets_delete.
  - intros B [= <-]. split; [apply Hok|apply Hok| |done]. cbn [base wire]. apply vpackets_app; [done|].
    rewrite (v_running _ _ _ _ _ Hn). by apply (vpackets_single table nnm snm HD n).
  - eapply locks_bind; [by apply (vresume table nnm snm HD Hwidth n)|].
    intros r Hr B ([p out] & -> & [= <-])%bind_Some. destruct (Hr p out eq_refl). by apply (vadvance S n q).
Qed.

Lemma view_event_ok S e : sok S → seq_vsys (two64 - 2) S → vinject_ok e → safe (view_step S e).
Proof.
  intros Hok Hsq Hi. pose proof (vs_wire _ _ _ _ Hok) as Hw. pose proof (vs_handlers _ _ _ _ Hok) as Hh.
  destruct e as [e|n i|j now clock|n now]; cbn [view_step].
  - eapply locks_bind; [by apply base_step|]. intros r Hr S' (B & -> & [= <-])%bind_Some. by apply Hr.
  - destruct (procs (base S) !! n) as [q|] eqn:Hq; [|done]. destruct (wire (base S) !! i) as [[a m]|] eqn:Ew; [|done].
    case_bool_decide as Ea; [|done]. rewrite (v_running _ _ _ _ _ (vs_nodes _ _ _ _ Hok n q Hq)) in Ea.
    intros S' [= <-]. split; [apply Hok|apply Hok|by apply vpackets_delete|]. apply Forall_app. split; [done|].
    apply Forall_singleton. apply (Hw a m); [by eapply list_elem_of_lookup_2|apply (vs_procs _ _ _ _ Hok); eauto|done].
  - destruct (handlers S !! j) as [hd|] eqn:Ej; [|done]. destruct (procs (base S) !! h_node hd) as [q|] eqn:Hq; [|done].
    eapply locks_bind.
    { apply (vmessage table nnm snm HD Hwidth (h_node hd)); [apply (vs_procs _ _ _ _ Hok); eauto|by apply (vs_nodes _ _ _ _ Hok)|..].
      - rewrite list.Forall_forall in Hh. by eapply Hh, list_elem_of_lookup_2.
      - pose proof (sv_handlers _ _ Hsq) as Hhs. rewrite list.Forall_forall in Hhs. by eapply Hhs, list_elem_of_lookup_2. }
    intros r Hr S' ([p out] & -> & [= <-])%bind_Some. destruct (Hr p out eq_refl).
    apply (vadvance S (h_node hd) q p _ _ out (wire (base S))); try done. by apply Forall_delete.
  - destruct (procs (base S) !! n) as [q|] eqn:Hq; [|done]. eapply locks_bind.
    { apply (vtimer table nnm snm HD Hwidth n); [apply (vs_procs _ _ _ _ Hok); eauto|by apply (vs_nodes _ _ _ _ Hok)]. }
    intros r Hr S' ([p out] & -> & [= <-])%bind_Some. destruct (Hr p out eq_refl).
    by apply (vadvance S n q p _ _ out (wire (base S))).
Qed.

Lemma view_run_ok es : ∀ k S, 0 ≤ k → k + len es < 2 ^ 63 - 1 → seq_vsys k S → sok S → Forall vinject_ok es → safe (view_run S es).
Proof.
  induction es as [|e es IH]; intros k S Hk Hl Hsq Hok Hi; cbn [view_run]; [by intros S' [= <-]|].
  apply Forall_cons in Hi as [Hi1 Hi2]. unfold len in *. cbn [length] in Hl.
  assert (seq_vsys (two64 - 2) S) as Hs2 by (apply (seq_vsys_mono k); [unfold two64; lia|done]).
  pose proof (view_event_ok S e Hok Hs2 Hi1) as Hst. destruct (view_step S e) as [[S1|]|w] eqn:Es; [|done|exact Hst].
  cbn [mbind go_bind]. apply (IH (k + 1)); [lia|lia| |by apply Hst|done].
  by apply (seq_view_step k S e S1); [lia|apply (dp_plain _ _ _ HD)|..].
Qed.
End steps.

Lemma view_boot_ok table g nnm snm dbs stores now S0 : launch table g nnm snm dbs stores now S0 → vsys_ok table nnm snm (view_boot S0).
Proof.
  intros HL. destruct (boot_started table g nnm snm dbs stores now S0 HL plain) as (Hs & Hd & Hw).
  pose proof (dp_nodes _ _ _ (la_dep _ _ _ _ _ _ _ _ HL)) as Hnn.
  split; [exact Hd| |cbn [base view_boot]; rewrite Hw; apply vpackets_nil|done].
  intros n q Hq. destruct (Hs n q Hq) as (Hn & Eq & _ & En & _). destruct Hn as [n1 n2 n3 n4 n5 n6 n7 n8 n9 n10 n11].
  split; try done.
  - rewrite n6. lia.
  - intros d r Hr. destruct (n7 d r Hr) as [_ Hin]. by apply not_elem_of_nil in Hin.
  - split; [exists []; split; [constructor|exact n8]|]. by rewrite Eq.
Qed.

(** C5: integrity with time-outs.  However the goroutines of all processes interleave, however the
    packets are delayed and whenever nodes time out and change the view, in a run of fewer than 2^62
    events (sequence numbers are 64 bits wide), every node always has a chain
    of blocks from the genesis block, each extending the one before it, all executed and stored, and
    reads from its status trie exactly the accounts that executing this chain gives; and no process
    panics but for one reason, the release of a lock that it does not hold. *)
Theorem view_integrity (table : gmap Z (gmap Z string)) (g : Globals) (nnm snm : Z) (dbs : Z * Z → TrieDB)
    (stores : Z * Z → BoltDB) (now : Time) (S0 : System) (es : list view_event) :
  launch table g nnm snm dbs stores now S0 → nnm < 2 ^ 31 → len es < run_bound → Forall vinject_ok es →
  match view_run (view_boot S0) es with
  | Panic w => w = "sync: unlock of unlocked mutex"
  | Ok None => True
  | Ok (Some S') => ∀ n, member nnm snm n →
      ∃ q bs, procs (base S') !! n = Some q ∧ log_ok n.1 bs ∧ at_height n.1 bs (length bs) (App (node q)) ∧
        ∀ addrs, FetchAccounts (App (node q)) addrs = Ok ((λ a, acct (ledger_after n.1 bs) a 0) <$> addrs)
  end.
Proof.
  intros HL Hw Hb Hi. unfold run_bound in Hb.
  assert (seq_vsys 1 (view_boot S0)) as Hsq by (split; [exact (boot_seq table g nnm snm dbs stores now S0 HL plain)|done]).
  pose proof (view_run_ok table nnm snm (la_dep _ _ _ _ _ _ _ _ HL) Hw es 1 _ ltac:(lia) ltac:(lia) Hsq (view_boot_ok _ _ _ _ _ _ _ _ HL) Hi) as Hr.
  destruct (view_run (view_boot S0) es) as [[S1|]|w]; [|done|exact Hr]. intros n Hm. specialize (Hr S1 eq_refl).
  destruct (proj2 (vs_procs _ _ _ _ Hr n) Hm) as [q Hq]. destruct (v_app _ _ _ _ _ (vs_nodes _ _ _ _ Hr n q Hq)) as [[bs [Hl Ha]] _].
  exists q, bs. split; [done|]. split; [done|]. split; [done|]. intros addrs.
  apply fetch_accounts_spec. pose proof (ah_chain _ _ _ _ Ha) as Hc. rewrite firstn_all in Hc. exact (ck_state _ _ Hc).
Qed.
End system.
