(* ===== verification/SystemViewAgree.v ===== *)
(** * Agreement with handlers that wait

    Without time-outs the finer model, in which a handler reads the view when its message arrives and
    may then wait, gives the guarantees of [SystemFacts]: a message that has arrived and waits is as
    good as one under way, since the view never changes. *)
From S2P Require Import Prelude Utils Libs Core Messages Storage Chain MerkleProof Overhead.
From S2P Require Import Pbft PbftFacts RelayModule RelayFacts SupervisorProcess Setup SetupFacts System SystemSeq SystemLog SystemNode SystemInv SystemFacts SystemView SystemViewFacts.

Section agree.
Context `{Params, BitSetLib, CryptoLib, !Codec AccountState, !Codec Request, !Codec Transaction,
          !Codec BlockHeader, !Codec Block, BoltLib, TrieLib}.
Context `{!BitSetLaws, !CryptoLaws, !CollisionFree, !CodecLaws AccountState, !CodecLaws Request,
          !CodecLaws BlockHeader, !CodecLaws Block, !BoltLaws, !TrieLaws}.

Section steps.
Context (table : gmap Z (gmap Z string)) (nnm snm : Z) (HD : deployment table nnm snm).
Abbreviation sok := (sys_ok table nnm snm plain).

(** The messages that wait, as packets. *)
Definition waiting (hs : list handler) : list packet := (λ h, (addr table (h_node h), h_msg h)) <$> hs.

(** The system in which they are still under way. *)
Definition flat (S : VSystem) : System := mkSystem (procs (base S)) (wire (base S) ++ waiting (handlers S)).

Definition timely (e : view_event) : Prop :=
  match e with VRun (SInject n txs) => Forall (plain n.1) txs | VTimer _ _ => False | _ => True end.

Record agree_ok (G : Z → list (Block * Time)) (hs : Z → nat) (S : VSystem) : Prop := {
  ag_flat : sok G hs (flat S);
  ag_views : Forall (λ h, h_view h = 0) (handlers S);
}.

Lemma sys_ok_perm G hs B l : sok G hs B → wire B ≡ₚ l → sok G hs (mkSystem (procs B) l).
Proof.
  intros [s1 s2 s3 s4 s5] Hl. split; try done; cbn [procs wire].
  - intros a m Hin. apply s4. by rewrite Hl.
  - intros n q Hq. rewrite <-Hl. by apply s5.
Qed.

(** A step of process [n] that consumes [cs] from under way. *)
Lemma agree_advance G hs S n q h q' out cs w hds : agree_ok G hs S → procs (base S) !! n = Some q →
  node_ok table snm plain (G n.1) n h q → (n.2 = 0 → h = hs n.1) →
  wire (flat S) ≡ₚ cs ++ w ++ waiting hds → Forall (λ h, h_view h = 0) hds →
  Forall (λ pk : packet, pk.1 = addr table n ∧ msg_ok table nnm snm plain (G n.1) n pk.2) cs →
  result table nnm snm plain G n h q (flat_map (carried ∘ snd) cs) (λ n', sumZ (asks table n') cs) q' out →
  ∃ G' hs', agree_ok G' hs' (mkVSystem (mkSystem (<[n := q']> (procs (base S))) (w ++ out)) hds).
Proof.
  intros [Hok _] Hq Hn Hh Hw Hv Hc Hr.
  destruct (advance table nnm snm plain HD G hs (flat S) n q h q' out cs (w ++ waiting hds) Hok Hq Hn Hh Hw Hc Hr) as (G' & hs' & Hok' & _).
  exists G', hs'. split; [|done]. apply (sys_ok_perm _ _ _ _ Hok'). cbn [wire]. solve_Permutation.
Qed.

(** Handling a message of node [n] that is under way or waits. *)
Lemma agree_message G hs S n q m now clock w hds : agree_ok G hs S → procs (base S) !! n = Some q → seq_msg (two64 - 2) m →
  wire (flat S) ≡ₚ (addr table n, m) :: w ++ waiting hds → Forall (λ h, h_view h = 0) hds →
  ∃ o, handleMessage 0 now clock m (node q) = Ok o ∧ ∀ p out, o = Some (p, out) →
    ∃ G' hs', agree_ok G' hs' (mkVSystem (mkSystem (<[n := mkProc p (holding q) (ending q)]> (procs (base S))) (w ++ out)) hds).
Proof.
  intros Ha Hq Hms Hw Hv. pose proof (ag_flat _ _ _ Ha) as Hok. destruct (so_nodes _ _ _ _ _ _ _ Hok n q Hq) as (h & Hn & Hh).
  assert (member nnm snm n) as Hm by (apply (so_procs _ _ _ _ _ _ _ Hok); eauto).
  pose proof (so_logs _ _ _ _ _ _ _ Hok n.1 (proj1 Hm)) as Hg.
  assert (msg_ok table nnm snm plain (G n.1) n m) as Hmsg.
  { apply (so_wire _ _ _ _ _ _ _ Hok (addr table n) m); [rewrite Hw; apply list_elem_of_here|done|done]. }
  rewrite <-(n_view _ _ _ _ _ _ _ Hn).
  destruct (node_message_ok table nnm snm plain HD G n h q now clock m Hm Hg Hn Hmsg Hms) as (o & -> & Ho).
  { intros Hpos. pose proof (so_asks _ _ _ _ _ _ _ Hok n q Hq) as Hs. rewrite Hw, sumZ_cons in Hs.
    assert (0 ≤ sumZ (asks table n) (w ++ waiting hds)).
    { apply sumZ_nonneg. intros [a' m'] _. unfold asks. cbn. destruct m'; try lia; case_decide; lia. }
    unfold asking in Hs. destruct (askForLock (node q)); [done|lia]. }
  eexists. split; [done|]. intros p out ->. destruct (Ho p out eq_refl) as (g' & h' & R1 & R2 & R3 & R4 & R5).
  apply (agree_advance G hs S n q h _ out [(addr table n, m)] w hds); try done; [by apply Forall_singleton|].
  exists g', h'. cbn [flat_map compose snd]. rewrite app_nil_r. split; [done|]. split; [done|]. split; [done|]. split; [done|].
  intros n' Hm'. rewrite (R5 n' Hm'), sumZ_cons. change (sumZ _ []) with 0. lia.
Qed.

Lemma agree_step G hs S e : agree_ok G hs S → seq_vsys (two64 - 2) S → timely e →
  ∃ o, view_step S e = Ok o ∧ ∀ S', o = Some S' → ∃ G' hs', agree_ok G' hs' S'.
Proof.
  intros Ha Hsq Hi. pose proof (ag_flat _ _ _ Ha) as Hok. pose proof (ag_views _ _ _ Ha) as Hv.
  destruct e as [e|n i|j now clock|n now]; cbn [view_step]; [..|done].
  - destruct e as [n|n now|n|n i now clock|n txs|n now]; cbn [sys_step];
      (destruct (procs (base S) !! n) as [q|] eqn:Hq; [|by eexists]);
      destruct (so_nodes _ _ _ _ _ _ _ Hok n q Hq) as (h & Hn & Hh);
      (assert (member nnm snm n) as Hm by (apply (so_procs _ _ _ _ _ _ _ Hok); eauto));
      pose proof (so_logs _ _ _ _ _ _ _ Hok n.1 (proj1 Hm)) as Hg.
    + destruct (begin_ok table nnm snm plain G n h q Hm Hg Hn) as (o & -> & Ho). cbn [mbind go_bind]. eexists. split; [done|].
      intros S' (B & ([p out] & -> & [= <-])%bind_Some & [= <-])%bind_Some.
      eapply (agree_advance G hs S n q h _ out []); try done. by apply Ho.
    + destruct (holding q) eqn:Eh; [|by eexists].
      destruct (node_send_ok table nnm snm plain HD G n h q now Hm Hg Hn Eh) as (o & -> & Ho). cbn [mbind go_bind]. eexists. split; [done|].
      intros S' (B & ([p out] & -> & [= <-])%bind_Some & [= <-])%bind_Some.
      eapply (agree_advance G hs S n q h _ out []); try done. by apply Ho.
    + destruct (ending q) as [|k]; [by eexists|].
      destruct (end_ok table nnm snm plain G n h q k Hm Hg Hn) as (o & -> & Ho). cbn [mbind go_bind]. eexists. split; [done|].
      intros S' (B & ([p out] & -> & [= <-])%bind_Some & [= <-])%bind_Some.
      eapply (agree_advance G hs S n q h _ out []); try done. by apply Ho.
    + destruct (wire (base S) !! i) as [[a m]|] eqn:Ew; [|by eexists]. case_bool_decide as Ea; [|by eexists].
      rewrite (n_running _ _ _ _ _ _ _ Hn) in Ea. cbn [self IPaddr] in Ea. subst a. rewrite (n_view _ _ _ _ _ _ _ Hn).
      destruct (agree_message G hs S n q m now clock (delete i (wire (base S))) (handlers S) Ha Hq) as (o & -> & Ho); [| |done|].
      { pose proof (ss_wire _ _ (sv_base _ _ Hsq)) as Hws. unfold seq_out in Hws. rewrite list.Forall_forall in Hws.
        apply (Hws (addr table n, m)). by eapply list_elem_of_lookup_2. }
      { exact (Permutation_app_tail _ (delete_Permutation _ _ _ Ew)). }
      cbn [mbind go_bind]. eexists. split; [done|].
      intros S' (B & ([p out] & -> & [= <-])%bind_Some & [= <-])%bind_Some. by apply Ho.
    + eexists. split; [done|]. intros S' [= <-]. exists G, hs. split; [|done].
      destruct (inject_step table nnm snm plain HD G hs (flat S) n q txs Hok Hq Hi) as [Hok' _].
      apply (sys_ok_perm _ _ _ _ Hok'). cbn [wire flat base handlers]. solve_Permutation.
    + destruct (resume_ok table nnm snm plain HD G n h q now Hm Hg Hn) as (o & -> & Ho). cbn [mbind go_bind]. eexists. split; [done|].
      intros S' (B & ([p out] & -> & [= <-])%bind_Some & [= <-])%bind_Some.
      eapply (agree_advance G hs S n q h _ out []); try done. by apply Ho.
  - destruct (procs (base S) !! n) as [q|] eqn:Hq; [|by eexists]. destruct (wire (base S) !! i) as [[a m]|] eqn:Ew; [|by eexists].
    case_bool_decide as Ea; [|by eexists]. destruct (so_nodes _ _ _ _ _ _ _ Hok n q Hq) as (h & Hn & _).
    rewrite (n_running _ _ _ _ _ _ _ Hn) in Ea. cbn [self IPaddr] in Ea. subst a.
    eexists. split; [done|]. intros S' [= <-]. exists G, hs. split.
    + apply (sys_ok_perm G hs (flat S)); [done|]. cbn [wire flat base handlers]. unfold waiting. rewrite fmap_app.
      etrans; [apply Permutation_app_tail, (delete_Permutation _ _ _ Ew)|]. cbn. solve_Permutation.
    + apply Forall_app. split; [done|]. apply Forall_singleton. apply (n_view _ _ _ _ _ _ _ Hn).
  - destruct (handlers S !! j) as [[n v m]|] eqn:Ej; [|by eexists]. cbn [h_node h_view h_msg].
    destruct (procs (base S) !! n) as [q|] eqn:Hq; [|by eexists].
    assert (v = 0) as -> by (rewrite list.Forall_forall in Hv; apply (Hv (mkHandler n v m)); by eapply list_elem_of_lookup_2).
    destruct (agree_message G hs S n q m now clock (wire (base S)) (delete j (handlers S)) Ha Hq) as (o & -> & Ho); [| |by apply Forall_delete|].
    { pose proof (sv_handlers _ _ Hsq) as Hhs. rewrite list.Forall_forall in Hhs.
      apply (Hhs (mkHandler n 0 m)). by eapply list_elem_of_lookup_2. }
    { cbn [wire flat]. unfold waiting. etrans; [apply Permutation_app_head, fmap_Permutation, (delete_Permutation _ _ _ Ej)|].
      cbn. solve_Permutation. }
    cbn [mbind go_bind]. eexists. split; [done|]. intros S' ([p out] & -> & [= <-])%bind_Some. by apply Ho.
Qed.

Lemma agree_run es : ∀ k G hs S, 0 ≤ k → k + len es < 2 ^ 63 - 1 → seq_vsys k S → agree_ok G hs S → Forall timely es →
  ∃ o, view_run S es = Ok o ∧ ∀ S', o = Some S' → ∃ G' hs', agree_ok G' hs' S'.
Proof.
  induction es as [|e es IH]; intros k G hs S Hk Hl Hsq Ha Hi; cbn [view_run].
  { eexists. split; [done|]. intros S' [= <-]. by exists G, hs. }
  apply Forall_cons in Hi as [Hi1 Hi2]. unfold len in *. cbn [length] in Hl.
  assert (seq_vsys (two64 - 2) S) as Hs2 by (apply (seq_vsys_mono k); [unfold two64; lia|done]).
  destruct (agree_step G hs S e Ha Hs2 Hi1) as (o & Es & Ho). rewrite Es. cbn [mbind go_bind].
  destruct o as [S1|]; [|by eexists]. destruct (Ho S1 eq_refl) as (G1 & hs1 & Ha1).
  apply (IH (k + 1) G1 hs1); [lia|lia| |done|done]. by apply (seq_view_step k S e S1); [lia|apply (dp_plain _ _ _ HD)|..].
Qed.
End steps.

(** C1: the shards agree while nobody times out.  However the goroutines of all processes interleave,
    however the packets are delayed and reordered and however long started handlers wait, in a run of
    fewer than 2^62 events (sequence numbers are 64 bits wide) no process
    panics (no lock is released that is not held, no block fails to decode, no state is missing); and
    at every moment each shard has one log of blocks, each extending the one before it, such that
    every node of the shard has executed and stored a prefix of it and reads from its status trie
    exactly the accounts that executing this prefix gives.  The leader is at most one block behind the
    end of the log. *)
Theorem timely_agreement (table : gmap Z (gmap Z string)) (g : Globals) (nnm snm : Z) (dbs : Z * Z → TrieDB)
    (stores : Z * Z → BoltDB) (now : Time) (S0 : System) (es : list view_event) :
  launch table g nnm snm dbs stores now S0 → len es < run_bound → Forall timely es →
  ∃ o, view_run (view_boot S0) es = Ok o ∧ ∀ S, o = Some S →
    ∃ logs : Z → list Block, ∀ n, member nnm snm n → log_ok n.1 (logs n.1) ∧
      ∃ q h, procs (base S) !! n = Some q ∧ at_height n.1 (logs n.1) h (App (node q)) ∧
        (n.2 = 0 → (length (logs n.1) ≤ Datatypes.S h)%nat) ∧
        ∀ addrs, FetchAccounts (App (node q)) addrs =
          Ok ((λ a, acct (ledger_after n.1 (take h (logs n.1))) a 0) <$> addrs).
Proof.
  intros HL Hb Hi. unfold run_bound in Hb. destruct (boot_ok table g nnm snm dbs stores now S0 HL plain) as [Hok0 _].
  assert (seq_vsys 1 (view_boot S0)) as Hsq by (split; [exact (boot_seq table g nnm snm dbs stores now S0 HL plain)|done]).
  assert (agree_ok table nnm snm (λ _, []) (λ _, 0%nat) (view_boot S0)) as Ha.
  { split; [|done]. unfold flat. cbn. rewrite app_nil_r. by destruct S0. }
  destruct (agree_run table nnm snm (la_dep _ _ _ _ _ _ _ _ HL) es 1 _ _ _ ltac:(lia) ltac:(lia) Hsq Ha Hi) as (o & E & Ho). exists o. split; [done|].
  intros S HS. destruct (Ho S HS) as (G & hs & [Hok _]). exists (λ s, (G s).*1). intros n Hm.
  split; [apply (so_logs _ _ _ _ _ _ _ Hok n.1 (proj1 Hm))|].
  destruct (proj2 (so_procs _ _ _ _ _ _ _ Hok n) Hm) as [q Hq]. destruct (so_nodes _ _ _ _ _ _ _ Hok n q Hq) as (h & Hn & _).
  exists q, h. split; [done|]. split; [apply Hn|]. split; [by apply (leader_near _ _ _ _ _ _ _ Hn)|].
  intros addrs. apply fetch_accounts_spec, (ah_chain _ _ _ _ (n_height _ _ _ _ _ _ _ Hn)).
Qed.
End agree.
