(* ===== verification/SystemViewExample.v ===== *)
(** * Runs of a shard of four nodes with view changes

    All nodes follow the code; packets are only delayed.  A view change while some nodes have voted
    to commit a block forks the shard; one that overtakes a proposal makes the new leader panic; and a
    leader that loses its role during a round never proposes again.  The runs are described by scripts
    that name the kind of the next packet to deliver, and evaluated. *)
From S2P Require Import Prelude Utils Libs Core Messages Storage Chain MerkleProof Overhead.
From S2P Require Import Pbft PbftFacts ViewFacts RelayModule RelayFacts SupervisorProcess Setup SetupFacts System SystemSeq SystemLog SystemNode SystemInv SystemFacts SystemMoney SystemExample SystemView SystemViewFacts SystemViewAgree.

Module FourNodes.
Import CompactCodec.
#[local] Existing Instances ConcreteLibs.crypto ConcreteLibs.bolt ConcreteLibs.crypto_laws ConcreteLibs.crypto_inj ConcreteLibs.bolt_laws.

Definition globals4 : Globals := default_globals <| gShardNum := 1 |> <| gNodesInShard := 4 |>.
#[local] Instance params4 : Params := params_of globals4.

Definition table4 : gmap Z (gmap Z string) :=
  {[ 0 := {[ 0 := "10.0.0.1:1"; 1 := "10.0.0.1:2"; 2 := "10.0.0.1:3"; 3 := "10.0.0.1:4" ]};
     2147483647 := {[ 0 := "10.0.0.2:1" ]} ]}.

Definition boot4 : go System := boot table4 globals4 4 1 (λ _, trie_NewDatabase) (λ _, ∅) 0.

(** ** Scripts *)
Inductive kind := KPrePrepare | KPrepare | KCommit | KViewChange | KNewView.

Definition is_kind (k : kind) (m : Msg) : bool :=
  match k, m with
  | KPrePrepare, MPrePrepare _ | KPrepare, MPrepare _ | KCommit, MCommit _
  | KViewChange, MViewChange _ | KNewView, MNewView _ => true
  | _, _ => false
  end.

(** An event; the delivery of the last packet of a kind that is under way to a node; its arrival only. *)
Inductive cmd := Do (e : view_event) | Give (i : Z) (k : kind) (t : Time) | Start (i : Z) (k : kind).

Definition find_packet (S : VSystem) (i : Z) (k : kind) : option nat :=
  let a := default "" (table4 !! 0 ≫= (.!! i)) in
  let n := length (wire (base S)) in
  head (List.filter (λ j, match wire (base S) !! j with
                          | Some (b, m) => bool_decide (a = b) && is_kind k m
                          | None => false end) (rev (seq 0 n))).

Definition resolve (S : VSystem) (c : cmd) : option view_event :=
  match c with
  | Do e => Some e
  | Give i k t => j ← find_packet S i k; Some (VRun (SDeliver (0, i) j t (λ _, 1)))
  | Start i k => j ← find_packet S i k; Some (VArrive (0, i) j)
  end.

(** The events of a script. *)
Fixpoint plan (S : VSystem) (cs : list cmd) : list view_event :=
  match cs with
  | [] => []
  | c :: cs =>
      match resolve S c with
      | None => []
      | Some e =>
          match view_step S e with
          | Ok (Some S') => e :: plan S' cs
          | _ => [e]
          end
      end
  end.

Definition give (ns : list Z) (k : kind) (count : nat) (t : Time) : list cmd :=
  flat_map (λ i, replicate count (Give i k t)) ns.

Definition propose (i : Z) (t : Time) : list cmd := [Do (VRun (SBegin (0, i))); Do (VRun (SSend (0, i) t))].

Definition all : list Z := [0; 1; 2; 3].
Definition second : Time := 10 ^ 9.

(** The nodes [ns] time out and change the view. *)
Definition change (ns : list Z) (t : Time) : list cmd :=
  ((λ i, Do (VTimer (0, i) t)) <$> ns) ++ give ns KViewChange (length ns) t ++ give ns KNewView (length ns) t.

(** Node 3 alone receives the commit votes for the block of node 0; the others change the view and
    commit a block of node 1. *)
Definition fork_script : list cmd :=
  propose 0 second ++ give all KPrePrepare 1 second ++ give all KPrepare 4 second ++ give [3] KCommit 3 second ++
  change [0; 1; 2] (20 * second) ++
  propose 1 (21 * second) ++ give [0; 1; 2] KPrePrepare 1 (21 * second) ++ give [0; 1; 2] KPrepare 3 (21 * second) ++
  give [0; 1; 2] KCommit 3 (21 * second).

(** The view changes before the proposal of node 0 arrives; it is then agreed on in the view of
    node 1. *)
Definition crash_script : list cmd :=
  propose 0 second ++ change all (20 * second) ++
  give all KPrePrepare 1 (21 * second) ++ give all KPrepare 4 (21 * second) ++ give [1] KCommit 3 (21 * second).

(** Four view changes bring the view back to node 0, whose proposal was never agreed on. *)
Definition rotation_script : list cmd :=
  propose 0 second ++ change all (20 * second) ++ change all (40 * second) ++ change all (60 * second) ++
  change all (80 * second).

(** A round without time-outs; the handler of node 1 waits after the proposal has arrived there. *)
Definition calm_script : list cmd :=
  propose 0 second ++ [Start 1 KPrePrepare] ++ give [0; 2; 3] KPrePrepare 1 second ++
  [Do (VHandle 0 second (λ _, 1))] ++ give all KPrepare 4 second ++ give all KCommit 3 second.

(** Nothing is injected. *)
Definition quiet_cmd (c : cmd) : Prop := match c with Do e => vinject_ok e | _ => True end.

(** Nobody times out. *)
Definition timely_cmd (c : cmd) : Prop := match c with Do e => timely e | _ => True end.

(** What holds of the events a script names and of every delivery holds of its events. *)
Lemma plan_forall (P : view_event → Prop) (Pc : cmd → Prop) cs :
  (∀ S c e, Pc c → resolve S c = Some e → P e) → ∀ S, Forall Pc cs → Forall P (plan S cs).
Proof.
  intros HP. induction cs as [|c cs IH]; intros S Hc; [done|]. apply Forall_cons in Hc as [Hc Hcs]. cbn [plan].
  destruct (resolve S c) as [e|] eqn:Er; [|done]. pose proof (HP S c e Hc Er) as He.
  destruct (view_step S e) as [[S'|]|]; [|by constructor..]. constructor; [done|]. by apply IH.
Qed.

Lemma plan_length cs : ∀ S, len (plan S cs) ≤ len cs.
Proof.
  unfold len. induction cs as [|c cs IH]; intros S; cbn [plan length]; [lia|].
  destruct (resolve S c) as [e|]; [|cbn; lia]. destruct (view_step S e) as [[S'|]|]; cbn [length]; [|lia..]. specialize (IH S'). lia.
Qed.

(** A script is a short run. *)
Lemma plan_short cs S : bool_decide (len cs < run_bound) = true → len (plan S cs) < run_bound.
Proof. intros Hb%bool_decide_eq_true. pose proof (plan_length cs S). lia. Qed.

Ltac resolved :=
  intros ? [e'|i k t|i k] e Hc Er; cbn [resolve] in Er; [by injection Er as <-|..];
  by apply bind_Some in Er as (j & _ & [= <-]).

Lemma plan_ok cs S : Forall quiet_cmd cs → Forall vinject_ok (plan S cs).
Proof. apply plan_forall. resolved. Qed.

Lemma plan_timely cs S : Forall timely_cmd cs → Forall timely (plan S cs).
Proof. apply plan_forall. resolved. Qed.

Lemma give_forall (P : cmd → Prop) ns k count t : (∀ i, P (Give i k t)) → Forall P (give ns k count t).
Proof. intros HP. apply list.Forall_forall. intros c (i & _ & Hc)%list_elem_of_In%in_flat_map. apply list_elem_of_In, elem_of_replicate in Hc as [-> _]. apply HP. Qed.

Lemma change_quiet ns t : Forall quiet_cmd (change ns t).
Proof.
  unfold change. rewrite !Forall_app. split; [|split; by apply give_forall].
  apply Forall_fmap, list.Forall_forall. done.
Qed.

Lemma proposal_quiet i t : Forall quiet_cmd (propose i t).
Proof. by repeat constructor. Qed.

Ltac quiet_script :=
  unfold fork_script, crash_script, rotation_script; repeat (rewrite Forall_app; split);
  match goal with
  | |- Forall _ (give _ _ _ _) => by apply give_forall
  | |- Forall _ (change _ _) => apply change_quiet
  | |- Forall _ (propose _ _) => apply proposal_quiet
  end.

Lemma calm_timely : Forall timely_cmd calm_script.
Proof. unfold calm_script, propose. rewrite !Forall_app. repeat split; first [by apply give_forall | by repeat constructor]. Qed.

(** ** The start *)
Lemma table4_entries n a : entry table4 n = Some a →
  (n, a) ∈ [((0, 0), "10.0.0.1:1"); ((0, 1), "10.0.0.1:2"); ((0, 2), "10.0.0.1:3"); ((0, 3), "10.0.0.1:4"); ((2147483647, 0), "10.0.0.2:1")].
Proof.
  destruct n as [i j]. unfold entry, table4. cbn [fst snd]. intros (t & Ht & Ha)%bind_Some.
  apply lookup_insert_Some in Ht as [[<- <-]|[_ Ht]].
  - repeat (apply lookup_insert_Some in Ha as [[<- <-]|[_ Ha]]; [set_solver|]).
    apply lookup_singleton_Some in Ha as [<- <-]; set_solver.
  - apply lookup_singleton_Some in Ht as [<- <-]. apply lookup_singleton_Some in Ha as [<- <-]. set_solver.
Qed.

Lemma deployment4 : deployment table4 4 1.
Proof.
  split.
  - intros [i j] [Hi Hj]. cbn in Hi, Hj. assert (i = 0) as -> by lia.
    assert (j = 0 ∨ j = 1 ∨ j = 2 ∨ j = 3) as [-> | [-> | [-> | ->]]] by lia; eexists; vm_compute; reflexivity.
  - intros n n' a E1%table4_entries E2%table4_entries. rewrite !elem_of_cons, elem_of_nil in E1, E2. naive_solver.
  - split; [reflexivity|lia].
  - lia.
  - done.
Qed.

Lemma launch4 S0 : boot4 = Ok S0 → launch table4 globals4 4 1 (λ _, trie_NewDatabase) (λ _, ∅) 0 S0.
Proof. intros E. split; [exact deployment4|intros; apply trie_new_db_ok|done|exact E]. Qed.

(** ** The runs *)

(** What a run ends with: a view of the nodes, or a panic. *)
Definition ends {A} (cs : list cmd) (f : VSystem → A) : go (option A) :=
  match boot4 with
  | Panic w => Panic w
  | Ok S0 =>
      match view_run (view_boot S0) (plan (view_boot S0) cs) with
      | Ok r => Ok (option_map f r)
      | Panic w => Panic w
      end
  end.

Definition at_node {A} (i : Z) (f : PbftConsensusNode BlockChain → A) (S : VSystem) : option A :=
  f <$> (node <$> procs (base S) !! (0, i)).

Lemma ends_inv {A} cs (f : VSystem → A) a S0 : boot4 = Ok S0 → ends cs f = Ok (Some a) →
  ∃ S, view_run (view_boot S0) (plan (view_boot S0) cs) = Ok (Some S) ∧ f S = a.
Proof.
  unfold ends. intros ->. destruct (view_run _ _) as [[S1|]|]; cbn; [|done..]. intros [= <-]. by exists S1.
Qed.

Lemma ends_panic {A} cs (f : VSystem → A) w S0 : boot4 = Ok S0 → ends cs f = Panic w →
  view_run (view_boot S0) (plan (view_boot S0) cs) = Panic w.
Proof. unfold ends. intros ->. destruct (view_run _ _) as [r|]; [done|]. by intros [= ->]. Qed.

Lemma at_node_inv {A} i (f : PbftConsensusNode BlockChain → A) S a : at_node i f S = Some a →
  ∃ q, procs (base S) !! (0, i) = Some q ∧ f (node q) = a.
Proof. unfold at_node. intros (p & (q & -> & ->)%fmap_Some & ->)%fmap_Some. by exists q. Qed.

Definition block_of (p : PbftConsensusNode BlockChain) : Z * bytes :=
  (Number (Header (CurrentBlock (App p))), Hash (CurrentBlock (App p))).

Example fork_run : match ends fork_script (λ S, (at_node 0 block_of S, at_node 3 block_of S)) with
  | Ok (Some (Some (n, h), Some (n', h'))) => (n =? 1) && (n' =? 1) && negb (bool_decide (h = h'))
  | _ => false
  end = true.
Proof. vm_compute. reflexivity. Qed.

Example calm_run : ends calm_script (λ S, (λ i, option_map fst (at_node i block_of S)) <$> all) =
  Ok (Some [Some 1; Some 1; Some 1; Some 1]).
Proof. vm_compute. reflexivity. Qed.

Example crash_run : ends crash_script (λ S, ()) = Panic "sync: unlock of unlocked mutex".
Proof. vm_compute. reflexivity. Qed.

Example rotation_run : ends rotation_script (at_node 0 (λ p, (view p, pbftStage p, sequenceLock p, PNodeID p))) = Ok (Some (Some (0, 1, true, 0))).
Proof. vm_compute. reflexivity. Qed.

Lemma booted : ∃ S0, boot4 = Ok S0.
Proof. pose proof rotation_run as P. unfold ends in P. destruct boot4 as [S0|]; [by exists S0|discriminate P]. Qed.

Lemma fork_end : ∃ S0 S, boot4 = Ok S0 ∧ view_run (view_boot S0) (plan (view_boot S0) fork_script) = Ok (Some S) ∧
  ∃ q0 q3, procs (base S) !! (0, 0) = Some q0 ∧ procs (base S) !! (0, 3) = Some q3 ∧
    (block_of (node q0)).1 = 1 ∧ (block_of (node q3)).1 = 1 ∧ (block_of (node q0)).2 ≠ (block_of (node q3)).2.
Proof.
  destruct booted as [S0 E0]. pose proof fork_run as P.
  destruct (ends fork_script _) as [[[[[n h]|] [[n' h']|]]|]|] eqn:E; try discriminate P.
  apply (ends_inv _ _ _ S0 E0) in E as (S1 & E1 & [= Ea Eb]). exists S0, S1. split; [done|]. split; [done|].
  apply at_node_inv in Ea as (q0 & Hq0 & Ea), Eb as (q3 & Hq3 & Eb). exists q0, q3. rewrite Ea, Eb. cbn.
  apply andb_true_iff in P as [[P1 P2]%andb_true_iff P3]. zbool. apply bool_decide_eq_false in P3. auto.
Qed.

(** C6: view changes are unsafe although all nodes follow the code and no packet is lost.  In a shard
    of four nodes, a run of delays and time-outs leads two nodes to execute different blocks as their
    first block; another makes the new leader panic when it commits the proposal of the old one; and
    after a third, which brings the view back to the first leader, that node waits for its own lock
    when it tries to propose. *)
Theorem view_change_unsafe : ∃ S0, launch table4 globals4 4 1 (λ _, trie_NewDatabase) (λ _, ∅) 0 S0 ∧
  (∃ es S, Forall vinject_ok es ∧ view_run (view_boot S0) es = Ok (Some S) ∧
     ∃ q0 q3, procs (base S) !! (0, 0) = Some q0 ∧ procs (base S) !! (0, 3) = Some q3 ∧
       Number (Header (CurrentBlock (App (node q0)))) = 1 ∧ Number (Header (CurrentBlock (App (node q3)))) = 1 ∧
       Hash (CurrentBlock (App (node q0))) ≠ Hash (CurrentBlock (App (node q3)))) ∧
  (∃ es, Forall vinject_ok es ∧ view_run (view_boot S0) es = Panic "sync: unlock of unlocked mutex") ∧
  (∃ es S q, Forall vinject_ok es ∧ view_run (view_boot S0) es = Ok (Some S) ∧ procs (base S) !! (0, 0) = Some q ∧
     leading (node q) ∧ pbftStage (node q) = 1 ∧ Propose_begin (node q) = Ok None).
Proof.
  destruct fork_end as (S0 & S1 & E0 & E1 & Hf). exists S0. split; [by apply launch4|]. split; [|split].
  - exists (plan (view_boot S0) fork_script), S1. split; [apply plan_ok; quiet_script|]. split; [done|]. exact Hf.
  - exists (plan (view_boot S0) crash_script). split; [apply plan_ok; quiet_script|].
    exact (ends_panic _ _ _ S0 E0 crash_run).
  - destruct (ends_inv _ _ _ S0 E0 rotation_run) as (S2 & E2 & (q & Hq & [= Ev Es El Ei])%at_node_inv).
    exists (plan (view_boot S0) rotation_script), S2, q. split; [apply plan_ok; quiet_script|]. split; [exact E2|]. split; [exact Hq|].
    unfold leading, Propose_begin. rewrite Ev, Ei, El. split; [reflexivity|]. split; [exact Es|reflexivity].
Qed.

Lemma view_integrity_witness : ∃ S0 S, boot4 = Ok S0 ∧ view_run (view_boot S0) (plan (view_boot S0) fork_script) = Ok (Some S) ∧
  ∃ q bs, procs (base S) !! (0, 3) = Some q ∧ log_ok 0 bs ∧ at_height 0 bs (length bs) (App (node q)).
Proof.
  destruct fork_end as (S0 & S1 & E0 & E1 & _). exists S0, S1. split; [exact E0|]. split; [exact E1|].
  assert (Forall vinject_ok (plan (view_boot S0) fork_script)) as Hi by (apply plan_ok; quiet_script).
  pose proof (view_integrity table4 globals4 4 1 (λ _, trie_NewDatabase) (λ _, ∅) 0 S0 (plan (view_boot S0) fork_script)
    (launch4 S0 E0) ltac:(lia) (plan_short fork_script _ eq_refl) Hi) as P. rewrite E1 in P.
  destruct (P (0, 3)) as (q & bs & Hq & Hl & Ha & _); [split; cbn; lia|]. exists q, bs. split; [exact Hq|]. split; [exact Hl|exact Ha].
Defined.

Lemma timely_agreement_witness : ∃ S0 S, boot4 = Ok S0 ∧ view_run (view_boot S0) (plan (view_boot S0) calm_script) = Ok (Some S) ∧
  (λ i, option_map fst (at_node i block_of S)) <$> all = [Some 1; Some 1; Some 1; Some 1] ∧
  ∃ (logs : Z → list Block) q h, log_ok 0 (logs 0) ∧ procs (base S) !! (0, 3) = Some q ∧ at_height 0 (logs 0) h (App (node q)).
Proof.
  destruct booted as [S0 E0]. destruct (ends_inv _ _ _ S0 E0 calm_run) as (S1 & E1 & Hb).
  exists S0, S1. split; [exact E0|]. split; [exact E1|]. split; [exact Hb|].
  assert (Forall timely (plan (view_boot S0) calm_script)) as Hi by (apply plan_timely, calm_timely).
  destruct (timely_agreement table4 globals4 4 1 (λ _, trie_NewDatabase) (λ _, ∅) 0 S0 (plan (view_boot S0) calm_script)
    (launch4 S0 E0) (plan_short calm_script _ eq_refl) Hi) as (o & E & Ho). rewrite E1 in E. injection E as <-.
  destruct (Ho S1 eq_refl) as (logs & Hl). destruct (Hl (0, 3)) as (Hlog & q & h & Hq & Ha & _); [split; cbn; lia|].
  exists logs, q, h. split; [exact Hlog|]. split; [exact Hq|exact Ha].
Defined.
End FourNodes.
